(* ===== verification/_CoqProject ===== *)
-Q . S2P
Prelude.v
RustStr.v
Externals.v
Json.v
Concrete.v
CoreError.v
CoreTime.v
CoreReplay.v
CoreResolver.v
HttpMessage.v
SigBase.v
SigInput.v
SigCanonical.v
Policy.v
Blocks.v
Body.v
Floor.v
Sign.v
Full.v
Context.v
Envelope.v
Dispatch.v
Delegation.v
Rejection.v
Chain.v
Bodyless.v
Custody.v
Admission.v
Records.v
Merkle.v
Cose.v
Scitt.v
ScittProps.v
ClientTrust.v
ManifestFloor.v
ClientCore.v
ClientProxy.v
AuthzPolicy.v
Exchange.v
ReplayTier.v
Authorize.v
SigningPlane.v
Serve.v
ServePath.v
ServeProps.v
Fleet.v
Retention.v
RetentionCrash.v
RetentionQueue.v
CoveredSet.v
TrustPlane.v
TrustWindow.v
TrustReload.v
