(* ===== verification/Prelude.v ===== *)
(** * A verification development for MCP Runtime Evidence (mcp-re)

    mcp-re signs and verifies the HTTP messages of the Model Context Protocol. A client signs
    a request (RFC 9421 over method, target, content digest, content type and the security
    headers present) and puts an evidence block into its JSON body; a server verifies it,
    checks the block's audience, artifacts, continuation and admission, admits it once, and
    signs the response over the response and the request, with its own key or with a
    short-lived key that a root delegates to. Fingerprints of signature bases, the evidence
    handles, tie responses and continuations to requests; statements of exchanges go to a
    Merkle log. The crates modelled are [mcp-re-core] (errors, time, replay cache, trust
    resolver, crypto), [mcp-re-http-profile] (the profile), [mcp-re-client-core] and
    [mcp-re-client-proxy] (the client side), [mcp-re-policy], and of [mcp-re-proxy] the serving
    path from an HTTP request to its answer: the server's side of the profile, with its replay
    tier, its continuation store, its evidence store and its backend.

    ** The files and what they model

    - [Prelude]: results and the [?] operator, machine integers, tactics, list lemmas, the hint
      database [mcpre]. [RustStr]: Rust's byte strings and the operations of [str] the sources
      use (split, trim, strip, parse, format, join).
    - [Externals]: the crates [sha2], [base64], [ed25519-dalek], [serde_json] and the serde
      derives as classes of operations, each with a class of the documented laws the code
      relies on. Of [serde_json] that includes that what is printed parses back to the same
      value, for every value; the crate, as it is configured, does not promise this of all
      floating-point numbers nor beyond its nesting limit, so the theorems that name
      [SerdeJsonLaws] or [JsonTreeLaws] speak of bodies where it holds. [Json]: the tree of a [serde_json::Value] with its objects in key order, for
      the code that walks values. [Concrete]: an instance of all of them, so that the
      hypotheses of the theorems are satisfiable and witnesses compute: real base64, a toy hash
      and signature, a JSON value type with a printer and parser.
    - [CoreError] ([mcp-re-core/src/error.rs], [audit]), [CoreTime] ([time]), [CoreReplay]
      ([replay.rs]: the trait as the class [ReplayCache] with its contract [ReplayCacheSpec],
      and the in-memory cache that meets it), [CoreResolver] ([encoding], [hash], [crypto],
      [wire], [resolver]).
    - [HttpMessage] ([ids], [error], [message], [digest], [evidence], [keyid]); [SigBase]
      ([sigbase.rs]); [SigInput] ([verify/floor/sf_dictionary], [covered_components],
      [signature_parameters], [signature_input]); [SigCanonical]: what serializer and parser
      promise each other; [Policy] ([policy], [verify/floor/params], [mcp_transport]);
      [Blocks] ([block], [artifact], [pdp_decision/binding]); [Body] ([body]); [Floor]
      ([verify/floor], [verify/bound_request]); [Sign] ([sign.rs]); [Full] ([verify/full],
      [verified_request], [verified_response], [verifier]); [Context] ([context]: the strip of
      proxy-owned members, and the verified-context block); [Envelope] ([envelope],
      [result_class.rs]); [Dispatch] ([replay.rs], [dispatch]); [Delegation] ([delegation],
      [verify/full/delegated]); [Rejection] ([rejection]); [Chain] ([chain], and the delegated
      entry points of [verifier.rs]); [Bodyless] ([bodyless]); [Custody] ([custody]: the
      rotation of delegated keys as a state machine); [Admission] ([admission],
      [admission_policy], [authoritative_admission/mod.rs]); [Records] ([pdp_decision],
      [authoritative_admission/record]); [Merkle] ([scitt/merkle.rs],
      [scitt/prototype/tree.rs]); [Cose]: the crates [ciborium], [coset] and [p256] as
      interfaces; [Scitt] (the rest of [scitt]: statements, receipts, commitments, pins, the
      prototype log) and [ScittProps], what is proved of it.
    - The client: [ClientTrust] ([mcp-re-client-core/src/delegated_trust], [trust_manifest]);
      [ManifestFloor] ([mcp-re-client-proxy/src/manifest_floor.rs]: the marker directory, what a
      crash may lose of it, several processes interleaved, listings open while it changes); [ClientCore] (building requests,
      verifying responses, [binding_spec], [execution_contract]); [ClientProxy] ([proxy.rs],
      [route.rs], [transport.rs], [verified_outcome.rs]); [AuthzPolicy] ([mcp-re-policy]).
    - The serving proxy, under [mcp-re-proxy/src]: [Exchange] ([exchange_state.rs]: the machine
      that says how far an exchange came and what a retry would risk); [ReplayTier]
      ([async_replay], [config_state/freshness.rs] and the keys of [shared_replay.rs]);
      [Authorize] ([authorization], [communication_assurance/request_peer_binding], the channel
      binding of [transport]); [SigningPlane] ([delegated_server_signer],
      [http_profile_serve/signing_window.rs], [async_inner/completion_bound.rs]); [Serve]: the
      stores behind the handler and the vocabulary of its refusals and records ([refusal],
      [audit_record], [continuation_store], [admission_enforcer]); [ServePath]
      ([http_profile_serve], [request_stages.rs], [http_profile_dispatch.rs]: the handler, stage
      by stage); [ServeProps]: what every run of the handler satisfies; [Fleet]: many handlers
      over one replay tier and one continuation store.
    - The evidence store, [mcp-re-proxy/src/transparency] and [retained_evidence]: [Retention]
      (the covered headers, records, jobs, names, the writer, reading back, [attestation.rs]);
      [RetentionCrash]: the directory, the writer's runs and what a crash leaves of them;
      [RetentionQueue]: the channel, its permits and guards, requests dropped at their awaits;
      [CoveredSet]: the two readers of [Signature-Input] compared.
    - The trust plane, [mcp-re-proxy/src/trust_plane] with [trust_document.rs],
      [reloading_trust.rs], [revocation_tier.rs] and [trust_epoch.rs]: [TrustPlane] (the
      document, the cache, the channels, the tiers, the latch and the reload's cycle);
      [TrustWindow]: resolutions interleaved over one cache, lock by lock; [TrustReload]: what
      a document enrols, and the store over any cycles.

    ** How code is modelled

    A fallible function returns a [Result] and its [?] is [let? x := e in k] and [e ;? k], in
    the source's order, so that the error of every early return is the source's. A function
    that mutates its argument returns the new value beside its result, also on failure
    ([sign_request], [check_and_insert], [dispatch_request]). A [&mut Vec] that is pushed to
    is an accumulator; a closure with a cell, and an [FnMut], takes and returns its state
    ([chain_to_root], [attempt_issuance]).
    Strings and byte vectors are lists of [ascii]. An [i64] or [u64] is a [Z] whose saturating
    and checked operations are written out; theorems carry [is_i64] where the type does. The
    trust resolver, the revocation list and artifact material are functions of the caller, as
    in the source. Loops are structural recursions, but for three with fuel: the JSON scan of
    [Body] with one step per byte and one more, shown enough by
    [representability_scan_terminates]; the tree of [Merkle] with one level per leaf, shown
    enough by [mth_and_path_equation]; and the strip of [Context] with the height of the value,
    shown enough by [strip_equation].

    The serving handler awaits stores, a clock, a signer and a backend that are not its own. It
    is a program over a type of calls, each with the type of its answer ([ServePath.Call] and the
    free monad over it); [runs] relates a program to a trace of calls with answers and to its
    result, so that a theorem about all runs is one about every behaviour of the environment,
    and [Fleet] interprets the same program against shared stores, one call per step, in any
    interleaving, with handlers that are abandoned between two calls as a dropped future is.
    The replay tier's own awaits are steps of [ReplayTier]'s relation, with cancellation and
    lost answers. The evidence writer is a program over its file-system calls; the directory has
    what is seen and what is stored, every call may fail, and entries reach the storage in any
    order until a directory sync. A mutex that can be poisoned carries that as part of its state.

    ** What the theorems show

    - Canonical encodings: signature bases, [Signature-Input] texts, actor ids, audience
      encodings, hash ids, replay slots and resolver keys determine what they encode.
    - The round trip from signer to verifier, for plain, full, delegated and bodyless messages,
      for acknowledgements, rejections, credentials, decisions and admission assertions: what
      is issued is accepted, with the issued facts.
    - Soundness of acceptance: an accepted request, response, credential or assertion has a
      strict signature over exactly the recorded base under a key of the right slot, covers
      what it must, is inside its window, and is the one that was signed.
    - Binding by digest: where the code compares SHA-256 digests, equality of the digested
      values or a named pair of colliding inputs ([collides]).
    - Chains: an audit calls a chain complete exactly when every hop accounts for its position,
      reports the verified prefix otherwise, and the last pair of handles determines the whole
      chain; an acknowledgement answers one transmission; a commitment determines what was
      submitted.
    - Reserved members: the strip removes exactly what the proxy owns, and a backend reads only
      the context the proxy wrote.
    - Single admission: the in-memory cache refines the trait's contract, which keeps a nonce
      until its expiry plus the cache's skew and may then forget it; over any cache with that
      contract the dispatcher burns no nonce on refusal and dispatches a request at most once
      up to that instant.
    - Custody of delegated keys: by rule induction over its steps, with any issuer, factory
      and clock, a custody only serves keys its root attested, names every credential once in
      its audit log, fails closed, and does not turn a declining root into one call per
      request; what it signs is accepted by verifiers that trust the root.
    - Machine arithmetic: windows over saturating [i64] agree with the windows over the
      integers.
    - The Merkle fold is complete and sound against the tree that is built, for every size. What
      is issued and registered verifies offline; a bound tree head speaks for one statement at
      one position; retained messages correspond to a commitment only if they are the committed
      ones.
    - The client: what an accepted response establishes under any trust authority and under a
      loaded manifest; manifests are not rolled back in one process; the durable floor never drops
      below a recorded version, over concurrent processes and crashes, though a listing that a
      higher recording overtakes can read below it; a plain client behind the local proxy gets only
      authentic answers to its own request.
    - The exchange machine: a success is published after every stage and none else, the
      retry verdict only gets stricter, and no coherent exchange is stuck.
    - The serving handler, over all its runs: no dispatch without every gate, no success that is
      not accounted for, a rejection whose served body says to the client exactly what became of
      the request, the audit
      records of every path, and the handler in step with the exchange machine. Over a fleet of
      concurrent handlers: one dispatch per nonce, one dispatch per opened leg.
    - Resources: the replay ledger charges what is held and nothing else, within its ceiling.
    - Evidence: what a commit is answered survives a crash at any point of the writer's run; the
      record of an accepted request has the request's signature base; three places of the
      channel per permit suffice and two do not; a decoy label replaces the covered set.
    - Trust: once the store has dropped a key, no resolution past the window is answered with it,
      in every interleaving; a pending invalidation takes effect for a resolution that nothing
      interrupts, one that meets a resolution under way can be lost; a document enrols what its entries say and no more; a
      store that nothing maintains answers nothing.
    - Authorization and signing: a grant is exactly a verified decision about this actor and
      action; a response is signed only with an attested, live key and inside its window.

    ** What is not modelled

    Sockets, TLS and certificate parsing, OCSP, the key services and their protocols, the Redis
    and etcd stores (answers of the environment to the serving path), the command line, the
    configuration and the wiring of the proxy; the driver and the host processes. The
    crates behind [Externals] and [Cose] are interfaces: nothing is assumed of them but
    their laws, and no theorem assumes a hash without collisions or a signature scheme that
    cannot be forged.

    What could come next: connection quotas, the configuration machines, and the auditor's
    command over [attest_chain]. *)

From Stdlib Require Export Ascii ZArith Lia.
From stdpp Require Export base tactics gmap strings numbers.
From stdpp Require Export list.

#[global] Open Scope Z_scope.
#[global] Set Default Goal Selector "!".

(** ** Results and the [?] operator *)

Inductive Result (T E : Type) : Type :=
| Ok (v : T)
| Err (e : E).
Arguments Ok {T E} v.
Arguments Err {T E} e.

#[global] Instance Result_eq_dec `{EqDecision T, EqDecision E} : EqDecision (Result T E).
Proof. solve_decision. Defined.

Declare Scope rust_scope.
Delimit Scope rust_scope with rust.
#[global] Open Scope rust_scope.

(** [let? x := e in k] is Rust's [let x = e?; k]; [e ;? k] is [e?; k]. *)
Notation "'let?' x ':=' e 'in' k" :=
  (match e with Ok x => k | Err err => Err err end)
  (at level 10, x pattern, e at level 100, k at level 200) : rust_scope.
Notation "e ';?' k" :=
  (match e with Ok _ => k | Err err => Err err end)
  (at level 199, right associativity, k at level 200) : rust_scope.

(** [Option::ok_or], [Result::map_err], [Result::ok] and [is_ok]. *)
Definition ok_or {T E} (o : option T) (e : E) : Result T E :=
  match o with Some v => Ok v | None => Err e end.

Definition map_err {T E F} (f : E → F) (r : Result T E) : Result T F :=
  match r with Ok v => Ok v | Err e => Err (f e) end.

Definition result_ok {T E} (r : Result T E) : option T :=
  match r with Ok v => Some v | Err _ => None end.

Definition is_ok {T E} (r : Result T E) : bool :=
  match r with Ok _ => true | Err _ => false end.

(** [Option::is_some]. *)
Definition is_some {A} (o : option A) : bool := match o with Some _ => true | None => false end.

(** [for x in l { f(x)?; }]: the first error wins. *)
Fixpoint for_each {A E} (f : A → Result unit E) (l : list A) : Result unit E :=
  match l with
  | [] => Ok tt
  | x :: l' => f x ;? for_each f l'
  end.

Lemma ok_or_Ok {T E} (o : option T) (e : E) v : ok_or o e = Ok v ↔ o = Some v.
Proof. destruct o; simpl; naive_solver. Qed.

Lemma map_err_Ok {T E F} (f : E → F) (r : Result T E) v : map_err f r = Ok v ↔ r = Ok v.
Proof. destruct r; simpl; naive_solver. Qed.

Lemma for_each_Ok {A E} (f : A → Result unit E) l :
  for_each f l = Ok tt ↔ Forall (λ x, f x = Ok tt) l.
Proof.
  induction l as [|x l IH]; simpl; [naive_solver|].
  rewrite Forall_cons. destruct (f x) as [[]|]; naive_solver.
Qed.

Lemma for_each_unit {A E} (f : A → Result unit E) l u :
  for_each f l = Ok u → Forall (λ x, f x = Ok tt) l.
Proof. destruct u. apply for_each_Ok. Qed.

(** ** Proof automation

    [inv_ok] opens every [?] of a hypothesis [... = Ok _]: it keeps the branch in which
    the step succeeded and records that fact. *)

Ltac inv_ok_step :=
  match goal with
  | H : Ok _ = Ok _ |- _ => injection H as H; try subst
  | H : Err _ = Ok _ |- _ => discriminate H
  | H : Ok _ = Err _ |- _ => discriminate H
  | H : ok_or _ _ = Ok _ |- _ => apply ok_or_Ok in H
  | H : map_err _ _ = Ok _ |- _ => apply map_err_Ok in H
  | H : match ?e with Ok _ => _ | Err _ => _ end = Ok _ |- _ =>
      let E := fresh "E" in destruct e eqn:E; [|discriminate H]
  | H : match ?e with pair _ _ => _ end = Ok _ |- _ => destruct e
  | H : match ?e with Some _ => _ | None => Err _ end = Ok _ |- _ =>
      let E := fresh "E" in destruct e eqn:E; [|discriminate H]
  | H : (if ?b then Err _ else _) = Ok _ |- _ =>
      let E := fresh "E" in destruct b eqn:E; [discriminate H|]
  | H : (if ?b then _ else Err _) = Ok _ |- _ =>
      let E := fresh "E" in destruct b eqn:E; [|discriminate H]
  | H : (if ?b then Ok tt else Err _) = Ok _ |- _ =>
      let E := fresh "E" in destruct b eqn:E; [|discriminate H]
  end.
Ltac inv_ok := repeat inv_ok_step.

(** Boolean facts, as propositions. *)
Ltac bool_prop :=
  repeat match goal with
  | H : _ && _ = true |- _ => apply andb_true_iff in H; destruct H
  | H : _ || _ = false |- _ => apply orb_false_iff in H; destruct H
  | H : negb _ = true |- _ => apply negb_true_iff in H
  | H : negb _ = false |- _ => apply negb_false_iff in H
  | H : bool_decide _ = true |- _ => apply bool_decide_eq_true_1 in H
  | H : bool_decide _ = false |- _ => apply bool_decide_eq_false_1 in H
  | H : (_ <? _) = true |- _ => apply Z.ltb_lt in H
  | H : (_ <? _) = false |- _ => apply Z.ltb_ge in H
  | H : (_ <=? _) = true |- _ => apply Z.leb_le in H
  | H : (_ <=? _) = false |- _ => apply Z.leb_gt in H
  | H : (_ =? _) = true |- _ => apply Z.eqb_eq in H
  | H : (_ =? _) = false |- _ => apply Z.eqb_neq in H
  end.

(** [Forall] over explicit lists, element by element. *)
Ltac inv_Forall :=
  repeat match goal with
  | H : Forall _ (_ :: _) |- _ => apply Forall_cons in H; destruct H
  | H : Forall _ [] |- _ => clear H
  end.

(** ** Machine integers

    An [i64] is a [Z]; [is_i64] says that it is in range. The saturating and checked
    operations write out what the standard library does at the ends of the range. *)

Definition i64_MIN : Z := -9223372036854775808.
Definition i64_MAX : Z := 9223372036854775807.
Definition u64_MAX : Z := 18446744073709551615.

Definition is_i64 (z : Z) : Prop := i64_MIN ≤ z ≤ i64_MAX.
Definition is_u64 (z : Z) : Prop := 0 ≤ z ≤ u64_MAX.

Definition in_i64 (z : Z) : bool := (i64_MIN <=? z) && (z <=? i64_MAX).
Definition in_u64 (z : Z) : bool := (0 <=? z) && (z <=? u64_MAX).

Definition clamp_i64 (z : Z) : Z := Z.max i64_MIN (Z.min z i64_MAX).
Definition clamp_u64 (z : Z) : Z := Z.max 0 (Z.min z u64_MAX).

Definition saturating_add (a b : Z) : Z := clamp_i64 (a + b).
Definition saturating_sub (a b : Z) : Z := clamp_i64 (a - b).
Definition checked_i64 (z : Z) : option Z := if in_i64 z then Some z else None.
Definition checked_u64 (z : Z) : option Z := if in_u64 z then Some z else None.
Definition checked_add (a b : Z) : option Z := checked_i64 (a + b).
Definition checked_sub (a b : Z) : option Z := checked_i64 (a - b).
Definition checked_mul (a b : Z) : option Z := checked_i64 (a * b).

#[global] Instance is_i64_dec z : Decision (is_i64 z).
Proof. unfold is_i64. apply _. Defined.

Lemma in_i64_spec z : in_i64 z = true ↔ is_i64 z.
Proof. unfold in_i64, is_i64. rewrite andb_true_iff, !Z.leb_le. lia. Qed.

Lemma checked_i64_Some z v : checked_i64 z = Some v ↔ v = z ∧ is_i64 z.
Proof.
  unfold checked_i64. destruct (in_i64 z) eqn:E.
  - apply in_i64_spec in E. naive_solver.
  - split; [done|]. intros [_ H]. apply in_i64_spec in H. congruence.
Qed.

Lemma checked_u64_Some z v : checked_u64 z = Some v ↔ v = z ∧ is_u64 z.
Proof.
  unfold checked_u64, in_u64, is_u64.
  destruct (0 <=? z) eqn:?, (z <=? u64_MAX) eqn:?; simpl; bool_prop; naive_solver lia.
Qed.

Lemma checked_i64_is z : is_i64 z → checked_i64 z = Some z.
Proof. intros H. by apply checked_i64_Some. Qed.

Lemma clamp_i64_id z : is_i64 z → clamp_i64 z = z.
Proof. unfold is_i64, clamp_i64. lia. Qed.

Lemma clamp_i64_range z : is_i64 (clamp_i64 z).
Proof. unfold is_i64, clamp_i64, i64_MIN, i64_MAX. lia. Qed.

(** [lia] with the range predicates and the saturating operations unfolded. *)
Ltac i64_lia :=
  unfold is_i64, is_u64, saturating_add, saturating_sub, clamp_i64, clamp_u64,
    i64_MIN, i64_MAX, u64_MAX in *; lia.

(** ** Lists *)

(** Two lists that agree up to a separator that occurs in neither prefix agree on the
    prefix and on the rest. *)
Lemma app_sep_inj {A} (c : A) (a b a' b' : list A) :
  c ∉ a → c ∉ a' → a ++ c :: b = a' ++ c :: b' → a = a' ∧ b = b'.
Proof.
  revert a'. induction a as [|x a IH]; intros [|x' a'] Ha Ha' Heq; simplify_eq/=.
  - done.
  - set_solver.
  - set_solver.
  - destruct (IH a') as [-> ->]; set_solver.
Qed.

Lemma app_inj_length {A} (a b a' b' : list A) :
  length a = length a' → a ++ b = a' ++ b' → a = a' ∧ b = b'.
Proof. intros Hl Heq. by apply app_inj_1. Qed.

Lemma not_elem_of_Forall {A} (c : A) (P : A → Prop) l :
  Forall P l → ¬ P c → c ∉ l.
Proof. intros HF Hc Hin. apply Hc. by eapply Forall_forall in Hin. Qed.

(** [l.iter().any(p)] and [l.iter().all(p)] are [existsb] and [forallb]. *)
Lemma existsb_elem {A} (p : A → bool) l : existsb p l = true ↔ ∃ x, x ∈ l ∧ p x = true.
Proof.
  rewrite existsb_exists. split; intros (x & Hin & Hp); exists x; split; auto;
    by apply list_elem_of_In.
Qed.

Lemma forallb_Forall {A} (p : A → bool) l : forallb p l = true ↔ Forall (λ x, p x = true) l.
Proof.
  rewrite forallb_forall, Forall_forall.
  split; intros H x Hx; apply H; by apply list_elem_of_In.
Qed.

(** ** Hint databases of the development *)

Create HintDb mcpre.
#[export] Hint Resolve clamp_i64_range checked_i64_is : mcpre.
