(* ===== verification/RustStr.v ===== *)
(** * Rust strings and their standard-library operations

    A [str], a [String] and a [Vec<u8>] are all the list of their bytes ([bytes]); a
    [str] is the list of its UTF-8 bytes. The operations below are the ones the sources
    call. Those that look for an ASCII character or an ASCII pattern act byte by byte,
    which is what they do on UTF-8 text: no byte of a multi-byte character is an ASCII
    byte. [trim] recognises the UTF-8 encodings of every [White_Space] character, as
    [str::trim] does. *)

From S2P Require Import Prelude.

Abbreviation bytes := (list ascii).

Definition lit (s : string) : bytes := String.list_ascii_of_string s.
Notation "'b#' s" := (lit s%string) (at level 1, s at level 0, format "b# s") : rust_scope.

(** ** Bytes *)

Definition cz (c : ascii) : Z := Z.of_N (N_of_ascii c).
Definition chr (z : Z) : ascii := ascii_of_N (Z.to_N z).

Definition DQUOTE : ascii := "034"%char.
Definition BACKSLASH : ascii := "092"%char.
Definition LF : ascii := "010"%char.
Definition CR : ascii := "013"%char.
Definition TAB : ascii := "009"%char.
Definition SPACE : ascii := " "%char.

Lemma cz_range c : 0 ≤ cz c < 256.
Proof. unfold cz. pose proof (N_ascii_bounded c). lia. Qed.

Lemma cz_inj c d : cz c = cz d → c = d.
Proof.
  unfold cz. intros H. apply N2Z.inj in H.
  rewrite <-(ascii_N_embedding c), <-(ascii_N_embedding d). by rewrite H.
Qed.

Lemma cz_chr z : 0 ≤ z < 256 → cz (chr z) = z.
Proof. intros H. unfold cz, chr. rewrite N_ascii_embedding; lia. Qed.

Lemma chr_cz c : chr (cz c) = c.
Proof. unfold chr, cz. by rewrite N2Z.id, ascii_N_embedding. Qed.

Definition ascii_eqb (c d : ascii) : bool := Ascii.eqb c d.

Lemma ascii_eqb_true c d : ascii_eqb c d = true ↔ c = d.
Proof. apply Ascii.eqb_eq. Qed.
Lemma ascii_eqb_false c d : ascii_eqb c d = false ↔ c ≠ d.
Proof. apply Ascii.eqb_neq. Qed.
Lemma ascii_eqb_refl c : ascii_eqb c c = true.
Proof. apply Ascii.eqb_refl. Qed.

Definition is_ascii_digit (c : ascii) : bool := (48 <=? cz c) && (cz c <=? 57).
Definition is_ascii_upper (c : ascii) : bool := (65 <=? cz c) && (cz c <=? 90).
Definition is_ascii_lower (c : ascii) : bool := (97 <=? cz c) && (cz c <=? 122).
Definition is_ascii_alphanumeric (c : ascii) : bool :=
  is_ascii_digit c || is_ascii_upper c || is_ascii_lower c.
Definition to_ascii_lowercase_char (c : ascii) : ascii :=
  if is_ascii_upper c then chr (cz c + 32) else c.

(** Visible ASCII: the bytes [0x21..=0x7E]. *)
Definition is_vchar (c : ascii) : bool := (33 <=? cz c) && (cz c <=? 126).
(** Printable ASCII: the bytes [0x20..=0x7E]. *)
Definition is_printable (c : ascii) : bool := (32 <=? cz c) && (cz c <=? 126).

(** A fact about one byte, by its 256 cases. *)
Ltac ascii_cases c := destruct c as [[] [] [] [] [] [] [] []].

(** ** [str] operations *)

Definition bytes_eqb (a b : bytes) : bool := bool_decide (a = b).

Definition to_ascii_lowercase (s : bytes) : bytes := map to_ascii_lowercase_char s.

Definition eq_ignore_ascii_case (a b : bytes) : bool :=
  bytes_eqb (to_ascii_lowercase a) (to_ascii_lowercase b).

Fixpoint strip_prefix (p s : bytes) : option bytes :=
  match p, s with
  | [], _ => Some s
  | c :: p', d :: s' => if ascii_eqb c d then strip_prefix p' s' else None
  | _ :: _, [] => None
  end.

Definition strip_suffix (p s : bytes) : option bytes :=
  match strip_prefix (rev p) (rev s) with Some r => Some (rev r) | None => None end.

Definition starts_with (p s : bytes) : bool :=
  match strip_prefix p s with Some _ => true | None => false end.
Definition ends_with (p s : bytes) : bool :=
  match strip_suffix p s with Some _ => true | None => false end.

(** [s.contains(p)] for a pattern [p]. *)
Fixpoint contains_str (p s : bytes) : bool :=
  starts_with p s || match s with [] => false | _ :: s' => contains_str p s' end.

(** [s.split(c)]: always at least one piece. *)
Fixpoint split_char (c : ascii) (s : bytes) : list bytes :=
  match s with
  | [] => [[]]
  | x :: s' =>
      if ascii_eqb x c then [] :: split_char c s'
      else match split_char c s' with
           | p :: ps => (x :: p) :: ps
           | [] => [[x]]
           end
  end.

(** [s.split_once(p)] for a character and for a string pattern. *)
Fixpoint split_once_char (c : ascii) (s : bytes) : option (bytes * bytes) :=
  match s with
  | [] => None
  | x :: s' =>
      if ascii_eqb x c then Some ([], s')
      else match split_once_char c s' with
           | Some (a, b) => Some (x :: a, b)
           | None => None
           end
  end.

Fixpoint split_once_str (p s : bytes) : option (bytes * bytes) :=
  match strip_prefix p s with
  | Some rest => Some ([], rest)
  | None =>
      match s with
      | [] => None
      | x :: s' => match split_once_str p s' with
                   | Some (a, b) => Some (x :: a, b)
                   | None => None
                   end
      end
  end.

(** [s.rsplit_once(c)]. *)
Definition rsplit_once_char (c : ascii) (s : bytes) : option (bytes * bytes) :=
  match split_once_char c (rev s) with
  | Some (b, a) => Some (rev a, rev b)
  | None => None
  end.

(** [s.find(|c| p c)]: the position of the first byte that satisfies [p]. *)
Fixpoint find_byte (p : ascii → bool) (s : bytes) : option nat :=
  match s with
  | [] => None
  | x :: s' => if p x then Some 0%nat
               else match find_byte p s' with Some i => Some (S i) | None => None end
  end.

(** [s.replace(c, r)] for a character pattern. *)
Fixpoint replace_char (c : ascii) (r s : bytes) : bytes :=
  match s with
  | [] => []
  | x :: s' => (if ascii_eqb x c then r else [x]) ++ replace_char c r s'
  end.

(** [parts.join(sep)]. *)
Fixpoint join (sep : bytes) (parts : list bytes) : bytes :=
  match parts with
  | [] => []
  | [p] => p
  | p :: ps => p ++ sep ++ join sep ps
  end.

(** ** [str::trim]

    The [White_Space] characters in UTF-8: the six ASCII ones (0x09..0x0D and 0x20), the
    two-byte U+0085 and U+00A0, and the three-byte U+1680, U+2000..U+200A, U+2028,
    U+2029, U+202F, U+205F and U+3000. *)

Definition ws1 (c : ascii) : bool := ((9 <=? cz c) && (cz c <=? 13)) || (cz c =? 32).
Definition ws2 (c d : ascii) : bool := (cz c =? 194) && ((cz d =? 133) || (cz d =? 160)).
Definition ws3 (c d e : ascii) : bool :=
  ((cz c =? 225) && (cz d =? 154) && (cz e =? 128))
  || ((cz c =? 226) && (cz d =? 128)
      && (((128 <=? cz e) && (cz e <=? 138)) || (cz e =? 168) || (cz e =? 169)
          || (cz e =? 175)))
  || ((cz c =? 226) && (cz d =? 129) && (cz e =? 159))
  || ((cz c =? 227) && (cz d =? 128) && (cz e =? 128)).

Fixpoint trim_start (s : bytes) : bytes :=
  match s with
  | [] => []
  | c :: s1 =>
      if ws1 c then trim_start s1
      else match s1 with
           | [] => s
           | d :: s2 =>
               if ws2 c d then trim_start s2
               else match s2 with
                    | [] => s
                    | e :: s3 => if ws3 c d e then trim_start s3 else s
                    end
           end
  end.

(** The same on a reversed string, whose characters have their last byte first. *)
Fixpoint trim_start_rev (s : bytes) : bytes :=
  match s with
  | [] => []
  | e :: s1 =>
      if ws1 e then trim_start_rev s1
      else match s1 with
           | [] => s
           | d :: s2 =>
               if ws2 d e then trim_start_rev s2
               else match s2 with
                    | [] => s
                    | c :: s3 => if ws3 c d e then trim_start_rev s3 else s
                    end
           end
  end.

Definition trim_end (s : bytes) : bytes := rev (trim_start_rev (rev s)).
Definition trim (s : bytes) : bytes := trim_end (trim_start s).

(** ** Decimal numbers: [Display] and [FromStr] *)

Definition digit_char (d : Z) : ascii := chr (48 + d).
Definition digit_val (c : ascii) : Z := cz c - 48.

Fixpoint fmt_go (fuel : nat) (n : Z) : bytes :=
  match fuel with
  | O => []
  | S f => if n <? 10 then [digit_char n] else fmt_go f (n / 10) ++ [digit_char (n mod 10)]
  end.

(** [format!("{}", n)] of a non-negative and of a signed integer. Every iteration
    divides by ten, so [log2 n + 1] iterations are enough ([fmt_nat_eq]). *)
Definition fmt_nat (n : Z) : bytes := fmt_go (S (Z.to_nat (Z.log2 n))) n.
Definition fmt_int (z : Z) : bytes :=
  if z <? 0 then "-"%char :: fmt_nat (- z) else fmt_nat z.

(** [format!("{:0w$}", n)] of a signed integer: the sign counts towards the width. *)
Definition pad_left (w : nat) (s : bytes) : bytes := replicate (w - length s) "0"%char ++ s.
Definition fmt_pad (w : nat) (z : Z) : bytes :=
  if z <? 0 then "-"%char :: pad_left (w - 1) (fmt_nat (- z)) else pad_left w (fmt_nat z).

Definition dec_val (s : bytes) : Z := fold_left (λ acc c, 10 * acc + digit_val c) s 0.

(** [s.parse::<i64>()]: an optional sign, at least one digit, and a value in range. *)
Definition parse_signed (s : bytes) : option Z :=
  let '(neg, ds) :=
    match s with
    | "-"%char :: ds => (true, ds)
    | "+"%char :: ds => (false, ds)
    | _ => (false, s)
    end in
  match ds with
  | [] => None
  | _ => if forallb is_ascii_digit ds
         then Some (if neg : bool then - dec_val ds else dec_val ds) else None
  end.

Definition str_parse_i64 (s : bytes) : option Z :=
  match parse_signed s with Some z => checked_i64 z | None => None end.

(** ** Lemmas *)

Lemma bytes_eqb_true a b : bytes_eqb a b = true ↔ a = b.
Proof. unfold bytes_eqb. by rewrite bool_decide_eq_true. Qed.
Lemma bytes_eqb_false a b : bytes_eqb a b = false ↔ a ≠ b.
Proof. unfold bytes_eqb. by rewrite bool_decide_eq_false. Qed.
Lemma bytes_eqb_refl a : bytes_eqb a a = true.
Proof. by apply bytes_eqb_true. Qed.

Ltac str_prop :=
  bool_prop;
  repeat match goal with
  | H : bytes_eqb _ _ = true |- _ => apply bytes_eqb_true in H
  | H : bytes_eqb _ _ = false |- _ => apply bytes_eqb_false in H
  | H : ascii_eqb _ _ = true |- _ => apply ascii_eqb_true in H
  | H : ascii_eqb _ _ = false |- _ => apply ascii_eqb_false in H
  end.

Lemma strip_prefix_Some p s r : strip_prefix p s = Some r ↔ s = p ++ r.
Proof.
  revert s. induction p as [|c p IH]; intros [|d s]; simpl; try naive_solver.
  destruct (ascii_eqb c d) eqn:E; str_prop.
  - subst. rewrite IH. naive_solver.
  - naive_solver.
Qed.

Lemma strip_prefix_app p r : strip_prefix p (p ++ r) = Some r.
Proof. by apply strip_prefix_Some. Qed.

Lemma strip_suffix_Some p s r : strip_suffix p s = Some r ↔ s = r ++ p.
Proof.
  unfold strip_suffix. destruct (strip_prefix (rev p) (rev s)) as [t|] eqn:E.
  - apply strip_prefix_Some in E. apply (f_equal (@rev ascii)) in E.
    rewrite rev_app_distr, !rev_involutive in E. subst s. split.
    + intros [=]. by subst.
    + intros H. by apply app_inv_tail in H as ->.
  - split; [done|]. intros ->. exfalso. rewrite rev_app_distr in E.
    by rewrite strip_prefix_app in E.
Qed.

Lemma strip_suffix_app p r : strip_suffix p (r ++ p) = Some r.
Proof. by apply strip_suffix_Some. Qed.

Lemma starts_with_true p s : starts_with p s = true ↔ ∃ r, s = p ++ r.
Proof.
  unfold starts_with. destruct (strip_prefix p s) eqn:E.
  - apply strip_prefix_Some in E. naive_solver.
  - split; [done|]. intros [r ->]. by rewrite strip_prefix_app in E.
Qed.

Lemma ends_with_true p s : ends_with p s = true ↔ ∃ r, s = r ++ p.
Proof.
  unfold ends_with. destruct (strip_suffix p s) eqn:E.
  - apply strip_suffix_Some in E. naive_solver.
  - split; [done|]. intros [r ->]. by rewrite strip_suffix_app in E.
Qed.

Lemma split_char_nosep c s : c ∉ s → split_char c s = [s].
Proof.
  induction s as [|x s IH]; intros Hn; [done|]; simpl.
  destruct (ascii_eqb x c) eqn:E; str_prop; [set_solver|]. rewrite IH; [done|set_solver].
Qed.

Lemma split_char_app c a b : c ∉ a → split_char c (a ++ c :: b) = a :: split_char c b.
Proof.
  induction a as [|x a IH]; intros Hn; simpl.
  - by rewrite ascii_eqb_refl.
  - destruct (ascii_eqb x c) eqn:E; str_prop; [set_solver|]. rewrite IH; [done|set_solver].
Qed.

Lemma split_char_nonempty c s : split_char c s ≠ [].
Proof.
  destruct s as [|x s]; simpl; [done|].
  destruct (ascii_eqb x c); [done|]. by destruct (split_char c s).
Qed.

Lemma split_char_pieces c s : Forall (λ p, c ∉ p) (split_char c s).
Proof.
  induction s as [|x s IH]; simpl; [repeat constructor; set_solver|].
  destruct (ascii_eqb x c) eqn:E; str_prop.
  - constructor; [set_solver|done].
  - destruct (split_char c s); constructor; [set_solver|constructor| |]; inversion IH; set_solver.
Qed.

Lemma split_char_single c s p : split_char c s = [p] → s = p ∧ c ∉ p.
Proof.
  intros H. pose proof (split_char_pieces c s) as HF. rewrite H in HF.
  split; [|by inversion HF].
  revert p H HF. induction s as [|x s IH]; simpl; intros p H HF; [congruence|].
  destruct (ascii_eqb x c) eqn:E; str_prop.
  - injection H as _ H. by apply split_char_nonempty in H.
  - destruct (split_char c s) as [|q qs] eqn:Es; [by apply split_char_nonempty in Es|].
    injection H as <- ->. f_equal. apply IH; [done|].
    inversion HF; constructor; [set_solver|done].
Qed.

Lemma split_char_cons c s p q qs :
  split_char c s = p :: q :: qs →
  ∃ r, s = p ++ c :: r ∧ split_char c r = q :: qs ∧ c ∉ p.
Proof.
  revert p. induction s as [|x s IH]; simpl; intros p H; [congruence|].
  destruct (ascii_eqb x c) eqn:E; str_prop.
  - injection H as <- H. subst. exists s. set_solver.
  - destruct (split_char c s) as [|p' qs'] eqn:Es; [by apply split_char_nonempty in Es|].
    injection H as <- ->. destruct (IH p' eq_refl) as (b & -> & Hb & Hn).
    exists b. set_solver.
Qed.

Lemma split_once_char_Some c s a b :
  split_once_char c s = Some (a, b) ↔ s = a ++ c :: b ∧ c ∉ a.
Proof.
  revert a b. induction s as [|x s IH]; intros a b; simpl.
  - split; [done|]. intros [H _]. by destruct a.
  - destruct (ascii_eqb x c) eqn:E; str_prop.
    + subst. split.
      * intros [= <- <-]. split; [done|set_solver].
      * intros [H Hn]. destruct a as [|y a]; simplify_eq/=; [done|set_solver].
    + destruct (split_once_char c s) as [[a' b']|] eqn:Es.
      * destruct (proj1 (IH a' b')) as [-> Hn]; [done|]. split.
        -- intros [= <- <-]. split; [done|set_solver].
        -- intros [H Hn']. destruct a as [|y a]; simplify_eq/=.
           destruct (app_sep_inj c a' b' a b) as [-> ->]; set_solver.
      * split; [done|]. intros [H Hn]. destruct a as [|y a]; simplify_eq/=.
        assert (None = Some (a, b)) as [=]. { apply IH. set_solver. }
Qed.

Lemma split_once_char_app c a b : c ∉ a → split_once_char c (a ++ c :: b) = Some (a, b).
Proof. intros. by apply split_once_char_Some. Qed.

Lemma find_byte_Some p s i :
  find_byte p s = Some i ↔
    ∃ a c b, s = a ++ c :: b ∧ i = length a ∧ p c = true ∧ Forall (λ x, p x = false) a.
Proof.
  revert i. induction s as [|x s IH]; intros i; simpl.
  - split; [done|]. intros (a & c & b & H & _). by destruct a.
  - destruct (p x) eqn:E.
    + split.
      * intros [= <-]. exists [], x, s. naive_solver.
      * intros (a & c & b & H & -> & _ & HF). destruct a; [done|]. simplify_eq/=.
        inversion HF. congruence.
    + destruct (find_byte p s) as [j|] eqn:Es.
      * destruct (proj1 (IH j) eq_refl) as (a & c & b & -> & -> & Hc & HF). split.
        -- intros [= <-]. exists (x :: a), c, b. naive_solver.
        -- intros ([|y a'] & c' & b' & H & -> & Hc' & HF'); simplify_eq/=; [congruence|].
           f_equal. assert (Some (length a) = Some (length a')) as [= ->]; [|done].
           apply IH. exists a', c', b'. inversion HF'. naive_solver.
      * split; [done|].
        intros ([|y a'] & c' & b' & H & -> & Hc' & HF'); simplify_eq/=; [congruence|].
        assert (None = Some (length a')) as [=]. apply IH.
        exists a', c', b'. inversion HF'. naive_solver.
Qed.

(** ** [trim] keeps a string whose ends are visible ASCII *)

Lemma vchar_not_ws1 c : is_vchar c = true → ws1 c = false.
Proof. unfold is_vchar, ws1. intros H. bool_prop. apply orb_false_iff. split; lia. Qed.

Lemma vchar_not_ws2_l c d : is_vchar c = true → ws2 c d = false.
Proof. unfold is_vchar, ws2. intros H. bool_prop. destruct (cz c =? 194) eqn:?; bool_prop; [lia|done]. Qed.

Lemma vchar_not_ws2_r c d : is_vchar d = true → ws2 c d = false.
Proof.
  unfold is_vchar, ws2. intros H. bool_prop.
  replace (cz d =? 133) with false by lia. replace (cz d =? 160) with false by lia.
  by rewrite andb_false_r.
Qed.

Lemma vchar_not_ws3_l c d e : is_vchar c = true → ws3 c d e = false.
Proof.
  unfold is_vchar, ws3. intros H. bool_prop.
  replace (cz c =? 225) with false by lia. replace (cz c =? 226) with false by lia.
  by replace (cz c =? 227) with false by lia.
Qed.

Lemma vchar_not_ws3_r c d e : is_vchar e = true → ws3 c d e = false.
Proof.
  unfold is_vchar, ws3. intros H. bool_prop.
  replace (cz e =? 128) with false by lia. replace (128 <=? cz e) with false by lia.
  replace (cz e =? 168) with false by lia. replace (cz e =? 169) with false by lia.
  replace (cz e =? 175) with false by lia. replace (cz e =? 159) with false by lia.
  by rewrite !andb_false_r.
Qed.

Lemma trim_start_id c s : is_vchar c = true → trim_start (c :: s) = c :: s.
Proof.
  intros H. simpl. rewrite vchar_not_ws1 by done. destruct s as [|d [|e s]]; [done| |].
  - by rewrite vchar_not_ws2_l.
  - by rewrite vchar_not_ws2_l, vchar_not_ws3_l.
Qed.

Lemma trim_start_rev_id c s : is_vchar c = true → trim_start_rev (c :: s) = c :: s.
Proof.
  intros H. simpl. rewrite vchar_not_ws1 by done. destruct s as [|d [|e s]]; [done| |].
  - by rewrite vchar_not_ws2_r.
  - by rewrite vchar_not_ws2_r, vchar_not_ws3_r.
Qed.

Lemma trim_end_id s c : is_vchar c = true → trim_end (s ++ [c]) = s ++ [c].
Proof.
  intros H. unfold trim_end. rewrite rev_app_distr. simpl rev at 2.
  change ([c] ++ rev s) with (c :: rev s). rewrite trim_start_rev_id by done.
  simpl. by rewrite rev_involutive.
Qed.

(** The first and the last byte of [s], when there is one, are visible ASCII. *)
Definition trimmed (s : bytes) : Prop :=
  match s with [] => True | c :: _ => is_vchar c = true end ∧
  match last s with None => True | Some c => is_vchar c = true end.

Lemma trim_id s : trimmed s → trim s = s.
Proof.
  intros [H1 H2]. destruct s as [|c s]; [done|]. unfold trim.
  rewrite trim_start_id by done.
  destruct (exists_last (l := c :: s)) as (l & x & Heq); [done|].
  rewrite Heq in *. rewrite last_snoc in H2. by apply trim_end_id.
Qed.

Lemma trimmed_vchar s : Forall (λ c, is_vchar c = true) s → trimmed s.
Proof.
  intros HF. split; [by destruct HF|]. destruct (last s) eqn:E; [|done].
  apply last_Some_elem_of in E. by eapply Forall_forall in HF.
Qed.

(** ** Decimal numbers: printing and parsing are inverse *)

Lemma digit_val_char d : 0 ≤ d < 10 → digit_val (digit_char d) = d.
Proof. intros H. unfold digit_val, digit_char. rewrite cz_chr; lia. Qed.

Lemma digit_char_val c : is_ascii_digit c = true → digit_char (digit_val c) = c.
Proof.
  intros H. unfold digit_char, digit_val.
  replace (48 + (cz c - 48)) with (cz c) by lia. apply chr_cz.
Qed.

Lemma digit_val_range c : is_ascii_digit c = true → 0 ≤ digit_val c < 10.
Proof. unfold is_ascii_digit, digit_val. intros H. bool_prop. lia. Qed.

Lemma digit_char_digit d : 0 ≤ d < 10 → is_ascii_digit (digit_char d) = true.
Proof.
  intros H. unfold is_ascii_digit, digit_char. rewrite cz_chr by lia.
  apply andb_true_iff. lia.
Qed.

Lemma fmt_go_irrel f f' n :
  0 ≤ n < 10 ^ Z.of_nat f → n < 10 ^ Z.of_nat f' → (0 < f)%nat → (0 < f')%nat →
  fmt_go f n = fmt_go f' n.
Proof.
  revert f' n. induction f as [|f IH]; intros [|f'] n Hn Hn' Hf Hf'; try lia.
  simpl. destruct (n <? 10) eqn:E; [done|]. bool_prop. f_equal.
  rewrite Nat2Z.inj_succ, Z.pow_succ_r in Hn, Hn' by lia.
  destruct f as [|f]; [simpl in Hn; lia|]. destruct f' as [|f']; [simpl in Hn'; lia|].
  apply IH; [split; [apply Z.div_pos; lia|]| | |]; try lia;
    apply Z.div_lt_upper_bound; lia.
Qed.

Lemma fmt_fuel n : 0 ≤ n → n < 10 ^ Z.of_nat (S (Z.to_nat (Z.log2 n))).
Proof.
  intros Hn. destruct (decide (n = 0)) as [->|Hne]; [done|].
  pose proof (Z.log2_spec n ltac:(lia)) as [_ Hlt].
  pose proof (Z.log2_nonneg n). rewrite Nat2Z.inj_succ, Z2Nat.id by done.
  eapply Z.lt_le_trans; [apply Hlt|]. apply Z.pow_le_mono_l. lia.
Qed.

(** The recursion equation of [Display]: the fuel is enough. *)
Lemma fmt_nat_eq n :
  0 ≤ n →
  fmt_nat n = if n <? 10 then [digit_char n] else fmt_nat (n / 10) ++ [digit_char (n mod 10)].
Proof.
  intros Hn. unfold fmt_nat at 1. cbn [fmt_go]. destruct (n <? 10) eqn:E; [done|].
  bool_prop. f_equal. pose proof (fmt_fuel n Hn) as Hf.
  rewrite Nat2Z.inj_succ, Z.pow_succ_r in Hf by lia.
  destruct (Z.to_nat (Z.log2 n)) as [|k] eqn:Ek; [simpl in Hf; lia|].
  apply fmt_go_irrel; [| |lia|lia].
  - split; [apply Z.div_pos; lia|]. apply Z.div_lt_upper_bound; lia.
  - apply fmt_fuel, Z.div_pos; lia.
Qed.

(** Induction along the recursion of [Display]. *)
Lemma dec_ind (P : Z → Prop) :
  (∀ n, 0 ≤ n < 10 → P n) → (∀ n, 10 ≤ n → P (n / 10) → P n) → ∀ n, 0 ≤ n → P n.
Proof.
  intros Hb Hs n Hn. apply (Z_lt_induction (λ n, 0 ≤ n → P n)) with (x := n); [|done..].
  intros m IH Hm. destruct (decide (m < 10)); [apply Hb; lia|].
  apply Hs; [lia|]. apply IH; [|apply Z.div_pos; lia].
  split; [apply Z.div_pos; lia|apply Z.div_lt; lia].
Qed.

Lemma dec_val_snoc s c : dec_val (s ++ [c]) = 10 * dec_val s + digit_val c.
Proof. unfold dec_val. by rewrite fold_left_app. Qed.

Lemma dec_val_fmt n : 0 ≤ n → dec_val (fmt_nat n) = n.
Proof.
  revert n. apply dec_ind.
  - intros n Hn. rewrite fmt_nat_eq by lia. replace (n <? 10) with true by lia.
    unfold dec_val. simpl. rewrite digit_val_char; lia.
  - intros n Hn IH. rewrite fmt_nat_eq by lia. replace (n <? 10) with false by lia.
    rewrite dec_val_snoc, IH, digit_val_char by (apply Z.mod_pos_bound; lia).
    symmetry. apply Z.div_mod. lia.
Qed.

Lemma fmt_nat_digits n : 0 ≤ n → Forall (λ c, is_ascii_digit c = true) (fmt_nat n).
Proof.
  revert n. apply dec_ind.
  - intros n Hn. rewrite fmt_nat_eq by lia. replace (n <? 10) with true by lia.
    repeat constructor. by apply digit_char_digit.
  - intros n Hn IH. rewrite fmt_nat_eq by lia. replace (n <? 10) with false by lia.
    apply Forall_app. split; [done|]. repeat constructor.
    apply digit_char_digit, Z.mod_pos_bound. lia.
Qed.

Lemma fmt_nat_nonempty n : 0 ≤ n → fmt_nat n ≠ [].
Proof.
  intros Hn. rewrite fmt_nat_eq by done. destruct (n <? 10); [done|]. by destruct (fmt_nat (n/10)).
Qed.

(** No leading zero, except in ["0"] itself. *)
Lemma fmt_nat_head n : 0 < n → ∃ c s, fmt_nat n = c :: s ∧ c ≠ "0"%char.
Proof.
  intros Hn. assert (0 ≤ n) as H by lia. revert Hn. revert n H. apply (dec_ind (λ n, 0 < n → _)).
  - intros n Hn Hp. rewrite fmt_nat_eq by lia. replace (n <? 10) with true by lia.
    eexists _, _. split; [done|]. intros Hz. apply (f_equal digit_val) in Hz.
    rewrite digit_val_char in Hz by lia. change (digit_val "0") with 0 in Hz. lia.
  - intros n Hn IH _. destruct IH as (c & s & Hc & Hne).
    { apply Z.div_str_pos. lia. }
    rewrite fmt_nat_eq by lia. replace (n <? 10) with false by lia.
    rewrite Hc. by eexists _, _.
Qed.

Lemma dec_val_nonneg s : Forall (λ c, is_ascii_digit c = true) s → 0 ≤ dec_val s.
Proof.
  induction s as [|c s IH] using rev_ind; [done|]. rewrite Forall_app, Forall_singleton.
  intros [Hs Hc]. rewrite dec_val_snoc. pose proof (digit_val_range c Hc). specialize (IH Hs). lia.
Qed.

Lemma dec_val_pos c s :
  Forall (λ c, is_ascii_digit c = true) (c :: s) → c ≠ "0"%char → 0 < dec_val (c :: s).
Proof.
  intros HF Hc. revert HF. induction s as [|d s IH] using rev_ind; intros HF.
  - inversion HF as [|? ? Hd _]; subst. unfold dec_val. simpl.
    pose proof (digit_val_range c Hd). destruct (decide (digit_val c = 0)) as [E|]; [|lia].
    exfalso. apply Hc. rewrite <-(digit_char_val c Hd), E. done.
  - change (c :: s ++ [d]) with ((c :: s) ++ [d]) in *.
    apply Forall_app in HF as [Hs Hd]. inversion Hd; subst.
    rewrite dec_val_snoc. pose proof (digit_val_range d ltac:(done)). specialize (IH Hs). lia.
Qed.

(** Digits without a superfluous leading zero are the [Display] of their value. *)
Lemma fmt_nat_dec_val s :
  Forall (λ c, is_ascii_digit c = true) s → s ≠ [] →
  (s = b#"0" ∨ ∃ c r, s = c :: r ∧ c ≠ "0"%char) → fmt_nat (dec_val s) = s.
Proof.
  intros HF Hne [->|(c & r & -> & Hc)]; [done|]. clear Hne.
  induction r as [|d r IH] using rev_ind.
  - inversion HF; subst. pose proof (digit_val_range c ltac:(done)).
    change (dec_val [c]) with (0 + digit_val c). rewrite Z.add_0_l, fmt_nat_eq by lia.
    replace (digit_val c <? 10) with true by lia. by rewrite digit_char_val.
  - change (c :: r ++ [d]) with ((c :: r) ++ [d]) in *.
    apply Forall_app in HF as [Hs Hd]. inversion Hd; subst.
    pose proof (dec_val_pos c r Hs Hc). pose proof (digit_val_range d ltac:(done)).
    rewrite dec_val_snoc, fmt_nat_eq by lia.
    replace (10 * dec_val (c :: r) + digit_val d <? 10) with false by lia.
    replace ((10 * dec_val (c :: r) + digit_val d) / 10) with (dec_val (c :: r))
      by (rewrite Z.mul_comm, Z.div_add_l, Z.div_small; lia).
    replace ((10 * dec_val (c :: r) + digit_val d) mod 10) with (digit_val d)
      by (rewrite Z.mul_comm, Z.add_comm, Z.mod_add, Z.mod_small; lia).
    by rewrite IH, digit_char_val.
Qed.

Lemma fmt_nat_inj n m : 0 ≤ n → 0 ≤ m → fmt_nat n = fmt_nat m → n = m.
Proof. intros Hn Hm H. by rewrite <-(dec_val_fmt n), <-(dec_val_fmt m), H. Qed.

Lemma digit_not_minus c : is_ascii_digit c = true → c ≠ "-"%char.
Proof. by intros H ->. Qed.

Lemma digit_vchar c : is_ascii_digit c = true → is_vchar c = true.
Proof.
  unfold is_ascii_digit, is_vchar. intros H. bool_prop. apply andb_true_iff. split; apply Z.leb_le; lia.
Qed.

Lemma fmt_int_inj z w : fmt_int z = fmt_int w → z = w.
Proof.
  unfold fmt_int. destruct (z <? 0) eqn:Ez, (w <? 0) eqn:Ew; bool_prop; intros H.
  - injection H as H. apply fmt_nat_inj in H; lia.
  - pose proof (fmt_nat_digits w ltac:(lia)) as HF. rewrite <-H in HF. by inversion HF.
  - pose proof (fmt_nat_digits z ltac:(lia)) as HF. rewrite H in HF. by inversion HF.
  - by apply fmt_nat_inj in H.
Qed.

Lemma fmt_int_vchar z : Forall (λ c, is_vchar c = true) (fmt_int z).
Proof.
  assert (∀ n, 0 ≤ n → Forall (λ c, is_vchar c = true) (fmt_nat n)) as Hn.
  { intros n Hn. eapply Forall_impl; [by apply fmt_nat_digits|]. apply digit_vchar. }
  unfold fmt_int. destruct (z <? 0) eqn:E; bool_prop; [constructor; [done|]|]; apply Hn; lia.
Qed.

(** ** Joining and splitting are inverse *)

Lemma join_cons sep p q ps : join sep (p :: q :: ps) = p ++ sep ++ join sep (q :: ps).
Proof. done. Qed.

Lemma split_char_join c ps :
  ps ≠ [] → Forall (λ p, c ∉ p) ps → split_char c (join [c] ps) = ps.
Proof.
  intros Hne HF. induction HF as [|p ps Hp HF IH]; [done|].
  destruct ps as [|q ps]; [by apply split_char_nosep|].
  etrans; [apply (split_char_app c p (join [c] (q :: ps)) Hp)|]. by rewrite IH.
Qed.

Lemma join_split_char c s : join [c] (split_char c s) = s.
Proof.
  induction s as [|x s IH]; [done|]. simpl.
  destruct (ascii_eqb x c) eqn:E; str_prop.
  - subst x. destruct (split_char c s) as [|p ps] eqn:Es; [by apply split_char_nonempty in Es|].
    rewrite join_cons, IH. done.
  - destruct (split_char c s) as [|p ps] eqn:Es; [by apply split_char_nonempty in Es|].
    destruct ps; simpl in *; by rewrite IH.
Qed.

Lemma join_inj c ps qs :
  ps ≠ [] → qs ≠ [] → Forall (λ p, c ∉ p) ps → Forall (λ p, c ∉ p) qs →
  join [c] ps = join [c] qs → ps = qs.
Proof.
  intros Hp Hq HFp HFq Heq. rewrite <-(split_char_join c ps), <-(split_char_join c qs) by done.
  by rewrite Heq.
Qed.

Lemma contains_str_true p s : contains_str p s = true ↔ ∃ a b, s = a ++ p ++ b.
Proof.
  induction s as [|x s IH]; simpl.
  - rewrite orb_false_r, starts_with_true. split.
    + intros [r Hr]. by exists [], r.
    + intros ([|] & b & Hb); [by exists b|done].
  - rewrite orb_true_iff, starts_with_true, IH. split.
    + intros [[r Hr]|(a & b & ->)]; [by exists [], r|by exists (x :: a), b].
    + intros ([|y a] & b & Hb); simplify_eq/=; [left; by exists b|right; by exists a, b].
Qed.

Lemma split_char_app_sep c a b :
  split_char c (a ++ c :: b) = split_char c a ++ split_char c b.
Proof.
  induction a as [|x a IH]; simpl; [by rewrite ascii_eqb_refl|].
  destruct (ascii_eqb x c); rewrite IH; [done|].
  destruct (split_char c a) as [|p ps] eqn:Es; [by apply split_char_nonempty in Es|done].
Qed.

Lemma join_app sep ps qs :
  ps ≠ [] → qs ≠ [] → join sep (ps ++ qs) = join sep ps ++ sep ++ join sep qs.
Proof.
  intros Hp Hq. induction ps as [|p ps IH]; [done|]. destruct ps as [|p' ps].
  - by destruct qs.
  - change ((p :: p' :: ps) ++ qs) with (p :: p' :: (ps ++ qs)). rewrite !join_cons.
    change (p' :: ps ++ qs) with ((p' :: ps) ++ qs). rewrite IH by done.
    by rewrite <-!(assoc_L (++)).
Qed.

(** No leading, trailing or doubled separator: no empty piece. *)
Lemma split_char_separators c s :
  starts_with [c] s || ends_with [c] s || contains_str [c; c] s = false ↔
    [] ∉ split_char c s ∨ s = [].
Proof.
  split.
  - intros Hf. destruct (decide ([] ∈ split_char c s)) as [Hin|]; [right|by left].
    apply list_elem_of_split in Hin as (l1 & l2 & Hl).
    pose proof (join_split_char c s) as Hs. rewrite Hl in Hs.
    apply orb_false_iff in Hf as [[H1 H2]%orb_false_iff H3].
    destruct (decide (l2 = [])) as [->|H2'].
    + destruct (decide (l1 = [])) as [->|H1']; [by rewrite <-Hs|]. exfalso.
      rewrite join_app in Hs by done. simpl in Hs.
      assert (ends_with [c] s = true); [|congruence]. apply ends_with_true. by eexists.
    + assert (join [c] ([] :: l2) = c :: join [c] l2) as Hj by by destruct l2.
      destruct (decide (l1 = [])) as [->|H1'].
      * exfalso. simpl app in Hs. rewrite Hj in Hs.
        assert (starts_with [c] s = true); [|congruence]. apply starts_with_true.
        exists (join [c] l2). by rewrite <-Hs.
      * exfalso. rewrite join_app, Hj in Hs by done.
        assert (contains_str [c; c] s = true); [|congruence]. apply contains_str_true.
        exists (join [c] l1), (join [c] l2). by rewrite <-Hs.
  - intros [Hn| ->]; [|done]. apply not_true_is_false. intros Ht. apply Hn.
    apply orb_true_iff in Ht as [[Ht|Ht]%orb_true_iff|Ht].
    + apply starts_with_true in Ht as [r ->]. simpl. rewrite ascii_eqb_refl. set_solver.
    + apply ends_with_true in Ht as [r ->].
      rewrite (split_char_app_sep c r []). set_solver.
    + apply contains_str_true in Ht as (a & b & ->).
      change ([c; c] ++ b) with (c :: c :: b). rewrite split_char_app_sep. simpl. rewrite ascii_eqb_refl. set_solver.
Qed.

(** Parsing the [Display] of an [i64] returns it. *)
Lemma parse_signed_digits ds :
  Forall (λ c, is_ascii_digit c = true) ds → ds ≠ [] → parse_signed ds = Some (dec_val ds).
Proof.
  intros HF Hne. pose proof HF as Hb. apply forallb_Forall in Hb.
  destruct ds as [|c ds]; [done|]. inversion HF as [|? ? Hc _]; subst.
  unfold parse_signed. revert Hc Hb. ascii_cases c; intros Hc Hb; try done; by rewrite Hb.
Qed.

Lemma str_parse_fmt_int z : is_i64 z → str_parse_i64 (fmt_int z) = Some z.
Proof.
  intros Hz. unfold str_parse_i64. assert (parse_signed (fmt_int z) = Some z) as ->.
  { unfold fmt_int. destruct (z <? 0) eqn:E; bool_prop.
    - pose proof (fmt_nat_digits (- z) ltac:(lia)) as HF.
      pose proof (fmt_nat_nonempty (- z) ltac:(lia)) as Hne.
      apply forallb_Forall in HF. unfold parse_signed. cbn iota.
      destruct (fmt_nat (- z)) eqn:Ef; [done|]. rewrite <-Ef in *. rewrite HF.
      rewrite dec_val_fmt by lia. f_equal. lia.
    - rewrite parse_signed_digits, dec_val_fmt; auto using fmt_nat_digits, fmt_nat_nonempty. }
  by apply checked_i64_is.
Qed.

(** Comparisons of literals, evaluated. *)
Ltac eval_bytes_eqb :=
  repeat match goal with
  | |- context [bytes_eqb ?a ?b] =>
      let v := eval vm_compute in (bytes_eqb a b) in
      match v with
      | true => change (bytes_eqb a b) with true
      | false => change (bytes_eqb a b) with false
      end
  end; cbn iota.

(** Trimming removes white space only: every other ASCII byte stays. *)
Lemma ws2_high c d : ws2 c d = true → 128 ≤ cz c ∧ 128 ≤ cz d.
Proof. unfold ws2. rewrite andb_true_iff, orb_true_iff, !Z.eqb_eq. lia. Qed.

Lemma ws3_high c d e : ws3 c d e = true → 128 ≤ cz c ∧ 128 ≤ cz d ∧ 128 ≤ cz e.
Proof.
  unfold ws3. rewrite !orb_true_iff, !andb_true_iff, !orb_true_iff, !andb_true_iff, !Z.eqb_eq, !Z.leb_le.
  lia.
Qed.

Lemma trim_start_keeps c s : cz c < 128 → ws1 c = false → c ∈ s → c ∈ trim_start s.
Proof.
  intros Hc Hw. remember (length s) as n eqn:Hn. revert s Hn.
  induction n as [n IH] using lt_wf_ind. intros s -> Hin.
  destruct s as [|x s]; [set_solver|]. simpl. destruct (ws1 x) eqn:Ews1.
  { apply elem_of_cons in Hin as [->|Hin]; [congruence|]. eapply IH; [|done|done]. simpl. lia. }
  destruct s as [|y s]; [done|]. destruct (ws2 x y) eqn:Ews2.
  { apply ws2_high in Ews2 as [? ?]. do 2 (apply elem_of_cons in Hin as [->|Hin]; [lia|]).
    eapply IH; [|done|done]. simpl. lia. }
  destruct s as [|z s]; [done|]. destruct (ws3 x y z) eqn:Ews3; [|done].
  apply ws3_high in Ews3 as (? & ? & ?). do 3 (apply elem_of_cons in Hin as [->|Hin]; [lia|]).
  eapply IH; [|done|done]. simpl. lia.
Qed.

Lemma trim_start_rev_keeps c s : cz c < 128 → ws1 c = false → c ∈ s → c ∈ trim_start_rev s.
Proof.
  intros Hc Hw. remember (length s) as n eqn:Hn. revert s Hn.
  induction n as [n IH] using lt_wf_ind. intros s -> Hin.
  destruct s as [|x s]; [set_solver|]. simpl. destruct (ws1 x) eqn:Ews1.
  { apply elem_of_cons in Hin as [->|Hin]; [congruence|]. eapply IH; [|done|done]. simpl. lia. }
  destruct s as [|y s]; [done|]. destruct (ws2 y x) eqn:Ews2.
  { apply ws2_high in Ews2 as [? ?]. do 2 (apply elem_of_cons in Hin as [->|Hin]; [lia|]).
    eapply IH; [|done|done]. simpl. lia. }
  destruct s as [|z s]; [done|]. destruct (ws3 z y x) eqn:Ews3; [|done].
  apply ws3_high in Ews3 as (? & ? & ?). do 3 (apply elem_of_cons in Hin as [->|Hin]; [lia|]).
  eapply IH; [|done|done]. simpl. lia.
Qed.

Lemma elem_of_rev {A} (x : A) l : x ∈ rev l ↔ x ∈ l.
Proof. rewrite !list_elem_of_In. by rewrite <-in_rev. Qed.

Lemma trim_keeps c s : cz c < 128 → ws1 c = false → c ∈ s → c ∈ trim s.
Proof.
  intros Hc Hw Hin. unfold trim, trim_end. apply elem_of_rev, trim_start_rev_keeps; [done..|].
  by apply elem_of_rev, trim_start_keeps.
Qed.

(** ** White space around a string

    A [blank] string is a sequence of [White_Space] characters; [trim] takes away a blank
    string at either end, and what is around a string makes no difference to it. *)

Definition ws_char (t : bytes) : bool :=
  match t with [c] => ws1 c | [c; d] => ws2 c d | [c; d; e] => ws3 c d e | _ => false end.
Definition blank (s : bytes) : Prop := ∃ ts, Forall (λ t, ws_char t = true) ts ∧ s = concat ts.

Lemma ws1_low c : ws1 c = true → cz c < 128.
Proof. unfold ws1. rewrite orb_true_iff, andb_true_iff, !Z.leb_le, Z.eqb_eq. lia. Qed.

(** The first byte of a character is not one of the continuation bytes of another. *)
Lemma ws2_parts c d : ws2 c d = true → 192 ≤ cz c ∧ 128 ≤ cz d < 192.
Proof. unfold ws2. rewrite andb_true_iff, orb_true_iff, !Z.eqb_eq. lia. Qed.
Lemma ws3_parts c d e : ws3 c d e = true → 224 ≤ cz c ∧ 128 ≤ cz d < 192 ∧ 128 ≤ cz e < 192.
Proof.
  unfold ws3. rewrite !orb_true_iff, !andb_true_iff, !orb_true_iff, !andb_true_iff, !Z.eqb_eq, !Z.leb_le.
  lia.
Qed.

Ltac ws_facts := repeat match goal with
  | H : ws1 ?c = true |- _ => apply ws1_low in H
  | H : ws2 ?c ?d = true |- _ => apply ws2_parts in H
  | H : ws3 ?c ?d ?e = true |- _ => apply ws3_parts in H
  end.

Lemma ws_char_cases t : ws_char t = true →
  (∃ c, t = [c] ∧ ws1 c = true) ∨ (∃ c d, t = [c; d] ∧ ws2 c d = true) ∨
  (∃ c d e, t = [c; d; e] ∧ ws3 c d e = true).
Proof. destruct t as [|c [|d [|e [|? ?]]]]; simpl; naive_solver. Qed.

Lemma trim_start_char t s : ws_char t = true → trim_start (t ++ s) = trim_start s.
Proof.
  intros [(c & -> & Hc)|[(c & d & -> & Hc)|(c & d & e & -> & Hc)]]%ws_char_cases; simpl.
  - by rewrite Hc.
  - destruct (ws1 c) eqn:E; [ws_facts; lia|]. by rewrite Hc.
  - destruct (ws1 c) eqn:E; [ws_facts; lia|]. destruct (ws2 c d) eqn:E2.
    { exfalso. revert E2 Hc. unfold ws2. ws_facts. intros [? _]%andb_true_iff Hc. ws_facts. lia. }
    by rewrite Hc.
Qed.

Lemma trim_start_rev_char t s : ws_char t = true → trim_start_rev (rev t ++ s) = trim_start_rev s.
Proof.
  intros [(c & -> & Hc)|[(c & d & -> & Hc)|(c & d & e & -> & Hc)]]%ws_char_cases; simpl.
  - by rewrite Hc.
  - destruct (ws1 d) eqn:E; [ws_facts; lia|]. by rewrite Hc.
  - destruct (ws1 e) eqn:E; [ws_facts; lia|].
    destruct (ws2 d e) eqn:E2; [ws_facts; lia|]. by rewrite Hc.
Qed.

Lemma trim_start_blank l s : blank l → trim_start (l ++ s) = trim_start s.
Proof.
  intros (ts & HF & ->). induction HF as [|t ts Ht _ IH]; [done|].
  simpl. rewrite <-app_assoc, trim_start_char; [exact IH|exact Ht].
Qed.

Lemma trim_end_blank s r : blank r → trim_end (s ++ r) = trim_end s.
Proof.
  intros (ts & HF & ->). unfold trim_end. f_equal. induction ts as [|t ts IH] using rev_ind.
  - by rewrite app_nil_r.
  - apply Forall_app in HF as [HF [Ht _]%Forall_cons]. rewrite concat_app. simpl.
    rewrite app_nil_r, app_assoc, rev_app_distr, trim_start_rev_char by exact Ht. by apply IH.
Qed.

Lemma blank_app a b : blank a → blank b → blank (a ++ b).
Proof.
  intros (ts & HF & ->) (us & HG & ->). exists (ts ++ us). by rewrite concat_app, Forall_app.
Qed.
Lemma blank_char t : ws_char t = true → blank t.
Proof. intros Ht. exists [t]. split; [by constructor|]. by rewrite concat_cons, app_nil_r. Qed.

Lemma trim_start_prefix s : ∃ l, blank l ∧ s = l ++ trim_start s.
Proof.
  remember (length s) as n eqn:Hn. revert s Hn. induction n as [n IH] using lt_wf_ind. intros s ->.
  assert (∀ t s', ws_char t = true → s = t ++ s' → t ≠ [] → ∃ l, blank l ∧ t ++ s' = l ++ trim_start s') as Hstep.
  { intros t s' Ht -> Hne. destruct (IH (length s')) with (s := s') as (l & Hl & Hs'); [|done|].
    { rewrite length_app. destruct t; [done|]. simpl. lia. }
    exists (t ++ l). split; [by apply blank_app; [apply blank_char|]|]. rewrite <-app_assoc. by f_equal. }
  assert (∃ l, blank l ∧ s = l ++ s) as Hstop by (by exists []; split; [exists []|]).
  destruct s as [|c s]; [done|]. simpl. destruct (ws1 c) eqn:E1; [by apply (Hstep [c] s)|].
  destruct s as [|d s]; [done|]. destruct (ws2 c d) eqn:E2; [by apply (Hstep [c; d] s)|].
  destruct s as [|e s]; [done|]. destruct (ws3 c d e) eqn:E3; [by apply (Hstep [c; d; e] s)|done].
Qed.

Lemma trim_start_rev_prefix s : ∃ l, blank l ∧ s = rev l ++ trim_start_rev s.
Proof.
  remember (length s) as n eqn:Hn. revert s Hn. induction n as [n IH] using lt_wf_ind. intros s ->.
  assert (∀ t s', ws_char t = true → s = rev t ++ s' → t ≠ [] →
    ∃ l, blank l ∧ rev t ++ s' = rev l ++ trim_start_rev s') as Hstep.
  { intros t s' Ht -> Hne. destruct (IH (length s')) with (s := s') as (l & Hl & Hs'); [|done|].
    { rewrite length_app, length_rev. destruct t; [done|]. simpl. lia. }
    exists (l ++ t). split; [by apply blank_app; [|apply blank_char]|]. rewrite rev_app_distr, <-app_assoc. by f_equal. }
  assert (∃ l, blank l ∧ s = rev l ++ s) as Hstop by (by exists []; split; [exists []|]).
  destruct s as [|c s]; [done|]. simpl. destruct (ws1 c) eqn:E1; [by apply (Hstep [c] s)|].
  destruct s as [|d s]; [done|]. destruct (ws2 d c) eqn:E2; [by apply (Hstep [d; c] s)|].
  destruct s as [|e s]; [done|]. destruct (ws3 e d c) eqn:E3; [by apply (Hstep [e; d; c] s)|done].
Qed.

Lemma trim_decompose s : ∃ l r, blank l ∧ blank r ∧ s = l ++ trim s ++ r.
Proof.
  destruct (trim_start_prefix s) as (l & Hl & Hs).
  destruct (trim_start_rev_prefix (rev (trim_start s))) as (r & Hr & Ht).
  exists l, r. split_and!; [done..|]. rewrite Hs at 1. f_equal. unfold trim, trim_end.
  rewrite <-(rev_involutive (trim_start s)) at 1. rewrite Ht, rev_app_distr, rev_involutive. by rewrite <-Ht.
Qed.

(** A blank string begins with no continuation byte, so it completes no character. *)
Lemma blank_head r : blank r → match r with [] => True | c :: _ => ¬ (128 ≤ cz c < 192) end.
Proof.
  intros (ts & HF & ->). destruct HF as [|t ts Ht _]; [done|].
  apply ws_char_cases in Ht as [(c & -> & Hc)|[(c & d & -> & Hc)|(c & d & e & -> & Hc)]]; simpl; ws_facts; lia.
Qed.

Lemma trim_start_app s r : blank r →
  trim_start (s ++ r) = match trim_start s with [] => [] | _ => trim_start s ++ r end.
Proof.
  intros Hr. pose proof (blank_head r Hr) as Hh.
  assert (trim_start r = []) as Hr0 by (rewrite <-(app_nil_r r); by rewrite (trim_start_blank r [])).
  remember (length s) as n eqn:Hn. revert s Hn. induction n as [n IH] using lt_wf_ind. intros s ->.
  destruct s as [|c s]; [done|]. cbn [app trim_start]. destruct (ws1 c) eqn:E1.
  { eapply IH; [|done]. simpl. lia. }
  destruct s as [|d s].
  { cbn [app]. destruct r as [|d r]; [done|]. destruct (ws2 c d) eqn:E2; [ws_facts; lia|].
    destruct r as [|e r]; [done|]. destruct (ws3 c d e) eqn:E3; [ws_facts; lia|done]. }
  cbn [app]. destruct (ws2 c d) eqn:E2.
  { eapply IH; [|done]. simpl. lia. }
  destruct s as [|e s].
  { cbn [app]. destruct r as [|e r]; [done|]. destruct (ws3 c d e) eqn:E3; [ws_facts; lia|done]. }
  cbn [app]. destruct (ws3 c d e) eqn:E3; [|done].
  eapply IH; [|done]. simpl. lia.
Qed.

Lemma trim_wrap l s r : blank l → blank r → trim (l ++ s ++ r) = trim s.
Proof.
  intros Hl Hr. unfold trim. rewrite trim_start_blank, trim_start_app by done.
  destruct (trim_start s) as [|c t] eqn:E; [done|]. by apply trim_end_blank.
Qed.

Lemma blank_nil : blank [].
Proof. by exists []. Qed.

Lemma blank_no c l : cz c < 128 → ws1 c = false → blank l → c ∉ l.
Proof.
  intros Hc Hw (ts & HF & ->) (t & Hin & Ht)%list_elem_of_In%in_concat.
  apply list_elem_of_In in Hin, Ht. rewrite Forall_forall in HF. specialize (HF _ Hin).
  apply ws_char_cases in HF as [(x & -> & Hx)|[(x & d & -> & Hx)|(x & d & e & -> & Hx)]];
    [apply list_elem_of_singleton in Ht; congruence|ws_facts; set_unfold; naive_solver lia..].
Qed.

Lemma split_char_prefix c l s p ps :
  c ∉ l → split_char c s = p :: ps → split_char c (l ++ s) = (l ++ p) :: ps.
Proof.
  intros Hl Hs. induction l as [|x l IH]; [done|]. apply not_elem_of_cons in Hl as [Hx Hl].
  simpl. rewrite (IH Hl). destruct (ascii_eqb x c) eqn:E; [|done]. apply ascii_eqb_true in E. congruence.
Qed.

Lemma split_char_suffix c s r ps p :
  c ∉ r → split_char c s = ps ++ [p] → split_char c (s ++ r) = ps ++ [p ++ r].
Proof.
  intros Hr Hs. assert (Forall (λ q, c ∉ q) (ps ++ [p])) as HF by (rewrite <-Hs; apply split_char_pieces).
  apply Forall_app in HF as [HF [Hp _]%Forall_cons].
  rewrite <-(join_split_char c s), Hs. clear Hs. induction HF as [|q ps Hq HF IH].
  - apply split_char_nosep. set_solver.
  - assert (join [c] ((q :: ps) ++ [p]) = q ++ c :: join [c] (ps ++ [p])) as -> by (by destruct ps).
    rewrite <-app_assoc. cbn [app]. rewrite split_char_app by done. f_equal. exact IH.
Qed.

(** The members of a list, trimmed, are those of the list without the white space around it. *)
Lemma split_char_trim c s :
  cz c < 128 → ws1 c = false → map trim (split_char c s) = map trim (split_char c (trim s)).
Proof.
  intros Hc Hw. destruct (trim_decompose s) as (l & r & Hl & Hr & Hs). rewrite Hs at 1.
  pose proof (blank_no _ _ Hc Hw Hl) as HL. pose proof (blank_no _ _ Hc Hw Hr) as HR.
  destruct (exists_last (split_char_nonempty c (trim s))) as (ps & p & Es).
  pose proof (split_char_suffix _ _ _ _ _ HR Es) as Es'.
  transitivity (map trim (split_char c (trim s ++ r))).
  - destruct (split_char c (trim s ++ r)) as [|q qs] eqn:E2; [by apply split_char_nonempty in E2|].
    rewrite (split_char_prefix _ _ _ _ _ HL E2). simpl. f_equal.
    rewrite <-(app_nil_r (l ++ q)), <-app_assoc. apply trim_wrap; [done|apply blank_nil].
  - rewrite Es', Es, !map_app. simpl. do 2 f_equal. apply (trim_wrap []); [apply blank_nil|done].
Qed.

(** ** Big-endian lengths

    [u64::to_be_bytes], the [k] low bytes of [n], and the length of a buffer written so. *)

Fixpoint be_bytes (k : nat) (n : N) : bytes :=
  match k with
  | O => []
  | S k' => ascii_of_N ((n / 256 ^ N.of_nat k') mod 256) :: be_bytes k' n
  end.
Definition be64 (n : N) : bytes := be_bytes 8 n.
Definition len64 {A} (l : list A) : bytes := be64 (N.of_nat (length l)).

Lemma be_bytes_length k n : length (be_bytes k n) = k.
Proof. induction k; simpl; auto. Qed.

Lemma be_bytes_mod k n m :
  be_bytes k n = be_bytes k m → (n mod 256 ^ N.of_nat k = m mod 256 ^ N.of_nat k)%N.
Proof.
  induction k as [|k IH]; cbn [be_bytes]; [intros _; by rewrite !N.mod_1_r|].
  intros [= Hd Hr]. specialize (IH Hr).
  apply (f_equal N_of_ascii) in Hd.
  assert (∀ x, (x mod 256 < 256)%N) as Hlt by (intros; apply N.mod_upper_bound; lia).
  rewrite !N_ascii_embedding in Hd by done.
  assert ((256 ^ N.of_nat k ≠ 0)%N) by (apply N.pow_nonzero; lia).
  replace (256 ^ N.of_nat (S k))%N with (256 ^ N.of_nat k * 256)%N
    by (rewrite Nnat.Nat2N.inj_succ, N.pow_succ_r'; lia).
  rewrite !N.Div0.mod_mul_r. by rewrite Hd, IH.
Qed.

Definition fits_u64 (n : N) : Prop := (n < 2 ^ 64)%N.

Lemma be64_inj n m : fits_u64 n → fits_u64 m → be64 n = be64 m → n = m.
Proof.
  intros Hn Hm Heq%be_bytes_mod. change (256 ^ N.of_nat 8)%N with (2 ^ 64)%N in Heq.
  by rewrite !N.mod_small in Heq.
Qed.

(** A list that fits the address space. *)
Definition fits {A} (l : list A) : Prop := fits_u64 (N.of_nat (length l)).

(** An encoding is [framed] when what follows it cannot change what it stands for. *)
Definition framed {A} (enc : A → bytes) (ok : A → Prop) : Prop :=
  ∀ x y r s, ok x → ok y → enc x ++ r = enc y ++ s → x = y ∧ r = s.

Lemma framed_be64 : framed be64 fits_u64.
Proof.
  intros x y r s Hx Hy Heq. apply app_inj_1 in Heq as [Hxy ->]; [|unfold be64; by rewrite !be_bytes_length].
  split; [by apply be64_inj|done].
Qed.

Lemma framed_len64 {A} (l l' : list A) r s :
  fits l → fits l' → len64 l ++ r = len64 l' ++ s → length l = length l' ∧ r = s.
Proof. intros Hl Hl' Heq. apply framed_be64 in Heq as [? ->]; [|done..]. split; [lia|done]. Qed.
