(* ===== verification/Externals.v ===== *)
(** * The third-party crates, as interfaces

    The sources call the crates [sha2], [base64], [ed25519-dalek] and [serde_json] (with
    the [serde] derives). None of them is part of the repository, so each is a class of
    operations that the rest of the development takes as an argument, with the documented
    behaviour the code relies on in a separate class of laws. A theorem that needs no law
    takes the operations only. [Concrete] has an instance of all of them. *)

From S2P Require Import Prelude.
From S2P Require Import RustStr.

(** ** [sha2]: [Sha256::digest] returns 32 bytes. *)

Class Sha2 := { sha256 : bytes → bytes }.

(** Two different byte strings with one digest: what a binding by digest excludes only as far
    as SHA-256 is collision resistant, so every binding theorem names the pair. *)
Definition collides `{Sha2} (x y : bytes) : Prop := x ≠ y ∧ sha256 x = sha256 y.

Class Sha2Laws `{Sha2} : Prop := { sha256_length b : length (sha256 b) = 32%nat }.

(** ** [base64]: the engines [URL_SAFE_NO_PAD] and [STANDARD]

    Both alphabets are the ones of RFC 4648. The no-padding engine refuses a [=] and
    refuses trailing bits that encoding would not have produced, so a text it decodes is
    the encoding of what it decodes to. *)

Class Base64 := {
  url_encode : bytes → bytes;
  url_decode : bytes → option bytes;
  std_encode : bytes → bytes;
  std_decode : bytes → option bytes;
}.

Definition b64url_char (c : ascii) : bool :=
  is_ascii_alphanumeric c || ascii_eqb c "-" || ascii_eqb c "_".
Definition b64std_char (c : ascii) : bool :=
  is_ascii_alphanumeric c || ascii_eqb c "+" || ascii_eqb c "/" || ascii_eqb c "=".

Class Base64Laws `{Base64} : Prop := {
  url_decode_encode b : url_decode (url_encode b) = Some b;
  url_encode_decode s b : url_decode s = Some b → url_encode b = s;
  url_encode_chars b : Forall (λ c, b64url_char c = true) (url_encode b);
  url_encode_nonempty b : b ≠ [] → url_encode b ≠ [];
  std_decode_encode b : std_decode (std_encode b) = Some b;
  std_encode_chars b : Forall (λ c, b64std_char c = true) (std_encode b);
}.

(** ** [ed25519-dalek]

    Signing with a key and verifying strictly under its public key succeeds; a signature
    has 64 bytes and a public key 32, from which it can be read back. *)

Class Ed25519 := {
  DalekVerifyingKey : Type;
  DalekSigningKey : Type;
  vk_from_bytes : bytes → option DalekVerifyingKey;
  vk_to_bytes : DalekVerifyingKey → bytes;
  sk_from_bytes : bytes → DalekSigningKey;
  verifying_key : DalekSigningKey → DalekVerifyingKey;
  dalek_sign : DalekSigningKey → bytes → bytes;
  verify_strict : DalekVerifyingKey → bytes → bytes → bool;
}.

Class Ed25519Laws `{Ed25519} : Prop := {
  verify_strict_sign k m : verify_strict (verifying_key k) m (dalek_sign k m) = true;
  dalek_sign_length k m : length (dalek_sign k m) = 64%nat;
  vk_to_bytes_length k : length (vk_to_bytes k) = 32%nat;
  vk_from_to_bytes k : vk_from_bytes (vk_to_bytes k) = Some k;
}.

(** ** [serde_json]

    A [Value] is opaque but for what the sources ask of it: its object view, its string
    view, and building objects, strings, integers and booleans. [from_slice] parses and [to_vec] prints;
    printing can fail, what it prints is not empty and parses back to the same value. The last law is
    assumed of every value that is printed; the crate, as the workspace configures it, does not promise
    it of a number that is neither an integer of 64 bits nor printed exactly, nor of a value nested
    deeper than its parser's limit of 128. Statements that need the law say so with this class. *)

Class SerdeJson := {
  Value : Type;
  from_slice : bytes → option Value;
  to_vec : Value → option bytes;
  as_object : Value → option (gmap bytes Value);
  Object : gmap bytes Value → Value;
  as_str : Value → option bytes;
  JString : bytes → Value;
  JNumber : Z → Value;
  JBool : bool → Value;
}.

Class SerdeJsonLaws `{SerdeJson} : Prop := {
  from_slice_to_vec v s : to_vec v = Some s → from_slice s = Some v;
  to_vec_nonempty v s : to_vec v = Some s → s ≠ [];
  as_object_Object m : as_object (Object m) = Some m;
  as_str_JString s : as_str (JString s) = Some s;
}.

(** [Value::get(key)]: a member of an object, nothing of anything else. *)
Definition json_get `{SerdeJson} (v : Value) (key : bytes) : option Value :=
  match as_object v with Some m => m !! key | None => None end.

(** The [Serialize] and [Deserialize] derives of one type. A derive reads a text directly
    ([serde_json::from_slice::<T>]) or a [Value] that was parsed before, and the two differ: a member
    that is there twice is an error to the first, while a [Value] has kept only the last of the two. *)
Class Serde `{SerdeJson} (T : Type) := {
  from_slice_as : bytes → option T;
  from_value : Value → option T;
  to_value : T → option Value;
}.

(** Both read back what the type prints. *)
Class SerdeLaws `{Serde T} : Prop := {
  from_value_to_value t v : to_value t = Some v → from_value v = Some t;
  from_slice_as_printed t v b : to_value t = Some v → to_vec v = Some b → from_slice_as b = Some t;
}.

(** A derive whose texts are read through a [Value]. *)
Definition serde_through `{SerdeJson} {T} (from : Value → option T) (to : T → option Value) : Serde T :=
  {| from_slice_as b := from_slice b ≫= from; from_value := from; to_value := to |}.
Lemma serde_through_laws `{SerdeJsonLaws} {T} (from : Value → option T) (to : T → option Value) :
  (∀ t v, to t = Some v → from v = Some t) → @SerdeLaws _ T (serde_through from to).
Proof.
  intros Hrt. split; simpl; [done|]. intros t v b Ht Hb. rewrite (from_slice_to_vec _ _ Hb). by apply Hrt.
Qed.

(** [serde_json::to_vec] at a derived type. *)
Definition to_vec_of `{Serde T} (t : T) : option bytes :=
  match to_value t with Some v => to_vec v | None => None end.

Lemma to_vec_of_nonempty `{Serde T, !SerdeJsonLaws} (t : T) b : to_vec_of t = Some b → b ≠ [].
Proof. unfold to_vec_of. destruct (to_value t); [|done]. apply to_vec_nonempty. Qed.

Lemma from_slice_to_vec_of `{Serde T, !SerdeLaws} (t : T) b : to_vec_of t = Some b → from_slice_as b = Some t.
Proof.
  unfold to_vec_of. destruct (to_value t) as [v|] eqn:E; [|done]. by apply from_slice_as_printed.
Qed.

(** [JWS] segments are base64url text: they contain no dot. *)
Lemma url_encode_no `{Base64Laws} c b : b64url_char c = false → c ∉ url_encode b.
Proof.
  intros Hc. eapply not_elem_of_Forall; [apply url_encode_chars|]. simpl. by rewrite Hc.
Qed.
Lemma std_encode_no `{Base64Laws} c b : b64std_char c = false → c ∉ std_encode b.
Proof.
  intros Hc. eapply not_elem_of_Forall; [apply std_encode_chars|]. simpl. by rewrite Hc.
Qed.

Lemma url_encode_inj `{Base64Laws} a b : url_encode a = url_encode b → a = b.
Proof. intros Heq. apply (f_equal url_decode) in Heq. rewrite !url_decode_encode in Heq. by simplify_eq. Qed.
Lemma std_encode_inj `{Base64Laws} a b : std_encode a = std_encode b → a = b.
Proof. intros Heq. apply (f_equal std_decode) in Heq. rewrite !std_decode_encode in Heq. by simplify_eq. Qed.
