(* ===== verification/Json.v ===== *)
(** * The tree of a JSON value

    [serde_json::Value] is an enum that some of the sources take apart and rebuild. [json]
    has its constructors; an object is the list of its members in iteration order, which for
    [serde_json::Map] (a [BTreeMap]: the workspace does not enable [preserve_order]) is the
    byte order of the keys, each once ([json_wf]). The class [JsonTree] relates it to the
    [Value] of [Externals], and has the infallible printer of [Display]. Numbers are opaque but
    for what the sources ask of them. *)

From Stdlib Require Import Sorted.
From S2P Require Import Prelude.
From S2P Require Import RustStr.
From S2P Require Import Externals.

#[local] Set Warnings "-register-all".

Inductive json (N : Type) : Type :=
  | JNull
  | JBoolean (b : bool)
  | JNum (n : N)
  | JStr (s : bytes)
  | JArr (l : list (json N))
  | JObj (m : list (bytes * json N)).
Arguments JNull {N}.
Arguments JBoolean {N} b.
Arguments JNum {N} n.
Arguments JStr {N} s.
Arguments JArr {N} l.
Arguments JObj {N} m.

Lemma json_tree_ind {N} (P : json N → Prop) :
  P JNull → (∀ b, P (JBoolean b)) → (∀ n, P (JNum n)) → (∀ s, P (JStr s)) →
  (∀ l, Forall P l → P (JArr l)) → (∀ m, Forall (λ kv, P kv.2) m → P (JObj m)) → ∀ j, P j.
Proof.
  intros Hn Hb Hnum Hs Ha Ho. fix IH 1. intros [| | | |l|m]; [exact Hn|apply Hb|apply Hnum|apply Hs|..].
  - apply Ha. induction l as [|j l IHl]; constructor; [apply IH|exact IHl].
  - apply Ho. induction m as [|[k v] m IHm]; constructor; [apply IH|exact IHm].
Qed.

(** ** Keys in byte order *)

Fixpoint bytes_ltb (a b : bytes) : bool :=
  match a, b with
  | [], [] => false
  | [], _ :: _ => true
  | _ :: _, [] => false
  | x :: a', y :: b' =>
      if (N_of_ascii x <? N_of_ascii y)%N then true
      else ascii_eqb x y && bytes_ltb a' b'
  end.

Definition key_lt {A} (x y : bytes * A) : Prop := bytes_ltb x.1 y.1 = true.
Definition keys_sorted {A} (m : list (bytes * A)) : Prop := StronglySorted key_lt m.

Inductive json_wf {N} : json N → Prop :=
  | wf_null : json_wf JNull
  | wf_bool b : json_wf (JBoolean b)
  | wf_num n : json_wf (JNum n)
  | wf_str s : json_wf (JStr s)
  | wf_arr l : Forall json_wf l → json_wf (JArr l)
  | wf_obj m : keys_sorted m → Forall (λ kv, json_wf kv.2) m → json_wf (JObj m).

(** [Map::get]. *)
Fixpoint assoc {A} (k : bytes) (m : list (bytes * A)) : option A :=
  match m with
  | [] => None
  | (k', v) :: m' => if bytes_eqb k' k then Some v else assoc k m'
  end.
Definition contains_key {A} (k : bytes) (m : list (bytes * A)) : bool := is_some (assoc k m).

(** ** The interface

    [to_string] prints and its text parses back, assumed of every value as in [SerdeJsonLaws]. *)

Class JsonTree `{SerdeJson} := {
  Number : Type;
  num_eqb : Number → Number → bool;
  num_is_i64 : Number → bool;
  num_of : Z → Number;
  tree_of : Value → json Number;
  value_of : json Number → Value;
  to_string : Value → bytes;
}.

Class JsonTreeLaws `{JsonTree} : Prop := {
  num_eqb_refl n : num_eqb n n = true;
  tree_of_wf v : json_wf (tree_of v);
  tree_of_value_of t : json_wf t → tree_of (value_of t) = t;
  as_object_tree v :
    (λ m : gmap bytes Value, tree_of <$> m) <$> as_object v =
      match tree_of v with JObj m => Some (list_to_map m) | _ => None end;
  as_str_tree v : as_str v = match tree_of v with JStr s => Some s | _ => None end;
  from_slice_to_string v : from_slice (to_string v) = Some v;
}.

(** ** Lemmas on keys *)

Lemma bytes_ltb_irrefl a : bytes_ltb a a = false.
Proof. induction a as [|x a IH]; simpl; [done|]. by rewrite N.ltb_irrefl, IH, andb_false_r. Qed.

Lemma bytes_ltb_trans a b c : bytes_ltb a b = true → bytes_ltb b c = true → bytes_ltb a c = true.
Proof.
  revert b c. induction a as [|x a IH]; intros [|y b] [|z c]; simpl; try done.
  destruct (N_of_ascii x <? N_of_ascii y)%N eqn:E1, (N_of_ascii y <? N_of_ascii z)%N eqn:E2;
    intros H1 H2; bool_prop; str_prop; subst;
    repeat match goal with H : (_ <? _)%N = true |- _ => apply N.ltb_lt in H end.
  - by replace (N_of_ascii x <? N_of_ascii z)%N with true by (symmetry; apply N.ltb_lt; lia).
  - by replace (N_of_ascii x <? N_of_ascii z)%N with true by (symmetry; apply N.ltb_lt; lia).
  - by replace (N_of_ascii y <? N_of_ascii z)%N with true by (symmetry; apply N.ltb_lt; lia).
  - rewrite E1, ascii_eqb_refl. simpl. eauto.
Qed.

Lemma bytes_eqb_sym a b : bytes_eqb a b = bytes_eqb b a.
Proof. unfold bytes_eqb. apply bool_decide_ext. naive_solver. Qed.

Lemma keys_sorted_cons {A} k (v : A) m :
  keys_sorted ((k, v) :: m) ↔ keys_sorted m ∧ Forall (λ kv, bytes_ltb k kv.1 = true) m.
Proof. split; [by inversion 1|]. intros [? ?]. by constructor. Qed.

(** Being sorted is a matter of the keys. *)
Lemma keys_sorted_fst {A B} (m : list (bytes * A)) (m' : list (bytes * B)) :
  m'.*1 = m.*1 → keys_sorted m → keys_sorted m'.
Proof.
  revert m'. induction m as [|[k v] m IH]; intros [|[k' v'] m'] Heq; simplify_eq/=; [constructor|].
  intros [Hs HF]%keys_sorted_cons. apply keys_sorted_cons. split; [by apply IH|].
  apply Forall_forall. intros [x w] Hx. simpl. assert (x ∈ m.*1) as Hin.
  { match goal with E : m'.*1 = _ |- _ => rewrite <-E end. apply list_elem_of_fmap. by exists (x, w). }
  apply list_elem_of_fmap in Hin as ([y u] & Hy & Hin). simpl in Hy. subst y.
  eapply Forall_forall in HF; [|exact Hin]. done.
Qed.

Lemma keys_sorted_filter {A} (P : bytes * A → Prop) `{∀ x, Decision (P x)} m :
  keys_sorted m → keys_sorted (filter P m).
Proof.
  induction m as [|[k v] m IH]; intros Hs; [done|]. apply keys_sorted_cons in Hs as [Hs HF].
  rewrite filter_cons. case_decide; [|by apply IH]. apply keys_sorted_cons. split; [by apply IH|].
  apply Forall_forall. intros x [_ Hx]%list_elem_of_filter. by eapply Forall_forall in HF.
Qed.

(** With sorted keys, a member is the one its key finds. *)
Lemma elem_assoc {A} k (v : A) m : keys_sorted m → (k, v) ∈ m → assoc k m = Some v.
Proof.
  induction m as [|[k' v'] m IH]; intros Hs Hin; [set_solver|].
  apply keys_sorted_cons in Hs as [Hs HF]. apply elem_of_cons in Hin as [Heq|Hin]; simpl.
  - simplify_eq. by rewrite bytes_eqb_refl.
  - destruct (bytes_eqb k' k) eqn:E; [|by apply IH]. apply bytes_eqb_true in E as ->.
    eapply Forall_forall in HF; [|exact Hin]. simpl in HF. by rewrite bytes_ltb_irrefl in HF.
Qed.

Lemma assoc_lookup {A} k (m : list (bytes * A)) : assoc k m = (list_to_map m : gmap bytes A) !! k.
Proof.
  induction m as [|[k' v] m IH]; simpl; [by rewrite lookup_empty|].
  destruct (bytes_eqb k' k) eqn:E.
  - apply bytes_eqb_true in E as ->. by rewrite lookup_insert_eq.
  - rewrite lookup_insert_ne; [done|]. intros ->. by rewrite bytes_eqb_refl in E.
Qed.

Lemma assoc_elem {A} k (v : A) m : assoc k m = Some v → (k, v) ∈ m.
Proof.
  induction m as [|[k' v'] m IH]; simpl; [done|]. destruct (bytes_eqb k' k) eqn:E; intros Hv.
  - apply bytes_eqb_true in E as ->. simplify_eq. by left.
  - right. auto.
Qed.

Lemma assoc_None {A} k (m : list (bytes * A)) : assoc k m = None ↔ k ∉ m.*1.
Proof.
  induction m as [|[k' v'] m IH]; simpl; [set_solver|]. rewrite not_elem_of_cons.
  destruct (bytes_eqb k' k) eqn:E.
  - apply bytes_eqb_true in E as ->. naive_solver.
  - rewrite IH. split; [|by intros []]. intros ?. split; [|done]. intros ->. by rewrite bytes_eqb_refl in E.
Qed.

(** Equality of values, as [PartialEq] decides it. *)
Fixpoint json_eqb `{JsonTree} (a b : json Number) {struct a} : bool :=
  match a, b with
  | JNull, JNull => true
  | JBoolean x, JBoolean y => Bool.eqb x y
  | JNum x, JNum y => num_eqb x y
  | JStr x, JStr y => bytes_eqb x y
  | JArr l, JArr l' =>
      (fix go l l' := match l, l' with
                      | [], [] => true
                      | x :: l, y :: l' => json_eqb x y && go l l'
                      | _, _ => false
                      end) l l'
  | JObj m, JObj m' =>
      (fix go m m' := match m, m' with
                      | [], [] => true
                      | (k, x) :: m, (k', y) :: m' => bytes_eqb k k' && json_eqb x y && go m m'
                      | _, _ => false
                      end) m m'
  | _, _ => false
  end.

Lemma json_eqb_refl `{JsonTreeLaws} j : json_eqb j j = true.
Proof.
  induction j as [|b|n|s|l IH|m IH] using json_tree_ind; simpl;
    [done|by destruct b|apply num_eqb_refl|apply bytes_eqb_refl|..].
  - induction IH as [|x l Hx _ IH]; [done|]. by rewrite Hx, IH.
  - induction IH as [|[k v] m Hx _ IH]; [done|]. simpl in Hx. by rewrite bytes_eqb_refl, Hx, IH.
Qed.

(** The members of an object, in the value and in its tree. *)
Lemma as_object_members `{JsonTreeLaws} v m :
  as_object v = Some m → ∃ l, tree_of v = JObj l ∧ ∀ k, assoc k l = tree_of <$> m !! k.
Proof.
  intros Hm. pose proof (as_object_tree v) as Ht. rewrite Hm in Ht. simpl in Ht.
  destruct (tree_of v) as [| | | | |l]; simplify_eq. exists l. split; [done|].
  intros k. rewrite assoc_lookup. match goal with E : _ = list_to_map l |- _ => rewrite <-E end.
  apply lookup_fmap.
Qed.

Lemma Object_members `{JsonTreeLaws, !SerdeJsonLaws} m :
  ∃ l, tree_of (Object m) = JObj l ∧ ∀ k, assoc k l = tree_of <$> m !! k.
Proof. apply as_object_members, as_object_Object. Qed.
