(* ===== verification/Concrete.v ===== *)
(** * A concrete instance of the interfaces of [Externals]

    The witnesses of the development evaluate the code at concrete inputs, which needs a
    concrete function for every third-party operation. [base64] is the real one (RFC 4648,
    both alphabets). The digest, the signature scheme and the JSON printer are small
    stand-ins that satisfy the same laws: the first 32 bytes as a digest, a keyed
    tag whose verification key equals its signing key, and a self-delimiting binary code of
    a tree of the constructors of [Json]. Nothing but witnesses depends on this file: each imports [Instances]. *)

From S2P Require Import Prelude.
From S2P Require Import RustStr.
From S2P Require Import Externals.
From S2P Require Import Json.

Module Instances.

(** ** Base 64 *)

Definition sextet : Type := (bool * bool * bool) * (bool * bool * bool).

Definition b2z (b : bool) (z : Z) : Z := if b then z else 0.
Definition sextet_z (x : sextet) : Z :=
  let '((a, b, c), (d, e, f)) := x in
  b2z a 32 + b2z b 16 + b2z c 8 + b2z d 4 + b2z e 2 + b2z f 1.
Definition z_sextet (z : Z) : sextet :=
  ((Z.testbit z 5, Z.testbit z 4, Z.testbit z 3), (Z.testbit z 2, Z.testbit z 1, Z.testbit z 0)).

(** The letters, the digits, and the two characters the alphabets differ in. *)
Definition enc6 (c62 c63 : ascii) (x : sextet) : ascii :=
  let z := sextet_z x in
  if z <? 26 then chr (65 + z) else if z <? 52 then chr (71 + z)
  else if z <? 62 then chr (z - 4) else if z =? 62 then c62 else c63.
Definition dec6 (c62 c63 : ascii) (c : ascii) : option sextet :=
  if is_ascii_upper c then Some (z_sextet (cz c - 65))
  else if is_ascii_lower c then Some (z_sextet (cz c - 71))
  else if is_ascii_digit c then Some (z_sextet (cz c + 4))
  else if ascii_eqb c c62 then Some (z_sextet 62)
  else if ascii_eqb c c63 then Some (z_sextet 63) else None.

(** Three bytes are four sextets; one or two bytes leave zero bits in the last one. *)
Fixpoint to_sextets (b : bytes) : list sextet :=
  match b with
  | [] => []
  | [Ascii a0 a1 a2 a3 a4 a5 a6 a7] =>
      [((a7, a6, a5), (a4, a3, a2)); ((a1, a0, false), (false, false, false))]
  | [Ascii a0 a1 a2 a3 a4 a5 a6 a7; Ascii b0 b1 b2 b3 b4 b5 b6 b7] =>
      [((a7, a6, a5), (a4, a3, a2)); ((a1, a0, b7), (b6, b5, b4));
       ((b3, b2, b1), (b0, false, false))]
  | Ascii a0 a1 a2 a3 a4 a5 a6 a7 :: Ascii b0 b1 b2 b3 b4 b5 b6 b7 ::
    Ascii c0 c1 c2 c3 c4 c5 c6 c7 :: rest =>
      ((a7, a6, a5), (a4, a3, a2)) :: ((a1, a0, b7), (b6, b5, b4)) ::
      ((b3, b2, b1), (b0, c7, c6)) :: ((c5, c4, c3), (c2, c1, c0)) :: to_sextets rest
  end.

Fixpoint of_sextets (l : list sextet) : option bytes :=
  match l with
  | [] => Some []
  | [((a7, a6, a5), (a4, a3, a2)); ((a1, a0, false), (false, false, false))] =>
      Some [Ascii a0 a1 a2 a3 a4 a5 a6 a7]
  | [((a7, a6, a5), (a4, a3, a2)); ((a1, a0, b7), (b6, b5, b4));
     ((b3, b2, b1), (b0, false, false))] =>
      Some [Ascii a0 a1 a2 a3 a4 a5 a6 a7; Ascii b0 b1 b2 b3 b4 b5 b6 b7]
  | ((a7, a6, a5), (a4, a3, a2)) :: ((a1, a0, b7), (b6, b5, b4)) ::
    ((b3, b2, b1), (b0, c7, c6)) :: ((c5, c4, c3), (c2, c1, c0)) :: rest =>
      match of_sextets rest with
      | Some r => Some (Ascii a0 a1 a2 a3 a4 a5 a6 a7 :: Ascii b0 b1 b2 b3 b4 b5 b6 b7 ::
                        Ascii c0 c1 c2 c3 c4 c5 c6 c7 :: r)
      | None => None
      end
  | _ => None
  end.

Definition url_enc (b : bytes) : bytes := map (enc6 "-" "_") (to_sextets b).
Definition url_dec (s : bytes) : option bytes :=
  match mapM (dec6 "-" "_") s with Some l => of_sextets l | None => None end.

(** Padding to a multiple of four characters. *)
Definition padding (n : nat) : bytes :=
  match (n mod 4)%nat with 2%nat => b#"==" | 3%nat => b#"=" | _ => [] end.
Definition std_enc (b : bytes) : bytes :=
  let s := map (enc6 "+" "/") (to_sextets b) in s ++ padding (length s).
Definition std_dec (s : bytes) : option bytes :=
  let body := filter (λ c, c ≠ "="%char) s in
  if bytes_eqb s (body ++ padding (length body))
  then match mapM (dec6 "+" "/") body with Some l => of_sextets l | None => None end
  else None.

#[export] Instance concrete_base64 : Base64 := {
  url_encode := url_enc; url_decode := url_dec; std_encode := std_enc; std_decode := std_dec }.

Lemma dec6_enc6_url x : dec6 "-" "_" (enc6 "-" "_" x) = Some x.
Proof. by destruct x as [[[[] []] []] [[[] []] []]]. Qed.
Lemma dec6_enc6_std x : dec6 "+" "/" (enc6 "+" "/" x) = Some x.
Proof. by destruct x as [[[[] []] []] [[[] []] []]]. Qed.
Lemma enc6_dec6_url c x : dec6 "-" "_" c = Some x → enc6 "-" "_" x = c.
Proof. by ascii_cases c; intros [= <-]. Qed.
Lemma enc6_url_char x : b64url_char (enc6 "-" "_" x) = true.
Proof. by destruct x as [[[[] []] []] [[[] []] []]]. Qed.
Lemma enc6_std_char x :
  b64std_char (enc6 "+" "/" x) = true ∧ enc6 "+" "/" x ≠ "="%char.
Proof. by destruct x as [[[[] []] []] [[[] []] []]]. Qed.

(** Induction three bytes at a time. *)
Lemma bytes3_ind (P : bytes → Prop) :
  P [] → (∀ a, P [a]) → (∀ a b, P [a; b]) → (∀ a b c r, P r → P (a :: b :: c :: r)) →
  ∀ b, P b.
Proof.
  intros H0 H1 H2 H3. fix IH 1. intros [|a [|b [|c r]]]; [done|apply H1|apply H2|].
  apply H3, IH.
Qed.

Lemma of_to_sextets b : of_sextets (to_sextets b) = Some b.
Proof.
  induction b as [|a|a [b0 b1 b2 b3 b4 b5 b6 b7]|a [b0 b1 b2 b3 b4 b5 b6 b7]
    [c0 c1 c2 c3 c4 c5 c6 c7] r IH] using bytes3_ind; [done|by destruct a| |]; destruct a.
  - by destruct b7, b6, b5, b4.
  - cbn [to_sextets of_sextets]. rewrite IH. by destruct b7, b6, b5, b4, c7, c6.
Qed.

Lemma of_sextets_cons4 a0 a1 a2 a3 a4 a5 a6 a7 b0 b1 b2 b3 b4 b5 b6 b7
    c0 c1 c2 c3 c4 c5 c6 c7 (l : list sextet) :
  of_sextets ((((a7, a6, a5), (a4, a3, a2)) : sextet) :: ((a1, a0, b7), (b6, b5, b4)) ::
    ((b3, b2, b1), (b0, c7, c6)) :: ((c5, c4, c3), (c2, c1, c0)) :: l) =
  match of_sextets l with
  | Some r => Some (Ascii a0 a1 a2 a3 a4 a5 a6 a7 :: Ascii b0 b1 b2 b3 b4 b5 b6 b7 ::
                    Ascii c0 c1 c2 c3 c4 c5 c6 c7 :: r)
  | None => None
  end.
Proof. by destruct b7, b6, b5, b4, c7, c6. Qed.

Lemma to_of_sextets l b : of_sextets l = Some b → to_sextets b = l.
Proof.
  revert l b. fix IH 1. intros l b.
  destruct l as [|[[[a7 a6] a5] [[a4 a3] a2]] l]; [by intros [= <-]|].
  destruct l as [|[[[a1 a0] b7] [[b6 b5] b4]] l]; [done|].
  destruct l as [|[[[b3 b2] b1] [[b0 c7] c6]] l].
  { destruct b7, b6, b5, b4; try done. by intros [= <-]. }
  destruct l as [|[[[c5 c4] c3] [[c2 c1] c0]] l].
  { destruct c7, c6; try (destruct b7, b6, b5, b4; done).
    destruct b7, b6, b5, b4; by intros [= <-]. }
  rewrite of_sextets_cons4.
  destruct (of_sextets l) as [r|] eqn:E; [|done]. intros [= <-].
  cbn [to_sextets]. by rewrite (IH l r E).
Qed.

Lemma mapM_dec6 (e : sextet → ascii) (d : ascii → option sextet) l :
  (∀ x, d (e x) = Some x) → mapM d (map e l) = Some l.
Proof. intros Hde. induction l as [|x l IH]; [done|]. simpl. by rewrite Hde; simpl; rewrite IH. Qed.

Lemma map_enc6 (e : sextet → ascii) (d : ascii → option sextet) s l :
  (∀ c x, d c = Some x → e x = c) → mapM d s = Some l → map e l = s.
Proof.
  intros Hed. rewrite mapM_Some. induction 1 as [|c x s l Hc _ IH]; [done|].
  simpl. by rewrite IH, (Hed _ _ Hc).
Qed.

Lemma filter_all {A} (P : A → Prop) `{∀ x, Decision (P x)} l : Forall P l → filter P l = l.
Proof. induction 1 as [|x l Hx _ IH]; [done|]. by rewrite filter_cons_True, IH. Qed.

#[export] Instance concrete_base64_laws : Base64Laws.
Proof.
  split; simpl.
  - intros b. unfold url_dec, url_enc. rewrite mapM_dec6 by apply dec6_enc6_url.
    apply of_to_sextets.
  - intros s b. unfold url_dec, url_enc. destruct (mapM _ s) as [l|] eqn:E; [|done].
    intros Hl. rewrite (to_of_sextets _ _ Hl). eapply map_enc6; [apply enc6_dec6_url|done].
  - intros b. unfold url_enc. apply Forall_map, Forall_true. intros x. apply enc6_url_char.
  - intros b. by destruct b as [|[] [|[] [|[] b]]].
  - intros b. unfold std_dec, std_enc. set (s := map _ _).
    assert (filter (λ c, c ≠ "="%char) (s ++ padding (length s)) = s) as ->.
    { rewrite filter_app, (filter_all _ s).
      - unfold padding. repeat case_match; by rewrite app_nil_r.
      - subst s. apply Forall_map, Forall_true. intros x. apply enc6_std_char. }
    rewrite bytes_eqb_refl. subst s. rewrite mapM_dec6 by apply dec6_enc6_std.
    apply of_to_sextets.
  - intros b. unfold std_enc. apply Forall_app. split.
    + apply Forall_map, Forall_true. intros x. apply enc6_std_char.
    + unfold padding. repeat case_match; by repeat constructor.
Qed.

(** ** Digest and signatures *)

(** The first 32 bytes, padded. *)
#[export] Instance concrete_sha2 : Sha2 := {
  sha256 := λ b, take 32 (b ++ replicate 32 "0"%char) }.

#[export] Instance concrete_sha2_laws : Sha2Laws.
Proof.
  split. intros b. unfold sha256, concrete_sha2. rewrite length_take, length_app, length_replicate. lia.
Qed.

(** A key is one byte, repeated. *)
#[export] Instance concrete_ed25519 : Ed25519 := {
  DalekVerifyingKey := ascii;
  DalekSigningKey := ascii;
  vk_from_bytes b :=
    match b with c :: _ => if bytes_eqb b (replicate 32 c) then Some c else None | [] => None end;
  vk_to_bytes c := replicate 32 c;
  sk_from_bytes b := default "0"%char (head b);
  verifying_key c := c;
  dalek_sign c m := replicate 32 c ++ sha256 m;
  verify_strict c m s := bytes_eqb s (replicate 32 c ++ sha256 m);
}.

#[export] Instance concrete_ed25519_laws : Ed25519Laws.
Proof.
  split.
  - intros k m. apply bytes_eqb_refl.
  - intros k m. unfold dalek_sign, concrete_ed25519. by rewrite length_app, sha256_length.
  - done.
  - intros k. simpl. by rewrite bytes_eqb_refl.
Qed.

(** ** JSON *)

(** Values are trees over integers, coded through generic trees. *)
Fixpoint gen_of_json (j : json Z) : gen_tree (bytes + Z + bool) :=
  match j with
  | JNull => GenNode 2 []
  | JBoolean b => GenLeaf (inr b)
  | JNum z => GenLeaf (inl (inr z))
  | JStr s => GenLeaf (inl (inl s))
  | JArr l => GenNode 3 (map gen_of_json l)
  | JObj m => GenNode 4 (map (λ kv, GenNode 0 [GenLeaf (inl (inl kv.1)); gen_of_json kv.2]) m)
  end.
Fixpoint json_of_gen (g : gen_tree (bytes + Z + bool)) : json Z :=
  match g with
  | GenLeaf (inr b) => JBoolean b
  | GenLeaf (inl (inr z)) => JNum z
  | GenLeaf (inl (inl s)) => JStr s
  | GenNode 3 l => JArr (map json_of_gen l)
  | GenNode 4 l =>
      JObj (map (λ e, match e with
                      | GenNode 0 [GenLeaf (inl (inl k)); v] => (k, json_of_gen v)
                      | _ => ([], JNull)
                      end) l)
  | _ => JNull
  end.

Lemma json_of_gen_of_json j : json_of_gen (gen_of_json j) = j.
Proof.
  induction j as [|b|n|s|l IH|m IH] using json_tree_ind; simpl; try done; f_equal;
    rewrite map_map; induction IH as [|x r Hx _ IH]; simpl; try done.
  - by rewrite Hx, IH.
  - destruct x. simpl in *. by rewrite Hx, IH.
Qed.

#[export] Instance json_eq_dec : EqDecision (json Z).
Proof.
  intros a b. destruct (decide (gen_of_json a = gen_of_json b)) as [E|E]; [left|right; congruence].
  by rewrite <-(json_of_gen_of_json a), <-(json_of_gen_of_json b), E.
Defined.
#[export] Instance json_countable : Countable (json Z).
Proof. apply (inj_countable' gen_of_json json_of_gen), json_of_gen_of_json. Defined.

Fixpoint bits_of (p : positive) : bytes :=
  match p with
  | xH => []
  | xO q => "o"%char :: bits_of q
  | xI q => "i"%char :: bits_of q
  end.
Fixpoint of_bits (s : bytes) : positive :=
  match s with
  | [] => xH
  | c :: s' => if ascii_eqb c "o" then xO (of_bits s') else xI (of_bits s')
  end.

Lemma of_bits_of p : of_bits (bits_of p) = p.
Proof. induction p as [p IH|p IH|]; simpl; [by rewrite IH..|done]. Qed.

#[export] Instance concrete_json : SerdeJson := {
  Value := json Z;
  from_slice s := match s with [] => None | _ :: s' => decode (of_bits s') end;
  to_vec v := Some (" "%char :: bits_of (encode v));
  as_object v := match v with JObj m => Some (list_to_map m) | _ => None end;
  Object m := JObj (map_to_list m);
  as_str v := match v with JStr s => Some s | _ => None end;
  JString s := JStr s;
  JNumber z := JNum z;
  JBool b := JBoolean b;
}.

#[export] Instance concrete_json_laws : SerdeJsonLaws.
Proof.
  split; simpl.
  - intros v s [= <-]. by rewrite of_bits_of, decode_encode.
  - by intros v s [= <-].
  - intros m. by rewrite list_to_map_to_list.
  - done.
Qed.

(** The tree of a value: its objects in key order, the first of each key. *)
Fixpoint insert_key {A} (k : bytes) (v : A) (m : list (bytes * A)) : list (bytes * A) :=
  match m with
  | [] => [(k, v)]
  | (k', v') :: m' =>
      if bytes_eqb k k' then (k, v) :: m'
      else if bytes_ltb k k' then (k, v) :: m
      else (k', v') :: insert_key k v m'
  end.
Fixpoint canonical (j : json Z) : json Z :=
  match j with
  | JArr l => JArr (map canonical l)
  | JObj m => JObj (foldr (λ kv acc, insert_key kv.1 (canonical kv.2) acc) [] m)
  | _ => j
  end.

#[export] Instance concrete_tree : JsonTree := {
  Number := Z;
  num_eqb := Z.eqb;
  num_is_i64 := in_i64;
  num_of := id;
  tree_of := canonical;
  value_of := id;
  to_string v := " "%char :: bits_of (encode v);
}.

Lemma insert_key_Forall {A} (P : bytes * A → Prop) k v m :
  P (k, v) → Forall P m → Forall P (insert_key k v m).
Proof.
  intros Hk. induction m as [|[k' v'] m IH]; simpl; intros HF; [by repeat constructor|].
  apply Forall_cons in HF as [Hp HF]. repeat case_match; repeat constructor; auto.
Qed.

Lemma bytes_trichotomy a b : bytes_eqb a b = false → bytes_ltb a b = false → bytes_ltb b a = true.
Proof.
  revert b. induction a as [|x a IH]; intros [|y b]; simpl; try done.
  destruct (N_of_ascii x <? N_of_ascii y)%N eqn:E1; [done|].
  destruct (N_of_ascii y <? N_of_ascii x)%N eqn:E2; [done|].
  apply N.ltb_ge in E1, E2. assert (x = y) as -> by
    (rewrite <-(ascii_N_embedding x), <-(ascii_N_embedding y); f_equal; lia).
  rewrite ascii_eqb_refl. simpl. intros He. apply IH.
  destruct (bytes_eqb a b) eqn:Eab; [|done]. apply bytes_eqb_true in Eab as ->. by rewrite bytes_eqb_refl in He.
Qed.

Lemma insert_key_sorted {A} k (v : A) m : keys_sorted m → keys_sorted (insert_key k v m).
Proof.
  induction m as [|[k' v'] m IH]; simpl; [by repeat constructor|].
  intros [Hs HF]%keys_sorted_cons. destruct (bytes_eqb k k') eqn:E1; [|destruct (bytes_ltb k k') eqn:E2].
  - apply bytes_eqb_true in E1 as ->. by apply keys_sorted_cons.
  - apply keys_sorted_cons. split; [by apply keys_sorted_cons|]. constructor; [done|].
    eapply Forall_impl; [exact HF|]. intros x Hx. by eapply bytes_ltb_trans.
  - apply keys_sorted_cons. split; [by apply IH|]. apply insert_key_Forall; [|done].
    by apply bytes_trichotomy.
Qed.

Lemma insert_key_first {A} k (v : A) m :
  Forall (λ kv, bytes_ltb k kv.1 = true) m → insert_key k v m = (k, v) :: m.
Proof.
  destruct m as [|[k' v'] m]; [done|]. simpl. intros HF. apply Forall_cons in HF as [Hk _]. simpl in Hk.
  destruct (bytes_eqb k k') eqn:E; [|by rewrite Hk].
  apply bytes_eqb_true in E as ->. by rewrite bytes_ltb_irrefl in Hk.
Qed.

Lemma list_to_map_insert_key {A} k (v : A) m :
  keys_sorted m → (list_to_map (insert_key k v m) : gmap bytes A) = <[k := v]> (list_to_map m).
Proof.
  induction m as [|[k' v'] m IH]; simpl; [done|]. intros [Hs HF]%keys_sorted_cons.
  destruct (bytes_eqb k k') eqn:E1; [|destruct (bytes_ltb k k')]; simpl.
  - apply bytes_eqb_true in E1 as ->. by rewrite insert_insert_eq.
  - done.
  - rewrite IH by done. apply insert_insert_ne. intros ->. by rewrite bytes_eqb_refl in E1.
Qed.

Lemma canonical_members_sorted (m : list (bytes * json Z)) :
  keys_sorted (foldr (λ kv acc, insert_key kv.1 (canonical kv.2) acc) [] m).
Proof. induction m as [|kv m IH]; simpl; [constructor|by apply insert_key_sorted]. Qed.

Lemma canonical_wf j : json_wf (canonical j).
Proof.
  induction j as [|b|n|s|l IH|m IH] using json_tree_ind; simpl; try constructor.
  - by apply Forall_map.
  - apply canonical_members_sorted.
  - induction IH as [|kv m Hk _ IH]; simpl; [constructor|by apply insert_key_Forall].
Qed.

Lemma canonical_id j : json_wf j → canonical j = j.
Proof.
  induction j as [|b|n|s|l IH|m IH] using json_tree_ind; simpl; try done; intros Hw;
    inversion Hw as [| | | |? HF|? Hs HF]; subst; f_equal.
  - induction IH as [|x l Hx _ IHl]; simpl; [done|]. apply Forall_cons in HF as [? HF].
    rewrite Hx, IHl by (done || by constructor). done.
  - induction IH as [|[k v] m Hx _ IHl]; simpl; [done|]. apply Forall_cons in HF as [? HF].
    apply keys_sorted_cons in Hs as [Hs Hk]. simpl in *.
    rewrite Hx, IHl by (done || by constructor). by apply insert_key_first.
Qed.

#[export] Instance concrete_tree_laws : JsonTreeLaws.
Proof.
  split; simpl.
  - apply Z.eqb_refl.
  - apply canonical_wf.
  - intros t Ht. by apply canonical_id.
  - intros [| | | |l|m]; try done. simpl. f_equal.
    induction m as [|[k v] m IH]; simpl; [apply fmap_empty|].
    rewrite fmap_insert, IH. symmetry. apply list_to_map_insert_key, canonical_members_sorted.
  - by intros [].
  - intros v. by rewrite of_bits_of, decode_encode.
Qed.

(** A derived type of which one value is ever serialized. *)
Definition one_value_serde `{EqDecision T} (t0 : T) (name : bytes) : Serde T := serde_through
  (λ v, if bool_decide (as_str v = Some name) then Some t0 else None)
  (λ t, if bool_decide (t = t0) then Some (JString name) else None).

Lemma one_value_serde_laws `{EqDecision T} (t0 : T) name :
  @SerdeLaws _ T (one_value_serde t0 name).
Proof.
  apply serde_through_laws. intros t v. case_bool_decide as Ht; [|done]. intros [= <-]. simpl.
  by rewrite bool_decide_true, Ht.
Qed.

End Instances.
