(* ===== verification/CoreError.v ===== *)
(** * [mcp-re-core]: the error taxonomy and the audit vocabulary

    [error.rs] freezes one wire token per error; [audit.rs] derives the audit events of
    the two halves of an exchange from it. *)

From S2P Require Import Prelude.
From S2P Require Import RustStr.

(** ** [error.rs] *)

Inductive McpReError : Type :=
| MissingEnvelope
| UnsupportedVersion
| InvalidSignature
| SerializationFailed
| ExpiredRequest
| ReplayDetected
| InvalidAudience
| ActorBindingFailed
| TransportBindingFailed
| AuthorizationHashMissing
| OnBehalfOfMissing
| OnBehalfOfInvalidFormat
| ResponseSigInvalid
| ResponseHashMismatch
| DowngradeForbidden
| BatchForbidden
| NotificationForbidden
| UnknownEnvelopeField
| TrustResolverUnavailable
| ReplayCacheUnavailable
| EvidenceRetentionUnavailable
| EvidenceRetentionIndeterminate
| ExchangeInvariantViolation
| AuthorizationBindingMissing
| AuthorizationBindingTypeUnsupported
| AuthorizationBindingMalformed
| AuthorizationBindingProfileRequired
| AuthorizationBindingAmbiguousBytes
| ContinuationTypeUnsupported
| ContinuationMalformed
| MalformedEnvelope
| DigestMismatch
| ArtifactBindingFailed
| RequestBindingMismatch
| ContinuationBindingFailed
| ContinuationConflict
| DelegationCredentialMissing
| DelegationCredentialInvalid
| DelegationCredentialExpired
| DelegationIssuerUntrusted
| DelegationProfileMismatch
| DelegationAudienceMismatch
| DelegationKeyUseInvalid
| DelegationTrustEpochStale
| DelegationKeyMismatch
| DelegationRevoked
| DelegatedSigningUnavailable
| UpstreamResponseInvalid
| InnerDispatchIndeterminate
| InnerPlaneUnavailable.

#[global] Instance McpReError_eq_dec : EqDecision McpReError.
Proof. solve_decision. Defined.

Definition wire_code (e : McpReError) : bytes :=
  match e with
  | MissingEnvelope => b#"mcp-re.missing_envelope"
  | UnsupportedVersion => b#"mcp-re.unsupported_version"
  | InvalidSignature => b#"mcp-re.invalid_signature"
  | SerializationFailed => b#"mcp-re.serialization_failed"
  | ExpiredRequest => b#"mcp-re.expired_request"
  | ReplayDetected => b#"mcp-re.replay_detected"
  | InvalidAudience => b#"mcp-re.invalid_audience"
  | ActorBindingFailed => b#"mcp-re.actor_binding_failed"
  | TransportBindingFailed => b#"mcp-re.transport_binding_failed"
  | AuthorizationHashMissing => b#"mcp-re.authorization_hash_missing"
  | OnBehalfOfMissing => b#"mcp-re.on_behalf_of_missing"
  | OnBehalfOfInvalidFormat => b#"mcp-re.on_behalf_of_invalid_format"
  | ResponseSigInvalid => b#"mcp-re.response_sig_invalid"
  | ResponseHashMismatch => b#"mcp-re.response_hash_mismatch"
  | DowngradeForbidden => b#"mcp-re.downgrade_forbidden"
  | BatchForbidden => b#"mcp-re.batch_forbidden"
  | NotificationForbidden => b#"mcp-re.notification_forbidden"
  | UnknownEnvelopeField => b#"mcp-re.unknown_envelope_field"
  | TrustResolverUnavailable => b#"mcp-re.trust_resolver_unavailable"
  | ReplayCacheUnavailable => b#"mcp-re.replay_cache_unavailable"
  | EvidenceRetentionUnavailable => b#"mcp-re.evidence_retention_unavailable"
  | EvidenceRetentionIndeterminate => b#"mcp-re.evidence_retention_indeterminate"
  | ExchangeInvariantViolation => b#"mcp-re.exchange_invariant_violation"
  | AuthorizationBindingMissing => b#"mcp-re.authorization_binding_missing"
  | AuthorizationBindingTypeUnsupported => b#"mcp-re.authorization_binding_type_unsupported"
  | AuthorizationBindingMalformed => b#"mcp-re.authorization_binding_malformed"
  | AuthorizationBindingProfileRequired => b#"mcp-re.authorization_binding_profile_required"
  | AuthorizationBindingAmbiguousBytes => b#"mcp-re.authorization_binding_ambiguous_bytes"
  | ContinuationTypeUnsupported => b#"mcp-re.continuation_type_unsupported"
  | ContinuationMalformed => b#"mcp-re.continuation_malformed"
  | MalformedEnvelope => b#"mcp-re.malformed_envelope"
  | DigestMismatch => b#"mcp-re.digest_mismatch"
  | ArtifactBindingFailed => b#"mcp-re.artifact_binding_failed"
  | RequestBindingMismatch => b#"mcp-re.request_binding_mismatch"
  | ContinuationBindingFailed => b#"mcp-re.continuation_binding_failed"
  | ContinuationConflict => b#"mcp-re.continuation_conflict"
  | DelegationCredentialMissing => b#"mcp-re.delegation_credential_missing"
  | DelegationCredentialInvalid => b#"mcp-re.delegation_credential_invalid"
  | DelegationCredentialExpired => b#"mcp-re.delegation_credential_expired"
  | DelegationIssuerUntrusted => b#"mcp-re.delegation_issuer_untrusted"
  | DelegationProfileMismatch => b#"mcp-re.delegation_profile_mismatch"
  | DelegationAudienceMismatch => b#"mcp-re.delegation_audience_mismatch"
  | DelegationKeyUseInvalid => b#"mcp-re.delegation_key_use_invalid"
  | DelegationTrustEpochStale => b#"mcp-re.delegation_trust_epoch_stale"
  | DelegationKeyMismatch => b#"mcp-re.delegation_key_mismatch"
  | DelegationRevoked => b#"mcp-re.delegation_revoked"
  | DelegatedSigningUnavailable => b#"mcp-re.delegated_signing_unavailable"
  | UpstreamResponseInvalid => b#"mcp-re.upstream_response_invalid"
  | InnerDispatchIndeterminate => b#"mcp-re.inner_dispatch_indeterminate"
  | InnerPlaneUnavailable => b#"mcp-re.inner_plane_unavailable"
  end.

Definition ALL_ERRORS : list McpReError :=
  [ MissingEnvelope;
    UnsupportedVersion;
    InvalidSignature;
    SerializationFailed;
    ExpiredRequest;
    ReplayDetected;
    InvalidAudience;
    ActorBindingFailed;
    TransportBindingFailed;
    AuthorizationHashMissing;
    OnBehalfOfMissing;
    OnBehalfOfInvalidFormat;
    ResponseSigInvalid;
    ResponseHashMismatch;
    DowngradeForbidden;
    BatchForbidden;
    NotificationForbidden;
    UnknownEnvelopeField;
    TrustResolverUnavailable;
    ReplayCacheUnavailable;
    EvidenceRetentionUnavailable;
    EvidenceRetentionIndeterminate;
    ExchangeInvariantViolation;
    AuthorizationBindingMissing;
    AuthorizationBindingTypeUnsupported;
    AuthorizationBindingMalformed;
    AuthorizationBindingProfileRequired;
    AuthorizationBindingAmbiguousBytes;
    ContinuationTypeUnsupported;
    ContinuationMalformed;
    UpstreamResponseInvalid;
    InnerDispatchIndeterminate;
    InnerPlaneUnavailable;
    MalformedEnvelope;
    DigestMismatch;
    ArtifactBindingFailed;
    RequestBindingMismatch;
    ContinuationBindingFailed;
    ContinuationConflict;
    DelegationCredentialMissing;
    DelegationCredentialInvalid;
    DelegationCredentialExpired;
    DelegationIssuerUntrusted;
    DelegationProfileMismatch;
    DelegationAudienceMismatch;
    DelegationKeyUseInvalid;
    DelegationTrustEpochStale;
    DelegationKeyMismatch;
    DelegationRevoked;
    DelegatedSigningUnavailable ].

(** ** [audit/reason_label.rs] *)

Definition reason_label (e : McpReError) : bytes :=
  match e with
  | MissingEnvelope => b#"Missing MCP-RE envelope"
  | UnsupportedVersion => b#"Unsupported envelope version"
  | InvalidSignature => b#"Invalid signature"
  | SerializationFailed => b#"Serialization failed"
  | ExpiredRequest => b#"Expired request"
  | ReplayDetected => b#"Replay detected"
  | InvalidAudience => b#"Invalid audience"
  | ActorBindingFailed => b#"Signer trust binding failed"
  | TransportBindingFailed => b#"Transport binding failed"
  | AuthorizationHashMissing => b#"Authorization hash missing"
  | OnBehalfOfMissing => b#"on_behalf_of missing"
  | OnBehalfOfInvalidFormat => b#"on_behalf_of malformed"
  | ResponseSigInvalid => b#"Invalid response signature"
  | ResponseHashMismatch => b#"Response/request hash mismatch"
  | DowngradeForbidden => b#"Security downgrade forbidden"
  | BatchForbidden => b#"JSON-RPC batch forbidden"
  | NotificationForbidden => b#"Security notification forbidden"
  | UnknownEnvelopeField => b#"Unknown envelope field"
  | TrustResolverUnavailable => b#"Trust resolver unavailable"
  | ReplayCacheUnavailable => b#"Replay cache unavailable"
  | EvidenceRetentionUnavailable => b#"Retained-evidence store unavailable"
  | EvidenceRetentionIndeterminate => b#"Retained-evidence write failed after the call had already executed"
  | ExchangeInvariantViolation => b#"Exchange invariant violation"
  | AuthorizationBindingMissing => b#"authorization_binding missing"
  | AuthorizationBindingTypeUnsupported => b#"authorization_binding type unsupported"
  | AuthorizationBindingMalformed => b#"authorization_binding malformed"
  | AuthorizationBindingProfileRequired => b#"authorization_binding profile required"
  | AuthorizationBindingAmbiguousBytes => b#"authorization_binding ambiguous bytes"
  | ContinuationTypeUnsupported => b#"continuation type unsupported"
  | ContinuationMalformed => b#"continuation malformed"
  | MalformedEnvelope => b#"Malformed evidence structure"
  | DigestMismatch => b#"Content-Digest mismatch"
  | ArtifactBindingFailed => b#"Artifact binding failed"
  | RequestBindingMismatch => b#"Response/request binding mismatch"
  | ContinuationBindingFailed => b#"Continuation binding failed"
  | ContinuationConflict => b#"Continuation already open for this request state"
  | DelegationCredentialMissing => b#"Delegation credential missing"
  | DelegationCredentialInvalid => b#"Delegation credential invalid"
  | DelegationCredentialExpired => b#"Delegation credential expired"
  | DelegationIssuerUntrusted => b#"Delegation issuer untrusted"
  | DelegationProfileMismatch => b#"Delegation profile mismatch"
  | DelegationAudienceMismatch => b#"Delegation audience/scope mismatch"
  | DelegationKeyUseInvalid => b#"Delegation key-use invalid"
  | DelegationTrustEpochStale => b#"Delegation trust epoch stale"
  | DelegationKeyMismatch => b#"Delegation key mismatch"
  | DelegationRevoked => b#"Delegation revoked"
  | DelegatedSigningUnavailable => b#"Delegated signing unavailable"
  | UpstreamResponseInvalid => b#"Upstream response is not a legal MCP response"
  | InnerDispatchIndeterminate => b#"Inner transport failed after the request was transmitted; execution unknown"
  | InnerPlaneUnavailable => b#"Inner plane could not begin a dispatch"
  end.

(** ** [audit.rs] and [audit/half.rs] *)

Definition REQUEST_ACCEPTED : bytes := b#"mcp-re.request.accepted".
Definition RESPONSE_SIGNED : bytes := b#"mcp-re.response.signed".
Definition REQUEST_REJECTED : bytes := b#"mcp-re.request.rejected".
Definition RESPONSE_REJECTED : bytes := b#"mcp-re.response.rejected".
Definition DELEGATED_KEY_ISSUED : bytes := b#"mcp-re.delegated_key.issued".
Definition DELEGATED_KEY_ROTATED : bytes := b#"mcp-re.delegated_key.rotated".
Definition DELEGATED_KEY_RETIRED : bytes := b#"mcp-re.delegated_key.retired".

Definition SUCCESS_EVENT_TYPES : list bytes := [REQUEST_ACCEPTED; RESPONSE_SIGNED].
Definition REJECTION_EVENT_TYPES : list bytes := [REQUEST_REJECTED; RESPONSE_REJECTED].
Definition KEY_LIFECYCLE_EVENT_TYPES : list bytes :=
  [DELEGATED_KEY_ISSUED; DELEGATED_KEY_ROTATED; DELEGATED_KEY_RETIRED].

Definition rejection_reason (e : McpReError) : bytes := wire_code e.

Inductive AuditDecision : Type := Accepted | Signed | Rejected.

Record AuditEvent := {
  event_type : bytes;
  event_decision : AuditDecision;
  reason : option bytes;
  event_reason_label : option bytes;
}.

Definition request_accepted : AuditEvent :=
  {| event_type := REQUEST_ACCEPTED; event_decision := Accepted;
     reason := None; event_reason_label := None |}.
Definition response_signed : AuditEvent :=
  {| event_type := RESPONSE_SIGNED; event_decision := Signed;
     reason := None; event_reason_label := None |}.
Definition request_rejected (e : McpReError) : AuditEvent :=
  {| event_type := REQUEST_REJECTED; event_decision := Rejected;
     reason := Some (rejection_reason e); event_reason_label := Some (reason_label e) |}.
Definition response_rejected (e : McpReError) : AuditEvent :=
  {| event_type := RESPONSE_REJECTED; event_decision := Rejected;
     reason := Some (rejection_reason e); event_reason_label := Some (reason_label e) |}.
Definition request_rejected_elsewhere : AuditEvent :=
  {| event_type := REQUEST_REJECTED; event_decision := Rejected;
     reason := None; event_reason_label := None |}.
Definition response_rejected_elsewhere : AuditEvent :=
  {| event_type := RESPONSE_REJECTED; event_decision := Rejected;
     reason := None; event_reason_label := None |}.

Inductive AuditHalf : Type := RequestHalf | ResponseHalf | NonExchange.

Definition half (ev : AuditEvent) : AuditHalf :=
  if bytes_eqb (event_type ev) REQUEST_ACCEPTED || bytes_eqb (event_type ev) REQUEST_REJECTED
  then RequestHalf
  else if bytes_eqb (event_type ev) RESPONSE_SIGNED
          || bytes_eqb (event_type ev) RESPONSE_REJECTED
  then ResponseHalf
  else NonExchange.

(** ** Properties *)

(** Reading a wire token back: the variant of [ALL_ERRORS] that prints it. *)
Definition error_of_wire (s : bytes) : option McpReError :=
  find (λ e, bytes_eqb (wire_code e) s) ALL_ERRORS.

Lemma error_of_wire_code e : error_of_wire (wire_code e) = Some e.
Proof. destruct e; vm_compute; reflexivity. Qed.

Lemma ALL_ERRORS_complete e : e ∈ ALL_ERRORS.
Proof. destruct e; unfold ALL_ERRORS; set_solver. Qed.

Lemma wire_code_inj e1 e2 : wire_code e1 = wire_code e2 → e1 = e2.
Proof.
  intros H. assert (Some e1 = Some e2) as [= ->]; [|done].
  by rewrite <-!error_of_wire_code, H.
Qed.
