(* ===== verification/CoreTime.v ===== *)
(** * [mcp-re-core/src/time]: RFC 3339 timestamps

    [time/mod.rs] parses the strict UTC form [YYYY-MM-DDTHH:MM:SS[.f+]Z] into Unix
    seconds, [time/format.rs] prints Unix seconds back. Rust's [/] and [%] truncate
    ([Z.quot], [Z.rem]); [div_euclid] and [rem_euclid] by a positive constant are
    [Z.div] and [Z.modulo]. The properties say that both directions agree with the
    Gregorian calendar, on the whole era the grammar admits. *)

From S2P Require Import Prelude.
From S2P Require Import RustStr.
From S2P Require Import CoreError.

(** ** [time/mod.rs] *)

Definition DAYS_IN_MONTH : list Z := [31; 28; 31; 30; 31; 30; 31; 31; 30; 31; 30; 31].

Definition is_leap_year (year : Z) : bool :=
  ((Z.rem year 4 =? 0) && negb (Z.rem year 100 =? 0)) || (Z.rem year 400 =? 0).

(** [char::to_digit(10)]. *)
Definition to_digit (c : ascii) : option Z :=
  if is_ascii_digit c then Some (digit_val c) else None.

Fixpoint fixed_digits_loop (value : Z) (field : bytes) : option Z :=
  match field with
  | [] => Some value
  | b :: rest =>
      match to_digit b with
      | None => None
      | Some digit =>
          match checked_mul value 10 with
          | None => None
          | Some v10 => match checked_add v10 digit with
                        | None => None
                        | Some v => fixed_digits_loop v rest
                        end
          end
      end
  end.

Definition parse_fixed_digits (b : bytes) (start n : nat) : option Z :=
  if (length b <? start)%nat then None
  else let from := drop start b in
       if (length from <? n)%nat then None
       else fixed_digits_loop 0 (take n from).

Definition days_from_civil (year month day : Z) : Z :=
  let y := if month <=? 2 then year - 1 else year in
  let era := Z.quot (if 0 <=? y then y else y - 399) 400 in
  let yoe := y - era * 400 in
  let doy := Z.quot (153 * (if 2 <? month then month - 3 else month + 9) + 2) 5 + day - 1 in
  let doe := yoe * 365 + Z.quot yoe 4 - Z.quot yoe 100 + doy in
  era * 146097 + doe - 719468.

(** [tail == b"Z"], or a dot, at least one digit and a [Z]. *)
Definition fraction_ok (tail : bytes) : bool :=
  if bytes_eqb tail b#"Z" then true
  else match tail with
       | "."%char :: frac =>
           match last frac with
           | Some l => if ascii_eqb l "Z" && negb (bytes_eqb (removelast frac) [])
                       then forallb is_ascii_digit (removelast frac) else false
           | None => false
           end
       | _ => false
       end.

Definition byte_at (b : bytes) (i : nat) : ascii := nth i b "000"%char.

Definition max_day_of (year month : Z) : Z :=
  if (month =? 2) && is_leap_year year then 29
  else nth (Z.to_nat (month - 1)) DAYS_IN_MONTH 0.

Definition parse_rfc3339_utc (s : bytes) : Result Z McpReError :=
  if (length s <? 20)%nat then Err ExpiredRequest
  else if negb (ascii_eqb (byte_at s 4) "-") || negb (ascii_eqb (byte_at s 7) "-")
          || negb (ascii_eqb (byte_at s 10) "T") || negb (ascii_eqb (byte_at s 13) ":")
          || negb (ascii_eqb (byte_at s 16) ":")
  then Err ExpiredRequest
  else
    match parse_fixed_digits s 0 4, parse_fixed_digits s 5 2, parse_fixed_digits s 8 2,
          parse_fixed_digits s 11 2, parse_fixed_digits s 14 2, parse_fixed_digits s 17 2 with
    | Some year, Some month, Some day, Some hour, Some minute, Some second =>
        if negb (fraction_ok (drop 19 s)) then Err ExpiredRequest
        else if negb ((1 <=? month) && (month <=? 12)) then Err ExpiredRequest
        else if (day <? 1) || (max_day_of year month <? day) then Err ExpiredRequest
        else if (23 <? hour) || (59 <? minute) || (59 <? second) then Err ExpiredRequest
        else Ok (days_from_civil year month day * 86400 + hour * 3600 + minute * 60 + second)
    | _, _, _, _, _, _ => Err ExpiredRequest
    end.

(** ** [time/format.rs] *)

Definition civil_from_days (z0 : Z) : Z * Z * Z :=
  let z := z0 + 719468 in
  let era := Z.quot (if 0 <=? z then z else z - 146096) 146097 in
  let doe := z - era * 146097 in
  let yoe := Z.quot (doe - Z.quot doe 1460 + Z.quot doe 36524 - Z.quot doe 146096) 365 in
  let y := yoe + era * 400 in
  let doy := doe - (365 * yoe + Z.quot yoe 4 - Z.quot yoe 100) in
  let mp := Z.quot (5 * doy + 2) 153 in
  let d := doy - Z.quot (153 * mp + 2) 5 + 1 in
  let m := if mp <? 10 then mp + 3 else mp - 9 in
  (if m <=? 2 then y + 1 else y, m, d).

Definition unix_to_rfc3339_utc (unix : Z) : bytes :=
  let days := unix / 86400 in
  let secs := unix mod 86400 in
  let '(year, month, day) := civil_from_days days in
  let hh := Z.quot secs 3600 in
  let mm := Z.quot (Z.rem secs 3600) 60 in
  let ss := Z.rem secs 60 in
  fmt_pad 4 year ++ b#"-" ++ fmt_pad 2 month ++ b#"-" ++ fmt_pad 2 day ++ b#"T"
  ++ fmt_pad 2 hh ++ b#":" ++ fmt_pad 2 mm ++ b#":" ++ fmt_pad 2 ss ++ b#"Z".

(** ** The calendar *)

Ltac zdiv := Z.to_euclidean_division_equations; lia.

(** Evaluate the comparisons of constants in the goal. *)
Ltac eval_cmp :=
  repeat match goal with
  | |- context[(?a <=? ?b)] =>
      let r := eval vm_compute in (a <=? b) in
      match r with true => idtac | false => idtac end; change (a <=? b) with r
  | |- context[(?a <? ?b)] =>
      let r := eval vm_compute in (a <? b) in
      match r with true => idtac | false => idtac end; change (a <? b) with r
  | |- context[(?a =? ?b)] =>
      let r := eval vm_compute in (a =? b) in
      match r with true => idtac | false => idtac end; change (a =? b) with r
  end; cbv zeta; cbn [orb andb negb].

(** A date of the proleptic Gregorian calendar. *)
Definition valid_date (y m d : Z) : Prop := 1 ≤ m ≤ 12 ∧ 1 ≤ d ≤ max_day_of y m.

Lemma leap_spec y :
  is_leap_year y = true ↔ (y mod 4 = 0 ∧ y mod 100 ≠ 0) ∨ y mod 400 = 0.
Proof.
  unfold is_leap_year. rewrite orb_true_iff, andb_true_iff, negb_true_iff, !Z.eqb_eq, Z.eqb_neq.
  split; intros; zdiv.
Qed.

(** The table, as cases. *)
Lemma max_day_cases y m :
  1 ≤ m ≤ 12 →
  max_day_of y m =
    if (m =? 2) then (if is_leap_year y then 29 else 28)
    else if (m =? 4) || (m =? 6) || (m =? 9) || (m =? 11) then 30 else 31.
Proof.
  intros Hm. unfold max_day_of.
  assert (m = 1 ∨ m = 2 ∨ m = 3 ∨ m = 4 ∨ m = 5 ∨ m = 6 ∨ m = 7 ∨ m = 8 ∨ m = 9 ∨ m = 10
          ∨ m = 11 ∨ m = 12) as Hc by lia.
  by destruct_or!; subst m.
Qed.

Lemma max_day_range y m : 1 ≤ m ≤ 12 → 28 ≤ max_day_of y m ≤ 31.
Proof. intros Hm. rewrite max_day_cases by done. repeat case_match; lia. Qed.

(** The years since March of year 0 of a 400-year era, and the day they start on. *)
Definition year_start (yoe : Z) : Z := 365 * yoe + yoe / 4 - yoe / 100.
Definition year_of (doe : Z) : Z := (doe - doe / 1460 + doe / 36524 - doe / 146096) / 365.
(** The months since March, and the day of the year they start on. *)
Definition month_start (mp : Z) : Z := (153 * mp + 2) / 5.

Lemma year_of_range doe : 0 ≤ doe < 146097 → 0 ≤ year_of doe < 400.
Proof. unfold year_of. intros. zdiv. Qed.

Lemma year_of_bounds doe :
  0 ≤ doe < 146097 →
  year_start (year_of doe) ≤ doe ∧
  (doe < year_start (year_of doe + 1) ∨ (year_of doe = 399 ∧ doe = 146096)).
Proof. unfold year_of, year_start. intros. zdiv. Qed.

Lemma year_of_start yoe doy :
  0 ≤ yoe < 400 → 0 ≤ doy →
  (year_start yoe + doy < year_start (yoe + 1) ∨ (yoe = 399 ∧ doy ≤ 365)) →
  year_of (year_start yoe + doy) = yoe.
Proof. unfold year_of, year_start. intros. zdiv. Qed.

Lemma days_from_civil_eq y m d :
  1 ≤ m ≤ 12 →
  days_from_civil y m d =
    let y' := if m <=? 2 then y - 1 else y in
    y' / 400 * 146097 + year_start (y' mod 400)
    + month_start (if 2 <? m then m - 3 else m + 9) + d - 1 - 719468.
Proof.
  intros Hm. unfold days_from_civil, year_start, month_start.
  destruct (m <=? 2) eqn:E; destruct (2 <? m) eqn:E'; bool_prop; try lia; cbv zeta.
  - destruct (0 <=? y - 1) eqn:Ey; bool_prop; zdiv.
  - destruct (0 <=? y) eqn:Ey; bool_prop; zdiv.
Qed.

Lemma civil_from_days_eq z :
  civil_from_days z =
    let era := (z + 719468) / 146097 in
    let doe := (z + 719468) mod 146097 in
    let doy := doe - year_start (year_of doe) in
    let mp := (5 * doy + 2) / 153 in
    let y := year_of doe + era * 400 in
    let m := if mp <? 10 then mp + 3 else mp - 9 in
    (if m <=? 2 then y + 1 else y, m, doy - month_start mp + 1).
Proof.
  unfold civil_from_days. cbv zeta.
  assert (Z.quot (if 0 <=? z + 719468 then z + 719468 else z + 719468 - 146096) 146097
          = (z + 719468) / 146097) as ->.
  { destruct (0 <=? z + 719468) eqn:E; bool_prop; zdiv. }
  assert (z + 719468 - (z + 719468) / 146097 * 146097 = (z + 719468) mod 146097) as ->
    by zdiv.
  pose proof (Z.mod_pos_bound (z + 719468) 146097 ltac:(lia)) as Hd.
  set (doe := (z + 719468) mod 146097) in *.
  pose proof (year_of_range doe Hd) as Hy. pose proof (year_of_bounds doe Hd) as [Hlo _].
  assert (Z.quot (doe - Z.quot doe 1460 + Z.quot doe 36524 - Z.quot doe 146096) 365
          = year_of doe) as -> by (unfold year_of; zdiv).
  assert (365 * year_of doe + Z.quot (year_of doe) 4 - Z.quot (year_of doe) 100
          = year_start (year_of doe)) as -> by (unfold year_start; zdiv).
  rewrite (Z.quot_div_nonneg (5 * _ + 2) 153) by lia.
  unfold month_start. rewrite (Z.quot_div_nonneg (153 * _ + 2) 5); [done| |lia].
  pose proof (Z.div_pos (5 * (doe - year_start (year_of doe)) + 2) 153). lia.
Qed.

(** The length of the shifted year that starts in March of year [y]. *)
Lemma shifted_year_length y :
  year_start (y mod 400) + (if is_leap_year (y + 1) then 366 else 365)
  = (if y mod 400 =? 399 then 146097 else year_start (y mod 400 + 1)).
Proof.
  unfold year_start. destruct (is_leap_year (y + 1)) eqn:E.
  - apply leap_spec in E. destruct (y mod 400 =? 399) eqn:?; bool_prop; zdiv.
  - assert (¬ ((((y + 1) mod 4 = 0 ∧ (y + 1) mod 100 ≠ 0) ∨ (y + 1) mod 400 = 0)))
      by (rewrite <-leap_spec; congruence).
    destruct (y mod 400 =? 399) eqn:?; bool_prop; zdiv.
Qed.

(** Twelve cases for the month, in terms of the months since March. *)
Lemma month_cases m : 1 ≤ m ≤ 12 →
  m = 1 ∨ m = 2 ∨ m = 3 ∨ m = 4 ∨ m = 5 ∨ m = 6 ∨ m = 7 ∨ m = 8 ∨ m = 9 ∨ m = 10
  ∨ m = 11 ∨ m = 12.
Proof. lia. Qed.

(** A valid date is inside its shifted year. *)
Lemma valid_date_doy y m d :
  valid_date y m d →
  let y' := if m <=? 2 then y - 1 else y in
  let mp := if 2 <? m then m - 3 else m + 9 in
  0 ≤ mp ≤ 11 ∧ 0 ≤ month_start mp + d - 1 < (if is_leap_year (y' + 1) then 366 else 365) ∧
  (5 * (month_start mp + d - 1) + 2) / 153 = mp.
Proof.
  intros [Hm Hd]. rewrite max_day_cases in Hd by done. unfold month_start.
  pose proof (month_cases m Hm). destruct_or!; subst m; cbn [Z.leb Z.ltb Z.eqb Z.compare
    Pos.compare Pos.compare_cont Pos.eqb orb] in *; cbv zeta;
  try replace (y - 1 + 1) with y by lia;
  match goal with |- context[is_leap_year ?e] => destruct (is_leap_year e) end; zdiv.
Qed.

(** The day number of a valid date gives the date back. *)
Lemma civil_from_days_from_civil y m d :
  valid_date y m d → civil_from_days (days_from_civil y m d) = (y, m, d).
Proof.
  intros Hv. pose proof Hv as [Hm _]. pose proof (valid_date_doy y m d Hv) as (Hmp & Hdoy & Hmonth).
  rewrite days_from_civil_eq by done. cbv zeta in *.
  set (y' := if m <=? 2 then y - 1 else y) in *. set (mp := if 2 <? m then m - 3 else m + 9) in *.
  set (doy := month_start mp + d - 1) in *.
  pose proof (Z.mod_pos_bound y' 400 ltac:(lia)) as Hy.
  pose proof (shifted_year_length y') as Hlen.
  assert (0 ≤ year_start (y' mod 400) + doy < 146097) as Hdoe.
  { split; [unfold year_start; zdiv|].
    destruct (y' mod 400 =? 399) eqn:E; bool_prop; [lia|].
    assert (year_start (y' mod 400 + 1) ≤ 146097) by (unfold year_start; zdiv). lia. }
  rewrite civil_from_days_eq. cbv zeta.
  replace (y' / 400 * 146097 + year_start (y' mod 400) + month_start mp + d - 1 - 719468 + 719468)
    with (year_start (y' mod 400) + doy + y' / 400 * 146097) by (unfold doy; lia).
  rewrite Z.mod_add, Z.div_add, (Z.mod_small _ 146097), (Z.div_small _ 146097), Z.add_0_l by lia.
  rewrite year_of_start; [|lia|lia|].
  2:{ destruct (y' mod 400 =? 399) eqn:E; bool_prop; [right|left; lia].
      split; [done|]. destruct (is_leap_year (y' + 1)); lia. }
  replace (year_start (y' mod 400) + doy - year_start (y' mod 400)) with doy by lia.
  rewrite Hmonth.
  replace (y' mod 400 + y' / 400 * 400) with y' by (pose proof (Z.div_mod y' 400); lia).
  replace (doy - month_start mp + 1) with d by (unfold doy; lia).
  subst y' mp. clear -Hm.
  destruct (2 <? m) eqn:E1, (m <=? 2) eqn:E2; bool_prop; try lia.
  - replace (m - 3 <? 10) with true by lia. replace (m - 3 + 3) with m by lia.
    by replace (m <=? 2) with false by lia.
  - replace (m + 9 <? 10) with false by lia. replace (m + 9 - 9) with m by lia.
    replace (m <=? 2) with true by lia. f_equal. f_equal. lia.
Qed.

Lemma month_of_doy doy :
  0 ≤ doy ≤ 365 → let mp := (5 * doy + 2) / 153 in
  0 ≤ mp ≤ 11 ∧ month_start mp ≤ doy ∧ (mp < 11 → doy < month_start (mp + 1)).
Proof. unfold month_start. intros. cbv zeta. zdiv. Qed.

(** Every day number is the number of the date it denotes, and that date is valid. *)
Lemma days_from_civil_from_days z y m d :
  civil_from_days z = (y, m, d) → valid_date y m d ∧ days_from_civil y m d = z.
Proof.
  rewrite civil_from_days_eq. cbv zeta.
  set (w := z + 719468). pose proof (Z.mod_pos_bound w 146097 ltac:(lia)) as Hd.
  set (doe := w mod 146097) in *.
  pose proof (year_of_range doe Hd) as Hy. pose proof (year_of_bounds doe Hd) as [Hlo Hhi].
  set (yoe := year_of doe) in *. set (doy := doe - year_start yoe) in *.
  set (Y := yoe + w / 146097 * 400).
  assert (Y mod 400 = yoe) as HY.
  { unfold Y. rewrite Z.mod_add, Z.mod_small; lia. }
  assert (Y / 400 = w / 146097) as HY'.
  { unfold Y. rewrite Z.div_add, Z.div_small; lia. }
  pose proof (shifted_year_length Y) as Hlen. rewrite HY in Hlen.
  assert (0 ≤ doy < if is_leap_year (Y + 1) then 366 else 365) as Hdoy.
  { split; [lia|]. destruct (yoe =? 399) eqn:E; bool_prop; [lia|]. lia. }
  assert (doy ≤ 365) as Hdoy' by (destruct (is_leap_year (Y + 1)); lia).
  pose proof (month_of_doy doy ltac:(lia)) as (Hmp & Hms & Hme). cbv zeta in *.
  set (mp := (5 * doy + 2) / 153) in *.
  intros [= Hy1 Hm1 Hd1].
  assert (1 ≤ m ≤ 12) as Hm by (destruct (mp <? 10) eqn:E; bool_prop; lia).
  assert ((if m <=? 2 then y - 1 else y) = Y) as HYm.
  { rewrite <-Hy1. destruct (mp <? 10) eqn:E; bool_prop; subst m.
    - by replace (mp + 3 <=? 2) with false by lia.
    - replace (mp - 9 <=? 2) with true by lia. lia. }
  assert ((if 2 <? m then m - 3 else m + 9) = mp) as Hmpm.
  { destruct (mp <? 10) eqn:E; bool_prop; subst m.
    - replace (2 <? mp + 3) with true by lia. lia.
    - replace (2 <? mp - 9) with false by lia. lia. }
  split.
  - split; [done|]. subst d. rewrite max_day_cases by done. split; [lia|].
    clearbody Y mp doy. clear -Hm Hdoy Hdoy' Hms Hme HYm Hmpm. unfold month_start in *.
    pose proof (month_cases m Hm).
    destruct_or!; subst m; cbn in HYm, Hmpm |- *; subst mp; try (clear Hdoy; zdiv).
    replace (Y + 1) with y in Hdoy by lia. destruct (is_leap_year y); zdiv.
  - rewrite days_from_civil_eq by done. cbv zeta. rewrite HYm, Hmpm, HY, HY'. subst d.
    unfold doy, doe. pose proof (Z.div_mod w 146097 ltac:(lia)). lia.
Qed.

(** The day after a date. *)
Definition next_date (y m d : Z) : Z * Z * Z :=
  if d <? max_day_of y m then (y, m, d + 1)
  else if m <? 12 then (y, m + 1, 1)
  else (y + 1, 1, 1).

Lemma days_from_civil_next_month y m :
  1 ≤ m ≤ 11 → days_from_civil y (m + 1) 1 = days_from_civil y m (max_day_of y m) + 1.
Proof.
  intros Hm. rewrite !days_from_civil_eq by lia. rewrite max_day_cases by lia.
  unfold month_start. pose proof (month_cases m ltac:(lia)).
  destruct_or!; subst m; eval_cmp; try zdiv.
  pose proof (shifted_year_length (y - 1)) as Hlen. replace (y - 1 + 1) with y in Hlen by lia.
  destruct (is_leap_year y), ((y - 1) mod 400 =? 399) eqn:?; bool_prop;
    unfold year_start in *; zdiv.
Qed.

(** ** Fields of digits *)

Lemma fmt_nat_length n w : (0 < w)%nat → 0 ≤ n < 10 ^ Z.of_nat w → (length (fmt_nat n) ≤ w)%nat.
Proof.
  revert n. induction w as [|w IH]; intros n Hw Hn; [lia|].
  rewrite fmt_nat_eq by lia. destruct (n <? 10) eqn:E; bool_prop; [simpl; lia|].
  rewrite Nat2Z.inj_succ, Z.pow_succ_r in Hn by lia.
  destruct w as [|w]; [simpl in Hn; lia|]. rewrite length_app. simpl length at 2.
  enough (length (fmt_nat (n / 10)) ≤ S w)%nat by lia.
  apply IH; [lia|]. split; [apply Z.div_pos; lia|apply Z.div_lt_upper_bound; lia].
Qed.

Lemma dec_val_zeros k s : dec_val (replicate k "0"%char ++ s) = dec_val s.
Proof. induction k as [|k IH]; [done|]. rewrite <-IH. done. Qed.

Lemma fmt_pad_spec n w :
  (0 < w)%nat → 0 ≤ n < 10 ^ Z.of_nat w →
  length (fmt_pad w n) = w ∧ dec_val (fmt_pad w n) = n ∧
  Forall (λ c, is_ascii_digit c = true) (fmt_pad w n).
Proof.
  intros Hw Hn. unfold fmt_pad, pad_left. replace (n <? 0) with false by lia.
  pose proof (fmt_nat_length n w Hw Hn). split_and!.
  - rewrite length_app, length_replicate. lia.
  - rewrite dec_val_zeros. apply dec_val_fmt. lia.
  - apply Forall_app. split; [|apply fmt_nat_digits; lia].
    by apply Forall_replicate.
Qed.

Lemma dec_val_bound s :
  Forall (λ c, is_ascii_digit c = true) s → 0 ≤ dec_val s < 10 ^ Z.of_nat (length s).
Proof.
  induction s as [|c s IH] using rev_ind; [done|]. rewrite Forall_app, Forall_singleton.
  intros [Hs Hc]. specialize (IH Hs). pose proof (digit_val_range c Hc).
  rewrite dec_val_snoc, length_app. simpl length at 2.
  replace (Z.of_nat (length s + 1)) with (Z.succ (Z.of_nat (length s))) by lia.
  rewrite Z.pow_succ_r by lia. lia.
Qed.

(** A field of digits is the padded print of its value. *)
Lemma fmt_pad_dec_val s :
  Forall (λ c, is_ascii_digit c = true) s → s ≠ [] → fmt_pad (length s) (dec_val s) = s.
Proof.
  intros HF Hne. unfold fmt_pad.
  pose proof (dec_val_bound s HF) as Hb. replace (dec_val s <? 0) with false by lia.
  unfold pad_left. revert Hne. induction HF as [|c s Hc HF IH]; [done|]. intros _.
  destruct (decide (c = "0"%char)) as [->|Hc0].
  - destruct s as [|d s]; [done|].
    change (dec_val ("0"%char :: d :: s)) with (dec_val (d :: s)) in *.
    pose proof (dec_val_bound (d :: s) HF) as Hb'.
    pose proof (fmt_nat_length (dec_val (d :: s)) (length (d :: s)) ltac:(simpl; lia) Hb').
    replace (length ("0"%char :: d :: s) - length (fmt_nat (dec_val (d :: s))))%nat
      with (S (length (d :: s) - length (fmt_nat (dec_val (d :: s)))))
      by (simpl in *; lia).
    cbn [replicate app]. f_equal. apply IH; [lia|done].
  - rewrite fmt_nat_dec_val; [by rewrite Nat.sub_diag|by constructor|done|].
    right. eauto.
Qed.

Lemma dec_val_cons c s :
  dec_val (c :: s) = digit_val c * 10 ^ Z.of_nat (length s) + dec_val s.
Proof.
  induction s as [|d s IH] using rev_ind.
  - unfold dec_val. simpl. lia.
  - change (c :: s ++ [d]) with ((c :: s) ++ [d]). rewrite !dec_val_snoc, IH, length_app.
    simpl length. replace (Z.of_nat (length s + 1)) with (Z.succ (Z.of_nat (length s))) by lia.
    rewrite Z.pow_succ_r by lia. lia.
Qed.

Lemma fixed_digits_loop_value v s r :
  fixed_digits_loop v s = Some r →
  Forall (λ c, is_ascii_digit c = true) s ∧ r = v * 10 ^ Z.of_nat (length s) + dec_val s.
Proof.
  revert v. induction s as [|c s IH]; intros v; simpl.
  - intros [= ->]. split; [done|]. change (dec_val []) with 0. lia.
  - unfold to_digit. destruct (is_ascii_digit c) eqn:E; [|done].
    destruct (checked_mul v 10) as [v10|] eqn:E1; [|done].
    destruct (checked_add v10 (digit_val c)) as [v1|] eqn:E2; [|done].
    apply checked_i64_Some in E1 as [-> _]. apply checked_i64_Some in E2 as [-> _].
    intros [HF ->]%IH. split; [by constructor|].
    change (length (c :: s)) with (S (length s)).
    rewrite dec_val_cons, Nat2Z.inj_succ, Z.pow_succ_r by lia. lia.
Qed.

Lemma fixed_digits_loop_ok v s :
  Forall (λ c, is_ascii_digit c = true) s → 0 ≤ v →
  (v + 1) * 10 ^ Z.of_nat (length s) ≤ i64_MAX →
  ∃ r, fixed_digits_loop v s = Some r.
Proof.
  intros HF. revert v. induction HF as [|c s Hc HF IH]; intros v Hv Hb; simpl; [by eexists|].
  unfold to_digit. rewrite Hc. pose proof (digit_val_range c Hc).
  simpl length in Hb. rewrite Nat2Z.inj_succ, Z.pow_succ_r in Hb by lia.
  assert (0 < 10 ^ Z.of_nat (length s)) by (apply Z.pow_pos_nonneg; lia).
  unfold checked_mul, checked_add.
  rewrite !checked_i64_is by (unfold i64_MAX, is_i64 in *; unfold i64_MIN, i64_MAX; nia).
  apply IH; [lia|nia].
Qed.

(** A field of at most 18 digits parses to its value. *)
Lemma fixed_digits_ok s :
  Forall (λ c, is_ascii_digit c = true) s → (length s ≤ 18)%nat →
  fixed_digits_loop 0 s = Some (dec_val s).
Proof.
  intros HF Hl. destruct (fixed_digits_loop_ok 0 s HF) as [r Hr]; [done| |].
  - assert (10 ^ Z.of_nat (length s) ≤ 10 ^ 18) by (apply Z.pow_le_mono_r; lia).
    unfold i64_MAX. lia.
  - destruct (fixed_digits_loop_value 0 s r Hr) as [_ ->]. by rewrite Hr.
Qed.

(** ** Reading the text apart *)

(** A list of a known length, as its elements. *)
Ltac explode l n :=
  lazymatch n with
  | O => idtac
  | S ?n' => let c := fresh "c" in destruct l as [|c l]; [exfalso; simpl in *; lia|]; explode l n'
  end.

Lemma fraction_ok_tail t : fraction_ok t = true → t ≠ [].
Proof. by intros H ->. Qed.

(** What an accepted text is: its fields, its value, and the tail it may have. *)
Lemma parse_rfc3339_utc_inv s v :
  parse_rfc3339_utc s = Ok v →
  ∃ fy fm fd fh fi fs tail,
    s = fy ++ b#"-" ++ fm ++ b#"-" ++ fd ++ b#"T" ++ fh ++ b#":" ++ fi ++ b#":" ++ fs ++ tail ∧
    Forall (λ f, Forall (λ c, is_ascii_digit c = true) f) [fy; fm; fd; fh; fi; fs] ∧
    length fy = 4%nat ∧ Forall (λ f, length f = 2%nat) [fm; fd; fh; fi; fs] ∧
    fraction_ok tail = true ∧
    valid_date (dec_val fy) (dec_val fm) (dec_val fd) ∧
    dec_val fh ≤ 23 ∧ dec_val fi ≤ 59 ∧ dec_val fs ≤ 59 ∧
    v = days_from_civil (dec_val fy) (dec_val fm) (dec_val fd) * 86400
        + dec_val fh * 3600 + dec_val fi * 60 + dec_val fs.
Proof.
  unfold parse_rfc3339_utc. destruct (length s <? 20)%nat eqn:El; [done|].
  apply Nat.ltb_ge in El. explode s 19%nat.
  unfold byte_at, parse_fixed_digits. cbn [nth length drop take Nat.ltb Nat.leb].
  change (take 0 s) with (@nil ascii). change (drop 0 s) with s.
  destruct (negb _ || _ || _ || _ || _) eqn:Esep; [done|]. str_prop. subst.
  destruct (fixed_digits_loop 0 [c; c0; c1; c2]) as [year|] eqn:E1; [|done].
  destruct (fixed_digits_loop 0 [c4; c5]) as [month|] eqn:E2; [|done].
  destruct (fixed_digits_loop 0 [c7; c8]) as [day|] eqn:E3; [|done].
  destruct (fixed_digits_loop 0 [c10; c11]) as [hour|] eqn:E4; [|done].
  destruct (fixed_digits_loop 0 [c13; c14]) as [minute|] eqn:E5; [|done].
  destruct (fixed_digits_loop 0 [c16; c17]) as [second|] eqn:E6; [|done].
  apply fixed_digits_loop_value in E1 as [F1 ->], E2 as [F2 ->], E3 as [F3 ->],
    E4 as [F4 ->], E5 as [F5 ->], E6 as [F6 ->].
  rewrite !Z.mul_0_l, !Z.add_0_l.
  intros H. inv_ok. bool_prop.
  exists [c; c0; c1; c2], [c4; c5], [c7; c8], [c10; c11], [c13; c14], [c16; c17], s.
  split_and!; try done; repeat (constructor; [done|]); constructor.
Qed.

(** And every such text is accepted. *)
Lemma parse_rfc3339_utc_fields fy fm fd fh fi fs tail :
  Forall (λ f, Forall (λ c, is_ascii_digit c = true) f) [fy; fm; fd; fh; fi; fs] →
  length fy = 4%nat → Forall (λ f, length f = 2%nat) [fm; fd; fh; fi; fs] →
  fraction_ok tail = true →
  valid_date (dec_val fy) (dec_val fm) (dec_val fd) →
  dec_val fh ≤ 23 → dec_val fi ≤ 59 → dec_val fs ≤ 59 →
  parse_rfc3339_utc
    (fy ++ b#"-" ++ fm ++ b#"-" ++ fd ++ b#"T" ++ fh ++ b#":" ++ fi ++ b#":" ++ fs ++ tail)
  = Ok (days_from_civil (dec_val fy) (dec_val fm) (dec_val fd) * 86400
        + dec_val fh * 3600 + dec_val fi * 60 + dec_val fs).
Proof.
  intros HF Hy H2 Ht [Hm Hd] Hh Hi Hs. inv_Forall.
  explode fy 4%nat. explode fm 2%nat. explode fd 2%nat. explode fh 2%nat.
  explode fi 2%nat. explode fs 2%nat.
  destruct fy, fm, fd, fh, fi, fs; try done. pose proof (fraction_ok_tail tail Ht).
  unfold parse_rfc3339_utc. cbn [app lit String.list_ascii_of_string length].
  replace (S _ <? 20)%nat with false
    by (symmetry; apply Nat.ltb_ge; destruct tail; [done|simpl; lia]).
  unfold byte_at, parse_fixed_digits. cbn [nth drop take length Nat.ltb Nat.leb].
  change (take 0 tail) with (@nil ascii). change (drop 0 tail) with tail.
  rewrite !fixed_digits_ok by (done || simpl; lia). rewrite !ascii_eqb_refl, Ht. cbn [negb orb].
  rewrite (proj2 (Z.leb_le 1 _)), (proj2 (Z.leb_le _ 12)), (proj2 (Z.ltb_ge _ 1)),
    (proj2 (Z.ltb_ge (max_day_of _ _) _)), (proj2 (Z.ltb_ge 23 _)), !(proj2 (Z.ltb_ge 59 _)) by lia.
  done.
Qed.

Lemma fraction_ok_Z : fraction_ok b#"Z" = true.
Proof. reflexivity. Qed.

Lemma days_bounds y m d :
  0 ≤ y ≤ 9999 → valid_date y m d → -719528 ≤ days_from_civil y m d ≤ 2932896.
Proof.
  intros Hy [Hm Hd]. rewrite max_day_cases in Hd by done. rewrite days_from_civil_eq by done.
  unfold month_start, year_start. cbv zeta.
  pose proof (month_cases m Hm). destruct_or!; subst m; revert Hd; eval_cmp;
    try (destruct (is_leap_year y)); intros; zdiv.
Qed.

(** ** Properties *)

(** The day number follows the Gregorian calendar. 1970-01-01 is day 0; the day after
    a valid date is a valid date and has the next number; distinct valid dates have
    distinct numbers; and [civil_from_days] and [days_from_civil] are inverse. *)
Lemma days_from_civil_calendar y m d :
  valid_date y m d →
  days_from_civil 1970 1 1 = 0 ∧
  (let '(y1, m1, d1) := next_date y m d in
   valid_date y1 m1 d1 ∧ days_from_civil y1 m1 d1 = days_from_civil y m d + 1) ∧
  (∀ y' m' d', valid_date y' m' d' →
     days_from_civil y m d = days_from_civil y' m' d' → (y, m, d) = (y', m', d')) ∧
  civil_from_days (days_from_civil y m d) = (y, m, d).
Proof.
  intros Hv. split_and!; [done| | |by apply civil_from_days_from_civil].
  - pose proof Hv as [Hm Hd]. unfold next_date.
    destruct (d <? max_day_of y m) eqn:E1; bool_prop.
    { split; [split; [done|lia]|]. rewrite !days_from_civil_eq by done. cbv zeta. lia. }
    replace d with (max_day_of y m) by lia.
    destruct (m <? 12) eqn:E2; bool_prop.
    + split; [|apply days_from_civil_next_month; lia].
      split; [lia|]. pose proof (max_day_range y (m + 1)). lia.
    + replace m with 12 by lia. split; [by split|].
      rewrite !days_from_civil_eq by lia. rewrite max_day_cases by lia. eval_cmp.
      replace (y + 1 - 1) with y by lia. unfold month_start. zdiv.
  - intros y' m' d' Hv' Heq. rewrite <-(civil_from_days_from_civil y m d Hv), Heq.
    by apply civil_from_days_from_civil.
Qed.

(** A value the parser admits is a second of the years 0000 to 9999, and printing it
    gives the text back up to its fraction of a second: the first nineteen bytes and [Z]. *)
Lemma parse_rfc3339_utc_sound s v :
  parse_rfc3339_utc s = Ok v →
  -62167219200 ≤ v ≤ 253402300799 ∧
  unix_to_rfc3339_utc v = take 19 s ++ b#"Z".
Proof.
  intros H. apply parse_rfc3339_utc_inv in H
    as (fy & fm & fd & fh & fi & fs & t & -> & HF & Hy & H2 & Ht & Hv & Hh & Hi & Hs & ->).
  inv_Forall.
  pose proof (dec_val_bound fy ltac:(done)) as By. rewrite Hy in By.
  pose proof (dec_val_bound fh ltac:(done)) as Bh. pose proof (dec_val_bound fi ltac:(done)) as Bi.
  pose proof (dec_val_bound fs ltac:(done)) as Bs.
  pose proof (days_bounds (dec_val fy) (dec_val fm) (dec_val fd) ltac:(lia) Hv) as Bd.
  split; [lia|]. unfold unix_to_rfc3339_utc.
  set (days := days_from_civil _ _ _) in *.
  assert ((days * 86400 + dec_val fh * 3600 + dec_val fi * 60 + dec_val fs) / 86400 = days)
    as -> by zdiv.
  unfold days at 1. rewrite civil_from_days_from_civil by done. cbv beta iota.
  set (secs := (days * 86400 + _ + _ + _) mod 86400).
  assert (secs = dec_val fh * 3600 + dec_val fi * 60 + dec_val fs) as -> by (unfold secs; zdiv).

  replace (Z.quot (dec_val fh * 3600 + dec_val fi * 60 + dec_val fs) 3600) with (dec_val fh) by zdiv.
  replace (Z.quot (Z.rem (dec_val fh * 3600 + dec_val fi * 60 + dec_val fs) 3600) 60)
    with (dec_val fi) by zdiv.
  replace (Z.rem (dec_val fh * 3600 + dec_val fi * 60 + dec_val fs) 60) with (dec_val fs) by zdiv.
  assert (∀ f, Forall (λ c, is_ascii_digit c = true) f → length f = 2%nat →
               fmt_pad 2 (dec_val f) = f) as H2w.
  { intros f HF Hl. rewrite <-Hl. apply fmt_pad_dec_val; [done|by destruct f]. }
  assert (fmt_pad 4 (dec_val fy) = fy) as ->.
  { rewrite <-Hy. apply fmt_pad_dec_val; [done|by destruct fy]. }
  rewrite !H2w by done. clear H2w.
  explode fy 4%nat. explode fm 2%nat. explode fd 2%nat. explode fh 2%nat.
  explode fi 2%nat. explode fs 2%nat. by destruct fy, fm, fd, fh, fi, fs.
Qed.

(** The round trip. Every second of the admitted era prints to a text the parser reads
    back to it, so the parser's range is exactly that era. *)
Lemma unix_rfc3339_roundtrip u :
  -62167219200 ≤ u ≤ 253402300799 →
  parse_rfc3339_utc (unix_to_rfc3339_utc u) = Ok u.
Proof.
  intros Hu. unfold unix_to_rfc3339_utc.
  destruct (civil_from_days (u / 86400)) as [[y m] d] eqn:E.
  apply days_from_civil_from_days in E as [Hv Hd].
  assert (0 ≤ y ≤ 9999) as Hy.
  { pose proof Hv as [Hm Hdd]. rewrite max_day_cases in Hdd by done.
    assert (-719528 ≤ days_from_civil y m d ≤ 2932896) as Hb by (rewrite Hd; zdiv).
    rewrite days_from_civil_eq in Hb by done. revert Hb Hdd. unfold month_start, year_start.
    clear -Hm. cbv zeta. pose proof (month_cases m Hm).
    destruct_or!; subst m; eval_cmp; try (destruct (is_leap_year y)); intros; zdiv. }
  pose proof Hv as [Hm Hdd]. pose proof (max_day_range y m Hm).
  pose proof (Z.mod_pos_bound u 86400 ltac:(lia)) as Hs.
  set (secs := u mod 86400) in *.
  destruct (fmt_pad_spec y 4) as (L1 & D1 & F1); [lia|simpl; lia|].
  destruct (fmt_pad_spec m 2) as (L2 & D2 & F2); [lia|simpl; lia|].
  destruct (fmt_pad_spec d 2) as (L3 & D3 & F3); [lia|simpl; lia|].
  destruct (fmt_pad_spec (Z.quot secs 3600) 2) as (L4 & D4 & F4); [lia|simpl; zdiv|].
  destruct (fmt_pad_spec (Z.quot (Z.rem secs 3600) 60) 2) as (L5 & D5 & F5); [lia|simpl; zdiv|].
  destruct (fmt_pad_spec (Z.rem secs 60) 2) as (L6 & D6 & F6); [lia|simpl; zdiv|].
  rewrite parse_rfc3339_utc_fields.
  - rewrite D1, D2, D3, D4, D5, D6, Hd. f_equal.
    unfold secs. clear. Z.to_euclidean_division_equations. lia.
  - by repeat constructor.
  - done.
  - by repeat constructor.
  - apply fraction_ok_Z.
  - by rewrite D1, D2, D3.
  - rewrite D4. zdiv.
  - rewrite D5. zdiv.
  - rewrite D6. zdiv.
Qed.
