(* ===== verification/CoreReplay.v ===== *)
(** * [mcp-re-core/src/replay.rs]: replay detection

    [ReplayCache] is the trait the verifier consults after the signature; the class of the
    same name carries its operations over a state type, and [ReplayCacheSpec] what the
    trait's documentation promises of them. [InMemoryReplayCache] is the reference
    implementation, with the poison flag of its mutex part of the state. *)

From S2P Require Import Prelude.
From S2P Require Import RustStr.
From S2P Require Import CoreError.

Inductive ReplayDurabilityClass : Type := SingleProcessReference | Durable.
Inductive ReplayDecision : Type := Fresh | Replay.
Inductive ReplayCacheError : Type := Unavailable (details : bytes).

#[global] Instance ReplayDurabilityClass_eq_dec : EqDecision ReplayDurabilityClass.
Proof. solve_decision. Defined.

Definition replay_to_mcp_re_error (e : ReplayCacheError) : McpReError :=
  match e with Unavailable _ => ReplayCacheUnavailable end.

(** The replay key handed to an authoritative tier. *)
Record ReplayKey := {
  rk_signer : bytes;
  rk_principal : bytes;
  rk_audience : bytes;
  rk_nonce : bytes;
  rk_expires_at_unix : Z;
}.

(** ** The trait *)

(** [(signer, audience, nonce)]. *)
Abbreviation triple := (bytes * bytes * bytes)%type.

Class ReplayCache (C : Type) := {
  check_and_insert :
    C → bytes → bytes → bytes → Z → C * Result ReplayDecision ReplayCacheError;
  durability_class : C → ReplayDurabilityClass;
}.

Definition is_single_process_reference `{ReplayCache C} (c : C) : bool :=
  bool_decide (durability_class c = SingleProcessReference).

(** What was retained with a retain-until not before [now] is retained still. *)
Definition keeps_until (m m' : gmap triple Z) (now : Z) : Prop :=
  ∀ t u, m !! t = Some u → now ≤ u → m' !! t = Some u.

(** What the trait promises. A cache retains triples, each until [expires_at + skew] of the call
    that admitted it, and may forget one once that instant has passed. [served_at c now] says that
    a call on [c] can be served at [now]: at any instant for a cache with no clock of its own, at
    the reading of its clock for one that prunes by itself. [Fresh] is the answer only for a triple
    that is not retained, and records it; [Replay] only for one that is, and records nothing. What
    an operational failure has recorded is not known. *)
Class ReplayCacheSpec (C : Type) `{ReplayCache C} := {
  retained : C → gmap triple Z;
  retention_skew : C → Z;
  served_at : C → Z → Prop;
  check_and_insert_spec c s a n exp now :
    served_at c now →
    let '(c', d) := check_and_insert c s a n exp in
    retention_skew c' = retention_skew c ∧ keeps_until (retained c) (retained c') now ∧
    (∀ t u, retained c' !! t = Some u →
       retained c !! t = Some u ∨ (t = (s, a, n) ∧ d ≠ Ok Replay ∧ u = saturating_add exp (retention_skew c))) ∧
    match d with
    | Ok Fresh => (∀ u, retained c !! (s, a, n) = Some u → u < now) ∧
                  retained c' !! (s, a, n) = Some (saturating_add exp (retention_skew c))
    | Ok Replay => is_Some (retained c !! (s, a, n))
    | Err _ => True
    end;
}.

Lemma keeps_refl m now : keeps_until m m now.
Proof. by intros t u Hm _. Qed.

(** ** [InMemoryReplayCache] *)

Record InMemoryReplayCache := {
  max_clock_skew_secs : Z;
  max_entries : Z;
  seen : gmap triple Z;
  poisoned : bool;
}.

Definition MAX_ENTRIES : Z := 1000000.

Definition InMemoryReplayCache_new (skew : Z) : InMemoryReplayCache :=
  {| max_clock_skew_secs := skew; max_entries := MAX_ENTRIES; seen := ∅; poisoned := false |}.

Definition with_max_entries (c : InMemoryReplayCache) (n : Z) : InMemoryReplayCache :=
  {| max_clock_skew_secs := max_clock_skew_secs c; max_entries := Z.min (max_entries c) n;
     seen := seen c; poisoned := poisoned c |}.

Definition len (c : InMemoryReplayCache) : Z :=
  if poisoned c then 0 else Z.of_nat (size (seen c)).

Definition is_empty (c : InMemoryReplayCache) : bool := len c =? 0.

Definition set_seen (c : InMemoryReplayCache) (m : gmap triple Z) : InMemoryReplayCache :=
  {| max_clock_skew_secs := max_clock_skew_secs c; max_entries := max_entries c;
     seen := m; poisoned := poisoned c |}.

Definition prune (c : InMemoryReplayCache) (now_unix : Z) : InMemoryReplayCache :=
  if poisoned c then c
  else set_seen c (filter (λ kv : triple * Z, now_unix ≤ kv.2) (seen c)).

Definition ceiling_details (n : Z) : bytes :=
  b#"in-memory replay cache is at its " ++ fmt_int n ++
  b#" entry ceiling; call prune(now) to evict entries past their retain-until".

(** The text of a [PoisonError] is the standard library's. *)
Definition poisoned_details : bytes :=
  b#"in-memory replay cache mutex poisoned: poisoned lock: another task failed inside".

(** The lock spans the lookup and the insert, so one call is one step. *)
Definition in_memory_check_and_insert (c : InMemoryReplayCache)
    (signer audience nonce : bytes) (expires_at_unix : Z)
  : InMemoryReplayCache * Result ReplayDecision ReplayCacheError :=
  let key := (signer, audience, nonce) in
  if poisoned c then (c, Err (Unavailable poisoned_details))
  else match seen c !! key with
       | Some _ => (c, Ok Replay)
       | None =>
           if max_entries c <=? Z.of_nat (size (seen c))
           then (c, Err (Unavailable (ceiling_details (max_entries c))))
           else (set_seen c (<[key := saturating_add expires_at_unix (max_clock_skew_secs c)]>
                               (seen c)),
                 Ok Fresh)
       end.

#[global] Instance InMemoryReplayCache_ReplayCache : ReplayCache InMemoryReplayCache := {
  check_and_insert := in_memory_check_and_insert;
  durability_class := λ _, SingleProcessReference;
}.

(** [impl Clone]: a poisoned cache clones to one that admits nothing. *)
Definition clone_cache (c : InMemoryReplayCache) : InMemoryReplayCache :=
  if poisoned c
  then {| max_clock_skew_secs := max_clock_skew_secs c; max_entries := 0;
          seen := ∅; poisoned := false |}
  else c.

(** ** The implementation meets the trait's contract *)

#[global, program] Instance InMemoryReplayCache_spec : ReplayCacheSpec InMemoryReplayCache := {
  retained := seen;
  retention_skew := max_clock_skew_secs;
  served_at _ _ := True;
}.
Next Obligation.
  intros c s a n exp now _. simpl. unfold in_memory_check_and_insert.
  destruct (poisoned c); [split_and!; [done|apply keeps_refl|auto|done]|].
  destruct (seen c !! (s, a, n)) as [r|] eqn:E.
  { split_and!; [done|apply keeps_refl|auto|by eexists]. }
  destruct (max_entries c <=? _); [split_and!; [done|apply keeps_refl|auto|done]|]. simpl. split_and!; [done|..].
  - intros t u Ht _. by rewrite lookup_insert_ne by congruence.
  - intros t u. rewrite lookup_insert_Some. naive_solver.
  - done.
  - by rewrite lookup_insert_eq.
Qed.

(** Pruning by the owner, at an instant of its clock. *)
Lemma prune_keeps c now : keeps_until (seen c) (seen (prune c now)) now.
Proof.
  intros t u Ht Hu. unfold prune. destruct (poisoned c); [done|]. simpl. by apply map_lookup_filter_Some.
Qed.

(** ** Runs

    What can happen to a shared cache, in the order the lock serialises it. [Poison] is a
    panic of some holder of the lock. *)

Inductive CacheEvent : Type :=
| Check (signer audience nonce : bytes) (expires_at_unix : Z)
| Prune (now_unix : Z)
| Poison.

Definition cache_step (c : InMemoryReplayCache) (ev : CacheEvent) : InMemoryReplayCache :=
  match ev with
  | Check s a n exp => fst (check_and_insert c s a n exp)
  | Prune now => prune c now
  | Poison => {| max_clock_skew_secs := max_clock_skew_secs c; max_entries := max_entries c;
                 seen := seen c; poisoned := true |}
  end.

Definition run (c : InMemoryReplayCache) (evs : list CacheEvent) : InMemoryReplayCache :=
  fold_left cache_step evs c.

(** Every prune in [evs] is at an instant no later than [t]. *)
Definition pruned_by (t : Z) (evs : list CacheEvent) : Prop :=
  Forall (λ ev, match ev with Prune now => now ≤ t | _ => True end) evs.

(** ** Lemmas *)

Lemma run_app c es1 es2 : run c (es1 ++ es2) = run (run c es1) es2.
Proof. apply fold_left_app. Qed.

Lemma step_skew c ev : max_clock_skew_secs (cache_step c ev) = max_clock_skew_secs c.
Proof.
  destruct ev; simpl; [|by unfold prune; destruct (poisoned c)|done].
  unfold in_memory_check_and_insert. repeat (case_match; simpl; try done).
Qed.

(** A retained entry survives every event but a prune past its retain-until. *)
Lemma step_retains c ev key t :
  match ev with Prune now => now ≤ t | _ => True end →
  seen c !! key = Some t → seen (cache_step c ev) !! key = Some t.
Proof.
  intros Hev Hk. destruct ev as [s a n exp|now|]; simpl; [| |done].
  - unfold in_memory_check_and_insert. destruct (poisoned c); [done|].
    destruct (seen c !! (s, a, n)) eqn:E; [done|]. destruct (_ <=? _); [done|]. simpl.
    by rewrite lookup_insert_ne by congruence.
  - unfold prune. destruct (poisoned c); [done|]. simpl.
    apply map_lookup_filter_Some. done.
Qed.

Lemma run_retains c evs key t :
  pruned_by t evs → seen c !! key = Some t → seen (run c evs) !! key = Some t.
Proof.
  intros HF. revert c. induction HF as [|ev evs Hev HF IH]; intros c Hk; [done|].
  simpl. apply IH. by apply step_retains.
Qed.

Lemma check_fresh_retains c s a n exp c' :
  check_and_insert c s a n exp = (c', Ok Fresh) →
  seen c' !! (s, a, n) = Some (saturating_add exp (max_clock_skew_secs c)).
Proof.
  simpl. unfold in_memory_check_and_insert. repeat case_match; intros [= <-].
  simpl. by rewrite lookup_insert_eq.
Qed.

Lemma seen_not_fresh c s a n t exp :
  seen c !! (s, a, n) = Some t → snd (check_and_insert c s a n exp) ≠ Ok Fresh.
Proof.
  simpl. unfold in_memory_check_and_insert. intros H. destruct (poisoned c); [done|]. by rewrite H.
Qed.

(** ** Properties *)

(** At most one admission per retention window. Once a triple was admitted, no later
    call admits it again, whatever other calls, prunes and panics happen in between, as
    long as no prune is past the entry's retain-until [expires_at + skew]. *)
Lemma replay_admitted_at_most_once c s a n exp c' evs exp' :
  check_and_insert c s a n exp = (c', Ok Fresh) →
  pruned_by (saturating_add exp (max_clock_skew_secs c)) evs →
  snd (check_and_insert (run c' evs) s a n exp') ≠ Ok Fresh.
Proof.
  intros Hf Hp. eapply seen_not_fresh, run_retains; [done|]. by eapply check_fresh_retains.
Qed.

Definition witness_cache : InMemoryReplayCache := InMemoryReplayCache_new 30.

(** The ceiling and the poison flag fail closed. From an empty cache no run retains
    more than the configured number of entries; at the ceiling an unseen triple is refused
    and not recorded, and a seen one is still a replay; a poisoned cache, and the clone of
    one, admit nothing. *)
Lemma replay_cache_fails_closed skew n evs s a nonce exp :
  0 ≤ n →
  let c := run (with_max_entries (InMemoryReplayCache_new skew) n) evs in
  Z.of_nat (size (seen c)) ≤ n ∧
  (Z.of_nat (size (seen c)) = Z.min MAX_ENTRIES n → poisoned c = false →
     match seen c !! (s, a, nonce) with
     | Some _ => check_and_insert c s a nonce exp = (c, Ok Replay)
     | None => ∃ e, check_and_insert c s a nonce exp = (c, Err e)
     end) ∧
  (poisoned c = true →
     (∃ e, check_and_insert c s a nonce exp = (c, Err e)) ∧
     (∃ e, check_and_insert (clone_cache c) s a nonce exp = (clone_cache c, Err e))).
Proof.
  intros Hn c.
  assert (max_entries c = Z.min MAX_ENTRIES n ∧
          Z.of_nat (size (seen c)) ≤ Z.min MAX_ENTRIES n) as [Hmax Hsize].
  { subst c. set (c0 := with_max_entries _ _).
    assert (max_entries c0 = Z.min MAX_ENTRIES n ∧
            Z.of_nat (size (seen c0)) ≤ Z.min MAX_ENTRIES n) as H0.
    { split; [done|]. simpl. rewrite map_size_empty. unfold MAX_ENTRIES. lia. }
    clearbody c0. revert c0 H0. induction evs as [|ev evs IH]; intros c0 [H1 H2]; [done|].
    simpl. apply IH. destruct ev as [s' a' n' e'|now|]; simpl; [| |done].
    - unfold in_memory_check_and_insert. repeat (case_match; simpl; try done).
      split; [done|]. bool_prop. rewrite map_size_insert_None by done. lia.
    - unfold prune. destruct (poisoned c0); [done|]. simpl. split; [done|].
      pose proof (map_size_filter (λ kv : triple * Z, now ≤ kv.2) (seen c0)). lia. }
  clearbody c. split_and!.
  - lia.
  - intros Hfull Hp. simpl. unfold in_memory_check_and_insert. rewrite Hp.
    destruct (seen c !! _); [done|]. replace (_ <=? _) with true by lia. by eexists.
  - intros Hp. simpl. unfold in_memory_check_and_insert, clone_cache. rewrite Hp. simpl.
    rewrite lookup_empty, map_size_empty. split; by eexists.
Qed.
