(* ===== verification/CoreResolver.v ===== *)
(** * [mcp-re-core]: encodings, hash identifiers, keys, wire errors and the trust resolver

    [encoding.rs], [hash.rs], [crypto.rs] and [wire.rs] are thin layers over the crates of
    [Externals]; [resolver.rs] keeps the bindings [(signer, key_id)] of a process in one
    map keyed by a composed string. *)

From S2P Require Import Prelude.
From S2P Require Import RustStr.
From S2P Require Import Externals.
From S2P Require Import Concrete.
From S2P Require Import CoreError.

(** [<[u8; N]>::try_from(v)]. *)
Definition try_into_array (n : nat) (b : bytes) : option bytes :=
  if bool_decide (length b = n) then Some b else None.

Lemma try_into_array_Some n b a : try_into_array n b = Some a ↔ a = b ∧ length b = n.
Proof. unfold try_into_array. case_bool_decide; naive_solver. Qed.

(** ** [encoding.rs] *)
Section encoding.
Context `{Base64}.

Definition b64url_encode (b : bytes) : bytes := url_encode b.
Definition b64url_decode (s : bytes) : Result bytes McpReError :=
  ok_or (url_decode s) SerializationFailed.
End encoding.

(** ** [hash.rs] *)
Section hash.
Context `{Base64, Sha2}.

Definition SHA256_PREFIX : bytes := b#"sha256:".
Definition SHA256_LEN : nat := 32.

Definition sha256_hash_id (b : bytes) : bytes := SHA256_PREFIX ++ b64url_encode (sha256 b).

Definition parse_hash_id (s : bytes) : Result bytes McpReError :=
  let? body := ok_or (strip_prefix SHA256_PREFIX s) SerializationFailed in
  let? b := b64url_decode body in
  ok_or (try_into_array SHA256_LEN b) SerializationFailed.
End hash.

(** ** [crypto.rs] *)
Section crypto.
Context `{Base64, Ed25519}.

Record VerificationKey := { vk_inner : DalekVerifyingKey }.
Record SigningKey := { sk_inner : DalekSigningKey }.

Definition SIGNATURE_LEN : nat := 64.

Definition VerificationKey_from_bytes (b : bytes) : Result VerificationKey McpReError :=
  let? inner := ok_or (vk_from_bytes b) ActorBindingFailed in
  Ok {| vk_inner := inner |}.

Definition VerificationKey_from_b64url (s : bytes) : Result VerificationKey McpReError :=
  let? decoded := map_err (λ _, ActorBindingFailed) (b64url_decode s) in
  let? array := ok_or (try_into_array 32 decoded) ActorBindingFailed in
  VerificationKey_from_bytes array.

Definition VerificationKey_to_bytes (k : VerificationKey) : bytes := vk_to_bytes (vk_inner k).
Definition VerificationKey_to_b64url (k : VerificationKey) : bytes :=
  b64url_encode (vk_to_bytes (vk_inner k)).

Definition SigningKey_from_seed_bytes (seed : bytes) : SigningKey :=
  {| sk_inner := sk_from_bytes seed |}.
Definition SigningKey_public_key (k : SigningKey) : VerificationKey :=
  {| vk_inner := verifying_key (sk_inner k) |}.
Definition SigningKey_sign (k : SigningKey) (preimage : bytes) : bytes :=
  b64url_encode (dalek_sign (sk_inner k) preimage).

Definition verify_ed25519_with (preimage signature_b64url : bytes) (key : VerificationKey)
    (on_error : McpReError) : Result unit McpReError :=
  match b64url_decode signature_b64url with
  | Err _ => Err on_error
  | Ok b =>
      match try_into_array SIGNATURE_LEN b with
      | None => Err on_error
      | Some array =>
          if verify_strict (vk_inner key) preimage array then Ok tt else Err on_error
      end
  end.

Definition verify_ed25519 (preimage signature_b64url : bytes) (key : VerificationKey)
  : Result unit McpReError :=
  verify_ed25519_with preimage signature_b64url key InvalidSignature.

Lemma verify_ed25519_with_Ok m s k e u :
  verify_ed25519_with m s k e = Ok u ↔
    ∃ sig, url_decode s = Some sig ∧ length sig = SIGNATURE_LEN ∧
           verify_strict (vk_inner k) m sig = true.
Proof.
  destruct u. unfold verify_ed25519_with, b64url_decode.
  destruct (url_decode s) as [b|]; simpl; [|split; [done|by intros (? & ? & _)]].
  destruct (try_into_array SIGNATURE_LEN b) as [a|] eqn:Ea.
  - apply try_into_array_Some in Ea as [-> Hl]. split.
    + intros Hv. inv_ok. eauto.
    + intros (sig & [= <-] & _ & ->). done.
  - split; [done|]. intros (sig & [= <-] & Hl & _).
    by rewrite (proj2 (try_into_array_Some _ b b)) in Ea.
Qed.

Context `{!Base64Laws, !Ed25519Laws}.

Lemma verify_sign k m e :
  verify_ed25519_with m (SigningKey_sign k m) (SigningKey_public_key k) e = Ok tt.
Proof.
  apply verify_ed25519_with_Ok. eexists. split_and!.
  - apply url_decode_encode.
  - apply dalek_sign_length.
  - apply verify_strict_sign.
Qed.

Lemma VerificationKey_from_to_b64url k :
  VerificationKey_from_b64url (VerificationKey_to_b64url k) = Ok k.
Proof.
  unfold VerificationKey_from_b64url, VerificationKey_to_b64url, b64url_decode, b64url_encode.
  rewrite url_decode_encode. simpl. unfold try_into_array.
  rewrite bool_decide_true by apply vk_to_bytes_length. simpl.
  unfold VerificationKey_from_bytes. rewrite vk_from_to_bytes. simpl. by destruct k.
Qed.
End crypto.

(** ** [wire.rs] *)
Section wire.
Context `{SerdeJson} (Null : Value).

Definition MCP_RE_JSON_RPC_ERROR_CODE : Z := -31000.

Definition json_rpc_fallback : bytes :=
  replace_char "'" [DQUOTE] b#"{'jsonrpc':'2.0','id':null,'error':{'code':-32603}}".

Definition json_rpc_error_object (error : McpReError) (id : Value) : bytes :=
  let code := wire_code error in
  let data := Object (<[b#"mcp_re_error" := JString code]> (
                      <[b#"policy" := JString b#"core"]> (
                      <[b#"retryable" := JBool false]> (
                      <[b#"details" := JString code]> ∅)))) in
  let err := Object (<[b#"code" := JNumber MCP_RE_JSON_RPC_ERROR_CODE]> (
                     <[b#"message" := JString code]> (
                     <[b#"data" := data]> ∅))) in
  let object := Object (<[b#"jsonrpc" := JString b#"2.0"]> (
                        <[b#"id" := id]> (
                        <[b#"error" := err]> ∅))) in
  match to_vec object with Some b => b | None => json_rpc_fallback end.
End wire.

(** ** [resolver.rs] *)

Inductive TrustResolverError : Type :=
| NotFound
| Revoked
| MalformedKey
| TrustUnavailable (details : bytes).

Definition trust_to_mcp_re_error (e : TrustResolverError) : McpReError :=
  match e with
  | NotFound | Revoked | MalformedKey => ActorBindingFailed
  | TrustUnavailable _ => TrustResolverUnavailable
  end.

(** The trait, over a state type [R] and the key type [K]. *)
Class TrustResolver (K R : Type) := {
  resolve : R → bytes → bytes → Result K TrustResolverError;
}.

Inductive Binding (K : Type) : Type :=
| BindingActive (k : K)
| BindingRevoked.
Arguments BindingActive {K} k.
Arguments BindingRevoked {K}.

Section resolver.
Context {K : Type}.

Record InMemoryTrustResolver := { bindings : gmap bytes (Binding K) }.

Definition InMemoryTrustResolver_new : InMemoryTrustResolver := {| bindings := ∅ |}.

Definition compose_key (signer key_id : bytes) : bytes :=
  fmt_nat (Z.of_nat (length signer)) ++ b#":" ++ signer ++ b#"|" ++
  fmt_nat (Z.of_nat (length key_id)) ++ b#":" ++ key_id.

Definition resolver_insert (r : InMemoryTrustResolver) (signer key_id : bytes) (key : K) :=
  {| bindings := <[compose_key signer key_id := BindingActive key]> (bindings r) |}.

Definition revoke (r : InMemoryTrustResolver) (signer key_id : bytes) :=
  {| bindings := <[compose_key signer key_id := BindingRevoked]> (bindings r) |}.

Definition in_memory_resolve (r : InMemoryTrustResolver) (signer key_id : bytes)
  : Result K TrustResolverError :=
  match bindings r !! compose_key signer key_id with
  | Some (BindingActive key) => Ok key
  | Some BindingRevoked => Err Revoked
  | None => Err NotFound
  end.

#[global] Instance InMemoryTrustResolver_TrustResolver :
  TrustResolver K InMemoryTrustResolver := { resolve := in_memory_resolve }.

(** *** The abstract resolver: a map on pairs *)

Inductive resolver_op : Type :=
| OpInsert (signer key_id : bytes) (key : K)
| OpRevoke (signer key_id : bytes).

Definition apply_op (r : InMemoryTrustResolver) (op : resolver_op) : InMemoryTrustResolver :=
  match op with
  | OpInsert s k key => resolver_insert r s k key
  | OpRevoke s k => revoke r s k
  end.

Definition abs_op (m : gmap (bytes * bytes) (Binding K)) (op : resolver_op) :=
  match op with
  | OpInsert s k key => <[(s, k) := BindingActive key]> m
  | OpRevoke s k => <[(s, k) := BindingRevoked]> m
  end.

Definition abs_resolve (m : gmap (bytes * bytes) (Binding K)) (signer key_id : bytes)
  : Result K TrustResolverError :=
  match m !! (signer, key_id) with
  | Some (BindingActive key) => Ok key
  | Some BindingRevoked => Err Revoked
  | None => Err NotFound
  end.
End resolver.
Arguments InMemoryTrustResolver K : clear implicits.
Arguments resolver_op K : clear implicits.

(** ** Lemmas *)

(** A length prefix, a colon and that many bytes: the text says where it ends. *)
Lemma len_prefix_inj (a b r r' : bytes) :
  fmt_nat (Z.of_nat (length a)) ++ b#":" ++ a ++ r =
  fmt_nat (Z.of_nat (length b)) ++ b#":" ++ b ++ r' → a = b ∧ r = r'.
Proof.
  intros Heq. assert (∀ n : nat, ":"%char ∉ fmt_nat (Z.of_nat n)) as Hc.
  { intros n. eapply not_elem_of_Forall; [apply fmt_nat_digits; lia|done]. }
  apply app_sep_inj in Heq as [Hl Hr]; [|by auto..].
  apply fmt_nat_inj in Hl; [|lia..]. apply app_inj_length in Hr as [-> ->]; [done|lia].
Qed.

Lemma compose_key_inj s k s' k' : compose_key s k = compose_key s' k' → s = s' ∧ k = k'.
Proof.
  unfold compose_key. intros Heq. apply len_prefix_inj in Heq as [-> Heq].
  apply app_inv_head in Heq. split; [done|].
  eapply (len_prefix_inj _ _ [] []). by rewrite !app_nil_r.
Qed.

Lemma parse_hash_id_Ok `{Base64Laws, Sha2} s d :
  parse_hash_id s = Ok d ↔ s = SHA256_PREFIX ++ b64url_encode d ∧ length d = SHA256_LEN.
Proof.
  unfold parse_hash_id, b64url_decode, b64url_encode. split.
  - intros Hp. inv_ok. apply strip_prefix_Some in E. apply url_encode_decode in E0 as <-.
    apply try_into_array_Some in Hp as [-> Hl]. done.
  - intros [-> Hl]. rewrite strip_prefix_app. simpl. rewrite url_decode_encode. simpl.
    by rewrite (proj2 (try_into_array_Some _ _ d)).
Qed.

(** ** Properties *)

(** The composed string key does not confuse bindings. After any sequence of inserts
    and revocations, the resolver answers as a map on the pairs [(signer, key_id)] does:
    the last operation on exactly that pair decides, and a revoked pair never resolves to
    a key. *)
Lemma resolver_refines_pair_map {K} (ops : list (resolver_op K)) signer key_id :
  resolve (fold_left apply_op ops InMemoryTrustResolver_new) signer key_id =
  abs_resolve (fold_left abs_op ops ∅) signer key_id.
Proof.
  set (R := λ (r : InMemoryTrustResolver K) (m : gmap (bytes * bytes) (Binding K)),
    ∀ s k, bindings r !! compose_key s k = m !! (s, k)).
  assert (R InMemoryTrustResolver_new ∅) as H0 by (intros s k; by rewrite !lookup_empty).
  assert (∀ r m op, R r m → R (apply_op r op) (abs_op m op)) as Hstep.
  { intros r m op HR s k. specialize (HR s k). destruct op as [s' k' key|s' k']; simpl;
      (destruct (decide ((s', k') = (s, k))) as [Heq|Hne];
       [simplify_eq; by rewrite !lookup_insert_eq|]);
      rewrite !lookup_insert_ne; try done;
      intros [-> ->]%compose_key_inj; done. }
  assert (∀ r m, R r m → R (fold_left apply_op ops r) (fold_left abs_op ops m)) as Hrun.
  { induction ops as [|op ops IH]; intros r m HR; [done|]. simpl. by apply IH, Hstep. }
  simpl. unfold in_memory_resolve, abs_resolve. by rewrite (Hrun _ _ H0 signer key_id).
Qed.

(** Hash identifiers are one text per digest. [parse_hash_id] accepts exactly the
    texts [sha256:<base64url of 32 bytes>] and returns those bytes; every identifier
    [sha256_hash_id] produces is accepted. *)
Lemma hash_id_canonical `{Base64Laws, Sha2Laws} s d b :
  (parse_hash_id s = Ok d ↔ s = SHA256_PREFIX ++ b64url_encode d ∧ length d = SHA256_LEN) ∧
  parse_hash_id (sha256_hash_id b) = Ok (sha256 b).
Proof.
  split; [apply parse_hash_id_Ok|]. apply parse_hash_id_Ok. split; [done|apply sha256_length].
Qed.
