(* ===== verification/HttpMessage.v ===== *)
(** * [mcp-re-http-profile]: identifiers, errors, messages, digests, evidence handles

    [ids.rs], [error.rs] with [error/core_projection.rs], [message.rs], [digest.rs],
    [evidence.rs] and [keyid.rs]: what the signer and the verifier share. *)

From S2P Require Import Prelude.
From S2P Require Import RustStr.
From S2P Require Import Externals.
From S2P Require Import Concrete.
From S2P Require Import CoreError.
From S2P Require Import CoreResolver.

(** ** [ids.rs] *)

Definition PROFILE_TAG : bytes := b#"mcp-re-http-v1".
Definition REQUEST_LABEL : bytes := b#"mcp-re".
Definition RESPONSE_LABEL : bytes := b#"mcp-re-response".
Definition ALG_ED25519 : bytes := b#"ed25519".
Definition EVIDENCE_DIGEST_ALG : bytes := b#"sha256".
Definition EVIDENCE_LABEL_REQUEST : bytes := b#"mcp-re-http-v1/request-evidence".
Definition EVIDENCE_LABEL_RESPONSE : bytes := b#"mcp-re-http-v1/response-evidence".
Definition EVIDENCE_LABEL_REQUEST_STATE : bytes := b#"mcp-re-http-v1/request-state".
Definition REQUEST_EVIDENCE_BLOCK_KEY : bytes := b#"se.syncom/mcp-re.http.request".
Definition VERIFIED_CONTEXT_BLOCK_KEY : bytes := b#"se.syncom/mcp-re.verified-context".
Definition RESPONSE_EVIDENCE_BLOCK_KEY : bytes := b#"se.syncom/mcp-re.http.response".
Definition REQUIRED_REQUEST_COMPONENTS : list bytes :=
  [b#"@method"; b#"@target-uri"; b#"content-digest"; b#"content-type"].
Definition MCP_METHOD_HEADER : bytes := b#"mcp-method".
Definition MCP_NAME_HEADER : bytes := b#"mcp-name".
Definition MCP_PROTOCOL_VERSION_HEADER : bytes := b#"mcp-protocol-version".
Definition REQUIRED_RESPONSE_COMPONENTS : list bytes :=
  [b#"@status"; b#"content-digest"; b#"content-type"].
Definition REQUIRED_RESPONSE_REQ_COMPONENTS : list bytes :=
  [b#"@method"; b#"@target-uri"; b#"content-digest"; b#"content-type"].
Definition MAX_ADMISSION_ASSERTION_LEN : Z := 8192.

(** ** [error.rs] *)

Module HPE.
Inductive HttpProfileError : Type :=
| MissingEvidence (what : bytes)
| MalformedEvidence (what : bytes)
| DuplicateHeader (name : bytes)
| ContentEncodingPresent
| NonJsonMediaType
| ContentDigestMismatch
| MissingCoveredComponent (name : bytes)
| UnknownProfileTag
| UnsupportedAlgorithm
| InvalidSignature
| StaleWindow
| UnresolvedKeyId
| TrustResolverUnavailable
| ActorSlotMismatch
| ArtifactBindingFailed
| AudienceMismatch
| ResponseBindingMismatch
| ResponseSignatureInvalid
| ContinuationBindingFailed
| UnrecognizedResultType
| UpstreamResponseInvalid (what : bytes)
| McpMethodDivergence
| McpTransportHeaderMissing (name : bytes)
| McpProtocolVersionUnsupported
| McpTransportDivergence (what : bytes)
| AdmissionAssertionInvalid
| AdmissionIssuerUntrusted
| AdmissionAssertionExpired
| AdmissionBindingMismatch
| AdmissionNotCurrent
| AdmissionStateUnavailable
| ReceiptInvalid
| ReceiptInclusionInvalid
| ReceiptIssuerUntrusted
| ReceiptPositionUnbound
| ReceiptPositionMismatch
| DelegationCredentialMissing
| DelegationCredentialInvalid
| DelegationCredentialExpired
| DelegationIssuerUntrusted
| DelegationProfileMismatch
| DelegationAudienceMismatch
| DelegationKeyUseInvalid
| DelegationTrustEpochStale
| DelegationKeyMismatch
| DelegationRevoked.
End HPE.
Abbreviation HttpProfileError := HPE.HttpProfileError.

#[global] Instance HttpProfileError_eq_dec : EqDecision HttpProfileError.
Proof. solve_decision. Defined.

(** [impl From<&HttpProfileError> for McpReError]. *)
Definition core_error (e : HttpProfileError) : McpReError :=
  match e with
  | HPE.MissingEvidence _ | HPE.DuplicateHeader _ | HPE.McpTransportHeaderMissing _
  | HPE.MissingCoveredComponent _ => MissingEnvelope
  | HPE.MalformedEvidence _ | HPE.McpMethodDivergence | HPE.McpTransportDivergence _ =>
      MalformedEnvelope
  | HPE.ContentEncodingPresent | HPE.NonJsonMediaType => SerializationFailed
  | HPE.ContentDigestMismatch => DigestMismatch
  | HPE.InvalidSignature | HPE.ReceiptInvalid => InvalidSignature
  | HPE.UnknownProfileTag | HPE.UnsupportedAlgorithm | HPE.McpProtocolVersionUnsupported =>
      UnsupportedVersion
  | HPE.StaleWindow | HPE.AdmissionAssertionExpired => ExpiredRequest
  | HPE.TrustResolverUnavailable => TrustResolverUnavailable
  | HPE.UnresolvedKeyId | HPE.ActorSlotMismatch | HPE.AdmissionAssertionInvalid
  | HPE.AdmissionIssuerUntrusted | HPE.AdmissionNotCurrent | HPE.AdmissionStateUnavailable
  | HPE.ReceiptIssuerUntrusted => ActorBindingFailed
  | HPE.ArtifactBindingFailed => ArtifactBindingFailed
  | HPE.AudienceMismatch => InvalidAudience
  | HPE.ResponseBindingMismatch | HPE.AdmissionBindingMismatch | HPE.ReceiptInclusionInvalid
  | HPE.ReceiptPositionUnbound | HPE.ReceiptPositionMismatch => RequestBindingMismatch
  | HPE.ResponseSignatureInvalid => ResponseSigInvalid
  | HPE.ContinuationBindingFailed => ContinuationBindingFailed
  | HPE.UnrecognizedResultType => ContinuationTypeUnsupported
  | HPE.UpstreamResponseInvalid _ => UpstreamResponseInvalid
  | HPE.DelegationCredentialMissing => DelegationCredentialMissing
  | HPE.DelegationCredentialInvalid => DelegationCredentialInvalid
  | HPE.DelegationCredentialExpired => DelegationCredentialExpired
  | HPE.DelegationIssuerUntrusted => DelegationIssuerUntrusted
  | HPE.DelegationProfileMismatch => DelegationProfileMismatch
  | HPE.DelegationAudienceMismatch => DelegationAudienceMismatch
  | HPE.DelegationKeyUseInvalid => DelegationKeyUseInvalid
  | HPE.DelegationTrustEpochStale => DelegationTrustEpochStale
  | HPE.DelegationKeyMismatch => DelegationKeyMismatch
  | HPE.DelegationRevoked => DelegationRevoked
  end.

Definition http_wire_code (e : HttpProfileError) : bytes := wire_code (core_error e).

(** ** [message.rs] *)

Abbreviation Headers := (list (bytes * bytes)).

Record HttpRequest := {
  req_method : bytes;
  req_target_uri : bytes;
  req_headers : Headers;
  req_body : bytes;
}.

Record HttpResponse := {
  resp_status : Z;
  resp_headers : Headers;
  resp_body : bytes;
}.

(** The loop of [single_header], with its accumulator. *)
Fixpoint single_header_go (headers : Headers) (name : bytes) (found : option bytes)
  : Result (option bytes) HttpProfileError :=
  match headers with
  | [] => Ok found
  | (k, v) :: rest =>
      if eq_ignore_ascii_case k name
      then match found with
           | Some _ => Err (HPE.DuplicateHeader name)
           | None => single_header_go rest name (Some v)
           end
      else single_header_go rest name found
  end.
Definition single_header (headers : Headers) (name : bytes)
  : Result (option bytes) HttpProfileError := single_header_go headers name None.

Definition required_header (headers : Headers) (name : bytes) : Result bytes HttpProfileError :=
  let? o := single_header headers name in ok_or o (HPE.MissingEvidence name).

Definition JSON_MEDIA_TYPE : bytes := b#"application/json".

Definition require_json_media_type (headers : Headers) (what : bytes)
  : Result unit HttpProfileError :=
  let? value := map_err (λ _, HPE.MissingEvidence what) (required_header headers b#"content-type") in
  let media_type := trim (default [] (head (split_char ";" value))) in
  if eq_ignore_ascii_case media_type JSON_MEDIA_TYPE then Ok tt else Err HPE.NonJsonMediaType.

Definition reject_content_encoding (headers : Headers) : Result unit HttpProfileError :=
  for_each (λ '(k, v),
    if eq_ignore_ascii_case k b#"content-encoding"
       && negb (eq_ignore_ascii_case (trim v) b#"identity")
    then Err HPE.ContentEncodingPresent else Ok tt) headers.

(** ** [digest.rs], [evidence.rs] and [keyid.rs] *)
Section digest.
Context `{Base64, Sha2}.

Definition content_digest_sha256 (body : bytes) : bytes :=
  b#"sha-256=:" ++ std_encode (sha256 body) ++ b#":".

Definition is_sha256_member (m : bytes) : bool := starts_with b#"sha-256=" (trim m).

(** The second loop: the first [sha-256=] member decides. *)
Fixpoint check_members (expected : bytes) (members : list bytes) : Result unit HttpProfileError :=
  match members with
  | [] => Err (HPE.MalformedEvidence b#"content-digest sha-256 member")
  | m :: rest =>
      if is_sha256_member m
      then if bytes_eqb (trim m) expected then Ok tt else Err HPE.ContentDigestMismatch
      else check_members expected rest
  end.

Definition verify_content_digest_sha256 (header_value body : bytes) : Result unit HttpProfileError :=
  let expected := content_digest_sha256 body in
  if bool_decide (1 < length (List.filter is_sha256_member (split_char "," header_value)))%nat
  then Err (HPE.MalformedEvidence b#"content-digest carries more than one sha-256 member")
  else check_members expected (split_char "," header_value).

Definition NUL : ascii := "000"%char.

Definition labeled_preimage (label b : bytes) : bytes := label ++ [NUL] ++ b.
Definition labeled_digest_value (label b : bytes) : bytes :=
  b64url_encode (sha256 (labeled_preimage label b)).

Record RequestEvidence := { digest_alg : bytes; digest_value : bytes }.

Definition from_signature_base (base : bytes) : RequestEvidence :=
  {| digest_alg := EVIDENCE_DIGEST_ALG;
     digest_value := labeled_digest_value EVIDENCE_LABEL_REQUEST base |}.
Definition from_response_signature_base (base : bytes) : RequestEvidence :=
  {| digest_alg := EVIDENCE_DIGEST_ALG;
     digest_value := labeled_digest_value EVIDENCE_LABEL_RESPONSE base |}.

Definition JWK_KTY_OKP : bytes := b#"OKP".
Definition JWK_CRV_ED25519 : bytes := b#"Ed25519".

Definition quoted (s : bytes) : bytes := [DQUOTE] ++ s ++ [DQUOTE].
Definition canonical_ed25519_jwk (public_key_b64url : bytes) : bytes :=
  b#"{" ++ quoted b#"crv" ++ b#":" ++ quoted JWK_CRV_ED25519 ++
  b#"," ++ quoted b#"kty" ++ b#":" ++ quoted JWK_KTY_OKP ++
  b#"," ++ quoted b#"x" ++ b#":" ++ quoted public_key_b64url ++ b#"}".
Definition jwk_thumbprint_ed25519 (public_key_b64url : bytes) : bytes :=
  b64url_encode (sha256 (canonical_ed25519_jwk public_key_b64url)).
End digest.

#[global] Instance RequestEvidence_eq_dec : EqDecision RequestEvidence.
Proof. solve_decision. Defined.

(** ** Headers *)

Definition header_named (name : bytes) (kv : bytes * bytes) : Prop :=
  eq_ignore_ascii_case kv.1 name = true.
#[global] Instance header_named_dec name kv : Decision (header_named name kv).
Proof. unfold header_named. apply _. Defined.

(** [single_header] looks at the headers of that name, in any case: none, one, or an error. *)
Lemma single_header_filter headers name :
  single_header headers name =
    match filter (header_named name) headers with
    | [] => Ok None
    | [kv] => Ok (Some kv.2)
    | _ => Err (HPE.DuplicateHeader name)
    end.
Proof.
  assert (∀ acc, single_header_go headers name acc =
    match filter (header_named name) headers, acc with
    | [], _ => Ok acc
    | [kv], None => Ok (Some kv.2)
    | _, _ => Err (HPE.DuplicateHeader name)
    end) as Hgo; [|apply Hgo].
  induction headers as [|[k v] hs IH]; intros acc; [done|]. simpl.
  destruct (decide (header_named name (k, v))) as [Hd|Hd].
  - rewrite filter_cons_True by done. unfold header_named in Hd. simpl in Hd. rewrite Hd.
    destruct acc; [by case_match|]. rewrite IH. by repeat case_match.
  - rewrite filter_cons_False by done. unfold header_named in Hd. simpl in Hd.
    apply not_true_is_false in Hd. rewrite Hd. apply IH.
Qed.

Lemma required_header_Ok headers name v :
  required_header headers name = Ok v ↔
    ∃ k, filter (header_named name) headers = [(k, v)].
Proof.
  unfold required_header. rewrite single_header_filter.
  destruct (filter (header_named name) headers) as [|[k w] [|? ?]]; simpl; naive_solver.
Qed.

Lemma eq_ignore_ascii_case_refl s : eq_ignore_ascii_case s s = true.
Proof. apply bytes_eqb_refl. Qed.

(** ** Digests *)

Lemma trim_ends (c d : ascii) s :
  is_vchar c = true → is_vchar d = true → trim (c :: s ++ [d]) = c :: s ++ [d].
Proof.
  intros Hc Hd. apply trim_id. split; [done|].
  change (c :: s ++ [d]) with ((c :: s) ++ [d]). by rewrite last_snoc.
Qed.

Lemma content_digest_form `{Base64Laws, Sha2} body :
  trim (content_digest_sha256 body) = content_digest_sha256 body ∧
  is_sha256_member (content_digest_sha256 body) = true ∧
  ","%char ∉ content_digest_sha256 body.
Proof.
  unfold content_digest_sha256. assert (trim (b#"sha-256=:" ++ std_encode (sha256 body) ++ b#":") =
    b#"sha-256=:" ++ std_encode (sha256 body) ++ b#":") as Ht.
  { apply (trim_ends "s" ":" (b#"ha-256=:" ++ std_encode (sha256 body))); done. }
  split_and!; [done| |].
  - unfold is_sha256_member. rewrite Ht. apply starts_with_true. by eexists.
  - rewrite !elem_of_app. intros [Hin|[Hin|Hin]].
    + vm_compute in Hin. set_solver.
    + revert Hin. by apply std_encode_no.
    + vm_compute in Hin. set_solver.
Qed.

Lemma check_members_Ok expected ms :
  check_members expected ms = Ok tt ↔
    ∃ pre m post, ms = pre ++ m :: post ∧ Forall (λ x, is_sha256_member x = false) pre ∧
      is_sha256_member m = true ∧ trim m = expected.
Proof.
  induction ms as [|m ms IH]; simpl.
  - split; [done|]. intros ([|] & ? & ? & ? & _); done.
  - destruct (is_sha256_member m) eqn:Em.
    + split.
      * intros Hc. inv_ok. str_prop. by exists [], m, ms.
      * intros (pre & x & post & Heq & HF & Hx & Ht). destruct pre as [|y pre]; simplify_eq/=.
        -- by rewrite bytes_eqb_refl.
        -- inv_Forall. congruence.
    + rewrite IH. split.
      * intros (pre & x & post & -> & HF & Hx & Ht). exists (m :: pre), x, post.
        split_and!; [done|by constructor|done..].
      * intros (pre & x & post & Heq & HF & Hx & Ht). destruct pre as [|y pre]; simplify_eq/=; [congruence|].
        inv_Forall. by exists pre, x, post.
Qed.

Lemma filter_none {A} (p : A → bool) l :
  Forall (λ x, p x = false) l → List.filter p l = [].
Proof. induction 1 as [|x l Hx _ IH]; [done|]. simpl. by rewrite Hx. Qed.

Lemma list_filter_nil {A} (p : A → bool) l :
  List.filter p l = [] → Forall (λ x, p x = false) l.
Proof.
  induction l as [|x l IH]; intros Hf; [done|]. simpl in Hf.
  destruct (p x) eqn:E; [done|]. constructor; auto.
Qed.

Lemma labeled_preimage_inj l b l' b' :
  NUL ∉ l → NUL ∉ l' → labeled_preimage l b = labeled_preimage l' b' → l = l' ∧ b = b'.
Proof. apply app_sep_inj. Qed.

(** Equal labeled digests come from equal labels and bytes, or are a collision. *)
Lemma labeled_digest_binds `{Base64Laws, Sha2} l b l' b' :
  NUL ∉ l → NUL ∉ l' → labeled_digest_value l b = labeled_digest_value l' b' →
  (l = l' ∧ b = b') ∨
  collides (labeled_preimage l b) (labeled_preimage l' b').
Proof.
  intros Hl Hl' Heq. apply url_encode_inj in Heq.
  destruct (decide (labeled_preimage l b = labeled_preimage l' b')) as [He|Hne]; [left|by right].
  by apply labeled_preimage_inj.
Qed.

Lemma evidence_labels_no_NUL : (NUL ∉ EVIDENCE_LABEL_REQUEST) ∧ (NUL ∉ EVIDENCE_LABEL_RESPONSE).
Proof. vm_compute. split; set_solver. Qed.

Lemma from_signature_base_binds `{Base64Laws, Sha2} b b' :
  from_signature_base b = from_signature_base b' →
  b = b' ∨ collides (labeled_preimage EVIDENCE_LABEL_REQUEST b) (labeled_preimage EVIDENCE_LABEL_REQUEST b').
Proof.
  intros Heq%(f_equal digest_value). simpl in Heq. destruct evidence_labels_no_NUL as [Hn _].
  apply labeled_digest_binds in Heq as [[_ ?]|?]; eauto.
Qed.

Lemma content_digest_binds `{Base64Laws, Sha2} b b' :
  content_digest_sha256 b = content_digest_sha256 b' → b = b' ∨ collides b b'.
Proof.
  unfold content_digest_sha256. intros Heq%app_inv_head%app_inv_tail%std_encode_inj.
  destruct (decide (b = b')); [by left|by right].
Qed.

Section content_digest.
Context `{Base64Laws, Sha2}.

(** The members decide by what they are without the white space around them. *)
Lemma check_members_trimmed e e' ms ms' :
  map trim ms = map trim ms' → check_members e ms = Ok tt → check_members e' ms' = Ok tt → e = e'.
Proof.
  revert ms'. induction ms as [|m ms IH]; intros [|m' ms'] Hms; try done.
  cbn [map] in Hms. injection Hms as Hm Hms. cbn [check_members].
  unfold is_sha256_member. rewrite Hm. destruct (starts_with _ (trim m')); [|by apply IH].
  intros He He'. inv_ok. str_prop. congruence.
Qed.

(** Headers that differ in surrounding white space only are accepted for one digest only. *)
Lemma verify_content_digest_same header header' b b' :
  trim header = trim header' → verify_content_digest_sha256 header b = Ok tt →
  verify_content_digest_sha256 header' b' = Ok tt → content_digest_sha256 b = content_digest_sha256 b'.
Proof.
  unfold verify_content_digest_sha256. intros Ht Hv Hv'. inv_ok.
  eapply check_members_trimmed; [|exact Hv|exact Hv'].
  rewrite (split_char_trim "," header), (split_char_trim "," header') by done. by rewrite Ht.
Qed.

Lemma verify_content_digest_self body :
  verify_content_digest_sha256 (content_digest_sha256 body) body = Ok tt.
Proof.
  destruct (content_digest_form body) as (Ht & Hm & Hc). unfold verify_content_digest_sha256.
  rewrite split_char_nosep by done. simpl. by rewrite Hm, Ht, bytes_eqb_refl.
Qed.

(** A header that is, up to surrounding white space, the digest of one body is accepted for
    no body with another digest. *)
Lemma verify_content_digest_trimmed header b b' :
  trim header = content_digest_sha256 b → verify_content_digest_sha256 header b' = Ok tt →
  content_digest_sha256 b = content_digest_sha256 b'.
Proof.
  intros Ht Hv. destruct (content_digest_form b) as (Hb & _).
  eapply verify_content_digest_same; [|apply verify_content_digest_self|exact Hv]. congruence.
Qed.
End content_digest.

(** ** Properties *)

(** The content digest check accepts exactly the right headers: a header is accepted
    for a body if and only if, split at commas, exactly one member starts with [sha-256=]
    and that member, trimmed, is the digest the signer computes for that body. In
    particular the signer's own header is accepted. *)
Lemma content_digest_exact `{Base64Laws, Sha2} header body :
  (verify_content_digest_sha256 header body = Ok tt ↔
     ∃ pre m post, split_char "," header = pre ++ m :: post ∧
       trim m = content_digest_sha256 body ∧
       Forall (λ x, is_sha256_member x = false) (pre ++ post)) ∧
  verify_content_digest_sha256 (content_digest_sha256 body) body = Ok tt.
Proof.
  assert (verify_content_digest_sha256 header body = Ok tt ↔
     ∃ pre m post, split_char "," header = pre ++ m :: post ∧
       trim m = content_digest_sha256 body ∧
       Forall (λ x, is_sha256_member x = false) (pre ++ post)) as Hiff.
  { unfold verify_content_digest_sha256. generalize (split_char "," header) as ms. intros ms. split.
    - intros Hv. inv_ok. bool_prop. apply check_members_Ok in Hv as (pre & m & post & -> & HF & Hm & Ht).
      exists pre, m, post. split_and!; [done..|]. apply Forall_app. split; [done|].
      apply list_filter_nil. rewrite List.filter_app, filter_none in E by done. simpl in E.
      rewrite Hm in E. simpl in E. destruct (List.filter _ post); [done|]. simpl in E. lia.
    - intros (pre & m & post & -> & Ht & [Hpre Hpost]%Forall_app).
      assert (is_sha256_member m = true) as Hm.
      { unfold is_sha256_member. rewrite Ht. apply starts_with_true. by eexists. }
      rewrite List.filter_app. simpl. rewrite Hm, (filter_none _ pre), (filter_none _ post) by done.
      simpl. apply check_members_Ok. by exists pre, m, post. }
  split; [exact Hiff|]. apply verify_content_digest_self.
Qed.

(** Evidence handles bind the signature base and the direction. Two equal handles were
    derived from the same base in the same direction (request or response), unless the two
    labeled preimages are a SHA-256 collision. *)
Lemma evidence_handle_binds `{Base64Laws, Sha2} (req req' : bool) base base' :
  let handle (r : bool) b := if r then from_signature_base b else from_response_signature_base b in
  let label (r : bool) := if r then EVIDENCE_LABEL_REQUEST else EVIDENCE_LABEL_RESPONSE in
  handle req base = handle req' base' →
  (req = req' ∧ base = base') ∨
  collides (labeled_preimage (label req) base) (labeled_preimage (label req') base').
Proof.
  intros handle label Heq. destruct evidence_labels_no_NUL as [Hq Hr].
  assert (EVIDENCE_LABEL_REQUEST ≠ EVIDENCE_LABEL_RESPONSE) by done.
  destruct req, req'; apply (f_equal digest_value) in Heq; simpl in Heq;
    apply labeled_digest_binds in Heq as [[? ?]|?]; try done; eauto 10.
Qed.
