(* ===== verification/SigBase.v ===== *)
(** * [mcp-re-http-profile/src/sigbase.rs]: covered components and the signature base

    The signature base is one line per covered component, identifier and value, and a last
    line with the signature parameters; the signer and the verifier both build it here. *)

From S2P Require Import Prelude.
From S2P Require Import RustStr.
From S2P Require Import Externals.
From S2P Require Import CoreError.
From S2P Require Import HttpMessage.

Record CoveredComponent := { cc_name : bytes; cc_req : bool }.

#[global] Instance CoveredComponent_eq_dec : EqDecision CoveredComponent.
Proof. solve_decision. Defined.

Definition component_new (name : bytes) : CoveredComponent :=
  {| cc_name := name; cc_req := false |}.
Definition component_req (name : bytes) : CoveredComponent :=
  {| cc_name := name; cc_req := true |}.

Definition identifier (c : CoveredComponent) : bytes :=
  if cc_req c then quoted (cc_name c) ++ b#";req" else quoted (cc_name c).

Record SignatureParams := {
  p_created : option Z;
  p_expires : option Z;
  p_nonce : option bytes;
  p_keyid : option bytes;
  p_alg : option bytes;
  p_tag : option bytes;
}.

Definition sf_char (c : ascii) : bool :=
  is_printable c && negb (ascii_eqb c DQUOTE) && negb (ascii_eqb c BACKSLASH).

Definition validate_sf_string (value what : bytes) : Result unit HttpProfileError :=
  if forallb sf_char value then Ok tt else Err (HPE.MalformedEvidence what).

Definition MAX_NONCE_CHARS : Z := 256.

Definition validate_nonce_length (nonce : bytes) : Result unit HttpProfileError :=
  if MAX_NONCE_CHARS <? Z.of_nat (length nonce)
  then Err (HPE.MalformedEvidence b#"nonce signature parameter exceeds the length bound")
  else Ok tt.

(** What [serialize_with] pushes for one parameter: nothing when it is absent. *)
Definition int_seg (key : bytes) (o : option Z) : bytes :=
  match o with Some z => b#";" ++ key ++ b#"=" ++ fmt_int z | None => [] end.
Definition str_seg (key : bytes) (o : option bytes) : bytes :=
  match o with Some s => b#";" ++ key ++ b#"=" ++ quoted s | None => [] end.
Definition validate_opt (o : option bytes) (what : bytes) : Result unit HttpProfileError :=
  match o with Some s => validate_sf_string s what | None => Ok tt end.

Definition component_list (components : list CoveredComponent) : bytes :=
  join b#" " (map identifier components).

Definition param_tail (p : SignatureParams) : bytes :=
  int_seg b#"created" (p_created p) ++ int_seg b#"expires" (p_expires p) ++
  str_seg b#"nonce" (p_nonce p) ++ str_seg b#"keyid" (p_keyid p) ++
  str_seg b#"alg" (p_alg p) ++ str_seg b#"tag" (p_tag p).

Definition serialize_with (p : SignatureParams) (components : list CoveredComponent)
  : Result bytes HttpProfileError :=
  validate_opt (p_nonce p) b#"nonce signature parameter" ;?
  match p_nonce p with Some n => validate_nonce_length n | None => Ok tt end ;?
  validate_opt (p_keyid p) b#"keyid signature parameter" ;?
  validate_opt (p_alg p) b#"alg signature parameter" ;?
  validate_opt (p_tag p) b#"tag signature parameter" ;?
  Ok (b#"(" ++ component_list components ++ b#")" ++ param_tail p).

Inductive SourceMessage : Type :=
| SourceRequest (r : HttpRequest)
| SourceResponse (response : HttpResponse) (request : HttpRequest)
| SourceResponseOnly (response : HttpResponse).

Definition is_delim3 (c : ascii) : bool := ascii_eqb c "/" || ascii_eqb c "?" || ascii_eqb c "#".
Definition is_delim2 (c : ascii) : bool := ascii_eqb c "?" || ascii_eqb c "#".

Definition authority_of (target_uri : bytes) : option bytes :=
  match split_once_str b#"://" target_uri with
  | None => None
  | Some (_, rest) =>
      let end_ := default (length rest) (find_byte is_delim3 rest) in
      let authority := take end_ rest in
      match authority with [] => None | _ => Some (to_ascii_lowercase authority) end
  end.

Definition path_of (target_uri : bytes) : option bytes :=
  match split_once_str b#"://" target_uri with
  | None => None
  | Some (_, rest) =>
      match find_byte is_delim3 rest with
      | None => Some b#"/"
      | Some i =>
          let after_authority := drop i rest in
          if starts_with b#"/" after_authority
          then Some (take (default (length after_authority) (find_byte is_delim2 after_authority))
                          after_authority)
          else Some b#"/"
      end
  end.

(** The loop over the headers: a second header of the name is a missing component. *)
Fixpoint covered_header_go (headers : Headers) (name : bytes) (found : option bytes)
  : Result (option bytes) HttpProfileError :=
  match headers with
  | [] => Ok found
  | (k, v) :: rest =>
      if eq_ignore_ascii_case k name
      then match found with
           | Some _ => Err (HPE.MissingCoveredComponent name)
           | None => covered_header_go rest name (Some (trim v))
           end
      else covered_header_go rest name found
  end.

Definition resolve_derived (c : CoveredComponent) (name : bytes)
    (request : option HttpRequest) (response : option HttpResponse)
  : Result bytes HttpProfileError :=
  let missing := HPE.MissingCoveredComponent (cc_name c) in
  match request with
  | Some r =>
      if bytes_eqb name b#"method" then Ok (req_method r)
      else if bytes_eqb name b#"target-uri" then Ok (req_target_uri r)
      else if bytes_eqb name b#"authority" then ok_or (authority_of (req_target_uri r)) missing
      else if bytes_eqb name b#"path" then ok_or (path_of (req_target_uri r)) missing
      else match response with
           | Some rsp =>
               if bytes_eqb name b#"status" then Ok (fmt_int (resp_status rsp)) else Err missing
           | None => Err missing
           end
  | None =>
      match response with
      | Some rsp =>
          if bytes_eqb name b#"status" then Ok (fmt_int (resp_status rsp)) else Err missing
      | None => Err missing
      end
  end.

Definition resolve_component_value (c : CoveredComponent) (source : SourceMessage)
  : Result bytes HttpProfileError :=
  let missing := HPE.MissingCoveredComponent (cc_name c) in
  let? (request, response) :=
    match source with
    | SourceRequest r => if cc_req c then Err missing else Ok (Some r, None)
    | SourceResponse response request =>
        if cc_req c then Ok (Some request, None) else Ok (None, Some response)
    | SourceResponseOnly response => if cc_req c then Err missing else Ok (None, Some response)
    end in
  match strip_prefix b#"@" (cc_name c) with
  | Some name => resolve_derived c name request response
  | None =>
      let? headers :=
        match request, response with
        | Some r, None => Ok (req_headers r)
        | None, Some rsp => Ok (resp_headers rsp)
        | _, _ => Err missing
        end in
      let? found := covered_header_go headers (cc_name c) None in
      ok_or found missing
  end.

Definition is_newline (c : ascii) : bool := ascii_eqb c CR || ascii_eqb c LF.

Definition component_value (c : CoveredComponent) (source : SourceMessage)
  : Result bytes HttpProfileError :=
  let? value := resolve_component_value c source in
  if existsb is_newline value
  then Err (HPE.MalformedEvidence b#"covered component value contains CR or LF")
  else Ok value.

Fixpoint component_lines (components : list CoveredComponent) (source : SourceMessage)
  : Result (list bytes) HttpProfileError :=
  match components with
  | [] => Ok []
  | c :: rest =>
      let? value := component_value c source in
      let? lines := component_lines rest source in
      Ok ((identifier c ++ b#": " ++ value) :: lines)
  end.

Definition signature_base (components : list CoveredComponent) (params : SignatureParams)
    (source : SourceMessage) : Result bytes HttpProfileError :=
  let? lines := component_lines components source in
  let? sp := serialize_with params components in
  Ok (join [LF] (lines ++ [quoted b#"@signature-params" ++ b#": " ++ sp])).

(** ** Facts about [serialize_with] *)

(** The parameters [serialize_with] accepts. *)
Definition sf_opt (o : option bytes) : Prop :=
  match o with Some s => Forall (λ c, sf_char c = true) s | None => True end.
Definition params_valid (p : SignatureParams) : Prop :=
  sf_opt (p_nonce p) ∧ sf_opt (p_keyid p) ∧ sf_opt (p_alg p) ∧ sf_opt (p_tag p) ∧
  match p_nonce p with Some n => Z.of_nat (length n) ≤ MAX_NONCE_CHARS | None => True end.

Lemma validate_sf_string_Ok s w u :
  validate_sf_string s w = Ok u ↔ Forall (λ c, sf_char c = true) s.
Proof.
  destruct u. unfold validate_sf_string. rewrite <-forallb_Forall.
  destruct (forallb sf_char s); naive_solver.
Qed.

Lemma validate_opt_Ok o w u : validate_opt o w = Ok u ↔ sf_opt o.
Proof. destruct u, o as [s|]; simpl; [apply validate_sf_string_Ok|naive_solver]. Qed.

Lemma validate_nonce_length_Ok n u :
  validate_nonce_length n = Ok u ↔ Z.of_nat (length n) ≤ MAX_NONCE_CHARS.
Proof.
  destruct u. unfold validate_nonce_length.
  destruct (MAX_NONCE_CHARS <? _) eqn:E; bool_prop; split; (done || lia).
Qed.

Lemma serialize_with_Ok p cs s :
  serialize_with p cs = Ok s ↔
    params_valid p ∧ s = b#"(" ++ component_list cs ++ b#")" ++ param_tail p.
Proof.
  unfold serialize_with, params_valid. split.
  - intros Hs. inv_ok. rewrite validate_opt_Ok in *. split_and!; try done.
    destruct (p_nonce p); [|done]. by eapply validate_nonce_length_Ok.
  - intros [(Hn & Hk & Ha & Ht & Hl) ->].
    rewrite !(proj2 (validate_opt_Ok _ _ tt)) by done.
    destruct (p_nonce p); [|done]. by rewrite (proj2 (validate_nonce_length_Ok _ tt)).
Qed.

(** ** Component values are what the message says *)

Lemma covered_header_filter headers name :
  covered_header_go headers name None =
    match filter (header_named name) headers with
    | [] => Ok None
    | [kv] => Ok (Some (trim kv.2))
    | _ => Err (HPE.MissingCoveredComponent name)
    end.
Proof.
  assert (∀ acc, covered_header_go headers name acc =
    match filter (header_named name) headers, acc with
    | [], _ => Ok acc
    | [kv], None => Ok (Some (trim kv.2))
    | _, _ => Err (HPE.MissingCoveredComponent name)
    end) as Hgo; [|apply Hgo].
  induction headers as [|[k v] hs IH]; intros acc; [done|]. simpl.
  destruct (decide (header_named name (k, v))) as [Hd|Hd].
  - rewrite filter_cons_True by done. unfold header_named in Hd. simpl in Hd. rewrite Hd.
    destruct acc; [by case_match|]. rewrite IH. by repeat case_match.
  - rewrite filter_cons_False by done. unfold header_named in Hd. simpl in Hd.
    apply not_true_is_false in Hd. rewrite Hd. apply IH.
Qed.

(** Lines and components correspond one to one. *)
Lemma component_lines_Forall2 cs src lines :
  component_lines cs src = Ok lines ↔
    Forall2 (λ c l, ∃ v, component_value c src = Ok v ∧ l = identifier c ++ b#": " ++ v) cs lines.
Proof.
  revert lines. induction cs as [|c cs IH]; intros lines; simpl.
  - split; [intros [= <-]; constructor|by inversion 1].
  - split.
    + intros Hl. inv_ok. constructor; [by eexists|]. by apply IH.
    + inversion 1 as [|? l ? ls (v & Hv & ->) HF]; subst. rewrite Hv.
      by rewrite (proj2 (IH ls)).
Qed.

Lemma component_value_no_newline c src v :
  component_value c src = Ok v → Forall (λ x, is_newline x = false) v.
Proof.
  unfold component_value. intros Hv. inv_ok. apply Forall_forall. intros x Hx.
  destruct (is_newline x) eqn:En; [|done]. exfalso.
  assert (existsb is_newline v = true) as Ht; [|congruence].
  apply existsb_elem. eauto.
Qed.
