(* ===== verification/SigInput.v ===== *)
(** * [mcp-re-http-profile/src/verify/floor]: parsing [Signature-Input] and [Signature]

    [sf_dictionary.rs], [covered_components.rs], [signature_parameters.rs] and
    [signature_input.rs]. The parser is the inverse of [serialize_with]: what the signer
    writes is read back unchanged, and a text that is read is the one the signer would
    write, so two wire spellings never stand for one signature base. *)

From S2P Require Import Prelude.
From S2P Require Import RustStr.
From S2P Require Import Externals.
From S2P Require Import CoreError.
From S2P Require Import HttpMessage.
From S2P Require Import SigBase.

(** ** [sf_dictionary.rs] *)

Definition cons_piece (c : ascii) (ps : list bytes) : list bytes :=
  match ps with p :: ps' => (c :: p) :: ps' | [] => [[c]] end.

(** The loop of both splitters: [sep] splits unless it is inside a quoted string. *)
Fixpoint split_quoted (sep : ascii) (in_quotes escaped : bool) (s : bytes) : list bytes :=
  match s with
  | [] => [[]]
  | c :: s' =>
      if escaped then cons_piece c (split_quoted sep in_quotes false s')
      else if ascii_eqb c BACKSLASH && in_quotes then cons_piece c (split_quoted sep in_quotes true s')
      else if ascii_eqb c DQUOTE then cons_piece c (split_quoted sep (negb in_quotes) false s')
      else if ascii_eqb c sep && negb in_quotes then [] :: split_quoted sep in_quotes false s'
      else cons_piece c (split_quoted sep in_quotes false s')
  end.

Definition split_dictionary (value : bytes) : list bytes :=
  map trim (split_quoted "," false false value).
Definition split_parameters (value : bytes) : list bytes :=
  map trim (split_quoted ";" false false value).

Fixpoint member_value_go (members : list bytes) (label : bytes) (found : option bytes)
  : Result (option bytes) HttpProfileError :=
  match members with
  | [] => Ok found
  | member :: rest =>
      match member with
      | [] => Err (HPE.MalformedEvidence b#"empty dictionary member")
      | _ =>
          match strip_prefix label member with
          | Some r =>
              match strip_prefix b#"=" r with
              | Some v =>
                  match found with
                  | Some _ => Err (HPE.MalformedEvidence b#"duplicate signature label")
                  | None =>
                      if negb (bytes_eqb (trim v) v)
                      then Err (HPE.MalformedEvidence b#"dictionary member spacing")
                      else member_value_go rest label (Some v)
                  end
              | None => member_value_go rest label found
              end
          | None => member_value_go rest label found
          end
      end
  end.

Definition member_value (header_value label : bytes) : Result bytes HttpProfileError :=
  let? found := member_value_go (split_dictionary header_value) label None in
  ok_or found (HPE.MissingEvidence b#"signature label").

(** ** [covered_components.rs] *)

Definition KNOWN_COMPONENTS : list bytes :=
  [b#"@method"; b#"@target-uri"; b#"@authority"; b#"@path"; b#"@status"; b#"content-digest";
   b#"content-type"; b#"content-length"; b#"authorization"; b#"dpop"; b#"mcp-method";
   b#"mcp-name"; b#"mcp-protocol-version"; b#"mcp-re-delegation"; b#"mcp-re-request-evidence"].

Definition unquote_pair (s : bytes) : option bytes :=
  match strip_prefix [DQUOTE] s with Some r => strip_suffix [DQUOTE] r | None => None end.

Fixpoint covered_go (items : list bytes) (components : list CoveredComponent)
  : Result (list CoveredComponent) HttpProfileError :=
  match items with
  | [] => Ok components
  | item :: rest =>
      let '(name_part, req) :=
        match strip_suffix b#";req" item with Some p => (p, true) | None => (item, false) end in
      let? name := ok_or (unquote_pair name_part) (HPE.MalformedEvidence b#"component identifier") in
      if negb (existsb (bytes_eqb name) KNOWN_COMPONENTS)
      then Err (HPE.MalformedEvidence b#"unknown covered component")
      else
        let component := if req : bool then component_req name else component_new name in
        if existsb (λ c, bytes_eqb (cc_name c) (cc_name component)
                         && Bool.eqb (cc_req c) (cc_req component)) components
        then Err (HPE.MalformedEvidence b#"duplicate covered component")
        else covered_go rest (components ++ [component])
  end.

Definition parse_covered_components (l : bytes) : Result (list CoveredComponent) HttpProfileError :=
  if starts_with b#" " l || ends_with b#" " l || contains_str b#"  " l
  then Err (HPE.MalformedEvidence b#"inner list spacing")
  else if existsb (ascii_eqb TAB) l then Err (HPE.MalformedEvidence b#"inner list spacing")
  else covered_go (List.filter (λ i, negb (bytes_eqb i [])) (split_char " " l)) [].

(** ** [signature_parameters.rs] *)

Definition spacing_error : HttpProfileError :=
  HPE.MalformedEvidence b#"signature parameter spacing".

(** The last loop of [check_tail_spelling]: no blank outside quotes. *)
Fixpoint no_unquoted_blank (in_quotes escaped : bool) (s : bytes) : bool :=
  match s with
  | [] => true
  | b :: s' =>
      if escaped then no_unquoted_blank in_quotes false s'
      else if ascii_eqb b BACKSLASH && in_quotes then no_unquoted_blank in_quotes true s'
      else if ascii_eqb b DQUOTE then no_unquoted_blank (negb in_quotes) false s'
      else if (ascii_eqb b SPACE || ascii_eqb b TAB) && negb in_quotes then false
      else no_unquoted_blank in_quotes false s'
  end.

Definition check_tail_spelling (tail : bytes) : Result unit HttpProfileError :=
  match tail with
  | [] => Ok tt
  | _ =>
      if negb (starts_with b#";" tail) then Err spacing_error
      else if existsb (λ seg, bytes_eqb seg []) (drop 1 (split_parameters tail))
      then Err spacing_error
      else if no_unquoted_blank false false tail then Ok tt else Err spacing_error
  end.

Definition parameter_rank (key : bytes) : Result Z HttpProfileError :=
  if bytes_eqb key b#"created" then Ok 0
  else if bytes_eqb key b#"expires" then Ok 1
  else if bytes_eqb key b#"nonce" then Ok 2
  else if bytes_eqb key b#"keyid" then Ok 3
  else if bytes_eqb key b#"alg" then Ok 4
  else if bytes_eqb key b#"tag" then Ok 5
  else Err (HPE.MalformedEvidence b#"unknown signature parameter").

Definition unquote (v : bytes) : Result bytes HttpProfileError :=
  let? inner := ok_or (unquote_pair v) (HPE.MalformedEvidence b#"quoted signature parameter") in
  validate_sf_string inner b#"quoted signature parameter" ;?
  Ok inner.

Definition parse_i64 (s : bytes) : Result Z HttpProfileError :=
  let malformed := HPE.MalformedEvidence b#"integer signature parameter" in
  let digits := default s (strip_prefix b#"-" s) in
  if bytes_eqb digits [] || negb (forallb is_ascii_digit digits) then Err malformed
  else if bool_decide (1 < length digits)%nat && starts_with b#"0" digits then Err malformed
  else if starts_with b#"-" s && bytes_eqb digits b#"0" then Err malformed
  else ok_or (str_parse_i64 s) malformed.

Definition assign (p : SignatureParams) (key v : bytes) : Result SignatureParams HttpProfileError :=
  if bytes_eqb key b#"created" then
    let? z := parse_i64 v in
    Ok {| p_created := Some z; p_expires := p_expires p; p_nonce := p_nonce p;
          p_keyid := p_keyid p; p_alg := p_alg p; p_tag := p_tag p |}
  else if bytes_eqb key b#"expires" then
    let? z := parse_i64 v in
    Ok {| p_created := p_created p; p_expires := Some z; p_nonce := p_nonce p;
          p_keyid := p_keyid p; p_alg := p_alg p; p_tag := p_tag p |}
  else if bytes_eqb key b#"nonce" then
    let? nonce := unquote v in
    validate_nonce_length nonce ;?
    Ok {| p_created := p_created p; p_expires := p_expires p; p_nonce := Some nonce;
          p_keyid := p_keyid p; p_alg := p_alg p; p_tag := p_tag p |}
  else if bytes_eqb key b#"keyid" then
    let? s := unquote v in
    Ok {| p_created := p_created p; p_expires := p_expires p; p_nonce := p_nonce p;
          p_keyid := Some s; p_alg := p_alg p; p_tag := p_tag p |}
  else if bytes_eqb key b#"alg" then
    let? s := unquote v in
    Ok {| p_created := p_created p; p_expires := p_expires p; p_nonce := p_nonce p;
          p_keyid := p_keyid p; p_alg := Some s; p_tag := p_tag p |}
  else
    let? s := unquote v in
    Ok {| p_created := p_created p; p_expires := p_expires p; p_nonce := p_nonce p;
          p_keyid := p_keyid p; p_alg := p_alg p; p_tag := Some s |}.

Fixpoint params_go (segs : list bytes) (params : SignatureParams) (last_param_rank : Z)
  : Result SignatureParams HttpProfileError :=
  match segs with
  | [] => Ok params
  | [] :: rest => params_go rest params last_param_rank
  | p :: rest =>
      let? (k, v) := ok_or (split_once_char "=" p) (HPE.MalformedEvidence b#"signature parameter") in
      let? rank := parameter_rank k in
      if rank <=? last_param_rank then Err (HPE.MalformedEvidence b#"signature parameter order")
      else let? params' := assign params k v in params_go rest params' rank
  end.

Definition params_default : SignatureParams :=
  {| p_created := None; p_expires := None; p_nonce := None;
     p_keyid := None; p_alg := None; p_tag := None |}.

Definition parse_signature_parameters (tail : bytes) : Result SignatureParams HttpProfileError :=
  check_tail_spelling tail ;?
  params_go (split_parameters tail) params_default (-1).

(** ** [signature_input.rs] *)

Record ParsedSignatureInput := {
  psi_components : list CoveredComponent;
  psi_params : SignatureParams;
}.

Definition parse_signature_input (value0 : bytes) : Result ParsedSignatureInput HttpProfileError :=
  let malformed := HPE.MalformedEvidence b#"inner list" in
  let value := trim value0 in
  if negb (starts_with b#"(" value) then Err malformed
  else
    let? close := ok_or (find_byte (ascii_eqb ")") value) malformed in
    let l := drop 1 (take close value) in
    let tail := drop (close + 1) value in
    let? components := parse_covered_components l in
    let? params := parse_signature_parameters tail in
    Ok {| psi_components := components; psi_params := params |}.

Definition parse_signature_input_for (headers : Headers) (label what : bytes)
  : Result ParsedSignatureInput HttpProfileError :=
  let? input_header := map_err (λ _, HPE.MissingEvidence what)
                         (required_header headers b#"signature-input") in
  let? m := member_value input_header label in
  parse_signature_input m.

(** ** Integers and quoted strings *)

Lemma digits_no_minus ds :
  Forall (λ c, is_ascii_digit c = true) ds → strip_prefix b#"-" ds = None.
Proof.
  intros HF. destruct (strip_prefix b#"-" ds) as [r|] eqn:E; [|done].
  apply strip_prefix_Some in E. subst. by inversion HF.
Qed.

Lemma no_leading_zero n :
  0 ≤ n → bool_decide (1 < length (fmt_nat n))%nat && starts_with b#"0" (fmt_nat n) = false.
Proof.
  intros Hn. apply andb_false_iff. destruct (decide (n = 0)) as [->|Hne]; [by left|right].
  destruct (fmt_nat_head n ltac:(lia)) as (c & s & -> & Hc). apply not_true_is_false.
  intros Ht. apply starts_with_true in Ht as [r Hr]. by injection Hr.
Qed.

Lemma parse_i64_fmt_int z : is_i64 z → parse_i64 (fmt_int z) = Ok z.
Proof.
  intros Hz. unfold parse_i64. rewrite (str_parse_fmt_int z Hz).
  assert (∀ n, 0 ≤ n → bytes_eqb (fmt_nat n) [] || negb (forallb is_ascii_digit (fmt_nat n)) = false)
    as Hd.
  { intros n Hn. rewrite (proj2 (bytes_eqb_false _ _)) by by apply fmt_nat_nonempty.
    by rewrite (proj2 (forallb_Forall _ _)) by by apply fmt_nat_digits. }
  unfold fmt_int. destruct (z <? 0) eqn:E; bool_prop.
  - change (strip_prefix b#"-" ("-"%char :: fmt_nat (- z))) with (Some (fmt_nat (- z))).
    cbn [from_option id]. rewrite Hd, no_leading_zero by lia. simpl.
    rewrite (proj2 (bytes_eqb_false _ _)); [done|]. intros H0.
    destruct (fmt_nat_head (- z) ltac:(lia)) as (c & s & Hs & Hc). rewrite Hs in H0. congruence.
  - rewrite digits_no_minus by by apply fmt_nat_digits. cbn [from_option id].
    rewrite Hd, no_leading_zero by lia. unfold starts_with.
    by rewrite digits_no_minus by by apply fmt_nat_digits.
Qed.

(** The accepted integers are exactly the ones [Display] prints. *)
Lemma parse_i64_Ok s z : parse_i64 s = Ok z → s = fmt_int z ∧ is_i64 z.
Proof.
  unfold parse_i64. intros H. destruct (strip_prefix b#"-" s) as [r|] eqn:Es; cbn [from_option id] in H.
  - apply strip_prefix_Some in Es. subst s. simpl app in *. inv_ok. bool_prop. str_prop.
    assert (starts_with b#"-" ("-"%char :: r) = true) as Hm by (apply starts_with_true; by exists r).
    rewrite Hm in E1. simpl in E1. str_prop.
    assert (r = b#"0" ∨ ∃ c s, r = c :: s ∧ c ≠ "0"%char) as Hr.
    { destruct r as [|c r]; [done|]. right. exists c, r. split; [done|]. intros ->.
      destruct r as [|d r]; [done|]. done. }
    apply forallb_Forall in H1. pose proof (fmt_nat_dec_val r H1 H0 Hr) as Hf.
    unfold str_parse_i64, parse_signed in H. cbn iota in H. rewrite (proj2 (forallb_Forall _ _) H1) in H.
    destruct r as [|c r']; [done|]. set (r := c :: r') in *.
    apply checked_i64_Some in H as [-> Hz].
    assert (0 < dec_val r) as Hpos.
    { destruct Hr as [->|(d & t & Hd & Hne)]; [done|]. rewrite Hd. apply dec_val_pos; [by rewrite <-Hd|done]. }
    split; [|done]. unfold fmt_int. replace (- dec_val r <? 0) with true by lia.
    by rewrite Z.opp_involutive, Hf.
  - inv_ok. bool_prop. str_prop. apply forallb_Forall in H1.
    assert (s = b#"0" ∨ ∃ c r, s = c :: r ∧ c ≠ "0"%char) as Hr.
    { destruct s as [|c s]; [done|]. destruct (decide (c = "0"%char)) as [->|Hc]; [left|right; eauto].
      destruct s as [|d s]; [done|]. done. }
    pose proof (fmt_nat_dec_val s H1 H0 Hr) as Hf.
    unfold str_parse_i64 in H. rewrite parse_signed_digits in H by done.
    apply checked_i64_Some in H as [-> Hz]. split; [|done].
    unfold fmt_int. pose proof (dec_val_nonneg s H1). by replace (dec_val s <? 0) with false by lia.
Qed.

Lemma unquote_pair_Some s r : unquote_pair s = Some r ↔ s = quoted r.
Proof.
  unfold unquote_pair, quoted. destruct (strip_prefix [DQUOTE] s) as [t|] eqn:E.
  - apply strip_prefix_Some in E as ->. rewrite strip_suffix_Some. split; [by intros ->|].
    intros Heq. by apply app_inv_head in Heq.
  - split; [done|]. intros ->. by rewrite strip_prefix_app in E.
Qed.

Lemma unquote_Ok v s : unquote v = Ok s ↔ v = quoted s ∧ Forall (λ c, sf_char c = true) s.
Proof.
  unfold unquote. split.
  - intros H. inv_ok. apply unquote_pair_Some in E. by apply validate_sf_string_Ok in E0.
  - intros [-> Hs]. rewrite (proj2 (unquote_pair_Some _ s)) by done. simpl.
    by rewrite (proj2 (validate_sf_string_Ok s _ tt)).
Qed.

Lemma unquote_quoted s : Forall (λ c, sf_char c = true) s → unquote (quoted s) = Ok s.
Proof. intros Hs. by apply unquote_Ok. Qed.

(** ** The quote-aware splitters *)

(** [scan] follows the loop over a text in which it does not split. *)
Fixpoint scan (sep : ascii) (in_quotes escaped : bool) (s : bytes) : option (bool * bool) :=
  match s with
  | [] => Some (in_quotes, escaped)
  | c :: s' =>
      if escaped then scan sep in_quotes false s'
      else if ascii_eqb c BACKSLASH && in_quotes then scan sep in_quotes true s'
      else if ascii_eqb c DQUOTE then scan sep (negb in_quotes) false s'
      else if ascii_eqb c sep && negb in_quotes then None
      else scan sep in_quotes false s'
  end.

Definition prepend (p : bytes) (ps : list bytes) : list bytes :=
  match ps with x :: xs => (p ++ x) :: xs | [] => [p] end.

Lemma split_quoted_scan sep q e q' e' p r :
  scan sep q e p = Some (q', e') →
  split_quoted sep q e (p ++ r) = prepend p (split_quoted sep q' e' r).
Proof.
  assert (∀ q e r, split_quoted sep q e r ≠ []) as Hne.
  { clear. intros q e r. destruct r as [|c r]; [done|]. simpl. unfold cons_piece.
    repeat case_match; done. }
  revert q e. induction p as [|c p IH]; intros q e Hs.
  - injection Hs as -> ->. simpl. by destruct (split_quoted sep q' e' r) eqn:E; [apply Hne in E|].
  - simpl in *. repeat case_match; try done; rewrite (IH _ _ Hs);
      by destruct (split_quoted sep q' e' r).
Qed.

Lemma scan_app sep q e q' e' p r :
  scan sep q e p = Some (q', e') → scan sep q e (p ++ r) = scan sep q' e' r.
Proof.
  revert q e. induction p as [|c p IH]; intros q e Hs; simpl in *; [by injection Hs as -> ->|].
  repeat case_match; try done; by rewrite (IH _ _ Hs).
Qed.

(** Text without quotes and separators, and quoted strings, leave the loop outside quotes. *)
Lemma scan_plain sep s :
  Forall (λ c, c ≠ DQUOTE ∧ c ≠ sep) s → scan sep false false s = Some (false, false).
Proof.
  induction 1 as [|c s [Hd Hs] _ IH]; [done|]. simpl. rewrite andb_false_r.
  rewrite (proj2 (ascii_eqb_false c DQUOTE)), (proj2 (ascii_eqb_false c sep)) by done. done.
Qed.

Lemma sf_char_spec c : sf_char c = true ↔ is_printable c = true ∧ c ≠ DQUOTE ∧ c ≠ BACKSLASH.
Proof.
  unfold sf_char. rewrite !andb_true_iff, !negb_true_iff, !ascii_eqb_false. tauto.
Qed.

Lemma scan_quoted sep s :
  Forall (λ c, sf_char c = true) s → scan sep false false (quoted s) = Some (false, false).
Proof.
  intros HF. unfold quoted. simpl.
  assert (scan sep true false s = Some (true, false)) as Hs.
  { induction HF as [|c s (_ & Hd & Hb)%sf_char_spec _ IH]; [done|]. simpl.
    rewrite (proj2 (ascii_eqb_false c DQUOTE)), (proj2 (ascii_eqb_false c BACKSLASH)) by done.
    simpl. by rewrite andb_false_r. }
  by rewrite (scan_app _ _ _ _ _ _ _ Hs).
Qed.

(** ** The parameter tail as a list of segments *)

Definition key_val (key v : bytes) : bytes := key ++ b#"=" ++ v.
Definition int_segs (key : bytes) (o : option Z) : list bytes :=
  match o with Some z => [key_val key (fmt_int z)] | None => [] end.
Definition str_segs (key : bytes) (o : option bytes) : list bytes :=
  match o with Some s => [key_val key (quoted s)] | None => [] end.
Definition param_segs (p : SignatureParams) : list bytes :=
  int_segs b#"created" (p_created p) ++ int_segs b#"expires" (p_expires p) ++
  str_segs b#"nonce" (p_nonce p) ++ str_segs b#"keyid" (p_keyid p) ++
  str_segs b#"alg" (p_alg p) ++ str_segs b#"tag" (p_tag p).

(** [;seg;seg...]. *)
Definition tail_of (segs : list bytes) : bytes := concat (map (cons ";"%char) segs).

Lemma tail_of_app s1 s2 : tail_of (s1 ++ s2) = tail_of s1 ++ tail_of s2.
Proof. unfold tail_of. by rewrite map_app, concat_app. Qed.

Lemma param_tail_segs p : param_tail p = tail_of (param_segs p).
Proof.
  assert (∀ k o, tail_of (int_segs k o) = int_seg k o) as Hi.
  { intros k [z|]; [|done]. unfold tail_of. simpl. by rewrite app_nil_r. }
  assert (∀ k o, tail_of (str_segs k o) = str_seg k o) as Hs.
  { intros k [z|]; [|done]. unfold tail_of. simpl. by rewrite app_nil_r. }
  unfold param_segs, param_tail. by rewrite !tail_of_app, !Hi, !Hs.
Qed.

Definition clean_seg (seg : bytes) : Prop :=
  scan ";" false false seg = Some (false, false) ∧ trim seg = seg ∧ seg ≠ [] ∧
  no_unquoted_blank false false seg = true.

Lemma split_quoted_tail segs :
  Forall clean_seg segs → split_quoted ";" false false (tail_of segs) = [] :: segs.
Proof.
  induction 1 as [|seg segs (Hs & _) _ IH]; [done|].
  change (tail_of (seg :: segs)) with (";"%char :: seg ++ tail_of segs). simpl.
  rewrite (split_quoted_scan _ _ _ _ _ _ _ Hs), IH. simpl. by rewrite app_nil_r.
Qed.

Lemma nub_app sep q e q' e' p r :
  scan sep q e p = Some (q', e') →
  no_unquoted_blank q e (p ++ r) = no_unquoted_blank q e p && no_unquoted_blank q' e' r.
Proof.
  revert q e. induction p as [|c p IH]; intros q e Hs; simpl in *; [by injection Hs as -> ->|].
  repeat case_match; try done; by rewrite (IH _ _ Hs).
Qed.

(** Visible bytes but quotes and semicolons: keys and integers. *)
Definition plain_char (c : ascii) : bool :=
  is_vchar c && negb (ascii_eqb c DQUOTE) && negb (ascii_eqb c ";").

Lemma plain_char_spec c : plain_char c = true ↔ is_vchar c = true ∧ c ≠ DQUOTE ∧ c ≠ ";"%char.
Proof.
  unfold plain_char. rewrite !andb_true_iff, !negb_true_iff, !ascii_eqb_false. tauto.
Qed.

Lemma vchar_not_blank c : is_vchar c = true → c ≠ SPACE ∧ c ≠ TAB.
Proof. intros Hc. split; by intros ->. Qed.

Lemma scan_plain_chars s :
  Forall (λ c, plain_char c = true) s → scan ";" false false s = Some (false, false).
Proof.
  intros HF. apply scan_plain. eapply Forall_impl; [exact HF|]. simpl.
  intros c (_ & Hd & Hs)%plain_char_spec. done.
Qed.

Lemma nub_plain s : Forall (λ c, plain_char c = true) s → no_unquoted_blank false false s = true.
Proof.
  induction 1 as [|c s (Hv & Hd & _)%plain_char_spec _ IH]; [done|]. simpl.
  destruct (vchar_not_blank c Hv) as [H1 H2]. rewrite andb_false_r.
  rewrite (proj2 (ascii_eqb_false c DQUOTE)), (proj2 (ascii_eqb_false c SPACE)),
    (proj2 (ascii_eqb_false c TAB)) by done. done.
Qed.

Lemma nub_quoted s :
  Forall (λ c, sf_char c = true) s → no_unquoted_blank false false (quoted s) = true.
Proof.
  intros HF. unfold quoted. simpl.
  induction HF as [|c s (_ & Hd & Hb)%sf_char_spec _ IH]; [done|]. simpl.
  rewrite (proj2 (ascii_eqb_false c DQUOTE)), (proj2 (ascii_eqb_false c BACKSLASH)) by done.
  by rewrite !andb_false_r.
Qed.

Lemma fmt_int_plain z : Forall (λ c, plain_char c = true) (fmt_int z).
Proof.
  assert (∀ n, 0 ≤ n → Forall (λ c, plain_char c = true) (fmt_nat n)) as Hn.
  { intros n Hn. eapply Forall_impl; [by apply fmt_nat_digits|]. simpl. intros c Hc.
    apply plain_char_spec. split; [by apply digit_vchar|]. split; by intros ->. }
  unfold fmt_int. destruct (z <? 0) eqn:E; bool_prop; [constructor; [done|]|]; apply Hn; lia.
Qed.

Lemma clean_plain s : Forall (λ c, plain_char c = true) s → s ≠ [] → clean_seg s.
Proof.
  intros HF Hne. split_and!; [by apply scan_plain_chars| |done|by apply nub_plain].
  apply trim_id, trimmed_vchar. eapply Forall_impl; [exact HF|].
  by intros c (Hv & _)%plain_char_spec.
Qed.

(** The six parameter names. *)
Definition param_key (key : bytes) : Prop :=
  key ∈ [b#"created"; b#"expires"; b#"nonce"; b#"keyid"; b#"alg"; b#"tag"].

Lemma param_key_plain key :
  param_key key → ∃ c r, key = c :: r ∧ Forall (λ c, plain_char c = true) key ∧ "="%char ∉ key.
Proof.
  unfold param_key. rewrite !elem_of_cons. intros Hk. destruct_or!; [subst..|set_solver];
    (eexists _, _; split_and!; [done|by repeat constructor|vm_compute; set_solver]).
Qed.

Lemma clean_int_segs key o : param_key key → Forall clean_seg (int_segs key o).
Proof.
  intros (c & r & -> & HF & _)%param_key_plain. destruct o as [z|]; [|constructor]. apply Forall_singleton.
  apply clean_plain; [|done]. apply Forall_app. split; [done|].
  apply Forall_app. split; [by repeat constructor|apply fmt_int_plain].
Qed.

Lemma clean_str_segs key o : param_key key → sf_opt o → Forall clean_seg (str_segs key o).
Proof.
  intros (c & r & -> & HF & _)%param_key_plain. destruct o as [s|]; [|constructor].
  intros Hs. simpl in Hs. apply Forall_singleton. unfold key_val.
  assert (Forall (λ c, plain_char c = true) ((c :: r) ++ b#"=")) as Hp.
  { apply Forall_app. split; [done|by repeat constructor]. }
  rewrite (assoc_L (++)). split_and!.
  - rewrite (scan_app _ _ _ false false _ _ (scan_plain_chars _ Hp)). by apply scan_quoted.
  - replace (((c :: r) ++ b#"=") ++ quoted s) with
      (c :: (r ++ b#"=" ++ [DQUOTE] ++ s) ++ [DQUOTE]).
    2:{ unfold quoted. simpl. by rewrite <-!(assoc_L (++)). }
    inversion HF as [|? ? (Hc & _)%plain_char_spec _]; subst. by apply trim_ends.
  - done.
  - rewrite (nub_app ";" _ _ false false) by by apply scan_plain_chars.
    by rewrite nub_plain, nub_quoted.
Qed.

Lemma clean_param_segs p : params_valid p → Forall clean_seg (param_segs p).
Proof.
  intros (Hn & Hk & Ha & Ht & _). unfold param_segs.
  repeat (apply Forall_app; split);
    first [apply clean_int_segs|apply clean_str_segs]; try done; unfold param_key; set_solver.
Qed.

(** ** Reading the segments back *)

Lemma params_go_seg key v rest p last rank p' :
  param_key key → parameter_rank key = Ok rank → last < rank → assign p key v = Ok p' →
  params_go (key_val key v :: rest) p last = params_go rest p' rank.
Proof.
  intros Hk Hr Hl Ha. destruct (param_key_plain key Hk) as (c & r & Hkey & _ & Heq).
  unfold key_val. simpl. rewrite Hkey at 1. simpl app at 1. cbn iota.
  change (key ++ "="%char :: v) with (key ++ "="%char :: v).
  rewrite split_once_char_app by done. simpl. rewrite Hr.
  replace (rank <=? last) with false by lia. by rewrite Ha.
Qed.

Definition opt_i64 (o : option Z) : Prop := match o with Some z => is_i64 z | None => True end.

(** One optional parameter: [set o] is the record with the parameter set to [o]. *)
Lemma params_go_int key rank (set : option Z → SignatureParams) o rest last R :
  param_key key → parameter_rank key = Ok rank →
  (∀ z, is_i64 z → assign (set None) key (fmt_int z) = Ok (set (Some z))) →
  opt_i64 o → last < rank → (∀ l, l ≤ rank → params_go rest (set o) l = R) →
  params_go (int_segs key o ++ rest) (set None) last = R.
Proof.
  intros Hk Hr Ha Ho Hl HR. destruct o as [z|]; simpl app; [|apply HR; lia].
  rewrite (params_go_seg _ _ _ _ _ rank (set (Some z))) by auto. apply HR. lia.
Qed.

Lemma params_go_str key rank (ok : bytes → Prop) (set : option bytes → SignatureParams) o rest last R :
  param_key key → parameter_rank key = Ok rank →
  (∀ s, ok s → assign (set None) key (quoted s) = Ok (set (Some s))) →
  match o with Some s => ok s | None => True end →
  last < rank → (∀ l, l ≤ rank → params_go rest (set o) l = R) →
  params_go (str_segs key o ++ rest) (set None) last = R.
Proof.
  intros Hk Hr Ha Ho Hl HR. destruct o as [s|]; simpl app; [|apply HR; lia].
  rewrite (params_go_seg _ _ _ _ _ rank (set (Some s))) by auto. apply HR. lia.
Qed.

Ltac param_step lem :=
  apply lem;
  [ by unfold param_key; set_solver
   | done
   | intros; unfold assign; eval_bytes_eqb; cbn [p_created p_expires p_nonce p_keyid p_alg p_tag];
     first [by rewrite parse_i64_fmt_int | by rewrite unquote_quoted]
   | done
   | lia
   | intros ].

Lemma params_go_segs p :
  params_valid p → opt_i64 (p_created p) → opt_i64 (p_expires p) →
  params_go (param_segs p) params_default (-1) = Ok p.
Proof.
  destruct p as [c e n k a t]. intros (Hn & Hk & Ha & Ht & Hl) Hc He. simpl in *.
  unfold param_segs, params_default. simpl.
  pose (sf := λ s, Forall (λ c, sf_char c = true) s).
  param_step (params_go_int b#"created" 0 (λ o, Build_SignatureParams o None None None None None)).
  param_step (params_go_int b#"expires" 1 (λ o, Build_SignatureParams c o None None None None)).
  apply (params_go_str b#"nonce" 2 (λ s, sf s ∧ Z.of_nat (length s) ≤ MAX_NONCE_CHARS)
    (λ o, Build_SignatureParams c e o None None None));
    [by unfold param_key; set_solver|done| |by destruct n|lia|intros].
  { intros s [Hs Hsl]. unfold assign. eval_bytes_eqb.
    rewrite unquote_quoted by done. by rewrite (proj2 (validate_nonce_length_Ok s tt)). }
  param_step (params_go_str b#"keyid" 3 sf (λ o, Build_SignatureParams c e n o None None)).
  param_step (params_go_str b#"alg" 4 sf (λ o, Build_SignatureParams c e n k o None)).
  rewrite <-(app_nil_r (str_segs _ t)).
  param_step (params_go_str b#"tag" 5 sf (λ o, Build_SignatureParams c e n k a o)). done.
Qed.

Lemma parse_signature_parameters_tail p :
  params_valid p → opt_i64 (p_created p) → opt_i64 (p_expires p) →
  parse_signature_parameters (param_tail p) = Ok p.
Proof.
  intros Hv Hc He. unfold parse_signature_parameters. rewrite param_tail_segs.
  pose proof (clean_param_segs p Hv) as HF.
  assert (split_parameters (tail_of (param_segs p)) = [] :: param_segs p) as Hsp.
  { unfold split_parameters. rewrite split_quoted_tail by done. simpl. f_equal.
    clear -HF. induction HF as [|s segs (_ & Ht & _) _ IH]; [done|]. simpl. by rewrite Ht, IH. }
  assert (check_tail_spelling (tail_of (param_segs p)) = Ok tt) as ->.
  { assert (tail_of (param_segs p) = [] ∨ starts_with b#";" (tail_of (param_segs p)) = true) as Hst.
    { destruct (param_segs p) as [|s segs]; [by left|right]. apply starts_with_true. by eexists. }
    assert (existsb (λ seg, bytes_eqb seg []) (param_segs p) = false) as Hx.
    { apply not_true_is_false. rewrite existsb_elem. intros (x & Hx & Hxe). str_prop. subst x.
      rewrite Forall_forall in HF. by destruct (HF _ Hx) as (_ & _ & ? & _). }
    assert (no_unquoted_blank false false (tail_of (param_segs p)) = true) as Hb.
    { clear -HF. induction HF as [|s segs (Hs & _ & _ & Hb) _ IH]; [done|].
      change (tail_of (s :: segs)) with (";"%char :: s ++ tail_of segs). simpl.
      by rewrite (nub_app _ _ _ _ _ _ _ Hs), Hb. }
    unfold check_tail_spelling. rewrite Hsp. change (drop 1 ([] :: param_segs p)) with (param_segs p).
    rewrite Hx, Hb. destruct Hst as [-> | ->]; [done|]. by destruct (tail_of (param_segs p)). }
  rewrite Hsp. simpl. by apply params_go_segs.
Qed.

(** ** The inner list *)

Definition known_component (c : CoveredComponent) : Prop := cc_name c ∈ KNOWN_COMPONENTS.

Lemma existsb_bytes_eqb x l : existsb (bytes_eqb x) l = true ↔ x ∈ l.
Proof.
  rewrite existsb_elem. split.
  - intros (y & Hy & ->%bytes_eqb_true). done.
  - intros Hx. exists x. by rewrite bytes_eqb_refl.
Qed.

(** The names are visible ASCII without quotes and parentheses. *)
Definition name_char (c : ascii) : bool :=
  is_vchar c && negb (ascii_eqb c DQUOTE) && negb (ascii_eqb c ")").

Lemma known_name_chars n : n ∈ KNOWN_COMPONENTS → Forall (λ c, name_char c = true) n.
Proof.
  intros Hn. assert (forallb (forallb name_char) KNOWN_COMPONENTS = true) as Hk by done.
  apply forallb_Forall in Hk. rewrite Forall_forall in Hk. by apply forallb_Forall, Hk.
Qed.

Lemma identifier_chars c x :
  known_component c → x ∈ identifier c →
  is_vchar x = true ∧ x ≠ ")"%char.
Proof.
  intros Hk%known_name_chars. assert (x ∈ quoted (cc_name c) → is_vchar x = true ∧ x ≠ ")"%char) as Hq.
  { unfold quoted. rewrite !elem_of_app, !list_elem_of_singleton. intros [->|[Hx| ->]]; [done| |done].
    rewrite Forall_forall in Hk. apply Hk in Hx. unfold name_char in Hx. by str_prop. }
  unfold identifier. destruct (cc_req c); [|done]. rewrite elem_of_app. intros [Hx|Hx]; [auto|].
  simpl in Hx. rewrite !elem_of_cons in Hx. destruct_or!; [subst; done..|set_solver].
Qed.

Lemma identifier_item c :
  match strip_suffix b#";req" (identifier c) with
  | Some p => (p, true) | None => (identifier c, false)
  end = (quoted (cc_name c), cc_req c).
Proof.
  unfold identifier. destruct (cc_req c); [by rewrite strip_suffix_app|].
  destruct (strip_suffix b#";req" (quoted (cc_name c))) as [r|] eqn:E; [|done].
  apply strip_suffix_Some in E. change b#";req" with (b#";re" ++ b#"q") in E. unfold quoted in E.
  rewrite !(assoc_L (++)) in E. by apply app_inj_tail in E as [_ ?].
Qed.

Lemma component_eta c :
  (if cc_req c then component_req (cc_name c) else component_new (cc_name c)) = c.
Proof. by destruct c as [n []]. Qed.

Lemma component_dup c cs :
  existsb (λ d, bytes_eqb (cc_name d) (cc_name c) && Bool.eqb (cc_req d) (cc_req c)) cs = true ↔ c ∈ cs.
Proof.
  rewrite existsb_elem. split.
  - intros (d & Hd & [Hn%bytes_eqb_true Hr%eqb_prop]%andb_true_iff). by destruct c, d; simplify_eq/=.
  - intros Hc. exists c. by rewrite bytes_eqb_refl, eqb_reflx.
Qed.

Lemma covered_go_identifiers cs acc :
  Forall known_component cs → NoDup (acc ++ cs) →
  covered_go (map identifier cs) acc = Ok (acc ++ cs).
Proof.
  intros HF. revert acc. induction HF as [|c cs Hc HF IH]; intros acc Hnd; cbn [map covered_go].
  - by rewrite app_nil_r.
  - rewrite identifier_item. rewrite (proj2 (unquote_pair_Some _ _) eq_refl).
    cbn [ok_or]. rewrite (proj2 (existsb_bytes_eqb _ _) Hc). rewrite component_eta. cbn [negb].
    destruct (existsb _ acc) eqn:E.
    + apply component_dup in E. apply NoDup_app in Hnd as (_ & Hd & _). exfalso. set_solver.
    + rewrite IH; rewrite <-(assoc_L (++)); done.
Qed.

Lemma parse_component_list cs :
  Forall known_component cs → NoDup cs → parse_covered_components (component_list cs) = Ok cs.
Proof.
  intros HF Hnd. unfold parse_covered_components, component_list.
  assert (Forall (λ p, " "%char ∉ p) (map identifier cs)) as Hsp.
  { apply Forall_map. eapply Forall_impl; [exact HF|]. simpl. intros c Hc Hin.
    by apply (identifier_chars c " "%char Hc) in Hin as [? _]. }
  assert ([] ∉ map identifier cs) as Hne.
  { rewrite list_elem_of_fmap. intros (c & Hc & _). unfold identifier, quoted in Hc. by destruct (cc_req c). }
  assert (existsb (ascii_eqb TAB) (join b#" " (map identifier cs)) = false) as Htab.
  { apply not_true_is_false. rewrite existsb_elem. intros (x & Hx & <-%ascii_eqb_true).
    clear Hsp Hne Hnd. induction HF as [|c cs Hc HF IH]; [set_solver|]. destruct cs as [|d cs].
    - by apply (identifier_chars c TAB Hc) in Hx as [? _].
    - rewrite map_cons, map_cons, join_cons, !elem_of_app in Hx. destruct Hx as [Hx|[Hx|Hx]].
      + by apply (identifier_chars c TAB Hc) in Hx as [? _].
      + vm_compute in Hx. set_solver.
      + by apply IH. }
  rewrite Htab. destruct (decide (cs = [])) as [->|Hcs]; [done|].
  assert (split_char " " (join b#" " (map identifier cs)) = map identifier cs) as Hsplit.
  { apply split_char_join; [by destruct cs|done]. }
  rewrite (proj2 (split_char_separators " " _)) by (left; by rewrite Hsplit).
  rewrite Hsplit. assert (List.filter (λ i, negb (bytes_eqb i [])) (map identifier cs) =
    map identifier cs) as ->; [|by apply covered_go_identifiers].
  clear -Hne. induction cs as [|c cs IH]; [done|]. simpl in *.
  rewrite (proj2 (bytes_eqb_false _ _)) by set_solver. simpl. rewrite IH; [done|set_solver].
Qed.

Lemma component_list_no_paren cs :
  Forall known_component cs → ")"%char ∉ component_list cs.
Proof.
  unfold component_list. induction 1 as [|c cs Hc HF IH]; [set_solver|].
  destruct cs as [|d cs]; [by intros [_ ?]%(identifier_chars c _ Hc)|].
  rewrite map_cons, map_cons, join_cons, !elem_of_app. intros [Hx|[Hx|Hx]].
  - by apply (identifier_chars c _ Hc) in Hx as [_ ?].
  - vm_compute in Hx. set_solver.
  - by apply IH.
Qed.

(** ** The whole member *)

Lemma tail_trimmed p l : params_valid p → trimmed (b#"(" ++ l ++ b#")" ++ param_tail p).
Proof.
  intros Hv. split; [done|]. rewrite param_tail_segs.
  destruct (last (b#"(" ++ l ++ b#")" ++ tail_of (param_segs p))) as [x|] eqn:E; [|done].
  rewrite !(assoc_L (++)), last_app in E. destruct (last (tail_of (param_segs p))) as [y|] eqn:Et.
  2:{ change b#")" with [")"%char] in E. rewrite last_snoc in E. by injection E as <-. }
  injection E as ->. assert (param_segs p ≠ []) as Hne by (intros Hn; by rewrite Hn in Et).
  revert Et. assert (∀ seg, seg ∈ param_segs p → ∃ r c, seg = r ++ [c] ∧ is_vchar c = true) as Hl.
  { clear. intros seg. unfold param_segs. rewrite !elem_of_app.
    assert (∀ k o, seg ∈ int_segs k o → ∃ r c, seg = r ++ [c] ∧ is_vchar c = true) as Hi.
    { intros k [z|]; simpl; [|set_solver]. rewrite list_elem_of_singleton. intros ->.
      pose proof (fmt_int_vchar z) as Hz. destruct (exists_last (l := fmt_int z)) as (r & c & Hr).
      { unfold fmt_int. destruct (z <? 0) eqn:Ez; [done|]. bool_prop. by apply fmt_nat_nonempty. }
      rewrite Hr in Hz. apply Forall_app in Hz as [_ Hz].
      apply (proj1 (Forall_singleton _ _)) in Hz.
      exists (k ++ b#"=" ++ r), c. unfold key_val.
      split; [by rewrite Hr, !(assoc_L (++))|exact Hz]. }
    assert (∀ k o, seg ∈ str_segs k o → ∃ r c, seg = r ++ [c] ∧ is_vchar c = true) as Hs.
    { intros k [z|]; simpl; [|set_solver]. rewrite list_elem_of_singleton. intros ->.
      exists (k ++ b#"=" ++ [DQUOTE] ++ z), DQUOTE. unfold key_val, quoted.
      split; [by rewrite !(assoc_L (++))|done]. }
    intros ?. destruct_or!; eauto. }
  destruct (exists_last Hne) as (segs & seg & Hseg).
  rewrite Hseg, tail_of_app. destruct (Hl seg) as (r & c & -> & Hc).
  { rewrite Hseg, elem_of_app, list_elem_of_singleton. by right. }
  unfold tail_of at 2. simpl. rewrite app_nil_r.
  change (";"%char :: r ++ [c]) with ((";"%char :: r) ++ [c]). rewrite (assoc_L (++)), last_snoc.
  by intros [= <-].
Qed.

Definition params_in_range (p : SignatureParams) : Prop :=
  opt_i64 (p_created p) ∧ opt_i64 (p_expires p).

Lemma parse_serialized p cs s :
  serialize_with p cs = Ok s → params_in_range p → Forall known_component cs → NoDup cs →
  trim s = s ∧ parse_signature_input s = Ok {| psi_components := cs; psi_params := p |}.
Proof.
  intros [Hv ->]%serialize_with_Ok [Hc He] HF Hnd.
  pose proof (trim_id _ (tail_trimmed p (component_list cs) Hv)) as Ht. split; [done|].
  unfold parse_signature_input. rewrite Ht.
  rewrite (proj2 (starts_with_true b#"(" _)) by by eexists. simpl negb. cbn iota.
  rewrite (proj2 (find_byte_Some _ _ (S (length (component_list cs))))).
  2:{ exists (b#"(" ++ component_list cs), ")"%char, (param_tail p). split_and!; [by rewrite <-(assoc_L (++))|done|done|].
      constructor; [done|]. apply Forall_forall. intros x Hx. apply ascii_eqb_false. intros <-.
      by apply component_list_no_paren in Hx. }
  simpl ok_or. cbn iota.
  replace (drop 1 (take (S (length (component_list cs))) (b#"(" ++ component_list cs ++ b#")" ++ param_tail p)))
    with (component_list cs).
  2:{ simpl. by rewrite take_app_length. }
  rewrite parse_component_list by done.
  replace (drop (S (length (component_list cs)) + 1) (b#"(" ++ component_list cs ++ b#")" ++ param_tail p))
    with (param_tail p).
  2:{ simpl. rewrite drop_app_ge by lia.
      replace (length (component_list cs) + 1 - length (component_list cs))%nat with 1%nat by lia. done. }
  by rewrite parse_signature_parameters_tail.
Qed.
