(* ===== verification/SigCanonical.v ===== *)
(** * [Signature-Input] has one spelling, and the signature base says what it covers

    The proofs that the parser of [SigInput] accepts only what [serialize_with] writes, that
    it reads a signed header back, and that a signature base determines the covered
    components, their values and the parameters. *)

From S2P Require Import Prelude.
From S2P Require Import RustStr.
From S2P Require Import Externals.
From S2P Require Import CoreError.
From S2P Require Import HttpMessage.
From S2P Require Import SigBase.
From S2P Require Import SigInput.

(** ** Dictionary members *)

Lemma scan_segs_comma p :
  params_valid p → scan "," false false (tail_of (param_segs p)) = Some (false, false).
Proof.
  intros (Hn & Hk & Ha & Ht & _).
  assert (∀ s r, scan "," false false s = Some (false, false) →
            scan "," false false r = Some (false, false) →
            scan "," false false (s ++ r) = Some (false, false)) as Happ.
  { intros s r Hs Hr. by rewrite (scan_app _ _ _ _ _ _ _ Hs). }
  assert (∀ s, forallb (λ c, negb (ascii_eqb c DQUOTE) && negb (ascii_eqb c ",")) s = true →
            scan "," false false s = Some (false, false)) as Hplain.
  { intros s Hs. apply scan_plain. apply forallb_Forall in Hs. eapply Forall_impl; [exact Hs|].
    simpl. intros c Hc. by str_prop. }
  assert (∀ z, scan "," false false (fmt_int z) = Some (false, false)) as Hint.
  { intros z. assert (∀ n, 0 ≤ n → scan "," false false (fmt_nat n) = Some (false, false)) as Hnat.
    { intros n Hnn. apply scan_plain. eapply Forall_impl; [by apply fmt_nat_digits|]. simpl.
      intros c Hc. split; by intros ->. }
    unfold fmt_int. destruct (z <? 0) eqn:E; bool_prop; [|by apply Hnat].
    apply (Happ b#"-"); [by apply Hplain|apply Hnat; lia]. }
  rewrite <-param_tail_segs. unfold param_tail, int_seg, str_seg.
  repeat apply Happ;
    match goal with |- scan _ _ _ (match ?o with Some _ => _ | None => _ end) = _ =>
      destruct o; [|done] end;
    do 3 (apply Happ; [by apply Hplain|]); first [apply Hint | by apply scan_quoted].
Qed.

Lemma scan_components_comma cs :
  Forall known_component cs → scan "," false false (component_list cs) = Some (false, false).
Proof.
  assert (∀ c, known_component c → scan "," false false (identifier c) = Some (false, false)) as Hid.
  { intros c Hc. assert (scan "," false false (quoted (cc_name c)) = Some (false, false)) as Hq.
    { apply scan_quoted. assert (forallb (forallb sf_char) KNOWN_COMPONENTS = true) as Hk by done.
      apply forallb_Forall in Hk. rewrite Forall_forall in Hk. by apply forallb_Forall, Hk. }
    unfold identifier. destruct (cc_req c); [|done]. by rewrite (scan_app _ _ _ _ _ _ _ Hq). }
  unfold component_list. induction 1 as [|c cs Hc HF IH]; [done|]. destruct cs as [|d cs]; [by apply Hid|].
  rewrite map_cons, map_cons, join_cons, (scan_app _ _ _ _ _ _ _ (Hid c Hc)).
  exact IH.
Qed.

Lemma scan_serialized p cs s :
  serialize_with p cs = Ok s → Forall known_component cs →
  scan "," false false s = Some (false, false).
Proof.
  intros [Hv ->]%serialize_with_Ok HF. simpl.
  rewrite (scan_app _ _ _ _ _ _ _ (scan_components_comma cs HF)). simpl.
  rewrite param_tail_segs. by apply scan_segs_comma.
Qed.

(** A header with the one member [label=v]. *)
Lemma member_value_single label v :
  Forall (λ c, is_vchar c = true ∧ c ≠ DQUOTE ∧ c ≠ ","%char) label → label ≠ [] → v ≠ [] → trimmed v →
  scan "," false false v = Some (false, false) →
  member_value (label ++ b#"=" ++ v) label = Ok v.
Proof.
  intros Hl Hne Hv Ht Hs. unfold member_value, split_dictionary.
  assert (scan "," false false (label ++ b#"=" ++ v) = Some (false, false)) as Hscan.
  { rewrite (scan_app _ _ _ false false); [done|]. apply scan_plain.
    eapply Forall_impl; [exact Hl|]. by intros c (_ & ? & ?). }
  rewrite <-(app_nil_r (label ++ b#"=" ++ v)), (split_quoted_scan _ _ _ _ _ _ _ Hscan).
  simpl map. rewrite app_nil_r.
  assert (trim (label ++ "="%char :: v) = label ++ "="%char :: v) as ->.
  { apply trim_id. destruct label as [|c label]; [done|]. split.
    - inv_Forall. by destruct_and!.
    - destruct Ht as [_ Ht]. destruct (exists_last Hv) as (v' & x & ->). rewrite last_snoc in Ht.
      change ("="%char :: v' ++ [x]) with (("="%char :: v') ++ [x]).
      by rewrite (assoc_L (++)), last_snoc. }
  destruct label as [|c label]; [done|]. set (lab := c :: label) in *. cbn [member_value_go].
  change (lab ++ "="%char :: v) with (c :: label ++ "="%char :: v) at 1. cbn iota.
  rewrite strip_prefix_app. change ("="%char :: v) with (b#"=" ++ v). rewrite strip_prefix_app.
  rewrite (trim_id v Ht), bytes_eqb_refl. done.
Qed.

(** ** The inner list has one spelling *)

Lemma covered_go_Ok items acc cs :
  covered_go items acc = Ok cs → NoDup acc →
  ∃ cs', cs = acc ++ cs' ∧ map identifier cs' = items ∧ Forall known_component cs' ∧ NoDup cs.
Proof.
  revert acc. induction items as [|item items IH]; intros acc Hgo Hnd.
  - injection Hgo as <-. exists []. by rewrite app_nil_r.
  - cbn [covered_go] in Hgo.
    destruct (match strip_suffix b#";req" item with Some p => (p, true) | None => (item, false) end)
      as [np req] eqn:Eitem.
    inv_ok. bool_prop. apply unquote_pair_Some in E. subst np.
    apply existsb_bytes_eqb in E0. set (c := if req then component_req v else component_new v) in *.
    assert (identifier c = item ∧ known_component c) as [Hid Hk].
    { destruct (strip_suffix b#";req" item) as [r|] eqn:Es; simplify_eq/=.
      - apply strip_suffix_Some in Es. by subst item.
      - done. }
    assert (c ∉ acc) as Hnew.
    { intros Hin. apply component_dup in Hin. congruence. }
    apply IH in Hgo as (cs' & -> & Hm & HF & Hnd').
    2:{ apply NoDup_app. split; [done|]. split; [set_solver|apply NoDup_singleton]. }
    exists (c :: cs'). rewrite <-(assoc_L (++)) in *. split_and!; [done| |by constructor|done].
    simpl. by rewrite Hid, Hm.
Qed.

Lemma parse_covered_components_Ok l cs :
  parse_covered_components l = Ok cs →
  component_list cs = l ∧ Forall known_component cs ∧ NoDup cs.
Proof.
  unfold parse_covered_components, component_list. intros Hp.
  destruct (_ || _ || _) eqn:E in Hp; [done|]. inv_ok.
  apply (split_char_separators " ") in E.
  destruct E as [Hne| ->].
  2:{ injection Hp as <-. split_and!; [done|constructor|constructor]. }
  assert (List.filter (λ i, negb (bytes_eqb i [])) (split_char " " l) = split_char " " l) as Hf.
  { clear -Hne. induction (split_char " " l) as [|x xs IH]; [done|]. simpl.
    rewrite (proj2 (bytes_eqb_false _ _)) by set_solver. simpl. rewrite IH; [done|set_solver]. }
  rewrite Hf in Hp. apply covered_go_Ok in Hp as (cs' & -> & Hm & HF & Hnd); [|constructor].
  split_and!; [|done..]. simpl. rewrite Hm. apply join_split_char.
Qed.

(** ** The parameter tail has one spelling *)

(** The segment of the parameter of rank [r]. *)
Definition seg_of (r : Z) (p : SignatureParams) : list bytes :=
  if r =? 0 then int_segs b#"created" (p_created p)
  else if r =? 1 then int_segs b#"expires" (p_expires p)
  else if r =? 2 then str_segs b#"nonce" (p_nonce p)
  else if r =? 3 then str_segs b#"keyid" (p_keyid p)
  else if r =? 4 then str_segs b#"alg" (p_alg p)
  else if r =? 5 then str_segs b#"tag" (p_tag p) else [].

Definition segs_after (last : Z) (p : SignatureParams) : list bytes :=
  concat (map (λ r, if last <? r then seg_of r p else []) [0; 1; 2; 3; 4; 5]).

Lemma param_segs_after p : param_segs p = segs_after (-1) p.
Proof. unfold param_segs, segs_after. simpl. by rewrite app_nil_r. Qed.

Definition wf_params (p : SignatureParams) : Prop := params_valid p ∧ params_in_range p.

(** What one successful assignment does: it writes the segment it read, keeps every other
    parameter, and keeps the record well formed. *)
Lemma assign_Ok p k v p' r :
  parameter_rank k = Ok r → assign p k v = Ok p' → wf_params p →
  seg_of r p' = [key_val k v] ∧ wf_params p' ∧ 0 ≤ r ≤ 5 ∧
  (∀ r', r' ≠ r → seg_of r' p' = seg_of r' p).
Proof.
  unfold parameter_rank, assign. intros Hr Ha [(Hn & Hk & Hal & Ht & Hl) [Hc He]].
  assert (∀ x y, bytes_eqb x y = true → x = y) as Hb by (intros; by apply bytes_eqb_true).
  repeat match type of Hr with
  | (if ?b then _ else _) = _ => destruct b eqn:?; [injection Hr as <-|]
  end; [..|done];
  repeat match goal with H : bytes_eqb k _ = true |- _ => apply Hb in H; rewrite H end;
  inv_ok;
  repeat match goal with
  | H : parse_i64 _ = Ok _ |- _ => apply parse_i64_Ok in H as [-> ?]
  | H : unquote _ = Ok _ |- _ => apply unquote_Ok in H as [-> ?]
  | H : validate_nonce_length _ = Ok _ |- _ => apply validate_nonce_length_Ok in H
  end;
  (split_and!;
   [ done
   | unfold wf_params, params_valid, params_in_range; simpl;
     repeat match goal with |- _ ∧ _ => split end; assumption
   | lia
   | lia
   | intros r' Hne; unfold seg_of; cbn [p_created p_expires p_nonce p_keyid p_alg p_tag];
     repeat match goal with
     | |- context [r' =? ?n] => destruct (Z.eqb_spec r' n) as [?|?]; [first [done|lia]|]
     end; done ]).
Qed.

Lemma params_go_Ok segs p0 last p :
  params_go segs p0 last = Ok p → wf_params p0 → [] ∉ segs → -1 ≤ last →
  (∀ r, last < r → seg_of r p0 = []) →
  wf_params p ∧ segs = segs_after last p ∧ (∀ r, r ≤ last → seg_of r p = seg_of r p0).
Proof.
  revert p0 last. induction segs as [|seg segs IH]; intros p0 last Hgo Hwf Hne Hlo Hnone.
  - injection Hgo as <-. split_and!; [done| |done]. unfold segs_after. cbn [map concat].
    repeat (destruct (last <? _) eqn:? at 1; [rewrite Hnone by lia|]); done.
  - destruct seg as [|c seg]; [set_solver|]. cbn [params_go] in Hgo.
    set (seg0 := c :: seg) in *. inv_ok. bool_prop. rename v0 into p1, v into v0, l into k, l0 into v.
    apply split_once_char_Some in E as [Hseg _].
    destruct (assign_Ok _ _ _ _ _ E0 E2 Hwf) as (Hs & Hwf1 & Hrange & Hother).
    apply IH in Hgo as (Hwf' & -> & Hkeep); [|done|set_solver|lia|].
    2:{ intros r Hr. rewrite Hother by lia. apply Hnone. lia. }
    split_and!; [done| |].
    + rewrite Hseg. change (k ++ "="%char :: v) with (key_val k v).
      assert (seg_of v0 p = [key_val k v]) as Hv0 by (rewrite Hkeep by lia; done).
      assert (∀ r, last < r → r < v0 → seg_of r p = []) as Hmid.
      { intros r Hr1 Hr2. rewrite Hkeep, Hother by lia. by apply Hnone. }
      clear -Hv0 Hmid Hrange E1. unfold segs_after. cbn [map concat].
      assert (v0 = 0 ∨ v0 = 1 ∨ v0 = 2 ∨ v0 = 3 ∨ v0 = 4 ∨ v0 = 5) as Hcases by lia.
      destruct_or! Hcases; subst v0; rewrite Hv0;
        repeat match goal with
        | |- context [if ?a <? ?b then _ else _] =>
            first [ replace (a <? b) with true by lia; rewrite ?(Hmid b) by lia
                  | replace (a <? b) with false by lia
                  | destruct (a <? b) eqn:?; [rewrite (Hmid b) by lia|] ]
        end; done.
    + intros r Hr. rewrite Hkeep, Hother by lia. done.
Qed.

(** *** Splitting and trimming *)

Lemma cons_piece_ne c ps : ps ≠ [] → ∃ p qs, ps = p :: qs ∧ cons_piece c ps = (c :: p) :: qs.
Proof. intros Hne. destruct ps as [|p qs]; [done|]. eauto. Qed.

Lemma split_quoted_nonempty sep q e s : split_quoted sep q e s ≠ [].
Proof.
  destruct s as [|c s]; [done|]. simpl. unfold cons_piece. repeat case_match; done.
Qed.

(** The pieces, joined, are the text; blanks outside quotes stay outside quotes. *)
Lemma split_quoted_pieces q e s p ps :
  split_quoted ";" q e s = p :: ps →
  s = p ++ tail_of ps ∧
  (no_unquoted_blank q e s = true →
   no_unquoted_blank q e p = true ∧ Forall (λ x, no_unquoted_blank false false x = true) ps).
Proof.
  revert q e p ps. induction s as [|c s IH]; intros q e p ps Hs.
  - injection Hs as <- <-. done.
  - simpl in Hs. assert (∀ q' e', ∃ p' ps', split_quoted ";" q' e' s = p' :: ps' ∧
      s = p' ++ tail_of ps' ∧ (no_unquoted_blank q' e' s = true →
      no_unquoted_blank q' e' p' = true ∧ Forall (λ x, no_unquoted_blank false false x = true) ps'))
      as Hex.
    { intros q' e'. destruct (split_quoted ";" q' e' s) as [|p' ps'] eqn:Es;
        [by apply split_quoted_nonempty in Es|]. exists p', ps'. split; [done|by apply IH]. }
    destruct (ascii_eqb c ";" && negb q && negb e) eqn:Esep.
    + bool_prop. str_prop. subst c. destruct q, e; try done. simpl in Hs.
      destruct (Hex false false) as (p' & ps' & Hsp & Heq & Hb). rewrite Hsp in Hs.
      injection Hs as <- <-. split; [by rewrite Heq at 1|]. simpl. intros [Hp1 Hp2]%Hb.
      split; [done|by constructor].
    + assert (∃ q' e', cons_piece c (split_quoted ";" q' e' s) = p :: ps ∧
        ∀ r, no_unquoted_blank q e (c :: r) = true ↔
             (no_unquoted_blank q e [c] = true ∧ no_unquoted_blank q' e' r = true))
        as (q' & e' & Hc & Hnub).
      { clear IH Hex. destruct e; [exists q, false; split; [done|simpl; intuition]|]. simpl in *.
        destruct (ascii_eqb c BACKSLASH && q); [exists q, true; intuition|].
        destruct (ascii_eqb c DQUOTE); [exists (negb q), false; intuition|].
        rewrite andb_true_r in Esep. rewrite Esep in Hs. exists q, false. split; [done|].
        intros r. destruct ((ascii_eqb c SPACE || ascii_eqb c TAB) && negb q);
          [split; [done|by intros []]|intuition]. }
      destruct (Hex q' e') as (p' & ps' & Hsp & Heq & Hb). rewrite Hsp in Hc. simpl in Hc.
      injection Hc as <- <-. split; [by rewrite Heq at 1|].
      intros [Hp1 [Hp2 Hp3]%Hb]%Hnub. split; [by apply Hnub|done].
Qed.

(** Trimming printable ASCII removes spaces only. *)
Lemma printable_ws c : is_printable c = true → ws1 c = ascii_eqb c SPACE.
Proof. by ascii_cases c. Qed.

Lemma printable_lt c : is_printable c = true → cz c < 128.
Proof. unfold is_printable. intros H. bool_prop. lia. Qed.

Lemma trim_start_printable s :
  Forall (λ c, is_printable c = true) s → ∃ n, s = replicate n SPACE ++ trim_start s.
Proof.
  induction 1 as [|c s Hc HF IH]; [by exists 0%nat|]. simpl. rewrite (printable_ws c Hc).
  destruct (ascii_eqb c SPACE) eqn:E; str_prop.
  - destruct IH as [n Hn]. exists (S n). simpl. by rewrite E, <-Hn.
  - exists 0%nat. apply printable_lt in Hc. destruct s as [|d s]; [done|].
    unfold ws2. replace (cz c =? 194) with false by lia. simpl. destruct s as [|d' s]; [done|].
    unfold ws3. replace (cz c =? 225) with false by lia. replace (cz c =? 226) with false by lia.
    by replace (cz c =? 227) with false by lia.
Qed.

Lemma trim_start_rev_printable s :
  Forall (λ c, is_printable c = true) s → ∃ n, s = replicate n SPACE ++ trim_start_rev s.
Proof.
  induction 1 as [|c s Hc HF IH]; [by exists 0%nat|]. simpl. rewrite (printable_ws c Hc).
  destruct (ascii_eqb c SPACE) eqn:E; str_prop.
  - destruct IH as [n Hn]. exists (S n). simpl. by rewrite E, <-Hn.
  - exists 0%nat. apply printable_lt in Hc. destruct s as [|d s]; [done|].
    unfold ws2. replace (cz c =? 133) with false by lia. replace (cz c =? 160) with false by lia.
    rewrite andb_false_r. destruct s as [|d' s]; [done|].
    unfold ws3. replace (cz c =? 128) with false by lia. replace (128 <=? cz c) with false by lia.
    replace (cz c =? 168) with false by lia. replace (cz c =? 169) with false by lia.
    replace (cz c =? 175) with false by lia. replace (cz c =? 159) with false by lia.
    simpl. by rewrite !andb_false_r.
Qed.

Lemma rev_replicate {A} n (x : A) : rev (replicate n x) = replicate n x.
Proof.
  induction n as [|n IH]; [done|]. simpl. rewrite IH. clear IH.
  induction n as [|n IH]; [done|]. simpl. by rewrite IH.
Qed.

Lemma trim_printable s :
  Forall (λ c, is_printable c = true) s →
  ∃ n m, s = replicate n SPACE ++ trim s ++ replicate m SPACE.
Proof.
  intros HF. destruct (trim_start_printable s HF) as [n Hn]. exists n. unfold trim, trim_end.
  assert (Forall (λ c, is_printable c = true) (rev (trim_start s))) as HF'.
  { apply Forall_rev. rewrite Hn in HF. by apply Forall_app in HF as [_ ?]. }
  destruct (trim_start_rev_printable _ HF') as [m Hm]. exists m.
  rewrite <-(rev_replicate m SPACE), <-rev_app_distr, <-Hm, rev_involutive. done.
Qed.

(** A raw piece without blanks outside quotes whose trimmed form is clean is not changed
    by trimming. *)
Lemma raw_piece_clean raw :
  Forall (λ c, is_printable c = true) raw → no_unquoted_blank false false raw = true →
  clean_seg (trim raw) → trim raw = raw.
Proof.
  intros HF Hb (Hs & _). destruct (trim_printable raw HF) as (n & m & Heq).
  rewrite Heq in Hb. destruct n as [|n]; [|done].
  change (replicate 0 SPACE) with (@nil ascii) in *. rewrite app_nil_l in *.
  rewrite (nub_app _ _ _ _ _ _ _ Hs) in Hb. destruct m as [|m].
  - by rewrite app_nil_r in Heq.
  - simpl in Hb. by rewrite andb_false_r in Hb.
Qed.

Lemma wf_params_default : wf_params params_default.
Proof. by repeat split. Qed.

Lemma parse_signature_parameters_Ok tail p :
  Forall (λ c, is_printable c = true) tail → parse_signature_parameters tail = Ok p →
  param_tail p = tail ∧ wf_params p.
Proof.
  intros HF Hp. unfold parse_signature_parameters in Hp. inv_ok.
  rewrite param_tail_segs. destruct (decide (tail = [])) as [->|Hne].
  { injection Hp as <-. split; [done|apply wf_params_default]. }
  assert (∃ raw, split_quoted ";" false false tail = [] :: raw ∧ [] ∉ map trim raw ∧
            tail = tail_of raw ∧ Forall (λ x, no_unquoted_blank false false x = true) raw)
    as (raw & Hraw & Hempty & Htail & Hblank).
  { unfold check_tail_spelling in E. destruct tail as [|c tail]; [done|]. inv_ok. bool_prop.
    apply starts_with_true in E0 as [t Ht]. injection Ht as -> ->.
    change (split_parameters (";"%char :: t)) with ([] :: map trim (split_quoted ";" false false t)) in E1.
    destruct (split_quoted_pieces false false (";"%char :: t) [] (split_quoted ";" false false t))
      as [H1 H2]; [done|]. exists (split_quoted ";" false false t). split_and!; [done| |done|by apply H2].
    intros Hin. change (drop 1 ([] :: ?x)) with x in E1. simpl in E1. apply not_true_iff_false in E1.
    apply E1, existsb_elem. by exists []. }
  unfold split_parameters in Hp. rewrite Hraw in Hp. simpl in Hp.
  apply params_go_Ok in Hp as (Hwf & Hsegs & _); [|apply wf_params_default|done|lia|].
  2:{ intros r _. unfold seg_of. simpl. by repeat case_match. }
  rewrite <-param_segs_after in Hsegs. split; [|done]. rewrite Htail, <-Hsegs. f_equal.
  pose proof (clean_param_segs p (proj1 Hwf)) as Hclean. rewrite <-Hsegs in Hclean.
  assert (Forall (Forall (λ c, is_printable c = true)) raw) as Hpr.
  { rewrite Htail in HF. clear -HF. induction raw as [|x raw IH]; [constructor|].
    change (tail_of (x :: raw)) with (";"%char :: x ++ tail_of raw) in HF.
    apply Forall_cons in HF as [_ [Hx HF]%Forall_app]. constructor; auto. }
  clear -Hclean Hpr Hblank. induction raw as [|x raw IH]; [done|]. simpl in *. inv_Forall.
  f_equal; [by apply raw_piece_clean|by apply IH].
Qed.

Lemma parse_signature_input_Ok v psi :
  Forall (λ c, is_printable c = true) v → trim v = v → parse_signature_input v = Ok psi →
  serialize_with (psi_params psi) (psi_components psi) = Ok v ∧
  params_in_range (psi_params psi) ∧ Forall known_component (psi_components psi) ∧
  NoDup (psi_components psi).
Proof.
  intros HF Ht Hp. unfold parse_signature_input in Hp. rewrite Ht in Hp. inv_ok. bool_prop.
  apply find_byte_Some in E0 as (a & c & b & -> & -> & <-%ascii_eqb_true & Hno).
  apply starts_with_true in E as [r Hr]. destruct a as [|x a]; [done|]. injection Hr as -> _.
  change (take (length ("("%char :: a)) (("("%char :: a) ++ ")"%char :: b)) with
    ("("%char :: take (length a) (a ++ ")"%char :: b)) in E1.
  rewrite take_app_length in E1. simpl in E1.
  apply parse_covered_components_Ok in E1 as (Hlist & Hk & Hnd).
  replace (drop (length ("("%char :: a) + 1) (("("%char :: a) ++ ")"%char :: b)) with b in E2.
  2:{ simpl. rewrite drop_app_ge by lia. by replace (length a + 1 - length a)%nat with 1%nat by lia. }
  apply parse_signature_parameters_Ok in E2 as [Htail [Hval Hran]].
  2:{ apply Forall_app in HF as [_ HF]. by inversion HF. }
  split_and!; [|done..]. simpl. apply serialize_with_Ok. split; [done|]. by rewrite Hlist, Htail.
Qed.

(** ** The signature base *)

(** A component name without a quote and without a line feed, as all known names are. *)
Definition line_name (c : CoveredComponent) : Prop := DQUOTE ∉ cc_name c ∧ LF ∉ cc_name c.

Lemma known_line_name c : known_component c → line_name c.
Proof.
  intros Hk%known_name_chars. split.
  - eapply not_elem_of_Forall; [exact Hk|done].
  - eapply not_elem_of_Forall; [exact Hk|done].
Qed.

Lemma identifier_line_inj c d v w :
  line_name c → line_name d → identifier c ++ b#": " ++ v = identifier d ++ b#": " ++ w →
  c = d ∧ v = w.
Proof.
  intros [Hc _] [Hd _] Heq. destruct c as [n r], d as [n' r']. simpl in *.
  unfold identifier, quoted in Heq. simpl in Heq.
  assert (∀ (r : bool) n v, (if r then DQUOTE :: (n ++ [DQUOTE]) ++ b#";req" else DQUOTE :: n ++ [DQUOTE]) ++ b#": " ++ v
    = DQUOTE :: n ++ DQUOTE :: ((if r then b#";req" else []) ++ b#": " ++ v)) as Hshape.
  { intros [] m u; simpl; by rewrite <-!(assoc_L (++)). }
  assert (DQUOTE :: n ++ DQUOTE :: ((if r then b#";req" else []) ++ b#": " ++ v) =
          DQUOTE :: n' ++ DQUOTE :: ((if r' then b#";req" else []) ++ b#": " ++ w)) as Heq'.
  { rewrite <-!Hshape. exact Heq. }
  injection Heq' as Heq'. apply app_sep_inj in Heq' as [-> Hrest]; [|done..].
  destruct r, r'; simplify_eq/=; done.
Qed.

Lemma line_no_LF c v :
  line_name c → Forall (λ x, is_newline x = false) v → LF ∉ identifier c ++ b#": " ++ v.
Proof.
  intros [_ Hn] Hv. rewrite !elem_of_app. intros [Hin|[Hin|Hin]].
  - unfold identifier, quoted in Hin. destruct (cc_req c); rewrite ?elem_of_app in Hin; simpl in Hin;
      rewrite ?elem_of_cons in Hin; set_solver.
  - simpl in Hin. set_solver.
  - rewrite Forall_forall in Hv. by apply Hv in Hin.
Qed.

Lemma param_tail_no_LF p : params_valid p → LF ∉ param_tail p.
Proof.
  intros (Hn & Hk & Ha & Ht & _). assert (∀ s, Forall (λ c, sf_char c = true) s → LF ∉ s) as Hs.
  { intros s Hs. eapply not_elem_of_Forall; [exact Hs|done]. }
  assert (∀ k o, LF ∉ k → sf_opt o → LF ∉ str_seg k o) as Hstr.
  { intros k [s|] Hk' Ho; [|set_solver]. unfold str_seg, quoted. simpl in Ho. apply Hs in Ho.
    rewrite !elem_of_app. simpl. set_solver. }
  assert (∀ k o, LF ∉ k → LF ∉ int_seg k o) as Hint.
  { intros k [z|] Hk'; [|set_solver]. unfold int_seg.
    assert (LF ∉ fmt_int z) by (eapply not_elem_of_Forall; [apply fmt_int_vchar|done]).
    rewrite !elem_of_app. simpl. set_solver. }
  unfold param_tail. rewrite !elem_of_app. intros Hin.
  destruct_or! Hin; revert Hin;
    first [apply Hint|apply Hstr; [|done]]; simpl; set_solver.
Qed.

Lemma component_list_no_LF cs : Forall line_name cs → LF ∉ component_list cs.
Proof.
  intros HF. unfold component_list.
  assert (∀ c, line_name c → LF ∉ identifier c) as Hid.
  { intros c Hc Hin. apply (line_no_LF c [] Hc); [constructor|]. apply elem_of_app. by left. }
  induction HF as [|c cs Hc HF IH]; [set_solver|]. destruct cs as [|d cs]; [by apply Hid|].
  rewrite map_cons, map_cons, join_cons, !elem_of_app. intros [Hx|[Hx|Hx]].
  - by apply (Hid c).
  - simpl in Hx. set_solver.
  - by apply IH.
Qed.

Lemma component_lines_no_LF cs src lines :
  component_lines cs src = Ok lines → Forall line_name cs → Forall (λ l, LF ∉ l) lines.
Proof.
  intros H2%component_lines_Forall2 HF.
  induction H2 as [|c l cs lines (v & Hv & ->) H2 IH]; [constructor|]. inv_Forall.
  constructor; [|by apply IH]. apply line_no_LF; [done|]. by eapply component_value_no_newline.
Qed.

(** Reading a base back: its lines are the lines of the components and the parameters. *)
Lemma signature_base_lines cs p src base :
  signature_base cs p src = Ok base → Forall line_name cs →
  ∃ lines, component_lines cs src = Ok lines ∧ params_valid p ∧
    split_char LF base =
      lines ++ [quoted b#"@signature-params" ++ b#": " ++ b#"(" ++ component_list cs ++ b#")" ++ param_tail p].
Proof.
  intros Hb HF. unfold signature_base in Hb. inv_ok. rename v into lines.
  apply serialize_with_Ok in E0 as [Hv ->]. exists lines. split_and!; [done..|].
  apply split_char_join; [by destruct lines|]. apply Forall_app.
  split; [by eapply component_lines_no_LF|]. constructor; [|constructor].
  rewrite !elem_of_app. intros [Hx|[Hx|[Hx|[Hx|[Hx|Hx]]]]].
  - vm_compute in Hx. set_solver.
  - simpl in Hx. set_solver.
  - simpl in Hx. set_solver.
  - by apply component_list_no_LF in Hx.
  - simpl in Hx. set_solver.
  - by apply param_tail_no_LF in Hx.
Qed.

Lemma component_lines_inj cs src lines cs' src' lines' :
  component_lines cs src = Ok lines → component_lines cs' src' = Ok lines' →
  Forall line_name cs → Forall line_name cs' → lines = lines' →
  cs = cs' ∧ Forall (λ c, component_value c src = component_value c src') cs.
Proof.
  intros H2%component_lines_Forall2 H2'%component_lines_Forall2 HF HF' <-.
  revert cs' H2' HF'. induction H2 as [|c l cs lines (v & Hv & ->) H2 IH]; intros cs' H2' HF'.
  - by inversion H2'.
  - inversion H2' as [|d ? cs'' ? (w & Hw & Heq) H2'']; subst. inv_Forall.
    apply identifier_line_inj in Heq as [-> ->]; [|done..].
    destruct (IH ltac:(done) cs'') as [-> HFv]; [done..|]. split; [done|]. constructor; [|done].
    by rewrite Hv, Hw.
Qed.

(** ** What a member value is *)

Lemma split_quoted_chars (P : ascii → Prop) sep q e s :
  Forall P s → Forall (Forall P) (split_quoted sep q e s).
Proof.
  intros HF. revert q e. induction HF as [|c s Hc HF IH]; intros q e; [by repeat constructor|].
  assert (∀ q e, Forall (Forall P) (cons_piece c (split_quoted sep q e s))) as Hcons.
  { intros q' e'. specialize (IH q' e'). destruct (split_quoted sep q' e' s) as [|p ps];
      [by repeat constructor|]. apply Forall_cons in IH as [Hp Hps].
    apply Forall_cons. split; [by constructor|done]. }
  simpl. repeat case_match; try apply Hcons. by constructor.
Qed.

Lemma trim_printable_Forall s :
  Forall (λ c, is_printable c = true) s → Forall (λ c, is_printable c = true) (trim s).
Proof.
  intros HF. destruct (trim_printable s HF) as (n & m & Heq). rewrite Heq in HF.
  apply Forall_app in HF as [_ HF]. by apply Forall_app in HF as [? _].
Qed.

Lemma member_value_go_Ok members label found v :
  member_value_go members label found = Ok (Some v) →
  found = Some v ∨
  (trim v = v ∧ ∃ m, m ∈ members ∧ m = label ++ b#"=" ++ v).
Proof.
  revert found. induction members as [|m ms IH]; intros found Hgo; [naive_solver|].
  cbn [member_value_go] in Hgo. destruct m as [|c m]; [done|]. set (mm := c :: m) in *.
  assert (∀ f, member_value_go ms label f = Ok (Some v) → f = Some v ∨
            (trim v = v ∧ ∃ m0, m0 ∈ mm :: ms ∧ m0 = label ++ b#"=" ++ v)) as Hrec.
  { intros f [->|(Ht & m0 & Hin & Heq)]%IH; [by left|right]. split; [done|]. exists m0. set_solver. }
  destruct (strip_prefix label mm) as [r|] eqn:Er; [|by auto].
  destruct (strip_prefix b#"=" r) as [w|] eqn:Ew; [|by auto]. apply strip_prefix_Some in Er, Ew.
  destruct found as [f|]; [done|]. destruct (negb _) eqn:Et; [done|]. str_prop.
  apply Hrec in Hgo as [[= <-]|Hgo]; [|by right]. right. split; [done|]. exists mm.
  split; [set_solver|]. by rewrite Er, Ew.
Qed.

Lemma member_value_Ok h label v :
  member_value h label = Ok v → Forall (λ c, is_printable c = true) h →
  trim v = v ∧ Forall (λ c, is_printable c = true) v.
Proof.
  unfold member_value. intros Hm HF. inv_ok. subst.
  apply member_value_go_Ok in E as [?|(Ht & m & Hin & Heq)]; [done|]. split; [done|].
  unfold split_dictionary in Hin. apply list_elem_of_fmap in Hin as (piece & -> & Hin).
  pose proof (split_quoted_chars _ "," false false h HF) as HFs. rewrite Forall_forall in HFs.
  apply HFs, trim_printable_Forall in Hin. rewrite Heq in Hin.
  apply Forall_app in Hin as [_ Hin]. by apply Forall_app in Hin as [_ ?].
Qed.

(** The labels the profile signs under. *)
Definition profile_label (label : bytes) : Prop := label = REQUEST_LABEL ∨ label = RESPONSE_LABEL.

Lemma profile_label_chars label :
  profile_label label →
  Forall (λ c, is_vchar c = true ∧ c ≠ DQUOTE ∧ c ≠ ","%char) label ∧ label ≠ [].
Proof. intros [->| ->]; (split; [by repeat constructor|done]). Qed.

Lemma parse_for_serialized headers label what k p cs s :
  profile_label label → serialize_with p cs = Ok s → params_in_range p →
  Forall known_component cs → NoDup cs →
  filter (header_named b#"signature-input") headers = [(k, label ++ b#"=" ++ s)] →
  member_value (label ++ b#"=" ++ s) label = Ok s ∧
  parse_signature_input_for headers label what = Ok {| psi_components := cs; psi_params := p |}.
Proof.
  intros Hlab Hs Hran HF Hnd Hh. pose proof (parse_serialized _ _ _ Hs Hran HF Hnd) as [_ Hp].
  assert (member_value (label ++ b#"=" ++ s) label = Ok s) as Hm.
  { apply profile_label_chars in Hlab as [Hc Hne].
    pose proof (scan_serialized _ _ _ Hs HF) as Hsc.
    apply serialize_with_Ok in Hs as [Hv ->]. apply member_value_single; try done. by apply tail_trimmed. }
  split; [done|]. unfold parse_signature_input_for.
  rewrite (proj2 (required_header_Ok headers _ (label ++ b#"=" ++ s))) by eauto.
  cbn [map_err]. by rewrite Hm.
Qed.

Lemma signature_base_inj cs p src cs' p' src' base :
  signature_base cs p src = Ok base → signature_base cs' p' src' = Ok base →
  Forall known_component cs → Forall known_component cs' →
  params_in_range p → params_in_range p' →
  cs = cs' ∧ p = p' ∧ Forall (λ c, component_value c src = component_value c src') cs.
Proof.
  intros Hb Hb' HF HF' [Hc He] [Hc' He'].
  assert (∀ l, Forall known_component l → Forall line_name l) as Hln.
  { intros l Hl. eapply Forall_impl; [exact Hl|]. apply known_line_name. }
  destruct (signature_base_lines _ _ _ _ Hb (Hln _ HF)) as (lines & Hl & Hv & Hs).
  destruct (signature_base_lines _ _ _ _ Hb' (Hln _ HF')) as (lines' & Hl' & Hv' & Hs').
  rewrite Hs in Hs'. apply app_inj_tail in Hs' as [Hlines Hlast].
  destruct (component_lines_inj _ _ _ _ _ _ Hl Hl') as [<- HFv]; [by auto..|].
  split_and!; [done| |done]. do 3 apply app_inv_head in Hlast.
  apply app_inv_head in Hlast. apply app_inv_head in Hlast.
  pose proof (parse_signature_parameters_tail p Hv Hc He) as Hp.
  rewrite Hlast, (parse_signature_parameters_tail p' Hv' Hc' He') in Hp. by injection Hp.
Qed.

(** What a parsed [Signature-Input] always satisfies. *)
Lemma params_go_wf segs p0 last p :
  params_go segs p0 last = Ok p → wf_params p0 → wf_params p.
Proof.
  revert p0 last. induction segs as [|seg segs IH]; intros p0 last Hgo Hwf; [by injection Hgo as <-|].
  destruct seg as [|c seg]; [by eapply IH|]. cbn [params_go] in Hgo. inv_ok.
  destruct (assign_Ok _ _ _ _ _ E0 E2 Hwf) as (_ & Hwf1 & _). by eapply IH.
Qed.

Lemma parse_signature_input_wf m psi :
  parse_signature_input m = Ok psi →
  Forall known_component (psi_components psi) ∧ NoDup (psi_components psi) ∧
  params_in_range (psi_params psi).
Proof.
  unfold parse_signature_input. intros Hp. inv_ok. simpl.
  apply parse_covered_components_Ok in E1 as (_ & Hk & Hnd).
  unfold parse_signature_parameters in E2. inv_ok.
  apply params_go_wf in E2 as [_ Hr]; [done|apply wf_params_default].
Qed.

(** ** Properties *)

(** The verifier reads back what the signer wrote. For every parameter set the
    serializer accepts, over any list of distinct known components, the [Signature-Input]
    header [label=<serialized>] parses to exactly those components and parameters. *)
Lemma signature_input_roundtrip headers label what k p cs s :
  profile_label label → serialize_with p cs = Ok s → params_in_range p →
  Forall known_component cs → NoDup cs →
  filter (header_named b#"signature-input") headers = [(k, label ++ b#"=" ++ s)] →
  parse_signature_input_for headers label what = Ok {| psi_components := cs; psi_params := p |}.
Proof. intros. by eapply parse_for_serialized. Qed.

(** C38: one wire spelling. A printable-ASCII [Signature-Input] header that parses carries,
    under its label, byte for byte the text the serializer produces from the parsed
    components and parameters; those components are known and distinct. So the re-serialized
    text the signature covers is the text that was on the wire. *)
Theorem signature_input_canonical headers label what value psi :
  required_header headers b#"signature-input" = Ok value →
  Forall (λ c, is_printable c = true) value →
  parse_signature_input_for headers label what = Ok psi →
  ∃ m, member_value value label = Ok m ∧
    serialize_with (psi_params psi) (psi_components psi) = Ok m ∧
    params_in_range (psi_params psi) ∧ Forall known_component (psi_components psi) ∧
    NoDup (psi_components psi).
Proof.
  intros Hh HF Hp. unfold parse_signature_input_for in Hp. rewrite Hh in Hp. simpl in Hp. inv_ok.
  rename v into m. exists m. destruct (member_value_Ok _ _ _ E HF) as [Ht HFm].
  destruct (parse_signature_input_Ok m psi HFm Ht Hp) as (Hs & Hr & Hk & Hnd). done.
Qed.

(** C12: a signature base determines what it covers. If two messages produce one base, then
    they were built over the same components in the same order, with the same parameters,
    and every covered component has the same value in both messages. *)
Theorem signature_base_injective cs p src cs' p' src' base :
  signature_base cs p src = Ok base → signature_base cs' p' src' = Ok base →
  Forall known_component cs → Forall known_component cs' →
  params_in_range p → params_in_range p' →
  cs = cs' ∧ p = p' ∧ Forall (λ c, component_value c src = component_value c src') cs.
Proof. apply signature_base_inj. Qed.

(** The hypothesis of printable ASCII is needed. A vertical tab between two parameters
    is trimmed away: two different member texts, both accepted by the dictionary parser,
    parse to the same components and parameters. *)
Lemma vertical_tab_spelling_collapses :
  let m1 := b#"();created=1;expires=2" in
  let m2 := b#"();created=1" ++ ["011"%char] ++ b#";expires=2" in
  m1 ≠ m2 ∧
  member_value (REQUEST_LABEL ++ b#"=" ++ m1) REQUEST_LABEL = Ok m1 ∧
  member_value (REQUEST_LABEL ++ b#"=" ++ m2) REQUEST_LABEL = Ok m2 ∧
  parse_signature_input m1 = parse_signature_input m2 ∧
  is_ok (parse_signature_input m2) = true.
Proof. vm_compute. split_and!; [discriminate|reflexivity..]. Qed.

(** *** Witnesses *)

Definition witness_params : SignatureParams :=
  {| p_created := Some 100; p_expires := Some 160; p_nonce := Some b#"n;1"; p_keyid := Some b#"k";
     p_alg := Some ALG_ED25519; p_tag := Some PROFILE_TAG |}.
Definition witness_components : list CoveredComponent := map component_new REQUIRED_REQUEST_COMPONENTS.
Definition witness_input : bytes :=
  match serialize_with witness_params witness_components with Ok s => s | Err _ => [] end.
Definition witness_headers : Headers :=
  [(b#"Content-Type", b#"application/json"); (b#"Content-Digest", b#"d");
   (b#"Signature-Input", REQUEST_LABEL ++ b#"=" ++ witness_input)].

Lemma witness_known : Forall known_component witness_components ∧ NoDup witness_components ∧
  params_in_range witness_params.
Proof.
  split_and!; [|apply (bool_decide_unpack _); vm_compute; exact I|split; vm_compute; split; discriminate].
  apply Forall_forall. intros c Hc. apply existsb_bytes_eqb.
  revert c Hc. apply Forall_forall. by repeat constructor.
Qed.

Lemma signature_input_canonical_witness :
  ∃ m, member_value (REQUEST_LABEL ++ b#"=" ++ witness_input) REQUEST_LABEL = Ok m ∧
    serialize_with witness_params witness_components = Ok m ∧
    params_in_range witness_params ∧ Forall known_component witness_components ∧
    NoDup witness_components.
Proof.
  apply (signature_input_canonical witness_headers REQUEST_LABEL b#"signature-input" _
           {| psi_components := witness_components; psi_params := witness_params |});
    [reflexivity|by apply forallb_Forall|reflexivity].
Defined.

Definition witness_request : HttpRequest :=
  {| req_method := b#"POST"; req_target_uri := b#"https://h/mcp"; req_headers := witness_headers;
     req_body := b#"{}" |}.

Lemma signature_base_injective_witness :
  witness_components = witness_components ∧ witness_params = witness_params ∧
  Forall (λ c, component_value c (SourceRequest witness_request) =
               component_value c (SourceRequest witness_request)) witness_components.
Proof.
  destruct witness_known as (Hk & _ & Hr).
  apply (signature_base_injective witness_components witness_params (SourceRequest witness_request)
    witness_components witness_params (SourceRequest witness_request)
    (match signature_base witness_components witness_params (SourceRequest witness_request) with
     | Ok b => b | Err _ => [] end)); [reflexivity|reflexivity|exact Hk|exact Hk|exact Hr|exact Hr].
Defined.
