(* ===== verification/Policy.v ===== *)
(** * [mcp-re-http-profile]: verifier policy, freshness, and MCP transport agreement

    [policy.rs], [verify/floor/params.rs], [mcp_transport/] and [mcp_name_source.rs]. *)

From S2P Require Import Prelude.
From S2P Require Import RustStr.
From S2P Require Import Externals.
From S2P Require Import Concrete.
From S2P Require Import CoreError.
From S2P Require Import HttpMessage.
From S2P Require Import SigBase.

(** ** [mcp_name_source.rs] and [mcp_transport/] *)
Inductive McpNameSource : Type := ParamsName | ParamsUri.

Definition mcp_name_source (method : bytes) : option McpNameSource :=
  if bytes_eqb method b#"tools/call" then Some ParamsName
  else if bytes_eqb method b#"resources/read" then Some ParamsUri
  else None.

Record McpTransportPolicy := {
  supported_protocol_versions : list bytes;
  require_protocol_version_header : bool;
  require_mcp_method : bool;
  mcp_name_required : list (bytes * McpNameSource);
  allow_legacy_header_omission : bool;
  protocol_version_body_key : bytes;
}.

(** [methods.filter_map(|m| mcp_name_source(m).map(|s| (m, s)))]. *)
Definition with_name_source (m : bytes) : option (bytes * McpNameSource) :=
  match mcp_name_source m with Some s => Some (m, s) | None => None end.

Definition mcp_2026_07_28 (supported_versions : list bytes) : McpTransportPolicy :=
  {| supported_protocol_versions := supported_versions;
     require_protocol_version_header := true;
     require_mcp_method := true;
     mcp_name_required := omap with_name_source [b#"tools/call"; b#"resources/read"];
     allow_legacy_header_omission := false;
     protocol_version_body_key := b#"io.modelcontextprotocol/protocolVersion" |}.

Definition with_legacy_header_omission (p : McpTransportPolicy) (allow : bool) : McpTransportPolicy :=
  {| supported_protocol_versions := supported_protocol_versions p;
     require_protocol_version_header := require_protocol_version_header p;
     require_mcp_method := require_mcp_method p;
     mcp_name_required := mcp_name_required p;
     allow_legacy_header_omission := allow;
     protocol_version_body_key := protocol_version_body_key p |}.

Definition with_supported_versions (p : McpTransportPolicy) (versions : list bytes) : McpTransportPolicy :=
  {| supported_protocol_versions := versions;
     require_protocol_version_header := require_protocol_version_header p;
     require_mcp_method := require_mcp_method p;
     mcp_name_required := mcp_name_required p;
     allow_legacy_header_omission := allow_legacy_header_omission p;
     protocol_version_body_key := protocol_version_body_key p |}.

Definition enforce_bodyless (p : McpTransportPolicy) (request : HttpRequest)
  : Result unit HttpProfileError :=
  let? o := single_header (req_headers request) MCP_PROTOCOL_VERSION_HEADER in
  match o with
  | Some h =>
      if negb (existsb (λ s, bytes_eqb s (trim h)) (supported_protocol_versions p))
      then Err HPE.McpProtocolVersionUnsupported else Ok tt
  | None => Ok tt
  end.

Record TransportHeaders := {
  th_method : option bytes;
  th_version : option bytes;
  th_name : option bytes;
  th_legacy : bool;
}.

Definition TransportHeaders_read (p : McpTransportPolicy) (request : HttpRequest)
  : Result TransportHeaders HttpProfileError :=
  let? method := single_header (req_headers request) MCP_METHOD_HEADER in
  let? version := single_header (req_headers request) MCP_PROTOCOL_VERSION_HEADER in
  let? name := single_header (req_headers request) MCP_NAME_HEADER in
  let carries_any := is_some method || is_some version || is_some name in
  Ok {| th_method := method; th_version := version; th_name := name;
        th_legacy := allow_legacy_header_omission p && negb carries_any |}.

Definition check_method (p : McpTransportPolicy) (headers : TransportHeaders)
    (body_method : option bytes) : Result unit HttpProfileError :=
  match th_method headers with
  | None =>
      if require_mcp_method p && negb (th_legacy headers)
      then Err (HPE.McpTransportHeaderMissing MCP_METHOD_HEADER) else Ok tt
  | Some h =>
      match body_method with
      | Some bm => if negb (bytes_eqb (trim h) bm) then Err HPE.McpMethodDivergence else Ok tt
      | None => Ok tt
      end
  end.

Section transport.
Context `{SerdeJson}.

Definition extract (s : McpNameSource) (params : Value) : option bytes :=
  match s with
  | ParamsName => json_get params b#"name" ≫= as_str
  | ParamsUri => json_get params b#"uri" ≫= as_str
  end.

Definition version_from (p : McpTransportPolicy) (v : Value) : option bytes :=
  json_get v b#"_meta" ≫= λ m, json_get m (protocol_version_body_key p) ≫= as_str.

Definition body_protocol_version (p : McpTransportPolicy) (body : Value) (params : option Value)
  : option bytes :=
  match version_from p body with
  | Some v => Some v
  | None => params ≫= version_from p
  end.

Definition check_protocol_version (p : McpTransportPolicy) (headers : TransportHeaders)
    (body : Value) (params : option Value) : Result unit HttpProfileError :=
  match th_version headers with
  | None =>
      if require_protocol_version_header p && negb (th_legacy headers)
      then Err (HPE.McpTransportHeaderMissing MCP_PROTOCOL_VERSION_HEADER) else Ok tt
  | Some h =>
      let v := trim h in
      if negb (existsb (λ s, bytes_eqb s v) (supported_protocol_versions p))
      then Err HPE.McpProtocolVersionUnsupported
      else match body_protocol_version p body params with
           | Some body_version =>
               if negb (bytes_eqb body_version v)
               then Err (HPE.McpTransportDivergence MCP_PROTOCOL_VERSION_HEADER) else Ok tt
           | None => Ok tt
           end
  end.

Definition check_name (p : McpTransportPolicy) (headers : TransportHeaders)
    (body_method : option bytes) (params : option Value) : Result unit HttpProfileError :=
  match body_method with
  | None => Ok tt
  | Some bm =>
      match List.find (λ ms, bytes_eqb (fst ms) bm) (mcp_name_required p) with
      | None => Ok tt
      | Some (_, source) =>
          match th_name headers with
          | None =>
              if negb (th_legacy headers)
              then Err (HPE.McpTransportHeaderMissing MCP_NAME_HEADER) else Ok tt
          | Some h =>
              match params ≫= extract source with
              | None => Err (HPE.McpTransportDivergence MCP_NAME_HEADER)
              | Some expected =>
                  if negb (bytes_eqb (trim h) expected)
                  then Err (HPE.McpTransportDivergence MCP_NAME_HEADER) else Ok tt
              end
          end
      end
  end.

Definition enforce (p : McpTransportPolicy) (request : HttpRequest) : Result unit HttpProfileError :=
  let? body := ok_or (from_slice (req_body request)) (HPE.MalformedEvidence b#"body json") in
  let body_method := json_get body b#"method" ≫= as_str in
  let params := json_get body b#"params" in
  let? headers := TransportHeaders_read p request in
  check_method p headers body_method ;?
  check_protocol_version p headers body params ;?
  check_name p headers body_method params.
End transport.

(** ** [policy.rs] *)

Inductive ProfileAlgorithm : Type := Ed25519Alg.
#[global] Instance ProfileAlgorithm_eq_dec : EqDecision ProfileAlgorithm.
Proof. solve_decision. Defined.

Definition from_token (token : bytes) : option ProfileAlgorithm :=
  if bytes_eqb token ALG_ED25519 then Some Ed25519Alg else None.
Definition token (a : ProfileAlgorithm) : bytes := match a with Ed25519Alg => ALG_ED25519 end.

Record VerifierPolicy := {
  vp_algorithms : list ProfileAlgorithm;
  vp_max_clock_skew : Z;
  vp_max_signature_validity : Z;
  vp_mcp_transport : option McpTransportPolicy;
}.

Definition DEFAULT_MAX_CLOCK_SKEW : Z := 30.
Definition MAX_CLOCK_SKEW_BOUND : Z := 300.
Definition DEFAULT_MAX_SIGNATURE_VALIDITY : Z := 3600.

(** The loop over the tokens: unknown ones are an error, duplicates are dropped. *)
Fixpoint resolve_algorithms (tokens : list bytes) (resolved : list ProfileAlgorithm)
  : Result (list ProfileAlgorithm) HttpProfileError :=
  match tokens with
  | [] => Ok resolved
  | t :: rest =>
      let? alg := ok_or (from_token t) HPE.UnsupportedAlgorithm in
      resolve_algorithms rest
        (if bool_decide (alg ∈ resolved) then resolved else resolved ++ [alg])
  end.

Definition VerifierPolicy_new (algorithms : list bytes) (max_clock_skew : Z)
  : Result VerifierPolicy HttpProfileError :=
  match algorithms with
  | [] => Err (HPE.MalformedEvidence b#"empty algorithm set")
  | _ =>
      let? resolved := resolve_algorithms algorithms [] in
      if negb ((0 <=? max_clock_skew) && (max_clock_skew <=? MAX_CLOCK_SKEW_BOUND))
      then Err (HPE.MalformedEvidence b#"clock skew out of bounds")
      else Ok {| vp_algorithms := resolved; vp_max_clock_skew := max_clock_skew;
                 vp_max_signature_validity := DEFAULT_MAX_SIGNATURE_VALIDITY;
                 vp_mcp_transport := None |}
  end.

Definition with_mcp_transport (p : VerifierPolicy) (t : McpTransportPolicy) : VerifierPolicy :=
  {| vp_algorithms := vp_algorithms p; vp_max_clock_skew := vp_max_clock_skew p;
     vp_max_signature_validity := vp_max_signature_validity p; vp_mcp_transport := Some t |}.

Definition accepted_algorithm (p : VerifierPolicy) (tok : bytes) : option ProfileAlgorithm :=
  match from_token tok with
  | Some alg => if bool_decide (alg ∈ vp_algorithms p) then Some alg else None
  | None => None
  end.

Definition with_max_signature_validity (p : VerifierPolicy) (secs : Z)
  : Result VerifierPolicy HttpProfileError :=
  if secs <=? 0 then Err (HPE.MalformedEvidence b#"max signature validity must be positive")
  else Ok {| vp_algorithms := vp_algorithms p; vp_max_clock_skew := vp_max_clock_skew p;
             vp_max_signature_validity := secs; vp_mcp_transport := vp_mcp_transport p |}.

Definition VerifierPolicy_default : VerifierPolicy :=
  {| vp_algorithms := [Ed25519Alg]; vp_max_clock_skew := DEFAULT_MAX_CLOCK_SKEW;
     vp_max_signature_validity := DEFAULT_MAX_SIGNATURE_VALIDITY; vp_mcp_transport := None |}.

(** ** [verify/floor/params.rs] *)

Definition window_admits (created expires now skew : Z) : bool :=
  (saturating_sub created skew <=? now) && (now <? saturating_add expires skew)
  && (created <? expires).

(** [(created, expires, nonce, key_id, algorithm)]. *)
Definition checked_params : Type := Z * Z * bytes * bytes * ProfileAlgorithm.

Definition check_params (params : SignatureParams) (policy : VerifierPolicy) (now : Z)
    (require_nonce : bool) : Result checked_params HttpProfileError :=
  if negb (bool_decide (p_tag params = Some PROFILE_TAG)) then Err HPE.UnknownProfileTag
  else
    let? algorithm := ok_or (p_alg params ≫= accepted_algorithm policy) HPE.UnsupportedAlgorithm in
    let? created := ok_or (p_created params) HPE.StaleWindow in
    let? expires := ok_or (p_expires params) HPE.StaleWindow in
    let skew := vp_max_clock_skew policy in
    if negb (window_admits created expires now skew) then Err HPE.StaleWindow
    else if vp_max_signature_validity policy <? saturating_sub expires created
    then Err HPE.StaleWindow
    else
      let? nonce :=
        match p_nonce params, require_nonce with
        | Some n, _ => Ok n
        | None, false => Ok []
        | None, true => Err (HPE.MissingEvidence b#"nonce")
        end in
      let? key_id := ok_or (p_keyid params) (HPE.MissingEvidence b#"keyid") in
      Ok (created, expires, nonce, key_id, algorithm).

(** ** Policies that the constructors build *)

Inductive policy_built : VerifierPolicy → Prop :=
| built_default : policy_built VerifierPolicy_default
| built_new algs skew p : VerifierPolicy_new algs skew = Ok p → policy_built p
| built_transport p t : policy_built p → policy_built (with_mcp_transport p t)
| built_validity p secs p' :
    policy_built p → is_i64 secs → with_max_signature_validity p secs = Ok p' → policy_built p'.

Definition policy_wf (p : VerifierPolicy) : Prop :=
  vp_algorithms p ≠ [] ∧ NoDup (vp_algorithms p) ∧
  0 ≤ vp_max_clock_skew p ≤ MAX_CLOCK_SKEW_BOUND ∧
  0 < vp_max_signature_validity p ≤ i64_MAX.

Lemma resolve_algorithms_Ok tokens acc algs :
  resolve_algorithms tokens acc = Ok algs → NoDup acc →
  NoDup algs ∧ (tokens ≠ [] ∨ acc ≠ [] → algs ≠ []).
Proof.
  revert acc. induction tokens as [|t ts IH]; intros acc Hr Hnd; simpl in Hr.
  - injection Hr as <-. split; [done|]. by intros [?|?].
  - inv_ok. apply IH in Hr as [Hn Hne].
    + split; [done|]. intros _. apply Hne. right. case_bool_decide as Hin; [|by destruct acc].
      intros ->. by apply elem_of_nil in Hin.
    + case_bool_decide; [done|]. apply NoDup_app. split_and!; [done|set_solver|apply NoDup_singleton].
Qed.

Lemma policy_built_wf p : policy_built p → policy_wf p.
Proof.
  induction 1 as [|algs skew p Hp|p t _ IH|p secs p' _ IH Hsecs Hp].
  - unfold policy_wf. simpl. split_and!; [done|apply NoDup_singleton|done..].
  - unfold VerifierPolicy_new in Hp. destruct algs as [|a algs]; [done|]. inv_ok. bool_prop.
    apply resolve_algorithms_Ok in E as [Hn Hne]; [|constructor].
    unfold policy_wf, DEFAULT_MAX_SIGNATURE_VALIDITY. simpl. split_and!; auto; i64_lia.
  - exact IH.
  - unfold with_max_signature_validity in Hp. inv_ok. bool_prop.
    destruct IH as (? & ? & ? & _). unfold policy_wf. simpl.
    split_and!; first [done|lia|apply Hsecs].
Qed.

(** The saturating window is the one over the integers, but for the last representable second. *)
Lemma window_admits_spec created expires now skew :
  is_i64 created → is_i64 expires → is_i64 now → is_i64 skew →
  window_admits created expires now skew = true ↔
    created - skew ≤ now < expires + skew ∧ created < expires ∧ now ≠ i64_MAX.
Proof.
  intros Hc He Hn Hs. unfold window_admits. rewrite !andb_true_iff, Z.leb_le, !Z.ltb_lt.
  split; [|intros (? & ? & ?); split_and!]; i64_lia.
Qed.

Lemma check_params_Ok params policy now rn c e n k alg :
  check_params params policy now rn = Ok (c, e, n, k, alg) ↔
    p_tag params = Some PROFILE_TAG ∧
    (∃ tok, p_alg params = Some tok ∧ accepted_algorithm policy tok = Some alg) ∧
    p_created params = Some c ∧ p_expires params = Some e ∧
    window_admits c e now (vp_max_clock_skew policy) = true ∧
    saturating_sub e c ≤ vp_max_signature_validity policy ∧
    (p_nonce params = Some n ∨ (p_nonce params = None ∧ rn = false ∧ n = [])) ∧
    p_keyid params = Some k.
Proof.
  unfold check_params. split.
  - intros Hp. inv_ok. bool_prop. destruct (p_alg params) as [tok|] eqn:Ea; [|done].
    split_and!; try done; try lia; [by eauto|].
    destruct (p_nonce params), rn; simplify_eq/=; auto.
  - intros (-> & (tok & -> & Ha) & -> & -> & Hw & Hv & Hn & ->). simpl. rewrite Ha. simpl.
    rewrite Hw. simpl. replace (_ <? _) with false by lia.
    destruct Hn as [->|(-> & -> & ->)]; done.
Qed.

(** ** Properties *)

(** Every policy the constructors can build accepts at least one algorithm, lists each
    once, tolerates between 0 and 300 seconds of clock skew and bounds the validity of a
    signature by a positive number of seconds. *)
Lemma policy_invariant p : policy_built p → policy_wf p.
Proof. apply policy_built_wf. Qed.

(** Parameters that pass the check are fresh and typed. Under a built policy, an
    accepted signature carries the profile tag, an algorithm the policy lists, a window
    that contains [now] up to at most 300 seconds of skew and is no longer than the policy's
    bound (in unbounded arithmetic; [i64::MAX] stands for no bound), a key id, and, where one is required, a nonce. *)
Lemma check_params_sound params policy now rn c e n k alg :
  policy_built policy → is_i64 c → is_i64 e → is_i64 now →
  check_params params policy now rn = Ok (c, e, n, k, alg) →
  p_tag params = Some PROFILE_TAG ∧ p_alg params = Some (token alg) ∧ alg ∈ vp_algorithms policy ∧
  c - MAX_CLOCK_SKEW_BOUND ≤ now < e + MAX_CLOCK_SKEW_BOUND ∧ c < e ∧
  (e - c ≤ vp_max_signature_validity policy ∨ vp_max_signature_validity policy = i64_MAX) ∧
  p_keyid params = Some k ∧ (rn = true → p_nonce params = Some n).
Proof.
  intros Hb Hc He Hn Hp. apply policy_built_wf in Hb as (_ & _ & Hsk & Hval).
  apply check_params_Ok in Hp as (Ht & (tok & Ha & Hacc) & _ & _ & Hw & Hs & Hno & Hk).
  unfold MAX_CLOCK_SKEW_BOUND in *. apply window_admits_spec in Hw; [|done..|i64_lia].
  unfold accepted_algorithm, from_token in Hacc.
  destruct (bytes_eqb tok ALG_ED25519) eqn:Etok; [|done]. str_prop. subst tok.
  destruct (bool_decide (Ed25519Alg ∈ _)) eqn:Ein; [|done]. injection Hacc as <-. bool_prop.
  split_and!; try done; try lia.
  - revert Hs. i64_lia.
  - destruct Hno as [?|(_ & -> & _)]; done.
Qed.
