(* ===== verification/Blocks.v ===== *)
(** * [mcp-re-http-profile]: identities, audiences, evidence blocks and artifact bindings

    [block.rs], [block/artifact_binding.rs], [artifact.rs], [pdp_decision/binding.rs] and the
    [AdmissionBinding] a request block may carry. *)

From S2P Require Import Prelude.
From S2P Require Import RustStr.
From S2P Require Import Externals.
From S2P Require Import Concrete.
From S2P Require Import CoreError.
From S2P Require Import CoreResolver.
From S2P Require Import HttpMessage.
From S2P Require Import Policy.

(** ** Identities *)

Record ActorIdentity := {
  ai_role : bytes;
  ai_trust_domain : bytes;
  ai_subject : bytes;
  ai_keyid : bytes;
}.
#[global] Instance ActorIdentity_eq_dec : EqDecision ActorIdentity.
Proof. solve_decision. Defined.

(** The unit separator. *)
Definition US : ascii := "031"%char.

Definition field_escape (s : bytes) : bytes :=
  replace_char US b#"%1F" (replace_char ":" b#"%3A" (replace_char "%" b#"%25" s)).

Definition actor_id (a : ActorIdentity) : bytes :=
  field_escape (ai_role a) ++ b#":" ++ field_escape (ai_trust_domain a) ++ b#":" ++
  field_escape (ai_subject a) ++ b#":" ++ field_escape (ai_keyid a).

Inductive SignerSlot : Type := SlotRequest | SlotResponse.
#[global] Instance SignerSlot_eq_dec : EqDecision SignerSlot.
Proof. solve_decision. Defined.

Record ResolvedActor `{Ed25519} := {
  ra_identity : ActorIdentity;
  ra_verification_key : VerificationKey;
  ra_slot : SignerSlot;
}.

Inductive ResolverOutcome `{Ed25519} : Type :=
| Resolved (a : ResolvedActor)
| NotTrusted
| ResolverUnavailable.

Definition resolved `{Ed25519} (o : ResolverOutcome) : option ResolvedActor :=
  match o with Resolved a => Some a | NotTrusted | ResolverUnavailable => None end.
Definition outcome_of_option `{Ed25519} (o : option ResolvedActor) : ResolverOutcome :=
  match o with Some a => Resolved a | None => NotTrusted end.

(** ** Audiences *)

Record AudienceTuple := {
  audience_id : bytes;
  aud_target_uri : bytes;
  aud_route : option bytes;
}.
#[global] Instance AudienceTuple_eq_dec : EqDecision AudienceTuple.
Proof. solve_decision. Defined.

Definition canonical_bytes (a : AudienceTuple) : bytes :=
  let route := default [] (aud_route a) in
  field_escape (audience_id a) ++ [US] ++ field_escape (aud_target_uri a) ++ [US] ++ field_escape route.

Definition audience_hash `{Base64, Sha2} (a : AudienceTuple) : bytes :=
  b64url_encode (sha256 (canonical_bytes a)).

(** ** Continuations *)

(** [RequestEvidenceDigest] has the two fields of [RequestEvidence]. *)
Abbreviation RequestEvidenceDigest := RequestEvidence.

Record HttpContinuation := {
  continuation_type : bytes;
  previous_request_evidence : RequestEvidenceDigest;
  input_required_response_evidence : RequestEvidenceDigest;
  request_state_digest : RequestEvidenceDigest;
}.

Definition CONTINUATION_TYPE_MCP_MRT : bytes := b#"mcp-mrt".

Section continuation.
Context `{Base64, Sha2}.

Definition over_labeled (label b : bytes) : RequestEvidenceDigest :=
  {| digest_alg := EVIDENCE_DIGEST_ALG; digest_value := labeled_digest_value label b |}.

Definition matches_labeled (d : RequestEvidenceDigest) (label b : bytes) : bool :=
  bytes_eqb (digest_alg d) EVIDENCE_DIGEST_ALG
  && bytes_eqb (digest_value d) (labeled_digest_value label b).

Definition continuation_build (previous_request_base input_required_response_base request_state : bytes)
  : HttpContinuation :=
  {| continuation_type := CONTINUATION_TYPE_MCP_MRT;
     previous_request_evidence := over_labeled EVIDENCE_LABEL_REQUEST previous_request_base;
     input_required_response_evidence :=
       over_labeled EVIDENCE_LABEL_RESPONSE input_required_response_base;
     request_state_digest := over_labeled EVIDENCE_LABEL_REQUEST_STATE request_state |}.

Definition from_handles (previous_request input_required_response : RequestEvidenceDigest)
    (request_state : bytes) : HttpContinuation :=
  {| continuation_type := CONTINUATION_TYPE_MCP_MRT;
     previous_request_evidence := previous_request;
     input_required_response_evidence := input_required_response;
     request_state_digest := over_labeled EVIDENCE_LABEL_REQUEST_STATE request_state |}.

Definition continuation_verify (c : HttpContinuation)
    (previous_request_base input_required_response_base request_state : bytes)
  : Result unit HttpProfileError :=
  if negb (bytes_eqb (continuation_type c) CONTINUATION_TYPE_MCP_MRT)
  then Err (HPE.MalformedEvidence b#"continuation type")
  else if negb (matches_labeled (previous_request_evidence c)
                  EVIDENCE_LABEL_REQUEST previous_request_base)
       || negb (matches_labeled (input_required_response_evidence c)
                  EVIDENCE_LABEL_RESPONSE input_required_response_base)
       || negb (matches_labeled (request_state_digest c)
                  EVIDENCE_LABEL_REQUEST_STATE request_state)
  then Err HPE.ContinuationBindingFailed
  else Ok tt.
End continuation.

(** ** Artifact bindings *)

Inductive ArtifactType : Type :=
| OauthDpop | OauthMtls | OauthRar | PdpDecision | DtrApproval | ClassifierResult | HumanApproval.
#[global] Instance ArtifactType_eq_dec : EqDecision ArtifactType.
Proof. solve_decision. Defined.

Inductive BindingType : Type := OpaqueDigest | ReferenceDigest.
#[global] Instance BindingType_eq_dec : EqDecision BindingType.
Proof. solve_decision. Defined.

Record ArtifactBinding := {
  artifact_type : ArtifactType;
  binding_type : BindingType;
  ab_digest_alg : bytes;
  ab_digest_value : bytes;
  authorization_system_id : option bytes;
  reference_scheme_id : option bytes;
  reference_value : option bytes;
}.
#[global] Instance ArtifactBinding_eq_dec : EqDecision ArtifactBinding.
Proof. solve_decision. Defined.

Definition is_b64url_no_pad (s : bytes) : bool :=
  negb (bytes_eqb s []) && forallb b64url_char s.

(** [f.as_deref().is_some_and(|s| !s.is_empty())]. *)
Definition named (o : option bytes) : bool :=
  match o with Some s => negb (bytes_eqb s []) | None => false end.

Section artifact.
Context `{Base64, Sha2}.

Definition opaque_digest (t : ArtifactType) (credential : bytes) : ArtifactBinding :=
  {| artifact_type := t; binding_type := OpaqueDigest; ab_digest_alg := EVIDENCE_DIGEST_ALG;
     ab_digest_value := b64url_encode (sha256 credential);
     authorization_system_id := None; reference_scheme_id := None; reference_value := None |}.

Definition artifact_validate (b : ArtifactBinding) : Result unit HttpProfileError :=
  if negb (bytes_eqb (ab_digest_alg b) EVIDENCE_DIGEST_ALG)
  then Err (HPE.MalformedEvidence b#"artifact digest_alg")
  else
    let is_digest :=
      is_b64url_no_pad (ab_digest_value b)
      && match b64url_decode (ab_digest_value b) with
         | Ok d => bool_decide (length d = 32%nat)
         | Err _ => false
         end in
    if negb is_digest then Err (HPE.MalformedEvidence b#"artifact digest_value")
    else
      let has_ref := is_some (authorization_system_id b) || is_some (reference_scheme_id b)
                     || is_some (reference_value b) in
      let all_ref := named (authorization_system_id b) && named (reference_scheme_id b)
                     && named (reference_value b) in
      match binding_type b with
      | OpaqueDigest =>
          if has_ref
          then Err (HPE.MalformedEvidence b#"opaque binding carries reference fields") else Ok tt
      | ReferenceDigest =>
          if negb all_ref
          then Err (HPE.MalformedEvidence b#"reference binding missing reference fields") else Ok tt
      end.

(** *** [artifact.rs] *)

Definition bearer_token (authorization_header : bytes) : option bytes :=
  match strip_prefix b#"Bearer " authorization_header with
  | None => None
  | Some rest => match trim rest with [] => None | t => Some t end
  end.

Definition sha256_b64url (b : bytes) : bytes := b64url_encode (sha256 b).

Definition expect_type (b : ArtifactBinding) (want : ArtifactType) : Result unit HttpProfileError :=
  if negb (bool_decide (artifact_type b = want)) || negb (bool_decide (binding_type b = OpaqueDigest))
  then Err HPE.ArtifactBindingFailed
  else artifact_validate b.

Definition compare (b : ArtifactBinding) (credential : bytes) : Result unit HttpProfileError :=
  if bytes_eqb (sha256_b64url credential) (ab_digest_value b) then Ok tt
  else Err HPE.ArtifactBindingFailed.

Definition verify_dpop_ath (b : ArtifactBinding) (access_token : bytes) : Result unit HttpProfileError :=
  expect_type b OauthDpop ;? compare b access_token.
Definition verify_mtls_x5t_s256 (b : ArtifactBinding) (cert_der : bytes) : Result unit HttpProfileError :=
  expect_type b OauthMtls ;? compare b cert_der.
Definition verify_rar_details (b : ArtifactBinding) (details : bytes) : Result unit HttpProfileError :=
  expect_type b OauthRar ;? compare b details.

Definition verify_artifact_binding (b : ArtifactBinding) (credential : bytes)
  : Result unit HttpProfileError :=
  match artifact_type b with
  | OauthDpop => verify_dpop_ath b credential
  | OauthMtls => verify_mtls_x5t_s256 b credential
  | OauthRar => verify_rar_details b credential
  | PdpDecision | DtrApproval | ClassifierResult | HumanApproval =>
      Err (HPE.MalformedEvidence b#"no typed verifier for this artifact_type yet")
  end.
End artifact.

(** ** Evidence blocks *)

Record AdmissionBinding := {
  adb_binding_type : BindingType;
  adb_admission_id : bytes;
  adb_generation : Z;
  adb_digest_alg : bytes;
  adb_digest_value : bytes;
}.

Record HttpRequestEvidenceBlock := {
  rb_profile : bytes;
  rb_audience : AudienceTuple;
  rb_artifact_bindings : list ArtifactBinding;
  rb_continuation : option HttpContinuation;
  rb_admission : option AdmissionBinding;
  rb_admission_assertion : option bytes;
  rb_authorization_decision : option bytes;
}.

#[global] Instance AdmissionBinding_eq_dec : EqDecision AdmissionBinding.
Proof. solve_decision. Defined.
#[global] Instance HttpContinuation_eq_dec : EqDecision HttpContinuation.
Proof. solve_decision. Defined.
#[global] Instance HttpRequestEvidenceBlock_eq_dec : EqDecision HttpRequestEvidenceBlock.
Proof. solve_decision. Defined.

Definition MAX_AUTHORIZATION_DECISION_LEN : Z := 8192.

Definition is_pdp_opaque (b : ArtifactBinding) : bool :=
  bool_decide (artifact_type b = PdpDecision) && bool_decide (binding_type b = OpaqueDigest).

Definition validate_authorization_decision (blk : HttpRequestEvidenceBlock)
  : Result unit HttpProfileError :=
  let applicable := length (List.filter is_pdp_opaque (rb_artifact_bindings blk)) in
  match rb_authorization_decision blk with
  | None => Ok tt
  | Some jws =>
      if MAX_AUTHORIZATION_DECISION_LEN <? Z.of_nat (length jws)
      then Err (HPE.MalformedEvidence b#"authorization decision size")
      else match applicable with
           | 1%nat => Ok tt
           | O => Err (HPE.MalformedEvidence
                         b#"authorization decision without a pdp-decision opaque-digest binding")
           | _ => Err (HPE.MalformedEvidence b#"more than one pdp-decision opaque-digest binding")
           end
  end.

Definition request_block_validate `{Base64} (blk : HttpRequestEvidenceBlock) (expected_profile : bytes)
  : Result unit HttpProfileError :=
  if negb (bytes_eqb (rb_profile blk) expected_profile) then Err HPE.UnknownProfileTag
  else match rb_artifact_bindings blk with
       | [] => Err (HPE.MalformedEvidence b#"empty artifact_bindings")
       | bs =>
           for_each artifact_validate bs ;?
           match rb_admission blk, rb_admission_assertion blk with
           | None, None => Ok tt
           | Some _, Some jws =>
               if MAX_ADMISSION_ASSERTION_LEN <? Z.of_nat (length jws)
               then Err (HPE.MalformedEvidence b#"admission assertion size") else Ok tt
           | _, _ =>
               Err (HPE.MalformedEvidence b#"admission binding and assertion must appear together")
           end ;?
           validate_authorization_decision blk ;?
           Ok tt
       end.

Record HttpResponseEvidenceBlock := {
  sb_profile : bytes;
  sb_server_signer : ActorIdentity;
  sb_server_delegation : option bytes;
  sb_request_evidence : RequestEvidenceDigest;
}.

#[global] Instance HttpResponseEvidenceBlock_eq_dec : EqDecision HttpResponseEvidenceBlock.
Proof. solve_decision. Defined.

Definition response_block_validate (blk : HttpResponseEvidenceBlock) (expected_profile : bytes)
  : Result unit HttpProfileError :=
  if negb (bytes_eqb (sb_profile blk) expected_profile) then Err HPE.UnknownProfileTag else Ok tt.

(** *** [pdp_decision/binding.rs] *)

Inductive PdpBindingRefusal : Type := NotTheEvidenceForm | PdpMalformed | PdpDigestMismatch.

Definition verify_pdp_decision_binding `{Base64, Sha2} (b : ArtifactBinding) (decision : bytes)
  : Result unit PdpBindingRefusal :=
  if negb (bool_decide (artifact_type b = PdpDecision)) || negb (bool_decide (binding_type b = OpaqueDigest))
  then Err NotTheEvidenceForm
  else
    map_err (λ _, PdpMalformed) (artifact_validate b) ;?
    if negb (bytes_eqb (b64url_encode (sha256 decision)) (ab_digest_value b))
    then Err PdpDigestMismatch else Ok tt.

Definition pdp_decision_evidence (b : ArtifactBinding) (blk : HttpRequestEvidenceBlock) : option bytes :=
  if is_pdp_opaque b then rb_authorization_decision blk else None.

(** ** Escaping is reversible *)

(** What [field_escape] does to one byte. *)
Definition esc (c : ascii) : bytes :=
  if ascii_eqb c "%" then b#"%25" else if ascii_eqb c ":" then b#"%3A"
  else if ascii_eqb c US then b#"%1F" else [c].

Lemma replace_char_concat c r s :
  replace_char c r s = concat (map (λ x, if ascii_eqb x c then r else [x]) s).
Proof. induction s as [|x s IH]; [done|]. simpl. by rewrite IH. Qed.

Lemma replace_char_app c r a b : replace_char c r (a ++ b) = replace_char c r a ++ replace_char c r b.
Proof. by rewrite !replace_char_concat, map_app, concat_app. Qed.

Lemma field_escape_esc s : field_escape s = concat (map esc s).
Proof.
  unfold field_escape. induction s as [|x s IH]; [done|].
  change (x :: s) with ([x] ++ s). rewrite !replace_char_app, map_app, concat_app, IH.
  f_equal. unfold esc. simpl.
  destruct (ascii_eqb x "%") eqn:E1; [done|]. simpl.
  destruct (ascii_eqb x ":") eqn:E2; [done|]. simpl.
  destruct (ascii_eqb x US) eqn:E3; done.
Qed.

Lemma esc_chars c x : x ∈ esc c → x ≠ ":"%char ∧ x ≠ US.
Proof.
  unfold esc. repeat (case_match; [simpl; rewrite !elem_of_cons; intros Hx;
    destruct_or!; [subst; done..|set_solver]|]).
  rewrite list_elem_of_singleton. intros ->. str_prop. done.
Qed.

Lemma field_escape_chars s : ":"%char ∉ field_escape s ∧ US ∉ field_escape s.
Proof.
  rewrite field_escape_esc. induction s as [|c s [IH1 IH2]]; [set_solver|]. simpl.
  rewrite !elem_of_app. split; (intros [Hin|Hin]; [|done]); by apply esc_chars in Hin as [? ?].
Qed.

Lemma esc_prefix c d r r' : esc c ++ r = esc d ++ r' → c = d ∧ r = r'.
Proof.
  unfold esc. intros Heq.
  repeat case_match; str_prop; subst; simplify_eq/=; done.
Qed.

Lemma field_escape_inj s t : field_escape s = field_escape t → s = t.
Proof.
  rewrite !field_escape_esc. revert t. induction s as [|c s IH]; intros [|d t]; simpl; [done|..].
  - intros Heq. exfalso. unfold esc in Heq. by repeat case_match.
  - intros Heq. exfalso. unfold esc in Heq. by repeat case_match.
  - intros [-> Heq]%esc_prefix. by rewrite (IH t).
Qed.

Lemma field_sep_inj (c : ascii) s t r r' :
  c = ":"%char ∨ c = US →
  field_escape s ++ [c] ++ r = field_escape t ++ [c] ++ r' → s = t ∧ r = r'.
Proof.
  intros Hc Heq. destruct (field_escape_chars s) as [H1 H2], (field_escape_chars t) as [H3 H4].
  apply app_sep_inj in Heq as [Heq ->]; [|by destruct Hc; subst..].
  by apply field_escape_inj in Heq.
Qed.

Lemma actor_id_inj a b : actor_id a = actor_id b → a = b.
Proof.
  unfold actor_id. intros Heq. destruct a, b; simpl in *.
  do 3 (apply (field_sep_inj ":" _ _ _ _ (or_introl eq_refl)) in Heq as [-> Heq]).
  by apply field_escape_inj in Heq as ->.
Qed.

Lemma canonical_bytes_inj a b :
  canonical_bytes a = canonical_bytes b →
  audience_id a = audience_id b ∧ aud_target_uri a = aud_target_uri b ∧
  default [] (aud_route a) = default [] (aud_route b).
Proof.
  unfold canonical_bytes. intros Heq.
  do 2 (apply (field_sep_inj US _ _ _ _ (or_intror eq_refl)) in Heq as [? Heq]).
  by apply field_escape_inj in Heq.
Qed.

Lemma actor_id_no_US a : US ∉ actor_id a.
Proof.
  unfold actor_id. rewrite !elem_of_app. simpl.
  intros Hin; destruct_or! Hin; try by (revert Hin; apply field_escape_chars).
  all: set_solver.
Qed.

(** ** Digests in bindings *)

Lemma matches_labeled_over `{Base64, Sha2} label b : matches_labeled (over_labeled label b) label b = true.
Proof. unfold matches_labeled. simpl. by rewrite !bytes_eqb_refl. Qed.

Lemma matches_labeled_binds `{Base64Laws, Sha2} label b b' :
  NUL ∉ label → matches_labeled (over_labeled label b) label b' = true →
  b = b' ∨ collides (labeled_preimage label b) (labeled_preimage label b').
Proof.
  unfold matches_labeled. simpl. intros Hl Hm. apply bytes_eqb_true in Hm.
  apply labeled_digest_binds in Hm as [[_ ->]|?]; eauto.
Qed.

Lemma sha256_b64url_binds `{Base64Laws, Sha2} a b :
  sha256_b64url a = sha256_b64url b → a = b ∨ collides a b.
Proof.
  unfold sha256_b64url. intros Heq%url_encode_inj. destruct (decide (a = b)); [by left|by right].
Qed.

Lemma opaque_digest_valid `{Base64Laws, !Sha2, !Sha2Laws} t c :
  artifact_validate (opaque_digest t c) = Ok tt.
Proof.
  unfold artifact_validate, opaque_digest. simpl. unfold b64url_decode, b64url_encode.
  rewrite url_decode_encode. simpl. unfold is_b64url_no_pad.
  rewrite (proj2 (bytes_eqb_false _ _)).
  2:{ apply url_encode_nonempty. intros Hn. pose proof (sha256_length c) as Hl. by rewrite Hn in Hl. }
  rewrite (proj2 (forallb_Forall _ _)) by apply url_encode_chars.
  rewrite sha256_length. done.
Qed.

(** A typed verifier accepts exactly a well-formed opaque binding of the credential's digest. *)
Lemma verify_artifact_binding_Ok `{Base64, Sha2} b c u :
  verify_artifact_binding b c = Ok u →
  (artifact_type b = OauthDpop ∨ artifact_type b = OauthMtls ∨ artifact_type b = OauthRar) ∧
  binding_type b = OpaqueDigest ∧ artifact_validate b = Ok tt ∧
  ab_digest_value b = sha256_b64url c.
Proof.
  unfold verify_artifact_binding. intros Hv.
  assert (∀ want, (expect_type b want ;? compare b c) = Ok u →
    binding_type b = OpaqueDigest ∧ artifact_validate b = Ok tt ∧
    ab_digest_value b = sha256_b64url c) as Htyped.
  { intros want Hw. unfold expect_type, compare in Hw. inv_ok. bool_prop. str_prop.
    destruct v. by destruct (artifact_validate b) as [[]|]. }
  destruct (artifact_type b) eqn:Et; try done; apply Htyped in Hv; naive_solver.
Qed.

(** ** Properties *)

(** An actor id names one actor, and audience bytes one audience. Two identities with
    one [actor_id] are equal; two audience tuples with one canonical encoding agree on the
    verifier, the target and the route, an absent and an empty route being the same slot. *)
Lemma identity_encodings_injective a b x y :
  (actor_id a = actor_id b → a = b) ∧
  (canonical_bytes x = canonical_bytes y ↔
     audience_id x = audience_id y ∧ aud_target_uri x = aud_target_uri y ∧
     default [] (aud_route x) = default [] (aud_route y)).
Proof.
  split; [apply actor_id_inj|]. split; [apply canonical_bytes_inj|].
  unfold canonical_bytes. by intros (-> & -> & ->).
Qed.

(** A continuation binds the exchange it continues. It verifies against the three byte
    strings it was built from; if it verifies against others, then each of the three is the
    one it was built from, or its labeled preimage collides with it under SHA-256. A
    continuation of another type never verifies. *)
Lemma continuation_binds `{Base64Laws, Sha2} p r s p' r' s' c :
  continuation_verify (continuation_build p r s) p r s = Ok tt ∧
  (continuation_verify (continuation_build p r s) p' r' s' = Ok tt →
     (p = p' ∨ collides (labeled_preimage EVIDENCE_LABEL_REQUEST p)
                        (labeled_preimage EVIDENCE_LABEL_REQUEST p')) ∧
     (r = r' ∨ collides (labeled_preimage EVIDENCE_LABEL_RESPONSE r)
                        (labeled_preimage EVIDENCE_LABEL_RESPONSE r')) ∧
     (s = s' ∨ collides (labeled_preimage EVIDENCE_LABEL_REQUEST_STATE s)
                        (labeled_preimage EVIDENCE_LABEL_REQUEST_STATE s'))) ∧
  (continuation_type c ≠ CONTINUATION_TYPE_MCP_MRT →
     continuation_verify c p r s = Err (HPE.MalformedEvidence b#"continuation type")).
Proof.
  split_and!.
  - unfold continuation_verify. cbn [continuation_type previous_request_evidence
      input_required_response_evidence request_state_digest continuation_build].
    by rewrite !matches_labeled_over.
  - unfold continuation_verify. intros Hv. inv_ok. bool_prop.
    assert ((NUL ∉ EVIDENCE_LABEL_REQUEST) ∧ (NUL ∉ EVIDENCE_LABEL_RESPONSE)
      ∧ NUL ∉ EVIDENCE_LABEL_REQUEST_STATE) as (N1 & N2 & N3).
    { vm_compute. split_and!; set_solver. }
    repeat match goal with
    | Hm : matches_labeled _ _ _ = true |- _ =>
        apply matches_labeled_binds in Hm; [|done]
    end. by split_and!.
  - intros Hc. unfold continuation_verify. by rewrite (proj2 (bytes_eqb_false _ _) Hc).
Qed.

(** Artifact bindings bind the credential. The binding computed for a credential is
    well formed and is accepted for that credential when its type has a typed verifier; any
    credential an accepted binding is checked against has the digest the binding carries, so
    it is the bound credential unless the two collide under SHA-256. *)
Lemma artifact_binding_binds `{Base64Laws, !Sha2, !Sha2Laws} t cred cred' :
  artifact_validate (opaque_digest t cred) = Ok tt ∧
  (t = OauthDpop ∨ t = OauthMtls ∨ t = OauthRar →
     verify_artifact_binding (opaque_digest t cred) cred = Ok tt) ∧
  (verify_artifact_binding (opaque_digest t cred) cred' = Ok tt →
     cred = cred' ∨ collides cred cred').
Proof.
  split_and!.
  - apply opaque_digest_valid.
  - intros Ht. assert (∀ want, want = t →
      (expect_type (opaque_digest t cred) want ;? compare (opaque_digest t cred) cred) = Ok tt) as Hw.
    { intros want ->. unfold expect_type. simpl. rewrite !bool_decide_true by done. simpl.
      rewrite opaque_digest_valid. unfold compare, sha256_b64url. simpl. by rewrite bytes_eqb_refl. }
    unfold verify_artifact_binding. simpl. destruct_or! Ht; subst t; by apply Hw.
  - intros (_ & _ & _ & Heq)%verify_artifact_binding_Ok. simpl in Heq. by apply sha256_b64url_binds in Heq.
Qed.

Import Instances.
