(* ===== verification/Body.v ===== *)
(** * [mcp-re-http-profile/src/body]: the evidence block in the body, and the JSON the profile carries

    [body/mod.rs] puts an evidence block into [_meta] and takes it out again;
    [representable.rs], [carried_number.rs] and [decimal_token.rs] refuse a body that
    re-serialization would alter. *)

From S2P Require Import Prelude.
From S2P Require Import RustStr.
From S2P Require Import Externals.
From S2P Require Import Concrete.
From S2P Require Import CoreError.
From S2P Require Import HttpMessage.
From S2P Require Import Blocks.

(** ** The standard library: UTF-8 validation and integer parsing *)

Definition cont (c : ascii) : bool := (128 <=? cz c) && (cz c <=? 191).
Definition in_range (lo hi : Z) (c : ascii) : bool := (lo <=? cz c) && (cz c <=? hi).

(** [str::from_utf8(s).is_ok()]: the well-formed byte sequences of the Unicode standard. *)
Fixpoint utf8_valid (s : bytes) : bool :=
  match s with
  | [] => true
  | a :: s1 =>
      if cz a <? 128 then utf8_valid s1
      else match s1 with
           | [] => false
           | b :: s2 =>
               if in_range 194 223 a then cont b && utf8_valid s2
               else match s2 with
                    | [] => false
                    | c :: s3 =>
                        if cz a =? 224 then in_range 160 191 b && cont c && utf8_valid s3
                        else if in_range 225 236 a || in_range 238 239 a
                        then cont b && cont c && utf8_valid s3
                        else if cz a =? 237 then in_range 128 159 b && cont c && utf8_valid s3
                        else match s3 with
                             | [] => false
                             | d :: s4 =>
                                 if cz a =? 240 then in_range 144 191 b && cont c && cont d && utf8_valid s4
                                 else if in_range 241 243 a then cont b && cont c && cont d && utf8_valid s4
                                 else if cz a =? 244 then in_range 128 143 b && cont c && cont d && utf8_valid s4
                                 else false
                             end
                    end
           end
  end.

(** [s.parse::<u64>()]: an optional plus sign, digits, a value in range. *)
Definition str_parse_u64 (s : bytes) : option Z :=
  let ds := match s with "+"%char :: r => r | _ => s end in
  match ds with
  | [] => None
  | _ => if forallb is_ascii_digit ds then checked_u64 (dec_val ds) else None
  end.

Definition i32_MIN : Z := -2147483648.
Definition i32_MAX : Z := 2147483647.
Definition checked_i32 (z : Z) : option Z :=
  if (i32_MIN <=? z) && (z <=? i32_MAX) then Some z else None.
Definition str_parse_i32 (s : bytes) : option Z :=
  match parse_signed s with Some z => checked_i32 z | None => None end.

(** ** [decimal_token.rs] *)

Record DecimalToken := { dt_negative : bool; dt_digits : bytes; dt_exponent : Z }.
#[global] Instance DecimalToken_eq_dec : EqDecision DecimalToken.
Proof. solve_decision. Defined.

(** [digits.drain(..leading)]. *)
Fixpoint drop_leading_zeros (ds : bytes) : bytes :=
  match ds with
  | c :: ds' => if ascii_eqb c "0" then drop_leading_zeros ds' else ds
  | [] => []
  end.

(** The loop that pops trailing zeros, on the reversed digits. *)
Fixpoint pop_trailing_zeros (rds : bytes) (exponent : Z) : option (bytes * Z) :=
  match rds with
  | c :: rds' =>
      if ascii_eqb c "0"
      then match checked_i32 (exponent + 1) with
           | Some e => pop_trailing_zeros rds' e
           | None => None
           end
      else Some (rds, exponent)
  | [] => Some ([], exponent)
  end.

Definition normalized (negative : bool) (digits : bytes) (exponent : Z) : option DecimalToken :=
  match pop_trailing_zeros (rev (drop_leading_zeros digits)) exponent with
  | None => None
  | Some ([], _) => Some {| dt_negative := false; dt_digits := []; dt_exponent := 0 |}
  | Some (rds, e) => Some {| dt_negative := negative; dt_digits := rev rds; dt_exponent := e |}
  end.

(** [unsigned.split_once(['e', 'E'])]. *)
Definition split_once_exponent (s : bytes) : option (bytes * bytes) :=
  match find_byte (λ c, ascii_eqb c "e" || ascii_eqb c "E") s with
  | Some i => Some (take i s, drop (i + 1) s)
  | None => None
  end.

Definition DecimalToken_parse (text : bytes) : option DecimalToken :=
  let '(negative, unsigned) :=
    match strip_prefix b#"-" text with
    | Some rest => (true, rest)
    | None => (false, default text (strip_prefix b#"+" text))
    end in
  let '(significand, exponent_text) :=
    match split_once_exponent unsigned with
    | Some (s, e) => (s, Some e)
    | None => (unsigned, None)
    end in
  match (match exponent_text with Some t => str_parse_i32 t | None => Some 0 end) with
  | None => None
  | Some exponent =>
      let '(integer, fraction) := default (significand, []) (split_once_char "." significand) in
      if bytes_eqb integer [] && bytes_eqb fraction [] then None
      else if negb (forallb is_ascii_digit (integer ++ fraction)) then None
      else match checked_i32 (Z.of_nat (length fraction)) with
           | None => None
           | Some scale =>
               match checked_i32 (exponent - scale) with
               | Some e => normalized negative (integer ++ fraction) e
               | None => None
               end
           end
  end.

(** ** [carried_number.rs]

    [f64_reemit text] is the text [serde_json] prints for the [f64] it parses from [text],
    when that parses to a finite number. *)

Class F64Carrier := { f64_reemit : bytes → option bytes }.

Definition decimal_survives_the_f64_carrier `{F64Carrier} (text : bytes) : bool :=
  match f64_reemit text with
  | None => false
  | Some emitted =>
      match DecimalToken_parse text, DecimalToken_parse emitted with
      | Some r, Some e => bool_decide (r = e)
      | _, _ => false
      end
  end.

Definition number_byte (c : ascii) : bool :=
  ascii_eqb c "-" || ascii_eqb c "+" || ascii_eqb c "." || is_ascii_digit c
  || ascii_eqb c "e" || ascii_eqb c "E".
Definition decimal_byte (c : ascii) : bool :=
  ascii_eqb c "." || ascii_eqb c "e" || ascii_eqb c "E".

(** The bytes of the walk from the front of [s] that satisfy [p]: [while p(body[i]) { i += 1 }]. *)
Fixpoint span_len (p : ascii → bool) (s : bytes) : nat :=
  match s with c :: s' => if p c then S (span_len p s') else O | [] => O end.

Definition body_json : HttpProfileError := HPE.MalformedEvidence b#"body json".

Definition scan_number `{F64Carrier} (body : bytes) (at_ : nat) : Result nat HttpProfileError :=
  let n := span_len number_byte (drop at_ body) in
  let text := take n (drop at_ body) in
  if negb (utf8_valid text) then Err body_json
  else if existsb decimal_byte text
  then if negb (decimal_survives_the_f64_carrier text)
       then Err (HPE.MalformedEvidence b#"body carries a number this profile cannot sign without altering it")
       else Ok (at_ + n)%nat
  else if negb (is_some (str_parse_i64 text)) && negb (is_some (str_parse_u64 text))
  then Err (HPE.MalformedEvidence b#"body carries an integer this profile cannot sign without altering it")
  else Ok (at_ + n)%nat.

(** ** [representable.rs] *)

Abbreviation Frames := (list (option (gset bytes))).

Definition is_ascii_whitespace (c : ascii) : bool :=
  ascii_eqb c SPACE || ascii_eqb c TAB || ascii_eqb c LF || ascii_eqb c "012" || ascii_eqb c CR.

Section scan.
Context `{SerdeJson, F64Carrier}.

Definition decoded_member_name (raw : bytes) : Result bytes HttpProfileError :=
  if negb (existsb (ascii_eqb BACKSLASH) raw)
  then if utf8_valid raw then Ok raw else Err body_json
  else ok_or (from_slice (quoted raw) ≫= as_str) body_json.

(** The walk over the literal, from [s] at offset [j]: the offset where it stops, which an
    escape at the very end carries one past the end. *)
Fixpoint string_end (s : bytes) (j : nat) : nat :=
  match s with
  | [] => j
  | c :: s' =>
      if ascii_eqb c DQUOTE then j
      else if ascii_eqb c BACKSLASH
      then match s' with [] => (j + 2)%nat | _ :: s'' => string_end s'' (j + 2) end
      else string_end s' (j + 1)
  end.

(** Frames are a stack; the top is the head of the list. *)
Definition scan_string (body : bytes) (at_ : nat) (frames : Frames)
  : Result (nat * Frames) HttpProfileError :=
  let start := (at_ + 1)%nat in
  let j := string_end (drop start body) start in
  let end_ := Nat.min j (length body) in
  if bool_decide (end_ < start)%nat then Err body_json
  else
    let raw := take (end_ - start) (drop start body) in
    let after := (j + 1)%nat in
    let k := (after + span_len is_ascii_whitespace (drop after body))%nat in
    if bool_decide (body !! k = Some ":"%char)
    then
      let? name := decoded_member_name raw in
      match frames with
      | Some names :: rest =>
          if bool_decide (name ∈ names)
          then Err (HPE.MalformedEvidence b#"body object has a duplicate member name")
          else Ok (after, Some ({[name]} ∪ names) :: rest)
      | _ => Ok (after, frames)
      end
    else Ok (after, frames).

(** One iteration of the scan: the next offset and the frames. *)
Definition scan_step (body : bytes) (i : nat) (c : ascii) (frames : Frames)
  : Result (nat * Frames) HttpProfileError :=
  if ascii_eqb c DQUOTE then scan_string body i frames
  else if ascii_eqb c "-" || is_ascii_digit c
  then let? i' := scan_number body i in Ok (i', frames)
  else if ascii_eqb c "{" then Ok ((i + 1)%nat, Some ∅ :: frames)
  else if ascii_eqb c "[" then Ok ((i + 1)%nat, None :: frames)
  else if ascii_eqb c "}" || ascii_eqb c "]" then Ok ((i + 1)%nat, tl frames)
  else Ok ((i + 1)%nat, frames).

(** The loop; [None] is fuel running out, which [scan_json_total] excludes. *)
Fixpoint scan_json (fuel : nat) (body : bytes) (i : nat) (frames : Frames)
  : option (Result unit HttpProfileError) :=
  match fuel with
  | O => None
  | S f =>
      match body !! i with
      | None => Some (Ok tt)
      | Some c =>
          match scan_step body i c frames with
          | Ok (i', frames') => scan_json f body i' frames'
          | Err e => Some (Err e)
          end
      end
  end.

Definition reject_unrepresentable_json (body : bytes) : Result unit HttpProfileError :=
  default (Err body_json) (scan_json (S (length body)) body 0 []).

(** ** [body/mod.rs] *)

Definition META_KEY : bytes := b#"_meta".

Definition insert_meta_block `{!Serde T} (body key : bytes) (block : T) : Result bytes HttpProfileError :=
  let? root := ok_or (from_slice body) body_json in
  reject_unrepresentable_json body ;?
  let? obj := ok_or (as_object root) (HPE.MalformedEvidence b#"body not a json object") in
  let meta := default (Object ∅) (obj !! META_KEY) in
  let? meta_obj := ok_or (as_object meta) (HPE.MalformedEvidence b#"_meta not an object") in
  let? value := ok_or (to_value block) (HPE.MalformedEvidence b#"block serialize") in
  let root' := Object (<[META_KEY := Object (<[key := value]> meta_obj)]> obj) in
  ok_or (to_vec root') (HPE.MalformedEvidence b#"body reserialize").

Definition extract_meta_block `{!Serde T} (body key what : bytes) : Result T HttpProfileError :=
  let? root := ok_or (from_slice body) body_json in
  let? block := ok_or (json_get root META_KEY ≫= λ m, json_get m key) (HPE.MissingEvidence what) in
  ok_or (from_value block) (HPE.MalformedEvidence what).
End scan.

Definition authorization_bearer_bytes (headers : Headers) : option bytes :=
  match List.find (λ kv, eq_ignore_ascii_case (fst kv) b#"authorization") headers with
  | Some (_, v) => bearer_token v
  | None => None
  end.

(** ** The scan terminates *)

Lemma string_end_ge s j : (j ≤ string_end s j)%nat.
Proof.
  revert s j. fix IH 1. intros [|c s] j; simpl; [lia|].
  destruct (ascii_eqb c DQUOTE); [lia|]. destruct (ascii_eqb c BACKSLASH).
  - destruct s as [|d s]; [lia|]. specialize (IH s (j + 2)%nat). lia.
  - specialize (IH s (j + 1)%nat). lia.
Qed.

(** Every iteration moves forward. *)
Lemma scan_step_progress `{SerdeJson, F64Carrier} body i c frames i' frames' :
  body !! i = Some c → scan_step body i c frames = Ok (i', frames') → (i < i')%nat.
Proof.
  intros Hc Hs. unfold scan_step in Hs. destruct (ascii_eqb c DQUOTE).
  { unfold scan_string in Hs. pose proof (string_end_ge (drop (i + 1) body) (i + 1)) as Hge.
    inv_ok. bool_prop. repeat case_match; inv_ok; simplify_eq; lia. }
  destruct (ascii_eqb c "-" || is_ascii_digit c) eqn:En.
  { unfold scan_number in Hs. rewrite (drop_S _ _ _ Hc) in Hs. cbn [span_len] in Hs.
    assert (number_byte c = true) as Hn.
    { unfold number_byte. apply orb_true_iff in En as [->| ->]; [done|]. by rewrite !orb_true_r. }
    rewrite Hn in Hs. inv_ok. simplify_eq. revert E. repeat case_match; intros; inv_ok; lia. }
  repeat case_match; simplify_eq; lia.
Qed.

Lemma scan_json_total `{SerdeJson, F64Carrier} fuel body i frames :
  (0 < fuel)%nat → (length body < fuel + i)%nat → scan_json fuel body i frames ≠ None.
Proof.
  revert i frames. induction fuel as [|f IH]; intros i frames Hpos Hf; [lia|]. simpl.
  destruct (body !! i) as [c|] eqn:Ec; [|done].
  destruct (scan_step body i c frames) as [[i' frames']|e] eqn:Es; [|done].
  apply scan_step_progress in Es; [|done]. apply lookup_lt_Some in Ec. apply IH; lia.
Qed.

(** ** Decimal tokens are a normal form *)

(** [mantissa * 10^exponent], compared without fractions. *)
Definition dec_same (n1 e1 n2 e2 : Z) : Prop :=
  n1 * 10 ^ (e1 - Z.min e1 e2) = n2 * 10 ^ (e2 - Z.min e1 e2).

Definition signed (neg : bool) (n : Z) : Z := if neg then - n else n.
Definition token_mantissa (d : DecimalToken) : Z := signed (dt_negative d) (dec_val (dt_digits d)).

Definition digit_string (s : bytes) : Prop := Forall (λ c, is_ascii_digit c = true) s.

(** No zero at either end, and zero itself is positive with exponent zero. *)
Definition token_normal (d : DecimalToken) : Prop :=
  digit_string (dt_digits d) ∧
  match dt_digits d with
  | [] => dt_negative d = false ∧ dt_exponent d = 0
  | c :: _ => c ≠ "0"%char ∧ last (dt_digits d) ≠ Some "0"%char
  end.

Lemma drop_leading_zeros_spec ds :
  digit_string ds →
  digit_string (drop_leading_zeros ds) ∧ dec_val (drop_leading_zeros ds) = dec_val ds ∧
  match drop_leading_zeros ds with [] => True | c :: _ => c ≠ "0"%char end.
Proof.
  induction 1 as [|c ds Hc HF IH]; [by split_and!; [constructor| |]|]. simpl.
  destruct (ascii_eqb c "0") eqn:E; str_prop.
  - subst c. destruct IH as (H1 & H2 & H3). split_and!; [done|exact H2|done].
  - split_and!; [by apply Forall_cons|done|done].
Qed.

Lemma pop_trailing_zeros_spec rds e rds' e' :
  pop_trailing_zeros rds e = Some (rds', e') →
  e ≤ e' ∧ rev rds = rev rds' ++ replicate (Z.to_nat (e' - e)) "0"%char ∧
  match rds' with [] => True | c :: _ => c ≠ "0"%char end.
Proof.
  revert e. induction rds as [|c rds IH]; intros e Hp; simpl in Hp.
  - injection Hp as <- <-. split_and!; [lia| |done]. by rewrite Z.sub_diag.
  - destruct (ascii_eqb c "0") eqn:E; str_prop.
    + destruct (checked_i32 (e + 1)) as [e1|] eqn:Ec; [|done]. unfold checked_i32 in Ec.
      destruct (_ && _); [|done]. injection Ec as <-. apply IH in Hp as (Hle & Hrev & Hh).
      split_and!; [lia| |done]. simpl. rewrite Hrev, <-(assoc_L (++)). f_equal. subst c.
      replace (Z.to_nat (e' - e)) with (S (Z.to_nat (e' - (e + 1)))) by lia.
      by rewrite replicate_S_end.
    + injection Hp as <- <-. split_and!; [lia| |done]. by rewrite Z.sub_diag, app_nil_r.
Qed.

Lemma dec_val_padded s n : dec_val (s ++ replicate n "0"%char) = dec_val s * 10 ^ Z.of_nat n.
Proof.
  induction n as [|n IH]; [by rewrite app_nil_r, Z.mul_1_r|].
  rewrite replicate_S_end, (assoc_L (++)), dec_val_snoc, IH, Nat2Z.inj_succ, Z.pow_succ_r by lia.
  change (digit_val "0") with 0. lia.
Qed.

Lemma normalized_spec neg ds e d :
  digit_string ds → normalized neg ds e = Some d →
  token_normal d ∧ dec_same (signed neg (dec_val ds)) e (token_mantissa d) (dt_exponent d).
Proof.
  intros HF Hn. unfold normalized in Hn.
  destruct (drop_leading_zeros_spec ds HF) as (Hd & Hv & Hh).
  destruct (pop_trailing_zeros _ e) as [[rds e']|] eqn:Ep; [|done].
  apply pop_trailing_zeros_spec in Ep as (Hle & Hrev & Hlast). rewrite rev_involutive in Hrev.
  assert (dec_val ds = dec_val (rev rds) * 10 ^ (e' - e)) as Hval.
  { rewrite <-Hv, Hrev, dec_val_padded. f_equal. f_equal. lia. }
  destruct rds as [|c rds]; injection Hn as <-.
  - split; [by split; [constructor|]|]. unfold dec_same, token_mantissa, signed. cbn [dt_negative dt_digits dt_exponent].
    change (dec_val (rev [])) with 0 in Hval. change (dec_val []) with 0. destruct neg; nia.
  - split.
    + unfold token_normal. cbn [dt_negative dt_digits dt_exponent].
      assert (digit_string (rev (c :: rds))) as Hdig.
      { rewrite Hrev in Hd. by apply Forall_app in Hd as [? _]. }
      split; [done|]. assert (last (rev (c :: rds)) = Some c) as Hl by (simpl; apply last_snoc).
      destruct (rev (c :: rds)) as [|x r] eqn:Er; [by destruct (rev rds)|].
      change (rev rds ++ [c]) with (rev (c :: rds)). rewrite Er.
      split; [|rewrite Hl; congruence]. by rewrite Hrev in Hh.
    + unfold dec_same, token_mantissa, signed. cbn [dt_negative dt_digits dt_exponent].
      rewrite Z.min_l by done. rewrite Z.sub_diag, Z.mul_1_r, Hval.
      change (rev rds ++ [c]) with (rev (c :: rds)). destruct neg; ring.
Qed.

Lemma dec_val_last ds c : digit_string (ds ++ [c]) → c ≠ "0"%char → dec_val (ds ++ [c]) mod 10 ≠ 0.
Proof.
  intros [_ Hc]%Forall_app Hne. apply (proj1 (Forall_singleton _ _)) in Hc.
  rewrite dec_val_snoc. pose proof (digit_val_range c Hc).
  rewrite Z.add_comm, Z.mul_comm, Z.mod_add, Z.mod_small by lia.
  intros H0. apply Hne. by rewrite <-(digit_char_val c Hc), H0.
Qed.

(** Numbers that do not end in a zero are determined by their value. *)
Lemma dec_same_inj n1 e1 n2 e2 :
  n1 mod 10 ≠ 0 → n2 mod 10 ≠ 0 → dec_same n1 e1 n2 e2 → n1 = n2 ∧ e1 = e2.
Proof.
  intros H1 H2 Hs. unfold dec_same in Hs.
  assert (∀ n k, 0 < k → (n * 10 ^ k) mod 10 = 0) as Hz.
  { intros n k Hk. replace k with (Z.succ (k - 1)) by lia. rewrite Z.pow_succ_r by lia.
    replace (n * (10 * 10 ^ (k - 1))) with (n * 10 ^ (k - 1) * 10) by ring. by apply Z.mod_mul. }
  destruct (Z.lt_trichotomy e1 e2) as [Hlt|[->|Hlt]].
  - exfalso. rewrite Z.min_l, Z.sub_diag, Z.mul_1_r in Hs by lia. apply H1. rewrite Hs. apply Hz. lia.
  - rewrite Z.min_id, Z.sub_diag in Hs. lia.
  - exfalso. rewrite Z.min_r, Z.sub_diag, Z.mul_1_r in Hs by lia. apply H2. rewrite <-Hs. apply Hz. lia.
Qed.

Lemma token_mantissa_mod d :
  token_normal d → dt_digits d ≠ [] → token_mantissa d mod 10 ≠ 0.
Proof.
  intros [Hd Hn] Hne. destruct (exists_last Hne) as (r & c & Hr).
  assert (c ≠ "0"%char) as Hc.
  { destruct (dt_digits d) as [|x xs] eqn:E; [done|]. destruct Hn as [_ Hl].
    rewrite Hr, last_snoc in Hl. congruence. }
  rewrite Hr in Hd. pose proof (dec_val_last r c Hd Hc) as Hm. unfold token_mantissa, signed.
  rewrite Hr. destruct (dt_negative d); [|done]. intros H0. apply Hm.
  revert H0. generalize (dec_val (r ++ [c])). clear. intros z. Z.to_euclidean_division_equations. lia.
Qed.

Lemma dec_val_inj s t :
  digit_string s → digit_string t → s ≠ [] → t ≠ [] →
  (∀ c r, s = c :: r → c ≠ "0"%char) → (∀ c r, t = c :: r → c ≠ "0"%char) →
  dec_val s = dec_val t → s = t.
Proof.
  intros Hs Ht Hs0 Ht0 Hs1 Ht1 Heq.
  rewrite <-(fmt_nat_dec_val s), <-(fmt_nat_dec_val t), Heq; try done; right.
  - destruct t as [|c r]; [done|]. eauto.
  - destruct s as [|c r]; [done|]. eauto.
Qed.

Lemma token_same d1 d2 :
  token_normal d1 → token_normal d2 →
  dec_same (token_mantissa d1) (dt_exponent d1) (token_mantissa d2) (dt_exponent d2) → d1 = d2.
Proof.
  intros Hn1 Hn2 Hs.
  assert (∀ d, token_normal d → dt_digits d ≠ [] → 0 < dec_val (dt_digits d)) as Hpos.
  { intros d [Hd Hn] Hne. destruct (dt_digits d) as [|c r] eqn:E; [done|].
    apply dec_val_pos; [done|]. by destruct Hn. }
  assert (∀ d d', token_normal d → token_normal d' → dt_digits d = [] →
    dec_same (token_mantissa d) (dt_exponent d) (token_mantissa d') (dt_exponent d') →
    dt_digits d' = []) as Hzero.
  { intros d d' Hn Hn' Hd Hds. destruct (decide (dt_digits d' = [])) as [|Hne]; [done|].
    exfalso. specialize (Hpos d' Hn' Hne). revert Hds. unfold dec_same, token_mantissa, signed.
    rewrite Hd. change (dec_val []) with 0.
    pose proof (Z.pow_pos_nonneg 10 (dt_exponent d' - Z.min (dt_exponent d) (dt_exponent d'))).
    destruct (dt_negative d), (dt_negative d'); nia. }
  assert (dec_same (token_mantissa d2) (dt_exponent d2) (token_mantissa d1) (dt_exponent d1)) as Hs'.
  { unfold dec_same in *. by rewrite (Z.min_comm (dt_exponent d2)). }
  destruct (decide (dt_digits d1 = [])) as [E1|E1].
  - specialize (Hzero d1 d2 Hn1 Hn2 E1 Hs). destruct Hn1 as [_ Hn1], Hn2 as [_ Hn2].
    rewrite E1 in Hn1. rewrite Hzero in Hn2. destruct d1, d2; simpl in *. naive_solver.
  - destruct (decide (dt_digits d2 = [])) as [E2|E2].
    { by specialize (Hzero d2 d1 Hn2 Hn1 E2 Hs'). }
    apply dec_same_inj in Hs as [Hm He]; [|by apply token_mantissa_mod..].
    pose proof (Hpos d1 Hn1 E1). pose proof (Hpos d2 Hn2 E2). unfold token_mantissa, signed in Hm.
    assert (dt_negative d1 = dt_negative d2 ∧ dec_val (dt_digits d1) = dec_val (dt_digits d2))
      as [Hneg Hval] by (destruct (dt_negative d1), (dt_negative d2); lia).
    apply dec_val_inj in Hval; [destruct d1, d2; simpl in *; congruence|apply Hn1|apply Hn2|done|done| |];
      intros c r Hcr; [destruct Hn1 as [_ Hn]|destruct Hn2 as [_ Hn]]; rewrite Hcr in Hn; apply Hn.
Qed.

(** The reading of a decimal text before normalization: sign, digits, exponent. *)
Definition decimal_parts (text : bytes) : option (bool * bytes * Z) :=
  let '(negative, unsigned) :=
    match strip_prefix b#"-" text with
    | Some rest => (true, rest)
    | None => (false, default text (strip_prefix b#"+" text))
    end in
  let '(significand, exponent_text) :=
    match split_once_exponent unsigned with
    | Some (s, e) => (s, Some e)
    | None => (unsigned, None)
    end in
  match (match exponent_text with Some t => str_parse_i32 t | None => Some 0 end) with
  | None => None
  | Some exponent =>
      let '(integer, fraction) := default (significand, []) (split_once_char "." significand) in
      if bytes_eqb integer [] && bytes_eqb fraction [] then None
      else if negb (forallb is_ascii_digit (integer ++ fraction)) then None
      else Some (negative, integer ++ fraction, exponent - Z.of_nat (length fraction))
  end.

Lemma DecimalToken_parse_parts text d :
  DecimalToken_parse text = Some d →
  ∃ neg ds e, decimal_parts text = Some (neg, ds, e) ∧ digit_string ds ∧ normalized neg ds e = Some d.
Proof.
  unfold DecimalToken_parse, decimal_parts.
  destruct (match strip_prefix b#"-" text with Some _ => _ | None => _ end) as [neg unsigned].
  destruct (match split_once_exponent unsigned with Some _ => _ | None => _ end) as [sig et].
  destruct (match et with Some t => str_parse_i32 t | None => Some 0 end) as [ex|]; [|done].
  destruct (default (sig, []) (split_once_char "." sig)) as [i f].
  destruct (bytes_eqb i [] && bytes_eqb f []); [done|].
  destruct (forallb is_ascii_digit (i ++ f)) eqn:Ed; [|done]. simpl.
  unfold checked_i32 at 1. destruct (_ && _); [|done].
  unfold checked_i32. destruct (_ && _); [|done]. intros Hn. eexists _, _, _.
  split; [done|]. split; [by apply forallb_Forall|done].
Qed.

(** ** Properties *)

(** Decimal tokens compare numbers, not spellings. Two decimal texts that parse have the
    same token if and only if they denote the same number [digits * 10^exponent]. *)
Lemma decimal_token_decides_value t1 t2 d1 d2 n1 ds1 e1 n2 ds2 e2 :
  DecimalToken_parse t1 = Some d1 → DecimalToken_parse t2 = Some d2 →
  decimal_parts t1 = Some (n1, ds1, e1) → decimal_parts t2 = Some (n2, ds2, e2) →
  d1 = d2 ↔ dec_same (signed n1 (dec_val ds1)) e1 (signed n2 (dec_val ds2)) e2.
Proof.
  intros (? & ? & ? & Hp1 & Hd1 & Hn1)%DecimalToken_parse_parts
         (? & ? & ? & Hp2 & Hd2 & Hn2)%DecimalToken_parse_parts E1 E2.
  rewrite Hp1 in E1. rewrite Hp2 in E2. simplify_eq.
  apply normalized_spec in Hn1 as [N1 S1]; [|done]. apply normalized_spec in Hn2 as [N2 S2]; [|done].
  assert (∀ a ea b eb c ec, dec_same a ea b eb → dec_same b eb c ec → dec_same a ea c ec) as Htrans.
  { intros a ea b eb c ec Hab Hbc. unfold dec_same in *.
    set (m := Z.min ea (Z.min eb ec)).
    assert (∀ x e y f, x * 10 ^ (e - Z.min e f) = y * 10 ^ (f - Z.min e f) → m ≤ Z.min e f →
              x * 10 ^ (e - m) = y * 10 ^ (f - m)) as Hdown.
    { intros x e y f Heq Hm.
      replace (e - m) with ((e - Z.min e f) + (Z.min e f - m)) by lia.
      replace (f - m) with ((f - Z.min e f) + (Z.min e f - m)) by lia.
      rewrite !Z.pow_add_r, !Z.mul_assoc by lia. by rewrite Heq. }
    apply Hdown in Hab; [|lia]. apply Hdown in Hbc; [|lia]. rewrite Hbc in Hab.
    replace (ea - m) with ((ea - Z.min ea ec) + (Z.min ea ec - m)) in Hab by lia.
    replace (ec - m) with ((ec - Z.min ea ec) + (Z.min ea ec - m)) in Hab by lia.
    rewrite !Z.pow_add_r, !Z.mul_assoc in Hab by lia.
    apply Z.mul_cancel_r in Hab; [done|]. apply Z.pow_nonzero; lia. }
  assert (∀ a ea b eb, dec_same a ea b eb → dec_same b eb a ea) as Hsym.
  { intros a ea b eb Hab. unfold dec_same in *. by rewrite (Z.min_comm eb ea). }
  split.
  - intros <-. eauto.
  - intros Hs. apply token_same; [done..|]. eauto.
Qed.

(** Extraction undoes composition. *)
Lemma extract_inserted `{SerdeJsonLaws, F64Carrier, !Serde T, !SerdeLaws (T := T)}
    body key what (block : T) body' :
  insert_meta_block body key block = Ok body' → extract_meta_block body' key what = Ok block.
Proof.
  unfold insert_meta_block, extract_meta_block. intros Hi. inv_ok.
  apply from_slice_to_vec in Hi. rewrite Hi. simpl. unfold json_get.
  rewrite as_object_Object, lookup_insert_eq. simpl. rewrite as_object_Object, lookup_insert_eq. simpl.
  by rewrite (from_value_to_value _ _ E3).
Qed.

(** C40: the representability scan always answers. With one iteration per byte and one more,
    the scan reaches the end of the body or an error: every iteration moves the cursor. *)
Theorem representability_scan_terminates `{SerdeJson, F64Carrier} body :
  ∃ r, scan_json (S (length body)) body 0 [] = Some r ∧ reject_unrepresentable_json body = r.
Proof.
  unfold reject_unrepresentable_json.
  pose proof (scan_json_total (S (length body)) body 0 [] ltac:(lia) ltac:(lia)) as Hne.
  destruct (scan_json _ _ _ _) as [r|]; [|done]. by exists r.
Qed.
