(* ===== verification/Floor.v ===== *)
(** * [mcp-re-http-profile/src/verify/floor]: the cryptographic floor

    [signature.rs], [components.rs], [transport_headers.rs], [trust_slot.rs], [request.rs],
    [response.rs] and [verify/bound_request.rs]: the checks every message passes before
    anything of it is believed. The trust resolver is the caller's function. *)

From S2P Require Import Prelude.
From S2P Require Import RustStr.
From S2P Require Import Externals.
From S2P Require Import CoreError.
From S2P Require Import CoreResolver.
From S2P Require Import HttpMessage.
From S2P Require Import SigBase.
From S2P Require Import SigInput.
From S2P Require Import SigCanonical.
From S2P Require Import Policy.
From S2P Require Import Blocks.

(** ** [components.rs] and [transport_headers.rs] *)

Definition MCP_COVERABLE_TRANSPORT_HEADERS : list bytes :=
  [MCP_METHOD_HEADER; MCP_NAME_HEADER; MCP_PROTOCOL_VERSION_HEADER].

Definition covers (covered : list CoveredComponent) (req : bool) (name : bytes) : bool :=
  existsb (λ c, Bool.eqb (cc_req c) req && bytes_eqb (cc_name c) name) covered.

Definition require_components (covered : list CoveredComponent) (required_plain required_req : list bytes)
  : Result unit HttpProfileError :=
  for_each (λ name, if negb (covers covered false name)
                    then Err (HPE.MissingCoveredComponent name) else Ok tt) required_plain ;?
  for_each (λ name, if negb (covers covered true name)
                    then Err (HPE.MissingCoveredComponent name) else Ok tt) required_req.

Definition conditionally_covered_request_headers : list bytes :=
  [b#"authorization"; b#"dpop"] ++ MCP_COVERABLE_TRANSPORT_HEADERS.

Definition require_conditional_coverage (headers : Headers) (covered : list CoveredComponent)
  : Result unit HttpProfileError :=
  for_each (λ header,
    let? o := single_header headers header in
    if is_some o && negb (covers covered false header)
    then Err (HPE.MissingCoveredComponent header) else Ok tt)
    conditionally_covered_request_headers.

Definition reject_mcp_method_divergence `{SerdeJson} (request : HttpRequest)
  : Result unit HttpProfileError :=
  let? o := single_header (req_headers request) MCP_METHOD_HEADER in
  match o with
  | None => Ok tt
  | Some header_method =>
      let? body := ok_or (from_slice (req_body request)) (HPE.MalformedEvidence b#"body json") in
      match json_get body b#"method" ≫= as_str with
      | None => Err HPE.McpMethodDivergence
      | Some body_method =>
          if negb (bytes_eqb (trim header_method) body_method)
          then Err HPE.McpMethodDivergence else Ok tt
      end
  end.

Section floor.
Context `{Base64, Sha2, Ed25519, SerdeJson}.

(** ** [trust_slot.rs] and [signature.rs] *)

Definition actor_resolver : Type := bytes → SignerSlot → ResolverOutcome.

Definition resolve_actor_for_slot (resolve_actor : actor_resolver) (key_id : bytes) (slot : SignerSlot)
  : Result ResolvedActor HttpProfileError :=
  match resolve_actor key_id slot with
  | Resolved actor =>
      if negb (bool_decide (ra_slot actor = slot)) then Err HPE.ActorSlotMismatch else Ok actor
  | NotTrusted => Err HPE.UnresolvedKeyId
  | ResolverUnavailable => Err HPE.TrustResolverUnavailable
  end.

Definition verify_under (algorithm : ProfileAlgorithm) (base sig : bytes) (key : VerificationKey)
    (on_fail : McpReError) : Result unit HttpProfileError :=
  let failure := match on_fail with
                 | ResponseSigInvalid => HPE.ResponseSignatureInvalid
                 | _ => HPE.InvalidSignature
                 end in
  match algorithm with
  | Ed25519Alg => map_err (λ _, failure) (verify_ed25519_with base sig key on_fail)
  end.

Definition base64_standard_encode (b : bytes) : bytes := std_encode b.
Definition base64_standard_decode (s : bytes) : Result bytes HttpProfileError :=
  ok_or (std_decode s) HPE.InvalidSignature.

(** [s.strip_prefix(':').and_then(|s| s.strip_suffix(':'))]. *)
Definition byte_sequence (s : bytes) : option bytes :=
  match strip_prefix b#":" s with Some r => strip_suffix b#":" r | None => None end.

Definition signature_value_b64url (headers : Headers) (header_error label : bytes)
  : Result bytes HttpProfileError :=
  let? signature_header := map_err (λ _, HPE.MissingEvidence header_error)
                             (required_header headers b#"signature") in
  let? member := member_value signature_header label in
  let? b64 := ok_or (byte_sequence member) (HPE.MalformedEvidence b#"signature byte sequence") in
  let? b := base64_standard_decode b64 in
  Ok (b64url_encode b).

(** ** [verified_request/floor.rs], [verified_response/] *)

Record CryptographicFloorVerifiedRequest := {
  fr_profile_id : bytes;
  fr_signature_label : bytes;
  fr_resolved_actor : ResolvedActor;
  fr_evidence : RequestEvidence;
  fr_request_signature_base : bytes;
  fr_content_digest : bytes;
  fr_created : Z;
  fr_expires : Z;
  fr_nonce : bytes;
  fr_key_id : bytes;
}.

Definition covers_body (v : CryptographicFloorVerifiedRequest) (body : bytes) : bool :=
  is_ok (verify_content_digest_sha256 (fr_content_digest v) body).

Record CryptographicFloorVerifiedBoundResponse := {
  fb_resolved_server_actor : ResolvedActor;
  fb_response_signature_base_digest : RequestEvidence;
}.

Record CryptographicFloorVerifiedUnboundResponse := {
  fu_resolved_server_actor : ResolvedActor;
  fu_response_signature_base_digest : RequestEvidence;
}.

(** ** [request.rs] *)

Definition floor_request (request : HttpRequest) (resolve_actor : actor_resolver)
    (policy : VerifierPolicy) (now : Z) : Result CryptographicFloorVerifiedRequest HttpProfileError :=
  reject_content_encoding (req_headers request) ;?
  require_json_media_type (req_headers request) b#"request content-type" ;?
  let? digest_header := required_header (req_headers request) b#"content-digest" in
  verify_content_digest_sha256 digest_header (req_body request) ;?
  let? input_header := required_header (req_headers request) b#"signature-input" in
  let? member := member_value input_header REQUEST_LABEL in
  let? parsed := parse_signature_input member in
  require_components (psi_components parsed) REQUIRED_REQUEST_COMPONENTS [] ;?
  if existsb cc_req (psi_components parsed)
  then Err (HPE.MalformedEvidence b#"req component on a request")
  else
    require_conditional_coverage (req_headers request) (psi_components parsed) ;?
    let? (created, expires, nonce, key_id, algorithm) :=
      check_params (psi_params parsed) policy now true in
    let? resolved_actor := resolve_actor_for_slot resolve_actor key_id SlotRequest in
    let? base := signature_base (psi_components parsed) (psi_params parsed) (SourceRequest request) in
    let? sig := signature_value_b64url (req_headers request) b#"signature" REQUEST_LABEL in
    verify_under algorithm base sig (ra_verification_key resolved_actor) InvalidSignature ;?
    reject_mcp_method_divergence request ;?
    match vp_mcp_transport policy with Some t => enforce t request | None => Ok tt end ;?
    Ok {| fr_profile_id := PROFILE_TAG; fr_signature_label := REQUEST_LABEL;
          fr_resolved_actor := resolved_actor; fr_evidence := from_signature_base base;
          fr_request_signature_base := base; fr_content_digest := digest_header;
          fr_created := created; fr_expires := expires; fr_nonce := nonce; fr_key_id := key_id |}.

(** ** [response.rs] *)

Definition floor_bound_response (response : HttpResponse) (request : HttpRequest)
    (resolve_actor : actor_resolver) (policy : VerifierPolicy) (now : Z)
  : Result CryptographicFloorVerifiedBoundResponse HttpProfileError :=
  reject_content_encoding (resp_headers response) ;?
  require_json_media_type (resp_headers response) b#"response content-type" ;?
  let? digest_header := map_err (λ _, HPE.MissingEvidence b#"response content-digest")
                          (required_header (resp_headers response) b#"content-digest") in
  verify_content_digest_sha256 digest_header (resp_body response) ;?
  let? input_header := map_err (λ _, HPE.MissingEvidence b#"response signature-input")
                         (required_header (resp_headers response) b#"signature-input") in
  let? member := member_value input_header RESPONSE_LABEL in
  let? parsed := parse_signature_input member in
  require_components (psi_components parsed) REQUIRED_RESPONSE_COMPONENTS
    REQUIRED_RESPONSE_REQ_COMPONENTS ;?
  let? (_, _, _, key_id, algorithm) := check_params (psi_params parsed) policy now false in
  let? actor := resolve_actor_for_slot resolve_actor key_id SlotResponse in
  let? base := signature_base (psi_components parsed) (psi_params parsed)
                 (SourceResponse response request) in
  let? sig := signature_value_b64url (resp_headers response) b#"response signature" RESPONSE_LABEL in
  verify_under algorithm base sig (ra_verification_key actor) ResponseSigInvalid ;?
  Ok {| fb_resolved_server_actor := actor;
        fb_response_signature_base_digest := from_response_signature_base base |}.

Definition floor_unbound_response (response : HttpResponse)
    (resolve_actor : actor_resolver) (policy : VerifierPolicy) (now : Z)
  : Result CryptographicFloorVerifiedUnboundResponse HttpProfileError :=
  reject_content_encoding (resp_headers response) ;?
  require_json_media_type (resp_headers response) b#"response content-type" ;?
  let? digest_header := map_err (λ _, HPE.MissingEvidence b#"response content-digest")
                          (required_header (resp_headers response) b#"content-digest") in
  verify_content_digest_sha256 digest_header (resp_body response) ;?
  let? input_header := map_err (λ _, HPE.MissingEvidence b#"response signature-input")
                         (required_header (resp_headers response) b#"signature-input") in
  let? member := member_value input_header RESPONSE_LABEL in
  let? parsed := parse_signature_input member in
  require_components (psi_components parsed) REQUIRED_RESPONSE_COMPONENTS [] ;?
  if existsb cc_req (psi_components parsed)
  then Err (HPE.MalformedEvidence b#"req component without request context")
  else
    let? (_, _, _, key_id, algorithm) := check_params (psi_params parsed) policy now false in
    let? actor := resolve_actor_for_slot resolve_actor key_id SlotResponse in
    let? base := signature_base (psi_components parsed) (psi_params parsed)
                   (SourceResponseOnly response) in
    let? sig := signature_value_b64url (resp_headers response) b#"response signature" RESPONSE_LABEL in
    verify_under algorithm base sig (ra_verification_key actor) ResponseSigInvalid ;?
    Ok {| fu_resolved_server_actor := actor;
          fu_response_signature_base_digest := from_response_signature_base base |}.

(** ** [verify/bound_request.rs] *)

Definition request_evidence_of (request : HttpRequest) : Result RequestEvidence HttpProfileError :=
  let? input_header := map_err (λ _, HPE.MissingEvidence b#"request signature-input")
                         (required_header (req_headers request) b#"signature-input") in
  let? member := member_value input_header REQUEST_LABEL in
  let? parsed := parse_signature_input member in
  let? base := signature_base (psi_components parsed) (psi_params parsed) (SourceRequest request) in
  Ok (from_signature_base base).
End floor.

(** ** Lemmas on coverage *)

Lemma covers_spec cs r n :
  covers cs r n = true ↔ {| cc_name := n; cc_req := r |} ∈ cs.
Proof.
  unfold covers. rewrite existsb_elem. split.
  - intros (c & Hc & [Hr%eqb_prop Hn%bytes_eqb_true]%andb_true_iff). destruct c. by simplify_eq/=.
  - intros Hc. eexists. split; [exact Hc|]. simpl. by rewrite eqb_reflx, bytes_eqb_refl.
Qed.

Lemma require_components_Ok cs plain reqs u :
  require_components cs plain reqs = Ok u ↔
    Forall (λ n, component_new n ∈ cs) plain ∧ Forall (λ n, component_req n ∈ cs) reqs.
Proof.
  destruct u. unfold require_components. assert (∀ r l, for_each (λ name,
    if negb (covers cs r name) then Err (HPE.MissingCoveredComponent name) else Ok tt) l = Ok tt ↔
    Forall (λ n, {| cc_name := n; cc_req := r |} ∈ cs) l) as Hl.
  { intros r l. rewrite for_each_Ok. apply Forall_proper; [|done]. intros n.
    rewrite <-covers_spec. destruct (covers cs r n); naive_solver. }
  split.
  - intros Hr. inv_ok. destruct v. split; [by apply (Hl false)|by apply (Hl true)].
  - intros [H1 H2]. rewrite (proj2 (Hl false plain) H1). by apply (Hl true).
Qed.

Lemma require_conditional_coverage_Ok headers cs u :
  require_conditional_coverage headers cs = Ok u →
  ∀ n, n ∈ conditionally_covered_request_headers →
    (∃ kv, filter (header_named n) headers = [kv] ∧ component_new n ∈ cs)
    ∨ filter (header_named n) headers = [].
Proof.
  intros Hc%for_each_unit n Hn. rewrite Forall_forall in Hc. specialize (Hc n Hn).
  rewrite single_header_filter in Hc. destruct (filter _ headers) as [|kv [|? ?]]; [by right| |done].
  left. exists kv. split; [done|]. inv_ok. simpl in *.
  destruct (covers cs false n) eqn:Ec; [|done]. by apply covers_spec in Ec.
Qed.

Lemma verify_under_Ok `{Base64, Ed25519} alg base sig key e u :
  verify_under alg base sig key e = Ok u ↔ verify_ed25519_with base sig key e = Ok tt.
Proof. destruct u, alg. simpl. rewrite map_err_Ok. done. Qed.

Lemma signature_value_Ok `{Base64Laws} headers he label s :
  signature_value_b64url headers he label = Ok s →
  ∃ b, s = url_encode b.
Proof. unfold signature_value_b64url, b64url_encode. intros Hs. inv_ok. eauto. Qed.

(** ** Properties *)

(** C2: an accepted request was signed. When the floor accepts a request, then its body has
    the digest its header carries; the signature base it was checked over covers method,
    target, digest, content type and every security header present, and contains no response
    component; the base is the one the evidence handle is derived from; the parameters are
    fresh under the policy; the trust resolver returned an actor for the request slot under
    the key id of the parameters; and a 64-byte signature verifies strictly over exactly that
    base under that actor's key. *)
Theorem floor_request_sound `{Base64Laws, Sha2, Ed25519, SerdeJson} request resolve_actor policy now v :
  floor_request request resolve_actor policy now = Ok v →
  ∃ cs p alg sig,
    verify_content_digest_sha256 (fr_content_digest v) (req_body request) = Ok tt ∧
    required_header (req_headers request) b#"content-digest" = Ok (fr_content_digest v) ∧
    signature_base cs p (SourceRequest request) = Ok (fr_request_signature_base v) ∧
    fr_evidence v = from_signature_base (fr_request_signature_base v) ∧
    Forall (λ n, component_new n ∈ cs) REQUIRED_REQUEST_COMPONENTS ∧
    Forall (λ c, cc_req c = false) cs ∧
    (∀ n, n ∈ conditionally_covered_request_headers →
       filter (header_named n) (req_headers request) = [] ∨ component_new n ∈ cs) ∧
    check_params p policy now true =
      Ok (fr_created v, fr_expires v, fr_nonce v, fr_key_id v, alg) ∧
    resolve_actor (fr_key_id v) SlotRequest = Resolved (fr_resolved_actor v) ∧
    ra_slot (fr_resolved_actor v) = SlotRequest ∧
    length sig = SIGNATURE_LEN ∧
    verify_strict (vk_inner (ra_verification_key (fr_resolved_actor v)))
      (fr_request_signature_base v) sig = true.
Proof.
  intros Hf. unfold floor_request in Hf. inv_ok. simpl. rename E6 into Hreq, E8 into Hcond, E9 into Hp, E10 into Hres, E11 into Hbase,
    E12 into Hsig, E13 into Hver. repeat match goal with u : unit |- _ => destruct u end.
  apply require_components_Ok in Hreq as [Hreq _].
  apply signature_value_Ok in Hsig as [b ->]. apply verify_under_Ok in Hver.
  apply verify_ed25519_with_Ok in Hver as (sig & Hdec & Hlen & Hstrict).
  unfold resolve_actor_for_slot in Hres. destruct (resolve_actor _ SlotRequest) eqn:Era; inv_ok.
  bool_prop. eexists _, _, _, sig. split_and!; try done.
  - apply Forall_forall. intros c Hc. destruct (cc_req c) eqn:Ec; [|done]. exfalso.
    rewrite <-not_true_iff_false in E7. apply E7, existsb_elem. eauto.
  - intros n Hn. destruct (require_conditional_coverage_Ok _ _ _ Hcond n Hn) as [(? & _ & ?)|?]; auto.
Qed.
