(* ===== verification/Sign.v ===== *)
(** * [mcp-re-http-profile/src/sign.rs]: signing requests and responses

    The signer mutates the message it is given, also when it fails half way; every
    operation returns the message it leaves behind with its result. *)

From S2P Require Import Prelude.
From S2P Require Import RustStr.
From S2P Require Import Externals.
From S2P Require Import Concrete.
From S2P Require Import CoreError.
From S2P Require Import CoreResolver.
From S2P Require Import HttpMessage.
From S2P Require Import SigBase.
From S2P Require Import SigInput.
From S2P Require Import SigCanonical.
From S2P Require Import Policy.
From S2P Require Import Blocks.
From S2P Require Import Body.
From S2P Require Import Floor.

Definition set_header (headers : Headers) (name value : bytes) : Headers :=
  List.filter (λ kv, negb (eq_ignore_ascii_case (fst kv) name)) headers ++ [(name, value)].

Definition with_req_headers (r : HttpRequest) (hs : Headers) : HttpRequest :=
  {| req_method := req_method r; req_target_uri := req_target_uri r; req_headers := hs;
     req_body := req_body r |}.
Definition with_req_body (r : HttpRequest) (b : bytes) : HttpRequest :=
  {| req_method := req_method r; req_target_uri := req_target_uri r;
     req_headers := req_headers r; req_body := b |}.
Definition with_resp_headers (r : HttpResponse) (hs : Headers) : HttpResponse :=
  {| resp_status := resp_status r; resp_headers := hs; resp_body := resp_body r |}.
Definition with_resp_body (r : HttpResponse) (b : bytes) : HttpResponse :=
  {| resp_status := resp_status r; resp_headers := resp_headers r; resp_body := b |}.

Section sign.
Context `{Base64, Sha2, Ed25519}.

Definition ED25519_SIGNATURE_LEN : nat := 64.

(** An external signer: the raw signature bytes of a base. *)
Definition base_signer : Type := bytes → Result bytes HttpProfileError.

Definition emit_signature (headers : Headers) (label : bytes) (components : list CoveredComponent)
    (params : SignatureParams) (base : bytes) (sign_base : base_signer)
  : Headers * Result unit HttpProfileError :=
  match sign_base base with
  | Err e => (headers, Err e)
  | Ok sig_bytes =>
      if negb (bool_decide (length sig_bytes = ED25519_SIGNATURE_LEN))
      then (headers, Err HPE.InvalidSignature)
      else match serialize_with params components with
           | Err e => (headers, Err e)
           | Ok s =>
               let headers1 := set_header headers b#"Signature-Input" (label ++ b#"=" ++ s) in
               (set_header headers1 b#"Signature"
                  (label ++ b#"=" ++ b#":" ++ base64_standard_encode sig_bytes ++ b#":"),
                Ok tt)
           end
  end.

Definition local_sig (key : SigningKey) : base_signer := λ base,
  map_err (λ _, HPE.InvalidSignature) (b64url_decode (SigningKey_sign key base)).

Fixpoint present_components (headers : Headers) (names : list bytes)
  : Result (list CoveredComponent) HttpProfileError :=
  match names with
  | [] => Ok []
  | n :: rest =>
      let? o := single_header headers n in
      let? cs := present_components headers rest in
      Ok (if is_some o then component_new n :: cs else cs)
  end.
Definition conditional_request_components (headers : Headers)
  : Result (list CoveredComponent) HttpProfileError :=
  present_components headers conditionally_covered_request_headers.

Definition request_components (request : HttpRequest) : Result (list CoveredComponent) HttpProfileError :=
  let? cond := conditional_request_components (req_headers request) in
  Ok (map component_new REQUIRED_REQUEST_COMPONENTS ++ cond).

Definition request_params (key_id : bytes) (created expires : Z) (nonce : bytes) : SignatureParams :=
  {| p_created := Some created; p_expires := Some expires; p_nonce := Some nonce;
     p_keyid := Some key_id; p_alg := Some ALG_ED25519; p_tag := Some PROFILE_TAG |}.

Definition sign_request_with_signer (request : HttpRequest) (sign_base : base_signer)
    (key_id : bytes) (created expires : Z) (nonce : bytes)
  : HttpRequest * Result RequestEvidence HttpProfileError :=
  match reject_content_encoding (req_headers request) with
  | Err e => (request, Err e)
  | Ok _ =>
      let request1 := with_req_headers request
        (set_header (req_headers request) b#"Content-Digest" (content_digest_sha256 (req_body request))) in
      let params := request_params key_id created expires nonce in
      match (let? components := request_components request1 in
             let? base := signature_base components params (SourceRequest request1) in
             Ok (components, base)) with
      | Err e => (request1, Err e)
      | Ok (components, base) =>
          let '(headers, r) := emit_signature (req_headers request1) REQUEST_LABEL components params
                                 base sign_base in
          (with_req_headers request1 headers, (r ;? Ok (from_signature_base base)))
      end
  end.

Definition sign_request (request : HttpRequest) (key : SigningKey) (key_id : bytes)
    (created expires : Z) (nonce : bytes) : HttpRequest * Result RequestEvidence HttpProfileError :=
  sign_request_with_signer request (local_sig key) key_id created expires nonce.

Definition response_params (key_id : bytes) (created expires : Z) : SignatureParams :=
  {| p_created := Some created; p_expires := Some expires; p_nonce := None;
     p_keyid := Some key_id; p_alg := Some ALG_ED25519; p_tag := Some PROFILE_TAG |}.

Definition bound_response_components : list CoveredComponent :=
  map component_new REQUIRED_RESPONSE_COMPONENTS ++ map component_req REQUIRED_RESPONSE_REQ_COMPONENTS.

Definition sign_response_with_signer (response : HttpResponse) (request : HttpRequest)
    (sign_base : base_signer) (key_id : bytes) (created expires : Z)
  : HttpResponse * Result bytes HttpProfileError :=
  match reject_content_encoding (resp_headers response) with
  | Err e => (response, Err e)
  | Ok _ =>
      let response1 := with_resp_headers response
        (set_header (resp_headers response) b#"Content-Digest" (content_digest_sha256 (resp_body response))) in
      let components := bound_response_components in
      let params := response_params key_id created expires in
      match signature_base components params (SourceResponse response1 request) with
      | Err e => (response1, Err e)
      | Ok base =>
          let '(headers, r) := emit_signature (resp_headers response1) RESPONSE_LABEL components
                                 params base sign_base in
          (with_resp_headers response1 headers, (r ;? Ok base))
      end
  end.

Definition sign_response_unbound (response : HttpResponse) (key : SigningKey) (key_id : bytes)
    (created expires : Z) : HttpResponse * Result unit HttpProfileError :=
  match reject_content_encoding (resp_headers response) with
  | Err e => (response, Err e)
  | Ok _ =>
      let response1 := with_resp_headers response
        (set_header (resp_headers response) b#"Content-Digest" (content_digest_sha256 (resp_body response))) in
      let components := map component_new REQUIRED_RESPONSE_COMPONENTS in
      let params := response_params key_id created expires in
      match signature_base components params (SourceResponseOnly response1) with
      | Err e => (response1, Err e)
      | Ok base =>
          let '(headers, r) := emit_signature (resp_headers response1) RESPONSE_LABEL components
                                 params base (local_sig key) in
          (with_resp_headers response1 headers, r)
      end
  end.
End sign.

(** *** Signing with an evidence block in the body *)
Section sign_full.
Context `{Base64, Sha2, Ed25519, SerdeJson, F64Carrier}.
Context `{!Serde HttpRequestEvidenceBlock, !Serde HttpResponseEvidenceBlock}.

Definition sign_request_full_with_signer (request : HttpRequest) (block : HttpRequestEvidenceBlock)
    (sign_base : base_signer) (key_id : bytes) (created expires : Z) (nonce : bytes)
  : HttpRequest * Result RequestEvidence HttpProfileError :=
  match insert_meta_block (req_body request) REQUEST_EVIDENCE_BLOCK_KEY block with
  | Err e => (request, Err e)
  | Ok body => sign_request_with_signer (with_req_body request body) sign_base key_id created expires nonce
  end.

Definition sign_request_full (request : HttpRequest) (block : HttpRequestEvidenceBlock)
    (key : SigningKey) (key_id : bytes) (created expires : Z) (nonce : bytes)
  : HttpRequest * Result RequestEvidence HttpProfileError :=
  match insert_meta_block (req_body request) REQUEST_EVIDENCE_BLOCK_KEY block with
  | Err e => (request, Err e)
  | Ok body => sign_request (with_req_body request body) key key_id created expires nonce
  end.

Definition response_block (server_signer : ActorIdentity) (server_delegation : bytes)
    (request_evidence : RequestEvidence) : HttpResponseEvidenceBlock :=
  {| sb_profile := PROFILE_TAG; sb_server_signer := server_signer;
     sb_server_delegation := Some server_delegation; sb_request_evidence := request_evidence |}.

Definition sign_delegated_response_full (response : HttpResponse) (request : HttpRequest)
    (request_evidence : RequestEvidence) (server_signer : ActorIdentity) (server_delegation : bytes)
    (delegated_key : SigningKey) (delegated_kid : bytes) (created expires : Z)
  : HttpResponse * Result bytes HttpProfileError :=
  match insert_meta_block (resp_body response) RESPONSE_EVIDENCE_BLOCK_KEY
          (response_block server_signer server_delegation request_evidence) with
  | Err e => (response, Err e)
  | Ok body => sign_response_with_signer (with_resp_body response body) request
                 (local_sig delegated_key) delegated_kid created expires
  end.

Definition sign_delegated_response_unbound (response : HttpResponse) (server_signer : ActorIdentity)
    (server_delegation : bytes) (request_evidence_diagnostic : RequestEvidence)
    (delegated_key : SigningKey) (delegated_kid : bytes) (created expires : Z)
  : HttpResponse * Result unit HttpProfileError :=
  match insert_meta_block (resp_body response) RESPONSE_EVIDENCE_BLOCK_KEY
          (response_block server_signer server_delegation request_evidence_diagnostic) with
  | Err e => (response, Err e)
  | Ok body => sign_response_unbound (with_resp_body response body) delegated_key delegated_kid
                 created expires
  end.
End sign_full.

(** ** Headers after signing *)

Lemma eq_ignore_ascii_case_true a b :
  eq_ignore_ascii_case a b = true ↔ to_ascii_lowercase a = to_ascii_lowercase b.
Proof. apply bytes_eqb_true. Qed.

Lemma set_header_named hs n name v :
  filter (header_named n) (set_header hs name v) =
  if eq_ignore_ascii_case name n then [(name, v)] else filter (header_named n) hs.
Proof.
  unfold set_header. rewrite filter_app.
  assert (filter (header_named n) [(name, v)] =
    if eq_ignore_ascii_case name n then [(name, v)] else []) as ->.
  { rewrite filter_cons. unfold header_named at 1 3. case_decide as Hd; simpl in Hd.
    - by rewrite Hd.
    - apply not_true_is_false in Hd. by rewrite Hd. }
  destruct (eq_ignore_ascii_case name n) eqn:E.
  - assert (filter (header_named n) (List.filter (λ kv, negb (eq_ignore_ascii_case kv.1 name)) hs) = [])
      as ->; [|done].
    induction hs as [|kv hs IH]; [done|]. simpl. destruct (eq_ignore_ascii_case kv.1 name) eqn:Ek; [done|].
    simpl. rewrite filter_cons_False; [done|]. unfold header_named. intros Hn.
    apply eq_ignore_ascii_case_true in E, Hn. rewrite <-not_true_iff_false in Ek. apply Ek.
    apply eq_ignore_ascii_case_true. congruence.
  - rewrite app_nil_r. induction hs as [|kv hs IH]; [done|]. simpl.
    destruct (eq_ignore_ascii_case kv.1 name) eqn:Ek; simpl.
    + rewrite filter_cons_False; [done|]. unfold header_named. intros Hn.
      apply eq_ignore_ascii_case_true in Ek, Hn. rewrite <-not_true_iff_false in E. apply E.
      apply eq_ignore_ascii_case_true. congruence.
    + destruct (decide (header_named n kv)).
      * by rewrite !filter_cons_True, IH.
      * by rewrite !filter_cons_False, IH.
Qed.

(** Two header lists agree on the headers of a name. *)
Definition same_header (n : bytes) (hs hs' : Headers) : Prop :=
  filter (header_named n) hs = filter (header_named n) hs'.

Lemma set_header_other hs n name v :
  eq_ignore_ascii_case name n = false → same_header n (set_header hs name v) hs.
Proof. intros Hn. unfold same_header. by rewrite set_header_named, Hn. Qed.

Lemma single_header_same n hs hs' : same_header n hs hs' → single_header hs n = single_header hs' n.
Proof. intros Hs. rewrite !single_header_filter. by rewrite Hs. Qed.

Lemma required_header_same n hs hs' : same_header n hs hs' → required_header hs n = required_header hs' n.
Proof. intros Hs. unfold required_header. by rewrite (single_header_same n hs hs' Hs). Qed.

Lemma reject_content_encoding_set hs name v :
  eq_ignore_ascii_case name b#"content-encoding" = false →
  reject_content_encoding hs = Ok tt → reject_content_encoding (set_header hs name v) = Ok tt.
Proof.
  unfold reject_content_encoding. rewrite !for_each_Ok. intros Hn HF. unfold set_header.
  apply Forall_app. split.
  - apply Forall_forall. intros kv Hkv. rewrite Forall_forall in HF. apply HF.
    apply list_elem_of_In in Hkv. apply list_elem_of_In. apply filter_In in Hkv as [? _]. done.
  - constructor; [|constructor]. by rewrite Hn.
Qed.

(** The sources of two component values agree: same derived values, same headers by name. *)
Definition same_request (cs : list CoveredComponent) (r r' : HttpRequest) : Prop :=
  req_method r = req_method r' ∧ req_target_uri r = req_target_uri r' ∧
  Forall (λ c, same_header (cc_name c) (req_headers r) (req_headers r')) cs.

Lemma component_value_same_request c r r' :
  req_method r = req_method r' → req_target_uri r = req_target_uri r' →
  same_header (cc_name c) (req_headers r) (req_headers r') →
  component_value c (SourceRequest r) = component_value c (SourceRequest r').
Proof.
  intros Hm Hu Hh. unfold component_value, resolve_component_value. destruct (cc_req c); [done|].
  cbn iota beta. destruct (strip_prefix b#"@" (cc_name c)) as [n|].
  - unfold resolve_derived. by rewrite Hm, Hu.
  - rewrite !covered_header_filter. by rewrite Hh.
Qed.

Lemma component_value_same_response c s s' r :
  resp_status s = resp_status s' →
  (cc_req c = false → same_header (cc_name c) (resp_headers s) (resp_headers s')) →
  component_value c (SourceResponse s r) = component_value c (SourceResponse s' r).
Proof.
  intros Hs Hh. unfold component_value, resolve_component_value. destruct (cc_req c) eqn:Ec; [done|].
  cbn iota beta. destruct (strip_prefix b#"@" (cc_name c)) as [n|].
  - unfold resolve_derived. by rewrite Hs.
  - rewrite !covered_header_filter. by rewrite Hh.
Qed.

Lemma signature_base_same cs p src src' :
  Forall (λ c, component_value c src = component_value c src') cs →
  signature_base cs p src = signature_base cs p src'.
Proof.
  intros HF. unfold signature_base. assert (component_lines cs src = component_lines cs src') as ->; [|done].
  induction HF as [|c cs Hc _ IH]; [done|]. simpl. by rewrite Hc, IH.
Qed.

(** ** What the signer covers *)

Lemma present_components_Ok hs names cs :
  present_components hs names = Ok cs →
  cs `sublist_of` map component_new names ∧
  (∀ n, n ∈ names → is_some <$> (result_ok (single_header hs n)) = Some true → component_new n ∈ cs) ∧
  (∀ n, n ∈ names → ∃ o, single_header hs n = Ok o).
Proof.
  revert cs. induction names as [|n names IH]; intros cs Hp; simpl in Hp.
  - injection Hp as <-. split_and!; [constructor|set_solver|set_solver].
  - inv_ok. destruct (IH _ eq_refl) as (Hsub & Hin & Hok). destruct v as [x|]; simpl.
    + split_and!; [by constructor| |].
      * intros m [->|Hm]%elem_of_cons Hs; [set_solver|]. set_solver.
      * intros m [->|Hm]%elem_of_cons; eauto.
    + split_and!; [by constructor| |].
      * intros m [->|Hm]%elem_of_cons Hs; [|by auto]. by rewrite E in Hs.
      * intros m [->|Hm]%elem_of_cons; eauto.
Qed.

Lemma all_request_components_known :
  Forall known_component
    (map component_new (REQUIRED_REQUEST_COMPONENTS ++ conditionally_covered_request_headers)) ∧
  NoDup (map component_new (REQUIRED_REQUEST_COMPONENTS ++ conditionally_covered_request_headers)).
Proof.
  split; [|apply (bool_decide_unpack _); vm_compute; exact I].
  apply Forall_map, Forall_forall. intros n Hn. apply existsb_bytes_eqb.
  revert n Hn. apply Forall_forall. by repeat constructor.
Qed.

Lemma sublist_map {A B} (f : A → B) l k : l `sublist_of` k → map f l `sublist_of` map f k.
Proof. induction 1; simpl; by constructor. Qed.

(** The components of a request: some of the required ones, and the security headers it has. *)
Lemma covered_set_Ok names hs cond :
  names `sublist_of` REQUIRED_REQUEST_COMPONENTS → conditional_request_components hs = Ok cond →
  let cs := map component_new names ++ cond in
  Forall known_component cs ∧ NoDup cs ∧ Forall (λ c, cc_req c = false) cs ∧
  Forall (λ n, component_new n ∈ cs) names ∧
  (∀ n, n ∈ conditionally_covered_request_headers →
     ∃ o, single_header hs n = Ok o ∧ (is_some o = true → component_new n ∈ cs)) ∧
  cs `sublist_of` map component_new (names ++ conditionally_covered_request_headers).
Proof.
  intros Hnames Hcond cs. destruct (present_components_Ok _ _ _ Hcond) as (Hsub & Hin & Hok).
  destruct all_request_components_known as [HFk Hnd].
  assert (cs `sublist_of` map component_new (names ++ conditionally_covered_request_headers)) as Hsub'.
  { unfold cs. rewrite map_app. by apply sublist_app. }
  assert (cs `sublist_of` map component_new (REQUIRED_REQUEST_COMPONENTS ++ conditionally_covered_request_headers)) as Hsub2.
  { etrans; [exact Hsub'|]. apply sublist_map. by apply sublist_app. }
  assert (∀ P, Forall P (map component_new (REQUIRED_REQUEST_COMPONENTS ++ conditionally_covered_request_headers)) →
               Forall P cs) as Hall.
  { intros P HP. rewrite Forall_forall in HP. apply Forall_forall. intros c Hc. apply HP.
    eapply elem_of_submseteq; [exact Hc|]. by apply sublist_submseteq. }
  split_and!.
  - by apply Hall.
  - by eapply sublist_NoDup.
  - apply Hall. by repeat constructor.
  - apply Forall_forall. intros n Hn. apply elem_of_app. left. apply list_elem_of_fmap. eauto.
  - intros n Hn. destruct (Hok n Hn) as [o Ho]. exists o. split; [done|]. intros Hsome.
    apply elem_of_app. right. apply Hin; [done|]. rewrite Ho. simpl. by rewrite Hsome.
  - done.
Qed.

Lemma request_components_Ok r cs :
  request_components r = Ok cs →
  Forall known_component cs ∧ NoDup cs ∧ Forall (λ c, cc_req c = false) cs ∧
  Forall (λ n, component_new n ∈ cs) REQUIRED_REQUEST_COMPONENTS ∧
  (∀ n, n ∈ conditionally_covered_request_headers →
     ∃ o, single_header (req_headers r) n = Ok o ∧ (is_some o = true → component_new n ∈ cs)).
Proof.
  unfold request_components. intros Hr. inv_ok.
  destruct (covered_set_Ok _ _ _ (reflexivity REQUIRED_REQUEST_COMPONENTS) E) as (? & ? & ? & ? & ? & _).
  by split_and!.
Qed.

(** Coverage survives headers that change none of the security headers. *)
Lemma conditional_coverage_same hs hs' cs :
  (∀ n, n ∈ conditionally_covered_request_headers → same_header n hs' hs) →
  (∀ n, n ∈ conditionally_covered_request_headers →
     ∃ o, single_header hs n = Ok o ∧ (is_some o = true → component_new n ∈ cs)) →
  require_conditional_coverage hs' cs = Ok tt.
Proof.
  intros Hsame Hcov. apply for_each_Ok, Forall_forall. intros n Hn. destruct (Hcov n Hn) as (o & Ho & Hc).
  rewrite (single_header_same _ _ _ (Hsame n Hn)), Ho. destruct o as [x|]; [|done]. simpl.
  by rewrite (proj2 (covers_spec cs false n) (Hc eq_refl)).
Qed.

Lemma none_req cs : Forall (λ c, cc_req c = false) cs → existsb cc_req cs = false.
Proof.
  intros HF. apply not_true_is_false. rewrite existsb_elem. intros (c & Hc & Hcr).
  rewrite Forall_forall in HF. apply HF in Hc. congruence.
Qed.

(** A security header is none of the headers the signer writes. *)
Lemma conditional_not_written n : n ∈ conditionally_covered_request_headers →
  eq_ignore_ascii_case b#"Content-Digest" n = false ∧ eq_ignore_ascii_case b#"Signature-Input" n = false ∧
  eq_ignore_ascii_case b#"Signature" n = false ∧ eq_ignore_ascii_case b#"content-type" n = false.
Proof. intros Hn. split_and!; revert n Hn; apply Forall_forall; by repeat constructor. Qed.

(** ** The two signature headers *)

Lemma signature_member `{Base64Laws} label sig :
  profile_label label →
  member_value (label ++ b#"=" ++ b#":" ++ std_encode sig ++ b#":") label =
    Ok (b#":" ++ std_encode sig ++ b#":").
Proof.
  intros [Hc Hne]%profile_label_chars. apply member_value_single; try done.
  - split; [done|]. change b#":" with [":"%char]. rewrite (assoc_L (++)), last_snoc. done.
  - apply scan_plain. pose proof (std_encode_chars sig) as HF.
    repeat (apply Forall_app; split); [by repeat constructor| |by repeat constructor].
    eapply Forall_impl; [exact HF|]. simpl. intros c Hch. split; by intros ->.
Qed.

Lemma signature_value_emitted `{Base64Laws} hs he label k sig :
  profile_label label →
  filter (header_named b#"signature") hs = [(k, label ++ b#"=" ++ b#":" ++ std_encode sig ++ b#":")] →
  signature_value_b64url hs he label = Ok (b64url_encode sig).
Proof.
  intros Hl Hf. unfold signature_value_b64url.
  rewrite (proj2 (required_header_Ok hs _ _)) by eauto. cbn [map_err].
  rewrite signature_member by done. unfold byte_sequence. rewrite strip_prefix_app, strip_suffix_app.
  cbn [ok_or]. unfold base64_standard_decode. by rewrite std_decode_encode.
Qed.

(** What [emit_signature] leaves in the headers. *)
Lemma emit_signature_Ok `{Base64, Ed25519} hs label cs p base signer hs' :
  emit_signature hs label cs p base signer = (hs', Ok tt) →
  ∃ sig s, signer base = Ok sig ∧ length sig = ED25519_SIGNATURE_LEN ∧ serialize_with p cs = Ok s ∧
    filter (header_named b#"signature-input") hs' = [(b#"Signature-Input", label ++ b#"=" ++ s)] ∧
    filter (header_named b#"signature") hs' =
      [(b#"Signature", label ++ b#"=" ++ b#":" ++ std_encode sig ++ b#":")] ∧
    (∀ n, eq_ignore_ascii_case b#"Signature-Input" n = false →
          eq_ignore_ascii_case b#"Signature" n = false → same_header n hs' hs) ∧
    (reject_content_encoding hs = Ok tt → reject_content_encoding hs' = Ok tt).
Proof.
  unfold emit_signature. destruct (signer base) as [sig|] eqn:Es; [|done].
  destruct (negb _) eqn:El; [done|]. bool_prop. destruct (serialize_with p cs) as [s|] eqn:Ess; [|done].
  intros [= <-]. exists sig, s. split_and!; try done.
  - rewrite set_header_named. vm_compute (eq_ignore_ascii_case _ _). cbn iota.
    rewrite set_header_named. by vm_compute (eq_ignore_ascii_case _ _).
  - rewrite set_header_named. by vm_compute (eq_ignore_ascii_case _ _).
  - intros n Hi Hg. unfold same_header.
    etrans; [exact (set_header_other _ n _ _ Hg)|exact (set_header_other _ n _ _ Hi)].
  - intros Hr. by repeat apply reject_content_encoding_set.
Qed.

Lemma require_json_same hs hs' w :
  same_header b#"content-type" hs hs' → require_json_media_type hs w = require_json_media_type hs' w.
Proof. intros Hs. unfold require_json_media_type. by rewrite (required_header_same _ _ _ Hs). Qed.

(** A covered name is not the name of a signature header. *)
Lemma known_not_signature c :
  known_component c →
  eq_ignore_ascii_case b#"Signature-Input" (cc_name c) = false ∧
  eq_ignore_ascii_case b#"Signature" (cc_name c) = false.
Proof.
  intros Hk. revert Hk. unfold known_component. generalize (cc_name c). intros n Hn.
  split; revert n Hn; apply Forall_forall; by repeat constructor.
Qed.

(** ** Signing, then verifying *)

Lemma local_sig_Ok `{Base64Laws, Ed25519} key base sig :
  local_sig key base = Ok sig → sig = dalek_sign (sk_inner key) base.
Proof.
  unfold local_sig, b64url_decode, SigningKey_sign, b64url_encode. rewrite url_decode_encode. simpl.
  by intros [= <-].
Qed.

Lemma verify_local `{Base64Laws, Ed25519Laws} key base e :
  verify_under Ed25519Alg base (b64url_encode (dalek_sign (sk_inner key) base))
    (SigningKey_public_key key) e = Ok tt.
Proof. apply verify_under_Ok. apply (verify_sign key base e). Qed.

(** What a successful [sign_request] did. *)
Lemma sign_request_Ok `{Base64Laws, Sha2, Ed25519} r key kid created expires nonce r' ev :
  sign_request r key kid created expires nonce = (r', Ok ev) →
  let hs1 := set_header (req_headers r) b#"Content-Digest" (content_digest_sha256 (req_body r)) in
  let r1 := with_req_headers r hs1 in
  let p := request_params kid created expires nonce in
  ∃ cs base hs2,
    reject_content_encoding (req_headers r) = Ok tt ∧ request_components r1 = Ok cs ∧
    signature_base cs p (SourceRequest r1) = Ok base ∧ ev = from_signature_base base ∧
    emit_signature hs1 REQUEST_LABEL cs p base (local_sig key) = (hs2, Ok tt) ∧
    r' = with_req_headers r hs2.
Proof.
  unfold sign_request, sign_request_with_signer. intros Hs.
  destruct (reject_content_encoding (req_headers r)) as [[]|]; [|done].
  set (hs1 := set_header (req_headers r) b#"Content-Digest" _) in *.
  set (r1 := with_req_headers r hs1) in *.
  destruct (request_components r1) as [cs|] eqn:Ec; [|done].
  destruct (signature_base cs _ (SourceRequest r1)) as [base|] eqn:Eb; [|done].
  destruct (emit_signature _ _ _ _ _ _) as [hs2 [[]|]] eqn:Ee; [|done].
  injection Hs as <- <-. by exists cs, base, hs2.
Qed.

Section signed_request.
Context `{Base64Laws, Sha2, Ed25519Laws, SerdeJson}.
Variables (r : HttpRequest) (key : SigningKey) (kid : bytes) (created expires : Z) (nonce : bytes).
Variables (r' : HttpRequest) (ev : RequestEvidence).
Hypothesis signed : sign_request r key kid created expires nonce = (r', Ok ev).
Hypothesis range : is_i64 created ∧ is_i64 expires.

(** The headers the signer did not write are the ones it was given. *)
Lemma signed_same n :
  eq_ignore_ascii_case b#"Content-Digest" n = false →
  eq_ignore_ascii_case b#"Signature-Input" n = false →
  eq_ignore_ascii_case b#"Signature" n = false →
  same_header n (req_headers r') (req_headers r).
Proof.
  intros Hd Hi Hs. destruct (sign_request_Ok _ _ _ _ _ _ _ _ signed) as
    (cs & base & hs2 & _ & _ & _ & _ & He & ->).
  destruct (emit_signature_Ok _ _ _ _ _ _ _ He) as (_ & _ & _ & _ & _ & _ & _ & Hsame & _).
  simpl. unfold same_header. rewrite (Hsame n Hi Hs). by apply set_header_other.
Qed.

(** The parsed signature of the signed request, its digest and its signature value. *)
Lemma signed_parts :
  ∃ cs base,
    req_method r' = req_method r ∧ req_target_uri r' = req_target_uri r ∧ req_body r' = req_body r ∧
    reject_content_encoding (req_headers r') = Ok tt ∧
    required_header (req_headers r') b#"content-digest" = Ok (content_digest_sha256 (req_body r)) ∧
    (∃ i m, required_header (req_headers r') b#"signature-input" = Ok i ∧
       member_value i REQUEST_LABEL = Ok m ∧
       parse_signature_input m = Ok {| psi_components := cs;
                                       psi_params := request_params kid created expires nonce |}) ∧
    request_components (with_req_headers r (set_header (req_headers r) b#"Content-Digest"
        (content_digest_sha256 (req_body r)))) = Ok cs ∧
    signature_base cs (request_params kid created expires nonce) (SourceRequest r') = Ok base ∧
    ev = from_signature_base base ∧
    (∀ he, signature_value_b64url (req_headers r') he REQUEST_LABEL =
             Ok (b64url_encode (dalek_sign (sk_inner key) base))).
Proof.
  destruct (sign_request_Ok _ _ _ _ _ _ _ _ signed) as
    (cs & base & hs2 & Henc & Hc & Hb & -> & He & ->). exists cs, base. simpl.
  destruct (emit_signature_Ok _ _ _ _ _ _ _ He) as
    (sig & s & Hsig & Hlen & Hser & Hfi & Hfs & Hsame & Hrej).
  apply local_sig_Ok in Hsig. subst sig.
  destruct (request_components_Ok _ _ Hc) as (Hk & Hnd & _ & _ & _).
  assert (profile_label REQUEST_LABEL) as Hlab by by left.
  split_and!; try done.
  - apply Hrej, reject_content_encoding_set; [done|done].
  - apply required_header_Ok. exists b#"Content-Digest". rewrite Hsame by done.
    by rewrite set_header_named.
  - destruct (parse_for_serialized hs2 REQUEST_LABEL [] _ _ _ _ Hlab Hser range Hk Hnd Hfi) as [Hm _].
    eexists _, s. split_and!; [apply required_header_Ok; eauto|done|].
    by apply (parse_serialized _ _ _ Hser range Hk Hnd).
  - rewrite <-Hb. apply signature_base_same. eapply Forall_impl; [exact Hk|].
    intros c Hkc. simpl. destruct (known_not_signature c Hkc) as [Hn1 Hn2].
    apply component_value_same_request; [done|done|]. simpl. by apply Hsame.
  - intros he. by eapply signature_value_emitted.
Qed.
End signed_request.

Lemma method_divergence_same `{SerdeJson} r r' :
  same_header MCP_METHOD_HEADER (req_headers r) (req_headers r') → req_body r = req_body r' →
  reject_mcp_method_divergence r = reject_mcp_method_divergence r'.
Proof.
  intros Hs Hb. unfold reject_mcp_method_divergence. by rewrite (single_header_same _ _ _ Hs), Hb.
Qed.

Lemma enforce_same `{SerdeJson} t r r' :
  Forall (λ n, same_header n (req_headers r) (req_headers r')) MCP_COVERABLE_TRANSPORT_HEADERS →
  req_body r = req_body r' → enforce t r = enforce t r'.
Proof.
  unfold MCP_COVERABLE_TRANSPORT_HEADERS. rewrite !Forall_cons. intros (Hm & Hn & Hv & _) Hb.
  unfold enforce, TransportHeaders_read. rewrite Hb.
  by rewrite (single_header_same _ _ _ Hm), (single_header_same _ _ _ Hn), (single_header_same _ _ _ Hv).
Qed.

(** The verifier accepts what the signer signs. If [sign_request] succeeds on a JSON
    request that is consistent with its MCP headers, then the signed request passes the
    floor under every policy that admits its window, for every resolver that maps the key id
    to the signer's public key in the request slot; and the verified facts are the signed
    ones: evidence handle, key id, nonce, window. *)
Lemma signed_request_floor `{Base64Laws, Sha2, Ed25519Laws, SerdeJson}
    r key kid created expires nonce r' ev resolve_actor policy now actor :
  sign_request r key kid created expires nonce = (r', Ok ev) →
  is_i64 created ∧ is_i64 expires →
  require_json_media_type (req_headers r) b#"request content-type" = Ok tt →
  reject_mcp_method_divergence r = Ok tt →
  match vp_mcp_transport policy with Some t => enforce t r = Ok tt | None => True end →
  accepted_algorithm policy ALG_ED25519 = Some Ed25519Alg →
  window_admits created expires now (vp_max_clock_skew policy) = true →
  saturating_sub expires created ≤ vp_max_signature_validity policy →
  resolve_actor kid SlotRequest = Resolved actor → ra_slot actor = SlotRequest →
  ra_verification_key actor = SigningKey_public_key key →
  ∃ v, floor_request r' resolve_actor policy now = Ok v ∧ fr_evidence v = ev ∧
    fr_key_id v = kid ∧ fr_nonce v = nonce ∧ fr_created v = created ∧ fr_expires v = expires ∧
    fr_resolved_actor v = actor.
Proof.
  intros Hs Hr Hjson Hdiv Htr Halg Hwin Hval Hres Hslot Hkey.
  pose proof (signed_same _ _ _ _ _ _ _ _ Hs) as Hsame.
  destruct (signed_parts _ _ _ _ _ _ _ _ Hs Hr) as (cs & base & Hm & Hu & Hbody & Henc & Hcd &
    (i & m & Hi & Hmem & Hparse) & Hcs & Hbase & -> & Hsig).
  destruct (request_components_Ok _ _ Hcs) as (Hk & Hnd & Hnreq & Hreq & Hcond).
  unfold floor_request. rewrite Henc. rewrite (require_json_same _ (req_headers r)) by by apply Hsame.
  rewrite Hjson, Hcd, Hbody, verify_content_digest_self, Hi, Hmem, Hparse. cbn [psi_components psi_params].
  rewrite (proj2 (require_components_Ok cs _ [] tt)) by (split; [done|constructor]).
  rewrite (none_req cs Hnreq).
  rewrite (conditional_coverage_same (set_header (req_headers r) b#"Content-Digest"
    (content_digest_sha256 (req_body r))) (req_headers r') cs); [|intros n Hn|exact Hcond].
  2:{ destruct (conditional_not_written n Hn) as (? & ? & ? & _). unfold same_header.
      rewrite (Hsame n) by done. symmetry. by apply set_header_other. }
  rewrite (proj2 (check_params_Ok (request_params kid created expires nonce) policy now true
    created expires nonce kid Ed25519Alg)) by (split_and!; eauto).
  unfold resolve_actor_for_slot. rewrite Hres. rewrite bool_decide_true by done. cbn [negb].
  rewrite Hbase, Hsig, Hkey, verify_local.
  rewrite (method_divergence_same r' r), Hdiv by (done || by apply Hsame).
  assert (match vp_mcp_transport policy with Some t => enforce t r' | None => Ok tt end = Ok tt) as ->.
  { destruct (vp_mcp_transport policy) as [t|]; [|done]. rewrite (enforce_same t r' r); [done| |done].
    repeat constructor; by apply Hsame. }
  eexists. split; [reflexivity|done].
Qed.

(** ** Properties *)

(** Values of covered components of two requests with one base. *)
Lemma base_component cs p src base c :
  signature_base cs p src = Ok base → c ∈ cs → ∃ v, component_value c src = Ok v.
Proof.
  unfold signature_base. intros Hb Hc. inv_ok. apply component_lines_Forall2 in E.
  apply (Forall2_Forall_l _ (λ c, ∃ v, component_value c src = Ok v) _ _) in E.
  - rewrite Forall_forall in E. by apply E.
  - apply Forall_true. intros l c' (w & Hw & _). eauto.
Qed.

Lemma component_method r v :
  component_value (component_new b#"@method") (SourceRequest r) = Ok v → v = req_method r.
Proof. unfold component_value. simpl. intros Hc. by inv_ok. Qed.
Lemma component_target_uri r v :
  component_value (component_new b#"@target-uri") (SourceRequest r) = Ok v → v = req_target_uri r.
Proof. unfold component_value. simpl. intros Hc. by inv_ok. Qed.
Lemma component_content_digest r v h :
  component_value (component_new b#"content-digest") (SourceRequest r) = Ok v →
  required_header (req_headers r) b#"content-digest" = Ok h → v = trim h.
Proof.
  intros Hc [k Hk]%required_header_Ok. unfold component_value, resolve_component_value in Hc.
  cbn [cc_req component_new cc_name] in Hc. change (strip_prefix b#"@" b#"content-digest") with (@None bytes) in Hc.
  cbn iota beta in Hc. rewrite covered_header_filter, Hk in Hc. inv_ok. by simplify_eq/=.
Qed.

Lemma component_status s r v :
  component_value (component_new b#"@status") (SourceResponse s r) = Ok v → v = fmt_int (resp_status s).
Proof. unfold component_value. simpl. intros Hc. by inv_ok. Qed.
Lemma component_response_digest s r v h :
  component_value (component_new b#"content-digest") (SourceResponse s r) = Ok v →
  required_header (resp_headers s) b#"content-digest" = Ok h → v = trim h.
Proof.
  intros Hc [k Hk]%required_header_Ok. unfold component_value, resolve_component_value in Hc.
  cbn [cc_req component_new cc_name] in Hc. change (strip_prefix b#"@" b#"content-digest") with (@None bytes) in Hc.
  cbn iota beta in Hc. rewrite covered_header_filter, Hk in Hc. inv_ok. by simplify_eq/=.
Qed.

(** Messages with one signature base agree on every component it covers. *)
Lemma same_base_values src src' cs cs' p p' base names :
  signature_base cs p src = Ok base → signature_base cs' p' src' = Ok base →
  Forall known_component cs → Forall known_component cs' → params_in_range p → params_in_range p' →
  Forall (λ n, component_new n ∈ cs) names →
  p' = p ∧ ∀ n, n ∈ names → ∃ w, component_value (component_new n) src = Ok w
                               ∧ component_value (component_new n) src' = Ok w.
Proof.
  intros Hb Hb' Hk Hk' Hr Hr' Hreq.
  destruct (signature_base_inj _ _ _ _ _ _ _ Hb Hb' Hk Hk' Hr Hr') as (<- & <- & Hvals).
  split; [done|]. intros n Hn. rewrite Forall_forall in Hreq. rewrite Forall_forall in Hvals.
  specialize (Hreq n Hn). destruct (base_component _ _ _ _ _ Hb Hreq) as [w Hw]. exists w.
  split; [done|]. by rewrite <-(Hvals _ Hreq).
Qed.

Lemma same_base_response s s' r r' cs cs' p p' base d d' :
  signature_base cs p (SourceResponse s r) = Ok base → signature_base cs' p' (SourceResponse s' r') = Ok base →
  Forall known_component cs → Forall known_component cs' → params_in_range p → params_in_range p' →
  Forall (λ n, component_new n ∈ cs) REQUIRED_RESPONSE_COMPONENTS →
  required_header (resp_headers s) b#"content-digest" = Ok d →
  required_header (resp_headers s') b#"content-digest" = Ok d' →
  resp_status s' = resp_status s ∧ trim d' = trim d.
Proof.
  intros Hb Hb' Hk Hk' Hr Hr' Hreq Hd Hd'.
  destruct (same_base_values _ _ _ _ _ _ _ _ Hb Hb' Hk Hk' Hr Hr' Hreq) as [_ Hval].
  destruct (Hval b#"@status") as (w1 & Hw1 & Hw1'); [set_solver|].
  destruct (Hval b#"content-digest") as (w3 & Hw3 & Hw3'); [set_solver|].
  apply component_status in Hw1, Hw1'.
  apply (component_response_digest _ _ _ _ Hw3) in Hd. apply (component_response_digest _ _ _ _ Hw3') in Hd'.
  split; [apply fmt_int_inj|]; congruence.
Qed.

(** Two requests with one signature base that covers the required components have the same
    method, target and parameters, and the same digest header up to white space. *)
Lemma same_base_request r r' cs cs' p p' base d d' :
  signature_base cs p (SourceRequest r) = Ok base → signature_base cs' p' (SourceRequest r') = Ok base →
  Forall known_component cs → Forall known_component cs' → params_in_range p → params_in_range p' →
  Forall (λ n, component_new n ∈ cs) REQUIRED_REQUEST_COMPONENTS →
  required_header (req_headers r) b#"content-digest" = Ok d →
  required_header (req_headers r') b#"content-digest" = Ok d' →
  req_method r' = req_method r ∧ req_target_uri r' = req_target_uri r ∧ p' = p ∧ trim d' = trim d.
Proof.
  intros Hb Hb' Hk Hk' Hr Hr' Hreq Hd Hd'.
  destruct (same_base_values _ _ _ _ _ _ _ _ Hb Hb' Hk Hk' Hr Hr' Hreq) as [Hp Hval].
  destruct (Hval b#"@method") as (w1 & Hw1 & Hw1'); [set_solver|].
  destruct (Hval b#"@target-uri") as (w2 & Hw2 & Hw2'); [set_solver|].
  destruct (Hval b#"content-digest") as (w3 & Hw3 & Hw3'); [set_solver|].
  apply component_method in Hw1, Hw1'. apply component_target_uri in Hw2, Hw2'.
  apply (component_content_digest _ _ _ Hw3) in Hd. apply (component_content_digest _ _ _ Hw3') in Hd'.
  split_and!; congruence.
Qed.

(** The signature base of a signed request, rebuilt from its [signature-input] header. *)
Definition signed_base (r : HttpRequest) (base : bytes) : Prop :=
  ∃ i m parsed, required_header (req_headers r) b#"signature-input" = Ok i ∧
    member_value i REQUEST_LABEL = Ok m ∧ parse_signature_input m = Ok parsed ∧
    signature_base (psi_components parsed) (psi_params parsed) (SourceRequest r) = Ok base.

(** What an accepted request's base was built from. *)
Lemma floor_request_parts `{Base64Laws, Sha2, Ed25519, SerdeJson} r resolve policy now v :
  floor_request r resolve policy now = Ok v →
  ∃ cs p, Forall known_component cs ∧ params_in_range p ∧
    signature_base cs p (SourceRequest r) = Ok (fr_request_signature_base v) ∧
    fr_evidence v = from_signature_base (fr_request_signature_base v) ∧
    Forall (λ n, component_new n ∈ cs) REQUIRED_REQUEST_COMPONENTS ∧
    required_header (req_headers r) b#"content-digest" = Ok (fr_content_digest v) ∧
    verify_content_digest_sha256 (fr_content_digest v) (req_body r) = Ok tt ∧
    p_created p = Some (fr_created v) ∧ p_expires p = Some (fr_expires v) ∧
    p_nonce p = Some (fr_nonce v) ∧ p_keyid p = Some (fr_key_id v).
Proof.
  intros Hf. unfold floor_request in Hf. inv_ok. simpl.
  repeat match goal with u : unit |- _ => destruct u end.
  rename E5 into Hparse, E6 into Hreq, E9 into Hparams.
  destruct (parse_signature_input_wf _ _ Hparse) as (Hk & _ & Hr).
  apply require_components_Ok in Hreq as [Hreq _].
  apply check_params_Ok in Hparams as (_ & _ & ? & ? & _ & _ & Hn & ?).
  eexists _, _. split_and!; try done. destruct Hn as [?|(? & ? & _)]; done.
Qed.

Lemma floor_signed_base `{Base64, Sha2, Ed25519, SerdeJson} r resolve policy now v :
  floor_request r resolve policy now = Ok v → signed_base r (fr_request_signature_base v).
Proof.
  intros Hf. unfold floor_request in Hf. inv_ok. simpl. eexists _, _, _. by split_and!.
Qed.

(** C1: the request that is accepted is the request that was signed. If an accepted request
    has the evidence handle a signing operation returned, then method, target, body, key id,
    nonce and window are the signed ones, unless the two bodies, or the two signature bases
    under the request label, collide under SHA-256. *)
Theorem accepted_request_is_the_signed_one `{Base64Laws, Sha2, Ed25519Laws, SerdeJson}
    r key kid created expires nonce r' ev r2 resolve_actor policy now v :
  sign_request r key kid created expires nonce = (r', Ok ev) →
  is_i64 created ∧ is_i64 expires →
  floor_request r2 resolve_actor policy now = Ok v → fr_evidence v = ev →
  (req_method r2 = req_method r ∧ req_target_uri r2 = req_target_uri r ∧ req_body r2 = req_body r ∧
   fr_key_id v = kid ∧ fr_nonce v = nonce ∧ fr_created v = created ∧ fr_expires v = expires)
  ∨ collides (req_body r) (req_body r2)
  ∨ (∃ base, signed_base r' base ∧
       collides (labeled_preimage EVIDENCE_LABEL_REQUEST (fr_request_signature_base v))
                (labeled_preimage EVIDENCE_LABEL_REQUEST base)).
Proof.
  intros Hs Hr Hf Hev.
  destruct (signed_parts _ _ _ _ _ _ _ _ Hs Hr) as (cs & base & Hm & Hu & Hbody & _ & Hcd & (i & m & Hi & Hm' & Hp') & Hcs & Hbase & -> & _).
  destruct (request_components_Ok _ _ Hcs) as (Hk & _ & _ & Hreq & _).
  destruct (floor_request_parts _ _ _ _ _ Hf)
    as (cs2 & p2 & Hk2 & Hr2 & Hbase2 & He2 & _ & Hcd2 & Hdig2 & Hcr & Hex & Hn & Hkey).
  rewrite He2 in Hev. apply from_signature_base_binds in Hev as [Hev|?].
  2:{ right; right. exists base. split; [|done]. exists i, m. eexists. by split_and!. }
  rewrite Hev in Hbase2.
  destruct (same_base_request _ _ _ _ _ _ _ _ _ Hbase Hbase2 Hk Hk2 Hr Hr2 Hreq Hcd Hcd2)
    as (Hm2 & Hu2 & -> & Htrim). simplify_eq/=.
  destruct (content_digest_form (req_body r)) as [Htr _].
  assert (content_digest_sha256 (req_body r) = content_digest_sha256 (req_body r2)) as Hd.
  { eapply verify_content_digest_trimmed; [|exact Hdig2]. congruence. }
  apply content_digest_binds in Hd as [Hd|]; [|by right; left]. left. split_and!; congruence.
Qed.

(** Two accepted requests with one evidence handle have the same method, target, body and
    nonce, unless their bodies or their signature bases collide. *)
Lemma floor_same_evidence `{Base64Laws, Sha2, Ed25519, SerdeJson} r r' resolve resolve' policy policy' now now' v v' :
  floor_request r resolve policy now = Ok v → floor_request r' resolve' policy' now' = Ok v' →
  digest_value (fr_evidence v) = digest_value (fr_evidence v') →
  (req_method r = req_method r' ∧ req_target_uri r = req_target_uri r' ∧ req_body r = req_body r' ∧
   fr_created v = fr_created v' ∧ fr_nonce v = fr_nonce v')
  ∨ collides (req_body r) (req_body r')
  ∨ collides (labeled_preimage EVIDENCE_LABEL_REQUEST (fr_request_signature_base v))
             (labeled_preimage EVIDENCE_LABEL_REQUEST (fr_request_signature_base v')).
Proof.
  intros Hf Hf' Hev.
  destruct (floor_request_parts _ _ _ _ _ Hf) as (cs & p & Hk & Hr & Hb & He & Hreq & Hd & Hdig & Hc & _ & Hn & _).
  destruct (floor_request_parts _ _ _ _ _ Hf') as (cs' & p' & Hk' & Hr' & Hb' & He' & _ & Hd' & Hdig' & Hc' & _ & Hn' & _).
  rewrite He, He' in Hev. destruct evidence_labels_no_NUL as [Hno _].
  apply labeled_digest_binds in Hev as [[_ Hbase]|?]; [|by right; right|done..].
  rewrite Hbase in Hb.
  destruct (same_base_request _ _ _ _ _ _ _ _ _ Hb Hb' Hk Hk' Hr Hr' Hreq Hd Hd') as (Hm & Hu & -> & Ht).
  pose proof (verify_content_digest_same _ _ _ _ Ht Hdig' Hdig) as Heq.
  apply eq_sym, content_digest_binds in Heq as [?|?]; [left|by right; left].
  split_and!; congruence.
Qed.

(** ** Responses *)

Lemma bound_response_components_known :
  Forall known_component bound_response_components ∧ NoDup bound_response_components.
Proof.
  split; [|apply (bool_decide_unpack _); vm_compute; exact I].
  apply Forall_forall. intros c Hc. apply existsb_bytes_eqb.
  revert c Hc. apply Forall_forall. by repeat constructor.
Qed.

(** The verifier accepts the response the server signs for a request. If signing
    succeeds on a JSON response, the signed response passes the floor against the same
    request for every policy that admits its window and every resolver that maps the key id
    to the signer's public key in the response slot, and the verified digest is the one of
    the base that signing returned. *)
Lemma signed_response_floor `{Base64Laws, Sha2, Ed25519Laws, SerdeJson}
    s r key kid created expires s' base resolve_actor policy now actor :
  sign_response_with_signer s r (local_sig key) kid created expires = (s', Ok base) →
  is_i64 created ∧ is_i64 expires →
  require_json_media_type (resp_headers s) b#"response content-type" = Ok tt →
  accepted_algorithm policy ALG_ED25519 = Some Ed25519Alg →
  window_admits created expires now (vp_max_clock_skew policy) = true →
  saturating_sub expires created ≤ vp_max_signature_validity policy →
  resolve_actor kid SlotResponse = Resolved actor → ra_slot actor = SlotResponse →
  ra_verification_key actor = SigningKey_public_key key →
  floor_bound_response s' r resolve_actor policy now =
    Ok {| fb_resolved_server_actor := actor;
          fb_response_signature_base_digest := from_response_signature_base base |}.
Proof.
  intros Hs Hr Hjson Halg Hwin Hval Hres Hslot Hkey. unfold sign_response_with_signer in Hs.
  destruct (reject_content_encoding (resp_headers s)) as [[]|] eqn:Henc; [|done].
  set (hs1 := set_header (resp_headers s) b#"Content-Digest" _) in *.
  set (s1 := with_resp_headers s hs1) in *.
  destruct (signature_base _ _ (SourceResponse s1 r)) as [b|] eqn:Hb; [|done].
  destruct (emit_signature _ _ _ _ _ _) as [hs2 [[]|]] eqn:He; [|done]. injection Hs as <- <-.
  destruct (emit_signature_Ok _ _ _ _ _ _ _ He) as
    (sig & ser & Hsig & Hlen & Hser & Hfi & Hfs & Hsame & Hrej).
  apply local_sig_Ok in Hsig. subst sig. destruct bound_response_components_known as [Hk Hnd].
  assert (profile_label RESPONSE_LABEL) as Hlab by by right.
  destruct (parse_for_serialized hs2 RESPONSE_LABEL [] _ _ _ _ Hlab Hser Hr Hk Hnd Hfi) as [Hm _].
  destruct (parse_serialized _ _ _ Hser Hr Hk Hnd) as [_ Hparse].
  unfold floor_bound_response. cbn [resp_headers resp_body with_resp_headers s1].
  rewrite Hrej by (apply reject_content_encoding_set; done).
  rewrite (require_json_same hs2 (resp_headers s)).
  2:{ unfold same_header. rewrite Hsame by done. by apply (set_header_other (resp_headers s)). }
  rewrite Hjson, (proj2 (required_header_Ok hs2 b#"content-digest" (content_digest_sha256 (resp_body s)))).
  2:{ exists b#"Content-Digest". rewrite Hsame by done.
      apply (set_header_named (resp_headers s) b#"content-digest" b#"Content-Digest"). }
  cbn [map_err]. rewrite verify_content_digest_self, (proj2 (required_header_Ok hs2 b#"signature-input" _)) by eauto.
  cbn [map_err]. rewrite Hm, Hparse. cbn [psi_components psi_params].
  rewrite (proj2 (require_components_Ok bound_response_components _ _ tt)).
  2:{ split; apply Forall_forall; intros n Hn; apply elem_of_app; [left|right]; apply list_elem_of_fmap; eauto. }
  rewrite (proj2 (check_params_Ok (response_params kid created expires) policy now false
    created expires [] kid Ed25519Alg)) by (split_and!; eauto).
  unfold resolve_actor_for_slot. rewrite Hres, bool_decide_true by done. cbn [negb].
  rewrite (signature_base_same _ _ _ (SourceResponse s1 r)), Hb.
  2:{ eapply Forall_impl; [exact Hk|]. intros c Hkc. simpl. destruct (known_not_signature c Hkc) as [Hn1 Hn2].
      apply component_value_same_response; [done|]. intros _. by apply Hsame. }
  rewrite (signature_value_emitted _ _ _ _ _ Hlab Hfs), Hkey, verify_local. done.
Qed.

(** ** Witnesses *)

Import Instances.

Definition w_key : SigningKey := SigningKey_from_seed_bytes (replicate 32 "k"%char).
Definition w_actor (slot : SignerSlot) : ResolvedActor :=
  {| ra_identity := {| ai_role := b#"host"; ai_trust_domain := b#"d"; ai_subject := b#"s"; ai_keyid := b#"k1" |};
     ra_verification_key := SigningKey_public_key w_key; ra_slot := slot |}.
Definition w_resolver : actor_resolver := λ kid slot,
  if bytes_eqb kid b#"k1" then Resolved (w_actor slot) else NotTrusted.
Definition w_request : HttpRequest :=
  {| req_method := b#"POST"; req_target_uri := b#"https://h/mcp";
     req_headers := [(b#"Content-Type", b#"application/json")]; req_body := b#"{}" |}.
Definition w_response : HttpResponse :=
  {| resp_status := 200; resp_headers := [(b#"Content-Type", b#"application/json")]; resp_body := b#"{}" |}.
Definition w_signed : HttpRequest * Result RequestEvidence HttpProfileError :=
  sign_request w_request w_key b#"k1" 100 160 b#"n1".
Definition w_evidence : RequestEvidence :=
  match snd w_signed with Ok ev => ev | Err _ => {| digest_alg := []; digest_value := [] |} end.
Definition w_signed_response : HttpResponse * Result bytes HttpProfileError :=
  sign_response_with_signer w_response (fst w_signed) (local_sig w_key) b#"k1" 100 160.
Definition w_base : bytes := match snd w_signed_response with Ok b => b | Err _ => [] end.

Lemma w_range : is_i64 100 ∧ is_i64 160.
Proof. split; apply in_i64_spec; reflexivity. Qed.

Lemma floor_request_sound_witness :
  ∃ v, floor_request (fst w_signed) w_resolver VerifierPolicy_default 120 = Ok v ∧
    w_resolver (fr_key_id v) SlotRequest = Resolved (fr_resolved_actor v) ∧
    ∃ sig, length sig = SIGNATURE_LEN ∧
      verify_strict (vk_inner (ra_verification_key (fr_resolved_actor v)))
        (fr_request_signature_base v) sig = true.
Proof.
  eexists. split; [vm_compute; reflexivity|].
  edestruct (floor_request_sound (fst w_signed) w_resolver VerifierPolicy_default 120)
    as (cs & p & alg & sig & _ & _ & _ & _ & _ & _ & _ & _ & Hr & _ & Hl & Hv); [vm_compute; reflexivity|].
  split; [exact Hr|]. exists sig. split; [exact Hl|exact Hv].
Defined.

Lemma accepted_request_is_the_signed_one_witness :
  ∃ v, floor_request (fst w_signed) w_resolver VerifierPolicy_default 120 = Ok v ∧
    ((req_method (fst w_signed) = req_method w_request ∧
      req_target_uri (fst w_signed) = req_target_uri w_request ∧
      req_body (fst w_signed) = req_body w_request ∧
      fr_key_id v = b#"k1" ∧ fr_nonce v = b#"n1" ∧ fr_created v = 100 ∧ fr_expires v = 160)
     ∨ collides (req_body w_request) (req_body (fst w_signed))
     ∨ (∃ base, signed_base (fst w_signed) base ∧
          collides (labeled_preimage EVIDENCE_LABEL_REQUEST (fr_request_signature_base v))
                   (labeled_preimage EVIDENCE_LABEL_REQUEST base))).
Proof.
  eexists. split; [vm_compute; reflexivity|].
  eapply (accepted_request_is_the_signed_one w_request w_key b#"k1" 100 160 b#"n1" (fst w_signed)
    w_evidence (fst w_signed) w_resolver VerifierPolicy_default 120);
    [vm_compute; reflexivity|exact w_range|vm_compute; reflexivity|vm_compute; reflexivity].
Defined.
