(* ===== verification/Full.v ===== *)
(** * [mcp-re-http-profile/src/verify/full] and [verifier.rs]: full-profile verification

    [full/request.rs] and [full/response.rs] consume the floor and add the semantic checks:
    the evidence block is well formed, addresses this verifier, and every artifact it
    declares is enforced; the response names the key that signed it and the request it
    answers. [verified_request], [verified_response] are the products, [verifier.rs] the
    facade. *)

From S2P Require Import Prelude.
From S2P Require Import RustStr.
From S2P Require Import Externals.
From S2P Require Import Concrete.
From S2P Require Import CoreError.
From S2P Require Import CoreResolver.
From S2P Require Import HttpMessage.
From S2P Require Import SigBase.
From S2P Require Import SigInput.
From S2P Require Import SigCanonical.
From S2P Require Import Policy.
From S2P Require Import Blocks.
From S2P Require Import Body.
From S2P Require Import Floor.
From S2P Require Import Sign.

(** ** Products *)

Section full.
Context `{Base64, Sha2, Ed25519, SerdeJson}.
Context `{!Serde HttpRequestEvidenceBlock, !Serde HttpResponseEvidenceBlock}.

Record VerifiedMcpRequest := {
  vr_floor : CryptographicFloorVerifiedRequest;
  vr_audience : AudienceTuple;
  vr_audience_hash : bytes;
  vr_request_block : HttpRequestEvidenceBlock;
}.

Record AcceptedResponseSigner := {
  ars_identity : ActorIdentity;
  ars_verification_key : VerificationKey;
}.
Record BoundResponseSignatureFacts := {
  bsf_accepted_signer : AcceptedResponseSigner;
  bsf_response_signature_base_digest : RequestEvidence;
}.
Record UnboundResponseSignatureFacts := {
  usf_accepted_signer : AcceptedResponseSigner;
  usf_response_signature_base_digest : RequestEvidence;
}.
Record BoundRequestEvidenceAgreement := {
  bound_request_evidence : RequestEvidence;
  body_request_evidence : RequestEvidence;
}.

Definition bound_signature_facts (f : CryptographicFloorVerifiedBoundResponse)
  : BoundResponseSignatureFacts :=
  {| bsf_accepted_signer :=
       {| ars_identity := ra_identity (fb_resolved_server_actor f);
          ars_verification_key := ra_verification_key (fb_resolved_server_actor f) |};
     bsf_response_signature_base_digest := fb_response_signature_base_digest f |}.
Definition unbound_signature_facts (f : CryptographicFloorVerifiedUnboundResponse)
  : UnboundResponseSignatureFacts :=
  {| usf_accepted_signer :=
       {| ars_identity := ra_identity (fu_resolved_server_actor f);
          ars_verification_key := ra_verification_key (fu_resolved_server_actor f) |};
     usf_response_signature_base_digest := fu_response_signature_base_digest f |}.

Record VerifiedMcpResponse := {
  vs_floor : CryptographicFloorVerifiedBoundResponse;
  vs_request_evidence_agreement : BoundRequestEvidenceAgreement;
  vs_server_signer : ActorIdentity;
}.

Definition block_agreement (bound : RequestEvidence) (block : HttpResponseEvidenceBlock)
  : BoundRequestEvidenceAgreement :=
  {| bound_request_evidence := bound;
     body_request_evidence := {| digest_alg := digest_alg (sb_request_evidence block);
                                 digest_value := digest_value (sb_request_evidence block) |} |}.

Definition from_block (floor : CryptographicFloorVerifiedBoundResponse) (bound : RequestEvidence)
    (block : HttpResponseEvidenceBlock) : VerifiedMcpResponse :=
  {| vs_floor := floor; vs_request_evidence_agreement := block_agreement bound block;
     vs_server_signer := sb_server_signer block |}.

(** ** [full/request.rs] *)

Definition artifact_source : Type := ArtifactBinding → option bytes.

Definition resolve_artifact_credential (binding : ArtifactBinding) (headers : Headers)
    (artifact_material : artifact_source) : option bytes :=
  match artifact_type binding with
  | OauthDpop => authorization_bearer_bytes headers
  | OauthMtls | OauthRar | PdpDecision | DtrApproval | ClassifierResult | HumanApproval =>
      artifact_material binding
  end.

Definition enforce_full_profile_bindings (request : HttpRequest) (block : HttpRequestEvidenceBlock)
    (expected_audience : AudienceTuple) (artifact_material : artifact_source)
  : Result unit HttpProfileError :=
  if negb (bool_decide (rb_audience block = expected_audience))
     || negb (bytes_eqb (aud_target_uri expected_audience) (req_target_uri request))
  then Err HPE.AudienceMismatch
  else for_each (λ binding,
         match pdp_decision_evidence binding block with
         | Some decision =>
             map_err (λ _, HPE.ArtifactBindingFailed) (verify_pdp_decision_binding binding decision)
         | None =>
             let? credential := ok_or (resolve_artifact_credential binding (req_headers request)
                                         artifact_material) HPE.ArtifactBindingFailed in
             verify_artifact_binding binding credential
         end) (rb_artifact_bindings block).

Definition full_request (request : HttpRequest) (expected_audience : AudienceTuple)
    (artifact_material : artifact_source) (resolve_actor : actor_resolver)
    (policy : VerifierPolicy) (now : Z) : Result VerifiedMcpRequest HttpProfileError :=
  let? floor := floor_request request resolve_actor policy now in
  let? block := extract_meta_block (req_body request) REQUEST_EVIDENCE_BLOCK_KEY
                  b#"request evidence block" in
  request_block_validate block (fr_profile_id floor) ;?
  enforce_full_profile_bindings request block expected_audience artifact_material ;?
  Ok {| vr_audience_hash := audience_hash (rb_audience block); vr_audience := rb_audience block;
        vr_request_block := block; vr_floor := floor |}.

(** ** [full/response.rs] *)

Definition full_bound_response (response : HttpResponse) (request : HttpRequest)
    (resolve_actor : actor_resolver) (policy : VerifierPolicy) (now : Z)
  : Result VerifiedMcpResponse HttpProfileError :=
  let? floor := floor_bound_response response request resolve_actor policy now in
  let? block := extract_meta_block (resp_body response) RESPONSE_EVIDENCE_BLOCK_KEY
                  b#"response evidence block" in
  response_block_validate block PROFILE_TAG ;?
  let? bound := request_evidence_of request in
  if negb (bytes_eqb (ai_keyid (sb_server_signer block))
             (ai_keyid (ra_identity (fb_resolved_server_actor floor))))
  then Err HPE.ResponseBindingMismatch
  else if negb (bytes_eqb (digest_alg (sb_request_evidence block)) (digest_alg bound))
          || negb (bytes_eqb (digest_value (sb_request_evidence block)) (digest_value bound))
  then Err HPE.ResponseBindingMismatch
  else Ok (from_block floor bound block).

(** ** [verifier.rs] *)

Record Verifier := { v_policy : VerifierPolicy; v_resolve_actor : actor_resolver }.

Definition verify_request_floor (v : Verifier) (request : HttpRequest) (now : Z)
  : Result CryptographicFloorVerifiedRequest HttpProfileError :=
  floor_request request (v_resolve_actor v) (v_policy v) now.
Definition verify_request (v : Verifier) (request : HttpRequest) (expected_audience : AudienceTuple)
    (artifact_material : artifact_source) (now : Z) : Result VerifiedMcpRequest HttpProfileError :=
  full_request request expected_audience artifact_material (v_resolve_actor v) (v_policy v) now.
Definition verify_bound_response_floor (v : Verifier) (response : HttpResponse) (request : HttpRequest)
    (now : Z) : Result CryptographicFloorVerifiedBoundResponse HttpProfileError :=
  floor_bound_response response request (v_resolve_actor v) (v_policy v) now.
Definition verify_bound_response (v : Verifier) (response : HttpResponse) (request : HttpRequest)
    (now : Z) : Result VerifiedMcpResponse HttpProfileError :=
  full_bound_response response request (v_resolve_actor v) (v_policy v) now.
Definition verify_unbound_response_floor (v : Verifier) (response : HttpResponse) (now : Z)
  : Result CryptographicFloorVerifiedUnboundResponse HttpProfileError :=
  floor_unbound_response response (v_resolve_actor v) (v_policy v) now.

(** ** What the full profile promises of an artifact *)

(** A binding is enforced when it is a well-formed opaque digest of material of its own kind:
    the access token the request carries, the material the deployment supplies, or the
    decision the evidence block carries. No other kind of artifact is ever enforced. *)
Definition binding_enforced (headers : Headers) (block : HttpRequestEvidenceBlock)
    (artifact_material : artifact_source) (b : ArtifactBinding) : Prop :=
  binding_type b = OpaqueDigest ∧ artifact_validate b = Ok tt ∧
  ∃ m, ab_digest_value b = sha256_b64url m ∧
    match artifact_type b with
    | OauthDpop => authorization_bearer_bytes headers = Some m
    | OauthMtls | OauthRar => artifact_material b = Some m
    | PdpDecision => rb_authorization_decision block = Some m
    | DtrApproval | ClassifierResult | HumanApproval => False
    end.
End full.

(** ** Lemmas *)

Lemma evidence_eta a d (e : RequestEvidence) :
  a = digest_alg e → d = digest_value e → {| digest_alg := a; digest_value := d |} = e.
Proof. destruct e. by intros -> ->. Qed.

Section lemmas.
Context `{Base64, Sha2, Ed25519, SerdeJson}.

(** A typed verifier accepts a binding that satisfies its conditions. *)
Lemma verify_artifact_binding_intro b c :
  artifact_type b = OauthDpop ∨ artifact_type b = OauthMtls ∨ artifact_type b = OauthRar →
  binding_type b = OpaqueDigest → artifact_validate b = Ok tt → ab_digest_value b = sha256_b64url c →
  verify_artifact_binding b c = Ok tt.
Proof.
  intros Ht Hb Hv Hd. unfold verify_artifact_binding, verify_dpop_ath, verify_mtls_x5t_s256,
    verify_rar_details, expect_type, compare.
  destruct_or! Ht; rewrite Ht, Hb, !bool_decide_true by done; simpl; rewrite Hv, Hd;
    by rewrite bytes_eqb_refl.
Qed.

Lemma verify_pdp_decision_binding_Ok b d u :
  verify_pdp_decision_binding b d = Ok u ↔
    artifact_type b = PdpDecision ∧ binding_type b = OpaqueDigest ∧ artifact_validate b = Ok tt ∧
    ab_digest_value b = sha256_b64url d.
Proof.
  destruct u. unfold verify_pdp_decision_binding, sha256_b64url. split.
  - intros Hv. inv_ok. bool_prop. str_prop. destruct v.
    by destruct (artifact_validate b) as [[]|].
  - intros (Ht & Hb & Hv & Hd). rewrite !bool_decide_true by done. simpl. rewrite Hv, Hd. simpl.
    by rewrite bytes_eqb_refl.
Qed.

Lemma enforce_full_profile_bindings_Ok request block expected material u :
  enforce_full_profile_bindings request block expected material = Ok u ↔
    rb_audience block = expected ∧ aud_target_uri expected = req_target_uri request ∧
    Forall (binding_enforced (req_headers request) block material) (rb_artifact_bindings block).
Proof.
  destruct u. unfold enforce_full_profile_bindings.
  assert (∀ b, match pdp_decision_evidence b block with
    | Some decision =>
        map_err (λ _, HPE.ArtifactBindingFailed) (verify_pdp_decision_binding b decision)
    | None => let? credential := ok_or (resolve_artifact_credential b (req_headers request) material)
                                   HPE.ArtifactBindingFailed in verify_artifact_binding b credential
    end = Ok tt ↔ binding_enforced (req_headers request) block material b) as Hb.
  { intros b. unfold pdp_decision_evidence, binding_enforced. destruct (is_pdp_opaque b) eqn:Ep.
    - unfold is_pdp_opaque in Ep. bool_prop. destruct (rb_authorization_decision block) as [d|] eqn:Ed.
      + rewrite map_err_Ok, verify_pdp_decision_binding_Ok.
        match goal with Ht : artifact_type b = PdpDecision |- _ => rewrite Ht end. naive_solver.
      + unfold resolve_artifact_credential.
        match goal with Ht : artifact_type b = PdpDecision |- _ => rewrite Ht end.
        unfold verify_artifact_binding. split; [|naive_solver]. intros Hk. inv_ok.
        match goal with Ht : artifact_type b = PdpDecision, Hv : _ = Ok tt |- _ => by rewrite Ht in Hv end.
    - split.
      + intros Hk. inv_ok. apply verify_artifact_binding_Ok in Hk as (Ht & Hbt & Hv & Hd).
        split_and!; [done..|]. eexists. split; [exact Hd|]. unfold resolve_artifact_credential in E.
        destruct (artifact_type b); naive_solver.
      + intros (Hbt & Hv & m & Hd & Hm). unfold resolve_artifact_credential.
        unfold is_pdp_opaque in Ep. rewrite Hbt in Ep.
        destruct (artifact_type b) eqn:Et; try done; rewrite Hm; simpl;
          apply verify_artifact_binding_intro; auto. }
  split.
  - intros Hr. inv_ok. bool_prop. str_prop. split_and!; [done..|].
    apply for_each_Ok in Hr. eapply Forall_impl; [exact Hr|]. intros b. simpl. apply Hb.
  - intros (-> & -> & HF). rewrite bool_decide_true, bytes_eqb_refl by done. simpl.
    apply for_each_Ok. eapply Forall_impl; [exact HF|]. intros b. simpl. apply Hb.
Qed.

(** The access token is read off one header field. *)
Lemma authorization_bearer_same hs hs' :
  same_header b#"authorization" hs hs' → authorization_bearer_bytes hs = authorization_bearer_bytes hs'.
Proof.
  assert (∀ l, authorization_bearer_bytes l =
    match filter (header_named b#"authorization") l with (_, v) :: _ => bearer_token v | [] => None end) as Hl.
  { unfold authorization_bearer_bytes. induction l as [|[k v] l IH]; [done|]. simpl.
    rewrite filter_cons. unfold header_named at 1. simpl. case_decide as Hd.
    - by rewrite Hd.
    - apply not_true_is_false in Hd. by rewrite Hd. }
  unfold same_header. intros Hs. by rewrite !Hl, Hs.
Qed.

Lemma binding_enforced_same hs hs' block material b :
  same_header b#"authorization" hs hs' →
  binding_enforced hs block material b → binding_enforced hs' block material b.
Proof. intros Hs. unfold binding_enforced. by rewrite (authorization_bearer_same _ _ Hs). Qed.

Lemma floor_profile_id request resolve_actor policy now v :
  floor_request request resolve_actor policy now = Ok v → fr_profile_id v = PROFILE_TAG.
Proof. unfold floor_request. intros Hf. by inv_ok. Qed.
End lemmas.

(** ** Properties *)

(** Full verification of a request is exactly the floor plus its semantic checks. A
    request is accepted, with product [v], if and only if the floor accepts it, its body
    carries a well-formed evidence block of this profile, the block's audience is the
    expected one and names the target the request was sent to, and every artifact binding of
    the block is enforced; the product then carries that floor product, that block and that
    audience. *)
Lemma full_request_exact `{Base64, Sha2, Ed25519, SerdeJson, !Serde HttpRequestEvidenceBlock}
    request expected material resolve_actor policy now v :
  full_request request expected material resolve_actor policy now = Ok v ↔
    floor_request request resolve_actor policy now = Ok (vr_floor v) ∧
    extract_meta_block (req_body request) REQUEST_EVIDENCE_BLOCK_KEY b#"request evidence block" =
      Ok (vr_request_block v) ∧
    request_block_validate (vr_request_block v) PROFILE_TAG = Ok tt ∧
    rb_audience (vr_request_block v) = expected ∧ aud_target_uri expected = req_target_uri request ∧
    Forall (binding_enforced (req_headers request) (vr_request_block v) material)
      (rb_artifact_bindings (vr_request_block v)) ∧
    vr_audience v = expected ∧ vr_audience_hash v = audience_hash expected.
Proof.
  unfold full_request. split.
  - intros Hf. inv_ok. simpl. rewrite (floor_profile_id _ _ _ _ _ E) in E1.
    apply enforce_full_profile_bindings_Ok in E2 as (Ha & Hu & HF). destruct v2. by rewrite Ha.
  - intros (Hf & He & Hv & Ha & Hu & HF & Hva & Hh).
    rewrite Hf, He, (floor_profile_id _ _ _ _ _ Hf), Hv.
    rewrite (proj2 (enforce_full_profile_bindings_Ok request _ expected material tt)) by done.
    destruct v. simpl in *. by subst.
Qed.

(** The full verifier accepts what the full signer signs. If [sign_request_full] succeeds
    with a well-formed block that addresses the verifier and whose artifact bindings its
    material satisfies, the verifier accepts the signed request and returns that block, that
    audience and the evidence handle signing returned. *)
Lemma signed_full_request_verifies `{Base64Laws, Sha2, Ed25519Laws, SerdeJsonLaws, F64Carrier,
    !Serde HttpRequestEvidenceBlock, !SerdeLaws (T := HttpRequestEvidenceBlock)}
    r block key kid created expires nonce r' ev body expected material resolve_actor policy now actor :
  sign_request_full r block key kid created expires nonce = (r', Ok ev) →
  insert_meta_block (req_body r) REQUEST_EVIDENCE_BLOCK_KEY block = Ok body →
  request_block_validate block PROFILE_TAG = Ok tt →
  rb_audience block = expected ∧ aud_target_uri expected = req_target_uri r →
  Forall (binding_enforced (req_headers r) block material) (rb_artifact_bindings block) →
  is_i64 created ∧ is_i64 expires →
  require_json_media_type (req_headers r) b#"request content-type" = Ok tt →
  reject_mcp_method_divergence (with_req_body r body) = Ok tt →
  match vp_mcp_transport policy with Some t => enforce t (with_req_body r body) = Ok tt | None => True end →
  accepted_algorithm policy ALG_ED25519 = Some Ed25519Alg →
  window_admits created expires now (vp_max_clock_skew policy) = true →
  saturating_sub expires created ≤ vp_max_signature_validity policy →
  resolve_actor kid SlotRequest = Resolved actor → ra_slot actor = SlotRequest →
  ra_verification_key actor = SigningKey_public_key key →
  ∃ v, full_request r' expected material resolve_actor policy now = Ok v ∧
    vr_request_block v = block ∧ vr_audience v = expected ∧ fr_evidence (vr_floor v) = ev ∧
    fr_nonce (vr_floor v) = nonce ∧ fr_resolved_actor (vr_floor v) = actor.
Proof.
  intros Hs Hi Hv [Ha Hu] HF Hr Hjson Hdiv Htr Halg Hwin Hval Hres Hslot Hkey.
  unfold sign_request_full in Hs. rewrite Hi in Hs.
  destruct (signed_request_floor _ _ _ _ _ _ _ _ resolve_actor policy now actor Hs Hr Hjson Hdiv Htr
    Halg Hwin Hval Hres Hslot Hkey) as (w & Hf & Hev & _ & Hn & _ & _ & Hact).
  destruct (signed_parts _ _ _ _ _ _ _ _ Hs Hr) as (_ & _ & _ & Hu' & Hb' & _).
  assert (same_header b#"authorization" (req_headers r') (req_headers r)) as Hsame
    by (apply (signed_same _ _ _ _ _ _ _ _ Hs); done).
  unfold full_request. rewrite Hf, Hb'. cbn [req_body with_req_body].
  rewrite (extract_inserted _ _ _ _ _ Hi), (floor_profile_id _ _ _ _ _ Hf), Hv.
  rewrite (proj2 (enforce_full_profile_bindings_Ok r' block expected material tt)).
  - eexists. split; [reflexivity|]. by simpl.
  - split_and!; [done|by rewrite Hu'|]. eapply Forall_impl; [exact HF|]. intros b.
    apply binding_enforced_same. by unfold same_header in *.
Qed.

(** The handle derived from a request is the one verification derives. *)
Lemma request_evidence_of_floor `{Base64, Sha2, Ed25519, SerdeJson} request resolve_actor policy now v :
  floor_request request resolve_actor policy now = Ok v → request_evidence_of request = Ok (fr_evidence v).
Proof.
  unfold floor_request. intros Hf. inv_ok. unfold request_evidence_of. rewrite E3. cbn [map_err]. by rewrite E4, E5, E11.
Qed.

(** An accepted response answers the request it is checked against. When the full
    verifier accepts a response, the floor accepted its signature over response and request,
    the body's evidence block names the key that signed, and both handles of the product are
    the handle of this very request: the one the server's own verification of that request
    recorded, whatever policy and resolver it used. *)
Lemma full_bound_response_sound `{Base64, Sha2, Ed25519, SerdeJson, !Serde HttpResponseEvidenceBlock}
    response request resolve_actor policy now v :
  full_bound_response response request resolve_actor policy now = Ok v →
  floor_bound_response response request resolve_actor policy now = Ok (vs_floor v) ∧
  ai_keyid (vs_server_signer v) = ai_keyid (ra_identity (fb_resolved_server_actor (vs_floor v))) ∧
  (∃ ev, request_evidence_of request = Ok ev ∧
     vs_request_evidence_agreement v = {| bound_request_evidence := ev; body_request_evidence := ev |}) ∧
  (∀ server_resolver server_policy server_now w,
     floor_request request server_resolver server_policy server_now = Ok w →
     body_request_evidence (vs_request_evidence_agreement v) = fr_evidence w).
Proof.
  unfold full_bound_response. intros Hf. inv_ok. bool_prop. str_prop.
  cbn [vs_floor from_block vs_request_evidence_agreement vs_server_signer].
  assert (block_agreement v3 v1 = {| bound_request_evidence := v3; body_request_evidence := v3 |}) as Hag.
  { unfold block_agreement. f_equal. by apply evidence_eta. }
  split_and!; [done..|by eauto|].
  intros rs ps ns w Hw%request_evidence_of_floor. rewrite Hag. simpl. congruence.
Qed.

(** ** Witnesses *)

Import Instances.

Definition w_audience : AudienceTuple :=
  {| audience_id := b#"srv"; aud_target_uri := b#"https://h/mcp"; aud_route := None |}.
Definition w_block : HttpRequestEvidenceBlock :=
  {| rb_profile := PROFILE_TAG; rb_audience := w_audience;
     rb_artifact_bindings := [opaque_digest OauthMtls b#"cert"]; rb_continuation := None;
     rb_admission := None; rb_admission_assertion := None; rb_authorization_decision := None |}.
Definition w_material : artifact_source := λ _, Some b#"cert".
#[local] Instance w_f64 : F64Carrier := { f64_reemit := Some }.
#[local] Instance w_request_serde : Serde HttpRequestEvidenceBlock := one_value_serde w_block b#"q".
#[local] Instance w_request_serde_laws : SerdeLaws (T := HttpRequestEvidenceBlock).
Proof. apply one_value_serde_laws. Qed.

Definition w_plain : HttpRequest := with_req_body w_request (default [] (to_vec (Object ∅))).
Definition w_body : bytes :=
  match insert_meta_block (req_body w_plain) REQUEST_EVIDENCE_BLOCK_KEY w_block with Ok b => b | Err _ => [] end.
Definition w_full : HttpRequest * Result RequestEvidence HttpProfileError :=
  sign_request_full w_plain w_block w_key b#"k1" 100 160 b#"n1".
Definition w_full_evidence : RequestEvidence :=
  match snd w_full with Ok ev => ev | Err _ => {| digest_alg := []; digest_value := [] |} end.

Definition w_server_block : HttpResponseEvidenceBlock :=
  response_block (ra_identity (w_actor SlotResponse)) b#"jws" w_full_evidence.
#[local] Instance w_response_serde : Serde HttpResponseEvidenceBlock := one_value_serde w_server_block b#"s".
Definition w_full_response : HttpResponse :=
  fst (sign_delegated_response_full (with_resp_body w_response (default [] (to_vec (Object ∅)))) (fst w_full)
         w_full_evidence (ra_identity (w_actor SlotResponse)) b#"jws" w_key b#"k1" 100 160).
