(* ===== verification/Context.v ===== *)
(** * [mcp-re-http-profile/src/context]

    What the proxy hands to the inner server: the caller's body without the keys the proxy
    owns ([reserved_key_strip.rs], [seeded_meta_positions.rs]), with the proxy's own verified
    context put in ([verified.rs], [policy.rs]), and how the inner server reads it
    ([claim.rs], [block_schema.rs]).

    The descent over the body recurses into what it has just changed, so it takes the height
    of the tree as fuel; [strip_equation] shows that this is enough. *)

From S2P Require Import Prelude.
From S2P Require Import RustStr.
From S2P Require Import Externals.
From S2P Require Import Json.
From S2P Require Import Concrete.
From S2P Require Import CoreError.
From S2P Require Import CoreResolver.
From S2P Require Import HttpMessage.
From S2P Require Import SigBase.
From S2P Require Import Policy.
From S2P Require Import Blocks.
From S2P Require Import Body.
From S2P Require Import Floor.
From S2P Require Import Full.

(** ** [policy.rs] *)

Inductive VerifiedContextPolicy : Type := Disabled | Trusted.

(** A token only the policy hands out. *)
Inductive TrustedInnerChannel : Type := Channel.

Definition trusted_inner_channel (p : VerifiedContextPolicy) : option TrustedInnerChannel :=
  match p with Disabled => None | Trusted => Some Channel end.

(** ** [seeded_meta_positions.rs] *)

Record SeededMetaPositions := { paths : list bytes }.

Definition names (s : SeededMetaPositions) (wanted : list bytes) : bool :=
  existsb (λ path, existsb (bytes_eqb path) wanted) (paths s).
Definition top_level (s : SeededMetaPositions) : bool := names s [b#"_meta"].
Definition params_object (s : SeededMetaPositions) : bool := names s [b#"params._meta"].
Definition seeded_display (s : SeededMetaPositions) : bytes :=
  let named := join b#", " (paths s) in
  match named with [] => b#"none" | _ :: _ => named end.

(** ** [reserved_key_strip.rs] *)

Record StrippedBody := { stripped_body : bytes; seeded : SeededMetaPositions }.

(** [Map::remove], and the write through [Map::get_mut]. *)
Definition remove_key {A} (k : bytes) (m : list (bytes * A)) : list (bytes * A) :=
  filter (λ kv, bytes_eqb kv.1 k = false) m.
Definition update_key {A} (k : bytes) (v : A) (m : list (bytes * A)) : list (bytes * A) :=
  map (λ kv, if bytes_eqb kv.1 k then (kv.1, v) else kv) m.

Definition member_path (parent key : bytes) : bytes :=
  match parent with [] => key | _ :: _ => parent ++ b#"." ++ key end.
Definition element_path (path : bytes) (index : nat) : bytes :=
  path ++ b#"[" ++ fmt_nat (Z.of_nat index) ++ b#"]".

Section strip.
Context {N : Type}.

Definition strip_meta_of (container : list (bytes * json N)) : list (bytes * json N) * bool :=
  match assoc META_KEY container with
  | Some (JObj meta) =>
      let removed_evidence := contains_key REQUEST_EVIDENCE_BLOCK_KEY meta in
      let meta := remove_key REQUEST_EVIDENCE_BLOCK_KEY meta in
      let seeded := contains_key VERIFIED_CONTEXT_BLOCK_KEY meta in
      let meta := remove_key VERIFIED_CONTEXT_BLOCK_KEY meta in
      (if (removed_evidence || seeded) && match meta with [] => true | _ :: _ => false end
       then remove_key META_KEY container
       else update_key META_KEY (JObj meta) container, seeded)
  | _ => (container, false)
  end.

(** The two loops over the children; [strip] is the recursive call, and what it found is
    appended in the order of the pushes. *)
Fixpoint strip_members (strip : json N → bytes → json N * list bytes) (path : bytes)
    (map : list (bytes * json N)) : list (bytes * json N) * list bytes :=
  match map with
  | [] => ([], [])
  | (key, child) :: rest =>
      let '(child', found) := strip child (member_path path key) in
      let '(rest', found') := strip_members strip path rest in
      ((key, child') :: rest', found ++ found')
  end.
Fixpoint strip_elements (strip : json N → bytes → json N * list bytes) (path : bytes)
    (index : nat) (elements : list (json N)) : list (json N) * list bytes :=
  match elements with
  | [] => ([], [])
  | child :: rest =>
      let '(child', found) := strip child (element_path path index) in
      let '(rest', found') := strip_elements strip path (S index) rest in
      (child' :: rest', found ++ found')
  end.

Definition strip_object (strip : json N → bytes → json N * list bytes) (map : list (bytes * json N))
    (path : bytes) : list (bytes * json N) * list bytes :=
  let '(map, was_seeded) := strip_meta_of map in
  let '(map, found) := strip_members strip path map in
  (map, (if was_seeded then [member_path path b#"_meta"] else []) ++ found).

(** Containers above a leaf: the fuel of the descent. *)
Fixpoint height (j : json N) : nat :=
  match j with
  | JArr l => S (foldr (λ x n, Nat.max (height x) n) 0%nat l)
  | JObj m => S (foldr (λ kv n, Nat.max (height kv.2) n) 0%nat m)
  | _ => 0%nat
  end.

Fixpoint strip_descendant_meta_fuel (fuel : nat) (value : json N) (path : bytes) : json N * list bytes :=
  match fuel with
  | O => (value, [])
  | S f =>
      match value with
      | JObj map => let '(map', found) := strip_object (strip_descendant_meta_fuel f) map path in (JObj map', found)
      | JArr elements =>
          let '(elements', found) := strip_elements (strip_descendant_meta_fuel f) path 0 elements in
          (JArr elements', found)
      | _ => (value, [])
      end
  end.
Definition strip_descendant_meta (value : json N) (path : bytes) : json N * list bytes :=
  strip_descendant_meta_fuel (height value) value path.
End strip.

Section body.
Context `{JsonTree}.

Definition refuse_unwalkable_shape (value : json Number) : Result unit HttpProfileError :=
  match value with
  | JObj object =>
      match assoc b#"params" object with
      | None | Some (JObj _) | Some (JArr _) => Ok tt
      | Some _ => Err (HPE.MalformedEvidence b#"request params is neither an object nor an array")
      end
  | _ => Err (HPE.MalformedEvidence b#"request body is not a JSON object")
  end.

Definition strip_proxy_owned_meta (body : bytes) : Result StrippedBody HttpProfileError :=
  let? value := ok_or (from_slice body) (HPE.MalformedEvidence b#"request body is not JSON") in
  refuse_unwalkable_shape (tree_of value) ;?
  let '(value', found) := strip_descendant_meta (tree_of value) [] in
  let? body := ok_or (to_vec (value_of value')) (HPE.MalformedEvidence b#"body reserialize") in
  Ok {| stripped_body := body; seeded := {| paths := found |} |}.
End body.

(** ** [block_schema.rs], [verified.rs], [claim.rs] *)

Definition VERIFIED_CONTEXT_BLOCK_SCHEMA : bytes := b#"se.syncom/mcp-re.verified-context/1".

(** The unit type [BlockSchema] carries nothing: the derives read and write its one text. *)
Definition read_block_schema (declared : bytes) : option unit :=
  if bytes_eqb declared VERIFIED_CONTEXT_BLOCK_SCHEMA then Some tt else None.

Record VerifiedContext := {
  vc_profile : bytes;
  vc_actor_id : bytes;
  vc_key_id : bytes;
  vc_audience : AudienceTuple;
  vc_request_evidence : RequestEvidence;
  vc_verified_at : Z;
  vc_request_expires : Z;
}.

#[global] Instance VerifiedContext_eq_dec : EqDecision VerifiedContext.
Proof. solve_decision. Defined.

Record UnauthenticatedContextClaim := {
  cl_profile : bytes;
  cl_actor_id : bytes;
  cl_key_id : bytes;
  cl_audience : AudienceTuple;
  cl_request_evidence : RequestEvidence;
  cl_verified_at : Z;
  cl_request_expires : Z;
}.

Definition from_verified `{Ed25519} (verified : VerifiedMcpRequest) (verified_at : Z) : VerifiedContext :=
  let floor := vr_floor verified in
  {| vc_profile := fr_profile_id floor;
     vc_actor_id := actor_id (ra_identity (fr_resolved_actor floor));
     vc_key_id := fr_key_id floor; vc_audience := vr_audience verified;
     vc_request_evidence := fr_evidence floor; vc_verified_at := verified_at;
     vc_request_expires := fr_expires floor |}.

(** What the context states, as the inner server reads it. *)
Definition claim_of (c : VerifiedContext) : UnauthenticatedContextClaim :=
  {| cl_profile := vc_profile c; cl_actor_id := vc_actor_id c; cl_key_id := vc_key_id c;
     cl_audience := vc_audience c; cl_request_evidence := vc_request_evidence c;
     cl_verified_at := vc_verified_at c; cl_request_expires := vc_request_expires c |}.

Definition insert_verified_context `{SerdeJson, F64Carrier, !Serde VerifiedContext}
    (stripped : StrippedBody) (context : VerifiedContext) (_trusted_channel : TrustedInnerChannel)
  : Result bytes HttpProfileError :=
  insert_meta_block (stripped_body stripped) VERIFIED_CONTEXT_BLOCK_KEY context.

Definition extract_verified_context `{SerdeJson, F64Carrier, !Serde UnauthenticatedContextClaim} (body : bytes)
  : Result UnauthenticatedContextClaim HttpProfileError :=
  extract_meta_block body VERIFIED_CONTEXT_BLOCK_KEY b#"verified context".

(** ** Positions in a tree *)

Inductive Step : Type := Key (k : bytes) | Index (n : nat).

Fixpoint node_at {N} (j : json N) (p : list Step) : option (json N) :=
  match p with
  | [] => Some j
  | Key k :: p' => match j with JObj m => assoc k m ≫= λ c, node_at c p' | _ => None end
  | Index n :: p' => match j with JArr l => l !! n ≫= λ c, node_at c p' | _ => None end
  end.

Definition reserved (k : bytes) : bool :=
  bytes_eqb k REQUEST_EVIDENCE_BLOCK_KEY || bytes_eqb k VERIFIED_CONTEXT_BLOCK_KEY.

(** A position at or below a key the proxy owns: [_meta] and then a reserved key. *)
Fixpoint proxy_owned (p : list Step) : bool :=
  match p with
  | Key a :: (Key b :: _) as rest => (bytes_eqb a META_KEY && reserved b) || proxy_owned rest
  | _ :: rest => proxy_owned rest
  | [] => false
  end.


(** ** Maps *)

Lemma assoc_remove {A} k k' (m : list (bytes * A)) :
  assoc k (remove_key k' m) = if bytes_eqb k k' then None else assoc k m.
Proof.
  unfold remove_key. induction m as [|[x v] m IH]; simpl; [by destruct (bytes_eqb k k')|].
  rewrite filter_cons. case_decide as Hd; cbn [fst] in Hd; simpl; rewrite IH.
  - destruct (bytes_eqb x k) eqn:Exk; [|done]. apply bytes_eqb_true in Exk as ->. by rewrite Hd.
  - apply not_false_is_true, bytes_eqb_true in Hd as ->. rewrite (bytes_eqb_sym k' k).
    by destruct (bytes_eqb k k').
Qed.

Lemma assoc_update {A} k k' v (m : list (bytes * A)) :
  assoc k (update_key k' v m) = if bytes_eqb k k' then (λ _, v) <$> assoc k m else assoc k m.
Proof.
  induction m as [|[x w] m IH]; simpl; [by destruct (bytes_eqb k k')|].
  destruct (bytes_eqb x k') eqn:Ex; simpl; rewrite IH.
  - apply bytes_eqb_true in Ex as ->. rewrite (bytes_eqb_sym k k').
    by destruct (bytes_eqb k' k) eqn:E.
  - destruct (bytes_eqb x k) eqn:Exk; [|done]. apply bytes_eqb_true in Exk as ->. by rewrite Ex.
Qed.

(** ** One object *)

Section proofs.
Context {N : Type}.
Implicit Types (j t : json N) (m meta : list (bytes * json N)).

Definition members_height m : nat := foldr (λ kv n, Nat.max (height kv.2) n) 0%nat m.

Lemma member_height k c m : assoc k m = Some c → (height c ≤ members_height m)%nat.
Proof.
  intros Hin%assoc_elem. induction m as [|[x w] m IH]; [set_solver|]. simpl.
  apply elem_of_cons in Hin as [?|?%IH]; simplify_eq/=; lia.
Qed.

Lemma element_height c (l : list (json N)) : c ∈ l → (height c < height (JArr l))%nat.
Proof.
  simpl. induction l as [|x l IH]; [set_solver|]. simpl.
  intros [->|?%IH]%elem_of_cons; lia.
Qed.

Lemma members_height_incl m m' :
  (∀ kv, kv ∈ m' → (height kv.2 ≤ members_height m)%nat) → (members_height m' ≤ members_height m)%nat.
Proof.
  induction m' as [|kv m' IH]; simpl; intros Hk; [lia|].
  pose proof (Hk kv ltac:(by left)). apply Nat.max_lub; [done|]. apply IH. intros x ?. apply Hk. by right.
Qed.

Lemma elem_height kv m : kv ∈ m → (height kv.2 ≤ members_height m)%nat.
Proof.
  induction m as [|x m IH]; [set_solver|]. simpl. intros [->|?%IH]%elem_of_cons; lia.
Qed.

(** The remaining members of a [_meta] object. *)
Definition kept_meta (meta : list (bytes * json N)) : list (bytes * json N) :=
  remove_key VERIFIED_CONTEXT_BLOCK_KEY (remove_key REQUEST_EVIDENCE_BLOCK_KEY meta).

Lemma assoc_kept b meta : assoc b (kept_meta meta) = if reserved b then None else assoc b meta.
Proof.
  unfold kept_meta, reserved. rewrite !assoc_remove.
  by destruct (bytes_eqb b REQUEST_EVIDENCE_BLOCK_KEY), (bytes_eqb b VERIFIED_CONTEXT_BLOCK_KEY).
Qed.

Lemma remove_key_incl {A} k (m : list (bytes * A)) kv : kv ∈ remove_key k m → kv ∈ m.
Proof. by intros [_ ?]%list_elem_of_filter. Qed.

Lemma kept_height meta : (height (JObj (kept_meta meta)) ≤ height (JObj meta))%nat.
Proof.
  simpl. apply le_n_S, members_height_incl. intros kv Hin. apply elem_height.
  by do 2 apply remove_key_incl in Hin.
Qed.

Lemma kept_wf meta : json_wf (JObj meta) → json_wf (JObj (kept_meta meta)).
Proof.
  inversion 1 as [| | | | |? Hs HF]; subst. constructor; [by do 2 apply keys_sorted_filter|].
  apply Forall_forall. intros kv Hin. do 2 apply remove_key_incl in Hin. by eapply Forall_forall in HF.
Qed.

Lemma META_not_reserved : reserved META_KEY = false.
Proof. by vm_compute. Qed.

(** What [strip_meta_of] leaves under each key, and whether it reports. *)
Lemma strip_meta_of_spec m m1 s :
  strip_meta_of m = (m1, s) →
  (∀ k, k ≠ META_KEY → assoc k m1 = assoc k m) ∧
  match assoc META_KEY m with
  | Some (JObj meta) =>
      (assoc META_KEY m1 = Some (JObj (kept_meta meta)) ∨ assoc META_KEY m1 = None ∧ kept_meta meta = []) ∧
      s = contains_key VERIFIED_CONTEXT_BLOCK_KEY meta
  | _ => m1 = m ∧ s = false
  end.
Proof.
  unfold strip_meta_of. destruct (assoc META_KEY m) as [[| | | | |meta]|] eqn:Em; intros [= <- <-]; try done.
  fold (kept_meta meta). split.
  - intros k Hk. apply bytes_eqb_false in Hk. destruct (_ && _).
    + by rewrite assoc_remove, Hk.
    + by rewrite assoc_update, Hk.
  - split.
    + destruct (_ && _) eqn:Ed.
      * right. rewrite assoc_remove, bytes_eqb_refl. split; [done|].
        apply andb_true_iff in Ed as [_ Ed]. by destruct (kept_meta meta).
      * left. by rewrite assoc_update, bytes_eqb_refl, Em.
    + unfold contains_key. by rewrite assoc_remove.
Qed.

Lemma strip_meta_of_wf m m1 s : strip_meta_of m = (m1, s) → json_wf (JObj m) → json_wf (JObj m1).
Proof.
  intros Hs Hw. unfold strip_meta_of in Hs.
  destruct (assoc META_KEY m) as [[| | | | |meta]|] eqn:Em; simplify_eq; try done.
  inversion Hw as [| | | | |? Hk HF]; subst. fold (kept_meta meta). destruct (_ && _).
  - constructor; [by apply keys_sorted_filter|]. apply Forall_forall. intros kv ?%remove_key_incl.
    by eapply Forall_forall in HF.
  - assert (json_wf (JObj (kept_meta meta))) as Hkept.
    { apply kept_wf. apply assoc_elem in Em. exact (proj1 (Forall_forall _ _) HF _ Em). }
    constructor.
    + eapply keys_sorted_fst; [|exact Hk]. unfold update_key. rewrite <-list_fmap_compose.
      apply list_fmap_ext. intros i [k v] _. unfold compose. cbn [fst]. by destruct (bytes_eqb k META_KEY).
    + apply Forall_map. eapply Forall_impl; [exact HF|]. intros [k v] Hv. unfold compose. cbn [fst].
      by destruct (bytes_eqb k META_KEY).
Qed.

Lemma strip_meta_of_height m m1 s k c :
  strip_meta_of m = (m1, s) → assoc k m1 = Some c → (height c ≤ members_height m)%nat.
Proof.
  intros [Hk Hm]%strip_meta_of_spec Hc. destruct (decide (k = META_KEY)) as [->|Hne].
  - destruct (assoc META_KEY m) as [[| | | | |meta]|] eqn:Em;
      try (destruct Hm as [-> _]; eapply member_height; exact Hc).
    destruct Hm as [[Hm|[Hm _]] _]; rewrite Hm in Hc; simplify_eq. etrans; [apply kept_height|].
    by eapply member_height.
  - rewrite Hk in Hc by done. by eapply member_height.
Qed.

Lemma strip_meta_of_elem_height m m1 s kv :
  strip_meta_of m = (m1, s) → kv ∈ m1 → (height kv.2 ≤ members_height m)%nat.
Proof.
  unfold strip_meta_of. intros Hs Hin.
  destruct (assoc META_KEY m) as [[| | | | |meta]|] eqn:Em; simplify_eq; try by apply elem_height.
  fold (kept_meta meta) in Hin. destruct (_ && _); [by apply elem_height, (remove_key_incl META_KEY)|].
  apply list_elem_of_fmap in Hin as ([k v] & -> & Hin). cbn [fst].
  destruct (bytes_eqb k META_KEY); [|by apply elem_height].
  etrans; [apply kept_height|]. by eapply member_height.
Qed.

(** ** The loops *)

Implicit Types strip : json N → bytes → json N * list bytes.

Lemma strip_members_spec strip path m m' fs :
  strip_members strip path m = (m', fs) →
  m'.*1 = m.*1 ∧ (∀ k, assoc k m' = (λ c, (strip c (member_path path k)).1) <$> assoc k m) ∧
  (∀ x, x ∈ fs ↔ ∃ k c, (k, c) ∈ m ∧ x ∈ (strip c (member_path path k)).2).
Proof.
  revert m' fs. induction m as [|[k c] m IH]; simpl; intros m' fs Hs.
  - simplify_eq. split_and!; [done..|]. set_solver.
  - destruct (strip c (member_path path k)) as [c' f] eqn:Ec.
    destruct (strip_members strip path m) as [m1 f1] eqn:Em. simplify_eq.
    destruct (IH _ _ eq_refl) as (Hk & Ha & Hf). split_and!.
    + by rewrite fmap_cons, Hk.
    + intros k'. simpl. rewrite Ha. destruct (bytes_eqb k k') eqn:E; [|done].
      apply bytes_eqb_true in E as ->. simpl. by rewrite Ec.
    + intros x. rewrite elem_of_app, Hf. split.
      * intros [Hx|(k' & c0 & Hin & Hx)]; [exists k, c; split; [by left|by rewrite Ec]|exists k', c0; split; [by right|done]].
      * intros (k' & c0 & [?|Hin]%elem_of_cons & Hx); [simplify_eq; left; by rewrite Ec in Hx|right; eauto].
Qed.

Lemma strip_elements_spec strip path i l l' fs :
  strip_elements strip path i l = (l', fs) →
  (∀ n, l' !! n = (λ c, (strip c (element_path path (i + n))).1) <$> l !! n) ∧
  (∀ x, x ∈ fs ↔ ∃ n c, l !! n = Some c ∧ x ∈ (strip c (element_path path (i + n))).2).
Proof.
  revert i l' fs. induction l as [|c l IH]; simpl; intros i l' fs Hs.
  - simplify_eq. split; [done|]. intros x. split; [set_solver|]. by intros (? & ? & ? & _).
  - destruct (strip c (element_path path i)) as [c' f] eqn:Ec.
    destruct (strip_elements strip path (S i) l) as [l1 f1] eqn:El. simplify_eq.
    destruct (IH _ _ _ El) as (Ha & Hf). split.
    + intros [|n]; simpl; [rewrite Nat.add_0_r; by rewrite Ec|]. rewrite Ha. by rewrite Nat.add_succ_r.
    + intros x. rewrite elem_of_app, Hf. split.
      * intros [Hx|(n & c0 & Hn & Hx)]; [exists 0%nat, c; split; [done|by rewrite Nat.add_0_r, Ec]|].
        exists (S n), c0. split; [done|]. by rewrite Nat.add_succ_r.
      * intros ([|n] & c0 & Hn & Hx); simplify_eq/=; [left; by rewrite Nat.add_0_r, Ec in Hx|right].
        exists n, c0. split; [done|]. by rewrite Nat.add_succ_r in Hx.
Qed.

(** ** The descent *)

Definition stripped (fuel : nat) (path : bytes) (t : json N) : json N :=
  (strip_descendant_meta_fuel fuel t path).1.

(** What the children of a stripped object are: of each key what [strip_meta_of] left of it,
    stripped in turn. *)
Lemma strip_object_node fuel path m :
  ∃ m1 s m2, strip_meta_of m = (m1, s) ∧ stripped (S fuel) path (JObj m) = JObj m2 ∧ m2.*1 = m1.*1 ∧
    (∀ k, assoc k m2 = stripped fuel (member_path path k) <$> assoc k m1) ∧
    (∀ x, x ∈ (strip_descendant_meta_fuel (S fuel) (JObj m) path).2 ↔
       (s = true ∧ x = member_path path b#"_meta") ∨
       ∃ k c, (k, c) ∈ m1 ∧ x ∈ (strip_descendant_meta_fuel fuel c (member_path path k)).2).
Proof.
  unfold stripped. cbn [strip_descendant_meta_fuel]. unfold strip_object.
  destruct (strip_meta_of m) as [m1 s] eqn:Em.
  destruct (strip_members _ path m1) as [m2 f] eqn:Es.
  apply strip_members_spec in Es as (Hk & Ha & Hf).
  exists m1, s, m2. split_and!; [done..|]. intros x. cbn [snd]. rewrite elem_of_app, Hf.
  destruct s; rewrite ?list_elem_of_singleton, ?elem_of_nil; naive_solver.
Qed.

Lemma strip_wf fuel : ∀ path t, json_wf t → json_wf (stripped fuel path t).
Proof.
  induction fuel as [|fuel IH]; intros path t Hw; [done|].
  destruct t as [| | | |l|m]; try done.
  - unfold stripped. cbn [strip_descendant_meta_fuel].
    destruct (strip_elements _ path 0 l) as [l' f] eqn:Es. simpl.
    apply strip_elements_spec in Es as [Ha _]. constructor. apply Forall_lookup. intros n x Hx.
    rewrite Ha in Hx. apply fmap_Some in Hx as (c & Hc & ->). apply IH.
    inversion Hw as [| | | |? HF|]; subst. by eapply Forall_lookup in HF.
  - destruct (strip_object_node fuel path m) as (m1 & s & m2 & Hm & -> & Hk & Ha & _).
    pose proof (strip_meta_of_wf _ _ _ Hm Hw) as Hw1. inversion Hw1 as [| | | | |? Hs1 HF1]; subst.
    assert (keys_sorted m2) as Hs2 by (by eapply keys_sorted_fst). constructor; [done|].
    apply Forall_forall. intros [k x] Hin. apply (elem_assoc k x) in Hin; [|done]. rewrite Ha in Hin.
    apply fmap_Some in Hin as (c & Hc & ->). simpl. apply IH. apply assoc_elem in Hc.
    exact (proj1 (Forall_forall _ _) HF1 _ Hc).
Qed.

(** No key the proxy owns is left anywhere. *)
Lemma strip_removes fuel : ∀ path t p,
  (height t ≤ fuel)%nat → proxy_owned p = true → node_at (stripped fuel path t) p = None.
Proof.
  induction fuel as [|fuel IH]; intros path t p Hh Hp.
  { destruct p as [|[k|n] p]; [done|..]; destruct t; simpl in *; done || lia. }
  destruct p as [|[k|n] p]; [done|..].
  - destruct t as [| | | |l|m]; try done.
    { unfold stripped. cbn [strip_descendant_meta_fuel]. by destruct (strip_elements _ path 0 l). }
    destruct (strip_object_node fuel path m) as (m1 & s & m2 & Hm & -> & _ & Ha & _).
    cbn [node_at]. rewrite Ha. destruct (assoc k m1) as [c|] eqn:Hc; [|done]. simpl.
    pose proof (strip_meta_of_height _ _ _ _ _ Hm Hc) as Hch. simpl in Hh.
    destruct (proxy_owned p) eqn:Ep; [apply IH; [unfold members_height in Hch; lia|done]|].
    destruct p as [|[b|n] p]; cbn [proxy_owned] in Hp, Ep; try congruence.
    rewrite Ep, orb_false_r in Hp. bool_prop. str_prop. subst k.
    apply strip_meta_of_spec in Hm as [_ Hm].
    (* [c] is the [_meta] member: an object without the reserved keys, or no object at all. *)
    assert (∀ meta', c = JObj meta' → assoc b meta' = None) as Hnone.
    { intros meta' ->. destruct (assoc META_KEY m) as [[| | | | |meta]|] eqn:Em;
        try (destruct Hm as [-> _]; congruence).
      destruct Hm as [[Hm|[Hm _]] _]; rewrite Hm in Hc; simplify_eq. rewrite assoc_kept.
      by match goal with Hr : reserved b = true |- _ => rewrite Hr end. }
    destruct c as [| | | |l|meta']; try (by destruct fuel).
    + destruct fuel; [done|]. unfold stripped. cbn [strip_descendant_meta_fuel].
      by destruct (strip_elements _ _ 0 l).
    + destruct fuel as [|fuel]; [by cbn [node_at stripped strip_descendant_meta_fuel fst]; rewrite (Hnone _ eq_refl)|].
      destruct (strip_object_node fuel (member_path path META_KEY) meta') as (m3 & s3 & m4 & Hm3 & -> & _ & Ha3 & _).
      cbn [node_at]. rewrite Ha3. apply strip_meta_of_spec in Hm3 as [Hm3 _].
      rewrite Hm3; [by rewrite (Hnone _ eq_refl)|].
      intros ->. match goal with Hr : reserved META_KEY = true |- _ => by rewrite META_not_reserved in Hr end.
  - assert (proxy_owned p = true) as Hp' by (by destruct p). clear Hp.
    destruct t as [| | | |l|m]; try done.
    + unfold stripped. cbn [strip_descendant_meta_fuel].
      destruct (strip_elements _ path 0 l) as [l' f] eqn:Es. cbn [fst node_at].
      apply strip_elements_spec in Es as [Ha _]. rewrite Ha. destruct (l !! n) as [c|] eqn:Hc; [|done].
      simpl. apply IH; [|done]. pose proof (element_height c l ltac:(by eapply list_elem_of_lookup_2)). lia.
    + by destruct (strip_object_node fuel path m) as (m1 & s & m2 & Hm & -> & _).
Qed.




(** ** What is reported *)








(** The loops depend on the recursive call only at their children. *)
Lemma strip_members_ext s1 s2 path m :
  (∀ k c, (k, c) ∈ m → ∀ q, s1 c q = s2 c q) → strip_members s1 path m = strip_members s2 path m.
Proof.
  induction m as [|[k c] m IH]; intros Heq; simpl; [done|].
  rewrite (Heq k c), IH; [done|set_solver|set_solver].
Qed.
Lemma strip_elements_ext s1 s2 path (l : list (json N)) : ∀ i,
  (∀ c, c ∈ l → ∀ q, s1 c q = s2 c q) → strip_elements s1 path i l = strip_elements s2 path i l.
Proof.
  induction l as [|c l IH]; intros i Heq; simpl; [done|].
  rewrite (Heq c), IH; [done|set_solver|set_solver].
Qed.

(** More fuel than the height changes nothing. *)
Lemma strip_fuel_enough fuel : ∀ fuel' path t,
  (height t ≤ fuel)%nat → (height t ≤ fuel')%nat →
  strip_descendant_meta_fuel fuel t path = strip_descendant_meta_fuel fuel' t path.
Proof.
  induction fuel as [|fuel IH]; intros [|fuel'] path t H1 H2; [done|..];
    try (destruct t; simpl in H1, H2; done || lia).
  destruct t as [| | | |l|m]; try done; cbn [strip_descendant_meta_fuel].
  - erewrite strip_elements_ext; [done|]. intros c Hc q.
    pose proof (element_height c l Hc). apply IH; lia.
  - unfold strip_object. destruct (strip_meta_of m) as [m1 s] eqn:Hm.
    erewrite strip_members_ext; [done|]. intros k c Hin q.
    pose proof (strip_meta_of_elem_height _ _ _ _ Hm Hin). simpl in H1, H2. unfold members_height in *.
    cbn [snd] in *. apply IH; lia.
Qed.

(** The descent is the recursion of the code: on an object the reserved keys are removed from
    its [_meta] and then every member is descended into, on an array every element. *)
Lemma strip_equation t path :
  strip_descendant_meta t path =
    match t with
    | JObj m => let '(m', found) := strip_object strip_descendant_meta m path in (JObj m', found)
    | JArr l => let '(l', found) := strip_elements strip_descendant_meta path 0 l in (JArr l', found)
    | _ => (t, [])
    end.
Proof.
  destruct t as [| | | |l|m]; try done; unfold strip_descendant_meta at 1; cbn [height strip_descendant_meta_fuel].
  - erewrite strip_elements_ext; [done|]. intros c Hc q.
    pose proof (element_height c l Hc) as Hh. cbn [height] in Hh. apply strip_fuel_enough; [lia|done].
  - unfold strip_object. destruct (strip_meta_of m) as [m1 s] eqn:Hm.
    erewrite strip_members_ext; [done|]. intros k c Hin q.
    pose proof (strip_meta_of_elem_height _ _ _ _ Hm Hin) as Hh. apply strip_fuel_enough; [exact Hh|done].
Qed.

(** ** A clean tree is left alone *)

Definition clean (t : json N) : Prop := ∀ p, proxy_owned p = true → node_at t p = None.

Lemma remove_absent {A} k (m : list (bytes * A)) : contains_key k m = false → remove_key k m = m.
Proof.
  unfold contains_key, remove_key. induction m as [|[x v] m IH]; simpl; [done|].
  destruct (bytes_eqb x k) eqn:E; [done|]. intros Hm. rewrite filter_cons, decide_True by done. by rewrite IH.
Qed.

Lemma update_same {A} k v (m : list (bytes * A)) : keys_sorted m → assoc k m = Some v → update_key k v m = m.
Proof.
  intros Hs Ha. unfold update_key. rewrite <-(list_fmap_id m) at 2. apply list_fmap_ext.
  intros i [x w] Hi. cbn [fst]. destruct (bytes_eqb x k) eqn:E; [|done]. apply bytes_eqb_true in E as ->.
  apply list_elem_of_lookup_2, (elem_assoc k w) in Hi; [|done]. by simplify_eq.
Qed.

Lemma strip_meta_of_clean m : json_wf (JObj m) → clean (JObj m) → strip_meta_of m = (m, false).
Proof.
  intros Hw Hc. unfold strip_meta_of. destruct (assoc META_KEY m) as [[| | | | |meta]|] eqn:Em; try done.
  assert (∀ b, reserved b = true → contains_key b meta = false) as Hr.
  { intros b Hb. specialize (Hc [Key META_KEY; Key b]). cbn [proxy_owned node_at] in Hc.
    rewrite bytes_eqb_refl, Hb, Em in Hc. specialize (Hc eq_refl). simpl in Hc.
    unfold contains_key. by destruct (assoc b meta). }
  pose proof (Hr REQUEST_EVIDENCE_BLOCK_KEY ltac:(by vm_compute)) as Hr1.
  pose proof (Hr VERIFIED_CONTEXT_BLOCK_KEY ltac:(by vm_compute)) as Hr2.
  rewrite (remove_absent _ _ Hr1), Hr1, Hr2, (remove_absent _ _ Hr2). cbn [orb andb].
  inversion Hw; subst. by rewrite update_same.
Qed.

Lemma clean_member m k c : clean (JObj m) → assoc k m = Some c → clean c.
Proof.
  intros Hc Ha p Hp. specialize (Hc (Key k :: p)). cbn [node_at] in Hc. rewrite Ha in Hc. apply Hc.
  destruct p as [|[b|n] p]; [done|cbn [proxy_owned] in *; by rewrite Hp, orb_true_r|exact Hp].
Qed.

Lemma clean_element (l : list (json N)) n c : clean (JArr l) → l !! n = Some c → clean c.
Proof. intros Hc Hn p Hp. specialize (Hc (Index n :: p) Hp). cbn [node_at] in Hc. by rewrite Hn in Hc. Qed.

Lemma strip_clean fuel : ∀ path t, json_wf t → clean t → strip_descendant_meta_fuel fuel t path = (t, []).
Proof.
  induction fuel as [|fuel IH]; intros path t Hw Hc; [done|].
  destruct t as [| | | |l|m]; try done; cbn [strip_descendant_meta_fuel].
  - assert (∀ i, strip_elements (strip_descendant_meta_fuel fuel) path i l = (l, [])) as ->; [|done].
    inversion Hw as [| | | |? HF|]; subst.
    assert (∀ c, c ∈ l → clean c ∧ json_wf c) as Hl.
    { intros c [n Hn]%list_elem_of_lookup. split; [by eapply clean_element|by eapply Forall_lookup in HF]. }
    clear Hw HF Hc. induction l as [|c l IHl]; intros i; simpl; [done|].
    destruct (Hl c ltac:(by left)). rewrite IH, IHl by (done || set_solver). done.
  - unfold strip_object. rewrite strip_meta_of_clean by done.
    assert (strip_members (strip_descendant_meta_fuel fuel) path m = (m, [])) as ->; [|done].
    inversion Hw as [| | | | |? Hs HF]; subst.
    assert (∀ k c, (k, c) ∈ m → clean c ∧ json_wf c) as Hm.
    { intros k c Hin. split; [|exact (proj1 (Forall_forall _ _) HF _ Hin)].
      eapply clean_member; [exact Hc|]. by apply elem_assoc. }
    clear Hw Hs HF Hc. induction m as [|[k c] m IHm]; simpl; [done|].
    destruct (Hm k c ltac:(by left)). rewrite IH, IHm by (done || set_solver). done.
Qed.

End proofs.

(** ** Properties *)

Lemma strip_proxy_owned_meta_Ok `{JsonTree} body sb :
  strip_proxy_owned_meta body = Ok sb →
  ∃ v, from_slice body = Some v ∧ refuse_unwalkable_shape (tree_of v) = Ok tt ∧
    to_vec (value_of (stripped (height (tree_of v)) [] (tree_of v))) = Some (stripped_body sb) ∧
    paths (seeded sb) = (strip_descendant_meta (tree_of v) []).2.
Proof.
  unfold strip_proxy_owned_meta. destruct (from_slice body) as [v|]; [|done]. simpl.
  destruct (refuse_unwalkable_shape (tree_of v)) as [[]|] eqn:Er; [|done].
  destruct (strip_descendant_meta (tree_of v) []) as [t' found] eqn:Ed. intros Hs. inv_ok.
  exists v. unfold stripped, strip_descendant_meta in *. by rewrite Ed.
Qed.


(** The tree after a block was put under [_meta]: of every other member, and of every other
    key of [_meta], what was there before. *)
Lemma insert_meta_block_tree `{JsonTreeLaws, !SerdeJsonLaws, F64Carrier, !Serde T} body key (block : T) body' :
  insert_meta_block body key block = Ok body' →
  ∃ v v' l l' meta', from_slice body = Some v ∧ from_slice body' = Some v' ∧
    tree_of v = JObj l ∧ tree_of v' = JObj l' ∧ (∀ k, k ≠ META_KEY → assoc k l' = assoc k l) ∧
    assoc META_KEY l' = Some (JObj meta') ∧
    (∀ b, b ≠ key → assoc b meta' = assoc META_KEY l ≫= λ c, match c with JObj meta => assoc b meta | _ => None end).
Proof.
  unfold insert_meta_block. destruct (from_slice body) as [v|] eqn:Hv; [|done]. cbn [ok_or].
  destruct (reject_unrepresentable_json body); [|done].
  destruct (as_object v) as [obj|] eqn:Hobj; [|done]. cbn [ok_or].
  destruct (as_object (default _ _)) as [meta_obj|] eqn:Hmeta; [|done]. cbn [ok_or].
  destruct (to_value block) as [value|]; [|done]. cbn [ok_or]. intros Hi%ok_or_Ok%from_slice_to_vec.
  destruct (as_object_members _ _ Hobj) as (l & Hl & Ha).
  destruct (Object_members (<[META_KEY := Object (<[key := value]> meta_obj)]> obj)) as (l' & Hl' & Ha').
  destruct (Object_members (<[key := value]> meta_obj)) as (meta' & Hm' & Ham').
  exists v. eexists _, l, l', meta'. split_and!; [done|exact Hi|done|done|..].
  - intros k Hk. by rewrite Ha', lookup_insert_ne, Ha.
  - rewrite Ha', lookup_insert_eq. simpl. by rewrite Hm'.
  - intros b Hb. rewrite Ham', lookup_insert_ne, Ha by done.
    destruct (obj !! META_KEY) as [mv|]; simpl in Hmeta |- *.
    + destruct (as_object_members _ _ Hmeta) as (meta & -> & Hmm). by rewrite Hmm.
    + rewrite as_object_Object in Hmeta. simplify_eq. by rewrite lookup_empty.
Qed.

Lemma proxy_owned_seeded p : proxy_owned (p ++ [Key META_KEY; Key VERIFIED_CONTEXT_BLOCK_KEY]) = true.
Proof.
  induction p as [|[a|n] p IH]; cbn [app]; [done| |exact IH].
  destruct p as [|[b|n] p]; cbn [app proxy_owned] in *; [apply orb_true_r|by rewrite IH, orb_true_r|exact IH].
Qed.

(** C25: the verified context an inner server reads is the proxy's. After the strip and the
    insertion the inner server extracts exactly what the proxy established, and the body holds
    no other verified-context block at any position an inner server could read one from.
    Only a policy that trusts the inner channel permits the insertion. *)
Theorem verified_context_unforgeable `{JsonTreeLaws, !SerdeJsonLaws, F64Carrier,
    !Serde VerifiedContext, !Serde UnauthenticatedContextClaim} body sb policy channel context forwarded :
  (∀ c v, to_value c = Some v → from_value v = Some (claim_of c)) →
  strip_proxy_owned_meta body = Ok sb → trusted_inner_channel policy = Some channel →
  insert_verified_context sb context channel = Ok forwarded →
  policy = Trusted ∧ extract_verified_context forwarded = Ok (claim_of context) ∧
  ∃ v, from_slice forwarded = Some v ∧
    ∀ p, proxy_owned p = false →
      is_Some (node_at (tree_of v) (p ++ [Key META_KEY; Key VERIFIED_CONTEXT_BLOCK_KEY])) → p = [].
Proof.
  intros Hserde Hs Hc Hi. split; [by destruct policy|].
  apply strip_proxy_owned_meta_Ok in Hs as (v0 & _ & _ & Hb & _).
  unfold insert_verified_context, extract_verified_context in *. split.
  { unfold insert_meta_block, extract_meta_block in *. inv_ok.
    match goal with Hv : to_vec _ = Some forwarded |- _ => apply from_slice_to_vec in Hv; rewrite Hv end.
    simpl. unfold json_get. rewrite as_object_Object, lookup_insert_eq. simpl.
    rewrite as_object_Object, lookup_insert_eq. simpl. by erewrite Hserde. }
  destruct (insert_meta_block_tree _ _ _ _ Hi) as (v & v' & l & l' & meta' & Hv & Hv' & Hl & Hl' & Hk & Hmeta & Hbk).
  apply from_slice_to_vec in Hb. rewrite Hb in Hv. injection Hv as <-.
  rewrite tree_of_value_of in Hl by (apply strip_wf, tree_of_wf).
  exists v'. split; [done|]. rewrite Hl'. intros p Hp [y Hy].
  pose proof (strip_removes _ [] (tree_of v0) (p ++ [Key META_KEY; Key VERIFIED_CONTEXT_BLOCK_KEY])
    (Nat.le_refl _) (proxy_owned_seeded p)) as Hnone. rewrite Hl in Hnone.
  destruct p as [|[k|n] p]; [done| |done]. exfalso. cbn [app node_at] in Hy, Hnone.
  destruct (decide (k = META_KEY)) as [->|Hne]; [|by rewrite Hk, Hnone in Hy].
  rewrite Hmeta in Hy. cbn [mbind option_bind] in Hy.
  assert (∀ b q, b ≠ VERIFIED_CONTEXT_BLOCK_KEY →
    (assoc b meta' ≫= λ c, node_at c q) = assoc META_KEY l ≫= λ c, node_at c (Key b :: q)) as Hsame.
  { intros b q Hb'. rewrite Hbk by done. destruct (assoc META_KEY l) as [[]|]; done. }
  destruct p as [|[b|n] p]; cbn [app node_at] in Hy, Hnone; [| |done].
  - pose proof (Hsame META_KEY [Key VERIFIED_CONTEXT_BLOCK_KEY] ltac:(done)) as He. cbn [node_at] in He.
    by rewrite He, Hnone in Hy.
  - assert (b ≠ VERIFIED_CONTEXT_BLOCK_KEY) as Hb'.
    { intros ->. cbn [proxy_owned] in Hp. rewrite bytes_eqb_refl in Hp. by vm_compute in Hp. }
    rewrite (Hsame b _ Hb') in Hy. cbn [node_at] in Hy. by rewrite Hnone in Hy.
Qed.

(** The shape check sees the same after the strip. *)
Lemma strip_walkable `{JsonTree} t :
  refuse_unwalkable_shape t = Ok tt → refuse_unwalkable_shape (stripped (height t) [] t) = Ok tt.
Proof.
  destruct t as [| | | | |m]; try done. unfold refuse_unwalkable_shape at 1. intros Hs.
  cbn [height]. set (f := foldr _ _ _).
  destruct (strip_object_node f [] m) as (m1 & s & m2 & Hm & -> & _ & Hk & _).
  cbn [refuse_unwalkable_shape]. rewrite Hk. apply strip_meta_of_spec in Hm as [Hm _]. rewrite Hm by done.
  destruct (assoc b#"params" m) as [[| | | |l|o]|]; try done; simpl; unfold stripped.
  - destruct f; [done|]. cbn [strip_descendant_meta_fuel]. by destruct (strip_elements _ _ _ l).
  - destruct f; [done|]. cbn [strip_descendant_meta_fuel]. by destruct (strip_object _ o _).
Qed.

(** Stripping is idempotent. What was forwarded is stripped to itself, and nothing is
    reported of it. *)
Lemma strip_idempotent `{JsonTreeLaws, !SerdeJsonLaws} body sb :
  strip_proxy_owned_meta body = Ok sb →
  strip_proxy_owned_meta (stripped_body sb) =
    Ok {| stripped_body := stripped_body sb; seeded := {| paths := [] |} |}.
Proof.
  intros (v & _ & Hr & Hb & _)%strip_proxy_owned_meta_Ok.
  pose proof (strip_wf (height (tree_of v)) [] (tree_of v) (tree_of_wf v)) as Hw.
  unfold strip_proxy_owned_meta. rewrite (from_slice_to_vec _ _ Hb). cbn [ok_or].
  rewrite tree_of_value_of by done. rewrite strip_walkable by done. unfold strip_descendant_meta.
  rewrite strip_clean; [by rewrite Hb|done|]. intros p Hp. by apply strip_removes.
Qed.

(** An empty member name has no trace in a path, so a block below it is reported at the
    position of a block one level up. *)
Lemma empty_name_reported_as_top_level :
  top_level {| paths := (strip_descendant_meta
    (JObj [([], JObj [(META_KEY, JObj [(VERIFIED_CONTEXT_BLOCK_KEY, @JNull unit)])])]) []).2 |} = true.
Proof. by vm_compute. Qed.

(** ** Witnesses *)

Import Instances.

Definition wx_tree : json Z :=
  JObj [(META_KEY, JObj [(VERIFIED_CONTEXT_BLOCK_KEY, JStr b#"forged"); (b#"trace", JNum 7)]);
        (b#"params", JArr [JObj [(META_KEY, JObj [(REQUEST_EVIDENCE_BLOCK_KEY, JNull)])]])].
Definition wx_body : bytes := default [] (to_vec (value_of wx_tree)).
Definition wx_stripped : StrippedBody :=
  match strip_proxy_owned_meta wx_body with
  | Ok sb => sb
  | Err _ => {| stripped_body := []; seeded := {| paths := [] |} |}
  end.

Lemma wx_strips : strip_proxy_owned_meta wx_body = Ok wx_stripped.
Proof. vm_compute. reflexivity. Qed.


Definition wx_context : VerifiedContext :=
  {| vc_profile := PROFILE_TAG; vc_actor_id := b#"a"; vc_key_id := b#"k";
     vc_audience := {| audience_id := b#"v"; aud_target_uri := b#"https://h/mcp"; aud_route := None |};
     vc_request_evidence := {| digest_alg := EVIDENCE_DIGEST_ALG; digest_value := b#"d" |};
     vc_verified_at := 100; vc_request_expires := 160 |}.
#[local] Instance wx_context_serde : Serde VerifiedContext := one_value_serde wx_context b#"ctx".
#[local] Instance wx_claim_serde : Serde UnauthenticatedContextClaim := serde_through
  (λ v, if bool_decide (as_str v = Some b#"ctx") then Some (claim_of wx_context) else None) (λ _, None).
#[local] Instance wx_f64 : F64Carrier := { f64_reemit := Some }.

Definition wx_forwarded : bytes :=
  match insert_verified_context wx_stripped wx_context Channel with Ok b => b | Err _ => [] end.

Lemma verified_context_unforgeable_witness :
  extract_verified_context wx_forwarded = Ok (claim_of wx_context).
Proof.
  refine (proj1 (proj2 (verified_context_unforgeable wx_body wx_stripped Trusted Channel wx_context wx_forwarded
    _ wx_strips eq_refl _))); [|vm_compute; reflexivity].
  intros c v. simpl. case_bool_decide as Hc; [|done]. intros [= <-]. simpl. by rewrite Hc.
Defined.
