(* ===== verification/Envelope.v ===== *)
(** * [mcp-re-http-profile/src/result_class.rs] and [envelope]

    The JSON-RPC envelopes of requests and responses, and the classification of results: what
    the profile accepts as a request it forwards, as a response it signs for an outstanding
    request, and as a request for more input. *)

From S2P Require Import Prelude.
From S2P Require Import RustStr.
From S2P Require Import Externals.
From S2P Require Import Json.
From S2P Require Import Concrete.
From S2P Require Import CoreError.
From S2P Require Import HttpMessage.
From S2P Require Import Body.

(** ** [result_class.rs] *)

Definition INPUT_REQUIRED_RESULT_TYPE : bytes := b#"input_required".
Definition COMPLETE_RESULT_TYPE : bytes := b#"complete".

Inductive ResultTypeClass : Type := Complete | InputRequired | Unrecognized.
#[global] Instance ResultTypeClass_eq_dec : EqDecision ResultTypeClass.
Proof. solve_decision. Defined.

(** [Value::get] on a tree. *)
Definition tree_get {N} (j : json N) (k : bytes) : option (json N) :=
  match j with JObj m => assoc k m | _ => None end.

Section classify.
Context `{JsonTree}.

Definition classify_result_type (result : option (json Number)) : ResultTypeClass :=
  match result with
  | None => Complete
  | Some result =>
      match tree_get result b#"resultType" with
      | None => Complete
      | Some (JStr t) =>
          if bytes_eqb t INPUT_REQUIRED_RESULT_TYPE then InputRequired
          else if bytes_eqb t COMPLETE_RESULT_TYPE then Complete
          else Unrecognized
      | Some _ => Unrecognized
      end
  end.

Definition is_input_required (result : option (json Number)) : bool :=
  bool_decide (classify_result_type result = InputRequired).

Definition input_required_state_of (result : option (json Number))
  : Result (option bytes) HttpProfileError :=
  match classify_result_type result with
  | Complete => Ok None
  | Unrecognized => Err HPE.UnrecognizedResultType
  | InputRequired =>
      let? state := ok_or (result ≫= λ r, tree_get r b#"requestState" ≫= λ s,
                             match s with JStr t => Some t | _ => None end)
                      (HPE.MalformedEvidence b#"input_required requestState") in
      Ok (Some state)
  end.

Definition input_required_state (body : bytes) : Result (option bytes) HttpProfileError :=
  let? parsed := ok_or (from_slice body) (HPE.MalformedEvidence b#"response body") in
  input_required_state_of (tree_get (tree_of parsed) b#"result").

(** ** [envelope/mod.rs], [envelope/request.rs] *)

Definition JSON_RPC_VERSION : bytes := b#"2.0".

Inductive OutstandingId : Type := Id (id : json Number) | Notification.

Definition outstanding_id (request_body : bytes) : Result OutstandingId HttpProfileError :=
  let? parsed := ok_or (from_slice request_body) (HPE.MalformedEvidence b#"request body") in
  match tree_of parsed with
  | JObj object =>
      match assoc b#"id" object with
      | None => Ok Notification
      | Some id => Ok (Id id)
      end
  | _ => Err (HPE.MalformedEvidence b#"request body")
  end.

Section request.
Context `{F64Carrier}.

Definition validate_request_envelope (request_body : bytes) : Result OutstandingId HttpProfileError :=
  let malformed := HPE.MalformedEvidence in
  reject_unrepresentable_json request_body ;?
  let? parsed := ok_or (from_slice request_body) (malformed b#"request body is not JSON") in
  let? object := match tree_of parsed with
                 | JObj object => Ok object
                 | _ => Err (malformed b#"request body is not a JSON object")
                 end in
  match assoc b#"jsonrpc" object with
  | Some (JStr v) => if bytes_eqb v JSON_RPC_VERSION then Ok tt
                     else Err (malformed (b#"request jsonrpc member is not " ++ quoted b#"2.0"))
  | None => Err (malformed b#"request jsonrpc member absent")
  | Some _ => Err (malformed (b#"request jsonrpc member is not " ++ quoted b#"2.0"))
  end ;?
  match assoc b#"method" object with
  | Some (JStr _) => Ok tt
  | None => Err (malformed b#"request method member absent")
  | Some _ => Err (malformed b#"request method member is not a string")
  end ;?
  (if contains_key b#"result" object || contains_key b#"error" object
   then Err (malformed b#"request carries a response member") else Ok tt) ;?
  match assoc b#"params" object with
  | None | Some (JObj _) | Some (JArr _) => Ok tt
  | Some _ => Err (malformed b#"request params is neither an object nor an array")
  end ;?
  match assoc b#"id" object with
  | None => Ok Notification
  | Some (JStr s) => Ok (Id (JStr s))
  | Some (JNum n) => Ok (Id (JNum n))
  | Some _ => Err (malformed b#"request id is neither a string nor a number")
  end.
End request.

(** ** [envelope/response.rs] *)

Inductive ResponseOutcome : Type := OutcomeResult | OutcomeError.

Record ValidatedEnvelope := { ve_outcome : ResponseOutcome; ve_result : option (json Number) }.

Definition validate_error_member (error : json Number) : Result unit HttpProfileError :=
  let invalid := HPE.UpstreamResponseInvalid in
  match error with
  | JObj error =>
      match assoc b#"code" error with
      | Some (JNum n) => if num_is_i64 n then Ok tt else Err (invalid b#"error.code is not an integer")
      | _ => Err (invalid b#"error.code is not an integer")
      end ;?
      match assoc b#"message" error with
      | Some (JStr _) => Ok tt
      | _ => Err (invalid b#"error.message is not a string")
      end
  | _ => Err (invalid b#"error is not an object")
  end.

Definition validate_response_envelope (parsed : json Number) (outstanding : OutstandingId)
  : Result ValidatedEnvelope HttpProfileError :=
  let invalid := HPE.UpstreamResponseInvalid in
  let? object := match parsed with JObj object => Ok object | _ => Err (invalid b#"not a JSON object") end in
  match assoc b#"jsonrpc" object with
  | Some (JStr v) => if bytes_eqb v JSON_RPC_VERSION then Ok tt
                     else Err (invalid (b#"jsonrpc member is not " ++ quoted b#"2.0"))
  | None => Err (invalid b#"jsonrpc member absent")
  | Some _ => Err (invalid (b#"jsonrpc member is not " ++ quoted b#"2.0"))
  end ;?
  let result := assoc b#"result" object in
  let error := assoc b#"error" object in
  let? outcome := match result, error with
                  | Some _, Some _ => Err (invalid b#"both result and error present")
                  | None, None => Err (invalid b#"neither result nor error present")
                  | Some _, None => Ok OutcomeResult
                  | None, Some _ => Ok OutcomeError
                  end in
  match error with Some e => validate_error_member e | None => Ok tt end ;?
  match result with
  | Some (JObj _) | None => Ok tt
  | Some _ => Err (invalid b#"result is not an object")
  end ;?
  (if contains_key b#"method" object then Err (invalid b#"response carries a method member") else Ok tt) ;?
  (if contains_key b#"params" object then Err (invalid b#"response carries a params member") else Ok tt) ;?
  let? expected := match outstanding with
                   | Notification => Err (invalid b#"a notification has no response")
                   | Id id => Ok id
                   end in
  match assoc b#"id" object with
  | None => Err (invalid b#"id member absent")
  | Some id => if json_eqb id expected then Ok tt
               else Err (invalid b#"id does not match the outstanding request")
  end ;?
  Ok {| ve_outcome := outcome; ve_result := result |}.

Definition parse_response_body (body : bytes) : Result Value HttpProfileError :=
  ok_or (from_slice body) (HPE.UpstreamResponseInvalid b#"not JSON").
End classify.

(** ** Specifications *)

Section specs.
Context `{JsonTree}.

(** The error member of a response: an object with an integer code and a text. *)
Definition error_object (e : json Number) : Prop :=
  ∃ m n s, e = JObj m ∧ assoc b#"code" m = Some (JNum n) ∧ num_is_i64 n = true ∧
    assoc b#"message" m = Some (JStr s).

Lemma validate_error_member_Ok e u : validate_error_member e = Ok u ↔ error_object e.
Proof.
  destruct u. unfold validate_error_member, error_object. split.
  - destruct e as [| | | | |m]; try done.
    destruct (assoc b#"code" m) as [[| |n| | |]|] eqn:Ec; try done.
    destruct (num_is_i64 n) eqn:En; [|done].
    destruct (assoc b#"message" m) as [[| | |s| |]|] eqn:Em; try done. intros _. by exists m, n, s.
  - intros (m & n & s & -> & -> & -> & ->). done.
Qed.

(** What a response to the request with the id [expected] is. *)
Definition answers (object : list (bytes * json Number)) (expected : json Number) (env : ValidatedEnvelope) : Prop :=
  assoc b#"jsonrpc" object = Some (JStr JSON_RPC_VERSION) ∧
  (∃ id, assoc b#"id" object = Some id ∧ json_eqb id expected = true) ∧
  assoc b#"method" object = None ∧ assoc b#"params" object = None ∧
  match ve_outcome env with
  | OutcomeResult => ∃ r, assoc b#"result" object = Some (JObj r) ∧ assoc b#"error" object = None ∧
                          ve_result env = Some (JObj r)
  | OutcomeError => ∃ e, assoc b#"error" object = Some e ∧ error_object e ∧
                         assoc b#"result" object = None ∧ ve_result env = None
  end.

Lemma contains_key_false {A} k (m : list (bytes * A)) : contains_key k m = false ↔ assoc k m = None.
Proof. unfold contains_key. by destruct (assoc k m). Qed.

End specs.

(** What is signed as a response answers the outstanding request. A parsed body is
    accepted as the response to a request if and only if the request has an id, the body is a
    JSON-RPC 2.0 object with an equal id, neither method nor params, and either an object as
    result and no error, or a well-formed error and no result; and that is the outcome. *)
Lemma response_envelope_exact `{JsonTree} parsed outstanding env :
  validate_response_envelope parsed outstanding = Ok env ↔
    ∃ object expected, parsed = JObj object ∧ outstanding = Id expected ∧ answers object expected env.
Proof.
  unfold validate_response_envelope, answers. split.
  - destruct parsed as [| | | | |object]; try done.
    destruct (assoc b#"jsonrpc" object) as [[| | |v| |]|] eqn:Ej; try done.
    destruct (bytes_eqb v JSON_RPC_VERSION) eqn:Ev; [|done]. apply bytes_eqb_true in Ev as ->.
    destruct (assoc b#"result" object) as [r|] eqn:Er, (assoc b#"error" object) as [e|] eqn:Ee; try done.
    + destruct r as [| | | | |r]; try done. intros Hv. inv_ok. rewrite contains_key_false in *.
      destruct outstanding as [expected|]; [|done]. inv_ok.
      eexists object, _. split_and!; try done; cbn [ve_outcome ve_result]; eauto 6.
    + intros Hv. inv_ok. rewrite contains_key_false in *. rewrite validate_error_member_Ok in *.
      destruct outstanding as [expected|]; [|done]. inv_ok.
      eexists object, _. split_and!; try done; cbn [ve_outcome ve_result]; eauto 6.
  - intros (object & expected & -> & -> & Hj & (id & Hid & Heq) & Hm & Hp & Ho).
    rewrite Hj, bytes_eqb_refl. unfold contains_key. rewrite Hm, Hp, Hid, Heq. destruct env as [[] res]; cbn [ve_outcome ve_result] in Ho.
    + destruct Ho as (r & -> & -> & ->). done.
    + destruct Ho as (e & -> & He & -> & ->). apply (validate_error_member_Ok e tt) in He. by rewrite He.
Qed.

(** What a request is that the profile forwards. *)
Definition well_formed_request `{JsonTree} (object : list (bytes * json Number)) : Prop :=
  assoc b#"jsonrpc" object = Some (JStr JSON_RPC_VERSION) ∧
  (∃ name, assoc b#"method" object = Some (JStr name)) ∧
  assoc b#"result" object = None ∧ assoc b#"error" object = None ∧
  (∀ p, assoc b#"params" object = Some p → (∃ m, p = JObj m) ∨ (∃ l, p = JArr l)).

(** A request is forwarded if and only if its body survives re-serialization and is a
    JSON-RPC 2.0 request: a method name, no response member, params that are an object or an
    array, and an id that is a string, a number or absent; the id recorded as outstanding is
    that id, and reading the body again finds the same one. *)
Lemma request_envelope_exact `{JsonTree, F64Carrier} body out :
  validate_request_envelope body = Ok out ↔
    reject_unrepresentable_json body = Ok tt ∧
    ∃ v object, from_slice body = Some v ∧ tree_of v = JObj object ∧ well_formed_request object ∧
      outstanding_id body = Ok out ∧
      match out with
      | Notification => assoc b#"id" object = None
      | Id id => (∃ s, id = JStr s) ∨ (∃ n, id = JNum n)
      end.
Proof.
  unfold validate_request_envelope, outstanding_id, well_formed_request. split.
  - destruct (reject_unrepresentable_json body) as [[]|]; [|done].
    destruct (from_slice body) as [v|]; [|done]. cbn [ok_or].
    destruct (tree_of v) as [| | | | |object] eqn:Ev; try done.
    destruct (assoc b#"jsonrpc" object) as [[| | |ver| |]|] eqn:Ej; try done.
    destruct (bytes_eqb ver JSON_RPC_VERSION) eqn:Ever; [|done]. apply bytes_eqb_true in Ever as ->.
    destruct (assoc b#"method" object) as [[| | |name| |]|] eqn:Em; try done.
    destruct (_ || _) eqn:Er; [done|]. apply orb_false_iff in Er as [Er Ee].
    rewrite contains_key_false in Er, Ee.
    intros Hid.
    assert (∀ p, assoc b#"params" object = Some p → (∃ m, p = JObj m) ∨ (∃ l, p = JArr l)) as Hp.
    { intros p Hp. rewrite Hp in Hid. destruct p; naive_solver. }
    split; [done|]. exists v, object.
    destruct (assoc b#"id" object) as [[| |n|t| |]|] eqn:Ei;
      destruct (assoc b#"params" object) as [[]|]; simplify_eq; split_and!; eauto 6.
  - intros (-> & v & object & -> & Hv & (Hj & (name & Hm) & Hr & He & Hp) & Hout & Hid).
    cbn [ok_or] in *. rewrite Hv in *. rewrite Hj, bytes_eqb_refl, Hm. unfold contains_key. rewrite Hr, He.
    cbn [is_some orb].
    assert (match assoc b#"params" object with
            | None | Some (JObj _) | Some (JArr _) => Ok tt
            | Some _ => Err (HPE.MalformedEvidence b#"request params is neither an object nor an array")
            end = Ok tt) as ->.
    { destruct (assoc b#"params" object) as [p|]; [|done]. by destruct (Hp p eq_refl) as [[? ->]|[? ->]]. }
    destruct (assoc b#"id" object) as [id|]; simplify_eq; [|done].
    by destruct Hid as [[? ->]|[? ->]].
Qed.

(** The three classes of a result. A response body asks for input if and only if its
    result names the type [input_required] and carries a textual state, which is returned; it
    is complete when there is no result, or no type, or the type [complete]; any other type is
    an error, never a completion. *)
Lemma input_required_exact `{JsonTree} (result : option (json Number)) :
  match input_required_state_of result with
  | Ok (Some state) => ∃ r, result = Some r ∧ tree_get r b#"resultType" = Some (JStr INPUT_REQUIRED_RESULT_TYPE) ∧
                            tree_get r b#"requestState" = Some (JStr state)
  | Ok None => ∀ r t, result = Some r → tree_get r b#"resultType" = Some t → t = JStr COMPLETE_RESULT_TYPE
  | Err e => ∃ r t, result = Some r ∧ tree_get r b#"resultType" = Some t ∧ t ≠ JStr COMPLETE_RESULT_TYPE ∧
               (e = HPE.UnrecognizedResultType ∧ t ≠ JStr INPUT_REQUIRED_RESULT_TYPE ∨
                e = HPE.MalformedEvidence b#"input_required requestState" ∧ t = JStr INPUT_REQUIRED_RESULT_TYPE)
  end.
Proof.
  unfold input_required_state_of, classify_result_type. destruct result as [r|]; [|done].
  destruct (tree_get r b#"resultType") as [t|] eqn:Et; [|naive_solver].
  destruct t as [| | |s| |];
    try (exists r; eexists; split; [done|]; split; [exact Et|]; split; [done|]; by left).
  destruct (bytes_eqb s INPUT_REQUIRED_RESULT_TYPE) eqn:E1.
  - apply bytes_eqb_true in E1 as ->. cbn [mbind option_bind].
    destruct (tree_get r b#"requestState") as [[| | |st| |]|] eqn:Es; cbn [mbind option_bind ok_or];
      try (exists r; eexists; split; [done|]; split; [exact Et|]; split; [done|]; by right).
    by exists r.
  - destruct (bytes_eqb s COMPLETE_RESULT_TYPE) eqn:E2.
    + apply bytes_eqb_true in E2 as ->. naive_solver.
    + apply bytes_eqb_false in E1, E2. exists r. eexists. split; [done|]. split; [exact Et|].
      split; [congruence|]. left. split; [done|congruence].
Qed.
