(* ===== verification/Dispatch.v ===== *)
(** * [mcp-re-http-profile]: the replay key and the dispatcher

    [replay.rs] projects the five-tuple replay key onto the three slots of a replay cache;
    [dispatch.rs] with [dispatch/replay_posture.rs], [dispatch/retained_continuation.rs] and
    [dispatch/outcome.rs] admits a verified request: the durability posture, the key, the
    continuation, and the one step with an effect last. The cache is any implementation of
    the core's trait, and the theorems use its contract only. *)

From S2P Require Import Prelude.
From S2P Require Import RustStr.
From S2P Require Import Externals.
From S2P Require Import Concrete.
From S2P Require Import CoreError.
From S2P Require Import CoreReplay.
From S2P Require Import CoreResolver.
From S2P Require Import HttpMessage.
From S2P Require Import Policy.
From S2P Require Import Blocks.
From S2P Require Import Body.
From S2P Require Import Floor.
From S2P Require Import Sign.
From S2P Require Import Full.

(** ** [replay.rs] *)

Definition SEP : ascii := "031"%char.

Record HttpReplayKey := {
  hk_profile_id : bytes;
  hk_signature_label : bytes;
  hk_actor_id : bytes;
  hk_audience_hash : bytes;
  hk_nonce : bytes;
}.
#[global] Instance HttpReplayKey_eq_dec : EqDecision HttpReplayKey.
Proof. solve_decision. Defined.

Definition signer_slot (k : HttpReplayKey) : bytes :=
  hk_profile_id k ++ [SEP] ++ hk_signature_label k ++ [SEP] ++ hk_actor_id k.

Definition principal_slot (k : HttpReplayKey) : bytes :=
  let subject := match rsplit_once_char ":" (hk_actor_id k) with
                 | Some (subject, _) => subject
                 | None => hk_actor_id k
                 end in
  hk_profile_id k ++ [SEP] ++ hk_signature_label k ++ [SEP] ++ subject.

Definition audience_slot (k : HttpReplayKey) : bytes := hk_audience_hash k.

Definition http_check_and_insert `{ReplayCache C} (k : HttpReplayKey) (cache : C) (expires_at_unix : Z)
  : C * Result ReplayDecision ReplayCacheError :=
  check_and_insert cache (signer_slot k) (audience_slot k) (hk_nonce k) expires_at_unix.

Definition to_core_replay_key (k : HttpReplayKey) (expires_at_unix : Z) : ReplayKey :=
  {| rk_signer := signer_slot k; rk_principal := principal_slot k; rk_audience := audience_slot k;
     rk_nonce := hk_nonce k; rk_expires_at_unix := expires_at_unix |}.

(** ** [dispatch.rs]: errors *)

Module DE.
Inductive DispatchError : Type :=
| ReplayDetected
| ReplayCacheUnavailable
| NonSharedReplayTier
| Profile (e : HttpProfileError).
End DE.
Abbreviation DispatchError := DE.DispatchError.

Definition dispatch_core_error (e : DispatchError) : McpReError :=
  match e with
  | DE.ReplayDetected => ReplayDetected
  | DE.ReplayCacheUnavailable | DE.NonSharedReplayTier => ReplayCacheUnavailable
  | DE.Profile e => core_error e
  end.

Definition dispatch_wire_code (e : DispatchError) : bytes := wire_code (dispatch_core_error e).

Definition from_ReplayCacheError (e : ReplayCacheError) : DispatchError := DE.ReplayCacheUnavailable.

(** ** [dispatch/replay_posture.rs], [dispatch/retained_continuation.rs], [dispatch/outcome.rs] *)

Record DispatchConfig := { fleet_strict : bool }.

Inductive PostureDecision : Type := StoreClassNotRequired | StoreClassAdmitted.

Definition description (d : PostureDecision) : bytes :=
  match d with
  | StoreClassNotRequired => b#"replay store class not required (posture is not fleet-strict)"
  | StoreClassAdmitted => b#"replay store class admitted under fleet-strict"
  end.

Record ReplayTierAdmitted := { rta_decision : PostureDecision }.

Definition admit_replay_tier (config : DispatchConfig) (class : ReplayDurabilityClass)
  : Result ReplayTierAdmitted DispatchError :=
  if negb (fleet_strict config) then Ok {| rta_decision := StoreClassNotRequired |}
  else if bool_decide (class = SingleProcessReference) then Err DE.NonSharedReplayTier
  else Ok {| rta_decision := StoreClassAdmitted |}.

Record RetainedContinuation := {
  rc_previous_request_base : bytes;
  rc_input_required_response_base : bytes;
  rc_request_state : bytes;
}.

Definition from_correlation (previous_request_base input_required_response_base request_state : bytes)
  : RetainedContinuation :=
  {| rc_previous_request_base := previous_request_base;
     rc_input_required_response_base := input_required_response_base;
     rc_request_state := request_state |}.

Record PreparedDispatch := {
  pd_replay_key : HttpReplayKey;
  pd_continuation_verified : bool;
  pd_posture : PostureDecision;
}.

Record DispatchOutcome := {
  do_replay_key : HttpReplayKey;
  do_continuation_verified : bool;
  do_posture : PostureDecision;
}.

Definition from_admitted (admitted : ReplayTierAdmitted) (replay_key : HttpReplayKey)
    (continuation_verified : bool) : PreparedDispatch :=
  {| pd_replay_key := replay_key; pd_continuation_verified := continuation_verified;
     pd_posture := rta_decision admitted |}.

Definition into_admitted_outcome (p : PreparedDispatch) : DispatchOutcome :=
  {| do_replay_key := pd_replay_key p; do_continuation_verified := pd_continuation_verified p;
     do_posture := pd_posture p |}.

Definition admitting_posture (o : DispatchOutcome) : bytes := description (do_posture o).

(** ** [dispatch.rs] *)

Section dispatch.
Context `{Base64, Sha2, Ed25519}.

Definition replay_key_of (v : VerifiedMcpRequest) : HttpReplayKey :=
  {| hk_profile_id := fr_profile_id (vr_floor v);
     hk_signature_label := fr_signature_label (vr_floor v);
     hk_actor_id := actor_id (ra_identity (fr_resolved_actor (vr_floor v)));
     hk_audience_hash := vr_audience_hash v;
     hk_nonce := fr_nonce (vr_floor v) |}.

Definition prepare_http_dispatch (verified : VerifiedMcpRequest)
    (continuation_ctx : option RetainedContinuation) : Result (HttpReplayKey * bool) DispatchError :=
  let replay_key := replay_key_of verified in
  let? continuation_verified :=
    match rb_continuation (vr_request_block verified), continuation_ctx with
    | Some c, Some ctx =>
        map_err DE.Profile
          (continuation_verify c (rc_previous_request_base ctx) (rc_input_required_response_base ctx)
             (rc_request_state ctx)) ;?
        Ok true
    | Some _, None => Err (DE.Profile HPE.ContinuationBindingFailed)
    | None, Some _ => Err (DE.Profile HPE.ContinuationBindingFailed)
    | None, None => Ok false
    end in
  Ok (replay_key, continuation_verified).

Definition prepare (admitted : ReplayTierAdmitted) (verified : VerifiedMcpRequest)
    (continuation_ctx : option RetainedContinuation) : Result PreparedDispatch DispatchError :=
  let? (replay_key, continuation_verified) := prepare_http_dispatch verified continuation_ctx in
  Ok (from_admitted admitted replay_key continuation_verified).

Definition dispatch_request `{ReplayCache C} (verified : VerifiedMcpRequest) (replay : C)
    (continuation_ctx : option RetainedContinuation) (config : DispatchConfig)
  : C * Result DispatchOutcome DispatchError :=
  match admit_replay_tier config (durability_class replay) with
  | Err e => (replay, Err e)
  | Ok admitted =>
      match prepare admitted verified continuation_ctx with
      | Err e => (replay, Err e)
      | Ok prepared =>
          let '(replay', decision) :=
            http_check_and_insert (pd_replay_key prepared) replay (fr_expires (vr_floor verified)) in
          (replay',
           match decision with
           | Err e => Err (from_ReplayCacheError e)
           | Ok Fresh => Ok (into_admitted_outcome prepared)
           | Ok Replay => Err DE.ReplayDetected
           end)
      end
  end.
End dispatch.

(** ** Lemmas *)

Lemma signer_slot_inj k k' :
  SEP ∉ hk_profile_id k → SEP ∉ hk_profile_id k' →
  SEP ∉ hk_signature_label k → SEP ∉ hk_signature_label k' →
  signer_slot k = signer_slot k' →
  hk_profile_id k = hk_profile_id k' ∧ hk_signature_label k = hk_signature_label k' ∧
  hk_actor_id k = hk_actor_id k'.
Proof.
  unfold signer_slot. intros Hp Hp' Hl Hl' Heq.
  apply (app_sep_inj SEP) in Heq as [? Heq]; [|done..].
  by apply (app_sep_inj SEP) in Heq as [? ?].
Qed.

(** The last raw colon of an actor id separates the key id. *)
Lemma actor_id_rsplit a :
  rsplit_once_char ":" (actor_id a) =
    Some (field_escape (ai_role a) ++ b#":" ++ field_escape (ai_trust_domain a) ++ b#":" ++
          field_escape (ai_subject a), field_escape (ai_keyid a)).
Proof.
  unfold rsplit_once_char, actor_id.
  set (x := field_escape (ai_role a) ++ b#":" ++ field_escape (ai_trust_domain a) ++ b#":" ++
            field_escape (ai_subject a)).
  replace (field_escape (ai_role a) ++ _) with (x ++ ":"%char :: field_escape (ai_keyid a)).
  2:{ subst x. by rewrite <-!(assoc_L (++)). }
  rewrite rev_app_distr. simpl. rewrite <-(assoc_L (++)). simpl.
  rewrite split_once_char_app; [by rewrite !rev_involutive|].
  rewrite elem_of_rev. apply field_escape_chars.
Qed.

Lemma principal_slot_inj k k' a a' :
  SEP ∉ hk_profile_id k → SEP ∉ hk_profile_id k' →
  SEP ∉ hk_signature_label k → SEP ∉ hk_signature_label k' →
  hk_actor_id k = actor_id a → hk_actor_id k' = actor_id a' →
  principal_slot k = principal_slot k' ↔
    hk_profile_id k = hk_profile_id k' ∧ hk_signature_label k = hk_signature_label k' ∧
    ai_role a = ai_role a' ∧ ai_trust_domain a = ai_trust_domain a' ∧ ai_subject a = ai_subject a'.
Proof.
  intros Hp Hp' Hl Hl' Ha Ha'. unfold principal_slot. rewrite Ha, Ha', !actor_id_rsplit. split.
  - intros Heq. apply (app_sep_inj SEP) in Heq as [? Heq]; [|done..].
    apply (app_sep_inj SEP) in Heq as [? Heq]; [|done..].
    do 2 (apply (field_sep_inj ":" _ _ _ _ (or_introl eq_refl)) in Heq as [? Heq]).
    by apply field_escape_inj in Heq.
  - by intros (-> & -> & -> & -> & ->).
Qed.

Section lemmas.
Context `{Base64, Sha2, Ed25519, SerdeJson, ReplayCacheSpec C}.

(** The triple a verified request is admitted under. *)
Definition slots (v : VerifiedMcpRequest) : triple :=
  (signer_slot (replay_key_of v), audience_slot (replay_key_of v), hk_nonce (replay_key_of v)).

(** What a successful preparation has established. *)
Definition continuation_bound (v : VerifiedMcpRequest) (ctx : option RetainedContinuation) : Prop :=
  match rb_continuation (vr_request_block v), ctx with
  | Some k, Some x => continuation_verify k (rc_previous_request_base x)
                        (rc_input_required_response_base x) (rc_request_state x) = Ok tt
  | None, None => True
  | _, _ => False
  end.

Definition posture_of (cfg : DispatchConfig) : PostureDecision :=
  if fleet_strict cfg then StoreClassAdmitted else StoreClassNotRequired.

(** What is wrong with a continuation that is not bound. *)
Definition binding_error (v : VerifiedMcpRequest) (ctx : option RetainedContinuation)
  : option HttpProfileError :=
  match rb_continuation (vr_request_block v), ctx with
  | Some k, Some x =>
      match continuation_verify k (rc_previous_request_base x) (rc_input_required_response_base x)
              (rc_request_state x) with
      | Ok _ => None
      | Err e => Some e
      end
  | None, None => None
  | _, _ => Some HPE.ContinuationBindingFailed
  end.

(** What a dispatch does: it is refused under the strict posture for a reference store, then for a
    continuation that is not bound, in both cases without a call on the cache; otherwise it is
    what the cache answers. *)
Lemma dispatch_cases v c ctx cfg :
  let '(c', res) := dispatch_request v c ctx cfg in
  if fleet_strict cfg && bool_decide (durability_class c = SingleProcessReference)
  then c' = c ∧ res = Err DE.NonSharedReplayTier
  else match binding_error v ctx with
       | Some e => c' = c ∧ res = Err (DE.Profile e)
       | None =>
           continuation_bound v ctx ∧ ∃ d, http_check_and_insert (replay_key_of v) c (fr_expires (vr_floor v)) = (c', d) ∧
           res = match d with
                 | Ok Fresh => Ok {| do_replay_key := replay_key_of v;
                                     do_continuation_verified := is_some (rb_continuation (vr_request_block v));
                                     do_posture := posture_of cfg |}
                 | Ok Replay => Err DE.ReplayDetected
                 | Err _ => Err DE.ReplayCacheUnavailable
                 end
       end.
Proof.
  unfold dispatch_request, admit_replay_tier, posture_of, prepare, prepare_http_dispatch, binding_error, continuation_bound.
  destruct (fleet_strict cfg), (durability_class c); cbn [negb andb];
    try (rewrite bool_decide_true by done; done); try rewrite bool_decide_false by done;
    (destruct (rb_continuation _) as [k|], ctx as [x|];
     [destruct (continuation_verify _ _ _ _) as [[]|]| | |]); cbn; try done;
    destruct (http_check_and_insert _ _ _) as [c' [[]|e]]; split; eauto.
Qed.

Lemma dispatch_keeps v c ctx cfg now : served_at c now →
  keeps_until (retained c) (retained (fst (dispatch_request v c ctx cfg))) now ∧
  retention_skew (fst (dispatch_request v c ctx cfg)) = retention_skew c.
Proof.
  intros Hat. pose proof (dispatch_cases v c ctx cfg) as Hd. destruct (dispatch_request v c ctx cfg) as [c' res]. cbn [fst].
  destruct (_ && _); [destruct Hd as [-> _]; split; [apply keeps_refl|done]|].
  destruct (binding_error v ctx); [destruct Hd as [-> _]; split; [apply keeps_refl|done]|].
  destruct Hd as (_ & d & Hc & _). unfold http_check_and_insert in Hc.
  pose proof (check_and_insert_spec c (signer_slot (replay_key_of v)) (audience_slot (replay_key_of v))
    (hk_nonce (replay_key_of v)) (fr_expires (vr_floor v)) now Hat) as Hs. rewrite Hc in Hs. naive_solver.
Qed.

Lemma dispatch_Ok v c ctx cfg now c' o :
  served_at c now → dispatch_request v c ctx cfg = (c', Ok o) →
  (∀ u, retained c !! slots v = Some u → u < now) ∧
  retained c' !! slots v = Some (saturating_add (fr_expires (vr_floor v)) (retention_skew c)).
Proof.
  intros Hat Hd. pose proof (dispatch_cases v c ctx cfg) as Ha. rewrite Hd in Ha.
  destruct (_ && _); [by destruct Ha|]. destruct (binding_error v ctx); [by destruct Ha|].
  destruct Ha as (_ & d & Hc & Hr). unfold http_check_and_insert in Hc.
  pose proof (check_and_insert_spec c (signer_slot (replay_key_of v)) (audience_slot (replay_key_of v))
    (hk_nonce (replay_key_of v)) (fr_expires (vr_floor v)) now Hat) as Hs. rewrite Hc in Hs.
  destruct d as [[]|]; [|done..]. unfold slots. naive_solver.
Qed.

(** What happens to a shared cache up to an instant: dispatches, and anything else that forgets
    nothing before its time, such as other users' calls and prunes. *)
Inductive replay_run (now : Z) : C → C → Prop :=
  | run_done c : replay_run now c c
  | run_dispatch c t v ctx cfg c' :
      t ≤ now → served_at c t → replay_run now (fst (dispatch_request v c ctx cfg)) c' → replay_run now c c'
  | run_other c t c1 c' :
      t ≤ now → retention_skew c1 = retention_skew c → keeps_until (retained c) (retained c1) t → replay_run now c1 c' →
      replay_run now c c'.

Lemma replay_run_keeps now c c' : replay_run now c c' → keeps_until (retained c) (retained c') now.
Proof.
  induction 1 as [c|c t v ctx cfg c' Ht Hat _ IH|c t c1 c' Ht _ Hk _ IH]; intros x u Hx Hu; [done|..]; apply IH; try done.
  - apply (dispatch_keeps v c ctx cfg t Hat); [done|lia].
  - apply Hk; [done|lia].
Qed.

(** A triple that was admitted is not admitted again before its retain-until. *)
Lemma dispatch_once v c ctx cfg t c' o now c2 v2 ctx2 cfg2 :
  served_at c t → dispatch_request v c ctx cfg = (c', Ok o) → replay_run now c' c2 → served_at c2 now →
  slots v2 = slots v → now ≤ saturating_add (fr_expires (vr_floor v)) (retention_skew c) →
  is_ok (snd (dispatch_request v2 c2 ctx2 cfg2)) = false.
Proof.
  intros Hat Hd Hrun Hat2 Hs Hu. apply (dispatch_Ok _ _ _ _ _ _ _ Hat) in Hd as [_ Hrec].
  pose proof (replay_run_keeps _ _ _ Hrun _ _ Hrec Hu) as Hrec2.
  destruct (dispatch_request v2 c2 ctx2 cfg2) as [c3 [o2|]] eqn:E2; [|done].
  apply (dispatch_Ok _ _ _ _ _ _ _ Hat2) in E2 as [Hn _]. rewrite Hs in Hn. specialize (Hn _ Hrec2). lia.
Qed.

(** The replay key and the expiry do not depend on policy, clock or artifact material. *)
Lemma replay_key_stable `{!Serde HttpRequestEvidenceBlock} r expected resolve_actor
    material policy now v material' policy' now' v' :
  full_request r expected material resolve_actor policy now = Ok v →
  full_request r expected material' resolve_actor policy' now' = Ok v' →
  replay_key_of v = replay_key_of v' ∧ fr_expires (vr_floor v) = fr_expires (vr_floor v').
Proof.
  unfold full_request, floor_request. intros Hf Hf2. inv_ok. unfold replay_key_of. simpl.
  repeat match goal with
  | Ha : ?x = Ok _, Hb : ?x = Ok _ |- _ => rewrite Ha in Hb; injection Hb as <-
  | Hp : check_params _ _ _ _ = Ok _ |- _ => apply check_params_Ok in Hp as (_ & _ & _ & ? & _ & _ & ? & ?)
  | He : enforce_full_profile_bindings _ _ _ _ = Ok _ |- _ => apply enforce_full_profile_bindings_Ok in He as (? & _ & _)
  end.
  destruct_or!; destruct_and?; try done. split; [f_equal|]; congruence.
Qed.

(** An accepted request has not expired. *)
Lemma full_request_window `{!Serde HttpRequestEvidenceBlock} r expected resolve_actor material policy now v :
  full_request r expected material resolve_actor policy now = Ok v →
  now < saturating_add (fr_expires (vr_floor v)) (vp_max_clock_skew policy).
Proof.
  unfold full_request, floor_request. intros Hf. inv_ok. simpl.
  match goal with Hp : check_params _ _ _ _ = Ok _ |- _ => apply check_params_Ok in Hp as (_ & _ & _ & _ & Hw & _) end.
  unfold window_admits in Hw. bool_prop. lia.
Qed.
End lemmas.

(** ** Properties *)

(** Dispatch, on every branch. An admitted request had its continuation verified against the
    retained bytes, was not retained and is from then on; a replay is reported only of a retained
    triple, and a refusal before the cache is asked leaves it as it was. *)
Lemma dispatch_exact `{Base64, Sha2, Ed25519, ReplayCacheSpec C} v (c : C) ctx cfg now :
  served_at c now →
  let '(c', res) := dispatch_request v c ctx cfg in
  match res with
  | Ok o => (fleet_strict cfg = true → durability_class c = Durable) ∧ continuation_bound v ctx ∧
            do_replay_key o = replay_key_of v ∧
            do_continuation_verified o = is_some (rb_continuation (vr_request_block v)) ∧
            (∀ u, retained c !! slots v = Some u → u < now) ∧
            retained c' !! slots v = Some (saturating_add (fr_expires (vr_floor v)) (retention_skew c))
  | Err DE.ReplayDetected => is_Some (retained c !! slots v)
  | Err DE.ReplayCacheUnavailable => binding_error v ctx = None
  | Err DE.NonSharedReplayTier => fleet_strict cfg = true ∧ durability_class c = SingleProcessReference ∧ c' = c
  | Err (DE.Profile e) => binding_error v ctx = Some e ∧ c' = c
  end.
Proof.
  intros Hat. pose proof (dispatch_cases v c ctx cfg) as Hd. pose proof (dispatch_Ok v c ctx cfg now) as Hok.
  destruct (dispatch_request v c ctx cfg) as [c' res]. destruct (_ && _) eqn:Ep.
  { destruct Hd as [-> ->]. apply andb_true_iff in Ep as [? ?%bool_decide_eq_true]. done. }
  assert (fleet_strict cfg = true → durability_class c = Durable) as Hp.
  { intros Hf. rewrite Hf in Ep. cbn in Ep. apply bool_decide_eq_false in Ep. by destruct (durability_class c). }
  destruct (binding_error v ctx) as [e|] eqn:Eb; [by destruct Hd as [-> ->]|]. destruct Hd as (Hcb & d & Hc & ->).
  destruct d as [[]|]; [|..|done].
  - destruct (Hok _ _ Hat eq_refl). done.
  - unfold http_check_and_insert in Hc.
    pose proof (check_and_insert_spec c (signer_slot (replay_key_of v)) (audience_slot (replay_key_of v))
      (hk_nonce (replay_key_of v)) (fr_expires (vr_floor v)) now Hat) as Hs. rewrite Hc in Hs. by destruct Hs as (_ & _ & _ & ?).
Qed.

(** C3: a request is admitted at most once while it could be accepted. Over any cache that retains
    an entry until its expiry plus the cache's skew and may forget it then: after a verified
    request was dispatched, and whatever dispatches, prunes and other calls happened since, a
    dispatch of a request with the same five-tuple replay key served by that instant is refused;
    in particular of the same signed request, whenever and under whatever policy it is verified
    again, if the dispatch is served at the instant of that verification and the policy tolerates
    no more skew than the cache does. *)
Theorem dispatched_at_most_once `{Base64, Sha2, Ed25519, SerdeJson, !Serde HttpRequestEvidenceBlock}
    `{ReplayCacheSpec C} v (c c' : C) ctx cfg o t now c2 v2 ctx2 cfg2 :
  served_at c t → dispatch_request v c ctx cfg = (c', Ok o) → replay_run now c' c2 → served_at c2 now →
  (replay_key_of v2 = replay_key_of v ∧ now ≤ saturating_add (fr_expires (vr_floor v)) (retention_skew c)) ∨
  (∃ r expected resolve_actor material policy now1 material2 policy2,
     full_request r expected material resolve_actor policy now1 = Ok v ∧
     full_request r expected material2 resolve_actor policy2 now = Ok v2 ∧
     vp_max_clock_skew policy2 ≤ retention_skew c) →
  is_ok (snd (dispatch_request v2 c2 ctx2 cfg2)) = false.
Proof.
  intros Hat Hd Hrun Hat2 Hk. apply (dispatch_once v c ctx cfg t c' o now c2); try done; unfold slots.
  - destruct Hk as [[-> _]|(? & ? & ? & ? & ? & ? & ? & ? & H1' & H2' & _)]; [done|].
    by destruct (replay_key_stable _ _ _ _ _ _ _ _ _ _ _ H1' H2') as [-> _].
  - destruct Hk as [[_ ?]|(? & ? & ? & ? & ? & ? & ? & ? & H1' & H2' & Hsk)]; [done|].
    destruct (replay_key_stable _ _ _ _ _ _ _ _ _ _ _ H1' H2') as [_ ->].
    apply full_request_window in H2'. unfold saturating_add, clamp_i64 in *. lia.
Qed.

(** The projection onto the cache's slots is injective and the principal is the subject.
    For keys whose profile id and label hold no unit separator, equal slots come from equal
    five-tuples; and the principal slot of two actors' keys is the same exactly when profile,
    label, role, trust domain and subject are, whatever their key ids. *)
Lemma replay_slots_injective k k' a a' exp exp' :
  SEP ∉ hk_profile_id k ∧ SEP ∉ hk_signature_label k →
  SEP ∉ hk_profile_id k' ∧ SEP ∉ hk_signature_label k' →
  hk_actor_id k = actor_id a → hk_actor_id k' = actor_id a' →
  let r := to_core_replay_key k exp in
  let r' := to_core_replay_key k' exp' in
  (rk_signer r = rk_signer r' ∧ rk_audience r = rk_audience r' ∧ rk_nonce r = rk_nonce r' ↔ k = k') ∧
  (rk_principal r = rk_principal r' ↔
     hk_profile_id k = hk_profile_id k' ∧ hk_signature_label k = hk_signature_label k' ∧
     ai_role a = ai_role a' ∧ ai_trust_domain a = ai_trust_domain a' ∧ ai_subject a = ai_subject a').
Proof.
  intros [Hp Hl] [Hp' Hl'] Ha Ha'. cbv zeta. cbn [rk_signer rk_audience rk_nonce rk_principal to_core_replay_key].
  split.
  - split; [|by intros ->]. intros (Hs & Hau & Hn). apply signer_slot_inj in Hs as (Hs1 & Hs2 & Hs3); [|done..].
    clear -Hs1 Hs2 Hs3 Hau Hn. destruct k, k'. unfold audience_slot in Hau. simpl in *. by subst.
  - by apply principal_slot_inj.
Qed.

(** ** Witnesses *)

Import Instances.

Definition w_verified : VerifiedMcpRequest :=
  {| vr_floor :=
       {| fr_profile_id := PROFILE_TAG; fr_signature_label := REQUEST_LABEL;
          fr_resolved_actor := w_actor SlotRequest; fr_evidence := w_evidence;
          fr_request_signature_base := []; fr_content_digest := []; fr_created := 100;
          fr_expires := 160; fr_nonce := b#"n1"; fr_key_id := b#"k1" |};
     vr_audience := w_audience; vr_audience_hash := audience_hash w_audience;
     vr_request_block := w_block |}.
#[local] Instance w_serde : Serde HttpRequestEvidenceBlock := one_value_serde w_block b#"q".
Definition w_config : DispatchConfig := {| fleet_strict := false |}.

(** The cache is pruned at the instant of the second attempt, and has not forgotten. *)
Definition w_cache : InMemoryReplayCache := InMemoryReplayCache_new 30.
Definition w_pruned : InMemoryReplayCache := prune (fst (dispatch_request w_verified w_cache None w_config)) 189.
Lemma dispatched_at_most_once_witness :
  is_ok (snd (dispatch_request w_verified w_pruned None w_config)) = false ∧
  is_ok (snd (dispatch_request w_verified (prune w_pruned 191) None w_config)) = true.
Proof.
  split; [|vm_compute; reflexivity].
  destruct (dispatch_request w_verified w_cache None w_config) as [c' [o|e]] eqn:E.
  - assert (w_pruned = prune c' 189) as -> by (unfold w_pruned; by rewrite E).
    apply (dispatched_at_most_once w_verified w_cache c' None w_config o 100 189 (prune c' 189) w_verified None w_config);
      [exact I|exact E| |exact I|].
    + apply (run_other 189 c' 189 (prune c' 189)); [lia| |apply prune_keeps|apply run_done].
      unfold prune. simpl. by destruct (poisoned c').
    + left. split; [reflexivity|]. vm_compute. discriminate.
  - apply (f_equal (λ x, is_ok (snd x))) in E. vm_compute in E. discriminate E.
Defined.
