(* ===== verification/Delegation.v ===== *)
(** * [mcp-re-http-profile/src/delegation] and [verify/full/delegated]

    A server root signs short-lived credentials for response-signing keys: compact JWS with
    JSON header and claims. [delegation/mod.rs], [parse.rs], [verify.rs] and [issue.rs] issue
    and verify them; [verify/full/delegated] verifies a response whose signing key is
    authorized by such a credential and not by the trust seam. *)

From S2P Require Import Prelude.
From S2P Require Import RustStr.
From S2P Require Import Externals.
From S2P Require Import Concrete.
From S2P Require Import CoreError.
From S2P Require Import CoreResolver.
From S2P Require Import HttpMessage.
From S2P Require Import SigBase.
From S2P Require Import SigInput.
From S2P Require Import SigCanonical.
From S2P Require Import Policy.
From S2P Require Import Blocks.
From S2P Require Import Body.
From S2P Require Import Floor.
From S2P Require Import Sign.
From S2P Require Import Full.

(** ** [mod.rs] *)

Definition DELEGATION_TYP : bytes := b#"mcp-re-delegation+jwt".
Definition DELEGATION_ALG : bytes := b#"EdDSA".
Definition KEY_USE_RESPONSE_SIGNING : bytes := b#"response-signing".

Record DelegationHeader := { dh_typ : bytes; dh_alg : bytes; dh_kid : bytes }.
Record DelegatedJwk := { jwk_kty : bytes; jwk_crv : bytes; jwk_kid : bytes; jwk_x : bytes }.
Record Cnf := { cnf_jwk : DelegatedJwk }.
Inductive Audience : Type := One (a : bytes) | Many (v : list bytes).

Definition audience_contains (aud : Audience) (who : bytes) : bool :=
  match aud with
  | One a => bytes_eqb a who
  | Many v => existsb (λ a, bytes_eqb a who) v
  end.

Record DelegationClaims := {
  dc_iss : bytes;
  dc_iat : Z;
  dc_nbf : Z;
  dc_exp : Z;
  dc_jti : bytes;
  dc_aud : Audience;
  dc_mcp_re_profile : bytes;
  dc_mcp_re_audience_hash : bytes;
  dc_mcp_re_server_signer : bytes;
  dc_mcp_re_key_use : bytes;
  dc_delegated_kid : bytes;
  dc_issuer_kid : bytes;
  dc_trust_epoch : bytes;
  dc_cnf : Cnf;
}.

#[global] Instance DelegationHeader_eq_dec : EqDecision DelegationHeader.
Proof. solve_decision. Defined.
#[global] Instance DelegatedJwk_eq_dec : EqDecision DelegatedJwk.
Proof. solve_decision. Defined.
#[global] Instance Cnf_eq_dec : EqDecision Cnf.
Proof. solve_decision. Defined.
#[global] Instance Audience_eq_dec : EqDecision Audience.
Proof. solve_decision. Defined.
#[global] Instance DelegationClaims_eq_dec : EqDecision DelegationClaims.
Proof. solve_decision. Defined.

Record VerifiedDelegation `{Ed25519} := {
  vd_delegated_key : VerificationKey;
  vd_delegated_kid : bytes;
  vd_server_signer : bytes;
  vd_issuer_kid : bytes;
  vd_nbf : Z;
  vd_exp : Z;
  vd_trust_epoch : bytes;
}.

(** [configured.clamp(0, MAX_CLOCK_SKEW_BOUND)]. *)
Definition bounded_skew (configured : Z) : Z := Z.max 0 (Z.min configured MAX_CLOCK_SKEW_BOUND).

Record DelegationVerifyParams := {
  dp_now : Z;
  dp_max_clock_skew : Z;
  dp_verifier_audiences : list bytes;
  dp_expected_profile : bytes;
  dp_expected_audience_hash : bytes;
  dp_expected_server_signer : bytes;
  dp_accepted_epochs : list bytes;
}.

(** ** [parse.rs] *)

(** [split('.')] into exactly three non-empty segments. *)
Definition three_segments (jws : bytes) : option (bytes * bytes * bytes) :=
  match split_char "." jws with
  | [h; p; s] => if bytes_eqb h [] || bytes_eqb p [] || bytes_eqb s [] then None else Some (h, p, s)
  | _ => None
  end.

Definition split_compact_jws (jws : bytes) : Result (bytes * bytes * bytes) HttpProfileError :=
  ok_or (three_segments jws) HPE.DelegationCredentialInvalid.

Section delegation.
Context `{Base64, Sha2, Ed25519, SerdeJson}.
Context `{!Serde DelegationHeader, !Serde DelegationClaims}.

Definition delegation_decode_json `{!Serde T} (segment : bytes) : Result T HttpProfileError :=
  let? b := map_err (λ _, HPE.DelegationCredentialInvalid) (b64url_decode segment) in
  ok_or (from_slice_as b) HPE.DelegationCredentialInvalid.

Definition parse_credential (compact_jws : bytes)
  : Result (DelegationHeader * DelegationClaims) HttpProfileError :=
  let? (h, p, _) := split_compact_jws compact_jws in
  let? header := delegation_decode_json h in
  let? claims := delegation_decode_json p in
  Ok (header, claims).

(** ** [verify.rs]

    The root resolver is a closure with interior state: it takes and returns an [S]. *)

Section verify.
Context {S : Type} (resolve_root : bytes → S → S * option VerificationKey).

Definition check_root_signature (segments : bytes * bytes * bytes) (header : DelegationHeader)
    (claims : DelegationClaims) (st : S) : S * Result unit HttpProfileError :=
  let '(header_seg, payload_seg, sig_seg) := segments in
  if negb (bytes_eqb (dh_typ header) DELEGATION_TYP) || negb (bytes_eqb (dh_alg header) DELEGATION_ALG)
  then (st, Err HPE.DelegationCredentialInvalid)
  else if negb (bytes_eqb (dh_kid header) (dc_issuer_kid claims))
  then (st, Err HPE.DelegationCredentialInvalid)
  else
    let '(st', root_key) := resolve_root (dc_issuer_kid claims) st in
    (st', let? root_key := ok_or root_key HPE.DelegationIssuerUntrusted in
          map_err (λ _, HPE.DelegationCredentialInvalid)
            (verify_ed25519_with (header_seg ++ b#"." ++ payload_seg) sig_seg root_key
               DelegationCredentialInvalid)).

Definition check_freshness (claims : DelegationClaims) (params : DelegationVerifyParams)
  : Result unit HttpProfileError :=
  let skew := bounded_skew (dp_max_clock_skew params) in
  match checked_add (dp_now params) skew, checked_sub (dp_now params) skew with
  | Some earliest, Some latest =>
      if (earliest <? dc_nbf claims) || (dc_exp claims <? latest)
      then Err HPE.DelegationCredentialExpired else Ok tt
  | _, _ => Err HPE.DelegationCredentialExpired
  end.

Definition check_scope (claims : DelegationClaims) (params : DelegationVerifyParams)
  : Result unit HttpProfileError :=
  if negb (existsb (audience_contains (dc_aud claims)) (dp_verifier_audiences params))
  then Err HPE.DelegationAudienceMismatch
  else if negb (bytes_eqb (dc_mcp_re_profile claims) (dp_expected_profile params))
  then Err HPE.DelegationProfileMismatch
  else if negb (bytes_eqb (dc_mcp_re_audience_hash claims) (dp_expected_audience_hash params))
          || negb (bytes_eqb (dc_mcp_re_server_signer claims) (dp_expected_server_signer params))
  then Err HPE.DelegationAudienceMismatch
  else if negb (bytes_eqb (dc_mcp_re_key_use claims) KEY_USE_RESPONSE_SIGNING)
  then Err HPE.DelegationKeyUseInvalid
  else Ok tt.

Definition check_epoch_and_revocation (claims : DelegationClaims) (params : DelegationVerifyParams)
    (is_revoked : bytes → bool) : Result unit HttpProfileError :=
  if negb (existsb (λ e, bytes_eqb e (dc_trust_epoch claims)) (dp_accepted_epochs params))
  then Err HPE.DelegationTrustEpochStale
  else if is_revoked (dc_delegated_kid claims) || is_revoked (dc_issuer_kid claims)
          || is_revoked (dc_jti claims)
  then Err HPE.DelegationRevoked
  else Ok tt.

Definition delegated_key (claims : DelegationClaims) : Result VerificationKey HttpProfileError :=
  let jwk := cnf_jwk (dc_cnf claims) in
  if negb (bytes_eqb (jwk_kty jwk) JWK_KTY_OKP) || negb (bytes_eqb (jwk_crv jwk) JWK_CRV_ED25519)
     || negb (bytes_eqb (jwk_kid jwk) (dc_delegated_kid claims))
  then Err HPE.DelegationCredentialInvalid
  else map_err (λ _, HPE.DelegationCredentialInvalid) (VerificationKey_from_b64url (jwk_x jwk)).

Definition verify_delegation_credential (compact_jws : bytes) (params : DelegationVerifyParams)
    (is_revoked : bytes → bool) (st : S) : S * Result VerifiedDelegation HttpProfileError :=
  match (let? segments := split_compact_jws compact_jws in
         let? header := delegation_decode_json (segments.1.1) in
         let? claims := delegation_decode_json (segments.1.2) in
         Ok (segments, header, claims)) with
  | Err e => (st, Err e)
  | Ok (segments, header, claims) =>
      let '(st', root_ok) := check_root_signature segments header claims st in
      (st', root_ok ;?
            check_freshness claims params ;?
            check_scope claims params ;?
            check_epoch_and_revocation claims params is_revoked ;?
            let? delegated_key := delegated_key claims in
            Ok {| vd_delegated_key := delegated_key; vd_delegated_kid := dc_delegated_kid claims;
                  vd_server_signer := dc_mcp_re_server_signer claims;
                  vd_issuer_kid := dc_issuer_kid claims; vd_nbf := dc_nbf claims;
                  vd_exp := dc_exp claims; vd_trust_epoch := dc_trust_epoch claims |})
  end.
End verify.

(** ** [issue.rs] *)

Definition issue_delegation_credential_with_signer (header : DelegationHeader) (claims : DelegationClaims)
    (sign_root : base_signer) : Result bytes HttpProfileError :=
  let? hj := ok_or (to_vec_of header) HPE.DelegationCredentialInvalid in
  let? pj := ok_or (to_vec_of claims) HPE.DelegationCredentialInvalid in
  let h := b64url_encode hj in
  let p := b64url_encode pj in
  let? sig := sign_root (h ++ b#"." ++ p) in
  if negb (length sig =? ED25519_SIGNATURE_LEN)%nat then Err HPE.DelegationCredentialInvalid
  else Ok (h ++ b#"." ++ p ++ b#"." ++ b64url_encode sig).

(** [None] is the [expect] panicking. *)
Definition issue_delegation_credential (root_key : SigningKey) (header : DelegationHeader)
    (claims : DelegationClaims) : option bytes :=
  result_ok (issue_delegation_credential_with_signer header claims
    (λ input, map_err (λ _, HPE.DelegationCredentialInvalid)
                (b64url_decode (SigningKey_sign root_key input)))).

(** ** [verify/full/delegated] *)

Record DelegationExpectations := {
  de_verifier_audiences : list bytes;
  de_expected_audience_hash : bytes;
  de_accepted_epochs : list bytes;
  de_max_clock_skew : Z;
}.

Record VerifiedDelegatedMcpResponse := {
  vdr_signature_facts : BoundResponseSignatureFacts;
  vdr_request_evidence_agreement : BoundRequestEvidenceAgreement;
  vdr_delegation_issuer_kid : bytes;
}.
Record VerifiedDelegatedUnboundResponse := {
  vdu_signature_facts : UnboundResponseSignatureFacts;
  vdu_delegation_issuer_kid : bytes;
}.

(** The closure [chain_to_root] resolves roots with: the trust seam in the response slot. A
    failure other than an unresolved key id is kept in the cell. *)
Definition root_resolver (resolve_actor : actor_resolver) (issuer_kid : bytes)
    (cell : option HttpProfileError) : option HttpProfileError * option VerificationKey :=
  match resolve_actor_for_slot resolve_actor issuer_kid SlotResponse with
  | Ok actor => (cell, Some (ra_verification_key actor))
  | Err HPE.UnresolvedKeyId => (cell, None)
  | Err e => (Some e, None)
  end.

Definition chain_params (block : HttpResponseEvidenceBlock) (expect : DelegationExpectations) (now : Z)
  : DelegationVerifyParams :=
  {| dp_now := now; dp_max_clock_skew := de_max_clock_skew expect;
     dp_verifier_audiences := de_verifier_audiences expect; dp_expected_profile := PROFILE_TAG;
     dp_expected_audience_hash := de_expected_audience_hash expect;
     dp_expected_server_signer := actor_id (sb_server_signer block);
     dp_accepted_epochs := de_accepted_epochs expect |}.

Definition chain_to_root (credential : bytes) (block : HttpResponseEvidenceBlock)
    (resolve_actor : actor_resolver) (expect : DelegationExpectations) (is_revoked : bytes → bool)
    (now : Z) : Result VerifiedDelegation HttpProfileError :=
  let '(cell, verified) :=
    verify_delegation_credential (root_resolver resolve_actor) credential
      (chain_params block expect now) is_revoked None in
  map_err (λ e, default e cell) verified.

Context `{!Serde HttpResponseEvidenceBlock}.

Definition delegated_bound_response (response : HttpResponse) (request : HttpRequest)
    (resolve_actor : actor_resolver) (policy : VerifierPolicy) (expect : DelegationExpectations)
    (is_revoked : bytes → bool) (now : Z) : Result VerifiedDelegatedMcpResponse HttpProfileError :=
  reject_content_encoding (resp_headers response) ;?
  require_json_media_type (resp_headers response) b#"response content-type" ;?
  let? digest_header := map_err (λ _, HPE.MissingEvidence b#"response content-digest")
                          (required_header (resp_headers response) b#"content-digest") in
  verify_content_digest_sha256 digest_header (resp_body response) ;?
  let? input_header := map_err (λ _, HPE.MissingEvidence b#"response signature-input")
                         (required_header (resp_headers response) b#"signature-input") in
  let? member := member_value input_header RESPONSE_LABEL in
  let? parsed := parse_signature_input member in
  require_components (psi_components parsed) REQUIRED_RESPONSE_COMPONENTS
    REQUIRED_RESPONSE_REQ_COMPONENTS ;?
  let? (_, _, _, key_id, algorithm) := check_params (psi_params parsed) policy now false in
  let? block := extract_meta_block (resp_body response) RESPONSE_EVIDENCE_BLOCK_KEY
                  b#"response evidence block" in
  response_block_validate block PROFILE_TAG ;?
  let? credential := ok_or (sb_server_delegation block) HPE.DelegationCredentialMissing in
  let? verified := chain_to_root credential block resolve_actor expect is_revoked now in
  if negb (bytes_eqb key_id (vd_delegated_kid verified))
     || negb (bytes_eqb (ai_keyid (sb_server_signer block)) (vd_delegated_kid verified))
  then Err HPE.DelegationKeyMismatch
  else
    let? base := signature_base (psi_components parsed) (psi_params parsed)
                   (SourceResponse response request) in
    let? sig := signature_value_b64url (resp_headers response) b#"response signature" RESPONSE_LABEL in
    map_err (λ _, HPE.DelegationKeyMismatch)
      (verify_under algorithm base sig (vd_delegated_key verified) ResponseSigInvalid) ;?
    let? bound := request_evidence_of request in
    if negb (bytes_eqb (digest_alg (sb_request_evidence block)) (digest_alg bound))
       || negb (bytes_eqb (digest_value (sb_request_evidence block)) (digest_value bound))
    then Err HPE.ResponseBindingMismatch
    else Ok {| vdr_signature_facts :=
                 {| bsf_accepted_signer :=
                      {| ars_identity := sb_server_signer block;
                         ars_verification_key := vd_delegated_key verified |};
                    bsf_response_signature_base_digest := from_response_signature_base base |};
               vdr_request_evidence_agreement := block_agreement bound block;
               vdr_delegation_issuer_kid := vd_issuer_kid verified |}.

Definition delegated_unbound_response (response : HttpResponse)
    (resolve_actor : actor_resolver) (policy : VerifierPolicy) (expect : DelegationExpectations)
    (is_revoked : bytes → bool) (now : Z) : Result VerifiedDelegatedUnboundResponse HttpProfileError :=
  reject_content_encoding (resp_headers response) ;?
  require_json_media_type (resp_headers response) b#"response content-type" ;?
  let? digest_header := map_err (λ _, HPE.MissingEvidence b#"response content-digest")
                          (required_header (resp_headers response) b#"content-digest") in
  verify_content_digest_sha256 digest_header (resp_body response) ;?
  let? input_header := map_err (λ _, HPE.MissingEvidence b#"response signature-input")
                         (required_header (resp_headers response) b#"signature-input") in
  let? member := member_value input_header RESPONSE_LABEL in
  let? parsed := parse_signature_input member in
  require_components (psi_components parsed) REQUIRED_RESPONSE_COMPONENTS [] ;?
  if existsb cc_req (psi_components parsed)
  then Err (HPE.MalformedEvidence b#"req component without request context")
  else
    let? (_, _, _, key_id, algorithm) := check_params (psi_params parsed) policy now false in
    let? block := extract_meta_block (resp_body response) RESPONSE_EVIDENCE_BLOCK_KEY
                    b#"response evidence block" in
    response_block_validate block PROFILE_TAG ;?
    let? credential := ok_or (sb_server_delegation block) HPE.DelegationCredentialMissing in
    let? verified := chain_to_root credential block resolve_actor expect is_revoked now in
    if negb (bytes_eqb key_id (vd_delegated_kid verified))
       || negb (bytes_eqb (ai_keyid (sb_server_signer block)) (vd_delegated_kid verified))
    then Err HPE.DelegationKeyMismatch
    else
      let? base := signature_base (psi_components parsed) (psi_params parsed)
                     (SourceResponseOnly response) in
      let? sig := signature_value_b64url (resp_headers response) b#"response signature" RESPONSE_LABEL in
      map_err (λ _, HPE.DelegationKeyMismatch)
        (verify_under algorithm base sig (vd_delegated_key verified) ResponseSigInvalid) ;?
      Ok {| vdu_signature_facts :=
              {| usf_accepted_signer :=
                   {| ars_identity := sb_server_signer block;
                      ars_verification_key := vd_delegated_key verified |};
                 usf_response_signature_base_digest := from_response_signature_base base |};
            vdu_delegation_issuer_kid := vd_issuer_kid verified |}.
End delegation.

(** ** Compact JWS *)

Lemma three_segments_Some jws h p s :
  three_segments jws = Some (h, p, s) ↔
    jws = h ++ "."%char :: p ++ "."%char :: s ∧ ("."%char ∉ h) ∧ ("."%char ∉ p) ∧ ("."%char ∉ s) ∧
    h ≠ [] ∧ p ≠ [] ∧ s ≠ [].
Proof.
  unfold three_segments. split.
  - intros Ht. pose proof (join_split_char "." jws) as Hj. pose proof (split_char_pieces "." jws) as HF.
    destruct (split_char "." jws) as [|x [|y [|z [|? ?]]]]; try done.
    destruct (bytes_eqb x [] || bytes_eqb y [] || bytes_eqb z []) eqn:E; [done|].
    injection Ht as -> -> ->. bool_prop. str_prop. inv_Forall. simpl in Hj. by rewrite <-Hj.
  - intros (-> & Hh & Hp & Hs & Nh & Np & Ns).
    rewrite !split_char_app, (split_char_nosep _ s) by done.
    by rewrite !(proj2 (bytes_eqb_false _ _)) by done.
Qed.

(** A text that base64url-encodes non-empty segments splits back into them. *)
Lemma three_segments_encoded `{Base64Laws} a b c :
  a ≠ [] → b ≠ [] → c ≠ [] →
  three_segments (url_encode a ++ b#"." ++ url_encode b ++ b#"." ++ url_encode c) =
    Some (url_encode a, url_encode b, url_encode c).
Proof.
  intros Ha Hb Hc. apply three_segments_Some. split_and!; try done;
    solve [by apply url_encode_no|by apply url_encode_nonempty].
Qed.

(** ** Lemmas on the checks *)

Definition delegation_fresh (claims : DelegationClaims) (params : DelegationVerifyParams) : Prop :=
  let skew := bounded_skew (dp_max_clock_skew params) in
  is_i64 (dp_now params + skew) ∧ is_i64 (dp_now params - skew) ∧
  dc_nbf claims ≤ dp_now params + skew ∧ dp_now params - skew ≤ dc_exp claims.

Definition delegation_in_scope (claims : DelegationClaims) (params : DelegationVerifyParams) : Prop :=
  (∃ a, a ∈ dp_verifier_audiences params ∧ audience_contains (dc_aud claims) a = true) ∧
  dc_mcp_re_profile claims = dp_expected_profile params ∧
  dc_mcp_re_audience_hash claims = dp_expected_audience_hash params ∧
  dc_mcp_re_server_signer claims = dp_expected_server_signer params ∧
  dc_mcp_re_key_use claims = KEY_USE_RESPONSE_SIGNING.

Definition delegation_current (claims : DelegationClaims) (params : DelegationVerifyParams)
    (is_revoked : bytes → bool) : Prop :=
  dc_trust_epoch claims ∈ dp_accepted_epochs params ∧
  is_revoked (dc_delegated_kid claims) = false ∧ is_revoked (dc_issuer_kid claims) = false ∧
  is_revoked (dc_jti claims) = false.

Lemma check_freshness_Ok claims params u :
  check_freshness claims params = Ok u ↔ delegation_fresh claims params.
Proof.
  destruct u. unfold check_freshness, delegation_fresh, checked_add, checked_sub, checked_i64.
  cbv zeta. set (skew := bounded_skew _).
  destruct (in_i64 (dp_now params + skew)) eqn:E1, (in_i64 (dp_now params - skew)) eqn:E2;
    rewrite ?in_i64_spec in *; try (split; [done|]; intros (H1 & H2 & _);
      apply in_i64_spec in H1, H2; congruence).
  split.
  - intros Hc. inv_ok. bool_prop. by split_and!.
  - intros (_ & _ & H1 & H2). replace (_ <? _) with false by lia. by replace (_ <? _) with false by lia.
Qed.

Lemma check_scope_Ok claims params u :
  check_scope claims params = Ok u ↔ delegation_in_scope claims params.
Proof.
  destruct u. unfold check_scope, delegation_in_scope. rewrite <-existsb_elem. split.
  - intros Hc. inv_ok. bool_prop. str_prop. by split_and!.
  - intros (-> & -> & -> & -> & ->). by rewrite !bytes_eqb_refl.
Qed.

Lemma check_epoch_and_revocation_Ok claims params is_revoked u :
  check_epoch_and_revocation claims params is_revoked = Ok u ↔ delegation_current claims params is_revoked.
Proof.
  destruct u. unfold check_epoch_and_revocation, delegation_current.
  assert (existsb (λ e, bytes_eqb e (dc_trust_epoch claims)) (dp_accepted_epochs params) = true ↔
          dc_trust_epoch claims ∈ dp_accepted_epochs params) as Hin.
  { rewrite existsb_elem. split; [by intros (e & He & ->%bytes_eqb_true)|].
    intros He. eexists. split; [exact He|apply bytes_eqb_refl]. }
  rewrite <-Hin. split.
  - intros Hc. inv_ok. bool_prop. by split_and!.
  - by intros (-> & -> & -> & ->).
Qed.

Section credential.
Context `{Base64, Sha2, Ed25519, SerdeJson, !Serde DelegationHeader, !Serde DelegationClaims}.

Definition verified_of (claims : DelegationClaims) (key : VerificationKey) : VerifiedDelegation :=
  {| vd_delegated_key := key; vd_delegated_kid := dc_delegated_kid claims;
     vd_server_signer := dc_mcp_re_server_signer claims; vd_issuer_kid := dc_issuer_kid claims;
     vd_nbf := dc_nbf claims; vd_exp := dc_exp claims; vd_trust_epoch := dc_trust_epoch claims |}.

(** The credential [jws] is a JWS over [header] and [claims] that verifies under [root]. *)
Definition credential_signed_by (root : VerificationKey) (jws : bytes) (header : DelegationHeader)
    (claims : DelegationClaims) : Prop :=
  ∃ h p s sig, three_segments jws = Some (h, p, s) ∧
    delegation_decode_json h = Ok header ∧ delegation_decode_json p = Ok claims ∧
    url_decode s = Some sig ∧ length sig = SIGNATURE_LEN ∧
    verify_strict (vk_inner root) (h ++ b#"." ++ p) sig = true.

Definition header_names (header : DelegationHeader) (claims : DelegationClaims) : Prop :=
  dh_typ header = DELEGATION_TYP ∧ dh_alg header = DELEGATION_ALG ∧ dh_kid header = dc_issuer_kid claims.

Lemma delegated_key_Ok claims key :
  delegated_key claims = Ok key ↔
    jwk_kty (cnf_jwk (dc_cnf claims)) = JWK_KTY_OKP ∧
    jwk_crv (cnf_jwk (dc_cnf claims)) = JWK_CRV_ED25519 ∧
    jwk_kid (cnf_jwk (dc_cnf claims)) = dc_delegated_kid claims ∧
    VerificationKey_from_b64url (jwk_x (cnf_jwk (dc_cnf claims))) = Ok key.
Proof.
  unfold delegated_key. cbv zeta. split.
  - intros Hd. inv_ok. bool_prop. str_prop. by split_and!.
  - intros (-> & -> & -> & Hk). rewrite !bytes_eqb_refl. cbn [negb orb]. by rewrite Hk.
Qed.

Section with_resolver.
Context {S : Type} (resolve_root : bytes → S → S * option VerificationKey).

Lemma check_root_signature_Ok h p s header claims st st' u :
  check_root_signature resolve_root (h, p, s) header claims st = (st', Ok u) ↔
    header_names header claims ∧
    ∃ root, resolve_root (dc_issuer_kid claims) st = (st', Some root) ∧
      verify_ed25519_with (h ++ b#"." ++ p) s root DelegationCredentialInvalid = Ok tt.
Proof.
  destruct u. unfold check_root_signature, header_names. split.
  - intros Hc. destruct (_ || _) eqn:E1; [done|].
    destruct (negb (bytes_eqb (dh_kid header) _)) eqn:E2; [done|].
    destruct (resolve_root _ st) as [st1 o] eqn:Er. injection Hc as <- Hc. inv_ok.
    bool_prop. str_prop. simplify_eq. by eauto 10.
  - intros ((-> & -> & ->) & root & -> & Hv). rewrite !bytes_eqb_refl. cbn [negb orb ok_or].
    by rewrite Hv.
Qed.

Lemma verify_delegation_credential_Ok jws params is_revoked st st' vd :
  verify_delegation_credential resolve_root jws params is_revoked st = (st', Ok vd) ↔
    ∃ header claims root,
      credential_signed_by root jws header claims ∧ header_names header claims ∧
      resolve_root (dc_issuer_kid claims) st = (st', Some root) ∧
      delegation_fresh claims params ∧ delegation_in_scope claims params ∧
      delegation_current claims params is_revoked ∧
      ∃ key, delegated_key claims = Ok key ∧ vd = verified_of claims key.
Proof.
  unfold verify_delegation_credential, credential_signed_by, split_compact_jws. split.
  - intros Hv. destruct (let? segments := _ in _) as [[[[[h p] s] header] claims]|e] eqn:Ep; [|done].
    inv_ok. cbn [fst snd] in *. simplify_eq.
    destruct (check_root_signature resolve_root (h, p, s) header claims st) as [st1 r] eqn:Er. injection Hv as -> Hv. inv_ok.
    apply check_root_signature_Ok in Er as (Hh & root & Hr & Hsig).
    apply verify_ed25519_with_Ok in Hsig as (sig & ? & ? & ?).
    rewrite check_freshness_Ok, check_scope_Ok, check_epoch_and_revocation_Ok in *.
    exists header, claims, root. split; [by exists h, p, s, sig|]. split_and!; eauto.
  - intros (header & claims & root & (h & p & s & sig & Ht & Hh & Hp & Hsig) & Hn & Hr & Hf & Hs & Hc &
      key & Hk & ->). rewrite Ht. cbn [ok_or fst snd]. rewrite Hh, Hp.
    assert (check_root_signature resolve_root (h, p, s) header claims st = (st', Ok tt)) as ->.
    { apply check_root_signature_Ok. split; [done|]. exists root. split; [done|].
      apply verify_ed25519_with_Ok. eauto. }
    rewrite (proj2 (check_freshness_Ok _ _ tt) Hf), (proj2 (check_scope_Ok _ _ tt) Hs),
      (proj2 (check_epoch_and_revocation_Ok _ _ _ tt) Hc), Hk. done.
Qed.
End with_resolver.

(** The trust seam is asked for the issuer in the response slot, and nothing else. *)
Lemma chained_credential_Ok credential params resolve_actor is_revoked vd :
  (let '(cell, verified) :=
     verify_delegation_credential (root_resolver resolve_actor) credential params is_revoked None in
   map_err (λ e, default e cell) verified) = Ok vd ↔
    ∃ header claims root,
      credential_signed_by (ra_verification_key root) credential header claims ∧
      header_names header claims ∧
      resolve_actor (dc_issuer_kid claims) SlotResponse = Resolved root ∧ ra_slot root = SlotResponse ∧
      delegation_fresh claims params ∧ delegation_in_scope claims params ∧
      delegation_current claims params is_revoked ∧
      ∃ key, delegated_key claims = Ok key ∧ vd = verified_of claims key.
Proof.
  assert (∀ kid cell cell' k, root_resolver resolve_actor kid cell = (cell', Some k) ↔
    ∃ root, resolve_actor kid SlotResponse = Resolved root ∧ ra_slot root = SlotResponse ∧
      k = ra_verification_key root ∧ cell' = cell) as Hr.
  { intros kid cell cell' k. unfold root_resolver, resolve_actor_for_slot.
    destruct (resolve_actor kid SlotResponse) as [a| |]; simpl; [|naive_solver..].
    case_bool_decide; simpl; naive_solver. }
  split.
  - destruct (verify_delegation_credential _ _ _ _ _) as [cell r] eqn:Ev. intros Hm.
    apply map_err_Ok in Hm. subst r. apply verify_delegation_credential_Ok in Ev
      as (header & claims & root & Hsig & Hn & (a & Ha & Hs & -> & ->)%Hr & Hrest).
    by eauto 10.
  - intros (header & claims & a & Hsig & Hn & Ha & Hs & Hrest).
    rewrite (proj2 (verify_delegation_credential_Ok (root_resolver resolve_actor) credential
      params is_revoked None None vd)); [done|].
    exists header, claims, (ra_verification_key a). do 2 (split; [done|]).
    split; [apply Hr; eauto|done].
Qed.

Lemma chain_to_root_Ok credential block resolve_actor expect is_revoked now vd :
  chain_to_root credential block resolve_actor expect is_revoked now = Ok vd ↔
    ∃ header claims root,
      credential_signed_by (ra_verification_key root) credential header claims ∧
      header_names header claims ∧
      resolve_actor (dc_issuer_kid claims) SlotResponse = Resolved root ∧ ra_slot root = SlotResponse ∧
      delegation_fresh claims (chain_params block expect now) ∧
      delegation_in_scope claims (chain_params block expect now) ∧
      delegation_current claims (chain_params block expect now) is_revoked ∧
      ∃ key, delegated_key claims = Ok key ∧ vd = verified_of claims key.
Proof. apply chained_credential_Ok. Qed.
End credential.

(** ** Properties *)

Section properties.
Context `{Base64Laws, Sha2, Ed25519Laws, SerdeJsonLaws, F64Carrier}.
Context `{!Serde DelegationHeader, !Serde DelegationClaims, !Serde HttpResponseEvidenceBlock}.
Context `{!SerdeLaws (T := DelegationHeader), !SerdeLaws (T := DelegationClaims),
  !SerdeLaws (T := HttpResponseEvidenceBlock)}.

Lemma delegation_decode_encoded `{!Serde T, !SerdeLaws (T := T)} (t : T) b :
  to_vec_of t = Some b → delegation_decode_json (url_encode b) = Ok t.
Proof.
  intros Hb. unfold delegation_decode_json, b64url_decode. rewrite url_decode_encode. simpl.
  by rewrite (from_slice_to_vec_of _ _ Hb).
Qed.

(** What the root issues is signed by the root. *)
Lemma issued_credential_signed root header claims jws :
  issue_delegation_credential root header claims = Some jws →
  credential_signed_by (SigningKey_public_key root) jws header claims.
Proof.
  unfold issue_delegation_credential, issue_delegation_credential_with_signer.
  destruct (let? hj := _ in _) as [x|] eqn:E; [|done]. simpl. intros [= <-]. inv_ok.
  unfold b64url_decode, SigningKey_sign, b64url_encode in *. rewrite url_decode_encode in *. inv_ok.
  bool_prop. apply Nat.eqb_eq in E3. injection E2 as <-. eexists _, _, _, _. split_and!.
  - apply three_segments_encoded;
      [exact (to_vec_of_nonempty _ _ E0)|exact (to_vec_of_nonempty _ _ E1)|by intros Hd; rewrite Hd in E3].
  - by apply delegation_decode_encoded.
  - by apply delegation_decode_encoded.
  - apply url_decode_encode.
  - done.
  - apply verify_strict_sign.
Qed.

Lemma parse_issued_credential root header claims jws :
  issue_delegation_credential root header claims = Some jws → parse_credential jws = Ok (header, claims).
Proof.
  intros (h & p & s & sig & Ht & Hh & Hp & _)%issued_credential_signed.
  unfold parse_credential, split_compact_jws. rewrite Ht. simpl. by rewrite Hh, Hp.
Qed.
End properties.

(** A credential the root issues authorizes the key it names. If issuing succeeds with a
    header that names the root and claims that are fresh, in scope and not revoked for the
    verifier, and the trust seam resolves the issuer to the root's public key in the response
    slot, then chaining the credential to the root returns the delegated key and the facts of
    the claims. *)
Lemma issued_credential_authorizes `{Base64Laws, Sha2, Ed25519Laws, SerdeJsonLaws,
    !Serde DelegationHeader, !Serde DelegationClaims,
    !SerdeLaws (T := DelegationHeader), !SerdeLaws (T := DelegationClaims)}
    root header claims jws block resolve_actor expect is_revoked now actor key :
  issue_delegation_credential root header claims = Some jws → header_names header claims →
  resolve_actor (dc_issuer_kid claims) SlotResponse = Resolved actor → ra_slot actor = SlotResponse →
  ra_verification_key actor = SigningKey_public_key root →
  delegation_fresh claims (chain_params block expect now) →
  delegation_in_scope claims (chain_params block expect now) →
  delegation_current claims (chain_params block expect now) is_revoked →
  delegated_key claims = Ok key →
  chain_to_root jws block resolve_actor expect is_revoked now = Ok (verified_of claims key).
Proof.
  intros Hi Hn Hr Hs Hk Hf Hsc Hc Hd. apply chain_to_root_Ok.
  exists header, claims, actor. rewrite Hk. split; [by apply issued_credential_signed|].
  do 6 (split; [done|]). by exists key.
Qed.

(** C13: a delegated response is authorized by a chain to the root. When a delegated response
    is accepted, its evidence block carries a credential that verifies under the key the
    trust seam resolves, in the response slot, for the issuer the credential names; the
    credential is fresh, in scope for this verifier and this server signer, of an accepted
    epoch and not revoked; the response signature, over response and request, verifies
    strictly under the key the credential delegates to, whose key id is the one in the
    signature and in the block; the content digest it covers is that of the body, its window
    admits this instant, and both request handles are the one of this request. *)
Theorem delegated_bound_response_sound `{Base64, Sha2, Ed25519, SerdeJson,
    !Serde DelegationHeader, !Serde DelegationClaims, !Serde HttpResponseEvidenceBlock}
    response request resolve_actor policy expect is_revoked now v :
  delegated_bound_response response request resolve_actor policy expect is_revoked now = Ok v →
  ∃ block credential header claims root cs p base sig digest_header created expires nonce alg,
    required_header (resp_headers response) b#"content-digest" = Ok digest_header ∧
    verify_content_digest_sha256 digest_header (resp_body response) = Ok tt ∧
    check_params p policy now false = Ok (created, expires, nonce, dc_delegated_kid claims, alg) ∧
    extract_meta_block (resp_body response) RESPONSE_EVIDENCE_BLOCK_KEY b#"response evidence block" = Ok block ∧
    sb_server_delegation block = Some credential ∧
    resolve_actor (dc_issuer_kid claims) SlotResponse = Resolved root ∧ ra_slot root = SlotResponse ∧
    credential_signed_by (ra_verification_key root) credential header claims ∧
    header_names header claims ∧
    delegation_fresh claims (chain_params block expect now) ∧
    delegation_in_scope claims (chain_params block expect now) ∧
    delegation_current claims (chain_params block expect now) is_revoked ∧
    delegated_key claims = Ok (ars_verification_key (bsf_accepted_signer (vdr_signature_facts v))) ∧
    ars_identity (bsf_accepted_signer (vdr_signature_facts v)) = sb_server_signer block ∧
    ai_keyid (sb_server_signer block) = dc_delegated_kid claims ∧
    p_keyid p = Some (dc_delegated_kid claims) ∧
    Forall (λ n, component_new n ∈ cs) REQUIRED_RESPONSE_COMPONENTS ∧
    Forall (λ n, component_req n ∈ cs) REQUIRED_RESPONSE_REQ_COMPONENTS ∧
    signature_base cs p (SourceResponse response request) = Ok base ∧
    verify_strict (vk_inner (ars_verification_key (bsf_accepted_signer (vdr_signature_facts v)))) base sig = true ∧
    bsf_response_signature_base_digest (vdr_signature_facts v) = from_response_signature_base base ∧
    request_evidence_of request = Ok (bound_request_evidence (vdr_request_evidence_agreement v)) ∧
    body_request_evidence (vdr_request_evidence_agreement v) =
      bound_request_evidence (vdr_request_evidence_agreement v).
Proof.
  unfold delegated_bound_response. intros Hd. inv_ok. bool_prop. str_prop.
  repeat match goal with
  | Hc : chain_to_root _ _ _ _ _ _ = Ok _ |- _ =>
      apply chain_to_root_Ok in Hc as (header & claims & root & Hsig & Hn & Hr & Hs & Hf & Hsc & Hcu & key & Hk & ->)
  | Hv : verify_under _ _ _ _ _ = Ok _ |- _ =>
      apply verify_under_Ok in Hv; apply verify_ed25519_with_Ok in Hv as (sig & _ & _ & Hstrict)
  | Hq : require_components _ _ _ = Ok _ |- _ => apply require_components_Ok in Hq as [Hq1 Hq2]
  | u : unit |- _ => destruct u
  end. simpl in *. subst.
  match goal with Hp : check_params _ _ _ _ = Ok _ |- _ => pose proof Hp as (_ & _ & _ & _ & _ & _ & _ & Hkid)%check_params_Ok end.
  eexists _, _, header, claims, root, _, _, _, sig, _, _, _, _, _. split_and!; try eassumption; try done.
  by apply evidence_eta.
Qed.

Lemma signed_response_body `{Base64, Sha2, Ed25519} s r f kid created expires s' res :
  sign_response_with_signer s r f kid created expires = (s', res) → resp_body s' = resp_body s.
Proof.
  unfold sign_response_with_signer. intros Hs. repeat case_match; by simplify_eq/=.
Qed.

Lemma delegated_response_accepted `{Base64Laws, Sha2, Ed25519Laws, SerdeJsonLaws, F64Carrier,
    !Serde DelegationHeader, !Serde DelegationClaims,
    !Serde HttpResponseEvidenceBlock, !SerdeLaws (T := HttpResponseEvidenceBlock)}
    s r ev signer jws dkey created expires s' base resolve_actor policy expect is_revoked now vd :
  sign_delegated_response_full s r ev signer jws dkey (ai_keyid signer) created expires = (s', Ok base) →
  request_evidence_of r = Ok ev →
  chain_to_root jws (response_block signer jws ev) resolve_actor expect is_revoked now = Ok vd →
  vd_delegated_kid vd = ai_keyid signer → vd_delegated_key vd = SigningKey_public_key dkey →
  is_i64 created ∧ is_i64 expires →
  require_json_media_type (resp_headers s) b#"response content-type" = Ok tt →
  accepted_algorithm policy ALG_ED25519 = Some Ed25519Alg →
  window_admits created expires now (vp_max_clock_skew policy) = true →
  saturating_sub expires created ≤ vp_max_signature_validity policy →
  delegated_bound_response s' r resolve_actor policy expect is_revoked now =
    Ok {| vdr_signature_facts :=
            {| bsf_accepted_signer := {| ars_identity := signer; ars_verification_key := vd_delegated_key vd |};
               bsf_response_signature_base_digest := from_response_signature_base base |};
          vdr_request_evidence_agreement := {| bound_request_evidence := ev; body_request_evidence := ev |};
          vdr_delegation_issuer_kid := vd_issuer_kid vd |}.
Proof.
  intros Hs Hev Hch Hkid Hkey Hr Hjson Halg Hwin Hval. unfold sign_delegated_response_full in Hs.
  destruct (insert_meta_block _ _ _) as [body|] eqn:Hi; [|done].
  set (actor := {| ra_identity := signer; ra_verification_key := SigningKey_public_key dkey;
                   ra_slot := SlotResponse |}).
  pose proof (signed_response_floor _ _ _ _ _ _ _ _ (λ k _, if bytes_eqb k (ai_keyid signer) then Resolved actor else NotTrusted)
    policy now actor Hs Hr Hjson Halg Hwin Hval) as Hf.
  specialize (Hf ltac:(cbv beta; by rewrite bytes_eqb_refl) eq_refl eq_refl).
  pose proof (signed_response_body _ _ _ _ _ _ _ _ Hs) as Hb. cbn [resp_body with_resp_body] in Hb.
  unfold floor_bound_response in Hf. unfold delegated_bound_response.
  unfold resolve_actor_for_slot in Hf. inv_ok.
  repeat match goal with u : unit |- _ => destruct u end.
  destruct (bytes_eqb l (ai_keyid signer)) eqn:Ek; [|done]. apply bytes_eqb_true in Ek. inv_ok.
  rewrite (extract_inserted _ _ _ _ _ Hi).
  change (response_block_validate (response_block signer jws ev) PROFILE_TAG) with (@Ok unit HttpProfileError tt).
  cbn [sb_server_delegation response_block ok_or sb_server_signer sb_request_evidence].
  rewrite Hch, Hkid, Ek, !bytes_eqb_refl. cbn [negb orb]. rewrite Hkey. cbn [ra_verification_key actor] in E11.
  rewrite E11, Hev. cbn [map_err]. rewrite !bytes_eqb_refl. cbn [negb orb].
  unfold block_agreement, from_response_signature_base. cbn [sb_request_evidence response_block].
  by rewrite H7, (evidence_eta (digest_alg ev) (digest_value ev) ev).
Qed.

(** What a delegated server signs is accepted. If the server signs a response with a
    delegated key, its evidence block carrying the credential and the request's evidence
    handle, and the credential chains to the root for the verifier, then the verifier accepts
    the response against the same request, with the delegated key as accepted signer. *)
Lemma signed_delegated_response_verifies `{Base64Laws, Sha2, Ed25519Laws, SerdeJsonLaws, F64Carrier,
    !Serde DelegationHeader, !Serde DelegationClaims,
    !Serde HttpResponseEvidenceBlock, !SerdeLaws (T := HttpResponseEvidenceBlock)}
    s r ev signer jws dkey created expires s' base resolve_actor policy expect is_revoked now vd :
  sign_delegated_response_full s r ev signer jws dkey (ai_keyid signer) created expires = (s', Ok base) →
  request_evidence_of r = Ok ev →
  chain_to_root jws (response_block signer jws ev) resolve_actor expect is_revoked now = Ok vd →
  vd_delegated_kid vd = ai_keyid signer → vd_delegated_key vd = SigningKey_public_key dkey →
  is_i64 created ∧ is_i64 expires →
  require_json_media_type (resp_headers s) b#"response content-type" = Ok tt →
  accepted_algorithm policy ALG_ED25519 = Some Ed25519Alg →
  window_admits created expires now (vp_max_clock_skew policy) = true →
  saturating_sub expires created ≤ vp_max_signature_validity policy →
  delegated_bound_response s' r resolve_actor policy expect is_revoked now =
    Ok {| vdr_signature_facts :=
            {| bsf_accepted_signer := {| ars_identity := signer; ars_verification_key := vd_delegated_key vd |};
               bsf_response_signature_base_digest := from_response_signature_base base |};
          vdr_request_evidence_agreement := {| bound_request_evidence := ev; body_request_evidence := ev |};
          vdr_delegation_issuer_kid := vd_issuer_kid vd |}.
Proof. apply delegated_response_accepted. Qed.

(** A failing trust seam is not mistaken for an untrusted issuer. For a well-formed
    credential that names its issuer, chaining to the root reports an unknown issuer as
    untrusted, but an unavailable resolver and an issuer known only in another slot as what
    they are; none of the three is accepted. *)
Lemma chain_reports_trust_failures `{Base64, Sha2, Ed25519, SerdeJson,
    !Serde DelegationHeader, !Serde DelegationClaims}
    credential block resolve_actor expect is_revoked now h p s header claims :
  three_segments credential = Some (h, p, s) →
  delegation_decode_json h = Ok header → delegation_decode_json p = Ok claims →
  header_names header claims →
  let result := chain_to_root credential block resolve_actor expect is_revoked now in
  match resolve_actor (dc_issuer_kid claims) SlotResponse with
  | NotTrusted => result = Err HPE.DelegationIssuerUntrusted
  | ResolverUnavailable => result = Err HPE.TrustResolverUnavailable
  | Resolved root => ra_slot root ≠ SlotResponse → result = Err HPE.ActorSlotMismatch
  end.
Proof.
  intros Ht Hh Hp (Htyp & Halg & Hkid). unfold chain_to_root, verify_delegation_credential, split_compact_jws.
  rewrite Ht. cbn [ok_or fst snd]. rewrite Hh, Hp. unfold check_root_signature, root_resolver, resolve_actor_for_slot.
  rewrite Htyp, Halg, Hkid, !bytes_eqb_refl. cbn [negb orb].
  destruct (resolve_actor (dc_issuer_kid claims) SlotResponse) as [root| |]; [|done..].
  intros Hs. by rewrite bool_decide_false.
Qed.

(** ** Witnesses *)

Import Instances.

Definition w_dkey : SigningKey := SigningKey_from_seed_bytes (replicate 32 "d"%char).
Definition w_signer : ActorIdentity :=
  {| ai_role := b#"server"; ai_trust_domain := b#"d"; ai_subject := b#"api"; ai_keyid := b#"d1" |}.
Definition w_header : DelegationHeader :=
  {| dh_typ := DELEGATION_TYP; dh_alg := DELEGATION_ALG; dh_kid := b#"k1" |}.
Definition w_claims : DelegationClaims :=
  {| dc_iss := b#"root"; dc_iat := 90; dc_nbf := 90; dc_exp := 190; dc_jti := b#"j"; dc_aud := One b#"me";
     dc_mcp_re_profile := PROFILE_TAG; dc_mcp_re_audience_hash := b#"ah";
     dc_mcp_re_server_signer := actor_id w_signer; dc_mcp_re_key_use := KEY_USE_RESPONSE_SIGNING;
     dc_delegated_kid := b#"d1"; dc_issuer_kid := b#"k1"; dc_trust_epoch := b#"e";
     dc_cnf := {| cnf_jwk := {| jwk_kty := JWK_KTY_OKP; jwk_crv := JWK_CRV_ED25519; jwk_kid := b#"d1";
                                jwk_x := VerificationKey_to_b64url (SigningKey_public_key w_dkey) |} |} |}.
Definition w_expect : DelegationExpectations :=
  {| de_verifier_audiences := [b#"me"]; de_expected_audience_hash := b#"ah";
     de_accepted_epochs := [b#"e"]; de_max_clock_skew := 30 |}.
Definition no_revocation : bytes → bool := λ _, false.

#[local] Instance w_header_serde : Serde DelegationHeader := one_value_serde w_header b#"h".
#[local] Instance w_header_serde_laws : SerdeLaws (T := DelegationHeader).
Proof. apply one_value_serde_laws. Qed.
#[local] Instance w_claims_serde : Serde DelegationClaims := one_value_serde w_claims b#"c".
#[local] Instance w_claims_serde_laws : SerdeLaws (T := DelegationClaims).
Proof. apply one_value_serde_laws. Qed.

Definition w_jws : bytes := default [] (issue_delegation_credential w_key w_header w_claims).
Definition w_delegated_block : HttpResponseEvidenceBlock := response_block w_signer w_jws w_evidence.
#[local] Instance w_block_serde : Serde HttpResponseEvidenceBlock := one_value_serde w_delegated_block b#"s".
#[local] Instance w_block_serde_laws : SerdeLaws (T := HttpResponseEvidenceBlock).
Proof. apply one_value_serde_laws. Qed.
#[local] Instance w_f64 : F64Carrier := { f64_reemit := Some }.

Definition w_delegated_response : HttpResponse * Result bytes HttpProfileError :=
  sign_delegated_response_full (with_resp_body w_response (default [] (to_vec (Object ∅)))) (fst w_signed)
    w_evidence w_signer w_jws w_dkey b#"d1" 100 160.
Definition w_delegated_base : bytes :=
  match snd w_delegated_response with Ok b => b | Err _ => [] end.

Lemma delegated_bound_response_sound_witness :
  ∃ v, delegated_bound_response (fst w_delegated_response) (fst w_signed) w_resolver VerifierPolicy_default
         w_expect no_revocation 120 = Ok v ∧
    body_request_evidence (vdr_request_evidence_agreement v) =
      bound_request_evidence (vdr_request_evidence_agreement v).
Proof.
  eexists. split; [vm_compute; reflexivity|].
  edestruct (delegated_bound_response_sound (fst w_delegated_response) (fst w_signed) w_resolver
    VerifierPolicy_default w_expect no_revocation 120)
    as (? & ? & ? & ? & ? & ? & ? & ? & ? & ? & ? & ? & ? & ? & _ & _ & _ & _ & _ & _ & _ & _ & _ & _ & _ & _ & _ & _ & _ & _ & _ & _ & _ & _ & _ & _ & Hev);
    [vm_compute; reflexivity|exact Hev].
Defined.
