(* ===== verification/Rejection.v ===== *)
(** * [mcp-re-http-profile/src/rejection]

    Signed JSON-RPC errors: the body of a rejection with its wire code and what a client may
    conclude about execution and retries ([retry_contract.rs]), the two ways a server with a
    delegated key signs one, and how a client reads it ([mod.rs]). *)

From S2P Require Import Prelude.
From S2P Require Import RustStr.
From S2P Require Import Externals.
From S2P Require Import Json.
From S2P Require Import Concrete.
From S2P Require Import CoreError.
From S2P Require Import CoreResolver.
From S2P Require Import HttpMessage.
From S2P Require Import SigBase.
From S2P Require Import Policy.
From S2P Require Import Blocks.
From S2P Require Import Body.
From S2P Require Import Floor.
From S2P Require Import Sign.
From S2P Require Import Full.
From S2P Require Import Delegation.

(** ** [retry_contract.rs] *)

Inductive ExecutionDisposition : Type :=
  | Unstated
  | NothingExecuted
  | ApprovalSpentNothingExecuted
  | PossiblyExecuted
  | NothingExecutedRetentionUnresolved.
#[global] Instance ExecutionDisposition_eq_dec : EqDecision ExecutionDisposition.
Proof. solve_decision. Defined.

(** The members of the object; all of them are strings. *)
Definition retry_semantics (wire : bytes) (execution : ExecutionDisposition) : option (list (bytes * bytes)) :=
  if bool_decide (execution = ApprovalSpentNothingExecuted)
  then Some [(b#"execution_status", b#"not_executed"); (b#"continuation_status", b#"consumed");
             (b#"retry_safety", b#"unsafe_without_new_elicitation")]
  else if bool_decide (execution = NothingExecutedRetentionUnresolved)
  then Some [(b#"execution_status", b#"not_executed"); (b#"retention_status", b#"unresolved");
             (b#"retry_safety", b#"unsafe_without_reconciliation")]
  else if bytes_eqb wire (wire_code EvidenceRetentionIndeterminate)
  then Some [(b#"execution_status", b#"possibly_executed"); (b#"retention_status", b#"failed");
             (b#"retry_safety", b#"unsafe_without_reconciliation")]
  else if bool_decide (execution = PossiblyExecuted)
  then Some [(b#"execution_status", b#"possibly_executed");
             (b#"retry_safety", b#"unsafe_without_reconciliation")]
  else None.

(** ** [mod.rs] *)

Definition JSON_RPC_ERROR_CODE : Z := -31000.

Record RejectionReason := { rr_wire_code : bytes; rr_message : bytes; rr_execution : ExecutionDisposition }.

Definition RejectionReason_new (wire message : bytes) : RejectionReason :=
  {| rr_wire_code := wire; rr_message := message; rr_execution := Unstated |}.
Definition with_execution (r : RejectionReason) (execution : ExecutionDisposition) : RejectionReason :=
  {| rr_wire_code := rr_wire_code r; rr_message := rr_message r; rr_execution := execution |}.

Record SignedRejection := { sr_wire_code : bytes; sr_status : Z }.

Section rejection.
Context `{JsonTree}.

(** [json!] objects are built member by member; [target.insert] overwrites. *)
Definition rejection_error (reason : RejectionReason) : gmap bytes Value :=
  foldl (λ target kv, <[kv.1 := JString kv.2]> target)
    {[ b#"wire_code" := JString (rr_wire_code reason) ]}
    (default [] (retry_semantics (rr_wire_code reason) (rr_execution reason))).

Definition rejection_body (id : Value) (reason : RejectionReason) : bytes :=
  to_string (Object (<[b#"jsonrpc" := JString b#"2.0"]> (<[b#"id" := id]> (
    {[ b#"error" := Object (<[b#"code" := JNumber JSON_RPC_ERROR_CODE]> (
         <[b#"message" := JString (rr_message reason)]> (
         {[ b#"data" := Object {[ b#"mcp_re_error" := Object (rejection_error reason) ]} ]}))) ]})))).

Definition request_id (request : HttpRequest) : Value :=
  default (value_of JNull) (from_slice (req_body request) ≫= λ v, json_get v b#"id").

Definition extract_wire_code (body : bytes) : Result bytes HttpProfileError :=
  let? v := ok_or (from_slice body) (HPE.MalformedEvidence b#"rejection body json") in
  ok_or (json_get v b#"error" ≫= λ e, json_get e b#"data" ≫= λ d, json_get d b#"mcp_re_error" ≫= λ m,
         json_get m b#"wire_code" ≫= as_str) (HPE.MalformedEvidence b#"rejection wire_code").

(** The response before it is signed. *)
Definition unsigned_rejection (id : Value) (reason : RejectionReason) (status : Z) : HttpResponse :=
  {| resp_status := status; resp_headers := [(b#"Content-Type", b#"application/json")];
     resp_body := rejection_body id reason |}.

Context `{Base64, Sha2, Ed25519, F64Carrier, !Serde HttpResponseEvidenceBlock}.

Definition build_delegated_rejection (request : HttpRequest) (request_evidence : RequestEvidence)
    (reason : RejectionReason) (status : Z) (server_signer : ActorIdentity) (server_delegation : bytes)
    (delegated_key : SigningKey) (delegated_kid : bytes) (created expires : Z)
  : Result HttpResponse HttpProfileError :=
  let '(response, signed) :=
    sign_delegated_response_full (unsigned_rejection (request_id request) reason status) request
      request_evidence server_signer server_delegation delegated_key delegated_kid created expires in
  let? _ := signed in Ok response.

Definition preflight_diagnostic (received : option HttpRequest) : RequestEvidence :=
  match received with
  | Some req => {| digest_alg := b#"sha-256-received"; digest_value := content_digest_sha256 (req_body req) |}
  | None => {| digest_alg := b#"none"; digest_value := [] |}
  end.

Definition build_delegated_rejection_preflight (received : option HttpRequest) (reason : RejectionReason)
    (status : Z) (server_signer : ActorIdentity) (server_delegation : bytes) (delegated_key : SigningKey)
    (delegated_kid : bytes) (created expires : Z) : Result HttpResponse HttpProfileError :=
  let id := default (value_of JNull) (request_id <$> received) in
  let '(response, signed) :=
    sign_delegated_response_unbound (unsigned_rejection id reason status) server_signer server_delegation
      (preflight_diagnostic received) delegated_key delegated_kid created expires in
  signed ;? Ok response.

Definition verify_signed_rejection (response : HttpResponse) (request : option HttpRequest)
    (verifier : Verifier) (now : Z) : Result SignedRejection HttpProfileError :=
  match request with
  | Some req => let? _ := verify_bound_response_floor verifier response req now in Ok tt
  | None => let? _ := verify_unbound_response_floor verifier response now in Ok tt
  end ;?
  let? wire := extract_wire_code (resp_body response) in
  Ok {| sr_wire_code := wire; sr_status := resp_status response |}.
End rejection.

(** ** Reading what was written *)

Section reading.
Context `{JsonTreeLaws, !SerdeJsonLaws}.

Lemma json_get_Object m k : json_get (Object m) k = m !! k.
Proof. unfold json_get. by rewrite as_object_Object. Qed.

Lemma rejection_error_code reason :
  rejection_error reason !! b#"wire_code" = Some (JString (rr_wire_code reason)).
Proof.
  unfold rejection_error, retry_semantics. repeat case_match; cbn [default id foldl fst snd];
    rewrite ?lookup_insert_ne by done; by rewrite lookup_singleton_eq.
Qed.

(** The members of a rejection body an evidence block may be added to. *)
Lemma rejection_body_members id reason :
  ∃ obj, from_slice (rejection_body id reason) = Some (Object obj) ∧
    obj !! b#"id" = Some id ∧
    ∃ err, obj !! b#"error" = Some err ∧
      (json_get err b#"data" ≫= λ d, json_get d b#"mcp_re_error" ≫= λ m, json_get m b#"wire_code" ≫= as_str)
        = Some (rr_wire_code reason).
Proof.
  unfold rejection_body. rewrite from_slice_to_string. eexists. split; [done|].
  rewrite lookup_insert_ne, lookup_insert_eq by done. split; [done|].
  rewrite !lookup_insert_ne, lookup_singleton_eq by done. eexists. split; [done|].
  rewrite json_get_Object, !lookup_insert_ne, lookup_singleton_eq by done.
  cbn [mbind option_bind]. rewrite json_get_Object, lookup_singleton_eq. cbn [mbind option_bind].
  rewrite json_get_Object, rejection_error_code. cbn [mbind option_bind]. apply as_str_JString.
Qed.

(** An evidence block under [_meta] leaves the other members alone. *)
Lemma insert_meta_block_members `{F64Carrier, !Serde T} body key (block : T) body' obj :
  from_slice body = Some (Object obj) → insert_meta_block body key block = Ok body' →
  ∃ obj', from_slice body' = Some (Object obj') ∧ ∀ k, k ≠ META_KEY → obj' !! k = obj !! k.
Proof.
  intros Hb Hi. unfold insert_meta_block in Hi. rewrite Hb in Hi. cbn [ok_or] in Hi. inv_ok.
  rewrite as_object_Object in *. simplify_eq. eexists. split; [by apply from_slice_to_vec|].
  intros k Hk. by rewrite lookup_insert_ne.
Qed.

Lemma extract_wire_code_of obj body err code :
  from_slice body = Some (Object obj) → obj !! b#"error" = Some err →
  (json_get err b#"data" ≫= λ d, json_get d b#"mcp_re_error" ≫= λ m, json_get m b#"wire_code" ≫= as_str)
    = Some code → extract_wire_code body = Ok code.
Proof.
  intros Hb He Hc. unfold extract_wire_code. rewrite Hb. cbn [ok_or].
  rewrite json_get_Object, He. cbn [mbind option_bind] in *. by rewrite Hc.
Qed.
End reading.

(** A client reads the refusal the server wrote. If a server with a delegated key builds
    a rejection of a request, the response has the given status, carries the request's own id
    and the wire code of the reason, whatever the retry semantics add; and a client whose trust
    seam resolves the delegated key in the response slot verifies it against that request and
    returns exactly that code and status. *)
Lemma rejection_roundtrip `{Base64Laws, Sha2, Ed25519Laws, JsonTreeLaws, !SerdeJsonLaws, F64Carrier,
    !Serde HttpResponseEvidenceBlock}
    request ev reason status signer jws dkey kid created expires response verifier actor now :
  build_delegated_rejection request ev reason status signer jws dkey kid created expires = Ok response →
  is_i64 created ∧ is_i64 expires →
  accepted_algorithm (v_policy verifier) ALG_ED25519 = Some Ed25519Alg →
  window_admits created expires now (vp_max_clock_skew (v_policy verifier)) = true →
  saturating_sub expires created ≤ vp_max_signature_validity (v_policy verifier) →
  v_resolve_actor verifier kid SlotResponse = Resolved actor → ra_slot actor = SlotResponse →
  ra_verification_key actor = SigningKey_public_key dkey →
  (from_slice (resp_body response) ≫= λ v, json_get v b#"id") = Some (request_id request) ∧
  verify_signed_rejection response (Some request) verifier now =
    Ok {| sr_wire_code := rr_wire_code reason; sr_status := status |}.
Proof.
  intros Hb Hr Halg Hwin Hval Hres Hslot Hkey. unfold build_delegated_rejection in Hb.
  destruct (sign_delegated_response_full _ _ _ _ _ _ _ _ _) as [s' signed] eqn:Hs.
  destruct signed as [base|]; [|done]. injection Hb as <-. unfold sign_delegated_response_full in Hs.
  destruct (insert_meta_block _ _ _) as [body|] eqn:Hi; [|done].
  pose proof (signed_response_body _ _ _ _ _ _ _ _ Hs) as Hbody.
  destruct (rejection_body_members (request_id request) reason) as (obj & Hobj & Hid & err & Herr & Hcode).
  destruct (insert_meta_block_members _ _ _ _ _ Hobj Hi) as (obj' & Hobj' & Hsame).
  cbn [resp_body with_resp_body] in Hbody. rewrite Hbody. split.
  - rewrite Hobj'. cbn [mbind option_bind]. by rewrite json_get_Object, Hsame.
  - unfold verify_signed_rejection, verify_bound_response_floor.
    rewrite (signed_response_floor _ _ _ _ _ _ _ _ (v_resolve_actor verifier) (v_policy verifier) now actor Hs);
      try done.
    rewrite Hbody, (extract_wire_code_of obj' body err (rr_wire_code reason));
      [|done|by rewrite Hsame|done].
    f_equal. f_equal. clear -Hs. unfold sign_response_with_signer in Hs. repeat case_match; by simplify_eq/=.
Qed.

(** ** Witness *)

Import Instances.

Definition wj_block : HttpResponseEvidenceBlock := response_block w_signer b#"c" w_evidence.
#[local] Instance wj_block_serde : Serde HttpResponseEvidenceBlock := one_value_serde wj_block b#"s".
#[local] Instance wj_f64 : F64Carrier := { f64_reemit := Some }.

Definition wj_reason : RejectionReason :=
  with_execution (RejectionReason_new (wire_code ReplayDetected) b#"replayed") PossiblyExecuted.
Definition wj_response : HttpResponse :=
  match build_delegated_rejection (fst w_signed) w_evidence wj_reason 409 w_signer b#"c" w_dkey b#"d1" 100 160 with
  | Ok r => r
  | Err _ => w_response
  end.
Definition wj_actor : ResolvedActor :=
  {| ra_identity := w_signer; ra_verification_key := SigningKey_public_key w_dkey; ra_slot := SlotResponse |}.
Definition wj_verifier : Verifier :=
  {| v_policy := VerifierPolicy_default;
     v_resolve_actor := λ kid _, if bytes_eqb kid b#"d1" then Resolved wj_actor else NotTrusted |}.
