(* ===== verification/Chain.v ===== *)
(** * [mcp-re-http-profile/src/chain]

    An auditor reconstructs a chain of exchanges from retained bytes: every hop is verified at
    the instants its own signatures name, linked to its predecessor by the evidence handles in
    its continuation, and must ask for input except for the last ([mod.rs], [hop.rs],
    [record.rs], [reconstruction.rs]). What was submitted is committed to whether or not it
    verifies ([submitted_identity.rs]). *)

From S2P Require Import Prelude.
From S2P Require Import RustStr.
From S2P Require Import Externals.
From S2P Require Import Json.
From S2P Require Import Concrete.
From S2P Require Import CoreError.
From S2P Require Import CoreResolver.
From S2P Require Import HttpMessage.
From S2P Require Import SigBase.
From S2P Require Import SigInput.
From S2P Require Import SigCanonical.
From S2P Require Import Policy.
From S2P Require Import Blocks.
From S2P Require Import Body.
From S2P Require Import Floor.
From S2P Require Import Sign.
From S2P Require Import Full.
From S2P Require Import Delegation.
From S2P Require Import Envelope.

(** ** The delegated entry points of [verifier.rs] *)

Section facade.
Context `{Base64, Sha2, Ed25519, SerdeJson}.
Context `{!Serde DelegationHeader, !Serde DelegationClaims, !Serde HttpResponseEvidenceBlock}.

Definition verify_delegated_bound_response (v : Verifier) (response : HttpResponse) (request : HttpRequest)
    (expect : DelegationExpectations) (is_revoked : bytes → bool) (now : Z)
  : Result VerifiedDelegatedMcpResponse HttpProfileError :=
  delegated_bound_response response request (v_resolve_actor v) (v_policy v) expect is_revoked now.
Definition verify_delegated_unbound_response (v : Verifier) (response : HttpResponse)
    (expect : DelegationExpectations) (is_revoked : bytes → bool) (now : Z)
  : Result VerifiedDelegatedUnboundResponse HttpProfileError :=
  delegated_unbound_response response (v_resolve_actor v) (v_policy v) expect is_revoked now.
End facade.

(** ** [mod.rs], the data *)

Record RetainedHop := { hop_request : HttpRequest; hop_response : HttpResponse }.

Inductive IncompleteReason : Type :=
  | RequestUnverifiable (e : HttpProfileError)
  | ResponseUnverifiable (e : HttpProfileError)
  | MissingContinuation
  | ContinuationDoesNotLink
  | NonTerminalExpected
  | TerminalExpected
  | UnrecognizedResultTypeAt
  | EmptyChain
  | HopAfterAuditInstant.

Inductive ChainLabel : Type := ChainComplete | ChainIncomplete (hop : nat) (reason : IncompleteReason).

Definition is_complete (l : ChainLabel) : bool := match l with ChainComplete => true | _ => false end.

Record ChainAudit := { ca_expected_audience : AudienceTuple; ca_artifact_material : artifact_source }.

Record HopEvidence := { he_request_evidence : RequestEvidence; he_response_evidence : RequestEvidence }.

Inductive HopOutcome : Type := HopInputRequired | HopTerminal | HopUnrecognized.

Inductive HopInstantError : Type := Unreadable (e : HttpProfileError) | AfterAuditInstant.

(** ** [reconstruction.rs] *)

Record ChainReconstruction := {
  cr_label : ChainLabel;
  cr_hop_evidence : list HopEvidence;
  cr_submitted_commitment : bytes;
}.

Definition from_retained_handles (label : ChainLabel) (hop_evidence : list HopEvidence) : ChainReconstruction :=
  {| cr_label := label; cr_hop_evidence := hop_evidence; cr_submitted_commitment := [] |}.

(** ** [submitted_identity.rs] *)

Definition SUBMITTED_COMMITMENT_DOMAIN : bytes := b#"mcp-re-evidence/v3:submitted-chain".

(** The updates of the hasher, concatenated: a part with its length, the headers, a hop. *)
Definition part_bytes (part : bytes) : bytes := len64 part ++ part.
Definition headers_bytes (headers : Headers) : bytes :=
  len64 headers ++ concat (map (λ kv, part_bytes kv.1 ++ part_bytes kv.2) headers).
Definition hop_bytes (hop : RetainedHop) : bytes :=
  let request := hop_request hop in
  let response := hop_response hop in
  be64 (Z.to_N (resp_status response)) ++
  part_bytes (req_method request) ++ part_bytes (req_target_uri request) ++
  part_bytes (req_body request) ++ part_bytes (resp_body response) ++
  headers_bytes (req_headers request) ++ headers_bytes (resp_headers response).
Definition submitted_bytes (hops : list RetainedHop) : bytes :=
  len64 SUBMITTED_COMMITMENT_DOMAIN ++ SUBMITTED_COMMITMENT_DOMAIN ++ len64 hops ++ concat (map hop_bytes hops).

Definition submitted_commitment `{Base64, Sha2} (hops : list RetainedHop) : bytes :=
  b64url_encode (sha256 (submitted_bytes hops)).

(** ** [record.rs], [hop.rs] *)

Record HopPosition := { hp_index : nat; hp_previous : option HopEvidence; hp_is_last : bool }.

Definition link_to_predecessor (position : HopPosition) (continuation : option HttpContinuation)
  : Result unit IncompleteReason :=
  match hp_index position, continuation, hp_previous position with
  | O, None, _ => Ok tt
  | O, Some _, _ => Err ContinuationDoesNotLink
  | _, None, _ => Err MissingContinuation
  | _, Some _, None => Err ContinuationDoesNotLink
  | _, Some c, Some prev =>
      if bytes_eqb (digest_value (previous_request_evidence c)) (digest_value (he_request_evidence prev))
         && bytes_eqb (digest_alg (previous_request_evidence c)) (digest_alg (he_request_evidence prev))
         && bytes_eqb (digest_value (input_required_response_evidence c)) (digest_value (he_response_evidence prev))
         && bytes_eqb (digest_alg (input_required_response_evidence c)) (digest_alg (he_response_evidence prev))
      then Ok tt else Err ContinuationDoesNotLink
  end.

Section chain.
Context `{Base64, Sha2, Ed25519, JsonTree}.
Context `{!Serde HttpRequestEvidenceBlock, !Serde HttpResponseEvidenceBlock}.
Context `{!Serde DelegationHeader, !Serde DelegationClaims}.

Definition classify_verified_response (body : bytes) : HopOutcome :=
  match classify_result_type (from_slice body ≫= λ v, tree_get (tree_of v) b#"result") with
  | InputRequired => HopInputRequired
  | Complete => HopTerminal
  | Unrecognized => HopUnrecognized
  end.

Definition check_chain_shape (is_last : bool) (response_body : bytes) : Result unit IncompleteReason :=
  match is_last, classify_verified_response response_body with
  | _, HopUnrecognized => Err UnrecognizedResultTypeAt
  | false, HopTerminal => Err NonTerminalExpected
  | true, HopInputRequired => Err TerminalExpected
  | _, _ => Ok tt
  end.

Definition hop_instant (headers : Headers) (label what : bytes) (policy : VerifierPolicy) (now : Z)
  : Result Z HopInstantError :=
  let? parsed := map_err Unreadable (parse_signature_input_for headers label what) in
  let? created := ok_or (p_created (psi_params parsed)) (Unreadable HPE.StaleWindow) in
  if now <? saturating_sub created (vp_max_clock_skew policy) then Err AfterAuditInstant else Ok created.

Record ChainVerification := {
  cv_verifier : Verifier;
  cv_expect : DelegationExpectations;
  cv_audit : ChainAudit;
  cv_is_revoked : bytes → bool;
  cv_now : Z;
}.

Definition instants (cv : ChainVerification) (hop : RetainedHop) : Result (Z * Z) IncompleteReason :=
  let? request_at :=
    map_err (λ e, match e with Unreadable e => RequestUnverifiable e | AfterAuditInstant => HopAfterAuditInstant end)
      (hop_instant (req_headers (hop_request hop)) REQUEST_LABEL b#"request signature-input"
         (v_policy (cv_verifier cv)) (cv_now cv)) in
  let? response_at :=
    map_err (λ e, match e with Unreadable e => ResponseUnverifiable e | AfterAuditInstant => HopAfterAuditInstant end)
      (hop_instant (resp_headers (hop_response hop)) RESPONSE_LABEL b#"response signature-input"
         (v_policy (cv_verifier cv)) (cv_now cv)) in
  Ok (request_at, response_at).

Definition chain_verify_request (cv : ChainVerification) (hop : RetainedHop) (at_ : Z)
  : Result (RequestEvidence * HttpRequestEvidenceBlock) IncompleteReason :=
  let? verified := map_err RequestUnverifiable (verify_request_floor (cv_verifier cv) (hop_request hop) at_) in
  let? block := map_err RequestUnverifiable
                  (extract_meta_block (req_body (hop_request hop)) REQUEST_EVIDENCE_BLOCK_KEY
                     b#"request evidence block") in
  map_err RequestUnverifiable (request_block_validate block (fr_profile_id verified)) ;?
  map_err RequestUnverifiable
    (enforce_full_profile_bindings (hop_request hop) block (ca_expected_audience (cv_audit cv))
       (ca_artifact_material (cv_audit cv))) ;?
  Ok (fr_evidence verified, block).

Definition verify_hop (cv : ChainVerification) (hop : RetainedHop) (position : HopPosition)
  : Result HopEvidence IncompleteReason :=
  let? (request_at, response_at) := instants cv hop in
  let? (request_evidence, block) := chain_verify_request cv hop request_at in
  let? verified_rsp := map_err ResponseUnverifiable
    (verify_delegated_bound_response (cv_verifier cv) (hop_response hop) (hop_request hop) (cv_expect cv)
       (cv_is_revoked cv) response_at) in
  link_to_predecessor position (rb_continuation block) ;?
  check_chain_shape (hp_is_last position) (resp_body (hop_response hop)) ;?
  Ok {| he_request_evidence := request_evidence;
        he_response_evidence := bsf_response_signature_base_digest (vdr_signature_facts verified_rsp) |}.

(** ** [mod.rs], the reconstruction *)

(** The loop over the hops from index [i] on, with the evidence of those before. *)
Fixpoint reconstruct_from (cv : ChainVerification) (count i : nat) (hop_evidence : list HopEvidence)
    (hops : list RetainedHop) : ChainLabel * list HopEvidence :=
  match hops with
  | [] => (ChainComplete, hop_evidence)
  | hop :: rest =>
      let position := {| hp_index := i; hp_previous := last hop_evidence; hp_is_last := (S i =? count)%nat |} in
      match verify_hop cv hop position with
      | Ok evidence => reconstruct_from cv count (S i) (hop_evidence ++ [evidence]) rest
      | Err reason => (ChainIncomplete i reason, hop_evidence)
      end
  end.

Definition reconstruct_chain (hops : list RetainedHop) (verifier : Verifier) (expect : DelegationExpectations)
    (audit : ChainAudit) (is_revoked : bytes → bool) (now : Z) : ChainReconstruction :=
  let submitted := submitted_commitment hops in
  match hops with
  | [] => {| cr_label := ChainIncomplete 0 EmptyChain; cr_hop_evidence := []; cr_submitted_commitment := submitted |}
  | _ :: _ =>
      let cv := {| cv_verifier := verifier; cv_expect := expect; cv_audit := audit;
                   cv_is_revoked := is_revoked; cv_now := now |} in
      let '(label, hop_evidence) := reconstruct_from cv (length hops) 0 [] hops in
      {| cr_label := label; cr_hop_evidence := hop_evidence; cr_submitted_commitment := submitted |}
  end.
End chain.

(** ** What a hop of a chain must satisfy *)

(** The continuation of a hop against the evidence of the hop before it: the first hop
    continues nothing, every other one names both handles of its predecessor. *)
Definition linked (previous : option HopEvidence) (continuation : option HttpContinuation) : Prop :=
  match previous, continuation with
  | None, None => True
  | Some prev, Some c =>
      previous_request_evidence c = he_request_evidence prev ∧
      input_required_response_evidence c = he_response_evidence prev
  | _, _ => False
  end.

(** The evidence before position [i]. *)
Definition predecessor (evs : list HopEvidence) (i : nat) : option HopEvidence :=
  match i with O => None | S j => evs !! j end.

Definition position_at (count : nat) (evs : list HopEvidence) (i : nat) : HopPosition :=
  {| hp_index := i; hp_previous := predecessor evs i; hp_is_last := (S i =? count)%nat |}.

Lemma evidence_eqb (d e : RequestEvidence) :
  bytes_eqb (digest_value d) (digest_value e) && bytes_eqb (digest_alg d) (digest_alg e) = true ↔ d = e.
Proof.
  rewrite andb_true_iff. split.
  - intros [Hv Ha]. str_prop. destruct d, e. by simplify_eq/=.
  - intros ->. by rewrite !bytes_eqb_refl.
Qed.

Lemma link_to_predecessor_Ok count evs i c u :
  (i = 0%nat ∨ is_Some (predecessor evs i)) →
  link_to_predecessor (position_at count evs i) c = Ok u ↔ linked (predecessor evs i) c.
Proof.
  destruct u. unfold link_to_predecessor, position_at. cbn [hp_index hp_previous]. intros Hi.
  destruct i as [|j]; cbn [predecessor] in *; [by destruct c|].
  destruct Hi as [?|[prev ->]]; [done|]. destruct c as [c|]; [|done]. cbn [linked].
  rewrite <-!andb_assoc. rewrite (andb_assoc (bytes_eqb _ _)).
  rewrite <-(evidence_eqb (previous_request_evidence c)), <-(evidence_eqb (input_required_response_evidence c)).
  destruct (bytes_eqb _ _ && _), (bytes_eqb (digest_value (input_required_response_evidence c)) _ && _); naive_solver.
Qed.

Section spec.
Context `{Base64, Sha2, Ed25519, JsonTree}.
Context `{!Serde HttpRequestEvidenceBlock, !Serde HttpResponseEvidenceBlock}.
Context `{!Serde DelegationHeader, !Serde DelegationClaims}.
Implicit Types (cv : ChainVerification) (hop : RetainedHop) (ev : HopEvidence).

(** Both signatures of a hop verify at the instants they were made: the request under the
    full profile, the response against that very request. *)
Definition hop_verified cv hop ev (block : HttpRequestEvidenceBlock) : Prop :=
  ∃ request_at response_at v w,
    hop_instant (req_headers (hop_request hop)) REQUEST_LABEL b#"request signature-input"
      (v_policy (cv_verifier cv)) (cv_now cv) = Ok request_at ∧
    hop_instant (resp_headers (hop_response hop)) RESPONSE_LABEL b#"response signature-input"
      (v_policy (cv_verifier cv)) (cv_now cv) = Ok response_at ∧
    verify_request (cv_verifier cv) (hop_request hop) (ca_expected_audience (cv_audit cv))
      (ca_artifact_material (cv_audit cv)) request_at = Ok v ∧
    verify_delegated_bound_response (cv_verifier cv) (hop_response hop) (hop_request hop) (cv_expect cv)
      (cv_is_revoked cv) response_at = Ok w ∧
    block = vr_request_block v ∧
    ev = {| he_request_evidence := fr_evidence (vr_floor v);
            he_response_evidence := bsf_response_signature_base_digest (vdr_signature_facts w) |}.

Definition hop_outcome hop : HopOutcome := classify_verified_response (resp_body (hop_response hop)).

(** A hop accounts for position [i] of [count]. *)
Definition hop_accounts cv (count : nat) (evs : list HopEvidence) (i : nat) hop ev : Prop :=
  ∃ block, hop_verified cv hop ev block ∧ linked (predecessor evs i) (rb_continuation block) ∧
    hop_outcome hop = if (S i =? count)%nat then HopTerminal else HopInputRequired.

(** The chain verifies requests as the full verifier does. *)
Lemma chain_verify_request_full cv hop at_ :
  chain_verify_request cv hop at_ =
    match verify_request (cv_verifier cv) (hop_request hop) (ca_expected_audience (cv_audit cv))
            (ca_artifact_material (cv_audit cv)) at_ with
    | Ok v => Ok (fr_evidence (vr_floor v), vr_request_block v)
    | Err e => Err (RequestUnverifiable e)
    end.
Proof.
  unfold chain_verify_request, verify_request, full_request, verify_request_floor.
  destruct (floor_request _ _ _ _) as [v|]; [|done]. cbn [map_err].
  destruct (extract_meta_block _ _ _) as [block|]; [|done]. cbn [map_err].
  destruct (request_block_validate _ _); [|done]. cbn [map_err].
  by destruct (enforce_full_profile_bindings _ _ _ _).
Qed.

Lemma check_chain_shape_Ok is_last body u :
  check_chain_shape is_last body = Ok u ↔
    classify_verified_response body = if is_last then HopTerminal else HopInputRequired.
Proof.
  destruct u. unfold check_chain_shape. destruct is_last, (classify_verified_response body); naive_solver.
Qed.

Lemma verify_hop_Ok cv count evs i hop ev :
  (i = 0%nat ∨ is_Some (predecessor evs i)) →
  verify_hop cv hop (position_at count evs i) = Ok ev ↔ hop_accounts cv count evs i hop ev.
Proof.
  intros Hi. unfold verify_hop, instants, hop_accounts, hop_verified, hop_outcome. split.
  - intros Hv. inv_ok. rename E into Hq, E2 into Hw, E3 into Hl, E4 into Hs.
    rewrite chain_verify_request_full in Hq.
    destruct (verify_request _ _ _ _ _) as [vr|] eqn:Hr; [|done]. injection Hq as <- <-.
    apply (link_to_predecessor_Ok _ _ _ _ _ Hi) in Hl. apply check_chain_shape_Ok in Hs.
    exists (vr_request_block vr). split; [|done]. by eexists _, _, vr, _.
  - intros (block & (at1 & at2 & v & w & -> & -> & Hv & Hw & -> & ->) & Hl & Hs). cbn [map_err].
    rewrite chain_verify_request_full, Hv, Hw. cbn [map_err].
    rewrite (proj2 (link_to_predecessor_Ok count evs i _ tt Hi) Hl).
    change (hp_is_last _) with (S i =? count)%nat. by rewrite (proj2 (check_chain_shape_Ok _ _ tt) Hs).
Qed.

(** The loop, position by position: its evidence is that of the hops it got through, and it
    stops at the first hop that does not verify in its position. *)
Lemma last_predecessor (acc : list HopEvidence) : last acc = predecessor acc (length acc).
Proof. by rewrite last_lookup; destruct acc. Qed.
Lemma predecessor_app (acc more : list HopEvidence) i :
  (i ≤ length acc)%nat → predecessor (acc ++ more) i = predecessor acc i.
Proof. destruct i as [|j]; [done|]. intros Hj. simpl. rewrite lookup_app_l; [done|lia]. Qed.
Lemma position_at_app count acc more i :
  (i ≤ length acc)%nat → position_at count (acc ++ more) i = position_at count acc i.
Proof. intros Hi. unfold position_at. by rewrite predecessor_app. Qed.

Lemma reconstruct_from_spec cv count acc hops label evs :
  reconstruct_from cv count (length acc) acc hops = (label, evs) →
  ∃ more, evs = acc ++ more ∧
    (∀ j hop ev, hops !! j = Some hop → more !! j = Some ev →
       verify_hop cv hop (position_at count evs (length acc + j)) = Ok ev) ∧
    match label with
    | ChainComplete => length more = length hops
    | ChainIncomplete k reason => k = (length acc + length more)%nat ∧
        ∃ hop, hops !! length more = Some hop ∧ verify_hop cv hop (position_at count evs k) = Err reason
    end.
Proof.
  revert acc. induction hops as [|hop hops IH]; intros acc; cbn [reconstruct_from].
  - intros [= <- <-]. exists []. by rewrite app_nil_r.
  - rewrite last_predecessor. fold (position_at count acc (length acc)).
    destruct (verify_hop _ _ _) as [ev|reason] eqn:Ev.
    + replace (S (length acc)) with (length (acc ++ [ev])) by (rewrite length_app; simpl; lia).
      intros (more & -> & Hmore & Hlabel)%IH. rewrite <-app_assoc. rewrite length_app in Hmore, Hlabel. simpl in *.
      exists (ev :: more). rewrite <-app_assoc in Hmore, Hlabel. split_and!; [done| |].
      * intros [|j] hop' ev' Hh He; simplify_eq/=; [by rewrite Nat.add_0_r, position_at_app|].
        replace (length acc + S j)%nat with (length acc + 1 + j)%nat by lia. by apply Hmore.
      * destruct label as [|k reason]; simpl; [by rewrite Hlabel|].
        destruct Hlabel as (-> & Hlabel). split; [lia|done].
    + intros [= <- <-]. exists []. rewrite app_nil_r, Nat.add_0_r. split_and!; [done| |done|by eauto].
      intros j ? ? _ He. by rewrite lookup_nil in He.
Qed.

Lemma reconstruct_from_complete cv count acc hops more :
  length more = length hops →
  (∀ j hop ev, hops !! j = Some hop → more !! j = Some ev →
     verify_hop cv hop (position_at count (acc ++ more) (length acc + j)) = Ok ev) →
  reconstruct_from cv count (length acc) acc hops = (ChainComplete, acc ++ more).
Proof.
  revert acc more. induction hops as [|hop hops IH]; intros acc [|ev more]; [|done..|].
  - by rewrite app_nil_r.
  - intros [= Hlen] Hv. cbn [reconstruct_from].
    rewrite last_predecessor. fold (position_at count acc (length acc)).
    pose proof (Hv 0%nat hop ev eq_refl eq_refl) as H0'. rewrite Nat.add_0_r, position_at_app in H0' by done.
    rewrite H0'. replace (S (length acc)) with (length (acc ++ [ev])) by (rewrite length_app; simpl; lia).
    rewrite (IH (acc ++ [ev]) more Hlen); [by rewrite <-app_assoc|].
    intros j hop' ev' Hh He. rewrite <-app_assoc, length_app. simpl.
    replace (length acc + 1 + j)%nat with (length acc + S j)%nat by lia. by apply Hv.
Qed.

Definition chain_verification (verifier : Verifier) (expect : DelegationExpectations) (audit : ChainAudit)
    (is_revoked : bytes → bool) (now : Z) : ChainVerification :=
  {| cv_verifier := verifier; cv_expect := expect; cv_audit := audit; cv_is_revoked := is_revoked; cv_now := now |}.

Lemma position_known (evs : list HopEvidence) i : (i ≤ length evs)%nat → i = 0%nat ∨ is_Some (predecessor evs i).
Proof. destruct i as [|j]; [by left|]. intros Hj. right. simpl. apply lookup_lt_is_Some_2. lia. Qed.
End spec.

(** ** The submitted bytes determine the hops *)

Lemma framed_part : framed part_bytes fits.
Proof.
  intros x y r s Hx Hy Heq. unfold part_bytes in Heq. rewrite <-!app_assoc in Heq.
  apply framed_len64 in Heq as [Hlen Heq]; [|done..]. by apply app_inj_1.
Qed.

Lemma framed_pair {A B} (f : A → bytes) (g : B → bytes) okf okg :
  framed f okf → framed g okg →
  framed (λ p : A * B, f p.1 ++ g p.2) (λ p, okf p.1 ∧ okg p.2).
Proof.
  intros Hf Hg [a b] [a' b'] r s [Ha Hb] [Ha' Hb'] Heq. simpl in *. rewrite <-!app_assoc in Heq.
  apply Hf in Heq as [-> Heq]; [|done..]. by apply Hg in Heq as [-> ->].
Qed.

Lemma framed_list {A} (f : A → bytes) ok :
  framed f ok → framed (λ l, len64 l ++ concat (map f l)) (λ l, fits l ∧ Forall ok l).
Proof.
  intros Hf l l' r s [Hl HF] [Hl' HF'] Heq. rewrite <-!app_assoc in Heq.
  apply framed_len64 in Heq as [Hlen Heq]; [|done..]. clear Hl Hl'.
  revert l' HF' Hlen Heq. induction HF as [|x l Hx HF IH]; intros [|y l'] HF' Hlen Heq; [done..|].
  apply Forall_cons in HF' as [Hy HF']. simpl in Heq, Hlen. rewrite <-!app_assoc in Heq.
  apply Hf in Heq as [-> Heq]; [|done..]. destruct (IH l' HF') as [-> ->]; [lia|done|done].
Qed.

(** What the machine types of a retained hop guarantee: a status is a [u16], and no buffer
    is longer than an address can say. *)
Definition headers_fit (hs : Headers) : Prop := fits hs ∧ Forall (λ kv, fits kv.1 ∧ fits kv.2) hs.
Definition hop_fits (hop : RetainedHop) : Prop :=
  0 ≤ resp_status (hop_response hop) < 2 ^ 16 ∧
  fits (req_method (hop_request hop)) ∧ fits (req_target_uri (hop_request hop)) ∧
  fits (req_body (hop_request hop)) ∧ fits (resp_body (hop_response hop)) ∧
  headers_fit (req_headers (hop_request hop)) ∧ headers_fit (resp_headers (hop_response hop)).

Lemma framed_headers : framed headers_bytes headers_fit.
Proof. apply (framed_list (λ kv, part_bytes kv.1 ++ part_bytes kv.2)), framed_pair; apply framed_part. Qed.

Lemma framed_hop : framed hop_bytes hop_fits.
Proof.
  intros [[m u hs b] [st hs' b']] [[m2 u2 hs2 b2] [st2 hs2' b2']] r s Hx Hy Heq.
  unfold hop_fits in Hx, Hy. simpl in Hx, Hy.
  destruct Hx as (Hst & Hm & Hu & Hb & Hb' & Hh & Hh'), Hy as (Hst2 & Hm2 & Hu2 & Hb2 & Hb2' & Hh2 & Hh2').
  unfold hop_bytes in Heq. cbn [hop_request hop_response resp_status req_method req_target_uri req_body resp_body req_headers resp_headers] in Heq.
  rewrite <-!app_assoc in Heq.
  apply framed_be64 in Heq as [Hs Heq]; [|unfold fits_u64; lia..].
  do 4 (apply framed_part in Heq as [-> Heq]; [|done..]).
  do 2 (apply framed_headers in Heq as [-> Heq]; [|done..]). split; [|done].
  do 2 f_equal. lia.
Qed.

Lemma submitted_bytes_inj hops hops' :
  fits hops → fits hops' → Forall hop_fits hops → Forall hop_fits hops' →
  submitted_bytes hops = submitted_bytes hops' → hops = hops'.
Proof.
  intros Hf Hf' HF HF' Heq. unfold submitted_bytes in Heq. do 2 apply app_inv_head in Heq.
  rewrite <-(app_nil_r (_ ++ _)), <-(app_nil_r (len64 hops' ++ _)) in Heq.
  by apply (framed_list _ _ framed_hop) in Heq as [-> _].
Qed.

(** ** The handles of a hop determine the exchange *)

Section binding.
Context `{Base64Laws, Sha2, Ed25519, JsonTree}.
Context `{!Serde HttpRequestEvidenceBlock, !Serde HttpResponseEvidenceBlock}.
Context `{!Serde DelegationHeader, !Serde DelegationClaims}.

(** The signature base of a response, rebuilt from its [signature-input] header. *)
Definition signed_response_base (s : HttpResponse) (r : HttpRequest) (base : bytes) : Prop :=
  ∃ i m parsed, required_header (resp_headers s) b#"signature-input" = Ok i ∧
    member_value i RESPONSE_LABEL = Ok m ∧ parse_signature_input m = Ok parsed ∧
    signature_base (psi_components parsed) (psi_params parsed) (SourceResponse s r) = Ok base.

(** The byte strings of a hop that are hashed: its bodies and its labeled signature bases. *)
Inductive hop_preimage (hop : RetainedHop) : bytes → Prop :=
  | preimage_request_body : hop_preimage hop (req_body (hop_request hop))
  | preimage_response_body : hop_preimage hop (resp_body (hop_response hop))
  | preimage_request_base base :
      signed_base (hop_request hop) base → hop_preimage hop (labeled_preimage EVIDENCE_LABEL_REQUEST base)
  | preimage_response_base base :
      signed_response_base (hop_response hop) (hop_request hop) base →
      hop_preimage hop (labeled_preimage EVIDENCE_LABEL_RESPONSE base).

Definition hops_collide (hops hops' : list RetainedHop) : Prop :=
  ∃ hop hop' x y, hop ∈ hops ∧ hop' ∈ hops' ∧ hop_preimage hop x ∧ hop_preimage hop' y ∧ collides x y.

(** The same exchange: what is signed of it. *)
Definition same_exchange (hop hop' : RetainedHop) : Prop :=
  req_method (hop_request hop) = req_method (hop_request hop') ∧
  req_target_uri (hop_request hop) = req_target_uri (hop_request hop') ∧
  req_body (hop_request hop) = req_body (hop_request hop') ∧
  resp_status (hop_response hop) = resp_status (hop_response hop') ∧
  resp_body (hop_response hop) = resp_body (hop_response hop').

Lemma delegated_response_parts s r resolve policy expect is_revoked now w :
  delegated_bound_response s r resolve policy expect is_revoked now = Ok w →
  ∃ cs p base d, Forall known_component cs ∧ params_in_range p ∧
    signature_base cs p (SourceResponse s r) = Ok base ∧ signed_response_base s r base ∧
    bsf_response_signature_base_digest (vdr_signature_facts w) = from_response_signature_base base ∧
    Forall (λ n, component_new n ∈ cs) REQUIRED_RESPONSE_COMPONENTS ∧
    required_header (resp_headers s) b#"content-digest" = Ok d ∧
    verify_content_digest_sha256 d (resp_body s) = Ok tt.
Proof.
  intros Hd. unfold delegated_bound_response in Hd. inv_ok. simpl.
  repeat match goal with
  | u : unit |- _ => destruct u
  | Hp : parse_signature_input _ = Ok _ |- _ => 
      pose proof (parse_signature_input_wf _ _ Hp) as (Hk & _ & Hr); revert Hp
  | Hq : require_components _ _ _ = Ok _ |- _ => apply require_components_Ok in Hq as [Hq _]
  end. intros Hp. eexists _, _, _, _. split_and!; try done. by eexists _, _, _.
Qed.

Lemma delegated_same_evidence s s' r r' resolve resolve' policy policy' expect expect' rev rev' now now' w w' :
  delegated_bound_response s r resolve policy expect rev now = Ok w →
  delegated_bound_response s' r' resolve' policy' expect' rev' now' = Ok w' →
  bsf_response_signature_base_digest (vdr_signature_facts w) = bsf_response_signature_base_digest (vdr_signature_facts w') →
  (resp_status s = resp_status s' ∧ resp_body s = resp_body s')
  ∨ collides (resp_body s) (resp_body s')
  ∨ ∃ base base', signed_response_base s r base ∧ signed_response_base s' r' base' ∧
      collides (labeled_preimage EVIDENCE_LABEL_RESPONSE base) (labeled_preimage EVIDENCE_LABEL_RESPONSE base').
Proof.
  intros Hw Hw' Hev.
  destruct (delegated_response_parts _ _ _ _ _ _ _ _ Hw) as (cs & p & base & d & Hk & Hr & Hb & Hsb & He & Hreq & Hd & Hdig).
  destruct (delegated_response_parts _ _ _ _ _ _ _ _ Hw') as (cs' & p' & base' & d' & Hk' & Hr' & Hb' & Hsb' & He' & _ & Hd' & Hdig').
  rewrite He, He' in Hev. destruct evidence_labels_no_NUL as [_ Hno].
  apply (f_equal digest_value), labeled_digest_binds in Hev as [[_ <-]|?]; [|by right; right; eauto 10|done..].
  destruct (same_base_response _ _ _ _ _ _ _ _ _ _ _ Hb Hb' Hk Hk' Hr Hr' Hreq Hd Hd') as (Hs & Ht).
  pose proof (verify_content_digest_same _ _ _ _ Ht Hdig' Hdig) as Heq.
  apply eq_sym, content_digest_binds in Heq as [?|?]; [by left|by right; left].
Qed.

(** Hops with the same pair of handles are the same exchange, with the same block. *)
Lemma hop_same_evidence cv cv' hop hop' ev block block' :
  hop_verified cv hop ev block → hop_verified cv' hop' ev block' →
  (same_exchange hop hop' ∧ block = block') ∨ hops_collide [hop] [hop'].
Proof.
  intros (at1 & at2 & v & w & _ & _ & Hv & Hw & -> & ->) (at1' & at2' & v' & w' & _ & _ & Hv' & Hw' & -> & [= Hq Hs]).
  unfold verify_request in Hv, Hv'. unfold full_request in Hv, Hv'. inv_ok. simpl in *.
  assert (∀ x y, hop_preimage hop x → hop_preimage hop' y → collides x y → hops_collide [hop] [hop']) as Hcol.
  { intros x y Hx Hy Hc. exists hop, hop', x, y. split_and!; [by left|by left|done..]. }
  repeat match goal with
  | Hf : floor_request (hop_request _) _ _ _ = Ok _ |- _ =>
      pose proof (floor_signed_base _ _ _ _ _ Hf); revert Hf
  end. intros Hf Hf'.
  apply (f_equal digest_value) in Hq.
  destruct (floor_same_evidence _ _ _ _ _ _ _ _ _ _ Hf Hf' ltac:(congruence)) as [(Hm & Hu & Hb & _)|[Hc|Hc]].
  - destruct (delegated_same_evidence _ _ _ _ _ _ _ _ _ _ _ _ _ _ _ _ Hw Hw' ltac:(congruence))
      as [(Hst & Hrb)|[Hc|(base & base' & Hb1 & Hb2 & Hc)]].
    + left. unfold same_exchange. split; [done|]. congruence.
    + right. eapply Hcol; [apply preimage_response_body|apply preimage_response_body|exact Hc].
    + right. by eapply Hcol; [by apply preimage_response_base|by apply preimage_response_base|].
  - right. eapply Hcol; [apply preimage_request_body|apply preimage_request_body|exact Hc].
  - right. by eapply Hcol; [by apply preimage_request_base|by apply preimage_request_base|].
Qed.

(** Every hop accounts for its position, with its evidence. *)
Definition chain_accounts (cv : ChainVerification) (hops : list RetainedHop) (evs : list HopEvidence) : Prop :=
  length evs = length hops ∧
  ∀ i hop ev, hops !! i = Some hop → evs !! i = Some ev → hop_accounts cv (length hops) evs i hop ev.

Lemma linked_inj prev prev' c : linked prev c → linked prev' c → prev = prev'.
Proof.
  destruct prev as [[a b]|], prev' as [[a' b']|], c as [c|]; simpl; try done.
  intros [-> ->] [-> ->]. done.
Qed.

Lemma hops_collide_mono hop hop' hops hops' :
  hop ∈ hops → hop' ∈ hops' → hops_collide [hop] [hop'] → hops_collide hops hops'.
Proof.
  intros Hh Hh' (? & ? & x & y & ->%list_elem_of_singleton & ->%list_elem_of_singleton & Hx).
  by exists hop, hop', x, y.
Qed.

(** Positions of two chains with the same handles hold the same exchange, with the same
    predecessor; hence they end the same prefix. *)
Lemma same_position cv cv' hops hops' evs evs' i i' ev :
  chain_accounts cv hops evs → chain_accounts cv' hops' evs' →
  evs !! i = Some ev → evs' !! i' = Some ev →
  (∃ hop hop', hops !! i = Some hop ∧ hops' !! i' = Some hop' ∧ same_exchange hop hop' ∧
     predecessor evs i = predecessor evs' i') ∨ hops_collide hops hops'.
Proof.
  intros [Hlen Hacc] [Hlen' Hacc'] He He'.
  destruct (lookup_lt_is_Some_2 hops i) as [hop Hh]; [rewrite <-Hlen; by eapply lookup_lt_Some|].
  destruct (lookup_lt_is_Some_2 hops' i') as [hop' Hh']; [rewrite <-Hlen'; by eapply lookup_lt_Some|].
  destruct (Hacc _ _ _ Hh He) as (block & Hv & Hl & _).
  destruct (Hacc' _ _ _ Hh' He') as (block' & Hv' & Hl' & _).
  destruct (hop_same_evidence _ _ _ _ _ _ _ Hv Hv') as [[Hsame <-]|Hc].
  - left. exists hop, hop'. split_and!; [done..|]. by eapply linked_inj.
  - right. by eapply hops_collide_mono; [by eapply list_elem_of_lookup_2..|].
Qed.

Lemma same_prefix cv cv' hops hops' evs evs' i i' ev :
  chain_accounts cv hops evs → chain_accounts cv' hops' evs' →
  evs !! i = Some ev → evs' !! i' = Some ev →
  Forall2 same_exchange (take (S i) hops) (take (S i') hops') ∨ hops_collide hops hops'.
Proof.
  intros Hc Hc'. revert i' ev. induction i as [|i IH]; intros i' ev He He';
    (destruct (same_position _ _ _ _ _ _ _ _ _ Hc Hc' He He') as [(hop & hop' & Hh & Hh' & Hsame & Hprev)|?];
     [|by right]); rewrite (take_S_r _ _ _ Hh), (take_S_r _ _ _ Hh').
  - destruct i' as [|i']; [left; constructor; [done|constructor]|]. simpl in Hprev.
    apply lookup_lt_Some in He'. symmetry in Hprev. apply lookup_ge_None in Hprev. lia.
  - simpl in Hprev. apply lookup_lt_Some in He as Hlt.
    destruct (lookup_lt_is_Some_2 evs i) as [prev Hpr]; [lia|]. rewrite Hpr in Hprev.
    destruct i' as [|i']; [done|]. simpl in Hprev.
    destruct (IH i' prev Hpr (eq_sym Hprev)) as [HF|?]; [left|by right].
    apply Forall2_app; [exact HF|by constructor; [|constructor]].
Qed.
End binding.

(** ** Properties *)

Section properties.
Context `{Base64Laws, Sha2, Ed25519, JsonTree}.
Context `{!Serde HttpRequestEvidenceBlock, !Serde HttpResponseEvidenceBlock}.
Context `{!Serde DelegationHeader, !Serde DelegationClaims}.

Lemma reconstruct_complete verifier expect audit is_revoked now hops evs :
  let r := reconstruct_chain hops verifier expect audit is_revoked now in
  (cr_label r = ChainComplete ∧ cr_hop_evidence r = evs) ↔
  hops ≠ [] ∧ chain_accounts (chain_verification verifier expect audit is_revoked now) hops evs.
Proof.
  unfold reconstruct_chain, chain_accounts. destruct hops as [|hop0 rest]; [simpl; naive_solver|].
  set (hops := hop0 :: rest). fold (chain_verification verifier expect audit is_revoked now).
  set (cv := chain_verification _ _ _ _ _).
  assert (∀ evs i hop ev, length evs = length hops → hops !! i = Some hop → evs !! i = Some ev →
    verify_hop cv hop (position_at (length hops) evs i) = Ok ev ↔ hop_accounts cv (length hops) evs i hop ev) as Hpos.
  { intros evs' i hop ev Hlen Hh He. apply verify_hop_Ok, position_known.
    apply lookup_lt_Some in He. lia. }
  destruct (reconstruct_from cv (length hops) 0 [] hops) as [label evs'] eqn:Er. cbn [cr_label cr_hop_evidence]. split.
  - intros [-> ->]. split; [done|].
    destruct (reconstruct_from_spec cv (length hops) [] hops _ _ Er) as (more & -> & Hmore & Hlen).
    split; [done|]. intros i hop ev Hh He. apply Hpos; [done..|]. by apply Hmore.
  - intros (_ & Hlen & Hacc). pose proof (reconstruct_from_complete cv (length hops) [] hops evs Hlen) as Hc.
    cbn [length app] in Hc. rewrite Hc in Er; [by simplify_eq|]. intros j hop ev Hh He. simpl. apply Hpos; [done..|]. by apply Hacc.
Qed.

(** C20: a chain is complete exactly when it is accounted for from end to end. The label is
    complete, with evidence [evs], if and only if there is at least one hop and every hop, at
    the instants its own signatures name, has a request that passes full verification and a
    delegated response that answers it, continues nothing if it is first and otherwise names
    both handles of the hop before it, and asks for input unless it is last, in which case
    its response is final; [evs] are the handles of those verifications, hop by hop. *)
Theorem complete_chain_exact verifier expect audit is_revoked now hops evs :
  let r := reconstruct_chain hops verifier expect audit is_revoked now in
  (cr_label r = ChainComplete ∧ cr_hop_evidence r = evs) ↔
  hops ≠ [] ∧ length evs = length hops ∧
  ∀ i hop ev, hops !! i = Some hop → evs !! i = Some ev →
    hop_accounts (chain_verification verifier expect audit is_revoked now) (length hops) evs i hop ev.
Proof. apply reconstruct_complete. Qed.

(** An incomplete chain claims no more than it verified. If the label names hop [i] and a
    reason, then the evidence has exactly the [i] hops before it, each of which accounts for
    its position, and hop [i], in its position, fails with exactly that reason; only an empty
    submission is reported otherwise. *)
Lemma incomplete_chain_exact verifier expect audit is_revoked now hops i reason :
  let r := reconstruct_chain hops verifier expect audit is_revoked now in
  let cv := chain_verification verifier expect audit is_revoked now in
  let evs := cr_hop_evidence r in
  cr_label r = ChainIncomplete i reason →
  (hops = [] ∧ i = 0%nat ∧ reason = EmptyChain ∧ evs = []) ∨
  (length evs = i ∧
   (∀ j hop ev, hops !! j = Some hop → evs !! j = Some ev → hop_accounts cv (length hops) evs j hop ev) ∧
   ∃ hop, hops !! i = Some hop ∧ verify_hop cv hop (position_at (length hops) evs i) = Err reason).
Proof.
  unfold reconstruct_chain. destruct hops as [|hop0 rest]; [intros [= <- <-]; by left|].
  set (hops := hop0 :: rest). fold (chain_verification verifier expect audit is_revoked now).
  destruct (reconstruct_from _ (length hops) 0 [] hops) as [label evs] eqn:Er. cbn [cr_label cr_hop_evidence].
  intros ->. right.
  destruct (reconstruct_from_spec _ (length hops) [] hops _ _ Er) as (more & -> & Hmore & -> & Hfail).
  split_and!; [done| |exact Hfail]. intros j hop ev Hh He. apply verify_hop_Ok; [|by apply Hmore].
  apply position_known. apply lookup_lt_Some in He. simpl in *. lia.
Qed.

(** C19: the last pair of handles of a complete chain determines the whole chain. Two complete
    chains, audited by whomever and whenever, whose last hops have the same pair of handles,
    have the same number of hops and, hop by hop, the same request method, target and body
    and the same response status and body, unless a body or a labeled signature base of the
    one collides with one of the other under SHA-256. *)
Theorem complete_chain_tamper_evident
    verifier expect audit is_revoked now hops verifier' expect' audit' is_revoked' now' hops' :
  let r := reconstruct_chain hops verifier expect audit is_revoked now in
  let r' := reconstruct_chain hops' verifier' expect' audit' is_revoked' now' in
  cr_label r = ChainComplete → cr_label r' = ChainComplete →
  last (cr_hop_evidence r) = last (cr_hop_evidence r') →
  Forall2 same_exchange hops hops' ∨ hops_collide hops hops'.
Proof.
  intros r r' Hc Hc' Hlast.
  destruct (proj1 (reconstruct_complete _ _ _ _ _ _ _) (conj Hc eq_refl)) as [Hne Ha].
  destruct (proj1 (reconstruct_complete _ _ _ _ _ _ _) (conj Hc' eq_refl)) as [Hne' Ha'].
  pose proof (proj1 Ha) as Hlen. pose proof (proj1 Ha') as Hlen'.
  destruct (last (cr_hop_evidence r)) as [ev|] eqn:El.
  2:{ apply last_None in El. unfold r in El. rewrite El in Hlen. by destruct hops. }
  symmetry in Hlast. rewrite last_lookup in El, Hlast.
  pose proof (same_prefix _ _ _ _ _ _ _ _ _ Ha Ha' El Hlast) as Hp.
  unfold r, r' in Hp. rewrite Hlen, Hlen' in Hp.
  by rewrite !take_ge in Hp by lia.
Qed.

(** The commitment to a submission binds every byte of it. Two submissions with equal
    commitments, whose buffers fit the machine's integers, are the same hops in the same
    order with the same headers, unless their framings collide under SHA-256; this holds
    whether or not any hop verifies. *)
Lemma submitted_commitment_binds hops hops' :
  fits hops → fits hops' → Forall hop_fits hops → Forall hop_fits hops' →
  submitted_commitment hops = submitted_commitment hops' →
  hops = hops' ∨ collides (submitted_bytes hops) (submitted_bytes hops').
Proof.
  unfold submitted_commitment, b64url_encode. intros Hf Hf' HF HF' Hs%url_encode_inj.
  destruct (decide (submitted_bytes hops = submitted_bytes hops')) as [Heq|Hne]; [left|by right].
  by apply submitted_bytes_inj.
Qed.
End properties.

(** ** Witnesses *)

Import Instances.

(** A chain of two hops: the first response asks for input, the second request continues it. *)
#[local] Instance chain_f64 : F64Carrier := { f64_reemit := Some }.
#[local] Instance chain_header_serde : Serde DelegationHeader := one_value_serde w_header b#"h".
#[local] Instance chain_claims_serde : Serde DelegationClaims := one_value_serde w_claims b#"c".

Definition pair_serde `{EqDecision T} (t1 t2 : T) (n1 n2 : bytes) : Serde T := serde_through
  (λ v, if bool_decide (as_str v = Some n1) then Some t1
        else if bool_decide (as_str v = Some n2) then Some t2 else None)
  (λ t, if bool_decide (t = t1) then Some (JString n1)
        else if bool_decide (t = t2) then Some (JString n2) else None).

Definition w_json (v : json Z) : bytes := default [] (to_vec v).
Definition w_ask : json Z := JObj [(b#"result", JObj [(b#"resultType", JStr INPUT_REQUIRED_RESULT_TYPE)])].
Definition w_done : json Z := JObj [].

Definition w_hop_request (block : HttpRequestEvidenceBlock) (name nonce : bytes)
  : HttpRequest * Result RequestEvidence HttpProfileError :=
  let _ : Serde HttpRequestEvidenceBlock := one_value_serde block name in
  sign_request_full w_plain block w_key b#"k1" 100 160 nonce.
Definition w_request_evidence (r : HttpRequest * Result RequestEvidence HttpProfileError) : RequestEvidence :=
  match snd r with Ok ev => ev | Err _ => {| digest_alg := []; digest_value := [] |} end.
Definition w_hop_response_block (ev : RequestEvidence) : HttpResponseEvidenceBlock := response_block w_signer w_jws ev.
Definition w_hop_response (body : json Z) (r : HttpRequest) (ev : RequestEvidence) (name : bytes)
  : HttpResponse * Result bytes HttpProfileError :=
  let _ : Serde HttpResponseEvidenceBlock := one_value_serde (w_hop_response_block ev) name in
  sign_delegated_response_full (with_resp_body w_response (w_json body)) r ev w_signer w_jws w_dkey b#"d1" 100 160.

Definition w_q1 := Eval vm_compute in w_hop_request w_block b#"q" b#"n1".
Definition w_s1 := Eval vm_compute in w_hop_response w_ask (fst w_q1) (w_request_evidence w_q1) b#"s".
Definition w_continuation : HttpContinuation :=
  {| continuation_type := CONTINUATION_TYPE_MCP_MRT;
     previous_request_evidence := w_request_evidence w_q1;
     input_required_response_evidence :=
       from_response_signature_base (match snd w_s1 with Ok base => base | Err _ => [] end);
     request_state_digest := w_request_evidence w_q1 |}.
Definition w_block2 : HttpRequestEvidenceBlock :=
  {| rb_profile := PROFILE_TAG; rb_audience := w_audience;
     rb_artifact_bindings := [opaque_digest OauthMtls b#"cert"]; rb_continuation := Some w_continuation;
     rb_admission := None; rb_admission_assertion := None; rb_authorization_decision := None |}.
Definition w_q2 := Eval vm_compute in w_hop_request w_block2 b#"r" b#"n2".
Definition w_s2 := Eval vm_compute in w_hop_response w_done (fst w_q2) (w_request_evidence w_q2) b#"t".

#[local] Instance chain_request_serde : Serde HttpRequestEvidenceBlock := pair_serde w_block w_block2 b#"q" b#"r".
#[local] Instance chain_response_serde : Serde HttpResponseEvidenceBlock :=
  pair_serde (w_hop_response_block (w_request_evidence w_q1)) (w_hop_response_block (w_request_evidence w_q2)) b#"s" b#"t".

Definition w_hops : list RetainedHop :=
  [{| hop_request := fst w_q1; hop_response := fst w_s1 |}; {| hop_request := fst w_q2; hop_response := fst w_s2 |}].
Definition w_verifier : Verifier := {| v_resolve_actor := w_resolver; v_policy := VerifierPolicy_default |}.
Definition w_audit : ChainAudit := {| ca_expected_audience := w_audience; ca_artifact_material := w_material |}.
Definition w_chain (now : Z) (hops : list RetainedHop) : ChainReconstruction :=
  reconstruct_chain hops w_verifier w_expect w_audit no_revocation now.

Lemma complete_chain_exact_witness :
  w_hops ≠ [] ∧ length (cr_hop_evidence (w_chain 120 w_hops)) = length w_hops ∧
  ∀ i hop ev, w_hops !! i = Some hop → cr_hop_evidence (w_chain 120 w_hops) !! i = Some ev →
    hop_accounts (chain_verification w_verifier w_expect w_audit no_revocation 120) (length w_hops)
      (cr_hop_evidence (w_chain 120 w_hops)) i hop ev.
Proof.
  apply (complete_chain_exact w_verifier w_expect w_audit no_revocation 120 w_hops).
  split; [vm_compute; reflexivity|reflexivity].
Defined.

Lemma complete_chain_tamper_evident_witness :
  Forall2 same_exchange w_hops w_hops ∨ hops_collide w_hops w_hops.
Proof.
  apply (complete_chain_tamper_evident w_verifier w_expect w_audit no_revocation 120 w_hops
           w_verifier w_expect w_audit no_revocation 130 w_hops); vm_compute; reflexivity.
Defined.
