(* ===== verification/Bodyless.v ===== *)
(** * [mcp-re-http-profile/src/bodyless]

    Messages without content: a notification or response a client posts, and the signed
    [202 Accepted] that acknowledges it. The acknowledgement carries its delegation credential
    and the handle of the request it answers in covered headers, since it has no body to carry
    them in. *)

From S2P Require Import Prelude.
From S2P Require Import RustStr.
From S2P Require Import Externals.
From S2P Require Import Concrete.
From S2P Require Import CoreError.
From S2P Require Import CoreResolver.
From S2P Require Import HttpMessage.
From S2P Require Import SigBase.
From S2P Require Import SigInput.
From S2P Require Import SigCanonical.
From S2P Require Import Policy.
From S2P Require Import Blocks.
From S2P Require Import Body.
From S2P Require Import Floor.
From S2P Require Import Sign.
From S2P Require Import Full.
From S2P Require Import Delegation.

(** ** [ids.rs] *)

Definition MCP_RE_REQUEST_EVIDENCE_HEADER : bytes := b#"mcp-re-request-evidence".
Definition MCP_RE_DELEGATION_HEADER : bytes := b#"mcp-re-delegation".
Definition BODYLESS_REQUEST_COMPONENTS : list bytes := [b#"@method"; b#"@target-uri"; b#"content-digest"].
Definition BODYLESS_RESPONSE_COMPONENTS : list bytes :=
  [b#"@status"; b#"content-digest"; MCP_RE_REQUEST_EVIDENCE_HEADER].
Definition BODYLESS_DELEGATED_RESPONSE_COMPONENTS : list bytes :=
  [b#"@status"; b#"content-digest"; MCP_RE_DELEGATION_HEADER; MCP_RE_REQUEST_EVIDENCE_HEADER].
Definition MAX_DELEGATION_HEADER_LEN : Z := 8192.
Definition STATUS_ACCEPTED : Z := 202.

(** ** [mod.rs] *)

Definition require_bodyless (headers : Headers) (body : bytes) : Result unit HttpProfileError :=
  let? content_type := single_header headers b#"content-type" in
  if is_some content_type then Err (HPE.MalformedEvidence b#"content-type on a bodyless message")
  else if negb (bytes_eqb body []) then Err (HPE.MalformedEvidence b#"content on a bodyless message")
  else Ok tt.

Definition params_for (key_id : bytes) (created expires : Z) (nonce : option bytes) : SignatureParams :=
  {| p_created := Some created; p_expires := Some expires; p_nonce := nonce;
     p_keyid := Some key_id; p_alg := Some ALG_ED25519; p_tag := Some PROFILE_TAG |}.

Section bodyless.
Context `{Base64, Sha2, Ed25519}.

Definition emit (headers : Headers) (label : bytes) (components : list CoveredComponent)
    (params : SignatureParams) (base : bytes) (key : SigningKey) : Headers * Result unit HttpProfileError :=
  match map_err (λ _, HPE.InvalidSignature) (b64url_decode (SigningKey_sign key base)) with
  | Err e => (headers, Err e)
  | Ok sig =>
      if negb (bool_decide (length sig = 64%nat)) then (headers, Err HPE.InvalidSignature)
      else match serialize_with params components with
           | Err e => (headers, Err e)
           | Ok s =>
               let headers1 := set_header headers b#"Signature-Input" (label ++ b#"=" ++ s) in
               (set_header headers1 b#"Signature"
                  (label ++ b#"=" ++ b#":" ++ base64_standard_encode sig ++ b#":"), Ok tt)
           end
  end.

(** [mod.rs] has a [request_evidence_of] of its own. *)
Definition bodyless_request_evidence_of (request : HttpRequest) : Result RequestEvidence HttpProfileError :=
  let? parsed := parse_signature_input_for (req_headers request) REQUEST_LABEL b#"request signature-input" in
  let? base := signature_base (psi_components parsed) (psi_params parsed) (SourceRequest request) in
  Ok (from_signature_base base).

Definition request_evidence_header (request : HttpRequest) : Result (bytes * bytes) HttpProfileError :=
  let? evidence := bodyless_request_evidence_of request in
  Ok (MCP_RE_REQUEST_EVIDENCE_HEADER, digest_value evidence).

Definition check_request_evidence (response_headers : Headers) (request : HttpRequest)
  : Result unit HttpProfileError :=
  let? claimed := map_err (λ _, HPE.MissingEvidence b#"response request-evidence")
                    (required_header response_headers MCP_RE_REQUEST_EVIDENCE_HEADER) in
  let? derived := bodyless_request_evidence_of request in
  if negb (bytes_eqb claimed (digest_value derived)) then Err HPE.ResponseBindingMismatch else Ok tt.

Definition delegated_202_components : list CoveredComponent :=
  map component_new BODYLESS_DELEGATED_RESPONSE_COMPONENTS ++ map component_req REQUIRED_RESPONSE_REQ_COMPONENTS.

Definition sign_delegated_accepted_202 (request : HttpRequest) (server_delegation : bytes)
    (delegated_key : SigningKey) (delegated_kid : bytes) (created expires : Z)
  : Result HttpResponse HttpProfileError :=
  if MAX_DELEGATION_HEADER_LEN <? Z.of_nat (length server_delegation)
  then Err (HPE.MalformedEvidence b#"delegation header too large")
  else
    let? evidence_header := request_evidence_header request in
    let response := {| resp_status := STATUS_ACCEPTED;
                       resp_headers := [(b#"Content-Digest", content_digest_sha256 []);
                                        (MCP_RE_DELEGATION_HEADER, server_delegation); evidence_header];
                       resp_body := [] |} in
    let components := delegated_202_components in
    let params := params_for delegated_kid created expires None in
    let? base := signature_base components params (SourceResponse response request) in
    let '(headers, emitted) := emit (resp_headers response) RESPONSE_LABEL components params base delegated_key in
    emitted ;? Ok (with_resp_headers response headers).

(** [headers.retain(|(k, _)| !k.eq_ignore_ascii_case("content-type"))]. *)
Definition without_content_type (headers : Headers) : Headers :=
  List.filter (λ kv, negb (eq_ignore_ascii_case (fst kv) b#"content-type")) headers.

Definition sign_bodyless_request (request : HttpRequest) (key : SigningKey) (key_id : bytes)
    (created expires : Z) (nonce : bytes) : HttpRequest * Result RequestEvidence HttpProfileError :=
  match reject_content_encoding (req_headers request) with
  | Err e => (request, Err e)
  | Ok _ =>
      let request1 := with_req_headers (with_req_body request [])
        (set_header (without_content_type (req_headers request)) b#"Content-Digest" (content_digest_sha256 [])) in
      let params := params_for key_id created expires (Some nonce) in
      match (let? conditional := conditional_request_components (req_headers request1) in
             let components := map component_new BODYLESS_REQUEST_COMPONENTS ++ conditional in
             let? base := signature_base components params (SourceRequest request1) in
             Ok (components, base)) with
      | Err e => (request1, Err e)
      | Ok (components, base) =>
          let '(headers, emitted) := emit (req_headers request1) REQUEST_LABEL components params base key in
          (with_req_headers request1 headers, (emitted ;? Ok (from_signature_base base)))
      end
  end.

Definition verify_bodyless_request (request : HttpRequest) (resolve_actor : actor_resolver)
    (policy : VerifierPolicy) (now : Z) : Result (ResolvedActor * RequestEvidence) HttpProfileError :=
  reject_content_encoding (req_headers request) ;?
  require_bodyless (req_headers request) (req_body request) ;?
  let? digest_header := required_header (req_headers request) b#"content-digest" in
  verify_content_digest_sha256 digest_header (req_body request) ;?
  let? parsed := parse_signature_input_for (req_headers request) REQUEST_LABEL b#"signature-input" in
  require_components (psi_components parsed) BODYLESS_REQUEST_COMPONENTS [] ;?
  if existsb cc_req (psi_components parsed)
  then Err (HPE.MalformedEvidence b#"req component on a request")
  else if existsb (λ c, bytes_eqb (cc_name c) b#"content-type") (psi_components parsed)
  then Err (HPE.MalformedEvidence b#"content-type covered on a bodyless message")
  else
    require_conditional_coverage (req_headers request) (psi_components parsed) ;?
    let? (_, _, _, key_id, algorithm) := check_params (psi_params parsed) policy now true in
    let? actor := resolve_actor_for_slot resolve_actor key_id SlotRequest in
    let? base := signature_base (psi_components parsed) (psi_params parsed) (SourceRequest request) in
    let? sig := signature_value_b64url (req_headers request) b#"signature" REQUEST_LABEL in
    verify_under algorithm base sig (ra_verification_key actor) InvalidSignature ;?
    match vp_mcp_transport policy with Some t => enforce_bodyless t request | None => Ok tt end ;?
    Ok (actor, from_signature_base base).
End bodyless.

(** ** [acknowledged.rs] *)

Record AcknowledgedDelegation `{Ed25519} := { ad_actor : ResolvedActor; ad_issuer_kid : bytes }.

Definition established `{Ed25519} (verified : VerifiedDelegation) : AcknowledgedDelegation :=
  {| ad_actor :=
       {| ra_identity := {| ai_role := b#"server"; ai_trust_domain := [];
                            ai_subject := vd_server_signer verified; ai_keyid := vd_delegated_kid verified |};
          ra_verification_key := vd_delegated_key verified; ra_slot := SlotResponse |};
     ad_issuer_kid := vd_issuer_kid verified |}.

(** ** [delegated_credential.rs] *)

Definition read_credential (headers : Headers) : Result bytes HttpProfileError :=
  let? o := single_header headers MCP_RE_DELEGATION_HEADER in
  let? credential := ok_or o HPE.DelegationCredentialMissing in
  if MAX_DELEGATION_HEADER_LEN <? Z.of_nat (length credential)
  then Err (HPE.MalformedEvidence b#"delegation header too large")
  else Ok credential.

(** [str::replace] of a non-empty pattern: left to right, [skip] bytes of a match remaining. *)
Fixpoint replace_str_go (pat rep : bytes) (skip : nat) (s : bytes) : bytes :=
  match s with
  | [] => []
  | c :: s' =>
      match skip with
      | S k => replace_str_go pat rep k s'
      | O => if starts_with pat s then rep ++ replace_str_go pat rep (pred (length pat)) s'
             else c :: replace_str_go pat rep 0 s'
      end
  end.
Definition replace_str (pat rep s : bytes) : bytes := replace_str_go pat rep 0 s.

Definition unescape_actor_field (field : bytes) : bytes :=
  replace_str b#"%25" b#"%" (replace_str b#"%3A" b#":" (replace_str b#"%1F" [US] field)).

(** [rsplit(':').next()] is the last piece. *)
Definition check_scope_names_the_signing_key (key_id server_signer delegated_kid : bytes)
  : Result unit HttpProfileError :=
  if negb (bytes_eqb key_id delegated_kid) then Err HPE.DelegationKeyMismatch
  else
    let? scoped_keyid := ok_or (last (split_char ":" server_signer)) HPE.DelegationProfileMismatch in
    if negb (bytes_eqb (unescape_actor_field scoped_keyid) delegated_kid)
    then Err HPE.DelegationKeyMismatch else Ok tt.

Section credential.
Context `{Base64, Sha2, Ed25519, SerdeJson}.
Context `{!Serde DelegationHeader, !Serde DelegationClaims}.

Definition credential_server_signer (compact_jws : bytes) : Result bytes HttpProfileError :=
  let? payload_seg := ok_or (split_char "." compact_jws !! 1%nat) HPE.DelegationCredentialInvalid in
  let? b := map_err (λ _, HPE.DelegationCredentialInvalid) (b64url_decode payload_seg) in
  let? v := ok_or (from_slice b) HPE.DelegationCredentialInvalid in
  ok_or (json_get v b#"mcp_re_server_signer" ≫= as_str) HPE.DelegationCredentialInvalid.

Definition ack_params (expect : DelegationExpectations) (server_signer : bytes) (now : Z) : DelegationVerifyParams :=
  {| dp_now := now; dp_max_clock_skew := de_max_clock_skew expect;
     dp_verifier_audiences := de_verifier_audiences expect; dp_expected_profile := PROFILE_TAG;
     dp_expected_audience_hash := de_expected_audience_hash expect;
     dp_expected_server_signer := server_signer; dp_accepted_epochs := de_accepted_epochs expect |}.

(** [root_resolver] is the closure: [verify_credential] has the one of [chain_to_root]. *)
Definition verify_credential (credential : bytes) (verifier : Verifier) (expect : DelegationExpectations)
    (is_revoked : bytes → bool) (now : Z) : Result (VerifiedDelegation * bytes) HttpProfileError :=
  let? server_signer := credential_server_signer credential in
  let '(cell, verified) :=
    verify_delegation_credential (root_resolver (v_resolve_actor verifier)) credential
      (ack_params expect server_signer now) is_revoked None in
  let? verified := map_err (λ e, default e cell) verified in
  Ok (verified, server_signer).

(** ** [delegated_ack.rs] *)

Definition check_envelope (response : HttpResponse) (request : HttpRequest) : Result unit HttpProfileError :=
  reject_content_encoding (resp_headers response) ;?
  require_bodyless (resp_headers response) (resp_body response) ;?
  if negb (resp_status response =? STATUS_ACCEPTED)
  then Err (HPE.MalformedEvidence b#"bodyless acknowledgement status")
  else
    let? digest_header := map_err (λ _, HPE.MissingEvidence b#"response content-digest")
                            (required_header (resp_headers response) b#"content-digest") in
    verify_content_digest_sha256 digest_header (resp_body response) ;?
    check_request_evidence (resp_headers response) request.

Definition check_coverage (headers : Headers) (policy : VerifierPolicy) (now : Z)
  : Result (ParsedSignatureInput * bytes * ProfileAlgorithm) HttpProfileError :=
  let? parsed := parse_signature_input_for headers RESPONSE_LABEL b#"response signature-input" in
  require_components (psi_components parsed) BODYLESS_DELEGATED_RESPONSE_COMPONENTS
    REQUIRED_RESPONSE_REQ_COMPONENTS ;?
  if existsb (λ c, negb (cc_req c) && bytes_eqb (cc_name c) b#"content-type") (psi_components parsed)
  then Err (HPE.MalformedEvidence b#"content-type covered on a bodyless message")
  else
    let? (_, _, _, key_id, algorithm) := check_params (psi_params parsed) policy now false in
    Ok (parsed, key_id, algorithm).

Definition verify_delegated_accepted_202 (response : HttpResponse) (request : HttpRequest)
    (verifier : Verifier) (expect : DelegationExpectations) (is_revoked : bytes → bool) (now : Z)
  : Result AcknowledgedDelegation HttpProfileError :=
  check_envelope response request ;?
  let? credential := read_credential (resp_headers response) in
  let? (parsed, key_id, algorithm) := check_coverage (resp_headers response) (v_policy verifier) now in
  let? (verified, server_signer) := verify_credential credential verifier expect is_revoked now in
  check_scope_names_the_signing_key key_id server_signer (vd_delegated_kid verified) ;?
  let? base := signature_base (psi_components parsed) (psi_params parsed) (SourceResponse response request) in
  let? sig := signature_value_b64url (resp_headers response) b#"signature" RESPONSE_LABEL in
  map_err (λ _, HPE.DelegationKeyMismatch)
    (verify_under algorithm base sig (vd_delegated_key verified) ResponseSigInvalid) ;?
  Ok (established verified).
End credential.

(** ** Lemmas *)

(** The escapes of a field, with those of some characters already undone. *)
Definition esc_us (c : ascii) : bytes := if ascii_eqb c US then [US] else esc c.
Definition esc_us_colon (c : ascii) : bytes := if ascii_eqb c ":" then b#":" else esc_us c.

Lemma replace_tokens pat rep (tok tok' : ascii → bytes) s :
  (∀ c r, replace_str pat rep (tok c ++ r) = tok' c ++ replace_str pat rep r) →
  replace_str pat rep (concat (map tok s)) = concat (map tok' s).
Proof. intros Ht. induction s as [|c s IH]; [done|]. simpl. by rewrite Ht, IH. Qed.

Lemma starts_with_percent p c r : ascii_eqb c "%" = false → starts_with ("%"%char :: p) (c :: r) = false.
Proof.
  rewrite ascii_eqb_false. intros Hc. unfold starts_with. cbn [strip_prefix].
  by rewrite (proj2 (ascii_eqb_false "%" c)) by congruence.
Qed.

Lemma unescape_escape s : unescape_actor_field (field_escape s) = s.
Proof.
  unfold unescape_actor_field. rewrite field_escape_esc.
  rewrite (replace_tokens _ _ esc esc_us), (replace_tokens _ _ esc_us esc_us_colon),
    (replace_tokens _ _ esc_us_colon (λ c, [c])).
  - induction s as [|c s IH]; [done|]. simpl. by rewrite IH.
  - intros c r. unfold esc_us_colon, esc_us, esc, replace_str.
    destruct (ascii_eqb c ":") eqn:E1; [by apply ascii_eqb_true in E1 as ->|].
    destruct (ascii_eqb c US) eqn:E2; [by apply ascii_eqb_true in E2 as ->|].
    destruct (ascii_eqb c "%") eqn:E3; [by apply ascii_eqb_true in E3 as ->|].
    simpl. by rewrite starts_with_percent.
  - intros c r. unfold esc_us_colon, esc_us, esc, replace_str.
    destruct (ascii_eqb c US) eqn:E2; [by apply ascii_eqb_true in E2 as ->|].
    destruct (ascii_eqb c "%") eqn:E3; [by apply ascii_eqb_true in E3 as ->|].
    destruct (ascii_eqb c ":") eqn:E1; [by apply ascii_eqb_true in E1 as ->|].
    simpl. by rewrite starts_with_percent.
  - intros c r. unfold esc_us, esc, replace_str.
    destruct (ascii_eqb c "%") eqn:E3; [by apply ascii_eqb_true in E3 as ->|].
    destruct (ascii_eqb c ":") eqn:E1; [by apply ascii_eqb_true in E1 as ->|].
    destruct (ascii_eqb c US) eqn:E2; [by apply ascii_eqb_true in E2 as ->|].
    simpl. by rewrite starts_with_percent.
Qed.

(** The last piece of an actor id is its key id, escaped. *)
Lemma actor_id_keyid a : last (split_char ":" (actor_id a)) = Some (field_escape (ai_keyid a)).
Proof.
  unfold actor_id. destruct (field_escape_chars (ai_role a)) as [? _], (field_escape_chars (ai_trust_domain a)) as [? _],
    (field_escape_chars (ai_subject a)) as [? _], (field_escape_chars (ai_keyid a)) as [? _].
  change b#":" with [":"%char]. cbn [app]. rewrite !split_char_app, split_char_nosep by done. done.
Qed.

Lemma check_scope_names_actor key_id a kid u :
  check_scope_names_the_signing_key key_id (actor_id a) kid = Ok u ↔ key_id = kid ∧ ai_keyid a = kid.
Proof.
  destruct u. unfold check_scope_names_the_signing_key. rewrite actor_id_keyid. cbn [ok_or].
  rewrite unescape_escape. split.
  - intros Hc. inv_ok. bool_prop. by str_prop.
  - intros [-> ->]. by rewrite bytes_eqb_refl.
Qed.

Lemma require_bodyless_Ok headers body u :
  require_bodyless headers body = Ok u ↔ filter (header_named b#"content-type") headers = [] ∧ body = [].
Proof.
  destruct u. unfold require_bodyless. rewrite single_header_filter.
  destruct (filter _ headers) as [|kv [|? ?]]; [|simpl; naive_solver..]. simpl. split.
  - intros Hc. inv_ok. bool_prop. by str_prop.
  - by intros [_ ->].
Qed.

Lemma emit_emits `{Base64, Ed25519} headers label cs p base key :
  emit headers label cs p base key = emit_signature headers label cs p base (local_sig key).
Proof. done. Qed.

Section ack.
Context `{Base64, Sha2, Ed25519, SerdeJson}.
Context `{!Serde DelegationHeader, !Serde DelegationClaims}.

Lemma verify_credential_Ok credential verifier expect is_revoked now vd signer :
  verify_credential credential verifier expect is_revoked now = Ok (vd, signer) ↔
    credential_server_signer credential = Ok signer ∧
    ∃ header claims root key,
      credential_signed_by (ra_verification_key root) credential header claims ∧
      header_names header claims ∧
      v_resolve_actor verifier (dc_issuer_kid claims) SlotResponse = Resolved root ∧ ra_slot root = SlotResponse ∧
      delegation_fresh claims (ack_params expect signer now) ∧
      delegation_in_scope claims (ack_params expect signer now) ∧
      delegation_current claims (ack_params expect signer now) is_revoked ∧
      delegated_key claims = Ok key ∧ vd = verified_of claims key.
Proof.
  unfold verify_credential. split.
  - destruct (credential_server_signer credential) as [s|]; [|done]. intros Hv. split; [|].
    + destruct (verify_delegation_credential _ _ _ _ _) as [cell r]. inv_ok. by simplify_eq.
    + pose proof (chained_credential_Ok credential (ack_params expect s now) (v_resolve_actor verifier) is_revoked vd) as [Hc _].
      destruct (verify_delegation_credential _ _ _ _ _) as [cell r]. inv_ok. simplify_eq.
      destruct Hc as (header & claims & root & ? & ? & ? & ? & ? & ? & ? & key & ? & ?); [done|]. by exists header, claims, root, key.
  - intros (-> & header & claims & root & key & Hs).
    pose proof (chained_credential_Ok credential (ack_params expect signer now) (v_resolve_actor verifier) is_revoked vd) as [_ Hc].
    destruct (verify_delegation_credential _ _ _ _ _) as [cell r]. rewrite Hc; [done|].
    exists header, claims, root. destruct Hs as (? & ? & ? & ? & ? & ? & ? & ? & ?). by eauto 10.
Qed.

Lemma check_request_evidence_Ok headers request u :
  check_request_evidence headers request = Ok u ↔
    ∃ ev, bodyless_request_evidence_of request = Ok ev ∧
      required_header headers MCP_RE_REQUEST_EVIDENCE_HEADER = Ok (digest_value ev).
Proof.
  destruct u. unfold check_request_evidence. split.
  - intros Hc. inv_ok. bool_prop. str_prop. subst. eauto.
  - intros (ev & Hev & Hh). rewrite Hh. cbn [map_err]. by rewrite Hev, bytes_eqb_refl.
Qed.
End ack.

(** The headers after a successful [emit], for a verifier that rebuilds the signature. *)
Lemma emitted_parts `{Base64Laws, Ed25519Laws} hs label cs p base key hs' :
  emit hs label cs p base key = (hs', Ok tt) → profile_label label → params_in_range p →
  Forall known_component cs → NoDup cs →
  (∀ what, parse_signature_input_for hs' label what = Ok {| psi_components := cs; psi_params := p |}) ∧
  (∀ he, signature_value_b64url hs' he label = Ok (b64url_encode (dalek_sign (sk_inner key) base))) ∧
  (∀ n, eq_ignore_ascii_case b#"Signature-Input" n = false → eq_ignore_ascii_case b#"Signature" n = false →
     same_header n hs' hs) ∧
  (reject_content_encoding hs = Ok tt → reject_content_encoding hs' = Ok tt).
Proof.
  rewrite emit_emits. intros He Hlab Hr Hk Hnd.
  destruct (emit_signature_Ok _ _ _ _ _ _ _ He) as (sig & ser & Hsig & Hlen & Hser & Hfi & Hfs & Hsame & Hrej).
  apply local_sig_Ok in Hsig. subst sig. split_and!; [|by intros he; eapply signature_value_emitted|done|done].
  intros what. destruct (parse_for_serialized hs' label [] _ _ _ _ Hlab Hser Hr Hk Hnd Hfi) as [Hm _].
  destruct (parse_serialized _ _ _ Hser Hr Hk Hnd) as [_ Hparse].
  unfold parse_signature_input_for. rewrite (proj2 (required_header_Ok hs' b#"signature-input" _)) by eauto.
  cbn [map_err]. by rewrite Hm, Hparse.
Qed.

Lemma without_content_type_other n hs :
  eq_ignore_ascii_case b#"content-type" n = false → same_header n (without_content_type hs) hs.
Proof.
  intros Hn. unfold same_header, without_content_type. induction hs as [|kv hs IH]; [done|]. cbn [List.filter].
  destruct (eq_ignore_ascii_case (fst kv) b#"content-type") eqn:E; cbn [negb].
  - rewrite IH. rewrite filter_cons_False; [done|]. unfold header_named. intros Hk. 
    apply eq_ignore_ascii_case_true in E. rewrite <-not_true_iff_false, eq_ignore_ascii_case_true in Hn.
    apply eq_ignore_ascii_case_true in Hk. congruence.
  - destruct (decide (header_named n kv)); [by rewrite !filter_cons_True, IH|by rewrite !filter_cons_False, IH].
Qed.

Lemma without_content_type_none hs : filter (header_named b#"content-type") (without_content_type hs) = [].
Proof.
  unfold without_content_type. induction hs as [|kv hs IH]; [done|]. cbn [List.filter].
  destruct (eq_ignore_ascii_case (fst kv) b#"content-type") eqn:E; cbn [negb]; [done|].
  rewrite filter_cons_False; [done|]. unfold header_named. by rewrite E.
Qed.

Lemma reject_content_encoding_without hs :
  reject_content_encoding hs = Ok tt → reject_content_encoding (without_content_type hs) = Ok tt.
Proof.
  unfold reject_content_encoding. rewrite !for_each_Ok, !Forall_forall. intros HF kv Hkv. apply HF.
  apply list_elem_of_In in Hkv. apply list_elem_of_In. by apply filter_In in Hkv as [? _].
Qed.

(** ** Properties *)

(** An acknowledgement is an authorized statement about one request. When a bodyless 202
    is accepted, it has the status 202, no content and no content type; its covered headers
    carry the evidence handle of this very request and a credential that verifies under the
    key the trust seam resolves for the issuer it names, fresh, in scope, of an accepted epoch
    and not revoked; the response signature covers status, digest, both headers and the
    request, verifies strictly under the key the credential delegates to, and names that key,
    as does the server signer the credential is scoped to; and the product is built from
    exactly those claims. *)
Lemma acknowledgement_sound `{Base64, Sha2, Ed25519, SerdeJson, !Serde DelegationHeader, !Serde DelegationClaims}
    response request verifier expect is_revoked now ack :
  verify_delegated_accepted_202 response request verifier expect is_revoked now = Ok ack →
  ∃ credential header claims root key ev cs p base sig,
    resp_status response = STATUS_ACCEPTED ∧ resp_body response = [] ∧
    filter (header_named b#"content-type") (resp_headers response) = [] ∧
    bodyless_request_evidence_of request = Ok ev ∧
    required_header (resp_headers response) MCP_RE_REQUEST_EVIDENCE_HEADER = Ok (digest_value ev) ∧
    single_header (resp_headers response) MCP_RE_DELEGATION_HEADER = Ok (Some credential) ∧
    credential_signed_by (ra_verification_key root) credential header claims ∧ header_names header claims ∧
    v_resolve_actor verifier (dc_issuer_kid claims) SlotResponse = Resolved root ∧ ra_slot root = SlotResponse ∧
    delegation_fresh claims (ack_params expect (dc_mcp_re_server_signer claims) now) ∧
    delegation_in_scope claims (ack_params expect (dc_mcp_re_server_signer claims) now) ∧
    delegation_current claims (ack_params expect (dc_mcp_re_server_signer claims) now) is_revoked ∧
    delegated_key claims = Ok key ∧
    Forall (λ n, component_new n ∈ cs) BODYLESS_DELEGATED_RESPONSE_COMPONENTS ∧
    Forall (λ n, component_req n ∈ cs) REQUIRED_RESPONSE_REQ_COMPONENTS ∧
    p_keyid p = Some (dc_delegated_kid claims) ∧
    unescape_actor_field <$> last (split_char ":" (dc_mcp_re_server_signer claims)) = Some (dc_delegated_kid claims) ∧
    signature_base cs p (SourceResponse response request) = Ok base ∧
    verify_strict (vk_inner key) base sig = true ∧
    ack = established (verified_of claims key).
Proof.
  unfold verify_delegated_accepted_202. intros Hv.
  destruct (check_envelope response request) as [[]|] eqn:Henv; [|done].
  destruct (read_credential (resp_headers response)) as [credential|] eqn:Hcred; [|done].
  destruct (check_coverage _ _ _) as [[[parsed key_id] alg]|] eqn:Hcov; [|done].
  destruct (verify_credential _ _ _ _ _) as [[vd signer]|] eqn:Hvc; [|done]. inv_ok.
  apply verify_credential_Ok in Hvc as (_ & header & claims & root & key & Hs & Hn & Hr & Hsl & Hf & Hsc & Hcu & Hk & ->).
  assert (dc_mcp_re_server_signer claims = signer) as <- by apply Hsc.
  unfold check_envelope in Henv. unfold read_credential in Hcred. unfold check_coverage in Hcov.
  unfold check_scope_names_the_signing_key in *. inv_ok. bool_prop. str_prop.
  repeat match goal with
  | Hq : require_bodyless _ _ = Ok _ |- _ => apply require_bodyless_Ok in Hq as [Hct Hbody]
  | Hq : check_request_evidence _ _ = Ok _ |- _ => apply check_request_evidence_Ok in Hq as (ev & Hev & Hh)
  | Hq : require_components _ _ _ = Ok _ |- _ => apply require_components_Ok in Hq as [Hq1 Hq2]
  | Hp : check_params _ _ _ _ = Ok _ |- _ => apply check_params_Ok in Hp as (_ & _ & _ & _ & _ & _ & _ & Hkid)
  | Hw : verify_under _ _ _ _ _ = Ok _ |- _ =>
      apply verify_under_Ok in Hw; apply verify_ed25519_with_Ok in Hw as (sig & _ & _ & Hstrict)
  end. simpl in *. subst.
  eexists credential, header, claims, root, key, ev, _, _, _, sig. split_and!; try eassumption; try done; try congruence.
  match goal with Hl : last _ = Some _ |- _ => rewrite Hl end. simpl. congruence.
Qed.

(** An acknowledgement acknowledges one transmission. If one 202 is accepted for two
    requests, by whatever verifiers and whenever, the two requests carry the same signature
    parameters, nonce included, over the same components with the same values: one signature
    base; unless two different bases collide under SHA-256. *)
Lemma acknowledgement_binds_transmission `{Base64Laws, Sha2, Ed25519, SerdeJson,
    !Serde DelegationHeader, !Serde DelegationClaims}
    response request request' verifier verifier' expect expect' is_revoked is_revoked' now now' ack ack' :
  verify_delegated_accepted_202 response request verifier expect is_revoked now = Ok ack →
  verify_delegated_accepted_202 response request' verifier' expect' is_revoked' now' = Ok ack' →
  ∃ parsed parsed' base base',
    parse_signature_input_for (req_headers request) REQUEST_LABEL b#"request signature-input" = Ok parsed ∧
    parse_signature_input_for (req_headers request') REQUEST_LABEL b#"request signature-input" = Ok parsed' ∧
    signature_base (psi_components parsed) (psi_params parsed) (SourceRequest request) = Ok base ∧
    signature_base (psi_components parsed') (psi_params parsed') (SourceRequest request') = Ok base' ∧
    ((base = base' ∧ parsed = parsed' ∧
      Forall (λ c, component_value c (SourceRequest request) = component_value c (SourceRequest request'))
        (psi_components parsed))
     ∨ collides (labeled_preimage EVIDENCE_LABEL_REQUEST base) (labeled_preimage EVIDENCE_LABEL_REQUEST base')).
Proof.
  intros Hv Hv'. assert (∀ r v e i n a, verify_delegated_accepted_202 response r v e i n = Ok a →
    ∃ parsed base, parse_signature_input_for (req_headers r) REQUEST_LABEL b#"request signature-input" = Ok parsed ∧
      signature_base (psi_components parsed) (psi_params parsed) (SourceRequest r) = Ok base ∧
      required_header (resp_headers response) MCP_RE_REQUEST_EVIDENCE_HEADER =
        Ok (digest_value (from_signature_base base))) as Hev.
  { intros r v e i n a Hok. unfold verify_delegated_accepted_202 in Hok.
    destruct (check_envelope response r) as [u|] eqn:Henv; [|done]. unfold check_envelope in Henv. inv_ok.
    apply check_request_evidence_Ok in Henv as (ev & Hev & Hh). unfold bodyless_request_evidence_of in Hev. inv_ok.
    eauto 10. }
  destruct (Hev _ _ _ _ _ _ Hv) as (parsed & base & Hp & Hb & Hh).
  destruct (Hev _ _ _ _ _ _ Hv') as (parsed' & base' & Hp' & Hb' & Hh').
  exists parsed, parsed', base, base'. do 4 (split; [done|]). rewrite Hh in Hh'. injection Hh' as Hd.
  destruct evidence_labels_no_NUL as [Hno _].
  apply labeled_digest_binds in Hd as [[_ <-]|?]; [left|by right|done..]. split; [done|].
  unfold parse_signature_input_for in Hp, Hp'. inv_ok.
  apply parse_signature_input_wf in Hp as (Hk & _ & Hr), Hp' as (Hk' & _ & Hr').
  destruct (signature_base_inj _ _ _ _ _ _ _ Hb Hb' Hk Hk' Hr Hr') as (Hc & Hpar & Hvals).
  split; [|done]. destruct parsed, parsed'. by simplify_eq/=.
Qed.

(** The verifier accepts the bodyless request the signer signs, and it has no content. If
    signing succeeds, the signed request has an empty body and no content type and passes under
    every policy that admits its window and its protocol version, for every resolver that maps
    the key id to the signer's public key in the request slot, with the handle signing
    returned; whatever content the request had before is not part of it. *)
Lemma signed_bodyless_request_verifies `{Base64Laws, Sha2, Ed25519Laws}
    r key kid created expires nonce r' ev resolve_actor policy now actor :
  sign_bodyless_request r key kid created expires nonce = (r', Ok ev) →
  is_i64 created ∧ is_i64 expires →
  match vp_mcp_transport policy with Some t => enforce_bodyless t r = Ok tt | None => True end →
  accepted_algorithm policy ALG_ED25519 = Some Ed25519Alg →
  window_admits created expires now (vp_max_clock_skew policy) = true →
  saturating_sub expires created ≤ vp_max_signature_validity policy →
  resolve_actor kid SlotRequest = Resolved actor → ra_slot actor = SlotRequest →
  ra_verification_key actor = SigningKey_public_key key →
  verify_bodyless_request r' resolve_actor policy now = Ok (actor, ev) ∧ req_body r' = [] ∧
  filter (header_named b#"content-type") (req_headers r') = [].
Proof.
  intros Hs Hr Htr Halg Hwin Hval Hres Hslot Hkey. unfold sign_bodyless_request in Hs.
  destruct (reject_content_encoding (req_headers r)) as [[]|] eqn:Henc; [|done].
  set (hs1 := set_header (without_content_type _) _ _) in *. set (r1 := with_req_headers _ hs1) in *.
  destruct (conditional_request_components (req_headers r1)) as [cond|] eqn:Hcond; [|done].
  set (cs := map component_new BODYLESS_REQUEST_COMPONENTS ++ cond) in *.
  destruct (signature_base cs _ (SourceRequest r1)) as [base|] eqn:Hb; [|done].
  destruct (emit _ _ _ _ _ _) as [hs2 [[]|]] eqn:He; [|done]. injection Hs as <- <-.
  destruct (covered_set_Ok BODYLESS_REQUEST_COMPONENTS _ _ ltac:(by repeat constructor) Hcond)
    as (Hk & Hnd & Hnreq & Hreq & Hcov & Hsub). fold cs in Hk, Hnd, Hnreq, Hreq, Hcov, Hsub.
  destruct (emitted_parts _ _ _ _ _ _ _ He ltac:(by left) Hr Hk Hnd) as (Hparse & Hsig & Hsame & Hrej).
  assert (∀ n, eq_ignore_ascii_case b#"Content-Digest" n = false → eq_ignore_ascii_case b#"Signature-Input" n = false →
    eq_ignore_ascii_case b#"Signature" n = false → same_header n hs2 (without_content_type (req_headers r))) as Hkeep.
  { intros n Hn1 Hn2 Hn3. unfold same_header. rewrite (Hsame n Hn2 Hn3). by apply set_header_other. }
  assert (filter (header_named b#"content-type") hs2 = []) as Hct.
  { rewrite (Hkeep b#"content-type") by done. apply without_content_type_none. }
  split_and!; [|done|exact Hct]. unfold verify_bodyless_request. cbn [req_headers req_body with_req_headers r1 with_req_body].
  rewrite Hrej by (apply reject_content_encoding_set, reject_content_encoding_without; done).
  rewrite (proj2 (require_bodyless_Ok hs2 [] tt)) by done.
  rewrite (proj2 (required_header_Ok hs2 b#"content-digest" (content_digest_sha256 []))).
  2:{ exists b#"Content-Digest". rewrite Hsame by done.
      apply (set_header_named _ b#"content-digest" b#"Content-Digest"). }
  rewrite verify_content_digest_self, Hparse. cbn [psi_components psi_params].
  rewrite (proj2 (require_components_Ok cs _ [] tt)) by (split; [done|constructor]).
  rewrite (none_req cs Hnreq).
  assert (existsb (λ c, bytes_eqb (cc_name c) b#"content-type") cs = false) as ->.
  { apply not_true_is_false. rewrite existsb_elem. intros (c & Hc & Hn%bytes_eqb_true). clear -Hc Hn Hsub.
    assert (c ∈ map component_new (BODYLESS_REQUEST_COMPONENTS ++ conditionally_covered_request_headers)) as Hin
      by (eapply elem_of_submseteq; [exact Hc|by apply sublist_submseteq]).
    clear Hc. revert c Hin Hn. apply (proj1 (Forall_forall (λ c, cc_name c ≠ b#"content-type") _)). by repeat constructor. }
  rewrite (conditional_coverage_same hs1 hs2 cs); [|intros n Hn|exact Hcov].
  2:{ destruct (conditional_not_written n Hn) as (? & ? & ? & _). by apply Hsame. }
  rewrite (proj2 (check_params_Ok (params_for kid created expires (Some nonce)) policy now true
    created expires nonce kid Ed25519Alg)) by (split_and!; eauto).
  unfold resolve_actor_for_slot. rewrite Hres, bool_decide_true by done. cbn [negb].
  rewrite (signature_base_same _ _ _ (SourceRequest r1)), Hb.
  2:{ eapply Forall_impl; [exact Hk|]. intros c Hkc. simpl. destruct (known_not_signature c Hkc) as [Hn1 Hn2].
      apply component_value_same_request; [done|done|]. by apply Hsame. }
  rewrite Hsig, Hkey, verify_local.
  assert (match vp_mcp_transport policy with
          | Some t => enforce_bodyless t (with_req_headers r1 hs2)
          | None => Ok tt end = Ok tt) as ->; [|done].
  destruct (vp_mcp_transport policy) as [t|]; [|done]. rewrite <-Htr. unfold enforce_bodyless.
  cbn [req_headers with_req_headers]. rewrite (single_header_same MCP_PROTOCOL_VERSION_HEADER hs2 (req_headers r)); [done|].
  unfold same_header. rewrite Hkeep by done. by apply without_content_type_other.
Qed.

Lemma delegated_202_components_known :
  Forall known_component delegated_202_components ∧ NoDup delegated_202_components.
Proof.
  split; [|apply (bool_decide_unpack _); vm_compute; exact I].
  apply Forall_forall. intros c Hc. apply existsb_bytes_eqb.
  revert c Hc. apply Forall_forall. by repeat constructor.
Qed.

(** The client accepts the acknowledgement the server signs. If signing a 202 for a request
    succeeds with a credential the verifier accepts, which delegates to the signing key under
    the key id of the signature and of the scoped signer, then the 202 is accepted for that
    request under every policy that admits its window, and the product is that delegation. *)
Lemma signed_acknowledgement_verifies `{Base64Laws, Sha2, Ed25519Laws, SerdeJson,
    !Serde DelegationHeader, !Serde DelegationClaims}
    request credential key kid created expires response verifier expect is_revoked now vd signer :
  sign_delegated_accepted_202 request credential key kid created expires = Ok response →
  is_i64 created ∧ is_i64 expires →
  accepted_algorithm (v_policy verifier) ALG_ED25519 = Some Ed25519Alg →
  window_admits created expires now (vp_max_clock_skew (v_policy verifier)) = true →
  saturating_sub expires created ≤ vp_max_signature_validity (v_policy verifier) →
  verify_credential credential verifier expect is_revoked now = Ok (vd, actor_id signer) →
  ai_keyid signer = kid → vd_delegated_kid vd = kid → vd_delegated_key vd = SigningKey_public_key key →
  verify_delegated_accepted_202 response request verifier expect is_revoked now = Ok (established vd).
Proof.
  intros Hs Hr Halg Hwin Hval Hcred Hkid Hvk Hkey. unfold sign_delegated_accepted_202 in Hs.
  destruct (_ <? _) eqn:Hlen; [done|]. unfold request_evidence_header in Hs.
  destruct (bodyless_request_evidence_of request) as [ev|] eqn:Hev; [|done].
  set (hs1 := [_; _; _]) in Hs. set (s1 := {| resp_status := _; resp_headers := hs1; resp_body := [] |}) in Hs.
  destruct (signature_base _ _ (SourceResponse s1 request)) as [base|] eqn:Hb; [|done].
  destruct (emit _ _ _ _ _ _) as [hs2 [[]|]] eqn:He; [|done]. injection Hs as <-.
  destruct delegated_202_components_known as [Hk Hnd].
  destruct (emitted_parts _ _ _ _ _ _ _ He ltac:(by right) Hr Hk Hnd) as (Hparse & Hsig & Hsame & Hrej).
  change (resp_headers s1) with hs1 in Hsame.
  unfold verify_delegated_accepted_202, check_envelope. cbn [resp_headers resp_body resp_status with_resp_headers s1].
  rewrite Hrej by done. rewrite (proj2 (require_bodyless_Ok hs2 [] tt)) by (split; [by rewrite Hsame|done]).
  rewrite (proj2 (required_header_Ok hs2 b#"content-digest" (content_digest_sha256 [])))
    by (exists b#"Content-Digest"; by rewrite Hsame). cbn [negb map_err Z.eqb STATUS_ACCEPTED].
  rewrite verify_content_digest_self.
  rewrite (proj2 (check_request_evidence_Ok hs2 request tt)).
  2:{ exists ev. split; [done|]. apply required_header_Ok. exists MCP_RE_REQUEST_EVIDENCE_HEADER. by rewrite Hsame. }
  unfold read_credential. rewrite (single_header_same _ _ _ (Hsame MCP_RE_DELEGATION_HEADER eq_refl eq_refl)).
  assert (single_header hs1 MCP_RE_DELEGATION_HEADER = Ok (Some credential)) as -> by done. cbn [ok_or].
  rewrite Hlen. unfold check_coverage. rewrite Hparse. cbn [psi_components psi_params].
  rewrite (proj2 (require_components_Ok delegated_202_components _ _ tt)).
  2:{ split; apply Forall_forall; intros n Hn; apply elem_of_app; [left|right]; apply list_elem_of_fmap; eauto. }
  assert (existsb (λ c, negb (cc_req c) && bytes_eqb (cc_name c) b#"content-type") delegated_202_components = false) as -> by done.
  rewrite (proj2 (check_params_Ok (params_for kid created expires None) (v_policy verifier) now false
    created expires [] kid Ed25519Alg)) by (split_and!; eauto).
  rewrite Hcred, Hvk. rewrite (proj2 (check_scope_names_actor kid signer kid tt)) by done. cbn [psi_components psi_params].
  rewrite (signature_base_same _ _ _ (SourceResponse s1 request)), Hb.
  2:{ eapply Forall_impl; [exact Hk|]. intros c Hkc. simpl. destruct (known_not_signature c Hkc) as [Hn1 Hn2].
      apply component_value_same_response; [done|]. intros _. by apply Hsame. }
  by rewrite Hsig, Hkey, verify_local.
Qed.

(** ** Witnesses *)

Import Instances.

(** Claims as an object with the one member that is read on its own. *)
#[local] Instance ack_claims_serde : Serde DelegationClaims := serde_through
  (λ v, if bool_decide (json_get v b#"mcp_re_server_signer" ≫= as_str = Some (actor_id w_signer))
        then Some w_claims else None)
  (λ c, if bool_decide (c = w_claims)
        then Some (Object {[b#"mcp_re_server_signer" := JString (actor_id w_signer)]}) else None).
#[local] Instance ack_header_serde : Serde DelegationHeader := one_value_serde w_header b#"h".

Definition w_ack_jws : bytes := Eval vm_compute in default [] (issue_delegation_credential w_key w_header w_claims).
Definition w_ack_request : HttpRequest * Result RequestEvidence HttpProfileError :=
  Eval vm_compute in sign_bodyless_request w_request w_key b#"k1" 100 160 b#"n1".
Definition w_ack_evidence : RequestEvidence :=
  match snd w_ack_request with Ok ev => ev | Err _ => {| digest_alg := []; digest_value := [] |} end.

(** The acknowledgement of a request with content. *)
Definition w_ack_response : HttpResponse :=
  Eval vm_compute in
  match sign_delegated_accepted_202 (fst w_signed) w_ack_jws w_dkey b#"d1" 100 160 with
  | Ok s => s
  | Err _ => {| resp_status := 0; resp_headers := []; resp_body := [] |}
  end.
Definition w_ack_verifier : Verifier := {| v_policy := VerifierPolicy_default; v_resolve_actor := w_resolver |}.
