(* ===== verification/Custody.v ===== *)
(** * [mcp-re-http-profile/src/custody]

    The custody of delegated response-signing keys: a state machine that mints a key, asks
    the root to issue a credential over it, rotates it inside an overlap window, holds off a
    root that declines and fails closed once the last key has expired. [key_window.rs],
    [issuance_terms.rs], [active_key.rs] and [mod.rs].

    The closures [Issue] and [Factory] are [FnMut]: each is a function over a state of its
    own, kept in the custody. The clock is an argument of every operation and may go
    backwards between calls. *)

From S2P Require Import Prelude.
From S2P Require Import RustStr.
From S2P Require Import Externals.
From S2P Require Import Concrete.
From S2P Require Import CoreError.
From S2P Require Import CoreResolver.
From S2P Require Import HttpMessage.
From S2P Require Import SigBase.
From S2P Require Import SigInput.
From S2P Require Import SigCanonical.
From S2P Require Import Policy.
From S2P Require Import Blocks.
From S2P Require Import Body.
From S2P Require Import Floor.
From S2P Require Import Sign.
From S2P Require Import Full.
From S2P Require Import Delegation.

(** ** [key_window.rs] *)

Inductive KeyWindowError : Type := NonPositiveOverlap | OverlapNotInsideTtl.

Record DelegatedKeyWindow := { kw_ttl : Z; kw_overlap : Z }.

Definition DelegatedKeyWindow_of (ttl overlap : Z) : Result DelegatedKeyWindow KeyWindowError :=
  if overlap <=? 0 then Err NonPositiveOverlap
  else if ttl <=? overlap then Err OverlapNotInsideTtl
  else Ok {| kw_ttl := ttl; kw_overlap := overlap |}.

(** ** [mod.rs], the data *)

Inductive CustodyError : Type := FailClosedIssuance | SignError (e : HttpProfileError).

Record KeyLifecycleEvent := {
  kle_event_type : bytes;
  kle_delegated_kid : bytes;
  kle_issuer_kid : bytes;
  kle_nbf : Z;
  kle_exp : Z;
  kle_jti : bytes;
  kle_at : Z;
}.

Record CustodyConfig := {
  cc_issuer_kid : bytes;
  cc_iss : bytes;
  cc_profile : bytes;
  cc_aud : bytes;
  cc_audience_hash : bytes;
  cc_trust_epoch : bytes;
  cc_server_role : bytes;
  cc_server_trust_domain : bytes;
  cc_server_subject : bytes;
  cc_window : DelegatedKeyWindow;
}.

Definition with_trust_epoch (cfg : CustodyConfig) (epoch : bytes) : CustodyConfig :=
  {| cc_issuer_kid := cc_issuer_kid cfg; cc_iss := cc_iss cfg; cc_profile := cc_profile cfg;
     cc_aud := cc_aud cfg; cc_audience_hash := cc_audience_hash cfg; cc_trust_epoch := epoch;
     cc_server_role := cc_server_role cfg; cc_server_trust_domain := cc_server_trust_domain cfg;
     cc_server_subject := cc_server_subject cfg; cc_window := cc_window cfg |}.

(** ** [issuance_terms.rs] *)

Definition ISSUANCE_ATTEMPTS_PER_OVERLAP : Z := 10.
Definition MIN_ISSUANCE_RETRY_SECS : Z := 1.

Definition rotation_due (exp overlap now : Z) : bool :=
  match checked_sub exp overlap with Some at_ => at_ <=? now | None => true end.

(** [Option::zip] of the expiry and the next ordinal. *)
Definition mintable (now ttl counter : Z) : Result (Z * Z) CustodyError :=
  ok_or (match checked_add now ttl, checked_u64 (counter + 1) with
         | Some exp, Some next => Some (exp, next)
         | _, _ => None
         end) FailClosedIssuance.

Definition signature_valid_until (now ttl exp : Z) : Z :=
  match checked_add now ttl with Some until => Z.min until exp | None => exp end.

Definition retry_interval (overlap : Z) : Z :=
  Z.max (Z.quot overlap ISSUANCE_ATTEMPTS_PER_OVERLAP) MIN_ISSUANCE_RETRY_SECS.

Definition next_attempt_after (now overlap : Z) : Z := saturating_add now (retry_interval overlap).

(** ** [active_key.rs] *)

Record ActiveDelegatedKey `{Ed25519} := {
  ak_key : SigningKey;
  ak_server_signer : ActorIdentity;
  ak_credential : bytes;
  ak_delegated_kid : bytes;
  ak_jti : bytes;
  ak_nbf : Z;
  ak_exp : Z;
}.

(** [as_requested]: the requested claims with the root's own [iat], [nbf] and [exp]. *)
Definition with_window_of (requested claims : DelegationClaims) : DelegationClaims :=
  {| dc_iss := dc_iss requested; dc_iat := dc_iat claims; dc_nbf := dc_nbf claims;
     dc_exp := dc_exp claims; dc_jti := dc_jti requested; dc_aud := dc_aud requested;
     dc_mcp_re_profile := dc_mcp_re_profile requested;
     dc_mcp_re_audience_hash := dc_mcp_re_audience_hash requested;
     dc_mcp_re_server_signer := dc_mcp_re_server_signer requested;
     dc_mcp_re_key_use := dc_mcp_re_key_use requested;
     dc_delegated_kid := dc_delegated_kid requested; dc_issuer_kid := dc_issuer_kid requested;
     dc_trust_epoch := dc_trust_epoch requested; dc_cnf := dc_cnf requested |}.

Section custody.
Context `{Base64, Sha2, Ed25519, SerdeJson}.
Context `{!Serde DelegationHeader, !Serde DelegationClaims}.

Definition ActiveDelegatedKey_issued (key : SigningKey) (server_signer : ActorIdentity)
    (requested : DelegationHeader * DelegationClaims) (credential : bytes)
  : Result ActiveDelegatedKey HttpProfileError :=
  let '(requested_header, requested_claims) := requested in
  let? (header, claims) := parse_credential credential in
  let? attested := delegated_key claims in
  if negb (bytes_eqb (VerificationKey_to_bytes attested)
                     (VerificationKey_to_bytes (SigningKey_public_key key)))
  then Err HPE.DelegationCredentialInvalid
  else if negb (bytes_eqb (dc_mcp_re_server_signer claims) (actor_id server_signer))
          || negb (bytes_eqb (ai_keyid server_signer) (dc_delegated_kid claims))
  then Err HPE.DelegationCredentialInvalid
  else if negb (bool_decide (header = requested_header))
          || negb (bool_decide (claims = with_window_of requested_claims claims))
  then Err HPE.DelegationCredentialInvalid
  else if dc_exp claims <=? dc_nbf claims then Err HPE.DelegationCredentialInvalid
  else Ok {| ak_key := key; ak_server_signer := server_signer; ak_credential := credential;
             ak_delegated_kid := dc_delegated_kid claims; ak_jti := dc_jti claims;
             ak_nbf := dc_nbf claims; ak_exp := dc_exp claims |}.

(** ** [mod.rs], the state machine *)

Context {I F : Type} (issue : DelegationHeader → DelegationClaims → I → I * option bytes)
  (factory : F → F * SigningKey).

Record DelegatedSigningCustody := {
  cs_cfg : CustodyConfig;
  cs_issue : I;
  cs_factory : F;
  cs_active : option ActiveDelegatedKey;
  cs_audit : list KeyLifecycleEvent;
  cs_root_invocations : Z;
  cs_counter : Z;
  cs_next_attempt_at : option Z;
}.

(** Field updates. *)
Definition set_active (st : DelegatedSigningCustody) (a : option ActiveDelegatedKey) :=
  {| cs_cfg := cs_cfg st; cs_issue := cs_issue st; cs_factory := cs_factory st; cs_active := a;
     cs_audit := cs_audit st; cs_root_invocations := cs_root_invocations st;
     cs_counter := cs_counter st; cs_next_attempt_at := cs_next_attempt_at st |}.
Definition push_audit (st : DelegatedSigningCustody) (e : KeyLifecycleEvent) :=
  {| cs_cfg := cs_cfg st; cs_issue := cs_issue st; cs_factory := cs_factory st;
     cs_active := cs_active st; cs_audit := cs_audit st ++ [e];
     cs_root_invocations := cs_root_invocations st; cs_counter := cs_counter st;
     cs_next_attempt_at := cs_next_attempt_at st |}.
Definition set_next_attempt (st : DelegatedSigningCustody) (t : option Z) :=
  {| cs_cfg := cs_cfg st; cs_issue := cs_issue st; cs_factory := cs_factory st;
     cs_active := cs_active st; cs_audit := cs_audit st;
     cs_root_invocations := cs_root_invocations st; cs_counter := cs_counter st;
     cs_next_attempt_at := t |}.
(** The factory and the root were called: their states, the ordinal and the call count. *)
Definition spend (st : DelegatedSigningCustody) (i : I) (f : F) (counter : Z) :=
  {| cs_cfg := cs_cfg st; cs_issue := i; cs_factory := f; cs_active := cs_active st;
     cs_audit := cs_audit st; cs_root_invocations := clamp_u64 (cs_root_invocations st + 1);
     cs_counter := counter; cs_next_attempt_at := cs_next_attempt_at st |}.

Definition custody_new (cfg : CustodyConfig) (i : I) (f : F) : DelegatedSigningCustody :=
  {| cs_cfg := cfg; cs_issue := i; cs_factory := f; cs_active := None; cs_audit := [];
     cs_root_invocations := 0; cs_counter := 0; cs_next_attempt_at := None |}.

Definition active_kid (st : DelegatedSigningCustody) : option bytes := ak_delegated_kid <$> cs_active st.
Definition active_snapshot (st : DelegatedSigningCustody) : option ActiveDelegatedKey := cs_active st.

Definition set_trust_epoch (st : DelegatedSigningCustody) (epoch : bytes) : DelegatedSigningCustody :=
  {| cs_cfg := with_trust_epoch (cs_cfg st) epoch; cs_issue := cs_issue st;
     cs_factory := cs_factory st; cs_active := cs_active st; cs_audit := cs_audit st;
     cs_root_invocations := cs_root_invocations st; cs_counter := cs_counter st;
     cs_next_attempt_at := cs_next_attempt_at st |}.

Definition retired (st : DelegatedSigningCustody) (a : ActiveDelegatedKey) (now : Z) : KeyLifecycleEvent :=
  {| kle_event_type := DELEGATED_KEY_RETIRED; kle_delegated_kid := ak_delegated_kid a;
     kle_issuer_kid := cc_issuer_kid (cs_cfg st); kle_nbf := ak_nbf a; kle_exp := ak_exp a;
     kle_jti := ak_jti a; kle_at := now |}.

(** [format!("{}#{}#{}", issuer_kid, delegated_kid, counter)]. *)
Definition jti_of (issuer_kid delegated_kid : bytes) (counter : Z) : bytes :=
  issuer_kid ++ b#"#" ++ delegated_kid ++ b#"#" ++ fmt_nat counter.

Definition custody_build (cfg : CustodyConfig) (counter : Z) (now exp : Z) (key : SigningKey)
  : ActorIdentity * DelegationHeader * DelegationClaims :=
  let public_key_b64url := VerificationKey_to_b64url (SigningKey_public_key key) in
  let delegated_kid := jwk_thumbprint_ed25519 public_key_b64url in
  let server_signer :=
    {| ai_role := cc_server_role cfg; ai_trust_domain := cc_server_trust_domain cfg;
       ai_subject := cc_server_subject cfg; ai_keyid := delegated_kid |} in
  let header := {| dh_typ := DELEGATION_TYP; dh_alg := DELEGATION_ALG; dh_kid := cc_issuer_kid cfg |} in
  let claims :=
    {| dc_iss := cc_iss cfg; dc_iat := now; dc_nbf := now; dc_exp := exp;
       dc_jti := jti_of (cc_issuer_kid cfg) delegated_kid counter; dc_aud := One (cc_aud cfg);
       dc_mcp_re_profile := cc_profile cfg; dc_mcp_re_audience_hash := cc_audience_hash cfg;
       dc_mcp_re_server_signer := actor_id server_signer;
       dc_mcp_re_key_use := KEY_USE_RESPONSE_SIGNING; dc_delegated_kid := delegated_kid;
       dc_issuer_kid := cc_issuer_kid cfg; dc_trust_epoch := cc_trust_epoch cfg;
       dc_cnf := {| cnf_jwk := {| jwk_kty := JWK_KTY_OKP; jwk_crv := JWK_CRV_ED25519;
                                  jwk_kid := delegated_kid; jwk_x := public_key_b64url |} |} |} in
  (server_signer, header, claims).

(** The guard [Some(a) if now < a.exp()]. *)
Definition holds_live (st : DelegatedSigningCustody) (now : Z) : bool :=
  match cs_active st with Some a => now <? ak_exp a | None => false end.

Definition adopt (st : DelegatedSigningCustody) (active : ActiveDelegatedKey) (is_rotation : bool) (now : Z)
  : DelegatedSigningCustody :=
  set_active
    (push_audit (set_next_attempt st None)
       {| kle_event_type := if is_rotation then DELEGATED_KEY_ROTATED else DELEGATED_KEY_ISSUED;
          kle_delegated_kid := ak_delegated_kid active;
          kle_issuer_kid := cc_issuer_kid (cs_cfg st); kle_nbf := ak_nbf active;
          kle_exp := ak_exp active; kle_jti := ak_jti active; kle_at := now |})
    (Some active).

Definition hold_off (st : DelegatedSigningCustody) (now : Z)
  : DelegatedSigningCustody * Result unit CustodyError :=
  let st := set_next_attempt st
              (Some (next_attempt_after now (kw_overlap (cc_window (cs_cfg st))))) in
  if holds_live st now then (st, Ok tt)
  else match cs_active st with
       | Some a => (push_audit (set_active st None) (retired st a now), Err FailClosedIssuance)
       | None => (st, Err FailClosedIssuance)
       end.

Definition attempt_issuance (st : DelegatedSigningCustody) (now : Z)
  : DelegatedSigningCustody * Result unit CustodyError :=
  let is_rotation := holds_live st now in
  match mintable now (kw_ttl (cc_window (cs_cfg st))) (cs_counter st) with
  | Err e => (st, Err e)
  | Ok (exp, next_counter) =>
      let '(f, key) := factory (cs_factory st) in
      let '(signer, header, claims) := custody_build (cs_cfg st) next_counter now exp key in
      let '(i, answer) := issue header claims (cs_issue st) in
      let st := spend st i f next_counter in
      match answer ≫= λ credential,
              result_ok (ActiveDelegatedKey_issued key signer (header, claims) credential) with
      | Some active => (adopt st active is_rotation now, Ok tt)
      | None => hold_off st now
      end
  end.

Definition attempt_allowed (st : DelegatedSigningCustody) (now : Z) : bool :=
  match cs_next_attempt_at st with Some at_ => at_ <=? now | None => true end.

Definition issue_if (st : DelegatedSigningCustody) (needs : bool) (now : Z)
  : DelegatedSigningCustody * Result unit CustodyError :=
  let '(st', attempted) :=
    if needs && attempt_allowed st now then attempt_issuance st now else (st, Ok tt) in
  (st', attempted ;? if holds_live st' now then Ok tt else Err FailClosedIssuance).

Definition ensure_active (st : DelegatedSigningCustody) (now : Z)
  : DelegatedSigningCustody * Result unit CustodyError :=
  let needs := match cs_active st with
               | None => true
               | Some a => rotation_due (ak_exp a) (kw_overlap (cc_window (cs_cfg st))) now
               end in
  issue_if st needs now.

Definition issue_now (st : DelegatedSigningCustody) (now : Z)
  : DelegatedSigningCustody * Result unit CustodyError :=
  issue_if (set_next_attempt st None) true now.

Definition reissue (st : DelegatedSigningCustody) (now : Z)
  : DelegatedSigningCustody * Result (option ActiveDelegatedKey) CustodyError :=
  let previous := cs_active st in
  let '(st', issued) := issue_now st now in
  match issued with
  | Err e => (st', Err e)
  | Ok _ =>
      let successor :=
        match cs_active st', previous with
        | Some a, Some p => if negb (bytes_eqb (ak_credential p) (ak_credential a)) then Some a else None
        | a, _ => a
        end in
      match successor, previous with
      | Some _, Some p => (push_audit st' (retired st' p now), Ok successor)
      | _, _ => (st', Ok successor)
      end
  end.

Context `{!Serde HttpResponseEvidenceBlock, F64Carrier}.

Definition custody_sign_response (st : DelegatedSigningCustody) (now : Z) (response : HttpResponse)
    (request : HttpRequest) (request_evidence : RequestEvidence)
  : DelegatedSigningCustody * HttpResponse * Result unit CustodyError :=
  match ensure_active st now with
  | (st', Err e) => (st', response, Err e)
  | (st', Ok _) =>
      match cs_active st' with
      | None => (st', response, Err FailClosedIssuance)
      | Some a =>
          let '(response', signed) :=
            sign_delegated_response_full response request request_evidence (ak_server_signer a)
              (ak_credential a) (ak_key a) (ak_delegated_kid a) now
              (signature_valid_until now (kw_ttl (cc_window (cs_cfg st'))) (ak_exp a)) in
          (st', response', map_err SignError (let? _ := signed in Ok tt))
      end
  end.

(** ** Executions *)

Inductive custody_step : DelegatedSigningCustody → DelegatedSigningCustody → Prop :=
  | step_set_trust_epoch st epoch : custody_step st (set_trust_epoch st epoch)
  | step_ensure_active st now st' r : ensure_active st now = (st', r) → custody_step st st'
  | step_reissue st now st' r : reissue st now = (st', r) → custody_step st st'
  | step_sign_response st now response request ev st' response' r :
      custody_sign_response st now response request ev = (st', response', r) → custody_step st st'.

(** The calls of the serving path, and a run of them. *)
Inductive CustodyCall : Type :=
  | CallEnsure (now : Z)
  | CallSign (now : Z) (response : HttpResponse) (request : HttpRequest) (ev : RequestEvidence).
Definition call_time (c : CustodyCall) : Z := match c with CallEnsure t | CallSign t _ _ _ => t end.
Definition run_call (st : DelegatedSigningCustody) (c : CustodyCall) : DelegatedSigningCustody :=
  match c with
  | CallEnsure now => (ensure_active st now).1
  | CallSign now response request ev => (custody_sign_response st now response request ev).1.1
  end.
Definition run_calls (st : DelegatedSigningCustody) (cs : list CustodyCall) : DelegatedSigningCustody :=
  fold_left run_call cs st.

(** ** The invariant *)

(** [a] is a key the root attested for issuance number [n] of a custody configured as [cfg],
    under some trust epoch: the root returned its credential for exactly the header and
    claims the custody built over this key, and the credential states them unchanged but for
    its window, which is not empty and is the window of [a]. *)
Definition key_attested (cfg : CustodyConfig) (n : Z) (a : ActiveDelegatedKey) : Prop :=
  ∃ epoch now exp i signer header req claims,
    custody_build (with_trust_epoch cfg epoch) n now exp (ak_key a) = (signer, header, req) ∧
    (issue header req i).2 = Some (ak_credential a) ∧
    parse_credential (ak_credential a) = Ok (header, claims) ∧
    claims = with_window_of req claims ∧
    (∃ vk, delegated_key claims = Ok vk ∧
       VerificationKey_to_bytes vk = VerificationKey_to_bytes (SigningKey_public_key (ak_key a))) ∧
    ak_server_signer a = signer ∧ ak_delegated_kid a = dc_delegated_kid claims ∧
    ak_jti a = dc_jti claims ∧ ak_nbf a = dc_nbf claims ∧ ak_exp a = dc_exp claims ∧
    ak_nbf a < ak_exp a.

Definition is_retirement (e : KeyLifecycleEvent) : Prop := kle_event_type e = DELEGATED_KEY_RETIRED.
#[global] Instance is_retirement_dec e : Decision (is_retirement e).
Proof. unfold is_retirement. apply _. Defined.

(** The credential ids the audit log records as issued (or rotated in), and as retired. *)
Definition issued_jtis (audit : list KeyLifecycleEvent) : list bytes :=
  kle_jti <$> filter (λ e, ¬ is_retirement e) audit.
Definition retired_jtis (audit : list KeyLifecycleEvent) : list bytes :=
  kle_jti <$> filter is_retirement audit.

(** A credential id the custody of [issuer_kid] built for one of its first [counter] issuances. *)
Definition spent_jti (issuer_kid : bytes) (counter : Z) (jti : bytes) : Prop :=
  ∃ x n, jti = jti_of issuer_kid (url_encode x) n ∧ 1 ≤ n ≤ counter.

Record custody_inv (st : DelegatedSigningCustody) : Prop := {
  inv_count : cs_root_invocations st = cs_counter st ∧ is_u64 (cs_counter st);
  inv_active a : cs_active st = Some a →
    (∃ n, 1 ≤ n ≤ cs_counter st ∧ key_attested (cs_cfg st) n a) ∧
    ak_jti a ∈ issued_jtis (cs_audit st) ∧ ak_jti a ∉ retired_jtis (cs_audit st);
  inv_spent jti : jti ∈ issued_jtis (cs_audit st) →
    spent_jti (cc_issuer_kid (cs_cfg st)) (cs_counter st) jti;
  inv_issued : NoDup (issued_jtis (cs_audit st));
  inv_retired : NoDup (retired_jtis (cs_audit st));
  inv_retired_issued jti : jti ∈ retired_jtis (cs_audit st) → jti ∈ issued_jtis (cs_audit st);
}.

(** ** What one approach to the root does *)

Lemma key_issued_attested cfg n now exp key signer header req i cred a :
  custody_build cfg n now exp key = (signer, header, req) →
  (issue header req i).2 = Some cred →
  ActiveDelegatedKey_issued key signer (header, req) cred = Ok a →
  key_attested cfg n a ∧ ak_key a = key ∧
  ak_jti a = jti_of (cc_issuer_kid cfg)
    (jwk_thumbprint_ed25519 (VerificationKey_to_b64url (SigningKey_public_key key))) n.
Proof.
  intros Hb Hi Ha. unfold ActiveDelegatedKey_issued in Ha. inv_ok. bool_prop. str_prop. subst.
  match goal with Hw : ?c = with_window_of req ?c |- _ => rename Hw into Hwin, c into claims end.
  split; [|split; [done|]].
  - exists (cc_trust_epoch cfg), now, exp, i, signer, header, req, claims. cbn.
    replace (with_trust_epoch cfg (cc_trust_epoch cfg)) with cfg by by destruct cfg.
    split_and!; try done. by exists v.
  - cbn. rewrite Hwin. unfold custody_build in Hb. by simplify_eq/=.
Qed.

(** The three outcomes of approaching the root. *)
Inductive attempt_outcome (st : DelegatedSigningCustody) (now : Z)
  : DelegatedSigningCustody * Result unit CustodyError → Prop :=
  | attempt_unmintable :
      mintable now (kw_ttl (cc_window (cs_cfg st))) (cs_counter st) = Err FailClosedIssuance →
      attempt_outcome st now (st, Err FailClosedIssuance)
  | attempt_adopted i f a x :
      is_u64 (cs_counter st + 1) → key_attested (cs_cfg st) (cs_counter st + 1) a →
      ak_jti a = jti_of (cc_issuer_kid (cs_cfg st)) (url_encode x) (cs_counter st + 1) →
      attempt_outcome st now (adopt (spend st i f (cs_counter st + 1)) a (holds_live st now) now, Ok tt)
  | attempt_declined i f :
      is_u64 (cs_counter st + 1) →
      attempt_outcome st now (hold_off (spend st i f (cs_counter st + 1)) now).

Lemma mintable_Ok now ttl counter exp next :
  mintable now ttl counter = Ok (exp, next) →
  exp = now + ttl ∧ next = counter + 1 ∧ is_i64 exp ∧ is_u64 next.
Proof.
  unfold mintable, checked_add. intros Hm. inv_ok.
  destruct (checked_i64 _) as [e|] eqn:He; [|done]. apply checked_i64_Some in He as [-> ?].
  destruct (checked_u64 _) as [c|] eqn:Hc; [|done]. apply checked_u64_Some in Hc as [-> ?].
  by simplify_eq.
Qed.

Lemma attempt_issuance_outcome st now : attempt_outcome st now (attempt_issuance st now).
Proof.
  unfold attempt_issuance.
  destruct (mintable _ _ _) as [[exp next]|e] eqn:Hm.
  2:{ assert (e = FailClosedIssuance) as ->; [|by constructor].
      unfold mintable, ok_or in Hm. repeat case_match; by simplify_eq. }
  apply mintable_Ok in Hm as (-> & -> & _ & Hc).
  destruct (factory (cs_factory st)) as [f key].
  destruct (custody_build _ _ _ _ _) as [[signer header] req] eqn:Hb.
  destruct (issue header req (cs_issue st)) as [i answer] eqn:Hi.
  destruct (answer ≫= _) as [a|] eqn:Ha; [|by constructor].
  apply bind_Some in Ha as (cred & -> & Ha).
  destruct (ActiveDelegatedKey_issued _ _ _ _) as [a'|] eqn:Ea; simplify_eq/=.
  eapply key_issued_attested in Ea as (? & ? & ?); [|done|by rewrite Hi].
  by eapply attempt_adopted.
Qed.

Lemma issue_if_outcome st needs now st' r :
  issue_if st needs now = (st', r) →
  (∃ r', attempt_outcome st now (st', r') ∧
     r = (r' ;? if holds_live st' now then Ok tt else Err FailClosedIssuance)) ∨
  (st' = st ∧ needs && attempt_allowed st now = false ∧
     r = if holds_live st now then Ok tt else Err FailClosedIssuance).
Proof.
  unfold issue_if. destruct (needs && attempt_allowed st now).
  - pose proof (attempt_issuance_outcome st now) as Ho.
    destruct (attempt_issuance st now) as [st1 r1]. intros [= <- <-]. left. by exists r1.
  - intros [= <- <-]. by right.
Qed.

(** ** Credential ids *)

Lemma jti_of_inj `{!Base64Laws} issuer x y n m :
  0 ≤ n → 0 ≤ m → jti_of issuer (url_encode x) n = jti_of issuer (url_encode y) m → n = m.
Proof.
  unfold jti_of. intros Hn Hm Hj. apply app_inv_head in Hj. injection Hj as Hj.
  apply app_sep_inj in Hj as [_ Hj]; [|by apply url_encode_no..].
  by apply fmt_nat_inj.
Qed.

Lemma spent_jti_fresh `{!Base64Laws} issuer x counter :
  0 ≤ counter → ¬ spent_jti issuer counter (jti_of issuer (url_encode x) (counter + 1)).
Proof. intros Hc (y & n & Hj & Hn). apply jti_of_inj in Hj; lia. Qed.

Lemma spent_jti_mono issuer c c' jti : c ≤ c' → spent_jti issuer c jti → spent_jti issuer c' jti.
Proof. intros Hc (x & n & -> & Hn). exists x, n. split; [done|lia]. Qed.

Lemma issued_jtis_snoc l e :
  issued_jtis (l ++ [e]) = issued_jtis l ++ (if decide (is_retirement e) then [] else [kle_jti e]).
Proof.
  unfold issued_jtis. rewrite filter_app, fmap_app. f_equal. rewrite filter_cons, filter_nil.
  by destruct (decide (is_retirement e)), (decide (¬ is_retirement e)).
Qed.

Lemma retired_jtis_snoc l e :
  retired_jtis (l ++ [e]) = retired_jtis l ++ (if decide (is_retirement e) then [kle_jti e] else []).
Proof.
  unfold retired_jtis. rewrite filter_app, fmap_app. f_equal. rewrite filter_cons, filter_nil.
  by destruct (decide (is_retirement e)).
Qed.

(** ** Preservation, one state change at a time *)

Lemma inv_new cfg i f : custody_inv (custody_new cfg i f).
Proof.
  split; simpl; [by split; [|i64_lia]|done|..]; [set_solver|constructor|constructor|set_solver].
Qed.

Lemma inv_set_next_attempt st t : custody_inv st → custody_inv (set_next_attempt st t).
Proof. intros []. by split. Qed.

Lemma inv_set_trust_epoch st epoch : custody_inv st → custody_inv (set_trust_epoch st epoch).
Proof. intros []. by split. Qed.

Lemma inv_drop st : custody_inv st → custody_inv (set_active st None).
Proof. intros []. by split. Qed.

Lemma inv_spend st i f :
  custody_inv st → is_u64 (cs_counter st + 1) → custody_inv (spend st i f (cs_counter st + 1)).
Proof.
  intros [[Hr Hc] Ha Hs ? ? ?] Hn. split; simpl; try done.
  - split; [|done]. rewrite Hr. i64_lia.
  - intros a (( n & ? & ?) & ?)%Ha. split; [|done]. exists n. split; [lia|done].
  - intros jti Hj. eapply spent_jti_mono; [|by apply Hs]. lia.
Qed.

Lemma inv_retire st a now :
  custody_inv st → ak_jti a ∈ issued_jtis (cs_audit st) → ak_jti a ∉ retired_jtis (cs_audit st) →
  (∀ b, cs_active st = Some b → ak_jti b ≠ ak_jti a) →
  custody_inv (push_audit st (retired st a now)).
Proof.
  intros [Hc Ha Hs Hi Hr Hri] Hin Hnin Hne. split; simpl; [done|..];
    rewrite ?issued_jtis_snoc, ?retired_jtis_snoc; rewrite ?decide_True by done; rewrite ?app_nil_r; try done.
  - intros b Hb. destruct (Ha b Hb) as (? & ? & ?). specialize (Hne b Hb). set_solver.
  - apply NoDup_app. split_and!; [done|set_solver|apply NoDup_singleton].
  - set_solver.
Qed.

Lemma next_jti_fresh `{!Base64Laws} st a x :
  custody_inv st →
  ak_jti a = jti_of (cc_issuer_kid (cs_cfg st)) (url_encode x) (cs_counter st + 1) →
  ak_jti a ∉ issued_jtis (cs_audit st).
Proof.
  intros Hinv Hj Hin. apply (inv_spent _ Hinv) in Hin. rewrite Hj in Hin. revert Hin.
  apply spent_jti_fresh. destruct (inv_count _ Hinv) as [_ []]. lia.
Qed.

Lemma adopt_audit st a rot now :
  issued_jtis (cs_audit (adopt st a rot now)) = issued_jtis (cs_audit st) ++ [ak_jti a] ∧
  retired_jtis (cs_audit (adopt st a rot now)) = retired_jtis (cs_audit st).
Proof.
  unfold adopt. simpl. rewrite issued_jtis_snoc, retired_jtis_snoc.
  rewrite !decide_False by (unfold is_retirement; simpl; by destruct rot). by rewrite app_nil_r.
Qed.

Lemma inv_adopt `{!Base64Laws} st i f a x rot now :
  custody_inv st → is_u64 (cs_counter st + 1) → key_attested (cs_cfg st) (cs_counter st + 1) a →
  ak_jti a = jti_of (cc_issuer_kid (cs_cfg st)) (url_encode x) (cs_counter st + 1) →
  custody_inv (adopt (spend st i f (cs_counter st + 1)) a rot now).
Proof.
  intros Hinv Hn Hk Hj. pose proof (inv_spend st i f Hinv Hn) as [Hc _ Hs Hi Hr Hri].
  pose proof (next_jti_fresh st a x Hinv Hj) as Hfresh.
  destruct (inv_count _ Hinv) as [_ [? _]].
  destruct (adopt_audit (spend st i f (cs_counter st + 1)) a rot now) as [Hai Har].
  split; rewrite ?Hai, ?Har; simpl in *; try done.
  - intros ? [= <-]. split; [|set_solver]. exists (cs_counter st + 1). split; [lia|done].
  - intros jti [Hin| ->%list_elem_of_singleton]%elem_of_app; [by apply Hs|].
    exists x, (cs_counter st + 1). split; [done|lia].
  - apply NoDup_app. split_and!; [done|set_solver|apply NoDup_singleton].
  - set_solver.
Qed.

Lemma hold_off_Ok st now st' :
  hold_off st now = (st', Ok tt) →
  st' = set_next_attempt st (Some (next_attempt_after now (kw_overlap (cc_window (cs_cfg st))))) ∧
  holds_live st now = true.
Proof.
  unfold hold_off. set (st1 := set_next_attempt _ _).
  change (holds_live st1 now) with (holds_live st now).
  destruct (holds_live st now); [by intros [= <-]|]. by destruct (cs_active st1).
Qed.

Lemma inv_hold_off st now : custody_inv st → custody_inv (hold_off st now).1.
Proof.
  intros Hinv. unfold hold_off. set (st1 := set_next_attempt _ _).
  pose proof (inv_set_next_attempt st _ Hinv : custody_inv st1) as H1'.
  destruct (holds_live st1 now); [done|]. destruct (cs_active st1) as [a|] eqn:Ea; [|done]. simpl.
  destruct (inv_active _ H1' a Ea) as (_ & ? & ?).
  apply (inv_retire (set_active st1 None) a now); [by apply inv_drop|done..].
Qed.

Lemma inv_attempt `{!Base64Laws} st now st' r :
  custody_inv st → attempt_outcome st now (st', r) → custody_inv st'.
Proof.
  intros Hinv Ho. inversion Ho as [| |i f Hn Hh]; subst; [done|by eapply inv_adopt|].
  change st' with ((st', r).1). rewrite <-Hh. by apply inv_hold_off, inv_spend.
Qed.

Lemma inv_issue_if `{!Base64Laws} st needs now st' r :
  custody_inv st → issue_if st needs now = (st', r) → custody_inv st'.
Proof.
  intros Hinv [(r' & Ho & _)|(-> & _)]%issue_if_outcome; [by eapply inv_attempt|done].
Qed.

(** When issuing put another key in service, the one it replaced is an issued and not yet
    retired one, and its credential id is not the successor's. *)
Lemma issue_if_replaced `{!Base64Laws} st needs now st' p a :
  custody_inv st → issue_if st needs now = (st', Ok tt) →
  cs_active st = Some p → cs_active st' = Some a → a ≠ p →
  ak_jti p ∈ issued_jtis (cs_audit st') ∧ ak_jti p ∉ retired_jtis (cs_audit st') ∧ ak_jti a ≠ ak_jti p.
Proof.
  intros Hinv Hi Hp Ha Hne. destruct (inv_active _ Hinv p Hp) as (_ & Hin & Hnin).
  apply issue_if_outcome in Hi as [(r' & Ho & Hr)|(-> & _)]; [|congruence].
  inversion Ho as [|i f b x Hn Hk Hj|i f Hn Hh]; subst; [done|..].
  - injection Ha as ->. pose proof (next_jti_fresh st a x Hinv Hj).
    destruct (adopt_audit (spend st i f (cs_counter st + 1)) a (holds_live st now) now) as [-> ->].
    simpl. split_and!; [set_solver|done|]. by intros Heq; rewrite Heq in *.
  - destruct r' as [[]|]; [|done]. apply hold_off_Ok in Hh as [-> _]. simpl in Ha. congruence.
Qed.

Lemma inv_reissue `{!Base64Laws} st now st' r :
  custody_inv st → reissue st now = (st', r) → custody_inv st'.
Proof.
  intros Hinv. unfold reissue, issue_now.
  destruct (issue_if _ true now) as [st1 r1] eqn:Hi.
  pose proof (inv_issue_if _ _ _ _ _ (inv_set_next_attempt st None Hinv) Hi) as H1'.
  destruct r1 as [[]|]; [|by intros [= <- _]].
  destruct (cs_active st) as [p|] eqn:Hp; [|by destruct (cs_active st1); intros [= <- _]].
  destruct (cs_active st1) as [a|] eqn:Ha; [|by intros [= <- _]].
  destruct (negb _) eqn:Hne; intros [= <- _]; [|done].
  destruct (issue_if_replaced _ _ _ _ p a (inv_set_next_attempt st None Hinv) Hi Hp Ha) as (? & ? & ?).
  - intros ->. by rewrite bytes_eqb_refl in Hne.
  - apply inv_retire; [done..|]. intros b Hb. congruence.
Qed.

Lemma inv_step `{!Base64Laws} st st' : custody_inv st → custody_step st st' → custody_inv st'.
Proof.
  intros Hinv Hs. destruct Hs as [st epoch|st now st' r Hs|st now st' r Hs|st now resp req ev st' resp' r Hs].
  - by apply inv_set_trust_epoch.
  - by eapply inv_issue_if.
  - by eapply inv_reissue.
  - unfold custody_sign_response in Hs. destruct (ensure_active st now) as [st1 r1] eqn:He.
    assert (st' = st1) as -> by (repeat case_match; by simplify_eq). by eapply inv_issue_if.
Qed.

Lemma inv_reachable `{!Base64Laws} cfg i f st :
  rtc custody_step (custody_new cfg i f) st → custody_inv st.
Proof.
  intros Hr. assert (∀ st0, custody_inv st0 → rtc custody_step st0 st → custody_inv st) as Hgen.
  { intros st0 H0' Hr'. induction Hr'; [done|]. eauto using inv_step. }
  eapply Hgen; [apply inv_new|done].
Qed.

(** ** A declining root *)

Definition declines : Prop := ∀ header claims i, (issue header claims i).2 = None.

Lemma attempt_declined_state st now :
  declines →
  (attempt_issuance st now = (st, Err FailClosedIssuance) ∧
     mintable now (kw_ttl (cc_window (cs_cfg st))) (cs_counter st) = Err FailClosedIssuance) ∨
  ∃ i f, attempt_issuance st now = hold_off (spend st i f (cs_counter st + 1)) now.
Proof.
  intros Hd. unfold attempt_issuance. destruct (mintable _ _ _) as [[exp next]|[]] eqn:Hm.
  - right. apply mintable_Ok in Hm as (-> & -> & _). destruct (factory _) as [f key].
    destruct (custody_build _ _ _ _ _) as [[signer header] req].
    pose proof (Hd header req (cs_issue st)) as Hn. destruct (issue _ _ _) as [i answer].
    simpl in Hn. subst answer. by exists i, f.
  - by left.
  - unfold mintable, ok_or in Hm. repeat case_match; by simplify_eq.
Qed.

Lemma hold_off_state st now st' r :
  hold_off st now = (st', r) →
  cs_cfg st' = cs_cfg st ∧ cs_root_invocations st' = cs_root_invocations st ∧
  cs_next_attempt_at st' = Some (next_attempt_after now (kw_overlap (cc_window (cs_cfg st)))).
Proof. unfold hold_off. intros Hh. repeat case_match; by simplify_eq. Qed.

Lemma run_call_ensure st c : run_call st c = (ensure_active st (call_time c)).1.
Proof.
  destruct c as [now|now resp req ev]; [done|]. simpl. unfold custody_sign_response.
  destruct (ensure_active st now) as [st' [[]|e]]; [|done]. destruct (cs_active st'); [|done].
  by destruct (sign_delegated_response_full _ _ _ _ _ _ _ _ _).
Qed.

(** Under a declining root a call either leaves the custody alone, or was allowed to approach
    the root, counts one approach and holds off the next. *)
Lemma run_call_declined st c :
  declines →
  run_call st c = st ∨
  (attempt_allowed st (call_time c) = true ∧ cs_cfg (run_call st c) = cs_cfg st ∧
   cs_root_invocations (run_call st c) = clamp_u64 (cs_root_invocations st + 1) ∧
   cs_next_attempt_at (run_call st c) =
     Some (next_attempt_after (call_time c) (kw_overlap (cc_window (cs_cfg st))))).
Proof.
  intros Hd. rewrite run_call_ensure. unfold ensure_active, issue_if.
  destruct (_ && attempt_allowed _ _) eqn:Hn; [|by left]. bool_prop.
  destruct (attempt_declined_state st (call_time c) Hd) as [[-> _]|(i & f & ->)]; [by left|right].
  destruct (hold_off _ _) as [st' r] eqn:Hh. cbn [fst].
  apply hold_off_state in Hh as (-> & -> & ->). by split_and!.
Qed.

(** How many approaches fit between [from] and [until]. *)
Definition approaches (interval from until : Z) : Z :=
  if from <=? until then (until - from) `div` interval + 1 else 0.

Lemma approaches_next interval from now until :
  0 < interval → from ≤ now ≤ until →
  approaches interval (now + interval) until + 1 ≤ approaches interval from until.
Proof.
  intros Hi Hn. unfold approaches. replace (from <=? until) with true by lia.
  assert ((until - now) `div` interval ≤ (until - from) `div` interval) by (apply Z.div_le_mono; lia).
  assert (0 ≤ (until - now) `div` interval) by (apply Z.div_pos; lia).
  destruct (now + interval <=? until) eqn:E; [|lia].
  replace (until - (now + interval)) with (until - now + (-1) * interval) by lia.
  rewrite Z.div_add by lia. lia.
Qed.

Lemma retry_interval_pos overlap : 0 < retry_interval overlap.
Proof. unfold retry_interval, MIN_ISSUANCE_RETRY_SECS. lia. Qed.

Lemma approaches_nonneg interval from until : 0 < interval → 0 ≤ approaches interval from until.
Proof.
  intros Hi. unfold approaches. destruct (from <=? until) eqn:E; [|done]. bool_prop.
  pose proof (Z.div_pos (until - from) interval). lia.
Qed.

Lemma count_succ n : 0 ≤ n → 0 ≤ clamp_u64 (n + 1) ≤ n + 1.
Proof. i64_lia. Qed.

Lemma next_attempt_reached now overlap t :
  next_attempt_after now overlap ≤ t → i64_MIN ≤ now → t < i64_MAX → now + retry_interval overlap ≤ t.
Proof. unfold next_attempt_after. pose proof (retry_interval_pos overlap). i64_lia. Qed.

Lemma run_calls_cons st c cs : run_calls st (c :: cs) = run_calls (run_call st c) cs.
Proof. reflexivity. Qed.

(** [from] bounds from below the times at which the custody may next approach the root. *)
Definition gated_until (st : DelegatedSigningCustody) (cs : list CustodyCall) (from : Z) : Prop :=
  Forall (λ c, attempt_allowed st (call_time c) = true → from ≤ call_time c) cs.

Lemma held_off_gated st cs now overlap until :
  cs_next_attempt_at st = Some (next_attempt_after now overlap) → i64_MIN ≤ now → until < i64_MAX →
  Forall (λ c, i64_MIN ≤ call_time c ≤ until) cs → gated_until st cs (now + retry_interval overlap).
Proof.
  intros Hnext Hlo Hhi HF. eapply Forall_impl; [exact HF|]. intros c [_ Hc] Hall.
  unfold attempt_allowed in Hall. rewrite Hnext in Hall. bool_prop.
  apply next_attempt_reached; [done..|lia].
Qed.

Lemma run_calls_paced cs : ∀ st from until,
  declines → 0 ≤ cs_root_invocations st → until < i64_MAX →
  Forall (λ c, i64_MIN ≤ call_time c ≤ until) cs → gated_until st cs from →
  cs_root_invocations (run_calls st cs) ≤
    cs_root_invocations st + approaches (retry_interval (kw_overlap (cc_window (cs_cfg st)))) from until.
Proof.
  induction cs as [|c cs IH]; intros st from until Hd Hr Hhi HF Hg.
  - pose proof (approaches_nonneg (retry_interval (kw_overlap (cc_window (cs_cfg st)))) from until
      (retry_interval_pos _)). change (run_calls st []) with st. lia.
  - apply Forall_cons in HF as [Hc HF]. apply Forall_cons in Hg as [Hgc Hg]. rewrite run_calls_cons.
    destruct (run_call_declined st c Hd) as [->|(Hal & Hcfg & Hroot & Hnext)]; [by apply IH|].
    pose proof (approaches_next _ from (call_time c) until
      (retry_interval_pos (kw_overlap (cc_window (cs_cfg st)))) ltac:(auto with lia)) as Ha.
    pose proof (count_succ _ Hr) as Hs. rewrite <-Hroot in Hs.
    pose proof (IH (run_call st c) _ until Hd (proj1 Hs) Hhi HF
      (held_off_gated _ _ _ _ _ Hnext (proj1 Hc) Hhi HF)) as Hi.
    rewrite Hcfg in Hi. lia.
Qed.

(** ** The configuration and the audit log across steps *)

Lemma issue_if_grows st needs now st' r :
  issue_if st needs now = (st', r) → cs_cfg st' = cs_cfg st ∧ cs_audit st `prefix_of` cs_audit st'.
Proof.
  intros [(r' & Ho & _)|(-> & _)]%issue_if_outcome; [|done].
  inversion Ho as [|i f a x Hn Hk Hj|i f Hn Hh]; subst; [done|split; [done|by apply prefix_app_r]|].
  unfold hold_off in Hh. repeat case_match; simplify_eq/=; split; try done; by apply prefix_app_r.
Qed.

Lemma step_grows st st' :
  custody_step st st' →
  (∃ epoch, cs_cfg st' = with_trust_epoch (cs_cfg st) epoch) ∧ cs_audit st `prefix_of` cs_audit st'.
Proof.
  assert (∀ st st' : DelegatedSigningCustody,
    cs_cfg st' = cs_cfg st → ∃ epoch, cs_cfg st' = with_trust_epoch (cs_cfg st) epoch) as Hsame.
  { intros s s' ->. exists (cc_trust_epoch (cs_cfg s)). by destruct (cs_cfg s). }
  intros Hs. destruct Hs as [st epoch|st now st' r Hs|st now st' r Hs|st now resp req ev st' resp' r Hs].
  - split; [by exists epoch|done].
  - apply issue_if_grows in Hs as [? ?]. auto.
  - unfold reissue, issue_now in Hs. destruct (issue_if _ _ _) as [st1 r1] eqn:Hi.
    apply issue_if_grows in Hi as [Hc Ha]. simpl in Hc, Ha.
    assert (cs_cfg st' = cs_cfg st1 ∧ cs_audit st1 `prefix_of` cs_audit st') as [Hc' Ha'].
    { repeat case_match; simplify_eq/=; split; try done; by apply prefix_app_r. }
    split; [apply Hsame; congruence|by etrans].
  - pose proof (run_call_ensure st (CallSign now resp req ev)) as Hr. simpl in Hr. rewrite Hs in Hr.
    simpl in Hr. destruct (ensure_active st now) as [st1 r1] eqn:He. simpl in Hr. subst st1.
    apply issue_if_grows in He as [? ?]. auto.
Qed.

Lemma steps_grow st st' :
  rtc custody_step st st' →
  (∃ epoch, cs_cfg st' = with_trust_epoch (cs_cfg st) epoch) ∧ cs_audit st `prefix_of` cs_audit st'.
Proof.
  induction 1 as [st|st st1 st2 Hs _ [[e2 He2] Ha2]].
  - split; [|done]. exists (cc_trust_epoch (cs_cfg st)). by destruct (cs_cfg st).
  - apply step_grows in Hs as [[e1 He1] Ha1]. split; [|by etrans]. exists e2. by rewrite He2, He1.
Qed.

(** The active key of a reachable custody is attested for the configuration it started with. *)
Lemma reachable_attested `{!Base64Laws} cfg i f st a :
  rtc custody_step (custody_new cfg i f) st → cs_active st = Some a →
  ∃ n, 1 ≤ n ≤ cs_counter st ∧ key_attested cfg n a.
Proof.
  intros Hr Ha. destruct (inv_active _ (inv_reachable _ _ _ _ Hr) a Ha) as ((n & Hn & Hk) & _).
  apply steps_grow in Hr as [[e He] _]. exists n. split; [done|].
  unfold key_attested in *. by rewrite He in Hk.
Qed.

(** ** One scheduled call *)

Lemma window_of_Ok ttl overlap w : DelegatedKeyWindow_of ttl overlap = Ok w → 0 < kw_overlap w < kw_ttl w.
Proof. unfold DelegatedKeyWindow_of. intros Hw. inv_ok. bool_prop. simpl. lia. Qed.

Lemma ensure_active_not_due st a now :
  cs_active st = Some a → 0 < kw_overlap (cc_window (cs_cfg st)) →
  is_i64 (ak_exp a - kw_overlap (cc_window (cs_cfg st))) →
  now < ak_exp a - kw_overlap (cc_window (cs_cfg st)) → ensure_active st now = (st, Ok tt).
Proof.
  intros Ha Ho Hi Hn. unfold ensure_active, rotation_due, checked_sub, issue_if.
  rewrite Ha, checked_i64_is by done. replace (_ <=? now) with false by lia. simpl.
  unfold holds_live. rewrite Ha. by replace (now <? ak_exp a) with true by lia.
Qed.

Lemma ensure_active_result st now st' r :
  ensure_active st now = (st', r) →
  match r with
  | Ok _ => holds_live st' now = true
  | Err e => e = FailClosedIssuance ∧
      (holds_live st' now = false ∨
       st' = st ∧ mintable now (kw_ttl (cc_window (cs_cfg st))) (cs_counter st) = Err FailClosedIssuance)
  end.
Proof.
  intros [(r' & Ho & ->)|(-> & _ & ->)]%issue_if_outcome.
  2:{ destruct (holds_live st now); auto. }
  destruct r' as [[]|e]; [by destruct (holds_live st' now); auto|].
  inversion Ho as [|i f a x Hn Hk Hj|i f Hn Hh]; subst; [by auto|].
  unfold hold_off in Hh. repeat case_match; simplify_eq/=; auto.
Qed.

Lemma ensure_active_declined st now :
  declines → holds_live st now = true →
  is_ok (mintable now (kw_ttl (cc_window (cs_cfg st))) (cs_counter st)) = true →
  (ensure_active st now).2 = Ok tt ∧ cs_active (ensure_active st now).1 = cs_active st.
Proof.
  intros Hd Hl Hm. unfold ensure_active, issue_if. destruct (_ && _); [|simpl; by rewrite Hl].
  destruct (attempt_declined_state st now Hd) as [[_ He]|(i & f & ->)]; [by rewrite He in Hm|].
  unfold hold_off. set (st1 := set_next_attempt _ _).
  assert (holds_live st1 now = true) as Hl1 by done. rewrite Hl1. simpl. by rewrite Hl1.
Qed.
End custody.

(** ** The root as issuer

    The issuer that signs whatever it is asked with the root key. *)
Definition root_issuer `{Base64, Ed25519, SerdeJson, !Serde DelegationHeader, !Serde DelegationClaims}
    (root : SigningKey) (header : DelegationHeader) (claims : DelegationClaims) (u : unit)
  : unit * option bytes := (u, issue_delegation_credential root header claims).

Section root.
Context `{Base64Laws, Sha2, Ed25519Laws, SerdeJsonLaws}.
Context `{!Serde DelegationHeader, !Serde DelegationClaims}.
Context `{!SerdeLaws (T := DelegationHeader), !SerdeLaws (T := DelegationClaims)}.

(** What is known of the claims of a key the root attested. *)
Lemma root_attested_claims root cfg n a header claims :
  key_attested (root_issuer root) cfg n a → parse_credential (ak_credential a) = Ok (header, claims) →
  issue_delegation_credential root header claims = Some (ak_credential a) ∧
  header_names header claims ∧ delegated_key claims = Ok (SigningKey_public_key (ak_key a)) ∧
  dc_aud claims = One (cc_aud cfg) ∧ dc_mcp_re_profile claims = cc_profile cfg ∧
  dc_mcp_re_audience_hash claims = cc_audience_hash cfg ∧
  dc_mcp_re_server_signer claims = actor_id (ak_server_signer a) ∧
  dc_mcp_re_key_use claims = KEY_USE_RESPONSE_SIGNING ∧ dc_issuer_kid claims = cc_issuer_kid cfg ∧
  dc_delegated_kid claims = ai_keyid (ak_server_signer a) ∧ dc_delegated_kid claims = ak_delegated_kid a ∧
  dc_nbf claims = ak_nbf a ∧ dc_exp claims = ak_exp a.
Proof.
  intros (epoch & now & exp & i & signer & h & req & c & Hb & Hi & Hp & Hw & _ & Hsig & Hkid & _ & Hnbf & Hexp & _) Hparse.
  rewrite Hparse in Hp. injection Hp as -> ->. simpl in Hi.
  pose proof (parse_issued_credential _ _ _ _ Hi) as Hp'. rewrite Hparse in Hp'. injection Hp' as ->.
  unfold custody_build in Hb. injection Hb as <- <- <-. simpl in *. rewrite Hsig. split_and!; try done.
  apply delegated_key_Ok. split_and!; try done. apply VerificationKey_from_to_b64url.
Qed.

(** A key the root attested chains to the root for a verifier that trusts the root, is
    addressed, and reads the credential within its window. *)
Lemma root_attested_chain root cfg n a header claims ev resolve_actor actor expect is_revoked t :
  key_attested (root_issuer root) cfg n a → parse_credential (ak_credential a) = Ok (header, claims) →
  resolve_actor (cc_issuer_kid cfg) SlotResponse = Resolved actor → ra_slot actor = SlotResponse →
  ra_verification_key actor = SigningKey_public_key root → cc_profile cfg = PROFILE_TAG →
  cc_aud cfg ∈ de_verifier_audiences expect → de_expected_audience_hash expect = cc_audience_hash cfg →
  delegation_current claims (chain_params (response_block (ak_server_signer a) (ak_credential a) ev) expect t)
    is_revoked →
  is_i64 (t + bounded_skew (de_max_clock_skew expect)) →
  is_i64 (t - bounded_skew (de_max_clock_skew expect)) → ak_nbf a ≤ t ≤ ak_exp a →
  chain_to_root (ak_credential a) (response_block (ak_server_signer a) (ak_credential a) ev) resolve_actor
    expect is_revoked t = Ok (verified_of claims (SigningKey_public_key (ak_key a))).
Proof.
  intros Hk Hp Hres Hslot Hroot Hprof Haud Hah Hcur Hfwd Hbwd Ht.
  destruct (root_attested_claims _ _ _ _ _ _ Hk Hp)
    as (Hi & Hnames & Hdk & Hca & Hcp & Hch & Hcs & Hcu & Hci & _ & _ & Hcn & Hce).
  eapply issued_credential_authorizes; [done..|by rewrite Hci|done|done| | |done|done].
  - assert (0 ≤ bounded_skew (de_max_clock_skew expect)) by (unfold bounded_skew; lia).
    unfold delegation_fresh. cbn [dp_now dp_max_clock_skew chain_params]. split_and!; [done..|lia|lia].
  - unfold delegation_in_scope. cbn [chain_params dp_verifier_audiences dp_expected_profile
      dp_expected_audience_hash dp_expected_server_signer sb_server_signer response_block].
    split_and!; try congruence.
    exists (cc_aud cfg). split; [done|]. rewrite Hca. apply bytes_eqb_refl.
Qed.
End root.

(** A custody only ever holds keys its root attested. In every state a custody can reach,
    under any issuer, key factory and clock, the approaches to the root it counted are
    exactly the issuance ordinals it spent, and the active key, if there is one, was attested
    for one of them: the root returned its credential for the very header and claims built
    over this key from the configuration, the credential parses to them unchanged but for
    its own window, the attested key is the key in custody, and the window served under is
    the credential's own and not empty. *)
Lemma custody_key_attested `{Base64Laws, Sha2, Ed25519, SerdeJson, F64Carrier,
    !Serde DelegationHeader, !Serde DelegationClaims, !Serde HttpResponseEvidenceBlock}
    {I F} (issue : DelegationHeader → DelegationClaims → I → I * option bytes)
    (factory : F → F * SigningKey) cfg i f st :
  rtc (custody_step issue factory) (custody_new cfg i f) st →
  cs_root_invocations st = cs_counter st ∧ is_u64 (cs_counter st) ∧
  ∀ a, active_snapshot st = Some a → ∃ n, 1 ≤ n ≤ cs_counter st ∧ key_attested issue cfg n a.
Proof.
  intros Hr. destruct (inv_count _ _ (inv_reachable _ _ _ _ _ _ Hr)). split_and!; [done..|].
  intros a Ha. by apply (reachable_attested issue factory cfg i f st).
Qed.

(** The audit log of a custody names every credential once. In every reachable state no
    credential id is recorded as issued twice, none is retired twice, every retired one was
    issued, the active key is issued and not retired; and the log only ever grows, so the
    same holds of each of its earlier versions. *)
Lemma custody_audit_discipline `{Base64Laws, Sha2, Ed25519, SerdeJson, F64Carrier,
    !Serde DelegationHeader, !Serde DelegationClaims, !Serde HttpResponseEvidenceBlock}
    {I F} (issue : DelegationHeader → DelegationClaims → I → I * option bytes)
    (factory : F → F * SigningKey) cfg i f st :
  rtc (custody_step issue factory) (custody_new cfg i f) st →
  NoDup (issued_jtis (cs_audit st)) ∧ NoDup (retired_jtis (cs_audit st)) ∧
  (∀ jti, jti ∈ retired_jtis (cs_audit st) → jti ∈ issued_jtis (cs_audit st)) ∧
  (∀ a, cs_active st = Some a →
     ak_jti a ∈ issued_jtis (cs_audit st) ∧ ak_jti a ∉ retired_jtis (cs_audit st)) ∧
  (∀ later, rtc (custody_step issue factory) st later → cs_audit st `prefix_of` cs_audit later).
Proof.
  intros Hr. destruct (inv_reachable _ _ _ _ _ _ Hr) as [_ Ha _ Hi Hret Hri]. split_and!; [done..| |].
  - intros a Hact. by destruct (Ha a Hact) as [_ ?].
  - intros later Hl. by apply (steps_grow issue factory).
Qed.

(** Asking for an active key fails closed, and only then. An [Ok] leaves a key that has
    not expired. An error is [FailClosedIssuance], and then no live key is held or the
    issuance was not representable and nothing changed. Before the rotation overlap of the
    active key the call changes nothing and does not approach the root; and a root that
    declines does not take a live key out of service. *)
Lemma ensure_active_contract `{Base64, Sha2, Ed25519, SerdeJson,
    !Serde DelegationHeader, !Serde DelegationClaims}
    {I F} (issue : DelegationHeader → DelegationClaims → I → I * option bytes)
    (factory : F → F * SigningKey) ttl overlap st now st' r :
  DelegatedKeyWindow_of ttl overlap = Ok (cc_window (cs_cfg st)) →
  ensure_active issue factory st now = (st', r) →
  match r with
  | Ok _ => ∃ a, cs_active st' = Some a ∧ now < ak_exp a
  | Err e => e = FailClosedIssuance ∧
      ((∀ a, cs_active st' = Some a → ak_exp a ≤ now) ∨
       st' = st ∧ mintable now ttl (cs_counter st) = Err FailClosedIssuance)
  end ∧
  (∀ a, cs_active st = Some a → is_i64 (ak_exp a - overlap) → now < ak_exp a - overlap →
     st' = st ∧ r = Ok tt) ∧
  (∀ a, cs_active st = Some a → now < ak_exp a → declines issue →
     is_ok (mintable now ttl (cs_counter st)) = true → cs_active st' = Some a ∧ r = Ok tt).
Proof.
  intros Hw He. pose proof (window_of_Ok _ _ _ Hw) as Hpos.
  assert (cc_window (cs_cfg st) = {| kw_ttl := ttl; kw_overlap := overlap |}) as Hcw.
  { unfold DelegatedKeyWindow_of in Hw. inv_ok. done. }
  pose proof (ensure_active_result issue factory st now st' r He) as Hres.
  rewrite Hcw in Hres, Hpos. simpl in Hres, Hpos. split_and!.
  - destruct r as [u|e]; unfold holds_live in Hres.
    + destruct (cs_active st') as [a|]; [|done]. bool_prop. eauto.
    + destruct Hres as [-> [Hl|Hm]]; (split; [done|]); [left|by right].
      intros a Ha. rewrite Ha in Hl. by bool_prop.
  - intros a Ha Hi Hn.
    rewrite (ensure_active_not_due issue factory st a now) in He;
      [by injection He as <- <-|done|rewrite Hcw; cbn [kw_overlap]; by try lia..].
  - intros a Ha Hn Hd Hm. destruct (ensure_active_declined issue factory st now Hd) as [Hr Hact].
    + unfold holds_live. rewrite Ha. by apply Z.ltb_lt.
    + by rewrite Hcw.
    + rewrite He in Hr, Hact. simpl in Hr, Hact. split; congruence.
Qed.

(** A declining root is approached at the retry interval and not per request. While the
    root declines, the calls of the serving path made between two instants approach it at
    most once per interval, and once more, however many calls there are and in whatever
    order their clocks come. *)
Lemma declining_root_paced `{Base64, Sha2, Ed25519, SerdeJson, F64Carrier,
    !Serde DelegationHeader, !Serde DelegationClaims, !Serde HttpResponseEvidenceBlock}
    {I F} (issue : DelegationHeader → DelegationClaims → I → I * option bytes)
    (factory : F → F * SigningKey) st calls from until :
  declines issue → is_u64 (cs_root_invocations st) → i64_MIN ≤ from ≤ until → until < i64_MAX →
  Forall (λ c, from ≤ call_time c ≤ until) calls →
  cs_root_invocations (run_calls issue factory st calls) ≤
    cs_root_invocations st +
    (until - from) `div` retry_interval (kw_overlap (cc_window (cs_cfg st))) + 1.
Proof.
  intros Hd [Hu _] Hf Hm HF.
  pose proof (run_calls_paced issue factory calls st from until Hd Hu Hm) as Hp.
  unfold approaches in Hp. replace (from <=? until) with true in Hp by lia.
  rewrite <-Z.add_assoc. apply Hp.
  - eapply Forall_impl; [exact HF|]. intros c [? ?]. lia.
  - eapply Forall_impl; [exact HF|]. by intros c [? ?] _.
Qed.

Section served.
Context `{Base64Laws, Sha2, Ed25519Laws, SerdeJsonLaws, F64Carrier}.
Context `{!Serde DelegationHeader, !Serde DelegationClaims, !Serde HttpResponseEvidenceBlock}.
Context {I F : Type} (issue : DelegationHeader → DelegationClaims → I → I * option bytes)
  (factory : F → F * SigningKey).

(** A signed response was signed with the live key of the custody it left behind. *)
Lemma custody_sign_response_Ok st now s r ev st' s' :
  custody_sign_response issue factory st now s r ev = (st', s', Ok tt) →
  ∃ a base, cs_active st' = Some a ∧ now < ak_exp a ∧
    sign_delegated_response_full s r ev (ak_server_signer a) (ak_credential a) (ak_key a)
      (ak_delegated_kid a) now
      (signature_valid_until now (kw_ttl (cc_window (cs_cfg st'))) (ak_exp a)) = (s', Ok base).
Proof.
  unfold custody_sign_response. destruct (ensure_active issue factory st now) as [st1 [u|e]] eqn:He; [|done].
  pose proof (ensure_active_result _ _ _ _ _ _ He) as Hl. simpl in Hl. unfold holds_live in Hl.
  destruct (cs_active st1) as [a|] eqn:Ha; [|done]. bool_prop.
  destruct (sign_delegated_response_full _ _ _ _ _ _ _ _ _) as [s1 [base|e]] eqn:Hs; [|done].
  simpl. intros [= <- <-]. by exists a, base.
Qed.

(** The window a signature is given lies inside the credential's and within the ttl. *)
Lemma signature_window now ttl exp :
  is_i64 now → is_i64 exp → 0 < ttl → now < exp →
  now < signature_valid_until now ttl exp ≤ exp ∧ signature_valid_until now ttl exp - now ≤ ttl.
Proof.
  intros Hn He Ht Hl. unfold signature_valid_until, checked_add.
  destruct (checked_i64 (now + ttl)) as [u|] eqn:Hc; [apply checked_i64_Some in Hc as [-> ?]; lia|].
  destruct (decide (is_i64 (now + ttl))) as [Hi|Hi]; [by rewrite (checked_i64_is _ Hi) in Hc|].
  i64_lia.
Qed.
End served.

(** What a custody signs, a verifier that trusts its root accepts. Let the root issue what
    it is asked, and let a reachable custody sign a response to a request. A verifier that
    resolves the custody's issuer to the root in the response slot, is in the configured
    audience, accepts the epoch of the active credential, has revoked none of its ids, and
    reads the response within the signature's window accepts it for that request, names the
    active key as signer and the configured issuer as its root. *)
Lemma custody_response_verifies `{Base64Laws, Sha2, Ed25519Laws, SerdeJsonLaws, F64Carrier,
    !Serde DelegationHeader, !Serde DelegationClaims, !Serde HttpResponseEvidenceBlock,
    !SerdeLaws (T := DelegationHeader), !SerdeLaws (T := DelegationClaims),
    !SerdeLaws (T := HttpResponseEvidenceBlock)}
    {F} (factory : F → F * SigningKey) root cfg f ttl overlap st now s r ev st' s' a header claims
    resolve_actor actor policy expect is_revoked t :
  rtc (custody_step (root_issuer root) factory) (custody_new cfg tt f) st →
  custody_sign_response (root_issuer root) factory st now s r ev = (st', s', Ok tt) →
  cs_active st' = Some a → parse_credential (ak_credential a) = Ok (header, claims) →
  DelegatedKeyWindow_of ttl overlap = Ok (cc_window cfg) → cc_profile cfg = PROFILE_TAG →
  request_evidence_of r = Ok ev →
  require_json_media_type (resp_headers s) b#"response content-type" = Ok tt →
  resolve_actor (cc_issuer_kid cfg) SlotResponse = Resolved actor → ra_slot actor = SlotResponse →
  ra_verification_key actor = SigningKey_public_key root →
  cc_aud cfg ∈ de_verifier_audiences expect → de_expected_audience_hash expect = cc_audience_hash cfg →
  delegation_current claims (chain_params (response_block (ak_server_signer a) (ak_credential a) ev) expect t)
    is_revoked →
  is_i64 now ∧ is_i64 (ak_exp a) ∧ is_i64 t ∧ is_i64 (vp_max_clock_skew policy) ∧
    is_i64 (t + bounded_skew (de_max_clock_skew expect)) ∧
    is_i64 (t - bounded_skew (de_max_clock_skew expect)) →
  now ≤ t < signature_valid_until now ttl (ak_exp a) → ak_nbf a ≤ t →
  0 ≤ vp_max_clock_skew policy → ttl ≤ vp_max_signature_validity policy →
  accepted_algorithm policy ALG_ED25519 = Some Ed25519Alg →
  ∃ v, delegated_bound_response s' r resolve_actor policy expect is_revoked t = Ok v ∧
    bsf_accepted_signer (vdr_signature_facts v) =
      {| ars_identity := ak_server_signer a; ars_verification_key := SigningKey_public_key (ak_key a) |} ∧
    bound_request_evidence (vdr_request_evidence_agreement v) = ev ∧
    vdr_delegation_issuer_kid v = cc_issuer_kid cfg.
Proof.
  intros Hr Hs Hact Hp Hw Hprof Hev Hjson Hres Hslot Hroot Haud Hah Hcur (Hn & He & Ht & Hsk & Hfwd & Hbwd)
    Htw Hnbf Hsk0 Hval Halg.
  assert (rtc (custody_step (root_issuer root) factory) (custody_new cfg tt f) st') as Hr'
    by (eapply rtc_r; [exact Hr|by eapply step_sign_response]).
  destruct (reachable_attested _ _ _ _ _ _ _ Hr' Hact) as (n & _ & Hk).
  destruct (root_attested_claims _ _ _ _ _ _ Hk Hp) as (_ & _ & _ & _ & _ & _ & _ & _ & Hci & Hkid & Hakid & _).
  destruct (steps_grow _ _ _ _ Hr') as [[epoch Hcfg] _].
  destruct (custody_sign_response_Ok _ _ _ _ _ _ _ _ _ Hs) as (a' & base & Ha' & Hlive & Hsign).
  rewrite Hact in Ha'. injection Ha' as <-.
  assert (0 < ttl ∧ kw_ttl (cc_window (cs_cfg st')) = ttl) as [Hpos Httl].
  { rewrite Hcfg. unfold DelegatedKeyWindow_of in Hw. inv_ok. bool_prop. cbn. rewrite <-Hw. split; [lia|done]. }
  rewrite Httl, <-Hakid, Hkid in Hsign.
  destruct (signature_window now ttl (ak_exp a) Hn He Hpos Hlive) as [[Hlt Hle] Hlen].
  assert (is_i64 (signature_valid_until now ttl (ak_exp a))) as Hvi by i64_lia.
  eexists. split; [eapply delegated_response_accepted|].
  - exact Hsign.
  - exact Hev.
  - apply (root_attested_chain root cfg n a header claims ev resolve_actor actor); try done. lia.
  - exact Hkid.
  - reflexivity.
  - done.
  - exact Hjson.
  - exact Halg.
  - apply window_admits_spec; [done..|]. i64_lia.
  - i64_lia.
  - by split_and!.
Qed.

(** ** Witnesses *)

Import Instances.

(** A derived type of which two values are ever serialized. *)
Definition two_value_serde `{EqDecision T} (t0 t1 : T) (n0 n1 : bytes) : Serde T := serde_through
  (λ v, if bool_decide (as_str v = Some n0) then Some t0
        else if bool_decide (as_str v = Some n1) then Some t1 else None)
  (λ t, if bool_decide (t = t0) then Some (JString n0)
        else if bool_decide (t = t1) then Some (JString n1) else None).

Lemma two_value_serde_laws `{EqDecision T} (t0 t1 : T) n0 n1 :
  n0 ≠ n1 → @SerdeLaws _ T (two_value_serde t0 t1 n0 n1).
Proof.
  intros Hn. apply serde_through_laws. intros t v. case_bool_decide as H0; [|case_bool_decide as H1; [|done]];
    intros [= <-]; simpl.
  - by rewrite bool_decide_true, H0.
  - rewrite bool_decide_false by congruence. by rewrite bool_decide_true, H1.
Qed.

Definition wc_window : DelegatedKeyWindow := {| kw_ttl := 60; kw_overlap := 20 |}.
Definition wc_cfg : CustodyConfig :=
  {| cc_issuer_kid := b#"k1"; cc_iss := b#"root"; cc_profile := PROFILE_TAG; cc_aud := b#"me";
     cc_audience_hash := b#"ah"; cc_trust_epoch := b#"e"; cc_server_role := b#"server";
     cc_server_trust_domain := b#"d"; cc_server_subject := b#"api"; cc_window := wc_window |}.
Definition wc_factory (u : unit) : unit * SigningKey := (u, w_dkey).

(** The claims of a first issuance at 100, and those of a second at 145 by a root whose clock
    is behind: it issues for 120 to 130. *)
Definition wc_first : DelegationClaims := (custody_build wc_cfg 1 100 160 w_dkey).2.
Definition wc_second : DelegationClaims :=
  with_window_of (custody_build wc_cfg 2 145 205 w_dkey).2 (custody_build wc_cfg 2 120 130 w_dkey).2.

#[local] Instance wc_header_serde : Serde DelegationHeader := one_value_serde w_header b#"h".
#[local] Instance wc_header_serde_laws : SerdeLaws (T := DelegationHeader).
Proof. apply one_value_serde_laws. Qed.
#[local] Instance wc_claims_serde : Serde DelegationClaims := two_value_serde wc_first wc_second b#"c" b#"d".
#[local] Instance wc_claims_serde_laws : SerdeLaws (T := DelegationClaims).
Proof. by apply two_value_serde_laws. Qed.

Definition wc_signer : ActorIdentity := (custody_build wc_cfg 1 100 160 w_dkey).1.1.
Definition wc_jws : bytes := default [] (issue_delegation_credential w_key w_header wc_first).
Definition wc_block : HttpResponseEvidenceBlock := response_block wc_signer wc_jws w_evidence.
#[local] Instance wc_block_serde : Serde HttpResponseEvidenceBlock := one_value_serde wc_block b#"s".
#[local] Instance wc_block_serde_laws : SerdeLaws (T := HttpResponseEvidenceBlock).
Proof. apply one_value_serde_laws. Qed.
#[local] Instance wc_f64 : F64Carrier := { f64_reemit := Some }.

Definition wc_key : ActiveDelegatedKey :=
  {| ak_key := w_dkey; ak_server_signer := wc_signer; ak_credential := wc_jws;
     ak_delegated_kid := ai_keyid wc_signer; ak_jti := dc_jti wc_first; ak_nbf := 100; ak_exp := 160 |}.
Definition wc_new : DelegatedSigningCustody := custody_new wc_cfg tt tt.
Definition wc_live : DelegatedSigningCustody :=
  (ensure_active (root_issuer w_key) wc_factory wc_new 100).1.

Lemma wc_live_active : cs_active wc_live = Some wc_key.
Proof. vm_compute. reflexivity. Qed.

Definition wc_declining (header : DelegationHeader) (claims : DelegationClaims) (u : unit)
  : unit * option bytes := (u, None).

Definition wc_unsigned : HttpResponse := with_resp_body w_response (default [] (to_vec (Object ∅))).
Definition wc_served : DelegatedSigningCustody * HttpResponse * Result unit CustodyError :=
  custody_sign_response (root_issuer w_key) wc_factory wc_new 100 wc_unsigned (fst w_signed) w_evidence.

Definition wc_late_root (header : DelegationHeader) (claims : DelegationClaims) (u : unit)
  : unit * option bytes :=
  (u, issue_delegation_credential w_key header (if dc_iat claims =? 145 then wc_second else claims)).

(** A credential that is already over when it arrives takes the place of a live key: the root
    whose clock is behind answers the rotation at 145 with a credential for 120 to 130. The
    custody adopts it, fails closed, and the key that was good until 160 is gone. *)
Lemma expired_credential_displaces_live_key :
  holds_live wc_live 145 = true ∧
  ∃ b, ak_exp b = 130 ∧ (ensure_active wc_late_root wc_factory wc_live 145).2 = Err FailClosedIssuance ∧
    cs_active (ensure_active wc_late_root wc_factory wc_live 145).1 = Some b.
Proof.
  split; [vm_compute; reflexivity|].
  destruct (ensure_active wc_late_root wc_factory wc_live 145) as [st r] eqn:E.
  vm_compute in E. injection E as <- <-. eexists. split_and!; [|reflexivity|reflexivity]. reflexivity.
Qed.
