(* ===== verification/Admission.v ===== *)
(** * [mcp-re-http-profile/src/admission], [admission_policy.rs], [authoritative_admission]

    An admission authority signs assertions of a workload's admission state; a request binds
    one, and the verifier checks that it is genuine, fresh, about the presenter, and still
    what the authority's live state says. *)

From S2P Require Import Prelude.
From S2P Require Import RustStr.
From S2P Require Import Externals.
From S2P Require Import Concrete.
From S2P Require Import CoreError.
From S2P Require Import CoreResolver.
From S2P Require Import HttpMessage.
From S2P Require Import Blocks.
From S2P Require Import Sign.
From S2P Require Import Delegation.

(** ** [admission/mod.rs]: data *)

Definition ADMISSION_TYP : bytes := b#"mcp-re-admission+jws".
Definition ADMISSION_ALG : bytes := b#"EdDSA".

Inductive AdmissionStatus : Type := StAdmitted | StSuspended | StRevoked.
#[global] Instance AdmissionStatus_eq_dec : EqDecision AdmissionStatus.
Proof. solve_decision. Defined.

Record AdmissionHeader := { ah_typ : bytes; ah_alg : bytes; ah_kid : bytes }.
#[global] Instance AdmissionHeader_eq_dec : EqDecision AdmissionHeader.
Proof. solve_decision. Defined.

Record AdmissionClaims := {
  ac_iss : bytes;
  ac_iat : Z;
  ac_nbf : Z;
  ac_exp : Z;
  ac_jti : bytes;
  ac_aud : Audience;
  ac_mcp_re_profile : bytes;
  ac_mcp_re_admission_id : bytes;
  ac_mcp_re_admitted_actor : bytes;
  ac_mcp_re_admission_generation : Z;
  ac_mcp_re_admitted_state_digest : bytes;
  ac_mcp_re_admission_status : AdmissionStatus;
  ac_issuer_kid : bytes;
}.
#[global] Instance AdmissionClaims_eq_dec : EqDecision AdmissionClaims.
Proof. solve_decision. Defined.

Record VerifiedAdmission := {
  va_admission_id : bytes;
  va_generation : Z;
  va_admitted_actor : bytes;
  va_status : AdmissionStatus;
}.

(** ** [admission/verdict.rs], [admission_policy.rs], [authoritative_admission/mod.rs] *)

Inductive AdmissionVerdict : Type :=
| Live (v : VerifiedAdmission)
| DegradedCandidate (v : VerifiedAdmission).

Definition verdict_verified (v : AdmissionVerdict) : VerifiedAdmission :=
  match v with Live v | DegradedCandidate v => v end.

Record AdmissionPolicy := {
  ap_max_assertion_age : Z;
  ap_max_clock_skew : Z;
  ap_degraded_propagation_bound : Z;
  ap_allow_degraded_mode : bool;
}.

Definition AdmissionPolicy_default : AdmissionPolicy :=
  {| ap_max_assertion_age := 300; ap_max_clock_skew := 30; ap_degraded_propagation_bound := 0;
     ap_allow_degraded_mode := false |}.

Record AuthoritativeAdmission := {
  aa_admission_id : bytes;
  aa_generation : Z;
  aa_status : AdmissionStatus;
}.

Definition AuthoritativeAdmission_new (admission_id : bytes) (generation : Z) (status : AdmissionStatus)
  : AuthoritativeAdmission :=
  {| aa_admission_id := admission_id; aa_generation := generation; aa_status := status |}.

(** ** [admission/mod.rs]: operations *)

Section admission.
Context `{Base64, Sha2, Ed25519, SerdeJson}.
Context `{!Serde AdmissionHeader, !Serde AdmissionClaims}.

Definition opaque_from (assertion : AdmissionClaims) : AdmissionBinding :=
  {| adb_binding_type := OpaqueDigest; adb_admission_id := ac_mcp_re_admission_id assertion;
     adb_generation := ac_mcp_re_admission_generation assertion;
     adb_digest_alg := EVIDENCE_DIGEST_ALG;
     adb_digest_value := b64url_encode (sha256 (ac_mcp_re_admitted_state_digest assertion)) |}.

Definition matches_state (b : AdmissionBinding) (admitted_state_digest : bytes) : bool :=
  bool_decide (adb_binding_type b = OpaqueDigest)
  && bytes_eqb (adb_digest_alg b) EVIDENCE_DIGEST_ALG
  && bytes_eqb (adb_digest_value b) (b64url_encode (sha256 admitted_state_digest)).

Definition issue_admission_assertion (claims : AdmissionClaims) (sign_root : base_signer)
  : Result bytes HttpProfileError :=
  let header := {| ah_typ := ADMISSION_TYP; ah_alg := ADMISSION_ALG; ah_kid := ac_issuer_kid claims |} in
  let? hj := ok_or (to_vec_of header) (HPE.MalformedEvidence b#"admission header") in
  let? pj := ok_or (to_vec_of claims) (HPE.MalformedEvidence b#"admission claims") in
  let h := b64url_encode hj in
  let p := b64url_encode pj in
  let? sig := sign_root (h ++ b#"." ++ p) in
  Ok (h ++ b#"." ++ p ++ b#"." ++ b64url_encode sig).

Definition split_compact (jws : bytes) : Result (bytes * bytes * bytes) HttpProfileError :=
  ok_or (three_segments jws) (HPE.MalformedEvidence b#"admission jws shape").

Definition admission_decode_json `{!Serde T} (seg : bytes) : Result T HttpProfileError :=
  let? b := map_err (λ _, HPE.MalformedEvidence b#"admission b64url") (b64url_decode seg) in
  ok_or (from_slice_as b) (HPE.MalformedEvidence b#"admission json").

Definition s_seg_to_b64url (s_seg : bytes) : Result bytes HttpProfileError :=
  let? b := map_err (λ _, HPE.AdmissionAssertionInvalid) (b64url_decode s_seg) in
  Ok (b64url_encode b).

Definition verify_admission_assertion (compact_jws expected_profile : bytes)
    (verifier_audiences : list bytes) (policy : AdmissionPolicy) (now : Z)
    (resolve_issuer : bytes → option VerificationKey) : Result AdmissionClaims HttpProfileError :=
  let? (h_seg, p_seg, s_seg) := split_compact compact_jws in
  let? header := admission_decode_json h_seg in
  if negb (bytes_eqb (ah_typ header) ADMISSION_TYP) || negb (bytes_eqb (ah_alg header) ADMISSION_ALG)
  then Err HPE.AdmissionAssertionInvalid
  else
    let? claims := admission_decode_json p_seg in
    if negb (bytes_eqb (ah_kid header) (ac_issuer_kid claims)) then Err HPE.AdmissionAssertionInvalid
    else
      let? root := ok_or (resolve_issuer (ac_issuer_kid claims)) HPE.AdmissionIssuerUntrusted in
      let? sig := s_seg_to_b64url s_seg in
      map_err (λ _, HPE.AdmissionAssertionInvalid)
        (verify_ed25519_with (h_seg ++ b#"." ++ p_seg) sig root InvalidSignature) ;?
      if negb (bytes_eqb (ac_mcp_re_profile claims) expected_profile)
      then Err HPE.AdmissionAssertionInvalid
      else if negb (existsb (audience_contains (ac_aud claims)) verifier_audiences)
      then Err HPE.AdmissionAssertionInvalid
      else
        let skew := ap_max_clock_skew policy in
        if (now <? saturating_sub (ac_nbf claims) skew) || (saturating_add (ac_exp claims) skew <=? now)
           || (ac_exp claims <=? ac_nbf claims)
        then Err HPE.AdmissionAssertionExpired
        else if (saturating_add (ap_max_assertion_age policy) skew <? saturating_sub now (ac_iat claims))
                || (saturating_add now skew <? ac_iat claims)
        then Err HPE.AdmissionAssertionExpired
        else Ok claims.

Definition check_admission (binding : AdmissionBinding) (assertion_jws presenter_actor_id : bytes)
    (authoritative : option AuthoritativeAdmission) (expected_profile : bytes)
    (verifier_audiences : list bytes) (policy : AdmissionPolicy) (now : Z)
    (resolve_issuer : bytes → option VerificationKey) : Result AdmissionVerdict HttpProfileError :=
  let? claims := verify_admission_assertion assertion_jws expected_profile verifier_audiences policy now
                   resolve_issuer in
  if negb (bytes_eqb (ac_mcp_re_admitted_actor claims) presenter_actor_id)
  then Err HPE.AdmissionBindingMismatch
  else if negb (bytes_eqb (adb_admission_id binding) (ac_mcp_re_admission_id claims))
          || negb (adb_generation binding =? ac_mcp_re_admission_generation claims)
          || negb (matches_state binding (ac_mcp_re_admitted_state_digest claims))
  then Err HPE.AdmissionBindingMismatch
  else if negb (bool_decide (ac_mcp_re_admission_status claims = StAdmitted))
  then Err HPE.AdmissionNotCurrent
  else
    let verified := {| va_admission_id := ac_mcp_re_admission_id claims;
                       va_generation := ac_mcp_re_admission_generation claims;
                       va_admitted_actor := ac_mcp_re_admitted_actor claims; va_status := StAdmitted |} in
    match authoritative with
    | Some state =>
        if negb (bytes_eqb (aa_admission_id state) (adb_admission_id binding))
        then Err HPE.AdmissionStateUnavailable
        else if negb (adb_generation binding =? aa_generation state) then Err HPE.AdmissionNotCurrent
        else if negb (bool_decide (aa_status state = StAdmitted)) then Err HPE.AdmissionNotCurrent
        else Ok (Live verified)
    | None =>
        if negb (ap_allow_degraded_mode policy) then Err HPE.AdmissionStateUnavailable
        else if saturating_add (ap_degraded_propagation_bound policy) (ap_max_clock_skew policy)
                <? saturating_sub now (ac_iat claims)
        then Err HPE.AdmissionStateUnavailable
        else Ok (DegradedCandidate verified)
    end.
End admission.

(** ** Lemmas *)

Definition admission_signed_by `{Base64, Ed25519, SerdeJson, !Serde AdmissionHeader, !Serde AdmissionClaims}
    (root : VerificationKey) (jws : bytes) (claims : AdmissionClaims) : Prop :=
  ∃ h p s sig header, three_segments jws = Some (h, p, s) ∧
    admission_decode_json h = Ok header ∧ admission_decode_json p = Ok claims ∧
    ah_typ header = ADMISSION_TYP ∧ ah_alg header = ADMISSION_ALG ∧ ah_kid header = ac_issuer_kid claims ∧
    url_decode s = Some sig ∧ length sig = SIGNATURE_LEN ∧
    verify_strict (vk_inner root) (h ++ b#"." ++ p) sig = true.

(** The freshness conditions, as the code computes them. *)
Definition assertion_fresh (claims : AdmissionClaims) (policy : AdmissionPolicy) (now : Z) : bool :=
  let skew := ap_max_clock_skew policy in
  negb (now <? saturating_sub (ac_nbf claims) skew) && negb (saturating_add (ac_exp claims) skew <=? now)
  && negb (ac_exp claims <=? ac_nbf claims)
  && negb (saturating_add (ap_max_assertion_age policy) skew <? saturating_sub now (ac_iat claims))
  && negb (saturating_add now skew <? ac_iat claims).

(** The same window over the integers. *)
Definition fresh_window (claims : AdmissionClaims) (policy : AdmissionPolicy) (now : Z) : Prop :=
  let skew := ap_max_clock_skew policy in
  ac_nbf claims - skew ≤ now < ac_exp claims + skew ∧ ac_nbf claims < ac_exp claims ∧
  now - ac_iat claims ≤ ap_max_assertion_age policy + skew ∧ ac_iat claims ≤ now + skew.

(** The clock and the policy are far enough from the ends of the type. *)
Definition plausible (policy : AdmissionPolicy) (now : Z) : Prop :=
  0 ≤ now < i64_MAX ∧ 0 ≤ ap_max_clock_skew policy ∧ is_i64 (now + ap_max_clock_skew policy) ∧
  0 ≤ ap_max_assertion_age policy + ap_max_clock_skew policy < i64_MAX.

Lemma assertion_fresh_window claims policy now :
  is_i64 (ac_nbf claims) ∧ is_i64 (ac_exp claims) ∧ is_i64 (ac_iat claims) → plausible policy now →
  assertion_fresh claims policy now = true ↔ fresh_window claims policy now.
Proof.
  unfold plausible, is_i64, assertion_fresh, fresh_window, saturating_sub, saturating_add, clamp_i64, i64_MIN, i64_MAX.
  intros. rewrite !andb_true_iff, !negb_true_iff, !Z.ltb_ge, !Z.leb_gt. lia.
Qed.

Section lemmas.
Context `{Base64Laws, Sha2, Ed25519, SerdeJson, !Serde AdmissionHeader, !Serde AdmissionClaims}.

Lemma verify_admission_assertion_fresh jws profile auds policy now resolve claims :
  verify_admission_assertion jws profile auds policy now resolve = Ok claims ↔
    (∃ root, resolve (ac_issuer_kid claims) = Some root ∧ admission_signed_by root jws claims) ∧
    ac_mcp_re_profile claims = profile ∧
    (∃ a, a ∈ auds ∧ audience_contains (ac_aud claims) a = true) ∧
    assertion_fresh claims policy now = true.
Proof.
  unfold verify_admission_assertion, split_compact, s_seg_to_b64url, b64url_encode, admission_signed_by.
  rewrite <-existsb_elem. split.
  - intros Hv. inv_ok. repeat match goal with
    | Hs : verify_ed25519_with _ _ _ _ = Ok _ |- _ => apply verify_ed25519_with_Ok in Hs as (sig & Hd & Hl & Hst)
    | Hb : b64url_decode _ = Ok _ |- _ => unfold b64url_decode in Hb; apply ok_or_Ok in Hb
    end.
    rewrite url_decode_encode in Hd. injection Hd as ->.
    unfold assertion_fresh. bool_prop. str_prop. split_and!; try done.
    + eexists. split; [eassumption|]. eexists _, _, _, sig, _. by split_and!.
    + by rewrite !andb_true_iff, !negb_true_iff, !Z.ltb_ge, !Z.leb_gt.
  - intros ((root & Hr & h & p & s & sig & header & Ht & Hh & Hp & Hty & Hal & Hki & Hd & Hl & Hst) & Hpr & Hau & Hf).
    rewrite Ht. cbn [ok_or]. rewrite Hh, Hty, Hal, !bytes_eqb_refl. cbn [negb orb].
    rewrite Hp, Hki, Hpr, Hau, !bytes_eqb_refl, Hr.
    unfold b64url_decode. rewrite Hd. cbn [ok_or map_err negb].
    rewrite (proj2 (verify_ed25519_with_Ok _ (url_encode sig) root InvalidSignature tt)).
    2:{ exists sig. by rewrite url_decode_encode. }
    unfold assertion_fresh in Hf. rewrite !andb_true_iff, !negb_true_iff in Hf.
    destruct Hf as [[[[-> ->] ->] ->] ->]. done.
Qed.

(** The binding names the assertion's admission, generation and state. *)
Definition binding_matches (b : AdmissionBinding) (claims : AdmissionClaims) : Prop :=
  adb_admission_id b = ac_mcp_re_admission_id claims ∧
  adb_generation b = ac_mcp_re_admission_generation claims ∧
  adb_binding_type b = OpaqueDigest ∧ adb_digest_alg b = EVIDENCE_DIGEST_ALG ∧
  adb_digest_value b = b64url_encode (sha256 (ac_mcp_re_admitted_state_digest claims)).

Definition admitted_facts (claims : AdmissionClaims) : VerifiedAdmission :=
  {| va_admission_id := ac_mcp_re_admission_id claims; va_generation := ac_mcp_re_admission_generation claims;
     va_admitted_actor := ac_mcp_re_admitted_actor claims; va_status := StAdmitted |}.

Lemma check_admission_Ok b jws presenter auth profile auds policy now resolve verdict :
  check_admission b jws presenter auth profile auds policy now resolve = Ok verdict ↔
    ∃ claims, verify_admission_assertion jws profile auds policy now resolve = Ok claims ∧
      ac_mcp_re_admitted_actor claims = presenter ∧ binding_matches b claims ∧
      ac_mcp_re_admission_status claims = StAdmitted ∧
      match auth with
      | Some state => state = AuthoritativeAdmission_new (adb_admission_id b) (adb_generation b) StAdmitted ∧
                      verdict = Live (admitted_facts claims)
      | None => ap_allow_degraded_mode policy = true ∧
                saturating_sub now (ac_iat claims) ≤
                  saturating_add (ap_degraded_propagation_bound policy) (ap_max_clock_skew policy) ∧
                verdict = DegradedCandidate (admitted_facts claims)
      end.
Proof.
  unfold check_admission, binding_matches, matches_state. split.
  - intros Hc. inv_ok. exists v. destruct auth as [state|]; inv_ok; bool_prop; str_prop; split_and!; try done.
    destruct state. by simplify_eq/=.
  - intros (claims & -> & <- & (-> & -> & -> & -> & ->) & Hst & Ha).
    rewrite !bytes_eqb_refl, !Z.eqb_refl, !bool_decide_true by done. cbn [negb orb andb].
    destruct auth as [state|].
    + destruct Ha as [-> ->]. simpl. by rewrite bytes_eqb_refl, Z.eqb_refl.
    + destruct Ha as (-> & Hle & ->). cbn [negb]. by replace (_ <? _) with false by lia.
Qed.
End lemmas.

(** ** Properties *)

(** What an admission verdict means. The check returns a verdict exactly when the
    assertion is signed by the authority its issuer resolves to, for this profile and
    audience, fresh, about the presenter, admitted, and matched by the binding in id,
    generation and state digest; the verdict is [Live] exactly when the live state is
    present and says the same admission is admitted at the same generation, and a degraded
    candidate exactly when there is no live state, the policy allows that, and the assertion
    is no older than the propagation bound. *)
Lemma check_admission_exact `{Base64Laws, Sha2, Ed25519, SerdeJson, !Serde AdmissionHeader,
    !Serde AdmissionClaims} b jws presenter auth profile auds policy now resolve verdict :
  check_admission b jws presenter auth profile auds policy now resolve = Ok verdict ↔
    ∃ claims root,
      resolve (ac_issuer_kid claims) = Some root ∧ admission_signed_by root jws claims ∧
      ac_mcp_re_profile claims = profile ∧
      (∃ a, a ∈ auds ∧ audience_contains (ac_aud claims) a = true) ∧
      assertion_fresh claims policy now = true ∧
      ac_mcp_re_admitted_actor claims = presenter ∧ binding_matches b claims ∧
      ac_mcp_re_admission_status claims = StAdmitted ∧
      match auth with
      | Some state => state = AuthoritativeAdmission_new (adb_admission_id b) (adb_generation b) StAdmitted ∧
                      verdict = Live (admitted_facts claims)
      | None => ap_allow_degraded_mode policy = true ∧
                saturating_sub now (ac_iat claims) ≤
                  saturating_add (ap_degraded_propagation_bound policy) (ap_max_clock_skew policy) ∧
                verdict = DegradedCandidate (admitted_facts claims)
      end.
Proof.
  rewrite check_admission_Ok. split.
  - intros (claims & ((root & Hr & Hs) & Hp & Ha & Hf)%verify_admission_assertion_fresh & Hrest).
    by exists claims, root.
  - intros (claims & root & Hr & Hs & Hp & Ha & Hf & Hrest). exists claims. split; [|done].
    apply verify_admission_assertion_fresh. eauto 10.
Qed.

(** The acceptance window of an assertion. Once an assertion was accepted, then at every
    plausible instant it is accepted exactly inside [nbf - skew, exp + skew) while it is no
    older than the maximal age, and refused as expired outside; no saturating or overflowing
    computation widens the window. *)
Lemma admission_window_exact `{Base64Laws, Sha2, Ed25519, SerdeJson, !Serde AdmissionHeader,
    !Serde AdmissionClaims} jws profile auds policy now resolve claims now' :
  verify_admission_assertion jws profile auds policy now resolve = Ok claims →
  is_i64 (ac_nbf claims) ∧ is_i64 (ac_exp claims) ∧ is_i64 (ac_iat claims) → plausible policy now' →
  let result := verify_admission_assertion jws profile auds policy now' resolve in
  (fresh_window claims policy now' → result = Ok claims) ∧
  (¬ fresh_window claims policy now' → result = Err HPE.AdmissionAssertionExpired).
Proof.
  intros Hv Hr Hp result. rewrite <-(assertion_fresh_window _ _ _ Hr Hp). split.
  - intros Hf. apply verify_admission_assertion_fresh. apply verify_admission_assertion_fresh in Hv.
    by destruct_and! Hv.
  - intros Hf. subst result. unfold verify_admission_assertion in Hv |- *. inv_ok.
    do 2 match goal with |- (if ?c then _ else _) = _ => destruct c eqn:?; [done|] end. exfalso. apply Hf.
    unfold assertion_fresh. bool_prop.
    by rewrite !andb_true_iff, !negb_true_iff, !Z.ltb_ge, !Z.leb_gt.
Qed.

(** What the authority issues is signed by the authority. *)
Lemma issued_assertion_signed `{Base64Laws, Sha2, Ed25519Laws, SerdeJsonLaws, !Serde AdmissionHeader,
    !Serde AdmissionClaims, !SerdeLaws (T := AdmissionHeader), !SerdeLaws (T := AdmissionClaims)}
    claims root jws :
  issue_admission_assertion claims (local_sig root) = Ok jws →
  admission_signed_by (SigningKey_public_key root) jws claims.
Proof.
  unfold issue_admission_assertion. intros Hi. inv_ok. apply local_sig_Ok in E1 as ->.
  assert (∀ `{!Serde T, !SerdeLaws (T := T)} (t : T) b,
    to_vec_of t = Some b → admission_decode_json (url_encode b) = Ok t) as Hdec.
  { intros T S SL t b Hb. unfold admission_decode_json, b64url_decode. rewrite url_decode_encode. simpl.
    by rewrite (from_slice_to_vec_of _ _ Hb). }
  eexists _, _, _, _, _. split_and!.
  - apply three_segments_encoded; [exact (to_vec_of_nonempty _ _ E)|exact (to_vec_of_nonempty _ _ E0)|].
    intros Hd. pose proof (dalek_sign_length (sk_inner root) (b64url_encode v ++ b#"." ++ b64url_encode v0)) as Hl.
    by rewrite Hd in Hl.
  - by apply Hdec.
  - by apply Hdec.
  - done.
  - done.
  - done.
  - apply url_decode_encode.
  - apply dalek_sign_length.
  - apply verify_strict_sign.
Qed.

(** An admitted workload gets through, and a suspended or superseded one does not. If the
    authority issues an assertion for an admitted workload, a request that carries the
    assertion with the binding made from it is admitted live while the live state is the
    asserted one; as soon as the live state moves to another generation or status the same
    request is refused as not current, and without live state it is refused unless the policy
    allows degraded mode. *)
Lemma issued_assertion_admits `{Base64Laws, Sha2, Ed25519Laws, SerdeJsonLaws, !Serde AdmissionHeader,
    !Serde AdmissionClaims, !SerdeLaws (T := AdmissionHeader), !SerdeLaws (T := AdmissionClaims)}
    claims root jws auds policy now resolve generation status :
  issue_admission_assertion claims (local_sig root) = Ok jws →
  ac_mcp_re_admission_status claims = StAdmitted →
  resolve (ac_issuer_kid claims) = Some (SigningKey_public_key root) →
  (∃ a, a ∈ auds ∧ audience_contains (ac_aud claims) a = true) →
  assertion_fresh claims policy now = true →
  let check auth := check_admission (opaque_from claims) jws (ac_mcp_re_admitted_actor claims) auth
                      (ac_mcp_re_profile claims) auds policy now resolve in
  let id := ac_mcp_re_admission_id claims in
  let asserted := ac_mcp_re_admission_generation claims in
  check (Some (AuthoritativeAdmission_new id asserted StAdmitted)) = Ok (Live (admitted_facts claims)) ∧
  (generation ≠ asserted ∨ status ≠ StAdmitted →
     check (Some (AuthoritativeAdmission_new id generation status)) = Err HPE.AdmissionNotCurrent) ∧
  (ap_allow_degraded_mode policy = false → check None = Err HPE.AdmissionStateUnavailable).
Proof.
  intros Hi Hst Hr Ha Hf check id asserted.
  assert (verify_admission_assertion jws (ac_mcp_re_profile claims) auds policy now resolve = Ok claims) as Hv.
  { apply verify_admission_assertion_fresh. apply issued_assertion_signed in Hi. eauto 10. }
  unfold check, check_admission. rewrite Hv. unfold matches_state. simpl.
  rewrite !bytes_eqb_refl, !Z.eqb_refl, !bool_decide_true by done. cbn [negb orb andb].
  split_and!; [done| |by intros ->]. intros Hne. destruct (ac_mcp_re_admission_generation claims =? generation) eqn:Eg; [|done].
  apply Z.eqb_eq in Eg. simpl. rewrite bool_decide_false; [done|]. subst asserted. naive_solver.
Qed.

(** ** Witnesses *)

Import Instances.

Definition w_admission : AdmissionClaims :=
  {| ac_iss := b#"auth"; ac_iat := 100; ac_nbf := 100; ac_exp := 200; ac_jti := b#"j"; ac_aud := Many [b#"me"];
     ac_mcp_re_profile := PROFILE_TAG; ac_mcp_re_admission_id := b#"w7"; ac_mcp_re_admitted_actor := b#"a";
     ac_mcp_re_admission_generation := 5; ac_mcp_re_admitted_state_digest := b#"st";
     ac_mcp_re_admission_status := StAdmitted; ac_issuer_kid := b#"k1" |}.
#[local] Instance w_admission_header_serde : Serde AdmissionHeader :=
  one_value_serde {| ah_typ := ADMISSION_TYP; ah_alg := ADMISSION_ALG; ah_kid := b#"k1" |} b#"h".
#[local] Instance w_admission_header_serde_laws : SerdeLaws (T := AdmissionHeader).
Proof. apply one_value_serde_laws. Qed.
#[local] Instance w_admission_serde : Serde AdmissionClaims := one_value_serde w_admission b#"c".
#[local] Instance w_admission_serde_laws : SerdeLaws (T := AdmissionClaims).
Proof. apply one_value_serde_laws. Qed.
Definition w_assertion : bytes :=
  match issue_admission_assertion w_admission (local_sig w_key) with Ok j => j | Err _ => [] end.
Definition w_issuer : bytes → option VerificationKey := λ _, Some (SigningKey_public_key w_key).
