(* ===== verification/Records.v ===== *)
(** * [mcp-re-http-profile/src/pdp_decision], [authoritative_admission/record]

    Two signed records, each a compact JWS under one authority's key: an authorization decision
    of a policy decision point, and an admission authority's statement of a workload's state.
    Issuing and verifying of both. *)

From S2P Require Import Prelude.
From S2P Require Import RustStr.
From S2P Require Import Externals.
From S2P Require Import Concrete.
From S2P Require Import CoreError.
From S2P Require Import CoreResolver.
From S2P Require Import HttpMessage.
From S2P Require Import Sign.
From S2P Require Import Delegation.
From S2P Require Import Admission.

(** ** [pdp_decision/claims.rs] *)

Definition PDP_DECISION_TYP : bytes := b#"mcp-re-authorization-decision+jws".
Definition PDP_DECISION_ALG : bytes := b#"EdDSA".

Inductive PdpDecisionOutcome : Type := Permit | Deny.
Inductive DecidedActor : Type :=
  | DecidedPrincipal (trust_domain subject : bytes)
  | DecidedCredential (trust_domain subject keyid : bytes).
Inductive DecisionScope : Type := ScopePrincipal | ScopeCredential.

Definition decided_trust_domain (a : DecidedActor) : bytes :=
  match a with DecidedPrincipal d _ | DecidedCredential d _ _ => d end.
Definition decided_subject (a : DecidedActor) : bytes :=
  match a with DecidedPrincipal _ s | DecidedCredential _ s _ => s end.
Definition decided_keyid (a : DecidedActor) : option bytes :=
  match a with DecidedPrincipal _ _ => None | DecidedCredential _ _ k => Some k end.
Definition decided_scope (a : DecidedActor) : DecisionScope :=
  match a with DecidedPrincipal _ _ => ScopePrincipal | DecidedCredential _ _ _ => ScopeCredential end.

Record PdpDecisionHeader := { ph_typ : bytes; ph_alg : bytes; ph_kid : bytes }.
Record PdpDecisionClaims := {
  pc_iss : bytes;
  pc_iat : Z;
  pc_nbf : Z;
  pc_exp : Z;
  pc_jti : bytes;
  pc_aud : Audience;
  pc_mcp_re_profile : bytes;
  pc_mcp_re_decided_actor : DecidedActor;
  pc_mcp_re_decided_operation : bytes;
  pc_mcp_re_decided_target : option bytes;
  pc_mcp_re_decision : PdpDecisionOutcome;
  pc_mcp_re_policy_version : bytes;
  pc_issuer_kid : bytes;
}.

#[global] Instance PdpDecisionOutcome_eq_dec : EqDecision PdpDecisionOutcome.
Proof. solve_decision. Defined.
#[global] Instance DecidedActor_eq_dec : EqDecision DecidedActor.
Proof. solve_decision. Defined.
#[global] Instance PdpDecisionHeader_eq_dec : EqDecision PdpDecisionHeader.
Proof. solve_decision. Defined.
#[global] Instance PdpDecisionClaims_eq_dec : EqDecision PdpDecisionClaims.
Proof. solve_decision. Defined.

(** ** [pdp_decision/verify.rs] *)

Inductive PdpDecisionRefusal : Type :=
  | PdpMalformed (what : bytes)
  | PdpIssuerUntrusted
  | PdpSignatureInvalid
  | PdpProfileMismatch
  | PdpAudienceMismatch
  | PdpExpired
  | PdpStale
  | PdpIssuedInTheFuture.

Record PdpDecisionFreshness := { pf_max_clock_skew : Z; pf_max_decision_age : Z }.

Definition pdp_split_compact (jws : bytes) : Result (bytes * bytes * bytes) PdpDecisionRefusal :=
  ok_or (three_segments jws) (PdpMalformed b#"compact jws shape").

Section pdp.
Context `{Base64, Sha2, Ed25519, SerdeJson}.
Context `{!Serde PdpDecisionHeader, !Serde PdpDecisionClaims}.

Definition pdp_decode_json `{!Serde T} (seg : bytes) : Result T PdpDecisionRefusal :=
  let? b := map_err (λ _, PdpMalformed b#"base64url") (b64url_decode seg) in
  ok_or (from_slice_as b) (PdpMalformed b#"json").

Definition pdp_s_seg_to_b64url (s_seg : bytes) : Result bytes PdpDecisionRefusal :=
  let? _ := map_err (λ _, PdpMalformed b#"signature segment") (b64url_decode s_seg) in
  Ok s_seg.

Definition verify_authorization_decision (compact_jws expected_profile : bytes)
    (verifier_audiences : list bytes) (freshness : PdpDecisionFreshness) (now : Z)
    (resolve_issuer : bytes → option VerificationKey) : Result PdpDecisionClaims PdpDecisionRefusal :=
  let? (h_seg, p_seg, s_seg) := pdp_split_compact compact_jws in
  let? header := pdp_decode_json (T := PdpDecisionHeader) h_seg in
  if negb (bytes_eqb (ph_typ header) PDP_DECISION_TYP) || negb (bytes_eqb (ph_alg header) PDP_DECISION_ALG)
  then Err (PdpMalformed b#"typ/alg")
  else
    let? claims := pdp_decode_json (T := PdpDecisionClaims) p_seg in
    if negb (bytes_eqb (ph_kid header) (pc_issuer_kid claims))
    then Err (PdpMalformed b#"header kid disagrees with claims")
    else
      let? root := ok_or (resolve_issuer (pc_issuer_kid claims)) PdpIssuerUntrusted in
      let? s := pdp_s_seg_to_b64url s_seg in
      map_err (λ _, PdpSignatureInvalid)
        (verify_ed25519_with (h_seg ++ b#"." ++ p_seg) s root InvalidSignature) ;?
      if negb (bytes_eqb (pc_mcp_re_profile claims) expected_profile) then Err PdpProfileMismatch
      else if negb (existsb (audience_contains (pc_aud claims)) verifier_audiences) then Err PdpAudienceMismatch
      else
        let skew := pf_max_clock_skew freshness in
        if (now <? saturating_sub (pc_nbf claims) skew) || (saturating_add (pc_exp claims) skew <=? now)
           || (pc_exp claims <=? pc_nbf claims)
        then Err PdpExpired
        else if now <? saturating_sub (pc_iat claims) skew then Err PdpIssuedInTheFuture
        else if saturating_add (pf_max_decision_age freshness) skew <? saturating_sub now (pc_iat claims)
        then Err PdpStale
        else Ok claims.

(** ** [pdp_decision/issue.rs] *)

Definition issue_authorization_decision (claims : PdpDecisionClaims) (sign_root : base_signer)
  : Result bytes HttpProfileError :=
  let header := {| ph_typ := PDP_DECISION_TYP; ph_alg := PDP_DECISION_ALG; ph_kid := pc_issuer_kid claims |} in
  let? hj := ok_or (to_vec_of header) (HPE.MalformedEvidence b#"decision header") in
  let h := b64url_encode hj in
  let? pj := ok_or (to_vec_of claims) (HPE.MalformedEvidence b#"decision claims") in
  let p := b64url_encode pj in
  let? sig := sign_root (h ++ b#"." ++ p) in
  Ok (h ++ b#"." ++ p ++ b#"." ++ b64url_encode sig).
End pdp.

(** ** [authoritative_admission/record/mod.rs] *)

Definition ADMISSION_STATE_TYP : bytes := b#"mcp-re-admission-state+jws".
Definition ADMISSION_STATE_ALG : bytes := b#"EdDSA".

Record AdmissionStateHeader := { sh_typ : bytes; sh_alg : bytes; sh_kid : bytes }.
Record AdmissionStateClaims := {
  sc_iss : bytes;
  sc_iat : Z;
  sc_nbf : Z;
  sc_exp : Z;
  sc_mcp_re_profile : bytes;
  sc_mcp_re_admission_id : bytes;
  sc_mcp_re_admission_generation : Z;
  sc_mcp_re_admission_status : AdmissionStatus;
  sc_mcp_re_state_revision : Z;
  sc_issuer_kid : bytes;
}.

#[global] Instance AdmissionStateHeader_eq_dec : EqDecision AdmissionStateHeader.
Proof. solve_decision. Defined.
#[global] Instance AdmissionStateClaims_eq_dec : EqDecision AdmissionStateClaims.
Proof. solve_decision. Defined.

(** ** [record/currentness.rs] *)

Inductive AdmissionRecordRefusal : Type :=
  | ArMalformed | ArIssuerUntrusted | ArSignatureInvalid | ArProfileMismatch
  | ArSubjectMismatch | ArExpired | ArWindowExceedsBudget | ArRevisionRewound.

Definition ADMISSION_RECORD_REFUSAL_COUNT : nat := 8.
Definition refusal_discriminant_index (r : AdmissionRecordRefusal) : nat :=
  match r with
  | ArMalformed => 0 | ArIssuerUntrusted => 1 | ArSignatureInvalid => 2 | ArProfileMismatch => 3
  | ArSubjectMismatch => 4 | ArExpired => 5 | ArWindowExceedsBudget => 6 | ArRevisionRewound => 7
  end.

Definition refusal_display (r : AdmissionRecordRefusal) : bytes :=
  match r with
  | ArMalformed => b#"malformed"
  | ArIssuerUntrusted => b#"issuer is not the configured authority"
  | ArSignatureInvalid => b#"signature invalid"
  | ArProfileMismatch => b#"wrong evidence profile"
  | ArSubjectMismatch => b#"record is about another workload"
  | ArExpired => b#"past the declared currentness ceiling"
  | ArWindowExceedsBudget => b#"issuer window exceeds the declared currentness budget"
  | ArRevisionRewound => b#"publication sequence rewound"
  end.

Record AdmissionStateCurrentness := { asc_max_record_age : Z; asc_max_clock_skew : Z }.

Definition check_currentness (claims : AdmissionStateClaims) (currentness : AdmissionStateCurrentness) (now : Z)
  : Result unit AdmissionRecordRefusal :=
  let skew := asc_max_clock_skew currentness in
  if (now <? saturating_sub (sc_nbf claims) skew) || (saturating_add (sc_exp claims) skew <=? now)
     || (sc_exp claims <=? sc_nbf claims) || (saturating_add now skew <? sc_iat claims)
  then Err ArExpired
  else if asc_max_record_age currentness <? saturating_sub (sc_exp claims) (sc_iat claims)
  then Err ArWindowExceedsBudget
  else Ok tt.

(** ** [record/verified.rs] *)

Record CurrentAdmissionState := { cas_state : AuthoritativeAdmission; cas_revision : Z }.

Definition record_split_compact (jws : bytes) : Result (bytes * bytes * bytes) AdmissionRecordRefusal :=
  ok_or (three_segments jws) ArMalformed.

Section record.
Context `{Base64, Sha2, Ed25519, SerdeJson}.
Context `{!Serde AdmissionStateHeader, !Serde AdmissionStateClaims}.

Definition record_decode_json `{!Serde T} (seg : bytes) : Result T AdmissionRecordRefusal :=
  let? b := map_err (λ _, ArMalformed) (b64url_decode seg) in
  ok_or (from_slice_as b) ArMalformed.

Definition normalize_signature (s_seg : bytes) : Result bytes AdmissionRecordRefusal :=
  let? b := map_err (λ _, ArMalformed) (b64url_decode s_seg) in
  Ok (b64url_encode b).

Definition verify_admission_state_record (compact_jws expected_admission_id expected_profile : bytes)
    (currentness : AdmissionStateCurrentness) (observed_revision_floor : option Z) (now : Z)
    (resolve_issuer : bytes → option VerificationKey) : Result CurrentAdmissionState AdmissionRecordRefusal :=
  let? (h_seg, p_seg, s_seg) := record_split_compact compact_jws in
  let? header := record_decode_json (T := AdmissionStateHeader) h_seg in
  if negb (bytes_eqb (sh_typ header) ADMISSION_STATE_TYP) || negb (bytes_eqb (sh_alg header) ADMISSION_STATE_ALG)
  then Err ArMalformed
  else
    let? claims := record_decode_json (T := AdmissionStateClaims) p_seg in
    if negb (bytes_eqb (sh_kid header) (sc_issuer_kid claims)) then Err ArMalformed
    else
      let? authority := ok_or (resolve_issuer (sc_issuer_kid claims)) ArIssuerUntrusted in
      let? s := normalize_signature s_seg in
      map_err (λ _, ArSignatureInvalid)
        (verify_ed25519_with (h_seg ++ b#"." ++ p_seg) s authority InvalidSignature) ;?
      if negb (bytes_eqb (sc_mcp_re_profile claims) expected_profile) then Err ArProfileMismatch
      else if negb (bytes_eqb (sc_mcp_re_admission_id claims) expected_admission_id) then Err ArSubjectMismatch
      else
        check_currentness claims currentness now ;?
        if match observed_revision_floor with
           | Some floor => sc_mcp_re_state_revision claims <? floor
           | None => false
           end
        then Err ArRevisionRewound
        else Ok {| cas_state := AuthoritativeAdmission_new (sc_mcp_re_admission_id claims)
                                  (sc_mcp_re_admission_generation claims) (sc_mcp_re_admission_status claims);
                   cas_revision := sc_mcp_re_state_revision claims |}.

Definition issue_admission_state_record (claims : AdmissionStateClaims) (sign_root : base_signer)
  : Result bytes HttpProfileError :=
  let header := {| sh_typ := ADMISSION_STATE_TYP; sh_alg := ADMISSION_STATE_ALG; sh_kid := sc_issuer_kid claims |} in
  let? hj := ok_or (to_vec_of header) (HPE.MalformedEvidence b#"admission state header") in
  let h := b64url_encode hj in
  let? pj := ok_or (to_vec_of claims) (HPE.MalformedEvidence b#"admission state claims") in
  let p := b64url_encode pj in
  let? sig := sign_root (h ++ b#"." ++ p) in
  if negb (length sig =? ED25519_SIGNATURE_LEN)%nat
  then Err (HPE.MalformedEvidence b#"admission state signature length")
  else Ok (h ++ b#"." ++ p ++ b#"." ++ b64url_encode sig).
End record.

(** ** Signed records *)

Section jws.
Context `{Base64, Ed25519, SerdeJson}.

Definition segment_decodes `{!Serde T} (seg : bytes) (t : T) : Prop :=
  ∃ b, url_decode seg = Some b ∧ from_slice_as b = Some t.

(** The text is a JWS over this header and these claims, and [root] verifies it. *)
Definition jws_signed_by `{!Serde T, !Serde U} (root : VerificationKey) (jws : bytes) (header : T) (claims : U) : Prop :=
  ∃ h p s sig, three_segments jws = Some (h, p, s) ∧ segment_decodes h header ∧ segment_decodes p claims ∧
    url_decode s = Some sig ∧ length sig = SIGNATURE_LEN ∧
    verify_strict (vk_inner root) (h ++ b#"." ++ p) sig = true.

Lemma decodes_Ok `{!Serde T} {E} (f : McpReError → E) (e : E) seg (t : T) :
  (let? b := map_err f (b64url_decode seg) in ok_or (from_slice_as b) e) = Ok t ↔ segment_decodes seg t.
Proof.
  unfold segment_decodes, b64url_decode. destruct (url_decode seg) as [b|]; simpl; [|naive_solver].
  rewrite ok_or_Ok. naive_solver.
Qed.

Lemma segment_decodes_encoded `{!Serde T, !SerdeLaws (T := T), !Base64Laws, !SerdeJsonLaws} (t : T) b :
  to_vec_of t = Some b → segment_decodes (url_encode b) t.
Proof. intros Hb. exists b. split; [apply url_decode_encode|by apply from_slice_to_vec_of]. Qed.

(** What a local key signs over the encodings is signed by its public key. *)
Lemma jws_signed_encoded `{!Serde T, !SerdeLaws (T := T), !Serde U, !SerdeLaws (T := U), !Base64Laws,
    !SerdeJsonLaws, !Ed25519Laws} (key : SigningKey) (header : T) (claims : U) hj pj sig :
  to_vec_of header = Some hj → to_vec_of claims = Some pj →
  local_sig key (url_encode hj ++ b#"." ++ url_encode pj) = Ok sig →
  jws_signed_by (SigningKey_public_key key)
    (url_encode hj ++ b#"." ++ url_encode pj ++ b#"." ++ url_encode sig) header claims.
Proof.
  intros Hh Hp Hs. apply local_sig_Ok in Hs as ->.
  eexists _, _, _, _. split_and!; [|by apply segment_decodes_encoded..|apply url_decode_encode| |apply verify_strict_sign].
  - apply three_segments_encoded; [exact (to_vec_of_nonempty _ _ Hh)|exact (to_vec_of_nonempty _ _ Hp)|].
    intros Hd. apply (f_equal length) in Hd. by rewrite dalek_sign_length in Hd.
  - by rewrite dalek_sign_length.
Qed.
End jws.

(** ** Decisions *)

Definition decision_names (header : PdpDecisionHeader) (claims : PdpDecisionClaims) : Prop :=
  ph_typ header = PDP_DECISION_TYP ∧ ph_alg header = PDP_DECISION_ALG ∧ ph_kid header = pc_issuer_kid claims.

(** The window and the age, in mathematical integers. *)
Definition decision_fresh (claims : PdpDecisionClaims) (f : PdpDecisionFreshness) (now : Z) : Prop :=
  pc_nbf claims - pf_max_clock_skew f ≤ now < pc_exp claims + pf_max_clock_skew f ∧
  pc_nbf claims < pc_exp claims ∧
  pc_iat claims - pf_max_clock_skew f ≤ now ≤ pc_iat claims + pf_max_decision_age f + pf_max_clock_skew f.

(** Where the machine arithmetic is exact: a non-negative skew, bounds that do not overflow
    when added, and a clock before the last representable second. *)
Definition decision_in_range (claims : PdpDecisionClaims) (f : PdpDecisionFreshness) (now : Z) : Prop :=
  is_i64 (pc_nbf claims) ∧ is_i64 (pc_exp claims) ∧ is_i64 (pc_iat claims) ∧ is_i64 now ∧ now < i64_MAX ∧
  0 ≤ pf_max_clock_skew f ∧ i64_MIN ≤ pf_max_decision_age f + pf_max_clock_skew f < i64_MAX.

Lemma decision_fresh_machine claims f now : decision_in_range claims f now →
  (now <? saturating_sub (pc_nbf claims) (pf_max_clock_skew f))
    || (saturating_add (pc_exp claims) (pf_max_clock_skew f) <=? now) || (pc_exp claims <=? pc_nbf claims) = false ∧
  (now <? saturating_sub (pc_iat claims) (pf_max_clock_skew f)) = false ∧
  (saturating_add (pf_max_decision_age f) (pf_max_clock_skew f) <? saturating_sub now (pc_iat claims)) = false
  ↔ decision_fresh claims f now.
Proof.
  unfold decision_in_range, decision_fresh. intros Hr.
  rewrite !orb_false_iff, !Z.ltb_ge, !Z.leb_gt. i64_lia.
Qed.

Section decisions.
Context `{Base64, Sha2, Ed25519, SerdeJson}.
Context `{!Serde PdpDecisionHeader, !Serde PdpDecisionClaims}.

(** The accepting runs, in the machine's arithmetic. *)
Lemma verify_authorization_decision_Ok jws profile audiences f now resolve claims :
  verify_authorization_decision jws profile audiences f now resolve = Ok claims ↔
    ∃ header root, jws_signed_by root jws header claims ∧ decision_names header claims ∧
      resolve (pc_issuer_kid claims) = Some root ∧
      pc_mcp_re_profile claims = profile ∧ (∃ a, a ∈ audiences ∧ audience_contains (pc_aud claims) a = true) ∧
      (now <? saturating_sub (pc_nbf claims) (pf_max_clock_skew f))
        || (saturating_add (pc_exp claims) (pf_max_clock_skew f) <=? now) || (pc_exp claims <=? pc_nbf claims) = false ∧
      (now <? saturating_sub (pc_iat claims) (pf_max_clock_skew f)) = false ∧
      (saturating_add (pf_max_decision_age f) (pf_max_clock_skew f) <? saturating_sub now (pc_iat claims)) = false.
Proof.
  unfold verify_authorization_decision, pdp_split_compact, jws_signed_by, decision_names, pdp_s_seg_to_b64url, pdp_decode_json.
  split.
  - intros Hv. destruct (three_segments jws) as [[[h p] s]|] eqn:Et; [|done]. cbn [ok_or] in Hv.
    destruct (let? b := _ in ok_or (from_slice_as b) _) as [header|] eqn:Eh in Hv; [|done].
    apply decodes_Ok in Eh. destruct (_ || _) eqn:En in Hv; [done|].
    destruct (let? b := _ in ok_or (from_slice_as b) _) as [c|] eqn:Ec in Hv; [|done].
    apply decodes_Ok in Ec. inv_ok. bool_prop. str_prop. subst.
    match goal with Hsig : verify_ed25519_with _ _ _ _ = Ok _ |- _ =>
      apply verify_ed25519_with_Ok in Hsig as (sig & ? & ? & ?) end.
    eexists header, _. split; [by eexists _, _, _, _; split_and!|]. rewrite !orb_false_iff, !Z.ltb_ge, !Z.leb_gt.
    split_and!; try done. by apply existsb_elem.
  - intros (header & root & (h & p & s & sig & Ht & Hh & Hp & Hs & Hl & Hv) & (Ht1 & Ht2 & Hk) & Hr & Hpr & Ha%existsb_elem & F1 & F2 & F3).
    rewrite Ht. cbn [ok_or]. rewrite (proj2 (decodes_Ok _ _ _ _) Hh), Ht1, Ht2, !bytes_eqb_refl. cbn [negb orb].
    rewrite (proj2 (decodes_Ok _ _ _ _) Hp), Hk, !bytes_eqb_refl. cbn [negb orb]. rewrite Hr. cbn [ok_or].
    unfold b64url_decode at 1. rewrite Hs. cbn [ok_or map_err].
    rewrite (proj2 (verify_ed25519_with_Ok _ _ _ _ tt)) by eauto. cbn [map_err].
    by rewrite Hpr, bytes_eqb_refl, Ha, F1, F2, F3.
Qed.
End decisions.

(** ** Admission records *)

Definition record_names (header : AdmissionStateHeader) (claims : AdmissionStateClaims) : Prop :=
  sh_typ header = ADMISSION_STATE_TYP ∧ sh_alg header = ADMISSION_STATE_ALG ∧ sh_kid header = sc_issuer_kid claims.

(** A current record, in mathematical integers. *)
Definition record_current (claims : AdmissionStateClaims) (c : AdmissionStateCurrentness) (now : Z) : Prop :=
  sc_nbf claims - asc_max_clock_skew c ≤ now < sc_exp claims + asc_max_clock_skew c ∧
  sc_nbf claims < sc_exp claims ∧ sc_iat claims ≤ now + asc_max_clock_skew c ∧
  sc_exp claims - sc_iat claims ≤ asc_max_record_age c.

Definition record_in_range (claims : AdmissionStateClaims) (c : AdmissionStateCurrentness) (now : Z) : Prop :=
  is_i64 (sc_nbf claims) ∧ is_i64 (sc_exp claims) ∧ is_i64 (sc_iat claims) ∧ is_i64 now ∧ now < i64_MAX ∧
  0 ≤ asc_max_clock_skew c ∧ i64_MIN ≤ asc_max_record_age c < i64_MAX.

Lemma check_currentness_Ok claims c now u : record_in_range claims c now →
  check_currentness claims c now = Ok u ↔ record_current claims c now.
Proof.
  destruct u. intros Hr. unfold check_currentness. cbv zeta.
  transitivity ((now <? saturating_sub (sc_nbf claims) (asc_max_clock_skew c))
    || (saturating_add (sc_exp claims) (asc_max_clock_skew c) <=? now)
    || (sc_exp claims <=? sc_nbf claims) || (saturating_add now (asc_max_clock_skew c) <? sc_iat claims) = false ∧
    (asc_max_record_age c <? saturating_sub (sc_exp claims) (sc_iat claims)) = false).
  - destruct (_ || _); [naive_solver|]. destruct (_ <? saturating_sub (sc_exp claims) _); naive_solver.
  - unfold record_in_range, record_current in *. rewrite !orb_false_iff, !Z.ltb_ge, !Z.leb_gt. i64_lia.
Qed.

(** The floor of the revisions a verifier has seen. *)
Definition at_least (floor : option Z) (revision : Z) : Prop :=
  match floor with Some f => f ≤ revision | None => True end.

Definition state_of (claims : AdmissionStateClaims) : CurrentAdmissionState :=
  {| cas_state := AuthoritativeAdmission_new (sc_mcp_re_admission_id claims)
                    (sc_mcp_re_admission_generation claims) (sc_mcp_re_admission_status claims);
     cas_revision := sc_mcp_re_state_revision claims |}.

Section records.
Context `{Base64Laws, Sha2, Ed25519, SerdeJson}.
Context `{!Serde AdmissionStateHeader, !Serde AdmissionStateClaims}.

Lemma verify_admission_state_record_Ok jws id profile c floor now resolve st :
  verify_admission_state_record jws id profile c floor now resolve = Ok st ↔
    ∃ header claims root, jws_signed_by root jws header claims ∧ record_names header claims ∧
      resolve (sc_issuer_kid claims) = Some root ∧
      sc_mcp_re_profile claims = profile ∧ sc_mcp_re_admission_id claims = id ∧
      check_currentness claims c now = Ok tt ∧ at_least floor (sc_mcp_re_state_revision claims) ∧
      st = state_of claims.
Proof.
  unfold verify_admission_state_record, record_split_compact, jws_signed_by, record_names, normalize_signature,
    record_decode_json. split.
  - intros Hv. destruct (three_segments jws) as [[[h p] s]|] eqn:Et; [|done]. cbn [ok_or] in Hv.
    destruct (let? b := _ in ok_or (from_slice_as b) _) as [header|] eqn:Eh in Hv; [|done].
    apply decodes_Ok in Eh. destruct (_ || _) eqn:En in Hv; [done|].
    destruct (let? b := _ in ok_or (from_slice_as b) _) as [claims|] eqn:Ec in Hv; [|done].
    apply decodes_Ok in Ec. destruct (check_currentness claims c now) as [[]|] eqn:Ecu; inv_ok; try done.
    bool_prop. str_prop. subst. unfold b64url_decode, b64url_encode in *. inv_ok.
    match goal with Hsig : verify_ed25519_with _ _ _ _ = Ok _ |- _ =>
      apply verify_ed25519_with_Ok in Hsig as (sig & Hd & ? & ?) end.
    match goal with Hs : url_decode s = Some ?b |- _ => pose proof (url_encode_decode _ _ Hs) as Hb; rewrite Hb in Hd end.
    eexists header, claims, _. split; [by eexists _, _, _, _; split_and!|]. split_and!; try done.
    destruct floor as [f|]; [|done]. simpl in *. bool_prop. lia.
  - intros (header & claims & root & (h & p & s & sig & Ht & Hh & Hp & Hs & Hl & Hv) & (Ht1 & Ht2 & Hk) & Hr & <- & <- & Hc & Hf & ->).
    rewrite Ht. cbn [ok_or]. rewrite (proj2 (decodes_Ok _ _ _ _) Hh), Ht1, Ht2, !bytes_eqb_refl. cbn [negb orb].
    rewrite (proj2 (decodes_Ok _ _ _ _) Hp), Hk, !bytes_eqb_refl. cbn [negb orb]. rewrite Hr. cbn [ok_or].
    unfold b64url_decode at 1. rewrite Hs. cbn [ok_or map_err]. unfold b64url_encode.
    rewrite (proj2 (verify_ed25519_with_Ok _ _ _ _ tt)) by (exists sig; by rewrite url_decode_encode). cbn [map_err].
    rewrite Hc. cbn [negb].
    destruct floor as [f|]; [|done]. simpl in Hf. by replace (_ <? _) with false by lia.
Qed.
End records.

(** ** Properties *)

(** An authorization decision is accepted exactly when it is genuine, addressed here and
    fresh. For claims and bounds in the range where the machine's arithmetic is exact, the
    verifier returns [claims] if and only if the text is a JWS over a header of the decision
    type and over those claims, signed by the key the resolver has for the issuer the claims
    name; the profile is the expected one and an audience is one of the verifier's; the
    window, widened by the skew, contains now and is not empty; and the decision was made
    neither after now nor longer ago than the allowed age. *)
Lemma authorization_decision_exact `{Base64, Sha2, Ed25519, SerdeJson,
    !Serde PdpDecisionHeader, !Serde PdpDecisionClaims} jws profile audiences f now resolve claims :
  decision_in_range claims f now →
  verify_authorization_decision jws profile audiences f now resolve = Ok claims ↔
    ∃ header root, jws_signed_by root jws header claims ∧ decision_names header claims ∧
      resolve (pc_issuer_kid claims) = Some root ∧
      pc_mcp_re_profile claims = profile ∧ (∃ a, a ∈ audiences ∧ audience_contains (pc_aud claims) a = true) ∧
      decision_fresh claims f now.
Proof.
  intros Hr. rewrite verify_authorization_decision_Ok.
  split; intros (header & root & Hs & Hn & Hres & Hp & Ha & Hf); exists header, root; split_and!; try done;
    by apply decision_fresh_machine.
Qed.

(** A decision the authority issues is accepted with its claims. *)
Lemma issued_decision_verifies `{Base64Laws, Sha2, Ed25519Laws, SerdeJsonLaws,
    !Serde PdpDecisionHeader, !Serde PdpDecisionClaims,
    !SerdeLaws (T := PdpDecisionHeader), !SerdeLaws (T := PdpDecisionClaims)}
    key claims jws audiences f now resolve :
  issue_authorization_decision claims (local_sig key) = Ok jws →
  resolve (pc_issuer_kid claims) = Some (SigningKey_public_key key) →
  (∃ a, a ∈ audiences ∧ audience_contains (pc_aud claims) a = true) →
  decision_in_range claims f now → decision_fresh claims f now →
  verify_authorization_decision jws (pc_mcp_re_profile claims) audiences f now resolve = Ok claims.
Proof.
  unfold issue_authorization_decision, b64url_encode. intros Hi Hres Ha Hr Hf. inv_ok.
  apply verify_authorization_decision_Ok. eexists _, _.
  split; [by eapply jws_signed_encoded|]. split; [done|]. split; [exact Hres|]. split_and!; try done;
    by apply decision_fresh_machine.
Qed.

(** An admission record is accepted exactly when it is the authority's current word on
    this workload. The verifier returns a state if and only if the text is a JWS over a header
    of the record type and over claims, signed by the key the resolver has for the issuer
    they name, of the expected profile and about the expected workload; the record's window,
    widened by the skew, contains now and is no longer than the budget; the revision is not
    below the floor already seen; and the state and revision are the ones claimed. Hence a
    verifier that raises its floor to each revision it accepts never goes back. *)
Lemma admission_record_exact `{Base64Laws, Sha2, Ed25519, SerdeJson,
    !Serde AdmissionStateHeader, !Serde AdmissionStateClaims} jws id profile c floor now resolve st :
  (∀ h p s claims, three_segments jws = Some (h, p, s) → segment_decodes p claims → record_in_range claims c now) →
  verify_admission_state_record jws id profile c floor now resolve = Ok st ↔
    ∃ header claims root, jws_signed_by root jws header claims ∧ record_names header claims ∧
      resolve (sc_issuer_kid claims) = Some root ∧
      sc_mcp_re_profile claims = profile ∧ sc_mcp_re_admission_id claims = id ∧
      record_current claims c now ∧ at_least floor (sc_mcp_re_state_revision claims) ∧ st = state_of claims.
Proof.
  intros Hr. rewrite verify_admission_state_record_Ok.
  split; intros (header & claims & root & Hs & Hn & Hres & Hp & Hid & Hc & Hf);
    (assert (record_in_range claims c now) by (destruct Hs as (h & p & s & sig & ? & _ & ? & _); eauto));
    exists header, claims, root; split_and!; try done; try apply Hf; by apply (check_currentness_Ok _ _ _ tt).
Qed.

(** A record the authority issues is accepted, with the state it claims. *)
Lemma issued_record_verifies `{Base64Laws, Sha2, Ed25519Laws, SerdeJsonLaws,
    !Serde AdmissionStateHeader, !Serde AdmissionStateClaims,
    !SerdeLaws (T := AdmissionStateHeader), !SerdeLaws (T := AdmissionStateClaims)}
    key claims jws c floor now resolve :
  issue_admission_state_record claims (local_sig key) = Ok jws →
  resolve (sc_issuer_kid claims) = Some (SigningKey_public_key key) →
  record_in_range claims c now → record_current claims c now →
  at_least floor (sc_mcp_re_state_revision claims) →
  verify_admission_state_record jws (sc_mcp_re_admission_id claims) (sc_mcp_re_profile claims) c floor now resolve =
    Ok (state_of claims).
Proof.
  unfold issue_admission_state_record, b64url_encode. intros Hi Hres Hr Hc Hf. inv_ok.
  apply verify_admission_state_record_Ok. eexists _, claims, _.
  split; [by eapply jws_signed_encoded|]. split; [done|]. split; [exact Hres|]. split_and!; try done.
  by apply check_currentness_Ok.
Qed.

(** ** Witnesses *)

Import Instances.

Definition w_decision : PdpDecisionClaims :=
  {| pc_iss := b#"pdp"; pc_iat := 95; pc_nbf := 90; pc_exp := 190; pc_jti := b#"j"; pc_aud := One b#"me";
     pc_mcp_re_profile := PROFILE_TAG; pc_mcp_re_decided_actor := DecidedPrincipal b#"d" b#"s";
     pc_mcp_re_decided_operation := b#"tools/call"; pc_mcp_re_decided_target := None; pc_mcp_re_decision := Permit;
     pc_mcp_re_policy_version := b#"v1"; pc_issuer_kid := b#"k1" |}.
Definition w_decision_header : PdpDecisionHeader :=
  {| ph_typ := PDP_DECISION_TYP; ph_alg := PDP_DECISION_ALG; ph_kid := b#"k1" |}.
#[local] Instance w_decision_header_serde : Serde PdpDecisionHeader := one_value_serde w_decision_header b#"h".
#[local] Instance w_decision_serde : Serde PdpDecisionClaims := one_value_serde w_decision b#"c".
Definition w_decision_jws : bytes :=
  match issue_authorization_decision w_decision (local_sig w_key) with Ok b => b | Err _ => [] end.
Definition w_freshness : PdpDecisionFreshness := {| pf_max_clock_skew := 5; pf_max_decision_age := 60 |}.
Definition w_authority (kid : bytes) : option VerificationKey :=
  if bytes_eqb kid b#"k1" then Some (SigningKey_public_key w_key) else None.

Definition w_state : AdmissionStateClaims :=
  {| sc_iss := b#"authority"; sc_iat := 95; sc_nbf := 90; sc_exp := 150; sc_mcp_re_profile := PROFILE_TAG;
     sc_mcp_re_admission_id := b#"w1"; sc_mcp_re_admission_generation := 3;
     sc_mcp_re_admission_status := StAdmitted; sc_mcp_re_state_revision := 7; sc_issuer_kid := b#"k1" |}.
Definition w_state_header : AdmissionStateHeader :=
  {| sh_typ := ADMISSION_STATE_TYP; sh_alg := ADMISSION_STATE_ALG; sh_kid := b#"k1" |}.
#[local] Instance w_state_header_serde : Serde AdmissionStateHeader := one_value_serde w_state_header b#"h".
#[local] Instance w_state_serde : Serde AdmissionStateClaims := one_value_serde w_state b#"c".
Definition w_state_jws : bytes :=
  match issue_admission_state_record w_state (local_sig w_key) with Ok b => b | Err _ => [] end.
Definition w_currentness : AdmissionStateCurrentness := {| asc_max_record_age := 60; asc_max_clock_skew := 5 |}.
