(* ===== verification/Merkle.v ===== *)
(** * [mcp-re-http-profile/src/scitt]: the Merkle tree of the transparency log

    [scitt/prototype/tree.rs] builds the RFC 9162 tree hash and the audit path to a leaf;
    [scitt/merkle.rs] folds a path back to a root without a tree. The two are independent
    implementations; here the second is proved correct against the first. A hash is a byte
    string; a [u64] is an [N]. *)

From S2P Require Import Prelude.
From S2P Require Import RustStr.
From S2P Require Import Externals.
From S2P Require Import Concrete.
From S2P Require Import HttpMessage.

Section merkle.
Context `{Sha2}.

(** ** [scitt/merkle.rs] *)

Definition node_preimage (left right : bytes) : bytes := "001"%char :: left ++ right.
Definition node_hash (left right : bytes) : bytes := sha256 (node_preimage left right).

(** [while fnode != 0 && fnode.is_multiple_of(2) { fnode /= 2; snode /= 2; }]. *)
Fixpoint climb_pos (fnode : positive) (snode : N) : N * N :=
  match fnode with
  | xO f => climb_pos f (N.div2 snode)
  | _ => (Npos fnode, snode)
  end.
Definition climb (fnode snode : N) : N * N :=
  match fnode with N0 => (N0, snode) | Npos f => climb_pos f snode end.

(** The loop over the siblings. [None] is the refusal of a sibling beyond the root. *)
Fixpoint fold_siblings (fnode snode : N) (r : bytes) (path : list bytes) : option (N * N * bytes) :=
  match path with
  | [] => Some (fnode, snode, r)
  | sibling :: path' =>
      if (snode =? 0)%N then None
      else if N.odd fnode || (fnode =? snode)%N
      then let '(f, s) := climb fnode snode in
           fold_siblings (N.div2 f) (N.div2 s) (node_hash sibling r) path'
      else fold_siblings (N.div2 fnode) (N.div2 snode) (node_hash r sibling) path'
  end.

Definition rfc9162_root_from_inclusion_proof (leaf : bytes) (leaf_index tree_size : N)
    (path : list bytes) : Result bytes HttpProfileError :=
  if (tree_size <=? leaf_index)%N then Err HPE.ReceiptInclusionInvalid
  else match fold_siblings leaf_index (N.pred tree_size) leaf path with
       | Some (_, snode, r) => if (snode =? 0)%N then Ok r else Err HPE.ReceiptInclusionInvalid
       | None => Err HPE.ReceiptInclusionInvalid
       end.

(** ** [scitt/prototype/tree.rs] *)

Definition next_power_of_two (n : nat) : nat := 2 ^ Nat.log2_up n.

(** [path] is the vector the recursion pushes onto. The recursion is on halves of the slice,
    so its depth is below the number of leaves; [mth_and_path_equation] shows that this fuel
    is enough. *)
Fixpoint mth_and_path_fuel (fuel : nat) (leaves : list bytes) (target : option nat)
    (path : list bytes) : bytes * list bytes :=
  match fuel with
  | O => (sha256 [], path)
  | S fuel' =>
      match leaves with
      | [] => (sha256 [], path)
      | [single] => (single, path)
      | _ =>
          let k := (next_power_of_two (length leaves) / 2)%nat in
          let left_leaves := take k leaves in
          let right_leaves := drop k leaves in
          match target with
          | Some t =>
              if (t <? k)%nat
              then let '(lft, path) := mth_and_path_fuel fuel' left_leaves (Some t) path in
                   let '(rgt, path) := mth_and_path_fuel fuel' right_leaves None path in
                   (node_hash lft rgt, path ++ [rgt])
              else let '(lft, path) := mth_and_path_fuel fuel' left_leaves None path in
                   let '(rgt, path) := mth_and_path_fuel fuel' right_leaves (Some (t - k)%nat) path in
                   (node_hash lft rgt, path ++ [lft])
          | None =>
              let '(lft, path) := mth_and_path_fuel fuel' left_leaves None path in
              let '(rgt, path) := mth_and_path_fuel fuel' right_leaves None path in
              (node_hash lft rgt, path)
          end
      end
  end.

Definition mth_and_path (leaves : list bytes) (target : option nat) (path : list bytes)
  : bytes * list bytes :=
  mth_and_path_fuel (length leaves) leaves target path.

(** ** The recursion *)

(** The split point is a power of two strictly between 0 and [n], and at least half of [n]. *)
Lemma split_point n :
  (2 ≤ n)%nat → ∃ j, (next_power_of_two n / 2 = 2 ^ j ∧ 2 ^ j < n ≤ 2 * 2 ^ j)%nat.
Proof.
  intros Hn. unfold next_power_of_two. destruct (Nat.log2_up_spec n ltac:(lia)) as [Hlo Hhi].
  destruct (Nat.log2_up n) as [|j] eqn:E; [simpl in Hhi; lia|]. exists j. simpl in Hlo.
  replace (2 ^ S j)%nat with (2 * 2 ^ j)%nat in * by (simpl; lia).
  split; [|lia]. rewrite Nat.mul_comm. by apply Nat.div_mul.
Qed.

Lemma mth_fuel_enough f1 f2 leaves target path :
  (length leaves ≤ f1)%nat → (length leaves ≤ f2)%nat →
  mth_and_path_fuel f1 leaves target path = mth_and_path_fuel f2 leaves target path.
Proof.
  revert f2 leaves target path. induction f1 as [|f1 IH]; intros f2 leaves target path H1 H2.
  { destruct leaves; [|simpl in H1; lia]. by destruct f2. }
  destruct f2 as [|f2]; [destruct leaves; [done|simpl in H2; lia]|]. cbn [mth_and_path_fuel].
  destruct leaves as [|a [|b leaves]]; [done..|].
  destruct (split_point (length (a :: b :: leaves))) as (j & Hk & Hj); [simpl; lia|]. rewrite Hk.
  pose proof (Nat.pow_nonzero 2 j ltac:(lia)) as Hpos.
  assert (∀ t p, mth_and_path_fuel f1 (take (2 ^ j) (a :: b :: leaves)) t p =
                 mth_and_path_fuel f2 (take (2 ^ j) (a :: b :: leaves)) t p) as Hl.
  { intros t p. apply IH; rewrite length_take; lia. }
  assert (∀ t p, mth_and_path_fuel f1 (drop (2 ^ j) (a :: b :: leaves)) t p =
                 mth_and_path_fuel f2 (drop (2 ^ j) (a :: b :: leaves)) t p) as Hr.
  { intros t p. apply IH; rewrite length_drop; lia. }
  destruct target as [t|]; [destruct (t <? 2 ^ j)%nat|]; rewrite Hl;
    destruct (mth_and_path_fuel f2 (take _ _) _ _); by rewrite Hr.
Qed.

(** [MTH] and [PATH] by their definition. *)
Definition mth (leaves : list bytes) : bytes := fst (mth_and_path leaves None []).
Definition audit_path (leaves : list bytes) (t : nat) : list bytes :=
  snd (mth_and_path leaves (Some t) []).

Lemma mth_and_path_equation leaves target path :
  (2 ≤ length leaves)%nat →
  mth_and_path leaves target path =
    let k := (next_power_of_two (length leaves) / 2)%nat in
    match target with
    | Some t =>
        if (t <? k)%nat
        then let '(lft, path) := mth_and_path (take k leaves) (Some t) path in
             let '(rgt, path) := mth_and_path (drop k leaves) None path in
             (node_hash lft rgt, path ++ [rgt])
        else let '(lft, path) := mth_and_path (take k leaves) None path in
             let '(rgt, path) := mth_and_path (drop k leaves) (Some (t - k)%nat) path in
             (node_hash lft rgt, path ++ [lft])
    | None =>
        let '(lft, path) := mth_and_path (take k leaves) None path in
        let '(rgt, path) := mth_and_path (drop k leaves) None path in
        (node_hash lft rgt, path)
    end.
Proof.
  intros Hn. destruct (split_point _ Hn) as (j & Hk & Hj). cbv zeta. rewrite Hk.
  pose proof (Nat.pow_nonzero 2 j ltac:(lia)) as Hpos. unfold mth_and_path.
  rewrite (mth_fuel_enough (length leaves) (S (length leaves))) by lia.
  assert (∀ t p, mth_and_path_fuel (length leaves) (take (2 ^ j) leaves) t p =
                 mth_and_path_fuel (length (take (2 ^ j) leaves)) (take (2 ^ j) leaves) t p) as Hl.
  { intros t p. apply mth_fuel_enough; rewrite length_take; lia. }
  assert (∀ t p, mth_and_path_fuel (length leaves) (drop (2 ^ j) leaves) t p =
                 mth_and_path_fuel (length (drop (2 ^ j) leaves)) (drop (2 ^ j) leaves) t p) as Hr.
  { intros t p. apply mth_fuel_enough; rewrite length_drop; lia. }
  cbn [mth_and_path_fuel]. destruct leaves as [|a [|b leaves]]; [simpl in Hn; lia..|]. rewrite Hk.
  destruct target as [t|]; [destruct (t <? 2 ^ j)%nat|]; rewrite Hl;
    destruct (mth_and_path_fuel (length (take _ _)) _ _ _); by rewrite Hr.
Qed.

(** The hash does not depend on the target, and the path is appended to. *)
Lemma mth_and_path_spec leaves :
  (∀ path, mth_and_path leaves None path = (mth leaves, path)) ∧
  (∀ t path, mth_and_path leaves (Some t) path = (mth leaves, path ++ audit_path leaves t)).
Proof.
  remember (length leaves) as n eqn:En. revert leaves En.
  induction n as [n IH] using lt_wf_ind. intros leaves ->.
  destruct (decide (2 ≤ length leaves)%nat) as [Hn|Hn].
  - destruct (split_point _ Hn) as (j & Hk & Hj). pose proof (Nat.pow_nonzero 2 j ltac:(lia)) as Hpos.
    destruct (IH (length (take (2 ^ j) leaves)) ltac:(rewrite length_take; lia) _ eq_refl) as [Hl Hlt].
    destruct (IH (length (drop (2 ^ j) leaves)) ltac:(rewrite length_drop; lia) _ eq_refl) as [Hr Hrt].
    assert (∀ target path, mth_and_path leaves target path = _) as Heq
      by (intros target path; apply (mth_and_path_equation leaves target path Hn)).
    cbv zeta in Heq. rewrite Hk in Heq. unfold mth, audit_path. setoid_rewrite Heq.
    rewrite Hl, Hr. split; [intros path; by rewrite Hl, Hr|]. intros t path.
    destruct (t <? 2 ^ j)%nat; rewrite ?Hl, ?Hlt, ?Hr, ?Hrt; cbn [fst snd];
      rewrite ?Hl, ?Hlt, ?Hr, ?Hrt; simpl; by rewrite ?(assoc_L (++)).
  - destruct leaves as [|a [|b leaves]]; [| |simpl in Hn; lia]; unfold mth, audit_path; simpl;
      split; intros; by rewrite ?app_nil_r.
Qed.

Lemma mth_split leaves :
  (2 ≤ length leaves)%nat → let k := (next_power_of_two (length leaves) / 2)%nat in
  mth leaves = node_hash (mth (take k leaves)) (mth (drop k leaves)) ∧
  (∀ t, (t < k)%nat → audit_path leaves t = audit_path (take k leaves) t ++ [mth (drop k leaves)]) ∧
  (∀ t, (k ≤ t)%nat → audit_path leaves t = audit_path (drop k leaves) (t - k) ++ [mth (take k leaves)]).
Proof.
  intros Hn k.
  assert (∀ target path, mth_and_path leaves target path = _) as Heq
    by (intros target path; apply (mth_and_path_equation leaves target path Hn)).
  cbv zeta in Heq. fold k in Heq.
  destruct (mth_and_path_spec (take k leaves)) as [Hl Hlt], (mth_and_path_spec (drop k leaves)) as [Hr Hrt].
  split_and!.
  - unfold mth at 1. by rewrite Heq, Hl, Hr.
  - intros t Ht. unfold audit_path at 1. rewrite Heq. rewrite (proj2 (Nat.ltb_lt _ _) Ht). by rewrite Hlt, Hr.
  - intros t Ht. unfold audit_path at 1. rewrite Heq. rewrite (proj2 (Nat.ltb_ge _ _) Ht). by rewrite Hl, Hrt.
Qed.

(** ** The fold over a path *)

Lemma fold_app f s r p q :
  fold_siblings f s r (p ++ q) =
    match fold_siblings f s r p with Some (f', s', r') => fold_siblings f' s' r' q | None => None end.
Proof.
  revert f s r. induction p as [|x p IH]; intros f s r; [done|]. simpl. destruct (s =? 0)%N; [done|].
  destruct (_ || _); [destruct (climb f s)|]; apply IH.
Qed.

Lemma climb_odd f s : N.odd f = true → climb f s = (f, s).
Proof. by destruct f as [|[p|p|]]. Qed.

Lemma climb_even f s : f ≠ 0%N → climb (2 * f) s = climb f (N.div2 s).
Proof. by destruct f. Qed.

(** On two equal nodes the loop strips the same factors of two. A node above the
    highest bit of the lower ones takes part unchanged. *)
Lemma climb_add m f :
  f ≠ 0%N → (f < 2 ^ m)%N →
  ∃ y m', climb f f = (y, y) ∧ N.odd y = true ∧ (y < 2 ^ m')%N ∧
    climb (2 ^ m + f) (2 ^ m + f) = (2 ^ m' + y, 2 ^ m' + y)%N.
Proof.
  revert m. induction f as [|f IH|f IH] using N.binary_ind; intros m Hf Hm; [done| |];
    rewrite ?N.double_spec, ?N.succ_double_spec in *.
  - assert (f ≠ 0%N) as Hf' by lia. assert (m ≠ 0%N) by (intros ->; simpl in Hm; lia).
    assert (2 ^ m = 2 * 2 ^ (N.pred m))%N as Hpow by (rewrite <-N.pow_succ_r'; f_equal; lia).
    destruct (IH (N.pred m) Hf' ltac:(lia)) as (y & m' & Hy & Ho & Hlt & Hbig).
    exists y, m'. rewrite climb_even, N.div2_double by done. split_and!; try done.
    replace (2 ^ m + 2 * f)%N with (2 * (2 ^ N.pred m + f))%N by lia.
    rewrite climb_even, N.div2_double by lia. done.
  - assert (m ≠ 0%N) by (intros ->; simpl in Hm; lia).
    assert (2 ^ m = 2 * 2 ^ (N.pred m))%N as Hpow by (rewrite <-N.pow_succ_r'; f_equal; lia).
    exists (2 * f + 1)%N, m. rewrite !climb_odd; [|rewrite N.odd_spec..].
    + split_and!; try done. rewrite N.odd_spec. by exists f.
    + exists (2 ^ N.pred m + f)%N. lia.
    + by exists f.
Qed.

Lemma climb_pow m : climb (2 ^ m) (2 ^ m) = (1, 1)%N.
Proof.
  induction m as [|m IH] using N.peano_ind; [done|]. rewrite N.pow_succ_r', climb_even, N.div2_double; [done|].
  by apply N.pow_nonzero.
Qed.

(** [2 ^ m + f] for [f] below [2 ^ m], one level up. *)
Lemma level_up m f s :
  (f ≤ s)%N → (s < 2 ^ m)%N → (s ≠ 0)%N →
  N.div2 (2 ^ m + f) = (2 ^ N.pred m + N.div2 f)%N ∧ N.div2 (2 ^ m + s) = (2 ^ N.pred m + N.div2 s)%N ∧
  (N.div2 f ≤ N.div2 s)%N ∧ (N.div2 s < 2 ^ N.pred m)%N ∧ N.odd (2 ^ m + f) = N.odd f.
Proof.
  intros Hfs Hs Hne. assert (m ≠ 0%N) by (intros ->; simpl in Hs; lia).
  assert (2 ^ m = 2 * 2 ^ (N.pred m))%N as Hpow by (rewrite <-N.pow_succ_r'; f_equal; lia).
  rewrite Hpow in *. set (e := (2 ^ N.pred m)%N) in *. clearbody e.
  rewrite !N.div2_div. split_and!.
  - rewrite N.add_comm, N.mul_comm, N.div_add by done. lia.
  - rewrite N.add_comm, N.mul_comm, N.div_add by done. lia.
  - by apply N.Div0.div_le_mono.
  - apply N.Div0.div_lt_upper_bound. lia.
  - by rewrite N.add_comm, N.odd_add_mul_2.
Qed.

(** In the right half of a tree the fold does what it does in the half alone. *)
Lemma fold_right path m f s r r' f' :
  (f ≤ s)%N → (s < 2 ^ m)%N → fold_siblings f s r path = Some (f', 0%N, r') →
  ∃ m', fold_siblings (2 ^ m + f) (2 ^ m + s) r path = Some (2 ^ m', 2 ^ m', r')%N.
Proof.
  revert m f s r. induction path as [|x path IH]; intros m f s r Hfs Hs Hf.
  { simpl in Hf. injection Hf as -> -> ->. exists m. simpl. by replace f' with 0%N by lia; rewrite N.add_0_r. }
  simpl in Hf |- *. destruct (s =? 0)%N eqn:Es; [done|]. apply N.eqb_neq in Es.
  replace (2 ^ m + s =? 0)%N with false by (symmetry; apply N.eqb_neq; lia).
  destruct (level_up m f s Hfs Hs Es) as (Hf2 & Hs2 & Hle & Hlt & Hodd).
  replace (2 ^ m + f =? 2 ^ m + s)%N with (f =? s)%N by (destruct (N.eqb_spec f s), (N.eqb_spec (2^m+f) (2^m+s)); lia).
  rewrite Hodd. destruct (N.odd f) eqn:Eo; cbn [orb] in *.
  { rewrite climb_odd in Hf by done. rewrite climb_odd by congruence. rewrite Hf2, Hs2. by eapply IH. }
  destruct (N.eqb_spec f s) as [->|Hne].
  - destruct (climb_add m s Es Hs) as (y & m1 & Hy & Ho & Hlt1 & Hbig). rewrite Hy in Hf. rewrite Hbig.
    destruct (level_up m1 y y ltac:(lia) Hlt1) as (-> & _ & _ & Hlt2 & _); [by destruct y|].
    eapply IH; [|exact Hlt2|exact Hf]. lia.
  - rewrite Hf2, Hs2. by eapply IH.
Qed.

(** In the left half the fold does what it does in the perfect tree of that half. *)
Lemma fold_left_half path m f s r r' f' :
  (f < 2 ^ m)%N → (2 ^ m ≤ s < 2 * 2 ^ m)%N →
  fold_siblings f (2 ^ m - 1) r path = Some (f', 0%N, r') →
  fold_siblings f s r path = Some (0%N, 1%N, r').
Proof.
  revert m f s r. induction path as [|x path IH]; intros m f s r Hf Hs Hr.
  { simpl in Hr |- *. injection Hr as -> H0 ->. destruct m as [|m]; [simpl in *; f_equal; f_equal; f_equal; lia|].
    pose proof (N.pow_gt_1 2 (Npos m) ltac:(lia) ltac:(done)). lia. }
  simpl in Hr |- *. destruct (2 ^ m - 1 =? 0)%N eqn:Em; [done|]. apply N.eqb_neq in Em.
  assert (m ≠ 0%N) by (intros ->; simpl in Em; lia).
  assert (2 ^ m = 2 * 2 ^ (N.pred m))%N as Hpow by (rewrite <-N.pow_succ_r'; f_equal; lia).
  set (e := (2 ^ N.pred m)%N) in *.
  replace (s =? 0)%N with false by (symmetry; apply N.eqb_neq; lia).
  replace (f =? s)%N with false by (symmetry; apply N.eqb_neq; lia).
  assert (N.div2 (2 ^ m - 1) = e - 1)%N as Hd.
  { rewrite N.div2_div, Hpow. symmetry. apply (N.div_unique _ _ _ 1); lia. }
  assert (N.div2 f < e)%N by (rewrite N.div2_div; apply N.Div0.div_lt_upper_bound; lia).
  assert (e ≤ N.div2 s < 2 * e)%N.
  { rewrite N.div2_div. split; [apply N.div_le_lower_bound; lia|apply N.Div0.div_lt_upper_bound; lia]. }
  rewrite orb_false_r. destruct (N.odd f) eqn:Eo; cbn [orb] in *.
  - rewrite climb_odd in Hr by done. rewrite climb_odd by done. rewrite Hd in Hr. by eapply (IH (N.pred m)).
  - assert (f ≠ 2 ^ m - 1)%N as Hne.
    { intros ->. rewrite Hpow, <-Bool.not_true_iff_false, N.odd_spec in Eo. apply Eo. exists (e - 1)%N. lia. }
    apply N.eqb_neq in Hne. rewrite Hne in Hr. rewrite Hd in Hr. by eapply (IH (N.pred m)).
Qed.

Lemma fold_audit leaves i leaf :
  leaves !! i = Some leaf →
  fold_siblings (N.of_nat i) (N.of_nat (length leaves - 1)) leaf (audit_path leaves i) = Some (0%N, 0%N, mth leaves).
Proof.
  remember (length leaves) as n eqn:En. revert leaves i En.
  induction n as [n IH] using lt_wf_ind. intros leaves i -> Hi.
  pose proof (lookup_lt_Some _ _ _ Hi) as Hlt.
  destruct (decide (2 ≤ length leaves)%nat) as [Hn|Hn].
  2:{ destruct leaves as [|a [|b leaves]]; [simpl in Hlt; lia| |simpl in Hn; lia].
      destruct i; [|simpl in Hlt; lia]. by injection Hi as <-. }
  destruct (split_point _ Hn) as (j & Hk & Hj). destruct (mth_split leaves Hn) as (Hm & Hal & Har).
  cbv zeta in *. rewrite Hk in *. pose proof (Nat.pow_nonzero 2 j ltac:(lia)) as Hpos.
  set (k := (2 ^ j)%nat) in *. assert (2 ^ N.of_nat j = N.of_nat k)%N as Hpow.
  { subst k. by rewrite Nat2N.inj_pow. }
  destruct (decide (i < k)%nat) as [Hik|Hik].
  - rewrite Hal, fold_app, Hm by done.
    assert (length (take k leaves) = k) as Hlen by (rewrite length_take; lia).
    pose proof (IH k ltac:(lia) (take k leaves) i ltac:(done) ltac:(by rewrite lookup_take_lt)) as Hf.
    rewrite (fold_left_half _ (N.of_nat j) _ (N.of_nat (length leaves - 1)) _ (mth (take k leaves)) 0%N);
      [done|lia|lia|]. rewrite Hpow, <-Hf. f_equal. lia.
  - rewrite Har, fold_app, Hm by lia.
    assert (length (drop k leaves) = length leaves - k)%nat as Hlen by apply length_drop.
    pose proof (IH (length leaves - k)%nat ltac:(lia) (drop k leaves) (i - k)%nat ltac:(done)) as Hf.
    rewrite lookup_drop in Hf. replace (k + (i - k))%nat with i in Hf by lia. specialize (Hf Hi).
    destruct (fold_right _ (N.of_nat j) (N.of_nat (i - k)) (N.of_nat (length leaves - k - 1)) _ _ _
      ltac:(lia) ltac:(rewrite Hpow; lia) Hf) as [m' Hf'].
    rewrite Hpow in Hf'.
    replace (N.of_nat k + N.of_nat (i - k))%N with (N.of_nat i) in Hf' by lia.
    replace (N.of_nat k + N.of_nat (length leaves - k - 1))%N with (N.of_nat (length leaves - 1)) in Hf' by lia.
    rewrite Hf'. simpl.
    replace (2 ^ m' =? 0)%N with false by (symmetry; apply N.eqb_neq, N.pow_nonzero; lia).
    rewrite N.eqb_refl, orb_true_r, climb_pow. done.
Qed.

(** Folding the audit path of a leaf gives the root. *)
Lemma audit_path_folds leaves i leaf :
  leaves !! i = Some leaf →
  rfc9162_root_from_inclusion_proof leaf (N.of_nat i) (N.of_nat (length leaves)) (audit_path leaves i) = Ok (mth leaves).
Proof.
  intros Hi.
  unfold rfc9162_root_from_inclusion_proof. pose proof (lookup_lt_Some _ _ _ Hi).
  replace (N.of_nat (length leaves) <=? N.of_nat i)%N with false by (symmetry; apply N.leb_gt; lia).
  replace (N.pred (N.of_nat (length leaves))) with (N.of_nat (length leaves - 1)) by lia.
  by rewrite (fold_audit leaves i leaf Hi).
Qed.

(** Over hashes, the root and the nodes of every path are hashes. *)
Lemma mth_hashes `{!Sha2Laws} leaves :
  leaves ≠ [] → Forall (λ l, length l = 32%nat) leaves →
  length (mth leaves) = 32%nat ∧ ∀ t, Forall (λ l, length l = 32%nat) (audit_path leaves t).
Proof.
  remember (length leaves) as n eqn:En. revert leaves En.
  induction n as [n IH] using lt_wf_ind. intros leaves -> Hne HF.
  destruct (decide (2 ≤ length leaves)%nat) as [Hn|Hn].
  - destruct (split_point _ Hn) as (j & Hk & Hj). pose proof (Nat.pow_nonzero 2 j ltac:(lia)) as Hpos.
    destruct (mth_split _ Hn) as (Hm & Hl & Hr). cbv zeta in *. rewrite Hk in *.
    destruct (IH (length (take (2 ^ j) leaves)) ltac:(rewrite length_take; lia) _ eq_refl) as [Hl1 Hl2];
      [intros E; apply (f_equal length) in E; rewrite length_take in E; cbn in E; lia|by apply Forall_take|].
    destruct (IH (length (drop (2 ^ j) leaves)) ltac:(rewrite length_drop; lia) _ eq_refl) as [Hr1 Hr2];
      [intros E; apply (f_equal length) in E; rewrite length_drop in E; cbn in E; lia|by apply Forall_drop|].
    split; [rewrite Hm; apply sha256_length|]. intros t.
    destruct (decide (t < 2 ^ j)%nat); [rewrite Hl by lia|rewrite Hr by lia]; apply Forall_app; auto.
  - destruct leaves as [|a [|b leaves]]; [done| |simpl in Hn; lia]. inv_Forall. split; [done|]. intros t. constructor.
Qed.

(** ** Binding *)

(** The byte strings hashed along a fold. *)
Fixpoint fold_preimages (fnode snode : N) (r : bytes) (path : list bytes) : list bytes :=
  match path with
  | [] => []
  | sibling :: path' =>
      if N.odd fnode || (fnode =? snode)%N
      then let '(f, s) := climb fnode snode in
           node_preimage sibling r :: fold_preimages (N.div2 f) (N.div2 s) (node_hash sibling r) path'
      else node_preimage r sibling ::
             fold_preimages (N.div2 fnode) (N.div2 snode) (node_hash r sibling) path'
  end.

(** Two folds at one position with one result start from the same hash along the same path,
    unless two of the byte strings they hash collide. *)
Lemma fold_binds `{!Sha2Laws} f s r1 r2 p1 p2 f1 f2 root :
  length r1 = 32%nat → length r2 = 32%nat →
  fold_siblings f s r1 p1 = Some (f1, 0%N, root) → fold_siblings f s r2 p2 = Some (f2, 0%N, root) →
  (r1 = r2 ∧ p1 = p2) ∨
  ∃ x y, x ∈ fold_preimages f s r1 p1 ∧ y ∈ fold_preimages f s r2 p2 ∧ collides x y.
Proof.
  revert f s r1 r2 p2. induction p1 as [|x1 p1 IH]; intros f s r1 r2 [|x2 p2] H1 H2 Hf1 Hf2; simpl in *.
  - left. split; [congruence|done].
  - injection Hf1 as -> -> ->. done.
  - injection Hf2 as -> -> ->. done.
  - destruct (s =? 0)%N; [done|].
    destruct (N.odd f || (f =? s)%N) eqn:Ed; [destruct (climb f s) as [f' s'] eqn:Ec|].
    + destruct (IH _ _ _ _ _ ltac:(apply sha256_length) ltac:(apply sha256_length) Hf1 Hf2)
        as [[Hr ->]|(x & y & Hx & Hy & Hc)]; [|right; exists x, y; set_solver].
      destruct (decide (node_preimage x1 r1 = node_preimage x2 r2)) as [He|He].
      * left. injection He as He. apply app_inj_2 in He as [-> ->]; [done|congruence].
      * right. exists (node_preimage x1 r1), (node_preimage x2 r2). split_and!; [set_solver..|done].
    + destruct (IH _ _ _ _ _ ltac:(apply sha256_length) ltac:(apply sha256_length) Hf1 Hf2)
        as [[Hr ->]|(x & y & Hx & Hy & Hc)]; [|right; exists x, y; set_solver].
      destruct (decide (node_preimage r1 x1 = node_preimage r2 x2)) as [He|He].
      * left. injection He as He. apply app_inj_1 in He as [-> ->]; [done|congruence].
      * right. exists (node_preimage r1 x1), (node_preimage r2 x2). split_and!; [set_solver..|done].
Qed.
End merkle.

(** ** Properties *)

(** C15: the verifier accepts every audit path the log builds. For a log of any size, not only
    powers of two, folding the path built for a leaf at its index gives exactly the root of
    the tree. *)
Theorem inclusion_proof_complete `{Sha2} leaves i leaf :
  leaves !! i = Some leaf →
  let '(root, path) := mth_and_path leaves (Some i) [] in
  rfc9162_root_from_inclusion_proof leaf (N.of_nat i) (N.of_nat (length leaves)) path = Ok root.
Proof.
  intros Hi. destruct (mth_and_path_spec leaves) as [_ ->]. by apply audit_path_folds.
Qed.

(** C14: an accepted proof is the audit path of the leaf at that position. If a proof folds a
    32-byte leaf hash, at an index and size, to the root of a log of that size, then the leaf
    is the log's leaf at that index and the siblings are its audit path, unless two of the
    byte strings hashed along the two paths collide under SHA-256. A position outside the log
    is always refused. *)
Theorem inclusion_proof_sound `{Sha2Laws} leaves i leaf path :
  Forall (λ l, length l = 32%nat) leaves → length leaf = 32%nat →
  rfc9162_root_from_inclusion_proof leaf (N.of_nat i) (N.of_nat (length leaves)) path = Ok (mth leaves) →
  ∃ l, leaves !! i = Some l ∧
    ((leaf = l ∧ path = audit_path leaves i) ∨
     ∃ x y, x ∈ fold_preimages (N.of_nat i) (N.of_nat (length leaves - 1)) leaf path ∧
            y ∈ fold_preimages (N.of_nat i) (N.of_nat (length leaves - 1)) l (audit_path leaves i) ∧
            collides x y).
Proof.
  intros HF Hl Hr. unfold rfc9162_root_from_inclusion_proof in Hr.
  destruct (_ <=? _)%N eqn:Eb; [done|]. apply N.leb_gt in Eb.
  destruct (lookup_lt_is_Some_2 leaves i ltac:(lia)) as [l Hi]. exists l. split; [done|].
  replace (N.pred (N.of_nat (length leaves))) with (N.of_nat (length leaves - 1)) in Hr by lia.
  destruct (fold_siblings _ _ leaf path) as [[[f s] r]|] eqn:Ef; [|done].
  destruct (s =? 0)%N eqn:Es; [|done]. apply N.eqb_eq in Es as ->. injection Hr as ->.
  eapply fold_binds; [done| |exact Ef|by apply fold_audit].
  rewrite Forall_forall in HF. apply HF. by apply list_elem_of_lookup_2 in Hi.
Qed.

(** ** Witnesses *)

Import Instances.

Definition w_leaf (c : ascii) : bytes := replicate 32 c.
Definition w_leaves : list bytes := [w_leaf "a"; w_leaf "b"; w_leaf "c"].

Lemma inclusion_proof_complete_witness :
  rfc9162_root_from_inclusion_proof (w_leaf "c") 2 3 (audit_path w_leaves 2) = Ok (mth w_leaves) ∧
  length (audit_path w_leaves 2) = 1%nat.
Proof.
  split; [|reflexivity]. exact (inclusion_proof_complete w_leaves 2 (w_leaf "c") eq_refl).
Defined.

Lemma inclusion_proof_sound_witness :
  ∃ l, w_leaves !! 2%nat = Some l ∧
    ((w_leaf "c" = l ∧ audit_path w_leaves 2 = audit_path w_leaves 2) ∨
     ∃ x y, x ∈ fold_preimages 2 2 (w_leaf "c") (audit_path w_leaves 2) ∧
            y ∈ fold_preimages 2 2 l (audit_path w_leaves 2) ∧ collides x y).
Proof.
  apply (inclusion_proof_sound w_leaves 2 (w_leaf "c") (audit_path w_leaves 2));
    [by repeat constructor|reflexivity|vm_compute; reflexivity].
Defined.
