(* ===== verification/Cose.v ===== *)
(** * The COSE crates, as interfaces

    [mcp-re-http-profile/src/scitt] encodes and decodes with [ciborium] and [coset] and checks
    ES256 with [p256]. As in [Externals], each crate is a class of operations with a class of
    the documented laws the code relies on. [CoseInstances] has an instance of all of them. *)

From S2P Require Import Prelude.
From S2P Require Import RustStr.
From S2P Require Import Externals.
From S2P Require Import Concrete.

(** ** [ciborium]

    A [ciborium::Value] is opaque but for its integer, bytes, text, array and map views and for
    building those. *)

Class Ciborium := {
  CborValue : Type;
  VInteger : Z → CborValue;
  VBytes : bytes → CborValue;
  VText : bytes → CborValue;
  VArray : list CborValue → CborValue;
  VMap : list (CborValue * CborValue) → CborValue;
  cbor_as_integer : CborValue → option Z;
  cbor_as_bytes : CborValue → option bytes;
  cbor_as_text : CborValue → option bytes;
  cbor_as_array : CborValue → option (list CborValue);
  cbor_as_map : CborValue → option (list (CborValue * CborValue));
  into_writer : CborValue → option bytes;
  from_reader : bytes → option CborValue;
}.

(** The values the code builds: CBOR's integers have 64 bits and a sign. *)
Inductive plain_value `{Ciborium} : CborValue → Prop :=
  | plain_integer z : -(2 ^ 64) ≤ z < 2 ^ 64 → plain_value (VInteger z)
  | plain_bytes b : plain_value (VBytes b)
  | plain_text t : plain_value (VText t)
  | plain_array l : Forall plain_value l → plain_value (VArray l)
  | plain_map m : Forall plain_value (map fst m) → Forall plain_value (map snd m) → plain_value (VMap m).

Class CiboriumLaws `{Ciborium} : Prop := {
  as_integer_VInteger z : cbor_as_integer (VInteger z) = Some z;
  as_bytes_VBytes b : cbor_as_bytes (VBytes b) = Some b;
  as_text_VText t : cbor_as_text (VText t) = Some t;
  as_array_VArray l : cbor_as_array (VArray l) = Some l;
  as_map_VMap m : cbor_as_map (VMap m) = Some m;
  into_writer_total v : plain_value v → is_Some (into_writer v);
  from_reader_into_writer v s : plain_value v → into_writer v = Some s → from_reader s = Some v;
}.

(** [into_writer] and [from_reader] at a type with the [serde] derives. *)
Class CborSerde (T : Type) := { cbor_write : T → option bytes; cbor_read : bytes → option T }.
Class CborSerdeLaws `{CborSerde T} : Prop := {
  cbor_write_total t : is_Some (cbor_write t);
  cbor_read_write t s : cbor_write t = Some s → cbor_read s = Some t;
}.

(** ** [coset]

    The fields of [coset::Header] the code uses. A registered number that the code does not
    name is kept as the number. *)

Inductive CoseLabel := LInt (i : Z) | LText (t : bytes).
#[global] Instance CoseLabel_eq_dec : EqDecision CoseLabel.
Proof. solve_decision. Defined.

Inductive Algorithm := EdDSA | ES256 | OtherAlgorithm (id : Z).
Inductive RegisteredLabelWithPrivate (T : Type) :=
  | RL_Assigned (t : T) | RL_PrivateUse (i : Z) | RL_Text (t : bytes).
Arguments RL_Assigned {T} _.
Arguments RL_PrivateUse {T} _.
Arguments RL_Text {T} _.
Inductive ContentType := CT_Assigned (id : Z) | CT_Text (t : bytes).

Record CoseHeader `{Ciborium} := {
  hdr_alg : option (RegisteredLabelWithPrivate Algorithm);
  hdr_crit : list (RegisteredLabelWithPrivate Z);
  hdr_content_type : option ContentType;
  hdr_key_id : bytes;
  hdr_rest : list (CoseLabel * CborValue);
}.

(** A [CoseSign1] with the views of it, and the [Sig_structure] of RFC 9052 over its protected
    header and a payload, with no external data. [sign1_build] is [CoseSign1Builder] with both
    headers, a payload and a signature over [built_tbs]. *)
Class Coset `{Ciborium} := {
  CoseSign1 : Type;
  from_tagged_slice : bytes → option CoseSign1;
  to_tagged_vec : CoseSign1 → option bytes;
  sign1_protected : CoseSign1 → CoseHeader;
  sign1_unprotected : CoseSign1 → CoseHeader;
  sign1_payload : CoseSign1 → option bytes;
  sign1_signature : CoseSign1 → bytes;
  sign1_tbs : CoseSign1 → bytes → bytes;
  built_tbs : CoseHeader → bytes → bytes;
  sign1_build : CoseHeader → CoseHeader → bytes → bytes → CoseSign1;
}.

(** What the builder and the parser both take: plain values under distinct labels that are not
    those of the other fields, and a content type with one slash and no outer white space. *)
Definition header_encodable `{Ciborium} (h : CoseHeader) : Prop :=
  NoDup (map fst (hdr_rest h)) ∧ Forall plain_value (map snd (hdr_rest h)) ∧
  Forall (λ l, match l with LInt i => 7 < i | LText _ => True end) (map fst (hdr_rest h)) ∧
  match hdr_content_type h with Some (CT_Text t) => length (split_char "/" t) = 2%nat ∧ trim t = t | _ => True end.

Class CosetLaws `{Coset} : Prop := {
  to_tagged_vec_total p u payload sig :
    header_encodable p → header_encodable u → is_Some (to_tagged_vec (sign1_build p u payload sig));
  from_tagged_slice_built p u payload sig b :
    header_encodable p → header_encodable u → to_tagged_vec (sign1_build p u payload sig) = Some b →
    ∃ s, from_tagged_slice b = Some s ∧ sign1_protected s = p ∧ sign1_unprotected s = u ∧
         sign1_payload s = Some payload ∧ sign1_signature s = sig ∧
         ∀ payload', sign1_tbs s payload' = built_tbs p payload';
  sign1_tbs_inj b b' s s' payload payload' :
    from_tagged_slice b = Some s → from_tagged_slice b' = Some s' →
    sign1_tbs s payload = sign1_tbs s' payload' →
    sign1_protected s = sign1_protected s' ∧ payload = payload';
}.

(** [verify_signature] and [verify_detached_signature] hand the check the signature and the
    bytes that were signed: over the embedded payload, empty if there is none, or over the
    given one. The second is for messages without an embedded payload. *)
Definition verify_signature `{Coset} {E} (s : CoseSign1) (check : bytes → bytes → Result unit E) : Result unit E :=
  check (sign1_signature s) (sign1_tbs s (default [] (sign1_payload s))).
Definition verify_detached_signature `{Coset} {E} (s : CoseSign1) (payload : bytes)
    (check : bytes → bytes → Result unit E) : Result unit E :=
  check (sign1_signature s) (sign1_tbs s payload).

(** ** [p256] *)

Class P256 := {
  P256VerifyingKey : Type;
  P256Signature : Type;
  p256_from_sec1_bytes : bytes → option P256VerifyingKey;
  p256_signature_from_slice : bytes → option P256Signature;
  p256_verify : P256VerifyingKey → bytes → P256Signature → bool;
}.

(** ** A concrete instance *)

Module CoseInstances.
Import Instances.

Inductive cbor := CInteger (z : Z) | CBytes (b : bytes) | CText (t : bytes)
  | CArray (l : list cbor) | CMap (m : list (cbor * cbor)).

Fixpoint gen_of_cbor (v : cbor) : gen_tree (Z + bytes + bytes) :=
  match v with
  | CInteger z => GenLeaf (inl (inl z))
  | CBytes b => GenLeaf (inl (inr b))
  | CText t => GenLeaf (inr t)
  | CArray l => GenNode 0 (map gen_of_cbor l)
  | CMap m => GenNode 1 (map (λ kv, GenNode 0 [gen_of_cbor kv.1; gen_of_cbor kv.2]) m)
  end.
Fixpoint cbor_of_gen (g : gen_tree (Z + bytes + bytes)) : cbor :=
  match g with
  | GenLeaf (inl (inl z)) => CInteger z
  | GenLeaf (inl (inr b)) => CBytes b
  | GenLeaf (inr t) => CText t
  | GenNode 0 l => CArray (map cbor_of_gen l)
  | GenNode _ l => CMap (map (λ e, match e with GenNode _ [k; v] => (cbor_of_gen k, cbor_of_gen v)
                                          | _ => (CInteger 0, CInteger 0) end) l)
  end.

Fixpoint cbor_of_gen_of_cbor (v : cbor) : cbor_of_gen (gen_of_cbor v) = v.
Proof.
  destruct v as [z|b|t|l|m]; cbn; try done; f_equal; rewrite map_map.
  - induction l as [|x l IH]; cbn; [done|]. by rewrite cbor_of_gen_of_cbor, IH.
  - induction m as [|[k x] m IH]; cbn; [done|]. by rewrite !cbor_of_gen_of_cbor, IH.
Qed.

#[export] Instance cbor_eq_dec : EqDecision cbor.
Proof.
  intros a b. destruct (decide (gen_of_cbor a = gen_of_cbor b)) as [E|E]; [left|right; congruence].
  by rewrite <-(cbor_of_gen_of_cbor a), <-(cbor_of_gen_of_cbor b), E.
Defined.
#[export] Instance cbor_countable : Countable cbor.
Proof. apply (inj_countable' gen_of_cbor cbor_of_gen), cbor_of_gen_of_cbor. Defined.

(** Any countable type has a binary code: the bits of its number, seven to a byte, and the last
    few one to a byte. *)
Fixpoint pos_bits (p : positive) : list bool :=
  match p with xH => [] | xO q => false :: pos_bits q | xI q => true :: pos_bits q end.
Fixpoint bits_pos (l : list bool) : positive :=
  match l with [] => xH | false :: l' => xO (bits_pos l') | true :: l' => xI (bits_pos l') end.
Fixpoint pack (l : list bool) : bytes :=
  match l with
  | b0 :: b1 :: b2 :: b3 :: b4 :: b5 :: b6 :: rest => Ascii b0 b1 b2 b3 b4 b5 b6 false :: pack rest
  | _ => map (λ b, Ascii b false false false false false false true) l
  end.
Definition unpack_byte (c : ascii) : list bool :=
  match c with
  | Ascii b0 b1 b2 b3 b4 b5 b6 false => [b0; b1; b2; b3; b4; b5; b6]
  | Ascii b0 _ _ _ _ _ _ true => [b0]
  end.
Definition unpack (s : bytes) : list bool := concat (map unpack_byte s).

Lemma bits_pos_bits p : bits_pos (pos_bits p) = p.
Proof. induction p as [p IH|p IH|]; simpl; [by rewrite IH..|done]. Qed.
Lemma unpack_pack l : unpack (pack l) = l.
Proof.
  induction l as [l IH] using (induction_ltof1 _ length). unfold ltof in IH.
  destruct l as [|b0 [|b1 [|b2 [|b3 [|b4 [|b5 [|b6 rest]]]]]]]; try done.
  unfold unpack in *. cbn. by rewrite IH by (cbn; lia).
Qed.

Definition code `{Countable A} (x : A) : bytes := pack (pos_bits (encode x)).
Definition uncode `{Countable A} (s : bytes) : option A := decode (bits_pos (unpack s)).
Lemma uncode_code `{Countable A} (x : A) : uncode (code x) = Some x.
Proof. unfold uncode, code. by rewrite unpack_pack, bits_pos_bits, decode_encode. Qed.
Lemma code_inj `{Countable A} (x y : A) : code x = code y → x = y.
Proof. intros E. apply (f_equal (uncode (A:=A))) in E. rewrite !uncode_code in E. by injection E. Qed.

#[export] Instance concrete_ciborium : Ciborium := {
  CborValue := cbor;
  VInteger := CInteger; VBytes := CBytes; VText := CText; VArray := CArray; VMap := CMap;
  cbor_as_integer v := match v with CInteger z => Some z | _ => None end;
  cbor_as_bytes v := match v with CBytes b => Some b | _ => None end;
  cbor_as_text v := match v with CText t => Some t | _ => None end;
  cbor_as_array v := match v with CArray l => Some l | _ => None end;
  cbor_as_map v := match v with CMap m => Some m | _ => None end;
  into_writer v := Some (code v);
  from_reader := uncode;
}.
#[export] Instance concrete_ciborium_laws : CiboriumLaws.
Proof. split; try done; cbn; intros v s _ [= <-]; apply uncode_code. Qed.

#[export] Instance CoseLabel_countable : Countable CoseLabel.
Proof.
  apply (inj_countable' (λ l, match l with LInt i => inl i | LText t => inr t end)
    (λ s, match s with inl i => LInt i | inr t => LText t end)). by intros [].
Defined.
#[export] Instance Algorithm_eq_dec : EqDecision Algorithm.
Proof. solve_decision. Defined.
#[export] Instance Algorithm_countable : Countable Algorithm.
Proof.
  apply (inj_countable' (λ a, match a with EdDSA => inl false | ES256 => inl true | OtherAlgorithm i => inr i end)
    (λ s, match s with inl false => EdDSA | inl true => ES256 | inr i => OtherAlgorithm i end)). by intros [].
Defined.
#[export] Instance RegisteredLabel_eq_dec `{EqDecision T} : EqDecision (RegisteredLabelWithPrivate T).
Proof. solve_decision. Defined.
#[export] Instance RegisteredLabel_countable `{Countable T} : Countable (RegisteredLabelWithPrivate T).
Proof.
  apply (inj_countable' (λ a, match a with RL_Assigned t => inl (inl t) | RL_PrivateUse i => inl (inr i) | RL_Text t => inr t end)
    (λ s, match s with inl (inl t) => RL_Assigned t | inl (inr i) => RL_PrivateUse i | inr t => RL_Text t end)). by intros [].
Defined.
#[export] Instance ContentType_eq_dec : EqDecision ContentType.
Proof. solve_decision. Defined.
#[export] Instance ContentType_countable : Countable ContentType.
Proof.
  apply (inj_countable' (λ a, match a with CT_Assigned t => inl t | CT_Text t => inr t end)
    (λ s, match s with inl t => CT_Assigned t | inr t => CT_Text t end)). by intros [].
Defined.
#[export] Instance CoseHeader_eq_dec : EqDecision CoseHeader.
Proof. intros [] []. solve_decision. Defined.
#[export] Instance CoseHeader_countable : Countable CoseHeader.
Proof.
  apply (inj_countable' (λ h, (hdr_alg h, hdr_crit h, hdr_content_type h, hdr_key_id h, hdr_rest h))
    (λ '(a, c, t, k, r), {| hdr_alg := a; hdr_crit := c; hdr_content_type := t; hdr_key_id := k; hdr_rest := r |})).
  by intros [].
Defined.

#[export] Instance concrete_coset : Coset := {
  CoseSign1 := CoseHeader * option bytes * bytes * CoseHeader;
  from_tagged_slice := uncode;
  to_tagged_vec s := Some (code s);
  sign1_protected s := s.1.1.1;
  sign1_unprotected s := s.2;
  sign1_payload s := s.1.1.2;
  sign1_signature s := s.1.2;
  sign1_tbs s payload := code (s.1.1.1, payload);
  built_tbs h payload := code (h, payload);
  sign1_build p u payload sig := (p, Some payload, sig, u);
}.
#[export] Instance concrete_coset_laws : CosetLaws.
Proof.
  split; cbn.
  - intros. done.
  - intros p u payload sig b _ _ [= <-]. eexists. split; [apply uncode_code|done].
  - intros b b' s s' x y _ _ E%code_inj. by injection E.
Qed.

(** One point, and a signature that repeats what it signs. *)
#[export] Instance concrete_p256 : P256 := {
  P256VerifyingKey := bytes; P256Signature := bytes;
  p256_from_sec1_bytes b := Some b;
  p256_signature_from_slice b := Some b;
  p256_verify _ m s := bytes_eqb s (take 64 m);
}.
End CoseInstances.
