(* ===== verification/Scitt.v ===== *)
(** * [mcp-re-http-profile/src/scitt]: statements, receipts, commitments and pins

    A Signed Statement is a COSE message whose payload commits to a reconstructed call; a Receipt
    is a transparency service's COSE message over the root of its Merkle tree, with the path from
    the statement's leaf in an unprotected header. [verify_receipt_offline] checks both without
    the service; [verify_retained_evidence] checks retained messages against the commitment. The
    prototype service is the in-process log of the crate. A [u64] is an [N], an [i64] a [Z]. *)

From S2P Require Import Prelude.
From S2P Require Import RustStr.
From S2P Require Import Externals.
From S2P Require Import Json.
From S2P Require Import Concrete.
From S2P Require Import Cose.
From S2P Require Import CoreError.
From S2P Require Import CoreResolver.
From S2P Require Import HttpMessage.
From S2P Require Import Policy.
From S2P Require Import Blocks.
From S2P Require Import Body.
From S2P Require Import Floor.
From S2P Require Import Sign.
From S2P Require Import Full.
From S2P Require Import Delegation.
From S2P Require Import Chain.
From S2P Require Import Merkle.

(** ** [wire.rs] *)

Definition HEADER_CWT_CLAIMS : Z := 15.
Definition CWT_ISS : Z := 1.
Definition CWT_SUB : Z := 2.
Definition CWT_IAT : Z := 6.
Definition HEADER_VDS : Z := 395.
Definition HEADER_VDP : Z := 396.
Definition PROOF_INCLUSION : Z := -1.
Definition VDS_RFC9162_SHA256 : Z := 1.
Definition EVIDENCE_PROFILE : bytes := b#"mcp-re-evidence/v2".
Definition HEADER_POSITION_COMMITMENT : bytes := b#"mcp-re-position".
Definition POSITION_COMMITMENT_DOMAIN : bytes := b#"mcp-re-scitt-position".

(** [i64::to_be_bytes]: two's complement. *)
Definition i64_be (z : Z) : bytes := be64 (Z.to_N (z mod 2 ^ 64)).

(** The updates of the hasher, concatenated: every part with its length. *)
Definition position_preimage (log_identity : bytes) (vds : Z) (tree_size leaf_index : N) (root : bytes) : bytes :=
  concat (map part_bytes [POSITION_COMMITMENT_DOMAIN; EVIDENCE_PROFILE; log_identity; i64_be vds;
                          be64 tree_size; be64 leaf_index; root]).
Definition position_commitment `{Sha2} (log_identity : bytes) (vds : Z) (tree_size leaf_index : N)
    (root : bytes) : bytes :=
  sha256 (position_preimage log_identity vds tree_size leaf_index root).

Inductive ReceiptPositionProfile := Unbound | Bound.

(** ** [merkle.rs]: the profiles of a leaf *)

Inductive StatementLeafProfile := StatementBytes | StatementDigest | SigStructureDigest.

(** ** [commitment/] *)

Record EvidenceCommitment := {
  ec_request_evidence : bytes;
  ec_response_evidence : bytes;
  ec_bindings_commitment : option bytes;
  ec_verified_context_commitment : option bytes;
  ec_chain_label : bytes;
  ec_chain_commitment : bytes;
  ec_submitted_commitment : bytes;
}.

(** The derived [Debug] of a [str] literal and of the errors: a label is printed with [{:?}]. *)
Definition hex_lower (n : Z) : bytes :=
  if n <? 16 then take 1 (drop (Z.to_nat n) b#"0123456789abcdef")
  else take 1 (drop (Z.to_nat (n / 16)) b#"0123456789abcdef") ++ take 1 (drop (Z.to_nat (n mod 16)) b#"0123456789abcdef").
Definition escape_debug (c : ascii) : bytes :=
  if ascii_eqb c "034" || ascii_eqb c "\" then ["\"%char; c]
  else if cz c =? 10 then b#"\n" else if cz c =? 13 then b#"\r" else if cz c =? 9 then b#"\t"
  else if cz c =? 0 then b#"\0"
  else if (cz c <? 32) || (cz c =? 127) then b#"\u{" ++ hex_lower (cz c) ++ b#"}"
  else [c].
Definition debug_str (s : bytes) : bytes := "034"%char :: concat (map escape_debug s) ++ ["034"%char].
Definition debug_tuple (name s : bytes) : bytes := name ++ b#"(" ++ debug_str s ++ b#")".
Definition debug_error (e : HttpProfileError) : bytes :=
  match e with
  | HPE.MissingEvidence s => debug_tuple b#"MissingEvidence" s
  | HPE.MalformedEvidence s => debug_tuple b#"MalformedEvidence" s
  | HPE.DuplicateHeader s => debug_tuple b#"DuplicateHeader" s
  | HPE.ContentEncodingPresent => b#"ContentEncodingPresent"
  | HPE.NonJsonMediaType => b#"NonJsonMediaType"
  | HPE.ContentDigestMismatch => b#"ContentDigestMismatch"
  | HPE.MissingCoveredComponent s => debug_tuple b#"MissingCoveredComponent" s
  | HPE.UnknownProfileTag => b#"UnknownProfileTag"
  | HPE.UnsupportedAlgorithm => b#"UnsupportedAlgorithm"
  | HPE.InvalidSignature => b#"InvalidSignature"
  | HPE.StaleWindow => b#"StaleWindow"
  | HPE.UnresolvedKeyId => b#"UnresolvedKeyId"
  | HPE.TrustResolverUnavailable => b#"TrustResolverUnavailable"
  | HPE.ActorSlotMismatch => b#"ActorSlotMismatch"
  | HPE.ArtifactBindingFailed => b#"ArtifactBindingFailed"
  | HPE.AudienceMismatch => b#"AudienceMismatch"
  | HPE.ResponseBindingMismatch => b#"ResponseBindingMismatch"
  | HPE.ResponseSignatureInvalid => b#"ResponseSignatureInvalid"
  | HPE.ContinuationBindingFailed => b#"ContinuationBindingFailed"
  | HPE.UnrecognizedResultType => b#"UnrecognizedResultType"
  | HPE.UpstreamResponseInvalid s => debug_tuple b#"UpstreamResponseInvalid" s
  | HPE.McpMethodDivergence => b#"McpMethodDivergence"
  | HPE.McpTransportHeaderMissing s => debug_tuple b#"McpTransportHeaderMissing" s
  | HPE.McpProtocolVersionUnsupported => b#"McpProtocolVersionUnsupported"
  | HPE.McpTransportDivergence s => debug_tuple b#"McpTransportDivergence" s
  | HPE.AdmissionAssertionInvalid => b#"AdmissionAssertionInvalid"
  | HPE.AdmissionIssuerUntrusted => b#"AdmissionIssuerUntrusted"
  | HPE.AdmissionAssertionExpired => b#"AdmissionAssertionExpired"
  | HPE.AdmissionBindingMismatch => b#"AdmissionBindingMismatch"
  | HPE.AdmissionNotCurrent => b#"AdmissionNotCurrent"
  | HPE.AdmissionStateUnavailable => b#"AdmissionStateUnavailable"
  | HPE.ReceiptInvalid => b#"ReceiptInvalid"
  | HPE.ReceiptInclusionInvalid => b#"ReceiptInclusionInvalid"
  | HPE.ReceiptIssuerUntrusted => b#"ReceiptIssuerUntrusted"
  | HPE.ReceiptPositionUnbound => b#"ReceiptPositionUnbound"
  | HPE.ReceiptPositionMismatch => b#"ReceiptPositionMismatch"
  | HPE.DelegationCredentialMissing => b#"DelegationCredentialMissing"
  | HPE.DelegationCredentialInvalid => b#"DelegationCredentialInvalid"
  | HPE.DelegationCredentialExpired => b#"DelegationCredentialExpired"
  | HPE.DelegationIssuerUntrusted => b#"DelegationIssuerUntrusted"
  | HPE.DelegationProfileMismatch => b#"DelegationProfileMismatch"
  | HPE.DelegationAudienceMismatch => b#"DelegationAudienceMismatch"
  | HPE.DelegationKeyUseInvalid => b#"DelegationKeyUseInvalid"
  | HPE.DelegationTrustEpochStale => b#"DelegationTrustEpochStale"
  | HPE.DelegationKeyMismatch => b#"DelegationKeyMismatch"
  | HPE.DelegationRevoked => b#"DelegationRevoked"
  end.

Definition debug_reason (r : IncompleteReason) : bytes :=
  match r with
  | RequestUnverifiable e => b#"RequestUnverifiable(" ++ debug_error e ++ b#")"
  | ResponseUnverifiable e => b#"ResponseUnverifiable(" ++ debug_error e ++ b#")"
  | MissingContinuation => b#"MissingContinuation"
  | ContinuationDoesNotLink => b#"ContinuationDoesNotLink"
  | NonTerminalExpected => b#"NonTerminalExpected"
  | TerminalExpected => b#"TerminalExpected"
  | UnrecognizedResultTypeAt => b#"UnrecognizedResultType"
  | EmptyChain => b#"EmptyChain"
  | HopAfterAuditInstant => b#"HopAfterAuditInstant"
  end.

Definition label_token (label : ChainLabel) : bytes :=
  match label with
  | ChainComplete => b#"complete"
  | ChainIncomplete hop reason => b#"incomplete:" ++ fmt_nat (Z.of_nat hop) ++ b#":" ++ debug_reason reason
  end.

(** The updates of the shape's hasher: both handles of every hop, each with a zero byte. *)
Definition shape_bytes (hops : list HopEvidence) : bytes :=
  concat (map (λ h, digest_value (he_request_evidence h) ++ ["000"%char] ++
                    digest_value (he_response_evidence h) ++ ["000"%char]) hops).

Definition from_reconstruction `{Base64, Sha2} (reconstruction : ChainReconstruction)
    (bindings_commitment verified_context_commitment : option bytes) : EvidenceCommitment :=
  let '(request_evidence, response_evidence) :=
    match cr_hop_evidence reconstruction with
    | h :: _ => (digest_value (he_request_evidence h), digest_value (he_response_evidence h))
    | [] => ([], [])
    end in
  {| ec_request_evidence := request_evidence; ec_response_evidence := response_evidence;
     ec_bindings_commitment := bindings_commitment; ec_verified_context_commitment := verified_context_commitment;
     ec_chain_label := label_token (cr_label reconstruction);
     ec_chain_commitment := b64url_encode (sha256 (shape_bytes (cr_hop_evidence reconstruction)));
     ec_submitted_commitment := cr_submitted_commitment reconstruction |}.

Definition is_complete_record (c : EvidenceCommitment) : bool := bytes_eqb (ec_chain_label c) b#"complete".
Definition commits_to_verified_evidence (c : EvidenceCommitment) : bool :=
  negb (bytes_eqb (ec_request_evidence c) []) || negb (bytes_eqb (ec_response_evidence c) []).
Definition identifies_a_submission (c : EvidenceCommitment) : bool := negb (bytes_eqb (ec_submitted_commitment c) []).

Inductive RetainedCorrespondence := BoundToVerifiedCall | BoundToSubmissionOnly.

Definition submission_corresponds_to (self recomputed : EvidenceCommitment) : Result unit HttpProfileError :=
  if negb (identifies_a_submission self)
  then Err (HPE.MalformedEvidence b#"the statement carries no submission identity, so the retained submission cannot be bound to it")
  else if negb (bytes_eqb (ec_submitted_commitment recomputed) (ec_submitted_commitment self))
  then Err (HPE.MalformedEvidence b#"retained submission does not match the commitment")
  else Ok tt.

Definition corresponds_to (self recomputed : EvidenceCommitment) : Result RetainedCorrespondence HttpProfileError :=
  if negb (commits_to_verified_evidence self) || negb (commits_to_verified_evidence recomputed)
  then submission_corresponds_to self recomputed ;? Ok BoundToSubmissionOnly
  else if negb (bytes_eqb (ec_request_evidence recomputed) (ec_request_evidence self))
  then Err (HPE.MalformedEvidence b#"retained request evidence does not match the commitment")
  else if negb (bytes_eqb (ec_response_evidence recomputed) (ec_response_evidence self))
  then Err (HPE.MalformedEvidence b#"retained response evidence does not match the commitment")
  else if negb (bytes_eqb (ec_chain_commitment recomputed) (ec_chain_commitment self))
  then Err (HPE.MalformedEvidence b#"retained chain does not match the committed chain shape")
  else if negb (bytes_eqb (ec_chain_label recomputed) (ec_chain_label self))
  then Err (HPE.MalformedEvidence b#"retained chain label does not match the commitment")
  else if negb (bool_decide (ec_bindings_commitment recomputed = ec_bindings_commitment self))
  then Err (HPE.MalformedEvidence b#"retained artifact bindings do not match the commitment")
  else if negb (bool_decide (ec_verified_context_commitment recomputed = ec_verified_context_commitment self))
  then Err (HPE.MalformedEvidence b#"retained verified context does not match the commitment")
  else submission_corresponds_to self recomputed ;? Ok BoundToVerifiedCall.

(** ** [retained.rs] *)

(** The digest is kept as its base64url token. *)
Definition EvidenceDigest_of `{Base64, Sha2} (evidence : bytes) : bytes := b64url_encode (sha256 evidence).
Definition EvidenceDigest_from_token `{Base64} (token : bytes) : Result bytes HttpProfileError :=
  let? b := map_err (λ _, HPE.MalformedEvidence b#"evidence digest is not base64url") (b64url_decode token) in
  if negb (length b =? 32)%nat then Err (HPE.MalformedEvidence b#"evidence digest is not a sha-256")
  else Ok (b64url_encode b).

Definition verify_retained_evidence `{Base64, Sha2} (commitment : EvidenceCommitment)
    (reconstruction : ChainReconstruction) (bindings_commitment verified_context_commitment : option bytes)
    : Result RetainedCorrespondence HttpProfileError :=
  corresponds_to commitment (from_reconstruction reconstruction bindings_commitment verified_context_commitment).

(** ** [cose_key/] *)

Section scitt.
Context `{Base64, Sha2, Ed25519, Coset, P256, !CborSerde EvidenceCommitment}.

Record P256Point := { pt_verifying : P256VerifyingKey }.
Inductive CoseVerificationKey := KeyEd25519 (key : VerificationKey) | KeyEcdsaP256 (point : P256Point).

Definition from_ec2 (x y : bytes) : Result P256Point HttpProfileError :=
  let? x := ok_or (try_into_array 32 x) (HPE.MalformedEvidence b#"scitt ec2 p256 x coordinate width") in
  let? y := ok_or (try_into_array 32 y) (HPE.MalformedEvidence b#"scitt ec2 p256 y coordinate width") in
  let? verifying := ok_or (p256_from_sec1_bytes ("004"%char :: x ++ y))
                      (HPE.MalformedEvidence b#"scitt ec2 p256 point not on curve") in
  Ok {| pt_verifying := verifying |}.
Definition from_ec2_p256 (x y : bytes) : Result CoseVerificationKey HttpProfileError :=
  let? point := from_ec2 x y in Ok (KeyEcdsaP256 point).

Definition verify_es256 (key : P256VerifyingKey) (signature signed : bytes) : Result unit McpReError :=
  let? signature := ok_or (try_into_array 64 signature) InvalidSignature in
  let? signature := ok_or (p256_signature_from_slice signature) InvalidSignature in
  if p256_verify key signed signature then Ok tt else Err InvalidSignature.

Definition verify_cose_sign1_with_payload (cose : bytes) (key : CoseVerificationKey) (detached : bool)
    (payload : bytes) : Result unit HttpProfileError :=
  let? sign1 := ok_or (from_tagged_slice cose) HPE.ReceiptInvalid in
  let? alg := match hdr_alg (sign1_protected sign1) with
              | Some (RL_Assigned alg) => Ok alg
              | _ => Err (HPE.MalformedEvidence b#"scitt cose unsupported algorithm")
              end in
  match alg, key with
  | EdDSA, KeyEd25519 ed =>
      let check := λ sig data, verify_ed25519_with data (b64url_encode sig) ed InvalidSignature in
      map_err (λ _, HPE.ReceiptInvalid)
        (if detached then verify_detached_signature sign1 payload check else verify_signature sign1 check)
  | ES256, KeyEcdsaP256 point =>
      let check := λ sig data, verify_es256 (pt_verifying point) sig data in
      map_err (λ _, HPE.ReceiptInvalid)
        (if detached then verify_detached_signature sign1 payload check else verify_signature sign1 check)
  | EdDSA, _ | ES256, _ => Err (HPE.MalformedEvidence b#"scitt cose algorithm key mismatch")
  | _, _ => Err (HPE.MalformedEvidence b#"scitt cose unsupported algorithm")
  end.
Definition verify_cose_sign1 (cose : bytes) (key : CoseVerificationKey) : Result unit HttpProfileError :=
  verify_cose_sign1_with_payload cose key false [].

(** ** [statement/] *)

Definition STATEMENT_SUBJECT : bytes := b#"mcp-re:call-evidence".
Definition STATEMENT_CONTENT_TYPE : bytes := b#"application/mcp-re-evidence+cbor".

Record SignedStatement := {
  ss_cose : bytes;
  ss_sig_structure : bytes;
  ss_issuer_kid : bytes;
  ss_commitment : EvidenceCommitment;
  ss_issued_at : Z;
}.

(** [rest.iter().find(|(l, _)| *l == label)]. *)
Definition find_header (label : CoseLabel) (rest : list (CoseLabel * CborValue)) : option CborValue :=
  snd <$> List.find (λ kv, bool_decide (kv.1 = label)) rest.
(** [iter().find(|(k, _)| k.as_integer().is_some_and(|i| i == key))]. *)
Definition find_integer (key : Z) (entries : list (CborValue * CborValue)) : option CborValue :=
  snd <$> List.find (λ kv, match cbor_as_integer kv.1 with Some i => i =? key | None => false end) entries.

Definition cwt_claim (header : CoseHeader) (key : Z) : option CborValue :=
  claims ← find_header (LInt HEADER_CWT_CLAIMS) (hdr_rest header);
  entries ← cbor_as_map claims; find_integer key entries.

Definition sig_structure_of (sign1 : CoseSign1) : Result bytes HttpProfileError :=
  Ok (sign1_tbs sign1 (default [] (sign1_payload sign1))).

Definition checked_claims (sign1 : CoseSign1) (issuer_kid : bytes) : Result Z HttpProfileError :=
  let header := sign1_protected sign1 in
  if negb (bool_decide (length (hdr_crit header) = 0%nat))
  then Err (HPE.MalformedEvidence b#"scitt statement critical header unsupported")
  else
    let? issued_at := ok_or (v ← cwt_claim header CWT_IAT; i ← cbor_as_integer v; checked_i64 i)
                        (HPE.MalformedEvidence b#"scitt statement iat") in
    let? iss := ok_or (cwt_claim header CWT_ISS ≫= cbor_as_text) (HPE.MalformedEvidence b#"scitt statement iss") in
    if negb (bytes_eqb iss issuer_kid)
    then Err (HPE.MalformedEvidence b#"scitt statement iss does not match the signing kid")
    else
      let? sub := ok_or (cwt_claim header CWT_SUB ≫= cbor_as_text) (HPE.MalformedEvidence b#"scitt statement sub") in
      if negb (bytes_eqb sub STATEMENT_SUBJECT)
      then Err (HPE.MalformedEvidence b#"scitt statement sub is not mcp-re call evidence")
      else match hdr_content_type header with
           | Some (CT_Text t) =>
               if bytes_eqb t STATEMENT_CONTENT_TYPE then Ok issued_at
               else Err (HPE.MalformedEvidence b#"scitt statement content type is not the mcp-re evidence media type")
           | _ => Err (HPE.MalformedEvidence b#"scitt statement content type is not the mcp-re evidence media type")
           end.

Definition SignedStatement_from_cose (cose : bytes) : Result SignedStatement HttpProfileError :=
  let? sign1 := ok_or (from_tagged_slice cose) (HPE.MalformedEvidence b#"scitt statement cose") in
  let issuer_kid := hdr_key_id (sign1_protected sign1) in
  if negb (utf8_valid issuer_kid) then Err (HPE.MalformedEvidence b#"scitt statement kid")
  else
    let? issued_at := checked_claims sign1 issuer_kid in
    let? payload := ok_or (sign1_payload sign1) (HPE.MalformedEvidence b#"scitt statement payload") in
    let? commitment := ok_or (cbor_read payload) (HPE.MalformedEvidence b#"scitt statement commitment") in
    let? sig_structure := sig_structure_of sign1 in
    Ok {| ss_sig_structure := sig_structure; ss_cose := cose; ss_issuer_kid := issuer_kid;
          ss_commitment := commitment; ss_issued_at := issued_at |}.

Definition empty_header : CoseHeader :=
  {| hdr_alg := None; hdr_crit := []; hdr_content_type := None; hdr_key_id := []; hdr_rest := [] |}.

Definition statement_header (issuer_kid : bytes) (issued_at : Z) : CoseHeader :=
  {| hdr_alg := Some (RL_Assigned EdDSA); hdr_crit := []; hdr_content_type := Some (CT_Text STATEMENT_CONTENT_TYPE);
     hdr_key_id := issuer_kid;
     hdr_rest := [(LInt HEADER_CWT_CLAIMS,
                   VMap [(VInteger CWT_ISS, VText issuer_kid); (VInteger CWT_SUB, VText STATEMENT_SUBJECT);
                         (VInteger CWT_IAT, VInteger issued_at)])] |}.

Definition issue_signed_statement (issuer_kid : bytes) (commitment : EvidenceCommitment) (issued_at : Z)
    (sign : bytes → Result bytes HttpProfileError) : Result SignedStatement HttpProfileError :=
  let? payload := ok_or (cbor_write commitment) (HPE.MalformedEvidence b#"scitt commitment encode") in
  let protected := statement_header issuer_kid issued_at in
  let? sig := sign (built_tbs protected payload) in
  let? cose := ok_or (to_tagged_vec (sign1_build protected empty_header payload sig))
                 (HPE.MalformedEvidence b#"scitt statement encode") in
  SignedStatement_from_cose cose.

(** ** [merkle.rs]: the leaf of a statement *)

Definition leaf_preimage (statement : SignedStatement) (profile : StatementLeafProfile) : bytes :=
  "000"%char :: match profile with
                | StatementBytes => ss_cose statement
                | StatementDigest => sha256 (ss_cose statement)
                | SigStructureDigest => sha256 (ss_sig_structure statement)
                end.
Definition leaf_hash (statement : SignedStatement) (profile : StatementLeafProfile) : bytes :=
  sha256 (leaf_preimage statement profile).

(** ** [receipt/] *)

Record Receipt := {
  rc_cose : bytes;
  rc_ts_kid : bytes;
  rc_tree_size : N;
  rc_leaf_index : N;
  rc_inclusion_path : list bytes;
  rc_position_commitment : option bytes;
  rc_root : option bytes;
}.
Record InclusionProof := { ip_tree_size : N; ip_leaf_index : N; ip_path : list bytes }.

Definition as_u64 (v : CborValue) : Result N HttpProfileError :=
  ok_or (Z.to_N <$> (cbor_as_integer v ≫= checked_u64)) (HPE.MalformedEvidence b#"scitt receipt integer").

Definition is_position_label (label : RegisteredLabelWithPrivate Z) : bool :=
  match label with RL_Text t => bytes_eqb t HEADER_POSITION_COMMITMENT | _ => false end.
Definition check_critical_labels (sign1 : CoseSign1) : Result unit HttpProfileError :=
  if forallb is_position_label (hdr_crit (sign1_protected sign1)) then Ok tt
  else Err (HPE.MalformedEvidence b#"scitt receipt critical header unsupported").

(** A byte string of 32 bytes. *)
Definition hash_bytes (v : CborValue) : option bytes :=
  cbor_as_bytes v ≫= λ b, if (length b =? 32)%nat then Some b else None.

Definition read_position_commitment (sign1 : CoseSign1) : Result (option bytes) HttpProfileError :=
  match find_header (LText HEADER_POSITION_COMMITMENT) (hdr_rest (sign1_protected sign1)) with
  | None => Ok None
  | Some v => let? b := ok_or (hash_bytes v) (HPE.MalformedEvidence b#"scitt receipt position commitment") in Ok (Some b)
  end.

Definition check_verifiable_data_structure (sign1 : CoseSign1) : Result unit HttpProfileError :=
  let? vds := ok_or (v ← find_header (LInt HEADER_VDS) (hdr_rest (sign1_protected sign1)); i ← cbor_as_integer v; checked_i64 i)
                (HPE.MalformedEvidence b#"scitt receipt vds") in
  if negb (vds =? VDS_RFC9162_SHA256)
  then Err (HPE.MalformedEvidence b#"scitt receipt verifiable data structure unsupported")
  else Ok tt.

Definition inclusion_proof_bytes (sign1 : CoseSign1) : Result bytes HttpProfileError :=
  ok_or (vdp ← find_header (LInt HEADER_VDP) (hdr_rest (sign1_unprotected sign1));
         entries ← cbor_as_map vdp; proofs ← find_integer PROOF_INCLUSION entries;
         l ← cbor_as_array proofs; p ← head l; cbor_as_bytes p)
    (HPE.MalformedEvidence b#"scitt inclusion proof").

(** [map(..).collect::<Result<Vec<_>, _>>()]: the first failure. *)
Fixpoint read_path (nodes : list CborValue) : Result (list bytes) HttpProfileError :=
  match nodes with
  | [] => Ok []
  | h :: rest =>
      let? b := ok_or (hash_bytes h) (HPE.MalformedEvidence b#"scitt inclusion path node") in
      let? path := read_path rest in Ok (b :: path)
  end.

Definition read_inclusion_proof (sign1 : CoseSign1) : Result InclusionProof HttpProfileError :=
  let shape := HPE.MalformedEvidence b#"scitt inclusion proof shape" in
  let? proof := inclusion_proof_bytes sign1 in
  let? decoded := ok_or (from_reader proof) (HPE.MalformedEvidence b#"scitt inclusion proof cbor") in
  let? parts := ok_or (cbor_as_array decoded) shape in
  match parts with
  | [tree_size; leaf_index; path] =>
      let? tree_size := as_u64 tree_size in
      let? leaf_index := as_u64 leaf_index in
      if (tree_size <=? leaf_index)%N
      then Err (HPE.MalformedEvidence b#"scitt inclusion proof leaf index outside tree")
      else
        let? nodes := ok_or (cbor_as_array path) (HPE.MalformedEvidence b#"scitt inclusion path") in
        let? path := read_path nodes in
        Ok {| ip_tree_size := tree_size; ip_leaf_index := leaf_index; ip_path := path |}
  | _ => Err shape
  end.

Definition read_root (sign1 : CoseSign1) : Result (option bytes) HttpProfileError :=
  match sign1_payload sign1 with
  | None => Ok None
  | Some p => if (length p =? 32)%nat then Ok (Some p) else Err (HPE.MalformedEvidence b#"scitt receipt root")
  end.

Definition Receipt_from_cose (cose : bytes) : Result Receipt HttpProfileError :=
  let? sign1 := ok_or (from_tagged_slice cose) (HPE.MalformedEvidence b#"scitt receipt cose") in
  let ts_kid := hdr_key_id (sign1_protected sign1) in
  if negb (utf8_valid ts_kid) then Err (HPE.MalformedEvidence b#"scitt receipt kid")
  else
    check_critical_labels sign1 ;?
    check_verifiable_data_structure sign1 ;?
    let? proof := read_inclusion_proof sign1 in
    let? position := read_position_commitment sign1 in
    let? root := read_root sign1 in
    Ok {| rc_cose := cose; rc_ts_kid := ts_kid; rc_tree_size := ip_tree_size proof;
          rc_leaf_index := ip_leaf_index proof; rc_inclusion_path := ip_path proof;
          rc_position_commitment := position; rc_root := root |}.

(** ** [trust_pin/], [service.rs] *)

Record ResolvedTransparencyService := {
  ts_key : CoseVerificationKey;
  ts_leaf_profile : StatementLeafProfile;
  ts_position_profile : ReceiptPositionProfile;
}.

Definition TRUST_PIN_SCHEMA : bytes := b#"mcp-re-scitt-service-trust-pin/v1".
Record PinnedPublicKey := { pk_x : bytes; pk_y : option bytes }.
Record PinDocument := {
  pin_schema : bytes;
  pin_service_identifier : bytes;
  pin_discovery_method : bytes;
  pin_discovery_uri : bytes;
  pin_fetched_at : bytes;
  pin_kid : bytes;
  pin_algorithm : bytes;
  pin_public_key : PinnedPublicKey;
  pin_public_key_thumbprint : bytes;
  pin_discovery_document_digest : bytes;
  pin_leaf_profile : StatementLeafProfile;
  pin_position_profile : ReceiptPositionProfile;
}.

Definition pinned_key (document : PinDocument) : Result CoseVerificationKey HttpProfileError :=
  if negb (bytes_eqb (pin_schema document) TRUST_PIN_SCHEMA) then Err (HPE.MalformedEvidence b#"scitt trust pin schema")
  else
    let? x := map_err (λ _, HPE.MalformedEvidence b#"scitt trust pin key encoding")
                (b64url_decode (pk_x (pin_public_key document))) in
    if bytes_eqb (pin_algorithm document) b#"ES256" then
      let? y := ok_or (pk_y (pin_public_key document)) (HPE.MalformedEvidence b#"scitt trust pin ec2 y") in
      let? y := map_err (λ _, HPE.MalformedEvidence b#"scitt trust pin key encoding") (b64url_decode y) in
      from_ec2_p256 x y
    else if bytes_eqb (pin_algorithm document) b#"EdDSA" then
      if is_some (pk_y (pin_public_key document))
      then Err (HPE.MalformedEvidence b#"scitt trust pin eddsa carries an ec2 y coordinate")
      else
        let? key := map_err (λ _, HPE.MalformedEvidence b#"scitt trust pin ed25519")
                      (VerificationKey_from_b64url (pk_x (pin_public_key document))) in
        Ok (KeyEd25519 key)
    else Err (HPE.MalformedEvidence b#"scitt trust pin unsupported algorithm").

Record ScittServiceTrustPin := { tp_document : PinDocument; tp_key : CoseVerificationKey }.

Definition pin_try_from (document : PinDocument) : Result ScittServiceTrustPin bytes :=
  let? key := map_err debug_error (pinned_key document) in
  Ok {| tp_document := document; tp_key := key |}.
Definition service_pinned (pin : ScittServiceTrustPin) : ResolvedTransparencyService :=
  {| ts_key := tp_key pin; ts_leaf_profile := pin_leaf_profile (tp_document pin);
     ts_position_profile := pin_position_profile (tp_document pin) |}.
Definition pin_resolve (pin : ScittServiceTrustPin) (kid : bytes) : option ResolvedTransparencyService :=
  if bytes_eqb kid (pin_kid (tp_document pin)) then Some (service_pinned pin) else None.

(** ** [offline.rs] *)

Definition check_position (ts : ResolvedTransparencyService) (receipt : Receipt) (computed : bytes)
    : Result unit HttpProfileError :=
  match ts_position_profile ts, rc_position_commitment receipt with
  | Bound, None => Err HPE.ReceiptPositionUnbound
  | _, Some bound =>
      let expected := position_commitment (rc_ts_kid receipt) VDS_RFC9162_SHA256 (rc_tree_size receipt)
                        (rc_leaf_index receipt) computed in
      if negb (bytes_eqb expected bound) then Err HPE.ReceiptPositionMismatch else Ok tt
  | Unbound, None => Ok tt
  end.

Definition verify_receipt_offline (statement : SignedStatement) (receipt : Receipt)
    (resolve_issuer : bytes → option CoseVerificationKey) (resolve_ts : bytes → option ResolvedTransparencyService)
    : Result unit HttpProfileError :=
  let? issuer := ok_or (resolve_issuer (ss_issuer_kid statement)) HPE.ReceiptIssuerUntrusted in
  verify_cose_sign1 (ss_cose statement) issuer ;?
  let? ts := ok_or (resolve_ts (rc_ts_kid receipt)) HPE.ReceiptIssuerUntrusted in
  let leaf := leaf_hash statement (ts_leaf_profile ts) in
  let? computed := rfc9162_root_from_inclusion_proof leaf (rc_leaf_index receipt) (rc_tree_size receipt)
                     (rc_inclusion_path receipt) in
  match rc_root receipt with
  | Some root => if negb (bytes_eqb computed root) then Err HPE.ReceiptInclusionInvalid else Ok tt
  | None => Ok tt
  end ;?
  verify_cose_sign1_with_payload (rc_cose receipt) (ts_key ts) (negb (is_some (rc_root receipt))) computed ;?
  check_position ts receipt computed.

(** ** [prototype/mod.rs] *)

Record PrototypeTransparencyService := { pts_kid : bytes; pts_leaves : list bytes }.
Definition PrototypeTransparencyService_new (kid : bytes) : PrototypeTransparencyService :=
  {| pts_kid := kid; pts_leaves := [] |}.
Definition root_and_path (svc : PrototypeTransparencyService) (target : nat) : bytes * list bytes :=
  mth_and_path (pts_leaves svc) (Some target) [].

Definition proof_value (tree_size leaf_index : N) (path : list bytes) : CborValue :=
  VArray [VInteger (Z.of_N tree_size); VInteger (Z.of_N leaf_index); VArray (map VBytes path)].
Definition receipt_header (kid : bytes) (tree_size leaf_index : N) (root : bytes) : CoseHeader :=
  {| hdr_alg := Some (RL_Assigned EdDSA); hdr_crit := [RL_Text HEADER_POSITION_COMMITMENT]; hdr_content_type := None;
     hdr_key_id := kid;
     hdr_rest := [(LInt HEADER_VDS, VInteger VDS_RFC9162_SHA256);
                  (LText HEADER_POSITION_COMMITMENT,
                   VBytes (position_commitment kid VDS_RFC9162_SHA256 tree_size leaf_index root))] |}.
Definition proof_header (proof_bytes : bytes) : CoseHeader :=
  {| hdr_alg := None; hdr_crit := []; hdr_content_type := None; hdr_key_id := [];
     hdr_rest := [(LInt HEADER_VDP, VMap [(VInteger PROOF_INCLUSION, VArray [VBytes proof_bytes])])] |}.

(** The leaf is pushed first and stays when a later step fails. *)
Definition register_statement (svc : PrototypeTransparencyService) (statement : SignedStatement)
    (sign_tree_head : bytes → Result bytes HttpProfileError)
    : PrototypeTransparencyService * Result Receipt HttpProfileError :=
  let leaf_index := length (pts_leaves svc) in
  let svc := {| pts_kid := pts_kid svc; pts_leaves := pts_leaves svc ++ [leaf_hash statement StatementBytes] |} in
  let '(root, path) := root_and_path svc leaf_index in
  let tree_size := N.of_nat (length (pts_leaves svc)) in
  let leaf_index := N.of_nat leaf_index in
  (svc,
   let? proof_bytes := ok_or (into_writer (proof_value tree_size leaf_index path))
                         (HPE.MalformedEvidence b#"scitt inclusion proof encode") in
   let protected := receipt_header (pts_kid svc) tree_size leaf_index root in
   let? sig := sign_tree_head (built_tbs protected root) in
   let? cose := ok_or (to_tagged_vec (sign1_build protected (proof_header proof_bytes) root sig))
                  (HPE.MalformedEvidence b#"scitt receipt encode") in
   Receipt_from_cose cose).

End scitt.
