(* ===== verification/ScittProps.v ===== *)
(** * Properties of statements, receipts and retained evidence

    The checks of [Scitt] as equivalences, what a tree head speaks for, the round trip from
    issuing a statement to verifying its receipt, and what correspondence with retained messages
    means. *)

From S2P Require Import Prelude.
From S2P Require Import RustStr.
From S2P Require Import Externals.
From S2P Require Import Json.
From S2P Require Import Concrete.
From S2P Require Import Cose.
From S2P Require Import CoreError.
From S2P Require Import CoreResolver.
From S2P Require Import HttpMessage.
From S2P Require Import Policy.
From S2P Require Import Blocks.
From S2P Require Import Body.
From S2P Require Import Floor.
From S2P Require Import Sign.
From S2P Require Import Full.
From S2P Require Import Delegation.
From S2P Require Import Chain.
From S2P Require Import Merkle.
From S2P Require Import Scitt.

(** ** What the checks establish *)

Section checks.
Context `{Base64Laws, Sha2Laws, Ed25519Laws, CosetLaws, P256, !CborSerde EvidenceCommitment}.

Definition alg_of (key : CoseVerificationKey) : Algorithm :=
  match key with KeyEd25519 _ => EdDSA | KeyEcdsaP256 _ => ES256 end.

(** The signature verifies under the key, over these bytes. *)
Definition signature_holds (key : CoseVerificationKey) (sig data : bytes) : Prop :=
  length sig = 64%nat ∧
  match key with
  | KeyEd25519 k => verify_strict (vk_inner k) data sig = true
  | KeyEcdsaP256 point =>
      ∃ g, p256_signature_from_slice sig = Some g ∧ p256_verify (pt_verifying point) data g = true
  end.

Lemma verify_es256_Ok key sig data : verify_es256 key sig data = Ok tt ↔ signature_holds (KeyEcdsaP256 {| pt_verifying := key |}) sig data.
Proof.
  unfold verify_es256, signature_holds. cbn [pt_verifying].
  destruct (try_into_array 64 sig) as [a|] eqn:Ea; cbn.
  - apply try_into_array_Some in Ea as [-> Hl].
    destruct (p256_signature_from_slice sig) as [g|]; cbn; [|split; [done|by intros (_ & ? & ? & _)]].
    destruct (p256_verify key data g) eqn:E.
    + split; [|done]. intros _. split; [done|by exists g].
    + split; [done|]. intros (_ & ? & [= <-] & ?). congruence.
  - split; [done|]. intros [Hl _]. by rewrite (proj2 (try_into_array_Some 64 sig sig)) in Ea.
Qed.

Lemma verify_ed25519_cose key sig data :
  verify_ed25519_with data (b64url_encode sig) key InvalidSignature = Ok tt ↔ signature_holds (KeyEd25519 key) sig data.
Proof.
  rewrite verify_ed25519_with_Ok. unfold b64url_encode, signature_holds. rewrite url_decode_encode. naive_solver.
Qed.

(** The payload a signature is over. *)
Definition payload_under (s : CoseSign1) (detached : bool) (payload : bytes) : bytes :=
  if detached then payload else default [] (sign1_payload s).

Lemma verify_cose_Ok cose key detached payload :
  verify_cose_sign1_with_payload cose key detached payload = Ok tt ↔
  ∃ s, from_tagged_slice cose = Some s ∧ hdr_alg (sign1_protected s) = Some (RL_Assigned (alg_of key)) ∧
    signature_holds key (sign1_signature s) (sign1_tbs s (payload_under s detached payload)).
Proof.
  unfold verify_cose_sign1_with_payload, verify_detached_signature, verify_signature, payload_under.
  destruct (from_tagged_slice cose) as [s|]; cbn; [|split; [done|by intros (? & ? & _)]].
  destruct (hdr_alg (sign1_protected s)) as [[alg| |]|] eqn:Ea; cbn;
    [|split; [done|intros (? & [= <-] & Hx & _); congruence]..].
  set (data := sign1_tbs s (if detached then payload else default [] (sign1_payload s))).
  destruct alg, key as [ed|[pt]]; cbn [alg_of]; try (split; [done|]; intros (? & [= <-] & Hx & _); congruence).
  - split.
    + intros Hv. eexists. split_and!; [done..|]. apply verify_ed25519_cose. by destruct detached; destruct (verify_ed25519_with _ _ _ _) as [[]|] eqn:E.
    + intros (? & [= <-] & _ & Hs). apply verify_ed25519_cose in Hs. unfold data in Hs. destruct detached; by rewrite Hs.
  - split.
    + intros Hv. eexists. split_and!; [done..|]. apply verify_es256_Ok. by destruct detached; destruct (verify_es256 _ _ _) as [[]|] eqn:E.
    + intros (? & [= <-] & _ & Hs). apply verify_es256_Ok in Hs. unfold data in Hs. cbn [pt_verifying]. destruct detached; by rewrite Hs.
Qed.

Lemma as_u64_Ok v n : as_u64 v = Ok n → fits_u64 n.
Proof.
  unfold as_u64. destruct (cbor_as_integer v) as [i|]; cbn; [|done].
  unfold checked_u64. destruct (in_u64 i) eqn:E; cbn; [|done]. intros [= <-].
  unfold in_u64, u64_MAX in E. unfold fits_u64. lia.
Qed.

(** What a parsed receipt says of its message. *)
Record receipt_of (cose : bytes) (r : Receipt) (s : CoseSign1) : Prop := {
  ro_parses : from_tagged_slice cose = Some s;
  ro_cose : rc_cose r = cose;
  ro_kid : rc_ts_kid r = hdr_key_id (sign1_protected s);
  ro_root : rc_root r = sign1_payload s;
  ro_position : rc_position_commitment r =
    find_header (LText HEADER_POSITION_COMMITMENT) (hdr_rest (sign1_protected s)) ≫= hash_bytes;
  ro_size : fits_u64 (rc_tree_size r);
  ro_index : fits_u64 (rc_leaf_index r);
}.

Lemma hash_bytes_length v b : hash_bytes v = Some b → length b = 32%nat.
Proof.
  unfold hash_bytes. destruct (cbor_as_bytes v) as [c|]; cbn; [|done].
  destruct (length c =? 32)%nat eqn:E; [|done]. intros [= <-]. by apply Nat.eqb_eq.
Qed.

Lemma read_path_hashes nodes path : read_path nodes = Ok path → Forall (λ l, length l = 32%nat) path.
Proof.
  revert path. induction nodes as [|v nodes IH]; intros path Hp; cbn in Hp; inv_ok; [constructor|].
  constructor; [|by apply IH]. by eapply hash_bytes_length.
Qed.

Lemma read_inclusion_proof_Ok s proof :
  read_inclusion_proof s = Ok proof →
  fits_u64 (ip_tree_size proof) ∧ (ip_leaf_index proof < ip_tree_size proof)%N ∧
  Forall (λ l, length l = 32%nat) (ip_path proof).
Proof.
  unfold read_inclusion_proof. intros Hr. inv_ok.
  match goal with H : match ?l with [] => _ | _ => _ end = Ok _ |- _ => destruct l as [|a [|b [|c [|]]]]; try done end.
  inv_ok. cbn. split_and!; [by eapply as_u64_Ok|by apply N.leb_gt|by eapply read_path_hashes].
Qed.

Lemma Receipt_from_cose_Ok cose r : Receipt_from_cose cose = Ok r → ∃ s, receipt_of cose r s.
Proof.
  unfold Receipt_from_cose. intros Hr. inv_ok. eexists.
  destruct (read_inclusion_proof_Ok _ _ E3) as (Hsz & Hix & _). split; cbn; try done.
  - unfold read_root in E5. destruct (sign1_payload v); inv_ok; done.
  - unfold read_position_commitment in E4. destruct (find_header _ _); inv_ok; [|done]. cbn.
    by match goal with H : hash_bytes _ = _ |- _ => rewrite H end.
  - unfold fits_u64 in *. lia.
Qed.

(** What a parsed statement says of its message. *)
Record statement_of (cose : bytes) (st : SignedStatement) (s : CoseSign1) : Prop := {
  so_parses : from_tagged_slice cose = Some s;
  so_cose : ss_cose st = cose;
  so_kid : ss_issuer_kid st = hdr_key_id (sign1_protected s);
  so_claims : checked_claims s (ss_issuer_kid st) = Ok (ss_issued_at st);
  so_payload : sign1_payload s ≫= cbor_read = Some (ss_commitment st);
  so_signed : ss_sig_structure st = sign1_tbs s (default [] (sign1_payload s));
}.

Lemma SignedStatement_from_cose_Ok cose st :
  SignedStatement_from_cose cose = Ok st → ∃ s, statement_of cose st s.
Proof.
  unfold SignedStatement_from_cose, sig_structure_of. intros Hr. inv_ok. eexists. split; cbn; try done.
  by match goal with H : sign1_payload _ = _ |- _ => rewrite H end.
Qed.

(** Acceptance of a receipt, read off the messages. *)
Record accepted (st : SignedStatement) (r : Receipt) (ri : bytes → option CoseVerificationKey)
    (ts : ResolvedTransparencyService) (computed : bytes) : Prop := {
  ac_issuer : ∃ issuer, ri (ss_issuer_kid st) = Some issuer ∧ verify_cose_sign1 (ss_cose st) issuer = Ok tt;
  ac_fold : rfc9162_root_from_inclusion_proof (leaf_hash st (ts_leaf_profile ts)) (rc_leaf_index r)
              (rc_tree_size r) (rc_inclusion_path r) = Ok computed;
  ac_root : rc_root r = None ∨ rc_root r = Some computed;
  ac_service : verify_cose_sign1_with_payload (rc_cose r) (ts_key ts) (negb (is_some (rc_root r))) computed = Ok tt;
  ac_position : match rc_position_commitment r with
                | Some bound => bound = position_commitment (rc_ts_kid r) VDS_RFC9162_SHA256 (rc_tree_size r) (rc_leaf_index r) computed
                | None => ts_position_profile ts = Unbound
                end;
}.

Lemma check_position_Ok ts r computed :
  check_position ts r computed = Ok tt ↔
  match rc_position_commitment r with
  | Some bound => bound = position_commitment (rc_ts_kid r) VDS_RFC9162_SHA256 (rc_tree_size r) (rc_leaf_index r) computed
  | None => ts_position_profile ts = Unbound
  end.
Proof.
  unfold check_position. destruct (ts_position_profile ts), (rc_position_commitment r) as [bound|]; try done;
    match goal with |- context [bytes_eqb ?x ?y] => pose proof (bytes_eqb_true x y) as Hb; destruct (bytes_eqb x y) end;
    cbn; (split; [intros Hx; first [done|symmetry; by apply Hb]
               |intros Hx; first [done|by pose proof (proj2 Hb (eq_sym Hx))]]).
Qed.

Lemma verify_receipt_offline_Ok st r ri rt :
  verify_receipt_offline st r ri rt = Ok tt ↔
  ∃ ts computed, rt (rc_ts_kid r) = Some ts ∧ accepted st r ri ts computed.
Proof.
  unfold verify_receipt_offline. split.
  - intros Hv. inv_ok. repeat match goal with u : () |- _ => destruct u end. do 2 eexists. split; [done|].
    split; [by eexists|done| |done|by apply check_position_Ok].
    destruct (rc_root r) as [root|]; [right|by left]. inv_ok. bool_prop.
    match goal with H : bytes_eqb _ _ = true |- _ => apply bytes_eqb_true in H; by subst end.
  - intros (ts & computed & Hts & [(issuer & Hi & Hsig) Hf Hroot Hs Hp]).
    rewrite Hi. cbn. rewrite Hsig. cbn. rewrite Hts. cbn. rewrite Hf. cbn.
    destruct Hroot as [Hn|Hn]; rewrite Hn in *; cbn in *; rewrite ?bytes_eqb_refl; cbn; rewrite Hs; cbn; by apply check_position_Ok.
Qed.

(** The detached check is only made for a message without an embedded payload, and in either form
    the service's signature is over the root the fold derived. *)
Lemma accepted_signed cose st r s ri ts computed :
  receipt_of cose r s → accepted st r ri ts computed →
  (negb (is_some (rc_root r)) = true → sign1_payload s = None) ∧
  hdr_alg (sign1_protected s) = Some (RL_Assigned (alg_of (ts_key ts))) ∧
  signature_holds (ts_key ts) (sign1_signature s) (sign1_tbs s computed).
Proof.
  intros Hr Ha. pose proof (ac_service _ _ _ _ _ Ha) as Hv. apply verify_cose_Ok in Hv as (s' & Hs & Halg & Hsig).
  rewrite (ro_cose _ _ _ Hr), (ro_parses _ _ _ Hr) in Hs. injection Hs as <-.
  rewrite <-(ro_root _ _ _ Hr). unfold payload_under in Hsig. rewrite <-(ro_root _ _ _ Hr) in Hsig.
  destruct (ac_root _ _ _ _ _ Ha) as [Hn|Hn]; rewrite Hn in *; cbn in *; by split_and!.
Qed.

(** C39: a receipt that parses is well formed: its key id is text, its tree size is a [u64], its
    leaf lies inside the tree, and every node of its path, its root and its position commitment,
    where it has them, are hashes of 32 bytes. *)
Theorem parsed_receipt_well_formed cose r :
  Receipt_from_cose cose = Ok r →
  rc_cose r = cose ∧ utf8_valid (rc_ts_kid r) = true ∧ (rc_leaf_index r < rc_tree_size r)%N ∧ fits_u64 (rc_tree_size r) ∧
  Forall (λ l, length l = 32%nat) (rc_inclusion_path r) ∧
  (∀ root, rc_root r = Some root → length root = 32%nat) ∧
  (∀ bound, rc_position_commitment r = Some bound → length bound = 32%nat).
Proof.
  unfold Receipt_from_cose. intros Hr. inv_ok. cbn. bool_prop.
  destruct (read_inclusion_proof_Ok _ _ E3) as (Hsz & Hix & Hp). split_and!; [done..| |].
  - unfold read_root in E5. intros root ->. destruct (sign1_payload v); inv_ok; simplify_eq. by apply Nat.eqb_eq.
  - unfold read_position_commitment in E4. intros bound ->. destruct (find_header _ _); inv_ok; simplify_eq.
    by eapply hash_bytes_length.
Qed.
End checks.

(** ** What one tree head speaks for *)

Section binding.
Context `{Base64Laws, Sha2Laws, Ed25519Laws, CosetLaws, P256, !CborSerde EvidenceCommitment}.

(** The bytes the service signed: its protected header over the root derived from the statement. *)
Definition tree_head (st : SignedStatement) (r : Receipt) (profile : StatementLeafProfile) : option bytes :=
  match from_tagged_slice (rc_cose r),
        rfc9162_root_from_inclusion_proof (leaf_hash st profile) (rc_leaf_index r) (rc_tree_size r) (rc_inclusion_path r) with
  | Some s, Ok root => Some (sign1_tbs s root)
  | _, _ => None
  end.

(** Everything that is hashed when a receipt is checked. *)
Definition receipt_preimages (st : SignedStatement) (r : Receipt) (profile : StatementLeafProfile) (root : bytes) : list bytes :=
  [leaf_preimage st profile; ss_cose st; ss_sig_structure st;
   position_preimage (rc_ts_kid r) VDS_RFC9162_SHA256 (rc_tree_size r) (rc_leaf_index r) root] ++
  fold_preimages (rc_leaf_index r) (N.pred (rc_tree_size r)) (leaf_hash st profile) (rc_inclusion_path r).

Definition preimages_collide st r st' r' profile root : Prop :=
  ∃ x y, x ∈ receipt_preimages st r profile root ∧ y ∈ receipt_preimages st' r' profile root ∧ collides x y.

(** The content of a statement. *)
Definition same_content (st st' : SignedStatement) : Prop :=
  ss_issuer_kid st = ss_issuer_kid st' ∧ ss_commitment st = ss_commitment st' ∧ ss_issued_at st = ss_issued_at st'.

Lemma sha256_eq x y : sha256 x = sha256 y → x = y ∨ collides x y.
Proof. intros E. destruct (decide (x = y)); [by left|right; by split]. Qed.

Lemma part_be64_inj n m r s :
  fits_u64 n → fits_u64 m → part_bytes (be64 n) ++ r = part_bytes (be64 m) ++ s → n = m ∧ r = s.
Proof.
  unfold part_bytes, len64. rewrite <-!app_assoc. intros Hn Hm He.
  assert (∀ k, length (be64 k) = 8%nat) as Hl by (intros; apply be_bytes_length).
  rewrite !Hl in He. apply app_inv_head in He. by apply framed_be64 in He.
Qed.

Lemma position_preimage_inj kid vds size size' index index' root root' :
  fits_u64 size → fits_u64 size' → fits_u64 index → fits_u64 index' →
  position_preimage kid vds size index root = position_preimage kid vds size' index' root' →
  size = size' ∧ index = index'.
Proof.
  unfold position_preimage. cbn [map concat]. intros Hs Hs' Hi Hi' He.
  do 4 apply app_inv_head in He. apply part_be64_inj in He as [-> He]; [|done..].
  by apply part_be64_inj in He as [-> _].
Qed.

Lemma statement_of_content cose cose' st st' s s' :
  statement_of cose st s → statement_of cose' st' s' → ss_sig_structure st = ss_sig_structure st' → same_content st st'.
Proof.
  intros Hs Hs' He. rewrite (so_signed _ _ _ Hs), (so_signed _ _ _ Hs') in He.
  pose proof (sign1_tbs_inj _ _ _ _ _ _ (so_parses _ _ _ Hs) (so_parses _ _ _ Hs') He) as [Hp Hd].
  assert (ss_issuer_kid st = ss_issuer_kid st') as Hk.
  { by rewrite (so_kid _ _ _ Hs), (so_kid _ _ _ Hs'), Hp. }
  pose proof (so_claims _ _ _ Hs) as Hc. pose proof (so_claims _ _ _ Hs') as Hc'.
  pose proof (so_payload _ _ _ Hs) as Hy. pose proof (so_payload _ _ _ Hs') as Hy'.
  destruct (sign1_payload s), (sign1_payload s'); try done. cbn in *. subst.
  unfold checked_claims in *. rewrite Hp, Hk in Hc. rewrite Hc' in Hc. split_and!; [done|congruence..].
Qed.

Lemma leaf_binds cose cose' st st' profile :
  SignedStatement_from_cose cose = Ok st → SignedStatement_from_cose cose' = Ok st' →
  leaf_hash st profile = leaf_hash st' profile →
  same_content st st' ∨ ∃ x y, x ∈ [leaf_preimage st profile; ss_cose st; ss_sig_structure st] ∧
    y ∈ [leaf_preimage st' profile; ss_cose st'; ss_sig_structure st'] ∧ collides x y.
Proof.
  intros Hst Hst' [He|Hc]%sha256_eq; [|right; do 2 eexists; split_and!; [..|exact Hc]; set_solver].
  destruct (SignedStatement_from_cose_Ok _ _ Hst) as [s Hs]. destruct (SignedStatement_from_cose_Ok _ _ Hst') as [s' Hs'].
  assert (ss_cose st = ss_cose st' → same_content st st') as Hcose.
  { rewrite (so_cose _ _ _ Hs), (so_cose _ _ _ Hs'). intros <-. rewrite Hst in Hst'. by injection Hst' as <-. }
  unfold leaf_preimage in He. destruct profile; injection He as He.
  - left. auto.
  - apply sha256_eq in He as [He|Hc]; [left; auto|right]. do 2 eexists. split_and!; [..|exact Hc]; set_solver.
  - apply sha256_eq in He as [He|Hc]; [left; by eapply statement_of_content|right].
    do 2 eexists. split_and!; [..|exact Hc]; set_solver.
Qed.

Lemma root_fold leaf index size path root :
  rfc9162_root_from_inclusion_proof leaf index size path = Ok root →
  ∃ f, fold_siblings index (N.pred size) leaf path = Some (f, 0%N, root).
Proof.
  unfold rfc9162_root_from_inclusion_proof. intros Hr. destruct (_ <=? _)%N; [done|].
  destruct (fold_siblings _ _ _ _) as [[[f s] r]|]; [|done]. destruct (s =? 0)%N eqn:Es; [|done].
  apply N.eqb_eq in Es as ->. injection Hr as ->. eauto.
Qed.

(** Two accepted receipts with one root at one position. *)
Lemma position_binds cose cose' st st' r r' profile root :
  SignedStatement_from_cose cose = Ok st → SignedStatement_from_cose cose' = Ok st' →
  rc_tree_size r = rc_tree_size r' → rc_leaf_index r = rc_leaf_index r' →
  rfc9162_root_from_inclusion_proof (leaf_hash st profile) (rc_leaf_index r) (rc_tree_size r) (rc_inclusion_path r) = Ok root →
  rfc9162_root_from_inclusion_proof (leaf_hash st' profile) (rc_leaf_index r') (rc_tree_size r') (rc_inclusion_path r') = Ok root →
  same_content st st' ∨ preimages_collide st r st' r' profile root.
Proof.
  intros Hst Hst' Hsz Hix Hf Hf'. unfold preimages_collide, receipt_preimages. rewrite <-Hsz, <-Hix in *.
  apply root_fold in Hf as [f Hf]. apply root_fold in Hf' as [f' Hf'].
  destruct (fold_binds _ _ _ _ _ _ _ _ _ (sha256_length _) (sha256_length _) Hf Hf') as [[Hl _]|(x & y & Hx & Hy & Hc)].
  - destruct (leaf_binds _ _ _ _ _ Hst Hst' Hl) as [?|(x & y & Hx & Hy & Hc)]; [by left|right].
    exists x, y. split_and!; [set_solver..|done].
  - right. exists x, y. split_and!; [set_solver..|done].
Qed.

(** C16: a tree head of a service pinned as position-bound speaks for one statement at one
    position. The service's key verifies over the tree head of every accepted receipt; and two
    accepted receipts, for statements whatever and checked by whomever, that carry one and the
    same tree head name the same tree size and leaf index and vouch for the same issuer,
    commitment and instant, unless two of the byte strings hashed on the way collide. *)
Theorem tree_head_speaks_once cose cose' st st' rcose rcose' r r' ri ri' rt rt' ts ts' :
  SignedStatement_from_cose cose = Ok st → SignedStatement_from_cose cose' = Ok st' →
  Receipt_from_cose rcose = Ok r → Receipt_from_cose rcose' = Ok r' →
  verify_receipt_offline st r ri rt = Ok tt → verify_receipt_offline st' r' ri' rt' = Ok tt →
  rt (rc_ts_kid r) = Some ts → rt' (rc_ts_kid r') = Some ts' →
  ts_leaf_profile ts = ts_leaf_profile ts' → ts_position_profile ts = Bound →
  tree_head st r (ts_leaf_profile ts) = tree_head st' r' (ts_leaf_profile ts') →
  ∃ root head sig, tree_head st r (ts_leaf_profile ts) = Some head ∧ signature_holds (ts_key ts) sig head ∧
    ((rc_tree_size r = rc_tree_size r' ∧ rc_leaf_index r = rc_leaf_index r' ∧ same_content st st') ∨
     preimages_collide st r st' r' (ts_leaf_profile ts) root).
Proof.
  intros Hst Hst' Hr Hr' Hv Hv' Hts Hts' Hlp Hb Hh.
  destruct (Receipt_from_cose_Ok _ _ Hr) as [s Hs]. destruct (Receipt_from_cose_Ok _ _ Hr') as [s' Hs'].
  apply verify_receipt_offline_Ok in Hv as (ts0 & root & Hts0 & Ha). rewrite Hts in Hts0. injection Hts0 as <-.
  apply verify_receipt_offline_Ok in Hv' as (ts0 & root' & Hts0 & Ha'). rewrite Hts' in Hts0. injection Hts0 as <-.
  destruct (accepted_signed _ _ _ _ _ _ _ Hs Ha) as (_ & _ & Hsig).
  unfold tree_head in Hh |- *. rewrite (ro_cose _ _ _ Hs), (ro_cose _ _ _ Hs'), (ro_parses _ _ _ Hs), (ro_parses _ _ _ Hs') in Hh.
  rewrite (ro_cose _ _ _ Hs), (ro_parses _ _ _ Hs).
  rewrite (ac_fold _ _ _ _ _ Ha), (ac_fold _ _ _ _ _ Ha') in Hh. rewrite (ac_fold _ _ _ _ _ Ha). injection Hh as Hh.
  exists root, (sign1_tbs s root), (sign1_signature s). split_and!; [done..|].
  pose proof (sign1_tbs_inj _ _ _ _ _ _ (ro_parses _ _ _ Hs) (ro_parses _ _ _ Hs') Hh) as [Hp <-].
  pose proof (ac_position _ _ _ _ _ Ha) as Hpos. pose proof (ac_position _ _ _ _ _ Ha') as Hpos'.
  assert (rc_ts_kid r = rc_ts_kid r') as Hk by (by rewrite (ro_kid _ _ _ Hs), (ro_kid _ _ _ Hs'), Hp).
  rewrite (ro_position _ _ _ Hs) in Hpos. rewrite (ro_position _ _ _ Hs'), <-Hp in Hpos'.
  destruct (find_header _ _ ≫= hash_bytes) as [bound|]; [|congruence].
  rewrite Hpos in Hpos'. apply sha256_eq in Hpos' as [He|Hc].
  - rewrite <-Hk in He. apply position_preimage_inj in He as [Hsz Hix];
      [|apply Hs|apply Hs'|apply Hs|apply Hs'].
    pose proof (ac_fold _ _ _ _ _ Ha) as Hf. pose proof (ac_fold _ _ _ _ _ Ha') as Hf'. rewrite <-Hlp in Hf'.
    destruct (position_binds _ _ _ _ _ _ _ _ Hst Hst' Hsz Hix Hf Hf'); [left|by right]; done.
  - right. unfold preimages_collide, receipt_preimages. do 2 eexists. split_and!; [..|exact Hc]; set_solver.
Qed.
End binding.

(** ** From issuance to a verified receipt *)

Section round_trip.
Context `{Base64Laws, Sha2Laws, Ed25519Laws, CiboriumLaws, !Coset, !CosetLaws, P256}.
Context `{!CborSerde EvidenceCommitment, !CborSerdeLaws (T := EvidenceCommitment)}.

(** A signer that holds an Ed25519 key. *)
Definition signer (k : SigningKey) (data : bytes) : Result bytes HttpProfileError := Ok (dalek_sign (sk_inner k) data).

Lemma plain_i64 z : is_i64 z → plain_value (VInteger z).
Proof. unfold is_i64, i64_MIN, i64_MAX. intros. constructor. lia. Qed.
Lemma plain_u64 n : fits_u64 n → plain_value (VInteger (Z.of_N n)).
Proof. unfold fits_u64. intros. constructor. lia. Qed.

(** A plain value, constructor by constructor. *)
Ltac plain :=
  repeat match goal with
  | |- Forall _ (_ :: _) => apply Forall_cons; split; cbn [fst snd]
  | |- Forall _ [] => apply Forall_nil; exact I
  | |- plain_value (VMap _) => apply plain_map; cbn [map fst snd]
  | |- plain_value (VArray _) => apply plain_array
  | |- plain_value (VBytes _) => apply plain_bytes
  | |- plain_value (VText _) => apply plain_text
  | |- plain_value (VInteger _) =>
      first [apply plain_i64; assumption|apply plain_u64; assumption|apply plain_integer; split; by vm_compute]
  end; try done.

Lemma empty_header_encodable : header_encodable empty_header.
Proof. split_and!; cbn; [apply NoDup_nil_2|constructor..|done]. Qed.

Lemma statement_header_encodable kid iat : is_i64 iat → header_encodable (statement_header kid iat).
Proof.
  intros Hi. split_and!; cbn [statement_header hdr_rest hdr_content_type map fst snd].
  - apply NoDup_singleton.
  - plain.
  - plain.
  - split; by vm_compute.
Qed.

Lemma receipt_header_encodable kid size index root : header_encodable (receipt_header kid size index root).
Proof.
  split_and!; cbn [receipt_header hdr_rest hdr_content_type map fst snd]; [|plain..|done].
  apply NoDup_cons. split; [set_solver|apply NoDup_singleton].
Qed.

Lemma proof_header_encodable pb : header_encodable (proof_header pb).
Proof.
  split_and!; cbn [proof_header hdr_rest hdr_content_type map fst snd]; [apply NoDup_singleton|plain..|done].
Qed.

Lemma proof_value_plain size index path : fits_u64 size → fits_u64 index → plain_value (proof_value size index path).
Proof.
  intros. unfold proof_value. plain. apply Forall_map, Forall_true. intros. apply plain_bytes.
Qed.

(** A message signed with a signer's key verifies under its public key. *)
Lemma built_verifies k cose s payload x :
  from_tagged_slice cose = Some s → hdr_alg (sign1_protected s) = Some (RL_Assigned EdDSA) →
  sign1_payload s = Some payload → sign1_signature s = dalek_sign (sk_inner k) (sign1_tbs s payload) →
  verify_cose_sign1_with_payload cose (KeyEd25519 (SigningKey_public_key k)) false x = Ok tt.
Proof.
  intros Hs Ha Hy Hg. apply verify_cose_Ok. exists s. split_and!; [done..|].
  unfold payload_under. rewrite Hy, Hg. split; [apply dalek_sign_length|apply verify_strict_sign].
Qed.

Lemma find_header_cons l v rest : find_header l ((l, v) :: rest) = Some v.
Proof. unfold find_header. cbn. by rewrite bool_decide_true. Qed.
Lemma find_header_skip l l' v rest : l ≠ l' → find_header l ((l', v) :: rest) = find_header l rest.
Proof. intros Hl. unfold find_header. cbn. by rewrite bool_decide_false. Qed.
Lemma find_integer_cons key i v rest :
  find_integer key ((VInteger i, v) :: rest) = if i =? key then Some v else find_integer key rest.
Proof. unfold find_integer. cbn. rewrite as_integer_VInteger. by destruct (i =? key). Qed.

Lemma statement_claim kid iat key :
  cwt_claim (statement_header kid iat) key =
    if CWT_ISS =? key then Some (VText kid) else if CWT_SUB =? key then Some (VText STATEMENT_SUBJECT)
    else if CWT_IAT =? key then Some (VInteger iat) else None.
Proof.
  unfold cwt_claim. cbn [statement_header hdr_rest]. rewrite find_header_cons. cbn [mbind option_bind].
  rewrite as_map_VMap. cbn [mbind option_bind]. by rewrite !find_integer_cons.
Qed.

Lemma statement_checked s kid iat :
  sign1_protected s = statement_header kid iat → is_i64 iat → checked_claims s kid = Ok iat.
Proof.
  intros Hs Hi. unfold checked_claims. rewrite Hs, !statement_claim. cbn.
  rewrite as_integer_VInteger, !as_text_VText. cbn. rewrite (checked_i64_is _ Hi). cbn. by rewrite bytes_eqb_refl.
Qed.

Lemma issued_statement kid commitment iat k :
  utf8_valid kid = true → is_i64 iat →
  ∃ st cose, issue_signed_statement kid commitment iat (signer k) = Ok st ∧ SignedStatement_from_cose cose = Ok st ∧
    ss_issuer_kid st = kid ∧ ss_commitment st = commitment ∧ ss_issued_at st = iat ∧
    verify_cose_sign1 (ss_cose st) (KeyEd25519 (SigningKey_public_key k)) = Ok tt.
Proof.
  intros Hk Hi. unfold issue_signed_statement. destruct (cbor_write_total commitment) as [payload Hp]. rewrite Hp. cbn.
  pose proof (statement_header_encodable kid iat Hi) as He.
  destruct (to_tagged_vec_total (statement_header kid iat) empty_header payload
    (dalek_sign (sk_inner k) (built_tbs (statement_header kid iat) payload)) He empty_header_encodable) as [cose Hc].
  rewrite Hc. cbn.
  destruct (from_tagged_slice_built _ _ _ _ _ He empty_header_encodable Hc) as (s & Hs & Hsp & _ & Hy & Hg & Ht).
  assert (∃ sig, SignedStatement_from_cose cose =
    Ok {| ss_sig_structure := sig; ss_cose := cose; ss_issuer_kid := kid; ss_commitment := commitment; ss_issued_at := iat |}) as [sig Hst].
  { unfold SignedStatement_from_cose, sig_structure_of. rewrite Hs. cbn. rewrite Hsp. cbn [statement_header hdr_key_id].
    rewrite Hk. cbn [negb]. rewrite (statement_checked _ _ _ Hsp Hi). cbn.
    rewrite Hy. cbn. rewrite (cbor_read_write _ _ Hp). cbn. eauto. }
  exists {| ss_sig_structure := sig; ss_cose := cose; ss_issuer_kid := kid; ss_commitment := commitment; ss_issued_at := iat |}, cose.
  split_and!; [done..|]. apply (built_verifies _ _ s payload); [done|by rewrite Hsp|done|by rewrite Ht].
Qed.

(** ** The prototype service *)

Definition service_ok (svc : PrototypeTransparencyService) : Prop :=
  utf8_valid (pts_kid svc) = true ∧ Forall (λ l, length l = 32%nat) (pts_leaves svc).

(** Every registration keeps the service well formed, appends one leaf and keeps the others, also
    when it fails. *)
Lemma registration_keeps svc st sign : service_ok svc →
  let svc' := (register_statement svc st sign).1 in
  service_ok svc' ∧ pts_kid svc' = pts_kid svc ∧ pts_leaves svc' = pts_leaves svc ++ [leaf_hash st StatementBytes].
Proof.
  intros [Hk HF]. unfold register_statement. destruct (root_and_path _ _). cbn. split_and!; [split; [done|]|done..].
  apply Forall_app_2; [done|]. apply Forall_singleton, sha256_length.
Qed.

Lemma hash_bytes_VBytes b : length b = 32%nat → hash_bytes (VBytes b) = Some b.
Proof. intros Hb. unfold hash_bytes. rewrite as_bytes_VBytes. cbn. by rewrite Hb. Qed.

Lemma read_path_VBytes path : Forall (λ l, length l = 32%nat) path → read_path (map VBytes path) = Ok path.
Proof. induction 1 as [|b path Hb _ IH]; cbn; [done|]. rewrite (hash_bytes_VBytes _ Hb), IH. done. Qed.

Lemma as_u64_VInteger n : fits_u64 n → as_u64 (VInteger (Z.of_N n)) = Ok n.
Proof.
  intros Hn. unfold as_u64, checked_u64, in_u64, u64_MAX. rewrite as_integer_VInteger. cbn [mbind option_bind].
  unfold fits_u64 in Hn. replace ((0 <=? Z.of_N n) && _) with true by (symmetry; apply andb_true_iff; lia).
  cbn. by rewrite N2Z.id.
Qed.

Lemma built_proof s pb size index path :
  sign1_unprotected s = proof_header pb → into_writer (proof_value size index path) = Some pb →
  fits_u64 size → (index < size)%N → Forall (λ l, length l = 32%nat) path →
  read_inclusion_proof s = Ok {| ip_tree_size := size; ip_leaf_index := index; ip_path := path |}.
Proof.
  intros Hs Hw Hsz Hlt HF. assert (fits_u64 index) as Hix by (unfold fits_u64 in *; lia).
  unfold read_inclusion_proof, inclusion_proof_bytes. rewrite Hs. cbn [proof_header hdr_rest].
  rewrite find_header_cons. cbn [mbind option_bind]. rewrite as_map_VMap. cbn [mbind option_bind].
  rewrite find_integer_cons, Z.eqb_refl. cbn [mbind option_bind]. rewrite as_array_VArray. cbn [mbind option_bind head].
  rewrite as_bytes_VBytes. cbn [ok_or]. rewrite (from_reader_into_writer _ _ (proof_value_plain _ _ _ Hsz Hix) Hw). cbn [ok_or].
  unfold proof_value. rewrite as_array_VArray. cbn [ok_or]. rewrite (as_u64_VInteger _ Hsz), (as_u64_VInteger _ Hix).
  rewrite (proj2 (N.leb_gt _ _) Hlt), as_array_VArray. cbn [ok_or]. by rewrite (read_path_VBytes _ HF).
Qed.

Lemma built_receipt s cose kid size index root pb path :
  from_tagged_slice cose = Some s → utf8_valid kid = true → sign1_protected s = receipt_header kid size index root →
  sign1_unprotected s = proof_header pb → into_writer (proof_value size index path) = Some pb →
  sign1_payload s = Some root → length root = 32%nat →
  fits_u64 size → (index < size)%N → Forall (λ l, length l = 32%nat) path →
  Receipt_from_cose cose =
    Ok {| rc_cose := cose; rc_ts_kid := kid; rc_tree_size := size; rc_leaf_index := index; rc_inclusion_path := path;
          rc_position_commitment := Some (position_commitment kid VDS_RFC9162_SHA256 size index root); rc_root := Some root |}.
Proof.
  intros Hs Hk Hp Hu Hw Hy Hr Hsz Hlt HF. unfold Receipt_from_cose. rewrite Hs. cbn [ok_or].
  rewrite (built_proof _ _ _ _ _ Hu Hw Hsz Hlt HF).
  unfold check_critical_labels, check_verifiable_data_structure, read_position_commitment, read_root.
  rewrite Hp, Hy. cbn [receipt_header hdr_key_id hdr_crit hdr_rest]. rewrite Hk. cbn [negb forallb is_position_label].
  rewrite bytes_eqb_refl, find_header_cons, find_header_skip, find_header_cons by done. cbn [andb mbind option_bind].
  rewrite as_integer_VInteger, hash_bytes_VBytes by apply sha256_length. cbn. by rewrite Hr.
Qed.

(** A registration succeeds, and its receipt carries the root of the longer log, the audit path
    of the new leaf, and the service's signature. *)
Lemma registered_receipt svc st tk :
  service_ok svc → (N.of_nat (length (pts_leaves svc)) < 2 ^ 64 - 1)%N →
  let leaves := pts_leaves svc ++ [leaf_hash st StatementBytes] in
  let index := length (pts_leaves svc) in
  ∃ r, register_statement svc st (signer tk) = ({| pts_kid := pts_kid svc; pts_leaves := leaves |}, Ok r) ∧
    rc_ts_kid r = pts_kid svc ∧ rc_leaf_index r = N.of_nat index ∧ rc_tree_size r = N.of_nat (length leaves) ∧
    rc_inclusion_path r = audit_path leaves index ∧ rc_root r = Some (mth leaves) ∧
    rc_position_commitment r = Some (position_commitment (pts_kid svc) VDS_RFC9162_SHA256 (N.of_nat (length leaves)) (N.of_nat index) (mth leaves)) ∧
    verify_cose_sign1_with_payload (rc_cose r) (KeyEd25519 (SigningKey_public_key tk)) false (mth leaves) = Ok tt.
Proof.
  intros Hsvc Hsize leaves index. destruct (registration_keeps svc st (signer tk) Hsvc) as ([Hsk HF] & Hk & Hl).
  unfold register_statement in *. fold leaves index in Hl, HF, Hsk, Hk |- *.
  unfold root_and_path in *. cbn [pts_leaves pts_kid] in *. destruct (mth_and_path_spec leaves) as [_ Hm]. rewrite Hm in *.
  cbn [app fst pts_leaves pts_kid] in *.
  assert (length leaves = S index) as Hlen by (unfold leaves; rewrite length_app; cbn; lia).
  destruct (mth_hashes leaves ltac:(intros E; by rewrite E in Hlen) HF) as [Hroot Hpath]. specialize (Hpath index).
  assert (fits_u64 (N.of_nat (length leaves))) as Hsz by (unfold fits_u64; lia).
  assert (N.of_nat index < N.of_nat (length leaves))%N as Hlt by lia.
  assert (fits_u64 (N.of_nat index)) as Hix by (unfold fits_u64 in *; lia).
  destruct (into_writer_total _ (proof_value_plain _ _ (audit_path leaves index) Hsz Hix)) as [pb Hpb].
  rewrite Hpb. cbn [ok_or signer].
  pose proof (receipt_header_encodable (pts_kid svc) (N.of_nat (length leaves)) (N.of_nat index) (mth leaves)) as He.
  set (h := receipt_header _ _ _ _) in *.
  destruct (to_tagged_vec_total h (proof_header pb) (mth leaves) (dalek_sign (sk_inner tk) (built_tbs h (mth leaves))) He
              (proof_header_encodable pb)) as [cose Hc]. rewrite Hc. cbn [ok_or].
  destruct (from_tagged_slice_built _ _ _ _ _ He (proof_header_encodable pb) Hc) as (s & Hs & Hp & Hu & Hy & Hg & Ht).
  rewrite (built_receipt _ _ _ _ _ _ _ _ Hs Hsk Hp Hu Hpb Hy Hroot Hsz Hlt Hpath).
  eexists. split_and!; [done..|]. apply (built_verifies _ _ s (mth leaves)); [done|by rewrite Hp|done|by rewrite Ht].
Qed.

(** C17: what is issued and registered verifies, whatever the log already holds. For keys and a
    log of any size, issuing a statement and registering it succeed and leave the log with one
    more leaf; the receipt names that leaf and carries a position; and a verifier that resolves
    the issuer and the service to their keys accepts it offline, under either position profile.
    The statement it accepts carries the commitment and the instant it was issued with. *)
Theorem registered_statement_verifies kid commitment iat ik svc tk ri rt position :
  utf8_valid kid = true → is_i64 iat → service_ok svc → (N.of_nat (length (pts_leaves svc)) < 2 ^ 64 - 1)%N →
  ri kid = Some (KeyEd25519 (SigningKey_public_key ik)) →
  rt (pts_kid svc) = Some {| ts_key := KeyEd25519 (SigningKey_public_key tk); ts_leaf_profile := StatementBytes;
                             ts_position_profile := position |} →
  ∃ st r, issue_signed_statement kid commitment iat (signer ik) = Ok st ∧
    register_statement svc st (signer tk) =
      ({| pts_kid := pts_kid svc; pts_leaves := pts_leaves svc ++ [leaf_hash st StatementBytes] |}, Ok r) ∧
    ss_issuer_kid st = kid ∧ ss_commitment st = commitment ∧ ss_issued_at st = iat ∧
    rc_leaf_index r = N.of_nat (length (pts_leaves svc)) ∧ rc_tree_size r = N.of_nat (S (length (pts_leaves svc))) ∧
    is_some (rc_position_commitment r) = true ∧ verify_receipt_offline st r ri rt = Ok tt.
Proof.
  intros Hk Hi Hsvc Hsize Hri Hrt.
  destruct (issued_statement kid commitment iat ik Hk Hi) as (st & _ & Hst & _ & Hkid & Hcm & Hiat & Hv).
  destruct (registered_receipt svc st tk Hsvc Hsize) as (r & Hr & Hrk & Hrx & Hrs & Hrp & Hrr & Hrc & Hrv).
  assert (length (pts_leaves svc ++ [leaf_hash st StatementBytes]) = S (length (pts_leaves svc))) as Hlen
    by (rewrite length_app; cbn; lia).
  exists st, r. split_and!; [done..|by rewrite Hrs, Hlen|by rewrite Hrc|].
  apply verify_receipt_offline_Ok. do 2 eexists. split; [rewrite Hrk; exact Hrt|].
  split; cbn [ts_key ts_leaf_profile]; rewrite ?Hrx, ?Hrs, ?Hrp, ?Hrr, ?Hrc, ?Hrk, ?Hkid; [by eexists| |by right|done..].
  apply audit_path_folds. by rewrite lookup_app_r, Nat.sub_diag by lia.
Qed.
End round_trip.

(** ** Retained evidence *)

Section retained.
Context `{Base64Laws, Sha2Laws, Ed25519, JsonTree}.
Context `{!Serde HttpRequestEvidenceBlock, !Serde HttpResponseEvidenceBlock}.
Context `{!Serde DelegationHeader, !Serde DelegationClaims}.
Implicit Types (ev : HopEvidence) (evs : list HopEvidence).

(** The handles of a verified hop. *)
Definition handles ev : Prop :=
  ∃ base base', he_request_evidence ev = from_signature_base base ∧ he_response_evidence ev = from_response_signature_base base'.

Lemma verify_hop_handles cv hop position ev : verify_hop cv hop position = Ok ev → handles ev.
Proof.
  unfold verify_hop, chain_verify_request. intros Hv. inv_ok. cbn.
  match goal with Hd : verify_delegated_bound_response _ _ _ _ _ _ = Ok _ |- _ =>
    destruct (delegated_response_parts _ _ _ _ _ _ _ _ Hd) as (_ & _ & base' & _ & _ & _ & _ & _ & He & _) end.
  match goal with Hf : verify_request_floor _ _ _ = Ok _ |- _ =>
    destruct (floor_request_parts _ _ _ _ _ Hf) as (_ & _ & _ & _ & _ & Hev & _) end.
  eexists _, base'. split; [exact Hev|exact He].
Qed.

Lemma reconstruct_from_handles cv count i evs hops :
  Forall handles evs → Forall handles (reconstruct_from cv count i evs hops).2.
Proof.
  revert i evs. induction hops as [|hop hops IH]; intros i evs HF; cbn [reconstruct_from]; [done|].
  destruct (verify_hop _ _ _) as [ev|] eqn:E; [|done]. apply IH, Forall_app_2; [done|].
  apply Forall_singleton. by eapply verify_hop_handles.
Qed.

Lemma reconstruct_chain_handles hops verifier expect audit is_revoked now :
  let r := reconstruct_chain hops verifier expect audit is_revoked now in
  Forall handles (cr_hop_evidence r) ∧ cr_submitted_commitment r = submitted_commitment hops.
Proof.
  cbv zeta. unfold reconstruct_chain. destruct hops as [|hop hops]; [by split|].
  match goal with |- context [reconstruct_from ?cv ?c ?i ?e ?h] =>
    pose proof (reconstruct_from_handles cv c i e h ltac:(constructor)) as HF; destruct (reconstruct_from cv c i e h) end.
  by split.
Qed.

Lemma digest_text label b : labeled_digest_value label b ≠ [] ∧ NUL ∉ labeled_digest_value label b.
Proof.
  unfold labeled_digest_value, b64url_encode. split; [|by apply url_encode_no].
  apply url_encode_nonempty. intros E. pose proof (sha256_length (labeled_preimage label b)) as Hl. by rewrite E in Hl.
Qed.

Lemma NUL_terminated a b r s : NUL ∉ a → NUL ∉ b → a ++ [NUL] ++ r = b ++ [NUL] ++ s → a = b ∧ r = s.
Proof.
  revert b. induction a as [|x a IH]; intros [|y b] Ha Hb; cbn; intros He; simplify_eq.
  - done.
  - set_solver.
  - set_solver.
  - destruct (IH b) as [-> ->]; set_solver.
Qed.

(** The shape determines the handles of every hop. *)
Lemma shape_inj evs evs' : Forall handles evs → Forall handles evs' → shape_bytes evs = shape_bytes evs' → evs = evs'.
Proof.
  intros HF. revert evs'. induction HF as [|ev evs (b1 & b2 & Hq & Hr) _ IH]; intros [|ev' evs'] HF'; [done|..].
  - apply Forall_cons in HF' as [(b1' & b2' & Hq' & Hr') _]. unfold shape_bytes. cbn [map concat]. rewrite Hq'.
    cbn [from_signature_base digest_value]. pose proof (proj1 (digest_text EVIDENCE_LABEL_REQUEST b1')).
    by destruct (labeled_digest_value EVIDENCE_LABEL_REQUEST b1').
  - unfold shape_bytes. cbn [map concat]. rewrite Hq. cbn [from_signature_base digest_value].
    pose proof (proj1 (digest_text EVIDENCE_LABEL_REQUEST b1)). by destruct (labeled_digest_value EVIDENCE_LABEL_REQUEST b1).
  - apply Forall_cons in HF' as [(b1' & b2' & Hq' & Hr') HF']. unfold shape_bytes. cbn [map concat].
    rewrite <-!app_assoc. destruct ev as [e1 e2], ev' as [e1' e2']. cbn in *. subst. cbn [from_signature_base from_response_signature_base digest_value].
    intros Hs. apply NUL_terminated in Hs as [E1 Hs]; [|apply digest_text..].
    apply NUL_terminated in Hs as [E2 Hs]; [|apply digest_text..]. rewrite (IH _ HF' Hs).
    unfold from_signature_base, from_response_signature_base. by rewrite E1, E2.
Qed.

Lemma label_token_complete label : label_token label = b#"complete" ↔ is_complete label = true.
Proof. destruct label; [done|]. split; [|done]. cbn. by intros [=]. Qed.

Lemma is_complete_record_label r bc vc : is_complete_record (from_reconstruction r bc vc) = is_complete (cr_label r).
Proof.
  unfold is_complete_record, from_reconstruction. destruct (match cr_hop_evidence r with [] => _ | _ => _ end). cbn [ec_chain_label].
  apply Bool.eq_iff_eq_true. by rewrite bytes_eqb_true, label_token_complete.
Qed.

Lemma commits_iff r bc vc : Forall handles (cr_hop_evidence r) →
  commits_to_verified_evidence (from_reconstruction r bc vc) = true ↔ cr_hop_evidence r ≠ [].
Proof.
  unfold commits_to_verified_evidence, from_reconstruction. intros HF.
  destruct (cr_hop_evidence r) as [|ev evs]; [cbn; naive_solver|]. cbn [ec_request_evidence ec_response_evidence].
  apply Forall_cons in HF as [(b1 & b2 & Hq & Hr) _]. rewrite Hq. cbn [from_signature_base digest_value].
  split; [done|intros _]. apply orb_true_iff. left. apply negb_true_iff, bytes_eqb_false, digest_text.
Qed.

Lemma submission_corresponds_Ok c c' :
  submission_corresponds_to c c' = Ok tt ↔ ec_submitted_commitment c ≠ [] ∧ ec_submitted_commitment c' = ec_submitted_commitment c.
Proof.
  unfold submission_corresponds_to, identifies_a_submission. rewrite negb_involutive.
  destruct (bytes_eqb (ec_submitted_commitment c) []) eqn:E1; [apply bytes_eqb_true in E1|apply bytes_eqb_false in E1].
  - split; [done|]. by intros [? _].
  - destruct (bytes_eqb (ec_submitted_commitment c') _) eqn:E2; [apply bytes_eqb_true in E2|apply bytes_eqb_false in E2];
      cbn; split; naive_solver.
Qed.

(** Correspondence, as an equivalence. *)
Lemma corresponds_to_Ok c c' k :
  corresponds_to c c' = Ok k ↔
  submission_corresponds_to c c' = Ok tt ∧
  match k with
  | BoundToSubmissionOnly => commits_to_verified_evidence c && commits_to_verified_evidence c' = false
  | BoundToVerifiedCall => commits_to_verified_evidence c && commits_to_verified_evidence c' = true ∧ c' = c
  end.
Proof.
  unfold corresponds_to. rewrite <-negb_andb. destruct (_ && _); cbn [negb].
  2:{ destruct (submission_corresponds_to c c') as [[]|]; destruct k; naive_solver. }
  rewrite submission_corresponds_Ok. split.
  - intros Hc. inv_ok. bool_prop. repeat match goal with H : bytes_eqb _ _ = true |- _ => apply bytes_eqb_true in H end.
    destruct v. apply submission_corresponds_Ok in E5. split; [done|]. split; [done|]. destruct c, c'. cbn in *. destruct E5. congruence.
  - intros [Hs Hk]. destruct k; [|done]. destruct Hk as [_ ->]. rewrite !bytes_eqb_refl, !bool_decide_true by done. cbn [negb].
    by rewrite (proj2 (submission_corresponds_Ok c c) Hs).
Qed.

(** The same record under the same commitments always corresponds. *)
Lemma retained_evidence_complete hops verifier expect audit is_revoked now bc vc :
  let r := reconstruct_chain hops verifier expect audit is_revoked now in
  verify_retained_evidence (from_reconstruction r bc vc) r bc vc =
    Ok (if bool_decide (cr_hop_evidence r = []) then BoundToSubmissionOnly else BoundToVerifiedCall).
Proof.
  cbv zeta. destruct (reconstruct_chain_handles hops verifier expect audit is_revoked now) as [HF Hsub].
  apply corresponds_to_Ok. split.
  - apply submission_corresponds_Ok. split; [|done]. unfold from_reconstruction.
    destruct (match cr_hop_evidence _ with [] => _ | _ => _ end). cbn. rewrite Hsub. unfold submitted_commitment, b64url_encode.
    apply url_encode_nonempty. intros E. pose proof (sha256_length (submitted_bytes hops)) as Hl. by rewrite E in Hl.
  - rewrite andb_diag. pose proof (commits_iff _ bc vc HF) as Hc. case_bool_decide as He; [|by rewrite (proj2 Hc He)].
    apply not_true_is_false. by intros ?%Hc.
Qed.

(** C18: retained messages correspond to a commitment only if they are what was committed to. When
    the commitment of one submission is checked against another, by whomever and whenever it was
    verified, acceptance means that the submissions are the same, byte for byte; and if both
    verified at least one hop, that the verified handles of every hop, the label's completeness,
    the bindings and the context are the same, unless the framings collide under SHA-256. Only
    a record of which nothing verified is accepted as bound to the submission alone. *)
Theorem retained_evidence_bound hops verifier expect audit is_revoked now
    hops' verifier' expect' audit' is_revoked' now' bc vc bc' vc' k :
  let r := reconstruct_chain hops verifier expect audit is_revoked now in
  let r' := reconstruct_chain hops' verifier' expect' audit' is_revoked' now' in
  fits hops → fits hops' → Forall hop_fits hops → Forall hop_fits hops' →
  verify_retained_evidence (from_reconstruction r bc vc) r' bc' vc' = Ok k →
  (hops = hops' ∨ collides (submitted_bytes hops) (submitted_bytes hops')) ∧
  match k with
  | BoundToSubmissionOnly => cr_hop_evidence r = [] ∨ cr_hop_evidence r' = []
  | BoundToVerifiedCall =>
      cr_hop_evidence r ≠ [] ∧ is_complete (cr_label r) = is_complete (cr_label r') ∧ bc = bc' ∧ vc = vc' ∧
      (cr_hop_evidence r = cr_hop_evidence r' ∨ collides (shape_bytes (cr_hop_evidence r)) (shape_bytes (cr_hop_evidence r')))
  end.
Proof.
  intros r r' Hf Hf' HF HF' Hv. destruct (reconstruct_chain_handles hops verifier expect audit is_revoked now) as [Hh Hs].
  destruct (reconstruct_chain_handles hops' verifier' expect' audit' is_revoked' now') as [Hh' Hs']. fold r r' in Hh, Hs, Hh', Hs'.
  apply corresponds_to_Ok in Hv as [Hsub Hk]. apply submission_corresponds_Ok in Hsub as [_ Hsub].
  assert (∀ x b v, ec_submitted_commitment (from_reconstruction x b v) = cr_submitted_commitment x) as Hec
    by (intros; unfold from_reconstruction; by destruct (match cr_hop_evidence _ with [] => _ | _ => _ end)).
  rewrite !Hec, Hs, Hs' in Hsub. split; [by apply submitted_commitment_binds|].
  pose proof (commits_iff r bc vc Hh) as Hc. pose proof (commits_iff r' bc' vc' Hh') as Hc'. destruct k.
  - destruct Hk as [Hb Heq]. apply andb_true_iff in Hb as [Hb _]. pose proof (is_complete_record_label r bc vc) as Hl.
    rewrite <-Heq, is_complete_record_label in Hl.
    split; [by apply Hc|]. split; [done|]. unfold from_reconstruction in Heq.
    destruct (match cr_hop_evidence r with [] => _ | _ => _ end), (match cr_hop_evidence r' with [] => _ | _ => _ end).
    injection Heq as _ _ Hbc Hvc _ Hshape _. split; [done|]. split; [done|].
    apply url_encode_inj, sha256_eq in Hshape as [Hshape|Hx]; [left; symmetry; by apply shape_inj|right].
    split; [|by destruct Hx]. by intros ?; destruct Hx.
  - apply andb_false_iff in Hk as [Hk|Hk]; [left|right]; apply dec_stable; intros Hne;
      [apply Hc in Hne|apply Hc' in Hne]; congruence.
Qed.
End retained.

(** ** Witnesses *)

Import Instances.
Import CoseInstances.

Module ScittWitness.
#[export] Instance w_commitment_serde : CborSerde EvidenceCommitment := {
  cbor_write c := Some (code (ec_request_evidence c, ec_response_evidence c, ec_bindings_commitment c,
    ec_verified_context_commitment c, ec_chain_label c, ec_chain_commitment c, ec_submitted_commitment c));
  cbor_read s := '(a, b, c, d, e, f, g) ← uncode s;
    Some {| ec_request_evidence := a; ec_response_evidence := b; ec_bindings_commitment := c;
            ec_verified_context_commitment := d; ec_chain_label := e; ec_chain_commitment := f; ec_submitted_commitment := g |};
}.
#[export] Instance w_commitment_laws : CborSerdeLaws (T := EvidenceCommitment).
Proof.
  split; cbn; [done|]. intros [] s [= <-]. unfold cbor_read, w_commitment_serde. by rewrite uncode_code.
Qed.

Definition w_commitment : EvidenceCommitment :=
  {| ec_request_evidence := b#"q"; ec_response_evidence := b#"s"; ec_bindings_commitment := None;
     ec_verified_context_commitment := None; ec_chain_label := b#"complete"; ec_chain_commitment := b#"c";
     ec_submitted_commitment := b#"d" |}.
Definition w_statement_issuer : SigningKey := {| sk_inner := "i"%char |}.
Definition w_log : SigningKey := {| sk_inner := "l"%char |}.
Definition w_svc : PrototypeTransparencyService :=
  {| pts_kid := b#"log"; pts_leaves := [replicate 32 "a"%char] |}.
Definition w_ri (kid : bytes) : option CoseVerificationKey :=
  if bytes_eqb kid b#"iss" then Some (KeyEd25519 (SigningKey_public_key w_statement_issuer)) else None.
Definition w_ts : ResolvedTransparencyService :=
  {| ts_key := KeyEd25519 (SigningKey_public_key w_log); ts_leaf_profile := StatementBytes; ts_position_profile := Bound |}.
Definition w_rt (kid : bytes) : option ResolvedTransparencyService := if bytes_eqb kid b#"log" then Some w_ts else None.

Definition w_statement : Result SignedStatement HttpProfileError :=
  Eval vm_compute in issue_signed_statement b#"iss" w_commitment 100 (signer w_statement_issuer).
Definition w_st : SignedStatement := Eval vm_compute in
  match w_statement with Ok st => st | Err _ => {| ss_cose := []; ss_sig_structure := []; ss_issuer_kid := [];
    ss_commitment := w_commitment; ss_issued_at := 0 |} end.
Definition w_receipt : Receipt := Eval vm_compute in
  match (register_statement w_svc w_st (signer w_log)).2 with Ok r => r | Err _ => {| rc_cose := []; rc_ts_kid := []; rc_tree_size := 0;
    rc_leaf_index := 0; rc_inclusion_path := []; rc_position_commitment := None; rc_root := None |} end.
End ScittWitness.
Import ScittWitness.

Lemma registered_statement_verifies_witness :
  ∃ st r, issue_signed_statement b#"iss" w_commitment 100 (signer w_statement_issuer) = Ok st ∧
    register_statement w_svc st (signer w_log) =
      ({| pts_kid := pts_kid w_svc; pts_leaves := pts_leaves w_svc ++ [leaf_hash st StatementBytes] |}, Ok r) ∧
    verify_receipt_offline st r w_ri w_rt = Ok tt.
Proof.
  destruct (registered_statement_verifies b#"iss" w_commitment 100 w_statement_issuer w_svc w_log w_ri w_rt Bound)
    as (st & r & Hi & Hr & _ & _ & _ & _ & _ & _ & Hv).
  - reflexivity.
  - split; by vm_compute.
  - split; [reflexivity|]. repeat constructor.
  - by vm_compute.
  - reflexivity.
  - reflexivity.
  - exists st, r. split; [exact Hi|split; [exact Hr|exact Hv]].
Defined.

Lemma parsed_receipt_well_formed_witness :
  Receipt_from_cose (rc_cose w_receipt) = Ok w_receipt ∧ (rc_leaf_index w_receipt < rc_tree_size w_receipt)%N.
Proof.
  assert (Receipt_from_cose (rc_cose w_receipt) = Ok w_receipt) as Hr by (vm_compute; reflexivity).
  split; [exact Hr|]. apply (parsed_receipt_well_formed (rc_cose w_receipt) w_receipt Hr).
Defined.

Lemma tree_head_speaks_once_witness :
  ∃ root head sig, tree_head w_st w_receipt StatementBytes = Some head ∧ signature_holds (ts_key w_ts) sig head ∧
    ((rc_tree_size w_receipt = rc_tree_size w_receipt ∧ rc_leaf_index w_receipt = rc_leaf_index w_receipt ∧ same_content w_st w_st) ∨
     preimages_collide w_st w_receipt w_st w_receipt StatementBytes root).
Proof.
  apply (tree_head_speaks_once (ss_cose w_st) (ss_cose w_st) w_st w_st (rc_cose w_receipt) (rc_cose w_receipt)
           w_receipt w_receipt w_ri w_ri w_rt w_rt w_ts w_ts); vm_compute; reflexivity.
Defined.

#[local] Existing Instance chain_f64.
#[local] Existing Instance chain_header_serde.
#[local] Existing Instance chain_claims_serde.
#[local] Existing Instance chain_request_serde.
#[local] Existing Instance chain_response_serde.

Lemma w_hops_fit : Forall hop_fits w_hops.
Proof. repeat constructor; unfold fits, fits_u64; (vm_compute; reflexivity) || (vm_compute; discriminate). Qed.

Lemma retained_evidence_bound_witness :
  (w_hops = w_hops ∨ collides (submitted_bytes w_hops) (submitted_bytes w_hops)) ∧
  cr_hop_evidence (w_chain 120 w_hops) ≠ [].
Proof.
  destruct (retained_evidence_bound w_hops w_verifier w_expect w_audit no_revocation 120
              w_hops w_verifier w_expect w_audit no_revocation 130 None None None None BoundToVerifiedCall) as [Hs [Hne _]].
  - vm_compute. reflexivity.
  - vm_compute. reflexivity.
  - exact w_hops_fit.
  - exact w_hops_fit.
  - vm_compute. reflexivity.
  - split; [exact Hs|exact Hne].
Defined.
