(* ===== verification/ClientTrust.v ===== *)
(** * [mcp-re-client-core/src/delegated_trust], [trust_manifest]

    Which root issuers a client trusts to anchor delegated responses, and for how long: the
    trust authority as one interface, the set of current, retiring and revoked roots, and the
    signed manifest it is loaded from, behind a version floor that keeps old manifests out. *)

From S2P Require Import Prelude.
From S2P Require Import RustStr.
From S2P Require Import Externals.
From S2P Require Import Json.
From S2P Require Import Concrete.
From S2P Require Import CoreError.
From S2P Require Import CoreResolver.
From S2P Require Import HttpMessage.
From S2P Require Import Blocks.
From S2P Require Import Floor.
From S2P Require Import Sign.

(** ** [delegated_trust/revocation.rs] *)

Class RevocationSource (T : Type) := { is_revoked : T → bytes → bool }.

Record StaticRevocationList := { srl_revoked : gset bytes }.

Definition StaticRevocationList_new : StaticRevocationList := {| srl_revoked := ∅ |}.
Definition from_identifiers (identifiers : list bytes) : StaticRevocationList :=
  {| srl_revoked := list_to_set identifiers |}.
Definition static_revoke (l : StaticRevocationList) (identifier : bytes) : StaticRevocationList :=
  {| srl_revoked := {[identifier]} ∪ srl_revoked l |}.
Definition static_is_empty (l : StaticRevocationList) : bool := bool_decide (srl_revoked l = ∅).

#[global] Instance StaticRevocationList_source : RevocationSource StaticRevocationList :=
  { is_revoked l identifier := bool_decide (identifier ∈ srl_revoked l) }.

(** ** [delegated_trust/manifest_validity.rs] *)

Inductive ManifestValidity : Type := Absent | Until (expires_at : Z).

Definition validity_expires_at (v : ManifestValidity) : option Z :=
  match v with Absent => None | Until expires_at => Some expires_at end.
Definition validity_is_expired (v : ManifestValidity) (now : Z) : bool :=
  match v with Until expires_at => expires_at <? now | Absent => false end.

Section trust.
Context `{Base64, Sha2, Ed25519}.

(** ** [delegated_trust/mod.rs]

    The authority answers both questions; revocation is the supertrait. *)

Class DelegatedResponseTrust (T : Type) `{!RevocationSource T} :=
  { resolve_issuer : T → bytes → SignerSlot → Z → ResolverOutcome }.

Record CompositeResponseTrust (R : Type) := {
  crt_resolver : bytes → SignerSlot → Z → ResolverOutcome;
  crt_revocation : R;
}.
#[global] Arguments crt_resolver {_}.
#[global] Arguments crt_revocation {_}.

#[global] Instance Composite_source `{RevocationSource R} : RevocationSource (CompositeResponseTrust R) :=
  { is_revoked c identifier := is_revoked (crt_revocation c) identifier }.
#[global] Instance Composite_trust `{RevocationSource R} : DelegatedResponseTrust (CompositeResponseTrust R) :=
  { resolve_issuer c issuer_kid slot now := crt_resolver c issuer_kid slot now }.

(** ** [delegated_trust/anchors.rs] *)

Record TrustedIssuerSet := {
  tis_current : gmap bytes ResolvedActor;
  tis_retired : gmap bytes (ResolvedActor * Z);
  tis_revoked : gset bytes;
  tis_manifest : ManifestValidity;
}.

Definition TrustedIssuerSet_new : TrustedIssuerSet :=
  {| tis_current := ∅; tis_retired := ∅; tis_revoked := ∅; tis_manifest := Absent |}.
Definition with_current (s : TrustedIssuerSet) (root : ResolvedActor) : TrustedIssuerSet :=
  {| tis_current := <[ai_keyid (ra_identity root) := root]> (tis_current s); tis_retired := tis_retired s;
     tis_revoked := tis_revoked s; tis_manifest := tis_manifest s |}.
Definition with_retired (s : TrustedIssuerSet) (root : ResolvedActor) (valid_until : Z) : TrustedIssuerSet :=
  {| tis_current := tis_current s; tis_retired := <[ai_keyid (ra_identity root) := (root, valid_until)]> (tis_retired s);
     tis_revoked := tis_revoked s; tis_manifest := tis_manifest s |}.
Definition revoke_issuer (s : TrustedIssuerSet) (issuer_kid : bytes) : TrustedIssuerSet :=
  {| tis_current := tis_current s; tis_retired := tis_retired s;
     tis_revoked := {[issuer_kid]} ∪ tis_revoked s; tis_manifest := tis_manifest s |}.
Definition with_manifest_expiry (s : TrustedIssuerSet) (expires_at : Z) : TrustedIssuerSet :=
  {| tis_current := tis_current s; tis_retired := tis_retired s; tis_revoked := tis_revoked s;
     tis_manifest := Until expires_at |}.

Definition manifest_expires_at (s : TrustedIssuerSet) : option Z := validity_expires_at (tis_manifest s).
Definition is_expired (s : TrustedIssuerSet) (now : Z) : bool := validity_is_expired (tis_manifest s) now.

Definition resolve_root (s : TrustedIssuerSet) (issuer_kid : bytes) (now : Z) : option ResolvedActor :=
  if is_expired s now then None
  else match tis_retired s !! issuer_kid with
       | Some (actor, valid_until) => if now <=? valid_until then Some actor else None
       | None => tis_current s !! issuer_kid
       end.

#[global] Instance TrustedIssuerSet_source : RevocationSource TrustedIssuerSet :=
  { is_revoked s identifier := bool_decide (identifier ∈ tis_revoked s) }.

Definition set_resolve_issuer (s : TrustedIssuerSet) (issuer_kid : bytes) (slot : SignerSlot) (now : Z) : ResolverOutcome :=
  match slot with
  | SlotResponse =>
      if negb (is_revoked s issuer_kid)
      then outcome_of_option (resolve_root s issuer_kid now)
      else NotTrusted
  | SlotRequest => NotTrusted
  end.
#[global] Instance TrustedIssuerSet_trust : DelegatedResponseTrust TrustedIssuerSet :=
  { resolve_issuer := set_resolve_issuer }.

Definition trusts (s : TrustedIssuerSet) (issuer_kid : bytes) (now : Z) : bool :=
  negb (is_revoked s issuer_kid) && is_some (resolve_root s issuer_kid now).

(** ** [trust_manifest/mod.rs]: data *)

Record ManifestIssuer := {
  mi_issuer_kid : bytes; mi_public_key : bytes; mi_role : bytes; mi_trust_domain : bytes; mi_subject : bytes }.
Record RetiringIssuer := {
  ri_issuer_kid : bytes; ri_public_key : bytes; ri_role : bytes; ri_trust_domain : bytes; ri_subject : bytes;
  ri_valid_until : Z }.
Record TrustAnchorManifest := {
  tm_profile : bytes;
  tm_manifest_version : Z;
  tm_current_issuers : list ManifestIssuer;
  tm_retiring_issuers : list RetiringIssuer;
  tm_revoked_issuers : list bytes;
  tm_issued_at : Z;
  tm_expires_at : Z;
}.
Record SignedTrustAnchorManifest := {
  sm_manifest : TrustAnchorManifest; sm_signer_kid : bytes; sm_signature : bytes }.
Record LoadedTrustAnchors := { la_issuer_set : TrustedIssuerSet; la_version : Z }.

Inductive TrustManifestError : Type :=
  | UntrustedSigner
  | BadSignature
  | ManifestExpired (expires_at now : Z)
  | Stale (version min_version : Z)
  | ManifestProfileMismatch
  | ManifestMalformed (what : bytes)
  | FloorUnreadable (what : bytes)
  | FloorNotPersisted (what : bytes)
  | FloorAboveCeiling (floor ceiling : Z).

(** ** The version floor *)

Class ManifestVersionFloor (F : Type) := {
  min_version : F → Result Z TrustManifestError;
  record : F → Z → F * Result unit TrustManifestError;
}.

Record InMemoryVersionFloor := { imf_floor : Z }.
Definition InMemoryVersionFloor_new : InMemoryVersionFloor := {| imf_floor := 0 |}.
Definition starting_at (floor : Z) : InMemoryVersionFloor := {| imf_floor := floor |}.
Definition in_memory_record (f : InMemoryVersionFloor) (version : Z)
  : InMemoryVersionFloor * Result unit TrustManifestError :=
  ({| imf_floor := Z.max (imf_floor f) version |}, Ok tt).
#[global] Instance InMemoryVersionFloor_floor : ManifestVersionFloor InMemoryVersionFloor :=
  { min_version f := Ok (imf_floor f); record := in_memory_record }.

(** ** [trust_manifest/preimage.rs] *)

Context `{SerdeJson, !Serde TrustAnchorManifest}.

Definition MANIFEST_SIGNING_DOMAIN : bytes := b#"mcp-re/trust-anchor-manifest/v1".

Definition manifest_signing_preimage (manifest : TrustAnchorManifest) (signer_kid : bytes)
  : Result bytes TrustManifestError :=
  let? body := ok_or (to_vec_of manifest) (ManifestMalformed b#"manifest serialize") in
  Ok (MANIFEST_SIGNING_DOMAIN ++ len64 signer_kid ++ signer_kid ++ body).

(** ** Signing and loading. [None] is the [expect] panicking. *)

Definition sign_manifest (manifest : TrustAnchorManifest) (org_key : SigningKey) (signer_kid : bytes)
  : option SignedTrustAnchorManifest :=
  match manifest_signing_preimage manifest signer_kid with
  | Ok b => Some {| sm_manifest := manifest; sm_signer_kid := signer_kid; sm_signature := SigningKey_sign org_key b |}
  | Err _ => None
  end.

Definition actor_of (issuer_kid public_key_b64url role trust_domain subject : bytes)
  : Result ResolvedActor TrustManifestError :=
  let? verification_key := map_err (λ _, ManifestMalformed b#"issuer public key")
                             (VerificationKey_from_b64url public_key_b64url) in
  Ok {| ra_identity := {| ai_role := role; ai_trust_domain := trust_domain; ai_subject := subject;
                          ai_keyid := issuer_kid |};
        ra_verification_key := verification_key; ra_slot := SlotResponse |}.

Fixpoint add_current (set : TrustedIssuerSet) (issuers : list ManifestIssuer) : Result TrustedIssuerSet TrustManifestError :=
  match issuers with
  | [] => Ok set
  | iss :: rest =>
      let? actor := actor_of (mi_issuer_kid iss) (mi_public_key iss) (mi_role iss) (mi_trust_domain iss) (mi_subject iss) in
      add_current (with_current set actor) rest
  end.
Fixpoint add_retiring (set : TrustedIssuerSet) (issuers : list RetiringIssuer) : Result TrustedIssuerSet TrustManifestError :=
  match issuers with
  | [] => Ok set
  | r :: rest =>
      let? actor := actor_of (ri_issuer_kid r) (ri_public_key r) (ri_role r) (ri_trust_domain r) (ri_subject r) in
      add_retiring (with_retired set actor (ri_valid_until r)) rest
  end.

Definition load_signed_manifest (signed : SignedTrustAnchorManifest)
    (resolve_manifest_signer : bytes → option VerificationKey) (expected_profile : bytes)
    (min_version now : Z) : Result LoadedTrustAnchors TrustManifestError :=
  let manifest := sm_manifest signed in
  let? org_key := ok_or (resolve_manifest_signer (sm_signer_kid signed)) UntrustedSigner in
  let? b := manifest_signing_preimage manifest (sm_signer_kid signed) in
  map_err (λ _, BadSignature) (verify_ed25519_with b (sm_signature signed) org_key InvalidSignature) ;?
  if negb (bytes_eqb (tm_profile manifest) expected_profile) then Err ManifestProfileMismatch
  else if tm_expires_at manifest <? now then Err (ManifestExpired (tm_expires_at manifest) now)
  else if tm_manifest_version manifest <? min_version then Err (Stale (tm_manifest_version manifest) min_version)
  else
    let? set := add_current TrustedIssuerSet_new (tm_current_issuers manifest) in
    let? set := add_retiring set (tm_retiring_issuers manifest) in
    let set := foldl revoke_issuer set (tm_revoked_issuers manifest) in
    Ok {| la_issuer_set := with_manifest_expiry set (tm_expires_at manifest);
          la_version := tm_manifest_version manifest |}.

Definition load_signed_manifest_with_floor `{ManifestVersionFloor F} (signed : SignedTrustAnchorManifest)
    (resolve_manifest_signer : bytes → option VerificationKey) (expected_profile : bytes)
    (floor : F) (now : Z) : F * Result LoadedTrustAnchors TrustManifestError :=
  match (let? min_version := min_version floor in
         load_signed_manifest signed resolve_manifest_signer expected_profile min_version now) with
  | Err e => (floor, Err e)
  | Ok loaded =>
      let '(floor', recorded) := record floor (la_version loaded) in
      (floor', (recorded ;? Ok loaded))
  end.
End trust.

(** ** What a manifest publishes

    The entry of an issuer is the last one under its kid, as inserting into a map leaves it. *)

Definition last_named {A} (name : A → bytes) (kid : bytes) (l : list A) (x : A) : Prop :=
  ∃ pre post, l = pre ++ x :: post ∧ name x = kid ∧ Forall (λ y, name y ≠ kid) post.

Lemma last_named_snoc {A} (name : A → bytes) kid l (y x : A) :
  last_named name kid (l ++ [y]) x ↔ (name y = kid ∧ x = y) ∨ (name y ≠ kid ∧ last_named name kid l x).
Proof.
  split.
  - intros (pre & post & Hl & Hx & HF). destruct post as [|z post _] using rev_ind.
    + apply app_inj_tail in Hl as [-> ->]. by left.
    + rewrite app_comm_cons, app_assoc in Hl. apply app_inj_tail in Hl as [-> ->].
      apply Forall_app in HF as [HF Hz]. inv_Forall. right. split; [done|]. by exists pre, post.
  - intros [[Hy ->]|(Hy & pre & post & -> & Hx & HF)]; [by exists l, []|].
    exists pre, (post ++ [y]). rewrite <-app_assoc. split_and!; [done..|]. apply Forall_app. split; [done|by repeat constructor].
Qed.

Lemma last_named_elem {A} (name : A → bytes) kid l (x : A) : last_named name kid l x → x ∈ l ∧ name x = kid.
Proof. intros (pre & post & -> & Hx & _). split; [apply elem_of_app; right; left|done]. Qed.

Section published.
Context `{Base64, Sha2, Ed25519}.

Definition issuer_actor (iss : ManifestIssuer) : Result ResolvedActor TrustManifestError :=
  actor_of (mi_issuer_kid iss) (mi_public_key iss) (mi_role iss) (mi_trust_domain iss) (mi_subject iss).
Definition retiring_actor (r : RetiringIssuer) : Result ResolvedActor TrustManifestError :=
  actor_of (ri_issuer_kid r) (ri_public_key r) (ri_role r) (ri_trust_domain r) (ri_subject r).

(** The manifest vouches for [actor] as the root [kid] at [now]. *)
Definition published (manifest : TrustAnchorManifest) (kid : bytes) (now : Z) (actor : ResolvedActor) : Prop :=
  now ≤ tm_expires_at manifest ∧ kid ∉ tm_revoked_issuers manifest ∧
  ((∃ r, last_named ri_issuer_kid kid (tm_retiring_issuers manifest) r ∧ now ≤ ri_valid_until r ∧
         retiring_actor r = Ok actor) ∨
   (kid ∉ map ri_issuer_kid (tm_retiring_issuers manifest) ∧
    ∃ iss, last_named mi_issuer_kid kid (tm_current_issuers manifest) iss ∧ issuer_actor iss = Ok actor)).

(** Every listed public key decodes. *)
Definition keys_decode (manifest : TrustAnchorManifest) : Prop :=
  Forall (λ iss, is_ok (issuer_actor iss) = true) (tm_current_issuers manifest) ∧
  Forall (λ r, is_ok (retiring_actor r) = true) (tm_retiring_issuers manifest).

Lemma actor_of_keyid kid pk role dom sub actor :
  actor_of kid pk role dom sub = Ok actor → ai_keyid (ra_identity actor) = kid.
Proof. unfold actor_of. intros Ha. inv_ok. done. Qed.

(** Inserting the readings of a list one by one, whatever the table holds. *)
Fixpoint insert_all {A B E} (name : A → bytes) (f : A → Result B E) (m : gmap bytes B) (l : list A)
  : Result (gmap bytes B) E :=
  match l with
  | [] => Ok m
  | x :: l' => let? y := f x in insert_all name f (<[name x := y]> m) l'
  end.

Lemma insert_all_app {A B E} (name : A → bytes) (f : A → Result B E) m l l' :
  insert_all name f m (l ++ l') = (let? m := insert_all name f m l in insert_all name f m l').
Proof. revert m. induction l as [|x l IH]; intros m; simpl; [done|]. destruct (f x); simpl; auto. Qed.

Lemma insert_all_reads {A B E} (name : A → bytes) (f : A → Result B E) m l :
  is_ok (insert_all name f m l) = true ↔ Forall (λ x, is_ok (f x) = true) l.
Proof.
  revert m. induction l as [|x l IH]; intros m; simpl; [by split|].
  rewrite Forall_cons. destruct (f x); simpl; [rewrite IH; naive_solver|naive_solver].
Qed.

Lemma insert_all_lookup {A B E} (name : A → bytes) (f : A → Result B E) m l m' kid y :
  insert_all name f m l = Ok m' →
  m' !! kid = Some y ↔ (∃ x, last_named name kid l x ∧ f x = Ok y) ∨ (kid ∉ map name l ∧ m !! kid = Some y).
Proof.
  revert m' y. induction l as [|x l IH] using rev_ind; intros m' y.
  - intros [= ->]. split; [intros Hm; right; split; [by apply not_elem_of_nil|done]|].
    intros [(x & (pre & post & Hl & _) & _)|[_ Hm]]; [by destruct pre|done].
  - rewrite insert_all_app. destruct (insert_all name f m l) as [m1|]; [|done]. simpl.
    destruct (f x) as [b|] eqn:Ef; [|done]. intros [= <-]. specialize (IH m1 y eq_refl).
    rewrite map_app, not_elem_of_app. destruct (decide (name x = kid)) as [<-|Hne].
    + rewrite lookup_insert_eq. split.
      * intros [= <-]. left. exists x. rewrite last_named_snoc. auto.
      * intros [(z & Hz & Hf)|[[_ Hn] _]]; [|by destruct Hn; left].
        apply last_named_snoc in Hz as [[_ ->]|[? _]]; [congruence|done].
    + rewrite lookup_insert_ne by done. rewrite IH. split.
      * intros [(z & Hz & Hf)|[Hn Hm]]; [left; exists z; rewrite last_named_snoc; auto|].
        right. split_and!; [done| |done]. simpl. by rewrite list_elem_of_singleton.
      * intros [(z & Hz & Hf)|[[Hn _] Hm]]; [|by right].
        apply last_named_snoc in Hz as [[? _]|[_ Hz]]; [done|]. left. eauto.
Qed.

Lemma insert_all_fresh {A B E} (name : A → bytes) (f : A → Result B E) m l m' kid :
  insert_all name f m l = Ok m' → m' !! kid = None ↔ kid ∉ map name l ∧ m !! kid = None.
Proof.
  revert m. induction l as [|x l IH]; intros m; simpl.
  - intros [= ->]. split; [split; [by apply not_elem_of_nil|done]|naive_solver].
  - destruct (f x) as [y|]; [|done]. intros Hi. rewrite (IH _ Hi), not_elem_of_cons, lookup_insert_None. naive_solver.
Qed.

Lemma add_current_insert_all set l :
  add_current set l =
    (let? m := insert_all mi_issuer_kid issuer_actor (tis_current set) l in
     Ok {| tis_current := m; tis_retired := tis_retired set; tis_revoked := tis_revoked set;
           tis_manifest := tis_manifest set |}).
Proof.
  revert set. induction l as [|x l IH]; intros set; [by destruct set|]. cbn [add_current insert_all].
  unfold issuer_actor at 1. destruct (actor_of _ _ _ _ _) as [a|] eqn:Ea; [|done]. rewrite IH. simpl.
  by rewrite (actor_of_keyid _ _ _ _ _ _ Ea).
Qed.

Lemma add_retiring_insert_all set l :
  add_retiring set l =
    (let? m := insert_all ri_issuer_kid (λ r, let? a := retiring_actor r in Ok (a, ri_valid_until r)) (tis_retired set) l in
     Ok {| tis_current := tis_current set; tis_retired := m; tis_revoked := tis_revoked set;
           tis_manifest := tis_manifest set |}).
Proof.
  revert set. induction l as [|x l IH]; intros set; [by destruct set|]. cbn [add_retiring insert_all].
  unfold retiring_actor at 1. destruct (actor_of _ _ _ _ _) as [a|] eqn:Ea; [|done]. rewrite IH. simpl.
  by rewrite (actor_of_keyid _ _ _ _ _ _ Ea).
Qed.

Lemma foldl_revoke_issuer set l :
  foldl revoke_issuer set l =
    {| tis_current := tis_current set; tis_retired := tis_retired set;
       tis_revoked := list_to_set l ∪ tis_revoked set; tis_manifest := tis_manifest set |}.
Proof.
  revert set. induction l as [|x l IH]; intros set; simpl.
  - destruct set as [c r v m]. simpl. by rewrite union_empty_l_L.
  - rewrite IH. simpl. f_equal. set_solver.
Qed.
End published.

Section loading.
Context `{Base64, Sha2, Ed25519, SerdeJson, !Serde TrustAnchorManifest}.

(** The set a manifest is loaded into, once its keys decode. *)
Definition loads_as (manifest : TrustAnchorManifest) (loaded : LoadedTrustAnchors) : Prop :=
  ∃ cur ret,
    insert_all mi_issuer_kid issuer_actor ∅ (tm_current_issuers manifest) = Ok cur ∧
    insert_all ri_issuer_kid (λ r, let? a := retiring_actor r in Ok (a, ri_valid_until r)) ∅
      (tm_retiring_issuers manifest) = Ok ret ∧
    loaded = {| la_issuer_set :=
                  {| tis_current := cur; tis_retired := ret; tis_revoked := list_to_set (tm_revoked_issuers manifest);
                     tis_manifest := Until (tm_expires_at manifest) |};
                la_version := tm_manifest_version manifest |}.

(** The manifest carries a pinned signer's signature over itself under that signer's name. *)
Definition manifest_authentic (signed : SignedTrustAnchorManifest) (pin : bytes → option VerificationKey) : Prop :=
  ∃ org_key body sig,
    pin (sm_signer_kid signed) = Some org_key ∧ to_vec_of (sm_manifest signed) = Some body ∧
    url_decode (sm_signature signed) = Some sig ∧ length sig = SIGNATURE_LEN ∧
    verify_strict (vk_inner org_key)
      (MANIFEST_SIGNING_DOMAIN ++ len64 (sm_signer_kid signed) ++ sm_signer_kid signed ++ body) sig = true.

(** Every gate of the load, in the source's order. *)
Definition load_gates (signed : SignedTrustAnchorManifest) (pin : bytes → option VerificationKey)
    (profile : bytes) (floor now : Z) : Prop :=
  manifest_authentic signed pin ∧ tm_profile (sm_manifest signed) = profile ∧
  now ≤ tm_expires_at (sm_manifest signed) ∧ floor ≤ tm_manifest_version (sm_manifest signed).

Lemma load_signed_manifest_Ok signed pin profile floor now loaded :
  load_signed_manifest signed pin profile floor now = Ok loaded ↔
    load_gates signed pin profile floor now ∧ loads_as (sm_manifest signed) loaded.
Proof.
  unfold load_signed_manifest, load_gates, manifest_authentic, loads_as, manifest_signing_preimage. split.
  - intros Hl. inv_ok. bool_prop.
    repeat match goal with
    | He : add_current _ _ = Ok _ |- _ => rewrite add_current_insert_all in He
    | He : add_retiring _ _ = Ok _ |- _ => rewrite add_retiring_insert_all in He
    | He : verify_ed25519_with _ _ _ _ = Ok _ |- _ => apply verify_ed25519_with_Ok in He as (sig & ? & ? & ?)
    | He : bytes_eqb _ _ = true |- _ => apply bytes_eqb_true in He
    end.
    inv_ok. split; [split_and!; [|done..]; by eexists _, _, _|].
    eexists _, _. split_and!; [done..|]. rewrite foldl_revoke_issuer. unfold with_manifest_expiry. simpl.
    by rewrite union_empty_r_L.
  - intros [((org_key & body & sig & Hp & Hb & Hd & Hlen & Hv) & Hprof & Hexp & Hver) (cur & ret & Hc & Hr & ->)].
    rewrite Hp, Hb. simpl. rewrite (proj2 (verify_ed25519_with_Ok _ _ _ _ tt)) by eauto. simpl.
    rewrite Hprof, bytes_eqb_refl. simpl. rewrite (proj2 (Z.ltb_ge _ _) Hexp), (proj2 (Z.ltb_ge _ _) Hver).
    rewrite add_current_insert_all. simpl. rewrite Hc. simpl. rewrite add_retiring_insert_all. simpl. rewrite Hr. simpl.
    rewrite foldl_revoke_issuer. unfold with_manifest_expiry. simpl. by rewrite union_empty_r_L.
Qed.

Lemma loads_as_resolves manifest loaded kid t actor :
  loads_as manifest loaded →
  resolve_issuer (la_issuer_set loaded) kid SlotResponse t = Resolved actor ↔ published manifest kid t actor.
Proof.
  intros (cur & ret & Hc & Hr & ->). simpl. unfold published, resolve_root, is_expired. simpl.
  pose proof (λ a, insert_all_lookup _ _ _ _ _ kid a Hc) as Lc.
  pose proof (λ a, insert_all_lookup _ _ _ _ _ kid a Hr) as Lr.
  case_bool_decide as Hrev; rewrite elem_of_list_to_set in Hrev; simpl; [naive_solver|].
  destruct (tm_expires_at manifest <? t) eqn:Ex; bool_prop; simpl; [split; [done|lia]|].
  destruct (ret !! kid) as [[a vu]|] eqn:Er.
  - pose proof (proj1 (Lr _) eq_refl) as [(r & Hn & Hf)|[_ Hf]]; [|by rewrite lookup_empty in Hf].
    inv_ok. split.
    + destruct (t <=? ri_valid_until r) eqn:Ev; bool_prop; [|done]. intros [= <-].
      split_and!; [done..|]. left. by exists r.
    + intros (_ & _ & [(r' & Hn' & Hv & Ha)|[Hn' _]]).
      * assert (Some (actor, ri_valid_until r') = Some (a, ri_valid_until r)) as [= -> <-].
        { symmetry. apply Lr. left. exists r'. by rewrite Ha. }
        by rewrite (proj2 (Z.leb_le _ _) Hv).
      * destruct Hn'. apply last_named_elem in Hn as [Hn <-]. by apply list_elem_of_fmap_2.
  - apply (insert_all_fresh _ _ _ _ _ _ Hr) in Er as [Er _]. split.
    + destruct (cur !! kid) as [a|] eqn:Ec; [|done]. intros [= <-]. pose proof (proj1 (Lc _) eq_refl) as [?|[_ Hf]]; [|by rewrite lookup_empty in Hf].
      split_and!; [done..|]. by right.
    + intros (_ & _ & [(r & [Hn <-]%last_named_elem & _)|(_ & Hi)]); [by destruct Er; apply list_elem_of_fmap_2|].
      by rewrite (proj2 (Lc actor) (or_introl Hi)).
Qed.

(** The yes/no answer is whether the issuer resolves for a response. *)
Lemma trusts_resolves s kid t :
  trusts s kid t = true ↔ ∃ actor, resolve_issuer s kid SlotResponse t = Resolved actor.
Proof.
  change (resolve_issuer s) with (set_resolve_issuer s). unfold trusts, set_resolve_issuer.
  destruct (is_revoked s kid); [naive_solver|]. by destruct (resolve_root s kid t); naive_solver.
Qed.

(** Keys that decode are what building the set needs. *)
Lemma keys_decode_loads manifest : keys_decode manifest ↔ ∃ loaded, loads_as manifest loaded.
Proof.
  unfold keys_decode, loads_as.
  assert (∀ l, Forall (λ r, is_ok (retiring_actor r) = true) l ↔
    is_ok (insert_all ri_issuer_kid (λ r, let? a := retiring_actor r in Ok (a, ri_valid_until r)) ∅ l) = true) as ->.
  { intros l. rewrite insert_all_reads. apply Forall_proper; [|done]. intros r. by destruct (retiring_actor r). }
  rewrite <-(insert_all_reads mi_issuer_kid issuer_actor ∅). split.
  - intros [Hc Hr]. match type of Hc with is_ok ?e = _ => destruct e end; [|done].
    match type of Hr with is_ok ?e = _ => destruct e end; [|done]. by eexists _, _, _.
  - by intros (loaded & cur & ret & -> & -> & _).
Qed.

(** The signed bytes determine the manifest and the name it is published under. *)
Lemma manifest_signing_preimage_inj `{!SerdeJsonLaws, !SerdeLaws (T := TrustAnchorManifest)} m k m' k' b :
  fits k → fits k' → manifest_signing_preimage m k = Ok b → manifest_signing_preimage m' k' = Ok b → m = m' ∧ k = k'.
Proof.
  unfold manifest_signing_preimage. intros Hk Hk' Hb Hb'.
  destruct (to_vec_of m) as [v|] eqn:Ev; [|done]. destruct (to_vec_of m') as [v'|] eqn:Ev'; [|done].
  cbn [ok_or] in Hb, Hb'. rewrite <-Hb in Hb'. apply (f_equal (λ r, default [] (result_ok r))), app_inv_head, framed_len64 in Hb' as [Hlen He]; [|done..].
  apply app_inj_1 in He as [-> ->]; [|done]. split; [|done].
  apply from_slice_to_vec_of in Ev, Ev'. congruence.
Qed.

Lemma sign_manifest_Some `{!Base64Laws, !Ed25519Laws} manifest key kid signed pin :
  sign_manifest manifest key kid = Some signed → pin kid = Some (SigningKey_public_key key) →
  manifest_authentic signed pin ∧ sm_manifest signed = manifest ∧ sm_signer_kid signed = kid.
Proof.
  unfold sign_manifest, manifest_signing_preimage, manifest_authentic. intros Hs Hp.
  destruct (to_vec_of manifest) as [body|] eqn:Hb; [|done]. injection Hs as <-. simpl. split; [|done].
  eexists _, _, _. split_and!; [exact Hp|exact Hb|apply url_decode_encode|apply dalek_sign_length|apply verify_strict_sign].
Qed.
End loading.

(** ** The floor under a sequence of loads

    What a floor promises the loader. [level] is what its storage holds: a reading is never below
    it, a version that was recorded is not above it, and no call lowers it, successful or not. *)

Class FloorLaws (F : Type) `{ManifestVersionFloor F} := {
  level : F → Z;
  min_version_level f m : min_version f = Ok m → level f ≤ m;
  record_raises f v f' : is_u64 v → record f v = (f', Ok tt) → v ≤ level f';
  record_monotone f v f' r : is_u64 v → record f v = (f', r) → level f ≤ level f';
}.

#[export] Instance InMemoryVersionFloor_laws : FloorLaws InMemoryVersionFloor.
Proof.
  refine {| level := imf_floor |}.
  - by intros f m [= <-].
  - intros f v f' _ [= <-]. simpl. lia.
  - intros f v f' r _ [= <- _]. simpl. lia.
Defined.

Section rollback.
Context `{Base64, Sha2, Ed25519, SerdeJson, !Serde TrustAnchorManifest, FloorLaws F}.

(** A verifier that loads one manifest after another through the same floor. *)
Fixpoint run_loads (pin : bytes → option VerificationKey) (profile : bytes) (floor : F)
    (offered : list (SignedTrustAnchorManifest * Z)) : F * list (Result LoadedTrustAnchors TrustManifestError) :=
  match offered with
  | [] => (floor, [])
  | (signed, now) :: rest =>
      let '(floor', r) := load_signed_manifest_with_floor signed pin profile floor now in
      let '(floor'', rs) := run_loads pin profile floor' rest in (floor'', r :: rs)
  end.

(** The version of a manifest is a [u64]. *)
Definition offers_u64 (offered : list (SignedTrustAnchorManifest * Z)) : Prop :=
  Forall (λ o, is_u64 (tm_manifest_version (sm_manifest o.1))) offered.

Lemma load_with_floor_Ok signed pin profile (f : F) now f' loaded :
  is_u64 (tm_manifest_version (sm_manifest signed)) →
  load_signed_manifest_with_floor signed pin profile f now = (f', Ok loaded) →
  level f ≤ la_version loaded ≤ level f'.
Proof.
  unfold load_signed_manifest_with_floor. intros Hu. destruct (min_version f) as [m|] eqn:Em; [|done].
  simpl. destruct (load_signed_manifest signed pin profile m now) as [l|] eqn:El; [|done].
  destruct (record f (la_version l)) as [g [[]|]] eqn:Er; [|done]. intros [= -> ->].
  apply load_signed_manifest_Ok in El as [(_ & _ & _ & Hv) (cur & ret & _ & _ & ->)]. simpl in *.
  apply min_version_level in Em. apply record_raises in Er; [|exact Hu]. lia.
Qed.

Lemma load_with_floor_monotone signed pin profile (f : F) now f' r :
  is_u64 (tm_manifest_version (sm_manifest signed)) →
  load_signed_manifest_with_floor signed pin profile f now = (f', r) → level f ≤ level f'.
Proof.
  unfold load_signed_manifest_with_floor. intros Hu Hl.
  destruct (let? _ := min_version f in _) as [l|] eqn:El; [|injection Hl as <- _; lia].
  destruct (record f (la_version l)) as [g u] eqn:Er. injection Hl as <- _. inv_ok.
  apply load_signed_manifest_Ok in El as [_ (cur & ret & _ & _ & ->)]. by eapply record_monotone.
Qed.

Lemma run_loads_at_least pin profile (f : F) offered f' rs loaded :
  offers_u64 offered → run_loads pin profile f offered = (f', rs) → Ok loaded ∈ rs → level f ≤ la_version loaded.
Proof.
  intros Hu. revert f rs. induction Hu as [|[signed now] rest Ho Hu IH]; intros f rs; simpl.
  { intros [= <- <-] Hl. by apply not_elem_of_nil in Hl. }
  destruct (load_signed_manifest_with_floor signed pin profile f now) as [f1 r] eqn:E1.
  destruct (run_loads pin profile f1 rest) as [f2 rs2] eqn:E2. intros [= -> <-] Hl.
  apply elem_of_cons in Hl as [<-|Hl].
  - apply load_with_floor_Ok in E1 as [? _]; [done|exact Ho].
  - apply load_with_floor_monotone in E1; [|exact Ho]. specialize (IH _ _ E2 Hl). lia.
Qed.
End rollback.

(** ** Properties *)

(** Loading a trust-anchor manifest succeeds exactly when the signer is pinned and its signature covers this
    manifest and that signer's name, the profile is the verifier's, the manifest has not expired, its version is
    not below the floor and every listed key decodes. The loaded set then resolves a root at any later instant
    exactly as the manifest publishes it: never past the manifest's expiry, never a revoked kid, a retiring kid
    only up to its deadline even when it is listed as current too. *)
Lemma manifest_anchors_exact `{Base64, Sha2, Ed25519, SerdeJson, !Serde TrustAnchorManifest}
    signed pin profile floor now :
  (∃ loaded, load_signed_manifest signed pin profile floor now = Ok loaded ∧
     la_version loaded = tm_manifest_version (sm_manifest signed) ∧
     ∀ kid t actor, resolve_issuer (la_issuer_set loaded) kid SlotResponse t = Resolved actor ↔
                    published (sm_manifest signed) kid t actor) ↔
  load_gates signed pin profile floor now ∧ keys_decode (sm_manifest signed).
Proof.
  split.
  - intros (loaded & Hl & _ & _). apply load_signed_manifest_Ok in Hl as [Hg Ha]. split; [done|].
    apply keys_decode_loads. eauto.
  - intros [Hg (loaded & Ha)%keys_decode_loads]. exists loaded. split_and!.
    + by apply load_signed_manifest_Ok.
    + by destruct Ha as (? & ? & _ & _ & ->).
    + intros kid t actor. by apply loads_as_resolves.
Qed.

(** Over any sequence of loads through one version floor, whatever is offered and whatever else fails in
    between, a manifest that is accepted is never older than one accepted before it: no replayed manifest
    un-revokes a root. The floor is any implementation that keeps its two promises. *)
Lemma no_manifest_rollback `{Base64, Sha2, Ed25519, SerdeJson, !Serde TrustAnchorManifest, FloorLaws F}
    pin profile (f f' : F) offered rs i j a b :
  offers_u64 offered → run_loads pin profile f offered = (f', rs) → (i < j)%nat →
  rs !! i = Some (Ok a) → rs !! j = Some (Ok b) → la_version a ≤ la_version b.
Proof.
  intros Hu. revert f rs i j. induction Hu as [|[signed now] rest Ho Hu IH]; intros f rs i j; simpl; [by intros [= <- <-]|].
  destruct (load_signed_manifest_with_floor signed pin profile f now) as [f1 r] eqn:E1.
  destruct (run_loads pin profile f1 rest) as [f2 rs2] eqn:E2. intros [= -> <-] Hij Hi Hj.
  destruct j as [|j]; [lia|]. destruct i as [|i]; simpl in *; [|by eapply (IH _ _ i j E2); [lia|..]].
  injection Hi as ->. apply load_with_floor_Ok in E1 as [_ Hf]; [|exact Ho].
  apply list_elem_of_lookup_2, (run_loads_at_least _ _ _ _ _ _ _ Hu E2) in Hj. lia.
Qed.

(** A manifest an organisation signs is accepted by every verifier that pins its key, for the profile it
    governs, until it expires, above any lower floor, and yields the roots it publishes. *)
Lemma signed_manifest_loads `{Base64Laws, Sha2, Ed25519Laws, SerdeJson, !Serde TrustAnchorManifest}
    manifest key kid signed pin floor now :
  sign_manifest manifest key kid = Some signed → pin kid = Some (SigningKey_public_key key) →
  now ≤ tm_expires_at manifest → floor ≤ tm_manifest_version manifest → keys_decode manifest →
  ∃ loaded, load_signed_manifest signed pin (tm_profile manifest) floor now = Ok loaded ∧
    ∀ kid t, trusts (la_issuer_set loaded) kid t = true ↔ ∃ actor, published manifest kid t actor.
Proof.
  intros Hs Hp Hn Hf (loaded & Ha)%keys_decode_loads. exists loaded.
  pose proof (sign_manifest_Some _ _ _ _ _ Hs Hp) as (Hauth & <- & <-). split.
  - by apply load_signed_manifest_Ok.
  - intros k t. rewrite trusts_resolves. split; intros [actor Ha']; exists actor; by apply (loads_as_resolves (sm_manifest signed) loaded).
Qed.

(** ** Witnesses *)

Import Instances.

Definition w_org : SigningKey := {| sk_inner := "O"%char : DalekSigningKey |}.
Definition w_root_text : bytes := VerificationKey_to_b64url (SigningKey_public_key w_org).
(** [r1] is listed as current and as retiring, [r3] is current and revoked. *)
Definition w_manifest (version : Z) : TrustAnchorManifest :=
  {| tm_profile := b#"p"; tm_manifest_version := version;
     tm_current_issuers :=
       map (λ k, {| mi_issuer_kid := k; mi_public_key := w_root_text; mi_role := b#"server"; mi_trust_domain := b#"d";
                    mi_subject := b#"s" |}) [b#"r1"; b#"r2"; b#"r3"];
     tm_retiring_issuers :=
       [{| ri_issuer_kid := b#"r1"; ri_public_key := w_root_text; ri_role := b#"server"; ri_trust_domain := b#"d";
           ri_subject := b#"s"; ri_valid_until := 150 |}];
     tm_revoked_issuers := [b#"r3"]; tm_issued_at := 90; tm_expires_at := 200 |}.

#[local] Instance ManifestIssuer_eq_dec : EqDecision ManifestIssuer.
Proof. solve_decision. Defined.
#[local] Instance RetiringIssuer_eq_dec : EqDecision RetiringIssuer.
Proof. solve_decision. Defined.
#[local] Instance TrustAnchorManifest_eq_dec : EqDecision TrustAnchorManifest.
Proof. solve_decision. Defined.

(** The witnesses' manifests differ in their version alone. *)
#[local] Instance w_manifest_serde : Serde TrustAnchorManifest := serde_through
  (λ v, match v with JNum n => Some (w_manifest n) | _ => None end)
  (λ t, if bool_decide (t = w_manifest (tm_manifest_version t)) then Some (JNumber (tm_manifest_version t)) else None).

Definition w_signed_manifest (version : Z) : SignedTrustAnchorManifest :=
  match sign_manifest (w_manifest version) w_org b#"org" with
  | Some s => s
  | None => {| sm_manifest := w_manifest version; sm_signer_kid := []; sm_signature := [] |}
  end.
Definition w_pin (kid : bytes) : option VerificationKey :=
  if bytes_eqb kid b#"org" then Some (SigningKey_public_key w_org) else None.

Definition w_offered : list (SignedTrustAnchorManifest * Z) := [(w_signed_manifest 5, 100); (w_signed_manifest 3, 110); (w_signed_manifest 6, 120)].
Definition w_run := run_loads w_pin b#"p" InMemoryVersionFloor_new w_offered.
Definition w_accepted (i : nat) : LoadedTrustAnchors :=
  match snd w_run !! i with Some (Ok a) => a | _ => {| la_issuer_set := TrustedIssuerSet_new; la_version := 0 |} end.
