(* ===== verification/ManifestFloor.v ===== *)
(** * [mcp-re-client-proxy/src/manifest_floor.rs]

    The durable version floor: a directory with one empty marker per accepted version, read as the
    maximum of the names. The file system is the state, with what a crash may lose of it kept
    apart; every call on it can fail. The sequential operations come first, then several processes
    on one directory, with crashes between any two of their calls and listings that other
    processes change while they are being read. *)

From S2P Require Import Prelude.
From S2P Require Import RustStr.
From S2P Require Import Body.
From S2P Require Import ClientTrust.

(** ** The directory

    [d_live] is what the directory has; [d_synced] is what stable storage holds. *)

Record Dir := { d_live : gset bytes; d_synced : gset bytes }.

(** Whether each call of one operation succeeds. *)
Record Io := {
  io_create_dir : bool;
  io_read_dir : bool;
  io_entry : bytes → bool;
  io_create : bool;
  io_file_sync : bool;
  io_dir_open : bool;
  io_dir_sync : bool;
  io_prune_read : bool;
  io_prune_entry : bytes → bool;
  io_remove : bytes → bool;
}.
Definition no_faults : Io :=
  {| io_create_dir := true; io_read_dir := true; io_entry := λ _, true; io_create := true; io_file_sync := true;
     io_dir_open := true; io_dir_sync := true; io_prune_read := true; io_prune_entry := λ _, true;
     io_remove := λ _, true |}.

(** [File::create_new], the directory's [sync_all], [remove_file]. *)
Definition create_marker (d : Dir) (name : bytes) : Dir :=
  {| d_live := {[name]} ∪ d_live d; d_synced := d_synced d |}.
Definition sync_dir (d : Dir) : Dir := {| d_live := d_live d; d_synced := d_live d |}.
Definition remove_file (d : Dir) (name : bytes) : Dir :=
  {| d_live := d_live d ∖ {[name]}; d_synced := d_synced d |}.

(** ** Markers *)

(** Names that are not UTF-8 are not all digits either. *)
Definition marker_version (name : bytes) : option Z :=
  match name with
  | [] => None
  | c :: r =>
      if negb (forallb is_ascii_digit name) then None
      else if (1 <? Z.of_nat (length name)) && ascii_eqb c "0" then None
      else str_parse_u64 name
  end.

Fixpoint max_marker (entry_ok : bytes → bool) (max : Z) (entries : list bytes) : Result Z TrustManifestError :=
  match entries with
  | [] => Ok max
  | name :: rest =>
      if negb (entry_ok name) then Err (FloorUnreadable b#"read trust-anchor floor entry")
      else max_marker entry_ok (match marker_version name with Some version => Z.max max version | None => max end) rest
  end.

(** [listing]: the entries the iteration over [read_dir] yields, one after the other. An absent
    directory is [NotFound], which reads as 0; any other failure does not. *)
Definition read_floor (io : Io) (listing : option (list bytes)) : Result Z TrustManifestError :=
  if negb (io_read_dir io) then Err (FloorUnreadable b#"read trust-anchor floor")
  else match listing with
       | None => Ok 0
       | Some entries => max_marker (io_entry io) 0 entries
       end.

(** The listing of a directory nobody else changes. *)
Definition listing_of (dir : option Dir) : option (list bytes) := (λ d, elements (d_live d)) <$> dir.

(** [None] is an [io::Error]. Creating a marker that exists is not one. *)
Definition persist (io : Io) (dir : option Dir) (version : Z) : option Dir * option unit :=
  match dir with
  | None => (None, None)
  | Some d =>
      let name := fmt_nat version in
      let created :=
        if bool_decide (name ∈ d_live d) then (d, if io_create io then Some tt else None)
        else if io_create io then (create_marker d name, if io_file_sync io then Some tt else None)
        else (d, None) in
      match created with
      | (d, None) => (Some d, None)
      | (d, Some _) => if io_dir_open io && io_dir_sync io then (Some (sync_dir d), Some tt) else (Some d, None)
      end
  end.

Definition prune_entry (io : Io) (keep : Z) (d : Dir) (name : bytes) : Dir :=
  if io_prune_entry io name
  then match marker_version name with
       | Some v => if v <? keep then (if io_remove io name then remove_file d name else d) else d
       | None => d
       end
  else d.
Definition prune_below (io : Io) (d : Dir) (keep : Z) : Dir :=
  if io_prune_read io then foldl (prune_entry io keep) d (elements (d_live d)) else d.

(** ** [FileManifestFloor] *)

Record FileManifestFloor := { fmf_bootstrap : Z; fmf_ceiling : option Z }.

Definition check_ceiling (f : FileManifestFloor) (value : Z) : Result unit TrustManifestError :=
  match fmf_ceiling f with
  | Some ceiling => if ceiling <? value then Err (FloorAboveCeiling value ceiling) else Ok tt
  | None => Ok tt
  end.

Definition file_min_version (io : Io) (f : FileManifestFloor) (listing : option (list bytes))
  : Result Z TrustManifestError :=
  let? durable := read_floor io listing in
  check_ceiling f durable ;?
  Ok (Z.max durable (fmf_bootstrap f)).

(** The checks of [record] before it writes: the floor that was read, if the version may be recorded. *)
Definition record_checks (io : Io) (f : FileManifestFloor) (listing : option (list bytes)) (version : Z)
  : Result Z TrustManifestError :=
  let? durable := read_floor io listing in
  check_ceiling f durable ;?
  check_ceiling f version ;?
  if version <? durable
  then Err (FloorNotPersisted b#"trust-anchor floor was raised past this version concurrently")
  else Ok durable.

Definition file_record (io : Io) (f : FileManifestFloor) (dir : option Dir) (version : Z)
  : option Dir * Result unit TrustManifestError :=
  match record_checks io f (listing_of dir) version with
  | Err e => (dir, Err e)
  | Ok durable =>
      if durable =? version
      then match persist io dir version with
           | (dir, None) => (dir, Err (FloorNotPersisted b#"fsync trust-anchor floor"))
           | (dir, Some _) => (dir, Ok tt)
           end
      else match persist io dir version with
           | (dir, None) => (dir, Err (FloorNotPersisted b#"write trust-anchor floor"))
           | (dir, Some _) => ((λ d, prune_below io d version) <$> dir, Ok tt)
           end
  end.

Definition with_bounds (io : Io) (dir : option Dir) (bootstrap : Z) (ceiling : option Z)
  : option Dir * Result FileManifestFloor TrustManifestError :=
  let floor := {| fmf_bootstrap := bootstrap; fmf_ceiling := ceiling |} in
  if match ceiling with Some ceiling => ceiling <? bootstrap | None => false end
  then (dir, Err (FloorAboveCeiling bootstrap (default 0 ceiling)))
  else if negb (io_create_dir io) then (dir, Err (FloorNotPersisted b#"create trust-anchor floor dir"))
  else
    let dir := Some (default {| d_live := ∅; d_synced := ∅ |} dir) in
    (dir, (file_min_version io floor (listing_of dir) ;? Ok floor)).

(** A floor handle on its directory, with the outcomes of the calls it will make: for each load
    those of the reading and those of the recording. *)
Record FloorHandle := { fh_floor : FileManifestFloor; fh_dir : option Dir; fh_io : list (Io * Io) }.
Definition next_io (h : FloorHandle) : Io * Io := default (no_faults, no_faults) (head (fh_io h)).

#[global] Instance FileManifestFloor_floor : ManifestVersionFloor FloorHandle := {
  min_version h := file_min_version (fst (next_io h)) (fh_floor h) (listing_of (fh_dir h));
  record h version :=
    let '(dir, r) := file_record (snd (next_io h)) (fh_floor h) (fh_dir h) version in
    ({| fh_floor := fh_floor h; fh_dir := dir; fh_io := tail (fh_io h) |}, r);
}.

(** ** Several processes on one directory

    Where one [record] stands: not running; past its checks; its marker created; the directory
    synced and pruning. *)

Inductive Phase : Type :=
  | PIdle
  | PPersist (version : Z) (prune : bool)
  | PCreated (version : Z) (prune : bool)
  | PPruning (version : Z).

(** One [read_dir] being iterated over: the entries that have been there since it was opened,
    which it must yield, and those that have been there at some time since, which it may. What is
    added or removed in between it may yield or not. Of the opening are kept the versions recorded
    by then and the floor no crash could take away. *)
Record Stream := { st_recorded : list Z; st_floor : Z; st_kept : gset bytes; st_seen : gset bytes }.
Definition observe (live : gset bytes) (st : Stream) : Stream :=
  {| st_recorded := st_recorded st; st_floor := st_floor st;
     st_kept := st_kept st ∩ live; st_seen := st_seen st ∪ live |}.
Definition may_yield (st : Stream) (names : list bytes) : Prop :=
  st_kept st ⊆ list_to_set names ∧ list_to_set names ⊆ st_seen st.
#[global] Instance may_yield_dec st names : Decision (may_yield st names) := and_dec _ _.

(** [s_recorded]: the versions some [record] has returned [Ok] for, latest first. *)
Record Sys := { s_dir : Dir; s_calls : gmap nat Phase; s_streams : gmap nat Stream; s_recorded : list Z }.
Definition s_phase (s : Sys) (i : nat) : Phase := default PIdle (s_calls s !! i).

Definition at_phase (s : Sys) (i : nat) (p : Phase) : Sys :=
  {| s_dir := s_dir s; s_calls := <[i := p]> (s_calls s); s_streams := s_streams s; s_recorded := s_recorded s |}.
Definition with_dir (s : Sys) (d : Dir) : Sys :=
  {| s_dir := d; s_calls := s_calls s; s_streams := observe (d_live d) <$> s_streams s; s_recorded := s_recorded s |}.
Definition returned (s : Sys) (version : Z) : Sys :=
  {| s_dir := s_dir s; s_calls := s_calls s; s_streams := s_streams s; s_recorded := version :: s_recorded s |}.

(** The largest version among some names, 0 when there is none; that of the entries no crash takes away. *)
Definition names_floor (names : gset bytes) : Z :=
  foldr (λ name acc, Z.max (default 0 (marker_version name)) acc) 0 (elements names).
Definition durable_floor (s : Sys) : Z := names_floor (d_live (s_dir s) ∩ d_synced (s_dir s)).

Definition stream_opened (s : Sys) (i : nat) : Sys :=
  let live := d_live (s_dir s) in
  {| s_dir := s_dir s; s_calls := s_calls s; s_recorded := s_recorded s;
     s_streams := <[i := {| st_recorded := s_recorded s; st_floor := durable_floor s;
                            st_kept := live; st_seen := live |}]> (s_streams s) |}.

(** What stable storage may hold after the kernel wrote some entries back: what is listed and
    stored stays, what is neither does not appear. *)
Definition may_hold (d : Dir) (stored : gset bytes) : Prop :=
  d_live d ∩ d_synced d ⊆ stored ∧ stored ⊆ d_live d ∪ d_synced d.

Inductive step : Sys → Sys → Prop :=
  | step_open s i :
      step s (stream_opened s i)
  | step_check s i st names io f version durable :
      s_phase s i = PIdle → is_u64 version → s_streams s !! i = Some st → may_yield st names →
      record_checks io f (Some names) version = Ok durable →
      step s (at_phase s i (PPersist version (negb (durable =? version))))
  | step_create s i version prune :
      s_phase s i = PPersist version prune →
      step s (at_phase (with_dir s (create_marker (s_dir s) (fmt_nat version))) i (PCreated version prune))
  | step_sync s i version prune :
      s_phase s i = PCreated version prune →
      step s (let s' := with_dir s (sync_dir (s_dir s)) in
              if prune then at_phase s' i (PPruning version) else returned (at_phase s' i PIdle) version)
  | step_prune s i version name v :
      s_phase s i = PPruning version → marker_version name = Some v → v < version →
      step s (with_dir s (remove_file (s_dir s) name))
  | step_return s i version :
      s_phase s i = PPruning version → step s (returned (at_phase s i PIdle) version)
  | step_fail s i version prune :
      s_phase s i = PPersist version prune ∨ s_phase s i = PCreated version prune → step s (at_phase s i PIdle)
  | step_add s name :
      step s (with_dir s (create_marker (s_dir s) name))
  | step_write_back s stored :
      may_hold (s_dir s) stored →
      step s (with_dir s {| d_live := d_live (s_dir s); d_synced := stored |})
  | step_crash s stored :
      may_hold (s_dir s) stored →
      step s {| s_dir := {| d_live := stored; d_synced := stored |}; s_calls := ∅; s_streams := ∅;
              s_recorded := s_recorded s |}.

(** Any directory, nothing running. *)
Definition initial (s : Sys) : Prop := s_calls s = ∅ ∧ s_streams s = ∅ ∧ s_recorded s = [].
Definition reachable (s : Sys) : Prop := ∃ s0, initial s0 ∧ rtc step s0 s.

(** ** Markers and their maximum *)

(** A name is the marker of one version, the one it prints. *)
Lemma marker_version_Some name v : marker_version name = Some v ↔ is_u64 v ∧ name = fmt_nat v.
Proof.
  split.
  - unfold marker_version. destruct name as [|c r]; [done|].
    destruct (forallb is_ascii_digit (c :: r)) eqn:Ed; [|done]. cbn [negb].
    destruct (_ && ascii_eqb c "0") eqn:Ez; [done|]. intros Hp.
    assert (str_parse_u64 (c :: r) = checked_u64 (dec_val (c :: r))) as Hs.
    { unfold str_parse_u64. assert (c ≠ "+"%char) as Hc by (intros ->; done).
      revert Hc Ed. clear. ascii_cases c; intros Hc Ed; try done; by rewrite Ed. }
    rewrite Hs in Hp. apply checked_u64_Some in Hp as [-> Hu]. split; [done|]. symmetry.
    apply fmt_nat_dec_val; [by apply forallb_Forall|done|].
    apply andb_false_iff in Ez as [Ez|Ez].
    + apply Z.ltb_ge in Ez. destruct r as [|d r]; [|simpl length in Ez; lia].
      destruct (decide (c = "0"%char)) as [->|]; [by left|right; eauto].
    + right. exists c, r. split; [done|]. intros ->. done.
  - intros [Hu ->]. assert (0 ≤ v) as Hv by (unfold is_u64 in Hu; lia).
    pose proof (fmt_nat_digits v Hv) as HF. pose proof (fmt_nat_nonempty v Hv) as Hne.
    pose proof (proj2 (forallb_Forall _ _) HF) as Hd. unfold marker_version.
    destruct (fmt_nat v) as [|c r] eqn:Ef; [done|]. rewrite Hd. cbn [negb].
    replace (_ && ascii_eqb c "0") with false.
    + unfold str_parse_u64. assert (c ≠ "+"%char) as Hc by (intros ->; by inv_Forall).
      assert (match c :: r with "+"%char :: r => r | _ => c :: r end = c :: r) as -> by (revert Hc; clear; by ascii_cases c).
      rewrite Hd, <-Ef, dec_val_fmt by done. by apply checked_u64_Some.
    + symmetry. apply andb_false_iff. destruct (decide (v = 0)) as [->|].
      * left. injection Ef as <- <-. done.
      * right. destruct (fmt_nat_head v ltac:(lia)) as (c' & r' & Hf & Hc'). rewrite Ef in Hf. injection Hf as -> ->.
        destruct (ascii_eqb c' "0") eqn:E; [|done]. by apply ascii_eqb_true in E.
Qed.

Lemma marker_of v : is_u64 v → marker_version (fmt_nat v) = Some v.
Proof. intros Hv. by apply marker_version_Some. Qed.

Lemma marker_nonneg name : 0 ≤ default 0 (marker_version name).
Proof.
  destruct (marker_version name) as [v|] eqn:E; simpl; [|lia]. apply marker_version_Some in E as [[? _] _]. lia.
Qed.

(** It is the least bound: of every name, and above nothing else. *)
Lemma markers_le l b :
  0 ≤ b → foldr (λ name acc, Z.max (default 0 (marker_version name)) acc) 0 l ≤ b ↔
          ∀ name v, name ∈ l → marker_version name = Some v → v ≤ b.
Proof.
  intros Hb. induction l as [|x l IH]; simpl.
  - split; [|done]. intros _ name v Hn. by apply not_elem_of_nil in Hn.
  - pose proof (marker_nonneg x). split.
    + intros Hle name v [->|Hn]%elem_of_cons Hm; [rewrite Hm in Hle; simpl in Hle; lia|].
      apply IH with name; [lia|done..].
    + intros Hall. apply Z.max_lub; [|apply IH; intros; eapply Hall; [by right|done]].
      destruct (marker_version x) as [v|] eqn:E; simpl; [|done]. eapply Hall; [by left|done].
Qed.

Lemma names_floor_le names b :
  0 ≤ b → names_floor names ≤ b ↔ ∀ name v, name ∈ names → marker_version name = Some v → v ≤ b.
Proof. intros Hb. setoid_rewrite <-(elem_of_elements names). by apply markers_le. Qed.

Lemma names_floor_nonneg names : 0 ≤ names_floor names.
Proof.
  unfold names_floor. induction (elements names) as [|x l IH]; simpl; [lia|]. pose proof (marker_nonneg x). lia.
Qed.

Lemma names_floor_ge names name v : name ∈ names → marker_version name = Some v → v ≤ names_floor names.
Proof. intros Hn Hm. by eapply (names_floor_le names (names_floor names)); [apply names_floor_nonneg| | |]. Qed.

Lemma names_floor_mono X Y : X ⊆ Y → names_floor X ≤ names_floor Y.
Proof.
  intros HXY. apply names_floor_le; [apply names_floor_nonneg|]. intros name v Hn Hm. eapply names_floor_ge; [|done]. set_solver.
Qed.

(** Removing the marker of a smaller version does not lower the maximum. *)
Lemma names_floor_remove X name v :
  marker_version name = Some v → v < names_floor X → names_floor X ≤ names_floor (X ∖ {[name]}).
Proof.
  intros Hm Hlt. destruct (Z_le_gt_dec (names_floor X) (names_floor (X ∖ {[name]}))) as [|Hgt]; [done|]. exfalso.
  enough (names_floor X ≤ Z.max v (names_floor (X ∖ {[name]}))) by lia.
  pose proof (names_floor_nonneg (X ∖ {[name]})).
  apply names_floor_le; [lia|]. intros name' v' Hn' Hm'. destruct (decide (name' = name)) as [->|Hne].
  - rewrite Hm in Hm'. injection Hm' as <-. lia.
  - pose proof (names_floor_ge (X ∖ {[name]}) name' v' ltac:(set_solver) Hm'). lia.
Qed.

(** Reading a directory that can be read yields that maximum. *)
Lemma max_marker_Ok ok max l m : 0 ≤ max →
  max_marker ok max l = Ok m →
  m = Z.max max (foldr (λ name acc, Z.max (default 0 (marker_version name)) acc) 0 l).
Proof.
  revert max. induction l as [|x l IH]; intros max Hmax; simpl; [intros [= ->]; lia|].
  destruct (ok x); [|done]. simpl. intros Hm. apply IH in Hm as ->.
  - destruct (marker_version x); simpl; lia.
  - destruct (marker_version x); lia.
Qed.

Definition dir_floor (dir : option Dir) : Z := match dir with Some d => names_floor (d_live d) | None => 0 end.

(** The maximum of a listing, and of the directory when the listing is its own. *)
Lemma read_floor_listing io names m : read_floor io (Some names) = Ok m → m = names_floor (list_to_set names).
Proof.
  unfold read_floor. destruct (io_read_dir io); [|done]. simpl. intros Hm. apply max_marker_Ok in Hm as ->; [|done].
  set (F := foldr _ 0 names).
  assert (∀ b, 0 ≤ b → F ≤ b ↔ ∀ name v, name ∈ names → marker_version name = Some v → v ≤ b) as HF
    by (intros; by apply markers_le).
  assert (0 ≤ F) by (subst F; clear; induction names as [|x l IH]; simpl; [lia|pose proof (marker_nonneg x); lia]).
  assert (0 ≤ names_floor (list_to_set names)) by apply names_floor_nonneg.
  rewrite Z.max_r by done. apply Z.le_antisymm.
  - apply HF; [done|]. intros name v Hn. apply names_floor_ge. by apply elem_of_list_to_set.
  - apply names_floor_le; [done|]. intros name v Hn%elem_of_list_to_set. by apply HF.
Qed.

Lemma read_floor_Ok io dir m : read_floor io (listing_of dir) = Ok m → m = dir_floor dir.
Proof.
  destruct dir as [d|]; simpl.
  - intros Hm%read_floor_listing. by rewrite list_to_set_elements_L in Hm.
  - unfold read_floor. destruct (io_read_dir io); [|done]. by intros [= <-].
Qed.

(** ** The sequential floor keeps the loader's promises *)

Lemma prune_below_floor io d keep :
  keep ≤ names_floor (d_live d) → names_floor (d_live d) ≤ names_floor (d_live (prune_below io d keep)).
Proof.
  intros Hk. unfold prune_below. destruct (io_prune_read io); [|done].
  generalize (elements (d_live d)). intros l. revert d Hk. induction l as [|x l IH]; intros d Hk; simpl; [done|].
  assert (names_floor (d_live d) ≤ names_floor (d_live (prune_entry io keep d x))) as Hx.
  { unfold prune_entry. destruct (io_prune_entry io x); [|done].
    destruct (marker_version x) as [v|] eqn:Ev; [|done]. destruct (v <? keep) eqn:E; [|done].
    destruct (io_remove io x); [|done]. simpl. apply names_floor_remove with v; [done|lia]. }
  specialize (IH (prune_entry io keep d x) ltac:(lia)). lia.
Qed.

Lemma persist_floor io d version dir r :
  is_u64 version → persist io (Some d) version = (dir, r) →
  ∃ d', dir = Some d' ∧ names_floor (d_live d) ≤ names_floor (d_live d') ∧
        (r = Some tt → version ≤ names_floor (d_live d')).
Proof.
  intros Hu. unfold persist.
  assert (fmt_nat version ∈ d_live d → version ≤ names_floor (d_live d)) as Hin
    by (intros; eapply names_floor_ge; [done|by apply marker_of]).
  pose proof (names_floor_mono (d_live d) ({[fmt_nat version]} ∪ d_live d) ltac:(set_solver)) as Hmono.
  pose proof (names_floor_ge ({[fmt_nat version]} ∪ d_live d) (fmt_nat version) version ltac:(set_solver) (marker_of _ Hu)) as Hge.
  case_bool_decide as Hb; destruct (io_create io), (io_file_sync io), (io_dir_open io), (io_dir_sync io);
    simpl; intros [= <- <-]; (eexists; split; [done|simpl; split; [lia|naive_solver lia]]).
Qed.

Lemma file_record_floor io f dir version dir' r :
  is_u64 version → file_record io f dir version = (dir', r) →
  dir_floor dir ≤ dir_floor dir' ∧ (r = Ok tt → version ≤ dir_floor dir').
Proof.
  intros Hu. unfold file_record. destruct (record_checks io f (listing_of dir) version) as [durable|e]; [|by intros [= <- <-]].
  destruct dir as [d|].
  - destruct (persist io (Some d) version) as [p o] eqn:Ep.
    apply persist_floor in Ep as (d' & -> & Hm & Hv); [|done].
    destruct (durable =? version), o as [[]|]; intros [= <- <-]; simpl; try (split; [lia|done || auto]).
    specialize (Hv eq_refl). pose proof (prune_below_floor io d' version Hv). split; [lia|]. intros _. lia.
  - simpl. destruct (durable =? version); intros [= <- <-]; (split; [simpl; lia|done]).
Qed.

Lemma file_min_version_Ok io f dir m :
  file_min_version io f (listing_of dir) = Ok m → m = Z.max (dir_floor dir) (fmf_bootstrap f).
Proof. unfold file_min_version. intros Hm. inv_ok. by apply read_floor_Ok in E as ->. Qed.
Lemma file_min_version_listing io f names m :
  file_min_version io f (Some names) = Ok m → m = Z.max (names_floor (list_to_set names)) (fmf_bootstrap f).
Proof. unfold file_min_version. intros Hm. inv_ok. by apply read_floor_listing in E as ->. Qed.

#[export] Instance FloorHandle_laws : FloorLaws FloorHandle.
Proof.
  refine {| level := λ h, dir_floor (fh_dir h) |}; simpl.
  - intros h m Hm. apply file_min_version_Ok in Hm as ->. lia.
  - intros h v h' Hu. destruct (file_record _ _ _ _) as [dir r] eqn:E. intros [= <- ->]. simpl.
    apply file_record_floor in E as [_ Hv]; auto.
  - intros h v h' r Hu. destruct (file_record _ _ _ _) as [dir r'] eqn:E. intros [= <- <-]. simpl.
    by apply file_record_floor in E as [Hm _].
Defined.

(** ** Several processes *)

Definition live_floor (s : Sys) : Z := names_floor (d_live (s_dir s)).

Definition phase_sound (s : Sys) (p : Phase) : Prop :=
  match p with
  | PIdle => True
  | PPersist version _ => is_u64 version
  | PCreated version _ => version ≤ live_floor s
  | PPruning version => version ≤ durable_floor s
  end.
Definition sound (s : Sys) : Prop :=
  (∀ i, phase_sound s (s_phase s i)) ∧ Forall (λ v, v ≤ durable_floor s) (s_recorded s).

Lemma durable_le_live s : durable_floor s ≤ live_floor s.
Proof. apply names_floor_mono. set_solver. Qed.

(** No step lowers the durable floor, and none but a crash, which stops every process, the listed one. *)
Lemma step_durable s s' : sound s → step s s' → durable_floor s ≤ durable_floor s'.
Proof.
  unfold durable_floor. intros [Hp _] Hs. pose proof (durable_le_live s).
  inversion Hs as [| | | |? i version name v Hi Hm Hv| | | |? stored [Hlo Hhi]|? stored [Hlo Hhi]]; subst;
    try destruct prune; simpl in *; try (apply names_floor_mono; set_solver).
  specialize (Hp i). rewrite Hi in Hp. simpl in Hp. unfold durable_floor in Hp.
  trans (names_floor ((d_live (s_dir s) ∩ d_synced (s_dir s)) ∖ {[name]})); [|apply names_floor_mono; set_solver].
  apply names_floor_remove with v; [done|lia].
Qed.

Lemma step_live s s' : sound s → step s s' →
  live_floor s ≤ live_floor s' ∨ (s_calls s' = ∅ ∧ s_recorded s' = s_recorded s).
Proof.
  unfold live_floor. intros [Hp _] Hs. pose proof (durable_le_live s) as Hdl. unfold live_floor in Hdl.
  inversion Hs as [| | | |? i version name v Hi Hm Hv| | | | |]; subst; try destruct prune; simpl in *;
    try (left; apply names_floor_mono; set_solver); [|by right].
  specialize (Hp i). rewrite Hi in Hp. simpl in Hp. left. apply names_floor_remove with v; [done|lia].
Qed.

Lemma phase_sound_mono s s' p :
  durable_floor s ≤ durable_floor s' → live_floor s ≤ live_floor s' → phase_sound s p → phase_sound s' p.
Proof. destruct p; simpl; intros; try done; lia. Qed.

(** A step that moves one process, and may let its call return. *)
Lemma move_sound s s' i p recorded :
  sound s → durable_floor s ≤ durable_floor s' → live_floor s ≤ live_floor s' →
  s_calls s' = <[i := p]> (s_calls s) → s_recorded s' = recorded ++ s_recorded s →
  phase_sound s' p → Forall (λ v, v ≤ durable_floor s') recorded → sound s'.
Proof.
  intros [Hp Hr] Hd Hl Hph Hrec Hps Hnew. split.
  - intros j. unfold s_phase. rewrite Hph. destruct (decide (j = i)) as [->|]; [by rewrite lookup_insert_eq|].
    rewrite lookup_insert_ne by done. apply (phase_sound_mono s); [done..|apply Hp].
  - rewrite Hrec. apply Forall_app. split; [done|]. eapply Forall_impl; [exact Hr|]. simpl. intros. lia.
Qed.

(** A step of the environment. *)
Lemma stay_sound s s' :
  sound s → durable_floor s ≤ durable_floor s' → live_floor s ≤ live_floor s' →
  s_calls s' = s_calls s → s_recorded s' = s_recorded s → sound s'.
Proof.
  intros [Hp Hr] Hd Hl Hph Hrec. split.
  - intros j. unfold s_phase. rewrite Hph. apply (phase_sound_mono s); [done..|apply Hp].
  - rewrite Hrec. eapply Forall_impl; [exact Hr|]. simpl. intros. lia.
Qed.

Lemma step_sound s s' : sound s → step s s' → sound s'.
Proof.
  intros Hs Hstep. pose proof (step_durable _ _ Hs Hstep) as Hd. pose proof (step_live _ _ Hs Hstep) as Hl.
  destruct Hl as [Hl|[Hph Hrec]].
  2: { split; [intros j; unfold s_phase; by rewrite Hph|]. rewrite Hrec. eapply Forall_impl; [apply Hs|]. simpl. intros. lia. }
  pose proof Hs as [Hp _]. destruct Hstep as [s i|s i st names io f version durable Hi Hu Hst Hy Hc|s i version prune Hi|s i version prune Hi
    |s i version name v Hi Hm Hv|s i version Hi|s i version prune Hi|s name|s stored Hst|s stored Hst].
  - by eapply stay_sound.
  - by eapply (move_sound s _ i _ []).
  - specialize (Hp i). rewrite Hi in Hp. eapply (move_sound s _ i _ []); try done.
    simpl. eapply names_floor_ge; [|by apply marker_of]. set_solver.
  - specialize (Hp i). rewrite Hi in Hp. simpl in Hp.
    assert (durable_floor (with_dir s (sync_dir (s_dir s))) = live_floor s) as Hsync
      by (unfold durable_floor, live_floor; simpl; f_equal; set_solver).
    destruct prune.
    + eapply (move_sound s _ i _ []); try done. simpl. unfold durable_floor in *. simpl in *. lia.
    + eapply (move_sound s _ i _ [version]); try done. repeat constructor. unfold durable_floor in *. simpl in *. lia.
  - by eapply stay_sound.
  - specialize (Hp i). rewrite Hi in Hp. simpl in Hp. eapply (move_sound s _ i _ [version]); try done.
    constructor; [exact Hp|done].
  - by eapply (move_sound s _ i _ []).
  - by eapply stay_sound.
  - by eapply stay_sound.
  - split; [done|]. eapply Forall_impl; [apply Hs|]. simpl. intros. lia.
Qed.

(** What an open stream still yields: a version at or above the floor of its opening, unless a higher one has become
    durable meanwhile. *)
Definition stream_sound (s : Sys) (st : Stream) : Prop :=
  st_kept st ⊆ d_live (s_dir s) ∧ Forall (λ v, v ≤ st_floor st) (st_recorded st) ∧ st_floor st ≤ durable_floor s ∧
  (st_floor st ≤ names_floor (st_kept st) ∨ st_floor st < durable_floor s).
Definition streams_sound (s : Sys) : Prop := ∀ i st, s_streams s !! i = Some st → stream_sound s st.

(** No step but a pruning removes a name, and a pruning only below a durable version. *)
Lemma observe_sound s d st :
  stream_sound s st → durable_floor s ≤ durable_floor (with_dir s d) →
  (∀ name, name ∈ d_live (s_dir s) → name ∉ d_live d →
     ∃ v, marker_version name = Some v ∧ v < durable_floor s ∧ d_live d = d_live (s_dir s) ∖ {[name]}) →
  stream_sound (with_dir s d) (observe (d_live d) st).
Proof.
  intros (Hk & Hr & Hle & Hfl) Hd Hrem. split_and!; simpl; [set_solver|done|lia|].
  destruct Hfl as [Hfl|Hfl]; [|right; lia].
  destruct (decide (st_kept st ⊆ d_live d)) as [Hsub|Hnot].
  - left. replace (st_kept st ∩ d_live d) with (st_kept st) by set_solver. done.
  - assert (∃ name, name ∈ st_kept st ∧ name ∉ d_live d) as (name & Hin & Hout).
    { destruct (set_choose_or_empty (st_kept st ∖ d_live d)) as [[x Hx]|He]; [exists x; set_solver|].
      destruct Hnot. intros x Hx. destruct (decide (x ∈ d_live d)); set_solver. }
    destruct (Hrem name ltac:(set_solver) Hout) as (v & Hm & Hv & ->).
    destruct (Z_lt_ge_dec v (st_floor st)); [left|right; lia].
    replace (st_kept st ∩ (d_live (s_dir s) ∖ {[name]})) with (st_kept st ∖ {[name]}) by set_solver.
    pose proof (names_floor_remove (st_kept st) name v Hm ltac:(lia)). lia.
Qed.

Lemma step_streams s s' : sound s → streams_sound s → step s s' → streams_sound s'.
Proof.
  intros Hs Hst Hstep. pose proof (step_durable _ _ Hs Hstep) as Hd.
  assert (∀ d, durable_floor s ≤ durable_floor (with_dir s d) →
    (∀ name, name ∈ d_live (s_dir s) → name ∉ d_live d →
     ∃ v, marker_version name = Some v ∧ v < durable_floor s ∧ d_live d = d_live (s_dir s) ∖ {[name]}) →
    streams_sound (with_dir s d)) as Hdir.
  { intros d Hd' Hrem i st. simpl. rewrite lookup_fmap. intros (st0 & Hl & ->)%fmap_Some. apply observe_sound; eauto. }
  destruct Hstep as [s i|s i st names io f version durable Hi Hu _ _ _|s i version prune Hi|s i version prune Hi
    |s i version name v Hi Hm Hv|s i version Hi|s i version prune Hi|s name|s stored Hsto|s stored Hsto].
  - intros j st. simpl. destruct (decide (j = i)) as [->|]; [rewrite lookup_insert_eq; intros [= <-]|rewrite lookup_insert_ne by done; apply Hst].
    split_and!; simpl; [done|apply Hs|unfold durable_floor; simpl; lia|left]. apply durable_le_live.
  - exact Hst.
  - apply Hdir; [exact Hd|]. simpl. set_solver.
  - destruct prune; apply Hdir; try exact Hd; simpl; set_solver.
  - apply Hdir; [exact Hd|]. simpl. intros name' Hin Hout. assert (name' = name) as -> by (destruct (decide (name' = name)); set_solver).
    exists v.
    destruct Hs as [Hp _]. specialize (Hp i). rewrite Hi in Hp. simpl in Hp. split_and!; [done|lia|done].
  - exact Hst.
  - exact Hst.
  - apply Hdir; [exact Hd|]. simpl. set_solver.
  - apply Hdir; [exact Hd|]. simpl. set_solver.
  - intros j st. simpl. by rewrite lookup_empty.
Qed.

Lemma reachable_sound s : reachable s → sound s ∧ streams_sound s.
Proof.
  intros (s0 & (Hidle & Hnone & Hrec) & Hsteps). assert (sound s0 ∧ streams_sound s0) as Hs0.
  { split; [split; [intros i; unfold s_phase; by rewrite Hidle|by rewrite Hrec]|]. intros i st. by rewrite Hnone. }
  clear Hidle Hnone Hrec. induction Hsteps as [|s1 s2 s3 Hst _ IH]; [done|]. destruct Hs0 as [Ha Hb].
  apply IH. split; [by eapply step_sound|by eapply step_streams].
Qed.

(** One call with no other process in between is a run of those steps. *)
(** A run that ends with this directory, this process there and these versions returned. *)
Definition runs_to (s : Sys) (d : Dir) (i : nat) (p : Phase) (new : list Z) : Prop :=
  ∃ s', rtc step s s' ∧ s_dir s' = d ∧ (∀ j, s_phase s' j = if decide (j = i) then p else s_phase s j) ∧
        s_recorded s' = new ++ s_recorded s.

Lemma phase_insert s i p j : s_phase (at_phase s i p) j = if decide (j = i) then p else s_phase s j.
Proof. unfold s_phase. simpl. case_decide as Hj; [subst; by rewrite lookup_insert_eq|by rewrite lookup_insert_ne]. Qed.

Lemma runs_refl s d i p : s_dir s = d → s_phase s i = p → runs_to s d i p [].
Proof. intros Hd Hi. exists s. split_and!; [done..| |done]. intros j. by case_decide; subst. Qed.

Lemma runs_trans s d i p d' p' new new' :
  runs_to s d i p new → (∀ s', s_dir s' = d → s_phase s' i = p → runs_to s' d' i p' new') →
  runs_to s d' i p' (new' ++ new).
Proof.
  intros (s1 & Hrun & Hd & Hp & Hn) Hnext.
  destruct (Hnext s1 Hd) as (s2 & Hrun2 & Hd2 & Hp2 & Hn2); [rewrite Hp; by rewrite decide_True|].
  exists s2. split_and!; [by etrans|done| |by rewrite Hn2, Hn, app_assoc].
  intros j. rewrite Hp2, Hp. by case_decide.
Qed.

(** One step that moves one process. *)
Lemma runs_step s s' i p d new :
  step s s' → s_dir s' = d → s_recorded s' = new ++ s_recorded s →
  (∀ j, s_phase s' j = s_phase (at_phase s i p) j) → runs_to s d i p new.
Proof. intros Hs Hd Hr Hp. exists s'. split_and!; [by apply rtc_once|done| |done]. intros j. by rewrite Hp, phase_insert. Qed.

Lemma prune_below_run s i version d io :
  s_phase s i = PPruning version → s_dir s = d → runs_to s (prune_below io d version) i (PPruning version) [].
Proof.
  intros Hi Hd. unfold prune_below. destruct (io_prune_read io); [|by apply runs_refl].
  generalize (elements (d_live d)). intros l. revert s d Hi Hd. induction l as [|x l IH]; intros s d Hi Hd; simpl; [by apply runs_refl|].
  unfold prune_entry at 2. destruct (io_prune_entry io x); [|by apply IH].
  destruct (marker_version x) as [v|] eqn:Ev; [|by apply IH]. destruct (v <? version) eqn:Elt; [|by apply IH].
  destruct (io_remove io x); [|by apply IH]. apply Z.ltb_lt in Elt.
  change [] with ([] ++ [] : list Z). eapply runs_trans; [|intros s' Hd' Hi'; by apply (IH s' _ Hi' Hd')].
  eapply runs_step; [by eapply step_prune|simpl; by subst|done|]. intros j. rewrite phase_insert.
  case_decide; [subst; exact Hi|done].
Qed.

(** Where [persist] ends, for a process past its checks. *)
Lemma persist_run s i version prune io d' r :
  s_phase s i = PPersist version prune → persist io (Some (s_dir s)) version = (Some d', r) →
  match r with
  | None => runs_to s d' i PIdle []
  | Some _ => if prune then runs_to s d' i (PPruning version) [] else runs_to s d' i PIdle [version]
  end.
Proof.
  intros Hi. unfold persist. set (d1 := create_marker (s_dir s) (fmt_nat version)).
  assert (runs_to s (s_dir s) i PIdle []) as Hstop
    by (eapply runs_step; [eapply step_fail; left; exact Hi|done..]).
  assert (runs_to s d1 i (PCreated version prune) []) as Hcreate
    by (eapply runs_step; [by apply step_create|done..]).
  assert (runs_to s d1 i PIdle []) as Hfail.
  { change [] with ([] ++ [] : list Z). eapply runs_trans; [exact Hcreate|]. intros s' Hd Hi'.
    eapply runs_step; [eapply step_fail; right; exact Hi'|done..]. }
  assert (if prune then runs_to s (sync_dir d1) i (PPruning version) [] else runs_to s (sync_dir d1) i PIdle [version]) as Hsync.
  { destruct prune; [change [] with ([] ++ [] : list Z)|change [version] with ([version] ++ [])];
      (eapply runs_trans; [exact Hcreate|]; intros s' Hd Hi';
       eapply runs_step; [by eapply step_sync|by simpl; rewrite Hd|done|done]). }
  assert (fmt_nat version ∈ d_live (s_dir s) → d1 = s_dir s) as Hsame.
  { intros Hin. unfold d1, create_marker. destruct (s_dir s) as [l y]. simpl in *. f_equal. set_solver. }
  clearbody d1. case_bool_decide as Hin; [rewrite (Hsame Hin) in *|]; destruct (io_create io); simpl;
    try (intros [= <- <-]; exact Hstop).
  - destruct (io_dir_open io && io_dir_sync io); intros [= <- <-]; [|done]. exact Hsync.
  - destruct (io_file_sync io); [|intros [= <- <-]; exact Hfail].
    destruct (io_dir_open io && io_dir_sync io); intros [= <- <-]; [exact Hsync|exact Hfail].
Qed.

(** The checks of one call, on a listing of its own: what it reads is the directory. *)
Lemma checks_run s i io f version durable :
  s_phase s i = PIdle → is_u64 version → record_checks io f (listing_of (Some (s_dir s))) version = Ok durable →
  runs_to s (s_dir s) i (PPersist version (negb (durable =? version))) [].
Proof.
  intros Hi Hu Hc. change [] with ([] ++ [] : list Z).
  exists (at_phase (stream_opened s i) i (PPersist version (negb (durable =? version)))). split_and!; try done.
  - eapply rtc_l; [apply (step_open s i)|]. apply rtc_once. eapply step_check; [exact Hi|done| | |exact Hc].
    + simpl. by rewrite lookup_insert_eq.
    + split; simpl; by rewrite list_to_set_elements_L.
  - intros j. by rewrite phase_insert.
Qed.

(** ** Properties *)

(** C22: several processes record versions in one floor directory, their system calls interleaved in any order,
    failing anywhere, with crashes that lose whatever was not synced, strays created by others and markers pruned
    in between; a listing is open over many of those steps, yields what was there throughout, and of what was added
    or removed in between any part. Once some [record] has returned [Ok] for a version, the durable floor is at
    least it and never drops below it. A reading whose listing was opened after that return, through any handle and
    whatever its bounds, is at least that version, or a version above the durable floor of the opening was made
    durable while the listing was open; and it is never above what the directory held in that time. *)
Theorem recorded_version_survives s i st v names io f m :
  reachable s → s_streams s !! i = Some st → v ∈ st_recorded st → may_yield st names →
  file_min_version io f (Some names) = Ok m →
  v ≤ st_floor st ∧ st_floor st ≤ durable_floor s ∧ (st_floor st ≤ m ∨ st_floor st < durable_floor s) ∧
  fmf_bootstrap f ≤ m ≤ Z.max (names_floor (st_seen st)) (fmf_bootstrap f) ∧
  Forall (λ w, w ≤ durable_floor s ∧ ∀ s', step s s' → w ≤ durable_floor s') (s_recorded s).
Proof.
  intros Hreach Hst Hv [Hlo Hhi] Hm. destruct (reachable_sound _ Hreach) as [Hs Hss].
  destruct (Hss i st Hst) as (_ & Hr & Hle & Hfl). rewrite Forall_forall in Hr. specialize (Hr v Hv). simpl in Hr.
  apply file_min_version_listing in Hm as ->.
  pose proof (names_floor_mono _ _ Hlo). pose proof (names_floor_mono _ _ Hhi).
  split_and!; [done|done|destruct Hfl; [left|right]; lia|lia|lia|].
  eapply Forall_impl; [apply Hs|]. simpl. intros w Hw. split; [done|]. intros s' Hstep.
  pose proof (step_durable _ _ Hs Hstep). lia.
Qed.

(** C24: one call of [record] is a run of the interleaved system: whatever calls of it fail, it leaves the directory
    as some sequence of those steps does, and reports [Ok] exactly where that run reports the version recorded. *)
Theorem record_refines_steps s i f version io d' r :
  s_phase s i = PIdle → is_u64 version → file_record io f (Some (s_dir s)) version = (Some d', r) →
  ∃ s', rtc step s s' ∧ s_dir s' = d' ∧ (∀ j, s_phase s' j = s_phase s j) ∧
        s_recorded s' = (if is_ok r then [version] else []) ++ s_recorded s.
Proof.
  intros Hi Hu Hrec. enough (runs_to s d' i PIdle (if is_ok r then [version] else [])) as (s' & Hrun & Hd & Hp & Hn).
  { exists s'. split_and!; [done..| |done]. intros j. rewrite Hp. by case_decide; subst. }
  revert Hrec. unfold file_record.
  destruct (record_checks io f _ version) as [durable|e] eqn:Ec; [|intros [= <- <-]; by apply runs_refl].
  pose proof (checks_run s i io f version durable Hi Hu Ec) as Hcheck.
  destruct (persist io (Some (s_dir s)) version) as [dir o] eqn:Ep.
  assert (∃ d, dir = Some d) as [d ->] by (apply persist_floor in Ep as (d & -> & _); eauto).
  assert (∀ s', s_dir s' = s_dir s → s_phase s' i = PPersist version (negb (durable =? version)) →
    match o with
    | None => runs_to s' d i PIdle []
    | Some _ => if negb (durable =? version) then runs_to s' d i (PPruning version) [] else runs_to s' d i PIdle [version]
    end) as Hpersist by (intros s' Hd' Hi'; eapply persist_run; [exact Hi'|by rewrite Hd']).
  destruct (durable =? version), o as [[]|]; simpl in *; intros [= <- <-]; simpl;
    try (match goal with |- runs_to _ _ _ _ ?n => replace n with (n ++ []) by apply app_nil_r end;
         by eapply runs_trans; [exact Hcheck|exact Hpersist]).
  change [version] with ([version] ++ ([] ++ ([] ++ [] : list Z))).
  eapply runs_trans; [eapply runs_trans; [eapply runs_trans; [exact Hcheck|exact Hpersist]|]|].
  - intros s' Hd' Hi'. by apply (prune_below_run s' i version d io).
  - intros s' Hd' Hi'. eapply runs_step; [by eapply step_return|done..].
Qed.

Definition empty_sys : Sys :=
  {| s_dir := {| d_live := ∅; d_synced := ∅ |}; s_calls := ∅; s_streams := ∅; s_recorded := [] |}.
Definition unbounded : FileManifestFloor := {| fmf_bootstrap := 0; fmf_ceiling := None |}.

(** A process lists the directory and passes the checks of [record] on what it read. *)
Lemma rtc_checked s i names f version durable s' :
  s_phase s i = PIdle → is_u64 version → list_to_set names = d_live (s_dir s) →
  record_checks no_faults f (Some names) version = Ok durable →
  rtc step (at_phase (stream_opened s i) i (PPersist version (negb (durable =? version)))) s' → rtc step s s'.
Proof.
  intros Hi Hu Hn Hc Hrun. eapply rtc_l; [apply (step_open s i)|]. eapply rtc_l; [|exact Hrun].
  eapply step_check; [exact Hi|done|simpl; apply lookup_insert_eq| |exact Hc]. by split; simpl; rewrite Hn.
Qed.

(** The check and the write are two steps: a version checked before a higher one is recorded is still recorded
    after it, and its call returns [Ok] although the floor is above it by then. *)
Lemma late_record_returns : ∃ s, reachable s ∧ s_recorded s = [7; 10] ∧ 7 < durable_floor s.
Proof.
  eexists. split; [exists empty_sys; split; [done|]|].
  { eapply (rtc_checked empty_sys 0 [] unbounded 7 0); [done|by unfold is_u64|done|done|].
    eapply (rtc_checked _ 1 [] unbounded 10 0); [done|by unfold is_u64|done|done|].
    eapply rtc_l; [by eapply (step_create _ 1)|]. eapply rtc_l; [by eapply (step_sync _ 1)|]. simpl.
    eapply rtc_l; [by eapply (step_return _ 1)|].
    eapply rtc_l; [by eapply (step_create _ 0)|]. eapply rtc_l; [by eapply (step_sync _ 0)|]. simpl.
    eapply rtc_l; [by eapply (step_return _ 0)|]. apply rtc_refl. }
  split; [done|]. vm_compute. done.
Qed.

(** A listing can be overtaken: opened after [record(10)] returned, it need not yield the marker of 20, which is
    created after the opening, nor that of 10, which the recording of 20 prunes; the floor it reads is then 0. *)
Lemma listing_overtaken :
  ∃ s st, reachable s ∧ s_streams s !! 1%nat = Some st ∧ 10 ∈ st_recorded st ∧ may_yield st [] ∧
          file_min_version no_faults unbounded (Some []) = Ok 0.
Proof.
  eexists _, _. split; [exists empty_sys; split; [done|]|].
  { eapply (rtc_checked empty_sys 0 [] unbounded 10 0); [done|by unfold is_u64|done|done|].
    eapply rtc_l; [by eapply (step_create _ 0)|]. eapply rtc_l; [by eapply (step_sync _ 0)|]. simpl.
    eapply rtc_l; [by eapply (step_return _ 0)|]. eapply rtc_l; [apply (step_open _ 1)|].
    eapply (rtc_checked _ 0 [b#"10"] unbounded 20 10); [done|by unfold is_u64|by vm_compute|done|].
    eapply rtc_l; [by eapply (step_create _ 0)|]. eapply rtc_l; [by eapply (step_sync _ 0)|]. simpl.
    eapply rtc_l; [by eapply (step_prune _ 0 20 b#"10" 10)|]. apply rtc_refl. }
  split; [vm_compute; reflexivity|]. split; [by left|]. split; [|done]. apply (bool_decide_unpack (may_yield _ _)). vm_compute. exact I.
Qed.

(** ** Witnesses *)

Definition w_floor : FileManifestFloor := {| fmf_bootstrap := 2; fmf_ceiling := Some 100 |}.
Definition w_dir : Dir := {| d_live := {[b#"lost+found"; b#"3"]}; d_synced := ∅ |}.
Definition w_sys : Sys := {| s_dir := w_dir; s_calls := ∅; s_streams := ∅; s_recorded := [] |}.
(** Version 7 recorded over an unsynced 3, whose marker is not pruned; then a listing is opened, and a version 5
    appears before it is read. *)
Definition w_recorded : Sys :=
  returned (at_phase (with_dir (with_dir (at_phase (stream_opened w_sys 0) 0 (PPersist 7 true))
    (create_marker w_dir b#"7")) (sync_dir (create_marker w_dir b#"7"))) 0 PIdle) 7.
Definition w_opened : Sys := stream_opened w_recorded 1.
Definition w_after : Sys := with_dir w_opened (create_marker (s_dir w_opened) b#"5").
Definition w_stream : Stream :=
  observe (d_live (s_dir w_after)) {| st_recorded := [7]; st_floor := 7; st_kept := d_live (s_dir w_opened);
    st_seen := d_live (s_dir w_opened) |}.

Lemma recorded_version_survives_witness :
  7 ≤ st_floor w_stream ∧ st_floor w_stream ≤ durable_floor w_after ∧
  (st_floor w_stream ≤ 7 ∨ st_floor w_stream < durable_floor w_after) ∧
  fmf_bootstrap w_floor ≤ 7 ≤ Z.max (names_floor (st_seen w_stream)) (fmf_bootstrap w_floor) ∧
  Forall (λ w, w ≤ durable_floor w_after ∧ ∀ s', step w_after s' → w ≤ durable_floor s') (s_recorded w_after).
Proof.
  apply (recorded_version_survives w_after 1 w_stream 7 [b#"7"; b#"lost+found"; b#"3"] no_faults w_floor 7).
  - exists w_sys. split; [done|].
    eapply rtc_l; [apply (step_open w_sys 0)|].
    eapply rtc_l; [eapply (step_check _ 0 _ [b#"3"; b#"lost+found"] no_faults w_floor 7 3);
      [done|by unfold is_u64|vm_compute; reflexivity|apply (bool_decide_unpack (may_yield _ _)); vm_compute; exact I|by vm_compute]|].
    eapply rtc_l; [by eapply (step_create _ 0)|]. eapply rtc_l; [by eapply (step_sync _ 0)|].
    eapply rtc_l; [by eapply (step_return _ 0)|]. eapply rtc_l; [apply (step_open _ 1)|].
    eapply rtc_l; [apply (step_add _ b#"5")|]. vm_compute. apply rtc_refl.
  - vm_compute. reflexivity.
  - left.
  - apply (bool_decide_unpack (may_yield _ _)). vm_compute. exact I.
  - vm_compute. reflexivity.
Defined.

(** The directory cannot be synced: the marker is there, the call fails. *)
Definition w_no_sync : Io :=
  {| io_create_dir := true; io_read_dir := true; io_entry := λ _, true; io_create := true; io_file_sync := true;
     io_dir_open := true; io_dir_sync := false; io_prune_read := true; io_prune_entry := λ _, true;
     io_remove := λ _, true |}.

Lemma record_refines_steps_witness :
  ∃ s', rtc step w_sys s' ∧ s_dir s' = create_marker w_dir b#"7" ∧ (∀ j, s_phase s' j = s_phase w_sys j) ∧
        s_recorded s' = (if is_ok (Err (FloorNotPersisted b#"write trust-anchor floor") : Result unit TrustManifestError)
                         then [7] else []) ++ s_recorded w_sys.
Proof.
  apply (record_refines_steps w_sys 0 w_floor 7 w_no_sync).
  - reflexivity.
  - unfold is_u64, u64_MAX. lia.
  - vm_compute. reflexivity.
Defined.
