(* ===== verification/ClientCore.v ===== *)
(** * [mcp-re-client-core]: requests and responses

    What a client signs and what it makes of the answer: [request_signing_inputs.rs],
    [request.rs], [dpop_credential.rs], [binding_spec], [continuation_handles.rs] on the way out;
    [response_expectation.rs], [delegation_policy.rs], [delegated_evidence.rs],
    [execution_contract.rs], [result_classification.rs] and [response.rs] on the way back. *)

From S2P Require Import Prelude.
From S2P Require Import RustStr.
From S2P Require Import Externals.
From S2P Require Import Json.
From S2P Require Import Concrete.
From S2P Require Import CoreError.
From S2P Require Import CoreResolver.
From S2P Require Import HttpMessage.
From S2P Require Import SigBase.
From S2P Require Import Policy.
From S2P Require Import Blocks.
From S2P Require Import Body.
From S2P Require Import Floor.
From S2P Require Import Sign.
From S2P Require Import Full.
From S2P Require Import Envelope.
From S2P Require Import Delegation.
From S2P Require Import Rejection.
From S2P Require Import Chain.
From S2P Require Import Bodyless.
From S2P Require Import ClientTrust.

(** ** [request_signing_inputs.rs] *)

Record RequestSigningInputs := {
  ri_key_id : bytes;
  ri_audience : AudienceTuple;
  ri_artifact_bindings : list ArtifactBinding;
  ri_nonce : bytes;
  ri_created : Z;
  ri_expires : Z;
  ri_continuation : option HttpContinuation;
  ri_extra_headers : Headers;
  ri_admission : option (AdmissionBinding * bytes);
  ri_authorization_decision : option (ArtifactBinding * bytes);
}.

Definition RequestSigningInputs_new (key_id : bytes) (audience : AudienceTuple)
    (artifact_bindings : list ArtifactBinding) (nonce : bytes) (created expires : Z) : RequestSigningInputs :=
  {| ri_key_id := key_id; ri_audience := audience; ri_artifact_bindings := artifact_bindings; ri_nonce := nonce;
     ri_created := created; ri_expires := expires; ri_continuation := None; ri_extra_headers := [];
     ri_admission := None; ri_authorization_decision := None |}.
Definition with_headers (i : RequestSigningInputs) (headers : Headers) : RequestSigningInputs :=
  {| ri_key_id := ri_key_id i; ri_audience := ri_audience i; ri_artifact_bindings := ri_artifact_bindings i;
     ri_nonce := ri_nonce i; ri_created := ri_created i; ri_expires := ri_expires i;
     ri_continuation := ri_continuation i; ri_extra_headers := headers; ri_admission := ri_admission i;
     ri_authorization_decision := ri_authorization_decision i |}.
Definition with_continuation (i : RequestSigningInputs) (continuation : HttpContinuation) : RequestSigningInputs :=
  {| ri_key_id := ri_key_id i; ri_audience := ri_audience i; ri_artifact_bindings := ri_artifact_bindings i;
     ri_nonce := ri_nonce i; ri_created := ri_created i; ri_expires := ri_expires i;
     ri_continuation := Some continuation; ri_extra_headers := ri_extra_headers i; ri_admission := ri_admission i;
     ri_authorization_decision := ri_authorization_decision i |}.
Definition with_admission (i : RequestSigningInputs) (binding : AdmissionBinding) (assertion_jws : bytes)
  : RequestSigningInputs :=
  {| ri_key_id := ri_key_id i; ri_audience := ri_audience i; ri_artifact_bindings := ri_artifact_bindings i;
     ri_nonce := ri_nonce i; ri_created := ri_created i; ri_expires := ri_expires i;
     ri_continuation := ri_continuation i; ri_extra_headers := ri_extra_headers i;
     ri_admission := Some (binding, assertion_jws); ri_authorization_decision := ri_authorization_decision i |}.
Definition with_authorization_decision `{Base64, Sha2} (i : RequestSigningInputs) (jws : bytes) : RequestSigningInputs :=
  let binding := opaque_digest PdpDecision jws in
  {| ri_key_id := ri_key_id i; ri_audience := ri_audience i;
     ri_artifact_bindings := ri_artifact_bindings i ++ [binding];
     ri_nonce := ri_nonce i; ri_created := ri_created i; ri_expires := ri_expires i;
     ri_continuation := ri_continuation i; ri_extra_headers := ri_extra_headers i; ri_admission := ri_admission i;
     ri_authorization_decision := Some (binding, jws) |}.

Definition evidence_block (i : RequestSigningInputs) : HttpRequestEvidenceBlock :=
  {| rb_profile := PROFILE_TAG; rb_audience := ri_audience i; rb_artifact_bindings := ri_artifact_bindings i;
     rb_continuation := ri_continuation i; rb_admission := fst <$> ri_admission i;
     rb_admission_assertion := snd <$> ri_admission i;
     rb_authorization_decision := snd <$> ri_authorization_decision i |}.

(** ** [dpop_credential.rs] *)

Record DpopCredential := { dpop_token : bytes }.
Inductive EmptyDpopCredential : Type := EmptyDpop.

Definition dpop_present (token : bytes) : Result DpopCredential EmptyDpopCredential :=
  match token with [] => Err EmptyDpop | _ => Ok {| dpop_token := token |} end.
Definition dpop_binding `{Base64, Sha2} (c : DpopCredential) : ArtifactBinding := opaque_digest OauthDpop (dpop_token c).
Definition authorization_header_value (c : DpopCredential) : bytes := b#"Bearer " ++ dpop_token c.

(** ** [continuation_handles.rs] *)

Record ContinuationHandles := {
  ch_prev : RequestEvidenceDigest; ch_irr : RequestEvidenceDigest; ch_request_state : bytes }.
Record PartialContinuation := { pc_supplied : nat }.

Definition from_optional (prev_alg prev_value irr_alg irr_value request_state : option bytes)
  : Result (option ContinuationHandles) PartialContinuation :=
  let supplied := length (List.filter id [is_some prev_alg; is_some prev_value; is_some irr_alg;
                                          is_some irr_value; is_some request_state]) in
  match prev_alg, prev_value, irr_alg, irr_value, request_state with
  | None, None, None, None, None => Ok None
  | Some pa, Some pv, Some ia, Some iv, Some state =>
      Ok (Some {| ch_prev := {| digest_alg := pa; digest_value := pv |};
                  ch_irr := {| digest_alg := ia; digest_value := iv |}; ch_request_state := state |})
  | _, _, _, _, _ => Err {| pc_supplied := supplied |}
  end.
Definition handles_continuation `{Base64, Sha2} (h : ContinuationHandles) : HttpContinuation :=
  from_handles (ch_prev h) (ch_irr h) (ch_request_state h).

(** ** [binding_spec] *)

Inductive BindingForm : Type := OpaqueBytes | AuthzSystemReference | AuthorizationDecision.
#[global] Instance BindingForm_eq_dec : EqDecision BindingForm.
Proof. solve_decision. Defined.

Record BindingSpec := {
  bs_artifact_type : ArtifactType;
  bs_form : BindingForm;
  bs_material_b64url : bytes;
  bs_authorization_system_id : option bytes;
  bs_reference_scheme_id : option bytes;
  bs_reference_value : option bytes;
}.
Record ProvidedAuthorization := { pa_bindings : list ArtifactBinding; pa_decision : option bytes }.

Inductive BindingSpecRefusal : Type :=
  | NotSpecJson
  | MaterialNotBase64Url
  | OpaqueBindingIsHalfOfADecision
  | DecisionFormIsNotThisArtifactType
  | DecisionNotText
  | DecisionCarriesReferenceFields
  | MoreThanOneDecision
  | DpopIsNotProviderSupplied
  | BindingMalformed (e : HttpProfileError).

(** [core_projection.rs] and [refusal.rs]. *)
Definition refusal_core_error (refusal : BindingSpecRefusal) : McpReError :=
  match refusal with
  | OpaqueBindingIsHalfOfADecision | DecisionFormIsNotThisArtifactType => AuthorizationBindingTypeUnsupported
  | NotSpecJson | MaterialNotBase64Url | DecisionNotText | DecisionCarriesReferenceFields | MoreThanOneDecision
  | DpopIsNotProviderSupplied => AuthorizationBindingMalformed
  | BindingMalformed e => core_error e
  end.
Definition refusal_wire_code (refusal : BindingSpecRefusal) : bytes := wire_code (refusal_core_error refusal).

Section binding_spec.
Context `{Base64, Sha2}.

Definition take_decision (out : ProvidedAuthorization) (spec : BindingSpec) (material : bytes)
  : Result ProvidedAuthorization BindingSpecRefusal :=
  if negb (bool_decide (bs_artifact_type spec = PdpDecision)) then Err DecisionFormIsNotThisArtifactType
  else if is_some (bs_authorization_system_id spec) || is_some (bs_reference_scheme_id spec)
          || is_some (bs_reference_value spec)
  then Err DecisionCarriesReferenceFields
  else if is_some (pa_decision out) then Err MoreThanOneDecision
  else if negb (utf8_valid material) then Err DecisionNotText
  else Ok {| pa_bindings := pa_bindings out; pa_decision := Some material |}.

Definition binding_from (spec : BindingSpec) (material : bytes) : Result ArtifactBinding BindingSpecRefusal :=
  if bool_decide (bs_form spec = OpaqueBytes) && bool_decide (bs_artifact_type spec = PdpDecision)
  then Err OpaqueBindingIsHalfOfADecision
  else
    let binding := opaque_digest (bs_artifact_type spec) material in
    let binding :=
      if bool_decide (bs_form spec = AuthzSystemReference)
      then {| artifact_type := artifact_type binding; binding_type := ReferenceDigest;
              ab_digest_alg := ab_digest_alg binding; ab_digest_value := ab_digest_value binding;
              authorization_system_id := bs_authorization_system_id spec;
              reference_scheme_id := bs_reference_scheme_id spec; reference_value := bs_reference_value spec |}
      else binding in
    map_err BindingMalformed (artifact_validate binding) ;?
    Ok binding.

Fixpoint add_specs (out : ProvidedAuthorization) (specs : list BindingSpec)
  : Result ProvidedAuthorization BindingSpecRefusal :=
  match specs with
  | [] => Ok out
  | spec :: rest =>
      let? material := map_err (λ _, MaterialNotBase64Url) (b64url_decode (bs_material_b64url spec)) in
      if bool_decide (bs_artifact_type spec = OauthDpop) then Err DpopIsNotProviderSupplied
      else
        let? out :=
          match bs_form spec with
          | AuthorizationDecision => take_decision out spec material
          | _ => let? binding := binding_from spec material in
                 Ok {| pa_bindings := pa_bindings out ++ [binding]; pa_decision := pa_decision out |}
          end in
        add_specs out rest
  end.

(** Reading the list of specifications is the [Deserialize] derive. *)
Definition build_authorization `{SerdeJson, !Serde (list BindingSpec)} (bindings_json : bytes)
  : Result ProvidedAuthorization BindingSpecRefusal :=
  let? specs := ok_or (from_slice_as bindings_json) NotSpecJson in
  add_specs {| pa_bindings := []; pa_decision := None |} specs.
End binding_spec.

(** ** [request.rs] *)

Record SignedRequest := { sg_request : HttpRequest; sg_evidence : RequestEvidence }.

Definition MIN_NONCE_CHARS : Z := 22.

Definition reject_continuation_on_notification (inputs : RequestSigningInputs) : Result unit HttpProfileError :=
  if is_some (ri_continuation inputs) then Err (HPE.MalformedEvidence b#"continuation on a notification") else Ok tt.

Section request.
Context `{Base64, Sha2, Ed25519, SerdeJson, F64Carrier, !Serde HttpRequestEvidenceBlock}.

Definition envelope_of (id : option Value) (method : bytes) (params : gmap bytes Value) : gmap bytes Value :=
  <[b#"params" := Object params]> (<[b#"method" := JString method]> (<[b#"jsonrpc" := JString b#"2.0"]>
    (match id with Some id => {[ b#"id" := id ]} | None => ∅ end))).

Definition build_signed_request_with (id : option Value) (method : bytes) (params : gmap bytes Value)
    (target_uri : bytes) (inputs : RequestSigningInputs)
    (sign : HttpRequest → HttpRequestEvidenceBlock → HttpRequest * Result RequestEvidence HttpProfileError)
  : Result SignedRequest HttpProfileError :=
  if negb (bytes_eqb target_uri (aud_target_uri (ri_audience inputs))) then Err HPE.AudienceMismatch
  else if Z.of_nat (length (ri_nonce inputs)) <? MIN_NONCE_CHARS
  then Err (HPE.MalformedEvidence b#"nonce is below the 128-bit entropy floor")
  else if ri_expires inputs <=? ri_created inputs
  then Err (HPE.MalformedEvidence b#"signature window expires at or before created")
  else
    let? body := ok_or (to_vec (Object (envelope_of id method params)))
                   (HPE.MalformedEvidence b#"request body serialization") in
    let request := {| req_method := b#"POST"; req_target_uri := target_uri;
                      req_headers := (b#"content-type", b#"application/json") :: ri_extra_headers inputs;
                      req_body := body |} in
    let block := evidence_block inputs in
    request_block_validate block PROFILE_TAG ;?
    let '(request, signed) := sign request block in
    let? evidence := signed in
    Ok {| sg_request := request; sg_evidence := evidence |}.

Definition build_signed_request (id : Value) (method : bytes) (params : gmap bytes Value) (target_uri : bytes)
    (inputs : RequestSigningInputs) (signing_key : SigningKey) : Result SignedRequest HttpProfileError :=
  build_signed_request_with (Some id) method params target_uri inputs (λ request block,
    sign_request_full request block signing_key (ri_key_id inputs) (ri_created inputs) (ri_expires inputs)
      (ri_nonce inputs)).
Definition build_signed_request_with_signer (id : Value) (method : bytes) (params : gmap bytes Value)
    (target_uri : bytes) (inputs : RequestSigningInputs) (sign_base : base_signer)
  : Result SignedRequest HttpProfileError :=
  build_signed_request_with (Some id) method params target_uri inputs (λ request block,
    sign_request_full_with_signer request block sign_base (ri_key_id inputs) (ri_created inputs)
      (ri_expires inputs) (ri_nonce inputs)).
Definition build_signed_notification (method : bytes) (params : gmap bytes Value) (target_uri : bytes)
    (inputs : RequestSigningInputs) (signing_key : SigningKey) : Result SignedRequest HttpProfileError :=
  reject_continuation_on_notification inputs ;?
  build_signed_request_with None method params target_uri inputs (λ request block,
    sign_request_full request block signing_key (ri_key_id inputs) (ri_created inputs) (ri_expires inputs)
      (ri_nonce inputs)).
Definition build_signed_notification_with_signer (method : bytes) (params : gmap bytes Value)
    (target_uri : bytes) (inputs : RequestSigningInputs) (sign_base : base_signer)
  : Result SignedRequest HttpProfileError :=
  reject_continuation_on_notification inputs ;?
  build_signed_request_with None method params target_uri inputs (λ request block,
    sign_request_full_with_signer request block sign_base (ri_key_id inputs) (ri_created inputs)
      (ri_expires inputs) (ri_nonce inputs)).
Definition build_signed_tool_call (id : Value) (tool_name : bytes) (arguments : Value) (target_uri : bytes)
    (inputs : RequestSigningInputs) (signing_key : SigningKey) : Result SignedRequest HttpProfileError :=
  let params := <[b#"arguments" := arguments]> {[ b#"name" := JString tool_name ]} in
  build_signed_request id b#"tools/call" params target_uri inputs signing_key.
End request.

(** ** [response_expectation.rs] *)

Record ResponseExpectation := { re_request : HttpRequest; re_expected_issuer_kid : option bytes }.
Definition ResponseExpectation_new (request : HttpRequest) : ResponseExpectation :=
  {| re_request := request; re_expected_issuer_kid := None |}.
Definition for_signed (signed : SignedRequest) : ResponseExpectation := ResponseExpectation_new (sg_request signed).
Definition with_expected_issuer_kid (e : ResponseExpectation) (keyid : bytes) : ResponseExpectation :=
  {| re_request := re_request e; re_expected_issuer_kid := Some keyid |}.

(** ** [delegation_policy.rs] *)

Record DelegationPolicy := {
  dpo_verifier_audiences : list bytes;
  dpo_expected_audience_hash : bytes;
  dpo_accepted_epochs : list bytes;
  dpo_clock_skew : Z;
}.
Definition DelegationPolicy_new (verifier_audiences : list bytes) (expected_audience_hash : bytes)
    (accepted_epochs : list bytes) (max_clock_skew : Z) : DelegationPolicy :=
  {| dpo_verifier_audiences := verifier_audiences; dpo_expected_audience_hash := expected_audience_hash;
     dpo_accepted_epochs := accepted_epochs; dpo_clock_skew := Z.max 0 (Z.min max_clock_skew MAX_CLOCK_SKEW_BOUND) |}.
Definition bounded_clock_skew (p : DelegationPolicy) : Z := dpo_clock_skew p.
Definition policy_verifier_policy (p : DelegationPolicy) : VerifierPolicy :=
  default VerifierPolicy_default (result_ok (VerifierPolicy_new [b#"ed25519"] (bounded_clock_skew p))).
(** The two arguments [with_expectations] passes on. *)
Definition expectations_of (p : DelegationPolicy) : DelegationExpectations :=
  {| de_verifier_audiences := dpo_verifier_audiences p; de_expected_audience_hash := dpo_expected_audience_hash p;
     de_accepted_epochs := dpo_accepted_epochs p; de_max_clock_skew := bounded_clock_skew p |}.
Definition with_expectations {T} (p : DelegationPolicy) (f : DelegationExpectations → VerifierPolicy → T) : T :=
  f (expectations_of p) (policy_verifier_policy p).

(** ** [delegated_evidence.rs] *)

Section evidence.
Context `{Ed25519}.

Inductive DelegatedResponseEvidence : Type :=
  | Bound (v : VerifiedDelegatedMcpResponse)
  | Unbound (v : VerifiedDelegatedUnboundResponse).

Definition is_bound (e : DelegatedResponseEvidence) : bool := match e with Bound _ => true | Unbound _ => false end.
Definition accepted_signer (e : DelegatedResponseEvidence) : AcceptedResponseSigner :=
  match e with
  | Bound v => bsf_accepted_signer (vdr_signature_facts v)
  | Unbound v => usf_accepted_signer (vdu_signature_facts v)
  end.
Definition response_signature_base_digest (e : DelegatedResponseEvidence) : RequestEvidence :=
  match e with
  | Bound v => bsf_response_signature_base_digest (vdr_signature_facts v)
  | Unbound v => usf_response_signature_base_digest (vdu_signature_facts v)
  end.
Definition evidence_server_signer (e : DelegatedResponseEvidence) : ActorIdentity := ars_identity (accepted_signer e).
Definition delegation_issuer_kid (e : DelegatedResponseEvidence) : bytes :=
  match e with Bound v => vdr_delegation_issuer_kid v | Unbound v => vdu_delegation_issuer_kid v end.
End evidence.

(** ** [execution_contract.rs] *)

Inductive ExecutionStatus : Type :=
  | ExecUnstated | ExecNotExecuted | ExecPossiblyExecuted | ExecUnrecognized (token : bytes).
Inductive RetrySafety : Type :=
  | RetryUnstated | UnsafeWithoutReconciliation | UnsafeWithoutNewElicitation | RetryUnrecognized (token : bytes).
Record ExecutionContract := {
  ec_execution_status : option bytes;
  ec_retry_safety : option bytes;
  ec_continuation_status : option bytes;
  ec_retention_status : option bytes;
}.
Definition ExecutionContract_default : ExecutionContract :=
  {| ec_execution_status := None; ec_retry_safety := None; ec_continuation_status := None; ec_retention_status := None |}.

Definition is_stated (c : ExecutionContract) : bool :=
  is_some (ec_execution_status c) || is_some (ec_retry_safety c) || is_some (ec_continuation_status c)
  || is_some (ec_retention_status c).
Definition execution (c : ExecutionContract) : ExecutionStatus :=
  match ec_execution_status c with
  | None => ExecUnstated
  | Some s => if bytes_eqb s b#"not_executed" then ExecNotExecuted
              else if bytes_eqb s b#"possibly_executed" then ExecPossiblyExecuted else ExecUnrecognized s
  end.
Definition retry (c : ExecutionContract) : RetrySafety :=
  match ec_retry_safety c with
  | None => RetryUnstated
  | Some s => if bytes_eqb s b#"unsafe_without_reconciliation" then UnsafeWithoutReconciliation
              else if bytes_eqb s b#"unsafe_without_new_elicitation" then UnsafeWithoutNewElicitation
              else RetryUnrecognized s
  end.
Definition retry_is_refused (c : ExecutionContract) : bool :=
  match retry c with RetryUnstated => false | _ => true end
  || match execution c with ExecPossiblyExecuted => true | _ => false end.
Definition continuation_consumed (c : ExecutionContract) : bool :=
  match ec_continuation_status c with Some s => bytes_eqb s b#"consumed" | None => false end.
Definition retention_failed (c : ExecutionContract) : bool :=
  match ec_retention_status c with Some s => bytes_eqb s b#"failed" | None => false end.

(** [Value::pointer] through objects; an array on the way has no member of these names. *)
Definition pointer `{SerdeJson} (v : Value) (path : list bytes) : option Value :=
  foldl (λ o k, o ≫= λ v, json_get v k) (Some v) path.

Definition rejection_receipt `{SerdeJson} (body : bytes) : option bytes * ExecutionContract :=
  match from_slice body with
  | None => (None, ExecutionContract_default)
  | Some value =>
      match pointer value [b#"error"; b#"data"; b#"mcp_re_error"] with
      | None => (None, ExecutionContract_default)
      | Some error =>
          let field name := json_get error name ≫= as_str in
          (field b#"wire_code",
           {| ec_execution_status := field b#"execution_status"; ec_retry_safety := field b#"retry_safety";
              ec_continuation_status := field b#"continuation_status";
              ec_retention_status := field b#"retention_status" |})
      end
  end.

(** ** [result_classification.rs] *)

Inductive ResultClass : Type := ClassTerminal | ClassInputRequired | ClassUnrecognized.
Definition classify_result `{JsonTree} (result : option (json Number)) : ResultClass :=
  match classify_result_type result with
  | InputRequired => ClassInputRequired
  | Complete => ClassTerminal
  | Unrecognized => ClassUnrecognized
  end.
Definition continuation_state `{JsonTree} (body : bytes) : Result (option bytes) HttpProfileError :=
  input_required_state body.
Definition continuation_state_of `{JsonTree} (result : option (json Number)) : Result (option bytes) HttpProfileError :=
  input_required_state_of result.

(** ** [response.rs] *)

Definition check_expected_issuer (pinned : option bytes) (issuer_kid : bytes) : Result unit HttpProfileError :=
  match pinned with
  | None => Ok tt
  | Some pinned => if bytes_eqb issuer_kid pinned then Ok tt else Err HPE.ResponseBindingMismatch
  end.

Inductive DelegatedOutcome : Type :=
  | Success
  | OutcomeRejection (wire_code : option bytes) (execution : ExecutionContract).

Definition RECEIVED_DIGEST_ALG : bytes := b#"sha-256-received".

Section response.
Context `{Base64, Sha2, Ed25519, SerdeJson}.
Context `{!Serde DelegationHeader, !Serde DelegationClaims, !Serde HttpResponseEvidenceBlock}.

Record VerifiedDelegatedResponse := {
  vdresp_verified : DelegatedResponseEvidence; vdresp_outcome : DelegatedOutcome }.

Definition check_unbound_receipt_is_about_this_request (response : HttpResponse) (request : HttpRequest)
  : Result unit HttpProfileError :=
  let? body := ok_or (from_slice (resp_body response)) (HPE.MalformedEvidence b#"rejection receipt body") in
  let? evidence := ok_or (json_get body b#"_meta" ≫= λ meta, json_get meta RESPONSE_EVIDENCE_BLOCK_KEY ≫= λ block,
                          json_get block b#"request_evidence")
                     (HPE.MalformedEvidence b#"rejection receipt carries no request_evidence") in
  match json_get evidence b#"digest_alg" ≫= as_str, json_get evidence b#"digest_value" ≫= as_str with
  | Some alg, Some value =>
      if negb (bytes_eqb alg RECEIVED_DIGEST_ALG) then Err HPE.ResponseBindingMismatch
      else if negb (bytes_eqb value (content_digest_sha256 (req_body request)))
      then Err HPE.ResponseBindingMismatch
      else Ok tt
  | _, _ => Err (HPE.MalformedEvidence b#"rejection receipt request_evidence is not a digest")
  end.

Context {T : Type} `{!RevocationSource T, !DelegatedResponseTrust T}.

Definition verify_delegated_response_under (response : HttpResponse) (trust : T)
    (expectation : ResponseExpectation) (expect : DelegationExpectations) (verifier_policy : VerifierPolicy)
    (now : Z) : Result VerifiedDelegatedResponse HttpProfileError :=
  let pinned := re_expected_issuer_kid expectation in
  let verifier := {| v_policy := verifier_policy;
                     v_resolve_actor := λ kid slot, resolve_issuer trust kid slot now |} in
  let bound := verify_delegated_bound_response verifier response (re_request expectation) expect
                 (is_revoked trust) now in
  if (200 <=? resp_status response) && (resp_status response <? 300)
  then
    let? verified := bound in
    check_expected_issuer pinned (vdr_delegation_issuer_kid verified) ;?
    Ok {| vdresp_verified := Bound verified; vdresp_outcome := Success |}
  else
    match bound with
    | Ok verified =>
        check_expected_issuer pinned (vdr_delegation_issuer_kid verified) ;?
        let '(code, execution) := rejection_receipt (resp_body response) in
        Ok {| vdresp_verified := Bound verified; vdresp_outcome := OutcomeRejection code execution |}
    | Err bound_err =>
        match verify_delegated_unbound_response verifier response expect (is_revoked trust) now with
        | Ok verified =>
            check_expected_issuer pinned (vdu_delegation_issuer_kid verified) ;?
            check_unbound_receipt_is_about_this_request response (re_request expectation) ;?
            let '(code, execution) := rejection_receipt (resp_body response) in
            Ok {| vdresp_verified := Unbound verified; vdresp_outcome := OutcomeRejection code execution |}
        | Err _ => Err bound_err
        end
    end.

Definition verify_delegated_response (response : HttpResponse) (trust : T) (expectation : ResponseExpectation)
    (policy : DelegationPolicy) (now : Z) : Result VerifiedDelegatedResponse HttpProfileError :=
  with_expectations policy (λ expect verifier_policy,
    verify_delegated_response_under response trust expectation expect verifier_policy now).

Definition client_accepted_202_pinned (response : HttpResponse) (request : HttpRequest) (trust : T)
    (policy : DelegationPolicy) (expected_issuer_kid : option bytes) (now : Z)
  : Result ResolvedActor HttpProfileError :=
  let? acknowledged := with_expectations policy (λ expect verifier_policy,
    verify_delegated_accepted_202 response request
      {| v_policy := verifier_policy; v_resolve_actor := λ kid slot, resolve_issuer trust kid slot now |}
      expect (is_revoked trust) now) in
  check_expected_issuer expected_issuer_kid (ad_issuer_kid acknowledged) ;?
  Ok (ad_actor acknowledged).
Definition client_accepted_202 (response : HttpResponse) (request : HttpRequest) (trust : T)
    (policy : DelegationPolicy) (now : Z) : Result ResolvedActor HttpProfileError :=
  client_accepted_202_pinned response request trust policy None now.
End response.

(** ** The caller's evidence *)

(** All five handles or none: anything in between is refused with their number. *)
Lemma from_optional_exact pa pv ia iv st :
  let given := omap id [pa; pv; ia; iv; st] in
  match from_optional pa pv ia iv st with
  | Ok None => given = []
  | Ok (Some h) => given = [digest_alg (ch_prev h); digest_value (ch_prev h); digest_alg (ch_irr h);
                            digest_value (ch_irr h); ch_request_state h]
  | Err e => pc_supplied e = length given ∧ (0 < length given < 5)%nat
  end.
Proof. destruct pa, pv, ia, iv, st; simpl; try done; (split; [done|lia]). Qed.

Section provided.
Context `{Base64, Sha2}.

Definition provider_binding (b : ArtifactBinding) : Prop :=
  artifact_validate b = Ok tt ∧ artifact_type b ≠ OauthDpop ∧ is_pdp_opaque b = false.

Lemma binding_from_Ok spec material b :
  bs_artifact_type spec ≠ OauthDpop → bs_form spec ≠ AuthorizationDecision →
  binding_from spec material = Ok b → provider_binding b.
Proof.
  unfold binding_from, provider_binding, is_pdp_opaque. intros Hd Hf.
  destruct (bool_decide _ && bool_decide _) eqn:Ep; [done|].
  destruct (artifact_validate _) as [[]|] eqn:Ev; [|done]. simpl. intros [= <-]. split; [done|].
  destruct (bs_form spec); simpl in *; [|by rewrite andb_false_r|done]. by rewrite andb_true_r.
Qed.

(** What a provider hands over: bindings that are valid, none of them the DPoP credential or half of a decision. *)
Lemma build_authorization_Ok `{SerdeJson, !Serde (list BindingSpec)} text out :
  build_authorization text = Ok out → Forall provider_binding (pa_bindings out).
Proof.
  unfold build_authorization. destruct (from_slice_as text) as [specs|]; [|done]. simpl.
  assert (Forall provider_binding (pa_bindings {| pa_bindings := []; pa_decision := None |})) as Hacc by constructor.
  revert Hacc. generalize {| pa_bindings := @nil ArtifactBinding; pa_decision := @None bytes |}.
  induction specs as [|spec rest IH]; intros acc Hacc; simpl; [by intros [= <-]|].
  destruct (b64url_decode _) as [material|]; [|done]. simpl. case_bool_decide as Hd; [done|].
  destruct (bs_form spec) eqn:Hf.
  1,2: destruct (binding_from spec material) as [b|] eqn:Hb; [|done]; apply IH; simpl; apply Forall_app; split; [done|];
    constructor; [|constructor]; apply (binding_from_Ok spec material); [done|by rewrite Hf|done].
  destruct (take_decision acc spec material) as [acc'|] eqn:Ht; [|done]. apply IH.
  unfold take_decision in Ht. inv_ok. done.
Qed.

(** Bound to a request, its decision is the one the block's own rule asks for. *)
Lemma provided_decision_validates `{SerdeJson, !Serde (list BindingSpec)} text out key_id audience nonce created expires jws :
  build_authorization text = Ok out → pa_decision out = Some jws → Z.of_nat (length jws) ≤ MAX_AUTHORIZATION_DECISION_LEN →
  validate_authorization_decision
    (evidence_block (with_authorization_decision
       (RequestSigningInputs_new key_id audience (pa_bindings out) nonce created expires) jws)) = Ok tt.
Proof.
  intros HF%build_authorization_Ok _ Hlen. unfold validate_authorization_decision. cbn -[length opaque_digest List.filter].
  rewrite (proj2 (Z.ltb_ge _ _)) by lia. rewrite List.filter_app.
  assert (List.filter is_pdp_opaque (pa_bindings out) = []) as ->; [|done].
  induction HF as [|b l (_ & _ & Hb) _ IH]; [done|]. simpl. by rewrite Hb.
Qed.
End provided.

(** ** What an accepted response establishes *)

Section authorized.
Context `{Base64, Sha2, Ed25519, SerdeJson}.
Context `{!Serde DelegationHeader, !Serde DelegationClaims, !Serde HttpResponseEvidenceBlock}.

(** The body carries a credential, signed by the root that [resolve] yields for its issuer, that is
    fresh, in scope, of an accepted epoch and not revoked, and that delegates to this signer. *)
Definition authorized_by (resolve : actor_resolver) (revoked : bytes → bool) (expect : DelegationExpectations) (now : Z)
    (body : bytes) (signer : AcceptedResponseSigner) (issuer_kid : bytes) (root : ResolvedActor) : Prop :=
  ∃ block credential header claims,
    extract_meta_block body RESPONSE_EVIDENCE_BLOCK_KEY b#"response evidence block" = Ok block ∧
    sb_server_delegation block = Some credential ∧ ars_identity signer = sb_server_signer block ∧
    resolve issuer_kid SlotResponse = Resolved root ∧ ra_slot root = SlotResponse ∧
    credential_signed_by (ra_verification_key root) credential header claims ∧ header_names header claims ∧
    dc_issuer_kid claims = issuer_kid ∧
    delegation_fresh claims (chain_params block expect now) ∧
    delegation_in_scope claims (chain_params block expect now) ∧
    delegation_current claims (chain_params block expect now) revoked ∧
    delegated_key claims = Ok (ars_verification_key signer) ∧
    ai_keyid (sb_server_signer block) = dc_delegated_kid claims.

(** The delegated key's signature over this message: it covers a content digest that is the one of
    this body, and its window admits [now]. *)
Definition signed_response (policy : VerifierPolicy) (now : Z) (signer : AcceptedResponseSigner) (response : HttpResponse)
    (source : SourceMessage) (digest : RequestEvidence) : Prop :=
  ∃ cs p base sig digest_header created expires nonce alg,
    required_header (resp_headers response) b#"content-digest" = Ok digest_header ∧
    verify_content_digest_sha256 digest_header (resp_body response) = Ok tt ∧
    signature_base cs p source = Ok base ∧
    check_params p policy now false = Ok (created, expires, nonce, ai_keyid (ars_identity signer), alg) ∧
    verify_strict (vk_inner (ars_verification_key signer)) base sig = true ∧
    digest = from_response_signature_base base ∧ Forall (λ n, component_new n ∈ cs) REQUIRED_RESPONSE_COMPONENTS.

Ltac open_accepted :=
  inv_ok; bool_prop; str_prop;
  repeat match goal with
  | Hc : chain_to_root _ _ _ _ _ _ = Ok _ |- _ =>
      apply chain_to_root_Ok in Hc as (header & claims & root & Hsig & Hn & Hr & Hs & Hf & Hsc & Hcu & key & Hk & ->)
  | Hv : verify_under _ _ _ _ _ = Ok _ |- _ =>
      apply verify_under_Ok in Hv; apply verify_ed25519_with_Ok in Hv as (sig & _ & _ & Hstrict)
  | Hq : require_components _ _ _ = Ok _ |- _ => apply require_components_Ok in Hq as [Hq1 Hq2]
  | u : unit |- _ => destruct u
  end; simpl in *; subst.

Lemma bound_response_authorized response request resolve policy expect revoked now v :
  delegated_bound_response response request resolve policy expect revoked now = Ok v →
  let signer := bsf_accepted_signer (vdr_signature_facts v) in
  (∃ root, authorized_by resolve revoked expect now (resp_body response) signer (vdr_delegation_issuer_kid v) root) ∧
  signed_response policy now signer response (SourceResponse response request) (bsf_response_signature_base_digest (vdr_signature_facts v)) ∧
  request_evidence_of request = Ok (bound_request_evidence (vdr_request_evidence_agreement v)) ∧
  body_request_evidence (vdr_request_evidence_agreement v) = bound_request_evidence (vdr_request_evidence_agreement v).
Proof.
  unfold delegated_bound_response. intros Hd. open_accepted. split_and!.
  - exists root. eexists _, _, header, claims. split_and!; try eassumption; done.
  - eexists _, _, _, sig, _, _, _, _, _. split_and!; try eassumption; try done. cbn [ars_identity].
    by match goal with Hid : ai_keyid _ = dc_delegated_kid _ |- _ => rewrite Hid end; eassumption.
  - done.
  - by apply evidence_eta.
Qed.

Lemma unbound_response_authorized response resolve policy expect revoked now v :
  delegated_unbound_response response resolve policy expect revoked now = Ok v →
  let signer := usf_accepted_signer (vdu_signature_facts v) in
  (∃ root, authorized_by resolve revoked expect now (resp_body response) signer (vdu_delegation_issuer_kid v) root) ∧
  signed_response policy now signer response (SourceResponseOnly response) (usf_response_signature_base_digest (vdu_signature_facts v)).
Proof.
  unfold delegated_unbound_response. intros Hd. open_accepted. split.
  - exists root. eexists _, _, header, claims. split_and!; try eassumption; done.
  - eexists _, _, _, sig, _, _, _, _, _. split_and!; try eassumption; try done. cbn [ars_identity].
    by match goal with Hid : ai_keyid _ = dc_delegated_kid _ |- _ => rewrite Hid end; eassumption.
Qed.
End authorized.

(** ** Reading a receipt *)

(** The receipt names the digest of the bytes of [request]'s body, as received. *)
Definition receipt_about `{Base64, Sha2, SerdeJson} (receipt : bytes) (request : HttpRequest) : Prop :=
  ∃ body evidence, from_slice receipt = Some body ∧
    (json_get body b#"_meta" ≫= λ meta, json_get meta RESPONSE_EVIDENCE_BLOCK_KEY ≫= λ block,
     json_get block b#"request_evidence") = Some evidence ∧
    json_get evidence b#"digest_alg" ≫= as_str = Some RECEIVED_DIGEST_ALG ∧
    json_get evidence b#"digest_value" ≫= as_str = Some (content_digest_sha256 (req_body request)).

Lemma check_unbound_receipt_Ok `{Base64, Sha2, SerdeJson} response request u :
  check_unbound_receipt_is_about_this_request response request = Ok u ↔ receipt_about (resp_body response) request.
Proof.
  destruct u. unfold check_unbound_receipt_is_about_this_request, receipt_about. split.
  - intros Hc. destruct (from_slice (resp_body response)) as [body|]; [|done]. cbn [ok_or] in Hc.
    destruct (json_get body b#"_meta" ≫= _) as [evidence|] eqn:He; [|done]. cbn [ok_or] in Hc.
    destruct (json_get evidence b#"digest_alg" ≫= as_str) eqn:Ea; [|done].
    destruct (json_get evidence b#"digest_value" ≫= as_str) eqn:Ev; [|done]. inv_ok. str_prop. subst.
    by exists body, evidence.
  - intros (body & evidence & Hb & He & Ha & Hv). rewrite Hb. cbn [ok_or]. rewrite He. cbn [ok_or].
    rewrite Ha, Hv, !bytes_eqb_refl. done.
Qed.

(** What a reason states, as the client reads it. *)
Definition stated_contract (reason : RejectionReason) : ExecutionContract :=
  let members := default [] (retry_semantics (rr_wire_code reason) (rr_execution reason)) in
  {| ec_execution_status := assoc b#"execution_status" members; ec_retry_safety := assoc b#"retry_safety" members;
     ec_continuation_status := assoc b#"continuation_status" members;
     ec_retention_status := assoc b#"retention_status" members |}.

(** Members inserted one by one, no name twice. *)
Lemma foldl_insert_lookup {A B} (f : A → B) (m : gmap bytes B) l k :
  NoDup (l.*1) →
  foldl (λ t kv, <[kv.1 := f kv.2]> t) m l !! k = match assoc k l with Some v => Some (f v) | None => m !! k end.
Proof.
  revert m. induction l as [|[k' v] l IH]; intros m; [done|]. intros [Hn Hd]%NoDup_cons. cbn [foldl fst snd assoc].
  rewrite IH by done. destruct (bytes_eqb k' k) eqn:E; str_prop; subst.
  - assert (assoc k l = None) as ->; [|by rewrite lookup_insert_eq].
    clear -Hn. induction l as [|[k' v'] l IH]; [done|]. simpl in *. apply not_elem_of_cons in Hn as [Hk Hn].
    rewrite (proj2 (bytes_eqb_false _ _)) by congruence. auto.
  - by rewrite lookup_insert_ne.
Qed.

Lemma rejection_error_field `{JsonTree} reason k :
  k ≠ b#"wire_code" →
  rejection_error reason !! k = JString <$> assoc k (default [] (retry_semantics (rr_wire_code reason) (rr_execution reason))).
Proof.
  intros Hk. unfold rejection_error. rewrite foldl_insert_lookup.
  - destruct (assoc k _); [done|]. by rewrite lookup_singleton_ne.
  - unfold retry_semantics. repeat case_match; cbn [default id fmap list_fmap fst]; try apply NoDup_nil_2;
      (eapply bool_decide_unpack; vm_compute; exact I).
Qed.

(** A body is read by its error object alone. *)
Lemma rejection_receipt_reads `{JsonTreeLaws, !SerdeJsonLaws} body obj reason :
  from_slice body = Some (Object obj) →
  (obj !! b#"error" ≫= λ err, json_get err b#"data" ≫= λ data, json_get data b#"mcp_re_error") =
    Some (Object (rejection_error reason)) →
  rejection_receipt body = (Some (rr_wire_code reason), stated_contract reason).
Proof.
  intros Hb He. unfold rejection_receipt. rewrite Hb. unfold pointer. cbn [foldl]. cbn [mbind option_bind] in *.
  rewrite json_get_Object. destruct (obj !! b#"error") as [err|]; [|done]. cbn [mbind option_bind] in *.
  destruct (json_get err b#"data") as [data|]; [|done]. cbn [mbind option_bind] in *.
  rewrite He, !json_get_Object, rejection_error_code, !rejection_error_field by done. cbn [mbind option_bind].
  rewrite as_str_JString. unfold stated_contract. do 2 f_equal; destruct (assoc _ _); cbn; by rewrite ?as_str_JString.
Qed.

Lemma rejection_receipt_of `{JsonTreeLaws, !SerdeJsonLaws} body obj id reason :
  from_slice body = Some (Object obj) →
  (∀ obj0, from_slice (rejection_body id reason) = Some (Object obj0) → obj !! b#"error" = obj0 !! b#"error") →
  rejection_receipt body = (Some (rr_wire_code reason), stated_contract reason).
Proof.
  intros Hb Hsame. apply (rejection_receipt_reads _ obj); [done|].
  unfold rejection_body in Hsame. rewrite from_slice_to_string in Hsame. rewrite (Hsame _ eq_refl).
  rewrite !lookup_insert_ne, lookup_singleton_eq by done. cbn [mbind option_bind].
  rewrite json_get_Object, !lookup_insert_ne, lookup_singleton_eq by done. cbn [mbind option_bind].
  by rewrite json_get_Object, lookup_singleton_eq.
Qed.

(** A stated contract is the one that refuses a blind retry. *)
Lemma stated_contract_refuses reason :
  retry_is_refused (stated_contract reason) = true ↔
    rr_execution reason ∈ [ApprovalSpentNothingExecuted; NothingExecutedRetentionUnresolved; PossiblyExecuted] ∨
    rr_wire_code reason = wire_code EvidenceRetentionIndeterminate.
Proof.
  rewrite <-(bytes_eqb_true (rr_wire_code reason)), !elem_of_cons, elem_of_nil.
  unfold retry_is_refused, stated_contract, retry_semantics.
  destruct (rr_execution reason), (bytes_eqb (rr_wire_code reason) _);
    match goal with |- ?b = true ↔ _ => let v := eval vm_compute in b in change b with v end; naive_solver.
Qed.

(** The policy of a client is the verifier's own, at the clamped skew. *)
Lemma policy_verifier_policy_new audiences hash epochs skew :
  policy_verifier_policy (DelegationPolicy_new audiences hash epochs skew) =
    {| vp_algorithms := [Ed25519Alg]; vp_max_clock_skew := Z.max 0 (Z.min skew MAX_CLOCK_SKEW_BOUND);
       vp_max_signature_validity := DEFAULT_MAX_SIGNATURE_VALIDITY; vp_mcp_transport := None |}.
Proof.
  unfold policy_verifier_policy, bounded_clock_skew, VerifierPolicy_new. simpl dpo_clock_skew.
  replace ((0 <=? _) && _) with true by (symmetry; unfold MAX_CLOCK_SKEW_BOUND; apply andb_true_iff; rewrite !Z.leb_le; lia).
  vm_compute (resolve_algorithms _ _). done.
Qed.

(** ** The verdict on a response *)

Section verdict.
Context `{Base64, Sha2, Ed25519, SerdeJson}.
Context `{!Serde DelegationHeader, !Serde DelegationClaims, !Serde HttpResponseEvidenceBlock}.
Context {T : Type} `{!RevocationSource T, !DelegatedResponseTrust T}.

Definition success_status (response : HttpResponse) : bool := (200 <=? resp_status response) && (resp_status response <? 300).

Lemma check_expected_issuer_Ok pinned kid u :
  check_expected_issuer pinned kid = Ok u ↔ (∀ p, pinned = Some p → kid = p).
Proof.
  destruct u. unfold check_expected_issuer. destruct pinned as [p|]; [|naive_solver].
  destruct (bytes_eqb kid p) eqn:E; str_prop; naive_solver.
Qed.

(** The response is the authorized signer's statement about this request. *)
Definition about_request (policy : VerifierPolicy) (now : Z) (response : HttpResponse) (request : HttpRequest)
    (e : DelegatedResponseEvidence) : Prop :=
  match e with
  | Bound b =>
      signed_response policy now (accepted_signer e) response (SourceResponse response request) (response_signature_base_digest e) ∧
      request_evidence_of request = Ok (bound_request_evidence (vdr_request_evidence_agreement b)) ∧
      body_request_evidence (vdr_request_evidence_agreement b) = bound_request_evidence (vdr_request_evidence_agreement b)
  | Unbound _ =>
      signed_response policy now (accepted_signer e) response (SourceResponseOnly response) (response_signature_base_digest e) ∧
      success_status response = false ∧ receipt_about (resp_body response) request
  end.

Definition outcome_of (response : HttpResponse) : DelegatedOutcome :=
  if success_status response then Success
  else OutcomeRejection (fst (rejection_receipt (resp_body response))) (snd (rejection_receipt (resp_body response))).

Lemma verify_delegated_response_Ok response (trust : T) expectation policy now v :
  verify_delegated_response response trust expectation policy now = Ok v →
  (∃ root, authorized_by (λ kid slot, resolve_issuer trust kid slot now) (is_revoked trust) (expectations_of policy) now
             (resp_body response) (accepted_signer (vdresp_verified v)) (delegation_issuer_kid (vdresp_verified v)) root) ∧
  (∀ pinned, re_expected_issuer_kid expectation = Some pinned → delegation_issuer_kid (vdresp_verified v) = pinned) ∧
  about_request (policy_verifier_policy policy) now response (re_request expectation) (vdresp_verified v) ∧
  vdresp_outcome v = outcome_of response.
Proof.
  unfold verify_delegated_response, with_expectations, verify_delegated_response_under, outcome_of.
  fold (success_status response). destruct (rejection_receipt (resp_body response)) as [code contract].
  cbn [fst snd]. intros Hv.
  destruct (verify_delegated_bound_response _ response _ _ _ _) as [b|] eqn:Hb.
  - assert (∃ o, v = {| vdresp_verified := Bound b; vdresp_outcome := o |} ∧ o = (if success_status response then Success else OutcomeRejection code contract) ∧
      check_expected_issuer (re_expected_issuer_kid expectation) (vdr_delegation_issuer_kid b) = Ok tt) as (o & -> & -> & Hpin).
    { destruct (success_status response); inv_ok; repeat match goal with u : unit |- _ => destruct u end; eauto. }
    apply bound_response_authorized in Hb as (Hroot & Hsig & Hreq & Hbody). simpl.
    split_and!; [done|by apply check_expected_issuer_Ok with tt|done..].
  - destruct (success_status response) eqn:Es; [done|].
    destruct (verify_delegated_unbound_response _ response _ _ _) as [u|] eqn:Hu; [|done].
    inv_ok. simpl.
    apply unbound_response_authorized in Hu as (Hroot & Hsig).
    split_and!; try done; [by eapply check_expected_issuer_Ok|by eapply check_unbound_receipt_Ok].
Qed.
End verdict.

(** ** What a built request is *)

(** The caller adds no second content type, and a method header, if any, names the method. *)
Definition fits_headers (method : bytes) (headers : Headers) : Prop :=
  filter (header_named b#"content-type") headers = [] ∧
  (filter (header_named MCP_METHOD_HEADER) headers = [] ∨
   ∃ k v, filter (header_named MCP_METHOD_HEADER) headers = [(k, v)] ∧ trim v = method).

Section built.
Context `{Base64, Sha2, Ed25519, SerdeJson, F64Carrier, !Serde HttpRequestEvidenceBlock}.

Definition unsigned_request (inputs : RequestSigningInputs) (body : bytes) : HttpRequest :=
  {| req_method := b#"POST"; req_target_uri := aud_target_uri (ri_audience inputs);
     req_headers := (b#"content-type", b#"application/json") :: ri_extra_headers inputs; req_body := body |}.

(** The guards, each of which a built request has passed. *)
Lemma build_signed_request_with_Ok id method params uri inputs sign signed :
  build_signed_request_with id method params uri inputs sign = Ok signed ↔
    uri = aud_target_uri (ri_audience inputs) ∧ MIN_NONCE_CHARS ≤ Z.of_nat (length (ri_nonce inputs)) ∧
    ri_created inputs < ri_expires inputs ∧
    request_block_validate (evidence_block inputs) PROFILE_TAG = Ok tt ∧
    ∃ body, to_vec (Object (envelope_of id method params)) = Some body ∧
      sign (unsigned_request inputs body) (evidence_block inputs) = (sg_request signed, Ok (sg_evidence signed)).
Proof.
  unfold build_signed_request_with, unsigned_request. split.
  - destruct (bytes_eqb uri _) eqn:Eu; [|done]. destruct (_ <? MIN_NONCE_CHARS) eqn:En; [done|].
    destruct (ri_expires inputs <=? ri_created inputs) eqn:Ew; [done|]. destruct (to_vec _) as [body|]; [|done].
    cbn [negb ok_or]. destruct (request_block_validate _ _) as [[]|]; [|done].
    destruct (sign _ _) as [r [ev|]] eqn:Es; [|done]. intros [= <-]. str_prop. subst. split_and!; [done..|]. by exists body.
  - intros (-> & Hn & Hw & Hv & body & Hbody & Hs). rewrite bytes_eqb_refl. cbn [negb].
    rewrite (proj2 (Z.ltb_ge _ _) Hn), (proj2 (Z.leb_gt _ _) Hw), Hbody. cbn [ok_or]. rewrite Hv, Hs. by destruct signed.
Qed.

Lemma json_content_type headers what :
  filter (header_named b#"content-type") headers = [] →
  require_json_media_type ((b#"content-type", b#"application/json") :: headers) what = Ok tt.
Proof.
  intros Hf. unfold require_json_media_type, required_header. rewrite single_header_filter, filter_cons_True by done.
  rewrite Hf. vm_compute. reflexivity.
Qed.

Lemma method_header_agrees `{!SerdeJsonLaws} method headers r obj :
  fits_headers method headers → req_headers r = (b#"content-type", b#"application/json") :: headers →
  from_slice (req_body r) = Some (Object obj) → obj !! b#"method" = Some (JString method) →
  reject_mcp_method_divergence r = Ok tt.
Proof.
  intros [_ Hm] Hh Hb Ho. unfold reject_mcp_method_divergence.
  rewrite Hh, single_header_filter, filter_cons_False by (unfold header_named; vm_compute; done).
  destruct Hm as [->|(k & v & -> & Hv)]; [done|]. cbn [snd]. rewrite Hb. cbn [ok_or].
  unfold json_get. rewrite as_object_Object, Ho. cbn [mbind option_bind]. rewrite as_str_JString, Hv, bytes_eqb_refl. done.
Qed.
End built.

(** ** Properties *)

(** What a client accepts as an answer. If a delegated response is accepted, for a trust authority of any kind,
    then its body carries a credential signed by the root that this authority resolves, in the response slot and at
    this instant, for the issuer the credential names; the credential is fresh, in scope, of an accepted epoch and
    nothing it names is revoked; the pinned issuer, if one is pinned, is that issuer. The delegated key's signature
    covers the response together with this very request, whose evidence both sides agree on; or, for a refusal
    written before the request could be verified, the response alone, naming the digest of this request's body.
    Success is reported exactly for a 2xx, never unbound. *)
Lemma client_response_sound `{Base64, Sha2, Ed25519, SerdeJson,
    !Serde DelegationHeader, !Serde DelegationClaims, !Serde HttpResponseEvidenceBlock}
    {T} `{!RevocationSource T, !DelegatedResponseTrust T} response (trust : T) expectation policy now v :
  verify_delegated_response response trust expectation policy now = Ok v →
  (∃ root, authorized_by (λ kid slot, resolve_issuer trust kid slot now) (is_revoked trust) (expectations_of policy) now
             (resp_body response) (accepted_signer (vdresp_verified v)) (delegation_issuer_kid (vdresp_verified v)) root) ∧
  (∀ pinned, re_expected_issuer_kid expectation = Some pinned → delegation_issuer_kid (vdresp_verified v) = pinned) ∧
  about_request (policy_verifier_policy policy) now response (re_request expectation) (vdresp_verified v) ∧
  (vdresp_outcome v = Success ↔ success_status response = true) ∧
  (success_status response = true → is_bound (vdresp_verified v) = true).
Proof.
  intros (Hroot & Hpin & Habout & Hout)%verify_delegated_response_Ok. split_and!; [done..| |].
  - rewrite Hout. unfold outcome_of. by destruct (success_status response).
  - intros Hs. destruct (vdresp_verified v); [done|]. destruct Habout as (_ & Hf & _). congruence.
Qed.

(** A response is never accepted under a root its trust manifest does not publish. For a client whose trust is a
    loaded manifest, the root behind every response it accepts is one the manifest vouches for at that instant: the
    manifest has not expired since it was loaded, the kid is not revoked, and a retiring root is within its window. *)
Lemma accepted_response_has_published_root `{Base64, Sha2, Ed25519, SerdeJson, !Serde TrustAnchorManifest,
    !Serde DelegationHeader, !Serde DelegationClaims, !Serde HttpResponseEvidenceBlock}
    signed pin profile floor loaded_at loaded response expectation policy now v :
  load_signed_manifest signed pin profile floor loaded_at = Ok loaded →
  verify_delegated_response response (la_issuer_set loaded) expectation policy now = Ok v →
  manifest_authentic signed pin ∧
  ∃ root block credential header claims,
    published (sm_manifest signed) (delegation_issuer_kid (vdresp_verified v)) now root ∧
    extract_meta_block (resp_body response) RESPONSE_EVIDENCE_BLOCK_KEY b#"response evidence block" = Ok block ∧
    sb_server_delegation block = Some credential ∧
    credential_signed_by (ra_verification_key root) credential header claims ∧
    dc_issuer_kid claims = delegation_issuer_kid (vdresp_verified v).
Proof.
  intros [(Hauth & _) Hloads]%load_signed_manifest_Ok Hv. split; [done|].
  apply verify_delegated_response_Ok in Hv as ((root & block & credential & header & claims & Hx & Hd & _ & Hr & _ & Hs & _ & Hi & _) & _).
  exists root, block, credential, header, claims. split_and!; try done. by apply (loads_as_resolves _ loaded).
Qed.

(** A client learns from a refusal exactly what the server states. If a server with a delegated key whose
    credential chains to a root of the client's trust builds a rejection of the client's request, the client accepts
    it as bound to that request, reads the reason's own wire code and execution contract, and refuses to retry
    blindly exactly when something may have been executed, an approval was spent, or retention is unresolved. *)
Lemma client_learns_rejection `{Base64Laws, Sha2, Ed25519Laws, JsonTreeLaws, !SerdeJsonLaws, F64Carrier,
    !Serde DelegationHeader, !Serde DelegationClaims, !Serde HttpResponseEvidenceBlock,
    !SerdeLaws (T := HttpResponseEvidenceBlock)}
    {T} `{!RevocationSource T, !DelegatedResponseTrust T} (trust : T)
    expectation ev reason status signer jws dkey created expires response audiences hash epochs skew now vd :
  let policy := DelegationPolicy_new audiences hash epochs skew in
  build_delegated_rejection (re_request expectation) ev reason status signer jws dkey (ai_keyid signer) created expires
    = Ok response →
  request_evidence_of (re_request expectation) = Ok ev →
  chain_to_root jws (response_block signer jws ev) (λ kid slot, resolve_issuer trust kid slot now)
    (expectations_of policy) (is_revoked trust) now = Ok vd →
  vd_delegated_kid vd = ai_keyid signer → vd_delegated_key vd = SigningKey_public_key dkey →
  is_i64 created ∧ is_i64 expires →
  window_admits created expires now (dpo_clock_skew policy) = true →
  saturating_sub expires created ≤ DEFAULT_MAX_SIGNATURE_VALIDITY →
  status < 200 ∨ 300 ≤ status →
  (∀ pinned, re_expected_issuer_kid expectation = Some pinned → vd_issuer_kid vd = pinned) →
  ∃ b, verify_delegated_response response trust expectation policy now =
         Ok {| vdresp_verified := Bound b;
               vdresp_outcome := OutcomeRejection (Some (rr_wire_code reason)) (stated_contract reason) |} ∧
       (retry_is_refused (stated_contract reason) = true ↔
          rr_execution reason ∈ [ApprovalSpentNothingExecuted; NothingExecutedRetentionUnresolved; PossiblyExecuted] ∨
          rr_wire_code reason = wire_code EvidenceRetentionIndeterminate).
Proof.
  intros policy Hb Hev Hch Hkid Hkey Hr Hwin Hval Hst Hpin. unfold build_delegated_rejection in Hb.
  destruct (sign_delegated_response_full _ _ _ _ _ _ _ _ _) as [s' signed] eqn:Hs. destruct signed as [base|]; [|done].
  injection Hb as <-.
  pose proof (delegated_response_accepted _ _ _ _ _ _ _ _ _ _ (λ kid slot, resolve_issuer trust kid slot now)
    (policy_verifier_policy policy) (expectations_of policy) (is_revoked trust) now vd Hs Hev Hch Hkid Hkey Hr) as Hacc.
  assert (policy_verifier_policy policy = _) as Hpol by apply policy_verifier_policy_new.
  specialize (Hacc ltac:(vm_compute; reflexivity) ltac:(by rewrite Hpol) ltac:(by rewrite Hpol) ltac:(by rewrite Hpol)).
  unfold sign_delegated_response_full in Hs. destruct (insert_meta_block _ _ _) as [body|] eqn:Hi; [|done].
  pose proof (signed_response_body _ _ _ _ _ _ _ _ Hs) as Hbody. cbn [resp_body with_resp_body] in Hbody.
  assert (resp_status s' = status) as Hstat.
  { clear -Hs. unfold sign_response_with_signer in Hs. repeat case_match; by simplify_eq/=. }
  assert (rejection_receipt (resp_body s') = (Some (rr_wire_code reason), stated_contract reason)) as Hrec.
  { rewrite Hbody. destruct (rejection_body_members (request_id (re_request expectation)) reason) as (obj & Hobj & _).
    destruct (insert_meta_block_members _ _ _ _ _ Hobj Hi) as (obj' & Hobj' & Hsame).
    apply (rejection_receipt_of _ obj' (request_id (re_request expectation))); [done|].
    intros obj0 Ho. rewrite Hobj in Ho. injection Ho as Ho.
    apply (f_equal as_object) in Ho. rewrite !as_object_Object in Ho. injection Ho as <-. by apply Hsame. }
  eexists. split; [|apply stated_contract_refuses].
  unfold verify_delegated_response, with_expectations, verify_delegated_response_under, verify_delegated_bound_response.
  cbn [v_resolve_actor v_policy]. rewrite Hacc, Hstat, Hrec.
  replace ((200 <=? status) && (status <? 300)) with false by (symmetry; apply andb_false_iff; rewrite Z.leb_gt, Z.ltb_ge; lia).
  cbn [vdr_delegation_issuer_kid]. rewrite (proj2 (check_expected_issuer_Ok _ _ tt)) by done. done.
Qed.

(** C23: a request the client library builds is a request the server accepts, under the conditions the server
    checks: the caller's extra headers add no content type and name the method of the body if they name one, the
    server's material satisfies the bound artifacts, its trust seam resolves the client's key for the request slot,
    its policy accepts Ed25519 and the length of the window, its clock is inside that window, and, where its policy
    enforces the MCP transport contract, the built request meets that contract. Then the full verifier of the server
    the request addresses accepts it, with the client's own evidence block, nonce and evidence handle, and the body
    it verified still carries exactly the caller's id, method and parameters. *)
Theorem built_request_verifies `{Base64Laws, Sha2, Ed25519Laws, SerdeJsonLaws, F64Carrier,
    !Serde HttpRequestEvidenceBlock, !SerdeLaws (T := HttpRequestEvidenceBlock)}
    id method params uri inputs key signed material resolve_actor policy now actor :
  build_signed_request id method params uri inputs key = Ok signed →
  fits_headers method (ri_extra_headers inputs) →
  Forall (binding_enforced ((b#"content-type", b#"application/json") :: ri_extra_headers inputs)
            (evidence_block inputs) material) (ri_artifact_bindings inputs) →
  is_i64 (ri_created inputs) ∧ is_i64 (ri_expires inputs) →
  match vp_mcp_transport policy with Some t => enforce t (sg_request signed) = Ok tt | None => True end →
  accepted_algorithm policy ALG_ED25519 = Some Ed25519Alg →
  window_admits (ri_created inputs) (ri_expires inputs) now (vp_max_clock_skew policy) = true →
  saturating_sub (ri_expires inputs) (ri_created inputs) ≤ vp_max_signature_validity policy →
  resolve_actor (ri_key_id inputs) SlotRequest = Resolved actor → ra_slot actor = SlotRequest →
  ra_verification_key actor = SigningKey_public_key key →
  ∃ v obj, full_request (sg_request signed) (ri_audience inputs) material resolve_actor policy now = Ok v ∧
    vr_request_block v = evidence_block inputs ∧ fr_evidence (vr_floor v) = sg_evidence signed ∧
    fr_nonce (vr_floor v) = ri_nonce inputs ∧ fr_resolved_actor (vr_floor v) = actor ∧
    from_slice (req_body (sg_request signed)) = Some (Object obj) ∧
    obj !! b#"id" = Some id ∧ obj !! b#"method" = Some (JString method) ∧ obj !! b#"params" = Some (Object params).
Proof.
  intros Hb Hfit HF Hr Htr Halg Hwin Hval Hres Hslot Hkey.
  apply build_signed_request_with_Ok in Hb as (_ & _ & _ & Hvalid & body & Hbody & Hs).
  pose proof (from_slice_to_vec _ _ Hbody) as Hparse.
  pose proof Hs as Hs'. unfold sign_request_full in Hs'. destruct (insert_meta_block _ _ _) as [body'|] eqn:Hi; [|done].
  destruct (insert_meta_block_members _ _ _ _ _ Hparse Hi) as (obj & Hobj & Hsame).
  assert (∀ k, k ∈ [b#"id"; b#"method"; b#"params"] → obj !! k = envelope_of (Some id) method params !! k) as Hk.
  { intros k Hin. apply Hsame. intros ->. revert Hin. rewrite !elem_of_cons, elem_of_nil. by intros [?|[?|[?|?]]]. }
  destruct (signed_parts _ _ _ _ _ _ _ _ Hs' Hr) as (_ & _ & _ & _ & Hbody' & _).
  destruct (signed_full_request_verifies (unsigned_request inputs body) (evidence_block inputs) key _ _ _ _ _ _ body'
    (ri_audience inputs) material resolve_actor policy now actor Hs Hi Hvalid) as (v & Hv & Hvb & _ & Hve & Hvn & Hva);
    try done.
  - by apply json_content_type, Hfit.
  - eapply (method_header_agrees method (ri_extra_headers inputs)); [done|done|exact Hobj|].
    by rewrite Hk by (right; left).
  - destruct (vp_mcp_transport policy) as [t|]; [|done]. rewrite <-Htr. symmetry.
    apply enforce_same; [|exact Hbody']. repeat constructor; by apply (signed_same _ _ _ _ _ _ _ _ Hs').
  - exists v, obj. split_and!; try done; [by rewrite Hbody'|rewrite Hk by set_solver..].
    + unfold envelope_of. by rewrite !lookup_insert_ne, lookup_singleton_eq by done.
    + done.
    + done.
Qed.

(** ** Witnesses *)

Import Instances.

#[local] Instance wcl_f64 : F64Carrier := { f64_reemit := Some }.

(** A tool call with a DPoP credential in its header and an authorization decision in its block. *)
Definition wc_credential : DpopCredential := {| dpop_token := b#"tok" |}.
Definition wc_inputs : RequestSigningInputs :=
  with_authorization_decision
    (with_headers
       (RequestSigningInputs_new b#"k1" w_audience [dpop_binding wc_credential] b#"abcdefghijklmnopqrstuv" 100 160)
       [(b#"Authorization", authorization_header_value wc_credential)])
    b#"decision".
#[local] Instance wcl_request_serde : Serde HttpRequestEvidenceBlock := one_value_serde (evidence_block wc_inputs) b#"q".
#[local] Instance wcl_request_serde_laws : SerdeLaws (T := HttpRequestEvidenceBlock).
Proof. apply one_value_serde_laws. Qed.

Definition wc_built : SignedRequest :=
  match build_signed_request (JString b#"1") b#"tools/call" ∅ b#"https://h/mcp" wc_inputs w_key with
  | Ok s => s
  | Err _ => {| sg_request := w_request; sg_evidence := w_evidence |}
  end.

Lemma built_request_verifies_witness :
  ∃ v obj, full_request (sg_request wc_built) w_audience w_material w_resolver VerifierPolicy_default 120 = Ok v ∧
    vr_request_block v = evidence_block wc_inputs ∧ fr_evidence (vr_floor v) = sg_evidence wc_built ∧
    fr_nonce (vr_floor v) = ri_nonce wc_inputs ∧ fr_resolved_actor (vr_floor v) = w_actor SlotRequest ∧
    from_slice (req_body (sg_request wc_built)) = Some (Object obj) ∧
    obj !! b#"id" = Some (JString b#"1") ∧ obj !! b#"method" = Some (JString b#"tools/call") ∧
    obj !! b#"params" = Some (Object ∅).
Proof.
  apply (built_request_verifies (JString b#"1") b#"tools/call" ∅ b#"https://h/mcp" wc_inputs w_key wc_built w_material
           w_resolver VerifierPolicy_default 120 (w_actor SlotRequest));
    [vm_compute; reflexivity|split; [|left]; vm_compute; reflexivity| |exact w_range|exact I
    |vm_compute; reflexivity|vm_compute; reflexivity|vm_compute; discriminate|reflexivity|reflexivity|reflexivity].
  constructor; [|constructor; [|constructor]]; (split; [reflexivity|]; split; [vm_compute; reflexivity|]).
  - exists b#"tok". split; vm_compute; reflexivity.
  - exists b#"decision". split; vm_compute; reflexivity.
Defined.

(** The root [k1] as the only current issuer of a signed manifest. *)
Definition wc_manifest : TrustAnchorManifest :=
  {| tm_profile := PROFILE_TAG; tm_manifest_version := 4;
     tm_current_issuers :=
       [{| mi_issuer_kid := b#"k1"; mi_public_key := VerificationKey_to_b64url (SigningKey_public_key w_key);
           mi_role := b#"root"; mi_trust_domain := b#"d"; mi_subject := b#"s" |}];
     tm_retiring_issuers := []; tm_revoked_issuers := [b#"k0"]; tm_issued_at := 90; tm_expires_at := 200 |}.
#[local] Instance wcl_manifest_serde : Serde TrustAnchorManifest := serde_through
  (λ v, if bool_decide (as_str v = Some b#"m") then Some wc_manifest else None)
  (λ t, if tm_manifest_version t =? 4 then Some (JString b#"m") else None).
Definition wc_signed_manifest : SignedTrustAnchorManifest :=
  match sign_manifest wc_manifest w_org b#"org" with
  | Some s => s
  | None => {| sm_manifest := wc_manifest; sm_signer_kid := []; sm_signature := [] |}
  end.
Definition wc_loaded : LoadedTrustAnchors :=
  match load_signed_manifest wc_signed_manifest w_pin PROFILE_TAG 4 100 with
  | Ok l => l
  | Err _ => {| la_issuer_set := TrustedIssuerSet_new; la_version := 0 |}
  end.
Definition wc_trust : TrustedIssuerSet := la_issuer_set wc_loaded.
Definition wc_policy : DelegationPolicy := DelegationPolicy_new [b#"me"] b#"ah" [b#"e"] 30.

#[local] Instance wcl_header_serde : Serde DelegationHeader := one_value_serde w_header b#"h".
#[local] Instance wcl_claims_serde : Serde DelegationClaims := one_value_serde w_claims b#"c".
#[local] Instance wcl_block_serde : Serde HttpResponseEvidenceBlock := one_value_serde w_delegated_block b#"s".
#[local] Instance wcl_block_serde_laws : SerdeLaws (T := HttpResponseEvidenceBlock).
Proof. apply one_value_serde_laws. Qed.

Definition wc_reason : RejectionReason :=
  with_execution (RejectionReason_new (wire_code ReplayDetected) b#"replayed") PossiblyExecuted.
Definition wc_rejection : HttpResponse :=
  match build_delegated_rejection (fst w_signed) w_evidence wc_reason 409 w_signer w_jws w_dkey b#"d1" 100 160 with
  | Ok r => r
  | Err _ => w_response
  end.
Definition wc_expectation : ResponseExpectation :=
  with_expected_issuer_kid (ResponseExpectation_new (fst w_signed)) b#"k1".
Definition wc_delegation : VerifiedDelegation := verified_of w_claims (SigningKey_public_key w_dkey).

Definition wc_success : HttpResponse := fst w_delegated_response.
Definition wc_verified : option VerifiedDelegatedResponse :=
  result_ok (verify_delegated_response wc_success wc_trust wc_expectation wc_policy 120).
