(* ===== verification/ClientProxy.v ===== *)
(** * [mcp-re-client-proxy]: the local proxy

    An unmodified MCP client talks plain JSON-RPC to this proxy; the proxy signs what it sends for
    a registered route, hands it to a transport, and returns a plain answer only when the response
    verified. The transport is a parameter: whatever it returns. *)

From S2P Require Import Prelude.
From S2P Require Import RustStr.
From S2P Require Import Externals.
From S2P Require Import Json.
From S2P Require Import Concrete.
From S2P Require Import CoreError.
From S2P Require Import CoreResolver.
From S2P Require Import HttpMessage.
From S2P Require Import Policy.
From S2P Require Import Blocks.
From S2P Require Import Body.
From S2P Require Import Floor.
From S2P Require Import Sign.
From S2P Require Import Full.
From S2P Require Import Envelope.
From S2P Require Import Delegation.
From S2P Require Import Rejection.
From S2P Require Import Bodyless.
From S2P Require Import ClientTrust.
From S2P Require Import ClientCore.

(** ** [transport.rs] *)

Record TransportError := { te_detail : bytes }.
Inductive ProxyError : Type :=
  | UnknownRoute (route_id : bytes)
  | MalformedRequest
  | ProxyTransport (e : TransportError)
  | FailedClosed (e : HttpProfileError).
Definition proxy_wire_code (e : ProxyError) : option bytes :=
  match e with FailedClosed error => Some (http_wire_code error) | _ => None end.

(** ** [route.rs] *)

#[global] Instance revocation_fn_source : RevocationSource (bytes → bool) := { is_revoked f identifier := f identifier }.

Section proxy.
Context `{Base64, Sha2, Ed25519, JsonTree, F64Carrier}.
Context `{!Serde HttpRequestEvidenceBlock, !Serde HttpResponseEvidenceBlock}.
Context `{!Serde DelegationHeader, !Serde DelegationClaims}.

(** A snapshot is a shared cell; a poisoned lock is read and written all the same. *)
Record AnchorSnapshot := { as_current : TrustedIssuerSet }.
Definition AnchorSnapshot_new (issuers : TrustedIssuerSet) : AnchorSnapshot := {| as_current := issuers |}.
Definition snapshot_load (s : AnchorSnapshot) : TrustedIssuerSet := as_current s.
Definition snapshot_store (s : AnchorSnapshot) (issuers : TrustedIssuerSet) : AnchorSnapshot := {| as_current := issuers |}.

Inductive ClientVerification : Type :=
  | DelegatedRequired (policy : DelegationPolicy) (resolve_actor : actor_resolver) (revocation : bytes → bool)
  | DelegatedAnchored (policy : DelegationPolicy) (anchors : AnchorSnapshot).

Record Route := {
  rt_route_id : bytes;
  rt_target_uri : bytes;
  rt_audience : AudienceTuple;
  rt_artifact_bindings : list ArtifactBinding;
  rt_extra_headers : Headers;
  rt_expected_server_keyid : option bytes;
  rt_verification : ClientVerification;
}.
Record RouteRegistry := { rg_routes : gmap bytes Route }.
Definition RouteRegistry_new : RouteRegistry := {| rg_routes := ∅ |}.
Definition register (r : RouteRegistry) (route : Route) : RouteRegistry :=
  {| rg_routes := <[rt_route_id route := route]> (rg_routes r) |}.
Definition registry_get (r : RouteRegistry) (route_id : bytes) : option Route := rg_routes r !! route_id.

(** ** [proxy.rs], the data *)

Record CallParams := { cp_nonce : bytes; cp_created : Z; cp_expires : Z; cp_now_unix : Z }.

(** The code of a failed call is the number, when it is an [i64]. *)
Inductive ResponseKind : Type :=
  | KindSuccess
  | KindInputRequired (request_state : bytes)
  | AcceptedNotification
  | CallFailed (code : option Number)
  | VerifiedRejection (wire_code : option bytes) (bound : bool) (execution : ExecutionContract).
Record ProxyResponse := { pr_plain_response : Value; pr_kind : ResponseKind }.

Record ClientProxy := {
  px_registry : RouteRegistry;
  px_signing_key : SigningKey;
  px_key_id : bytes;
  px_transport : HttpRequest → Result HttpResponse TransportError;
}.

(** ** Plain answers *)

Definition optional_member (m : gmap bytes Value) (name : bytes) (value : option bytes) : gmap bytes Value :=
  match value with Some value => <[name := JString value]> m | None => m end.

Definition contract_members (code : option bytes) (execution : ExecutionContract) : gmap bytes Value :=
  foldl (λ m nv, optional_member m nv.1 nv.2) (optional_member ∅ b#"wire_code" code)
    [(b#"execution_status", ec_execution_status execution); (b#"retry_safety", ec_retry_safety execution);
     (b#"continuation_status", ec_continuation_status execution);
     (b#"retention_status", ec_retention_status execution)].

Definition plain_error_from_rejection (id : Value) (code : option bytes) (execution : ExecutionContract) : Value :=
  let mcp_re_error := contract_members code execution in
  let error := <[b#"message" := JString b#"request rejected by the MCP-RE server"]>
                 {[ b#"code" := JNumber MCP_RE_JSON_RPC_ERROR_CODE ]} in
  let error := if bool_decide (dom mcp_re_error = ∅) then error
               else <[b#"data" := Object {[ b#"mcp_re_error" := Object mcp_re_error ]}]> error in
  Object (<[b#"jsonrpc" := JString b#"2.0"]> (<[b#"id" := id]> {[ b#"error" := Object error ]})).

(** The members left once the evidence is taken out, of the reply and of its result. *)
Definition without_evidence (top : gmap bytes Value) : gmap bytes Value :=
  delete META_KEY
    (match top !! b#"result" ≫= as_object with
     | Some result => <[b#"result" := Object (delete META_KEY result)]> top
     | None => top
     end).

Definition plain_response_from_verified (response_body : bytes) (request_id : Value) : Result Value ProxyError :=
  let? object := ok_or (from_slice response_body)
                   (FailedClosed (HPE.MalformedEvidence b#"verified reply is not JSON")) in
  let? top := ok_or (without_evidence <$> as_object object)
                (FailedClosed (HPE.MalformedEvidence b#"verified reply is not a JSON-RPC object")) in
  if is_some (top !! b#"method")
  then Err (FailedClosed (HPE.MalformedEvidence
              b#"verified reply carries a top-level method; a JSON-RPC response has none"))
  else
    match top !! b#"result", top !! b#"error" with
    | Some _, Some _ =>
        Err (FailedClosed (HPE.MalformedEvidence b#"verified reply carries both a result and an error"))
    | None, None =>
        Err (FailedClosed (HPE.MalformedEvidence b#"verified reply carries neither a result nor an error"))
    | None, Some error =>
        Ok (Object (<[b#"jsonrpc" := JString b#"2.0"]> (<[b#"id" := request_id]> {[ b#"error" := error ]})))
    | Some result, None =>
        Ok (Object (<[b#"jsonrpc" := JString b#"2.0"]> (<[b#"id" := request_id]> {[ b#"result" := result ]})))
    end.

(** ** [verified_outcome.rs] *)

Definition as_i64 (v : Value) : option Number :=
  match tree_of v with JNum n => if num_is_i64 n then Some n else None | _ => None end.

Definition read_outcome (verified : VerifiedDelegatedResponse) (response : HttpResponse) (request_id : Value)
  : Result ProxyResponse ProxyError :=
  match vdresp_outcome verified with
  | Success =>
      let? plain := plain_response_from_verified (resp_body response) request_id in
      match json_get plain b#"error" with
      | Some error => Ok {| pr_plain_response := plain; pr_kind := CallFailed (json_get error b#"code" ≫= as_i64) |}
      | None =>
          let? state := map_err FailedClosed (continuation_state_of (tree_of <$> json_get plain b#"result")) in
          Ok {| pr_plain_response := plain;
                pr_kind := match state with None => KindSuccess | Some request_state => KindInputRequired request_state end |}
      end
  | OutcomeRejection code execution =>
      Ok {| pr_plain_response := plain_error_from_rejection request_id code execution;
            pr_kind := VerifiedRejection code (is_bound (vdresp_verified verified)) execution |}
  end.

(** ** [proxy.rs], the call *)

Definition proxy_inputs (proxy : ClientProxy) (route : Route) (params : CallParams) : RequestSigningInputs :=
  with_headers
    (RequestSigningInputs_new (px_key_id proxy) (rt_audience route) (rt_artifact_bindings route) (cp_nonce params)
       (cp_created params) (cp_expires params))
    (rt_extra_headers route).

Definition proxy_sign_request (proxy : ClientProxy) (route : Route) (plain_request : Value) (params : CallParams)
    (id : option Value) : Result SignedRequest ProxyError :=
  let? method := ok_or (json_get plain_request b#"method" ≫= as_str) MalformedRequest in
  let req_params := default ∅ (json_get plain_request b#"params" ≫= as_object) in
  let inputs := proxy_inputs proxy route params in
  map_err FailedClosed
    (match id with
     | Some id => build_signed_request id method req_params (rt_target_uri route) inputs (px_signing_key proxy)
     | None => build_signed_notification method req_params (rt_target_uri route) inputs (px_signing_key proxy)
     end).

Definition composite_of (resolve_actor : actor_resolver) (revocation : bytes → bool)
  : CompositeResponseTrust (bytes → bool) :=
  {| crt_resolver := λ kid slot _, resolve_actor kid slot; crt_revocation := revocation |}.

Definition expectation_for (route : Route) (signed : SignedRequest) : ResponseExpectation :=
  match rt_expected_server_keyid route with
  | Some keyid => with_expected_issuer_kid (for_signed signed) keyid
  | None => for_signed signed
  end.

Definition verify_reply (route : Route) (signed : SignedRequest) (response : HttpResponse) (params : CallParams)
  : Result VerifiedDelegatedResponse ProxyError :=
  map_err FailedClosed
    (match rt_verification route with
     | DelegatedRequired policy resolve_actor revocation =>
         verify_delegated_response response (composite_of resolve_actor revocation) (expectation_for route signed)
           policy (cp_now_unix params)
     | DelegatedAnchored policy anchors =>
         verify_delegated_response response (snapshot_load anchors) (expectation_for route signed) policy
           (cp_now_unix params)
     end).

Definition verify_notification_ack (route : Route) (signed : SignedRequest) (response : HttpResponse)
    (params : CallParams) : Result ProxyResponse ProxyError :=
  let pin := rt_expected_server_keyid route in
  map_err FailedClosed
    (match rt_verification route with
     | DelegatedRequired policy resolve_actor revocation =>
         let? _ := client_accepted_202_pinned response (sg_request signed) (composite_of resolve_actor revocation)
                     policy pin (cp_now_unix params) in Ok tt
     | DelegatedAnchored policy anchors =>
         let? _ := client_accepted_202_pinned response (sg_request signed) (snapshot_load anchors) policy pin
                     (cp_now_unix params) in Ok tt
     end) ;?
  Ok {| pr_plain_response := value_of JNull; pr_kind := AcceptedNotification |}.

Definition handle (proxy : ClientProxy) (route_id : bytes) (plain_request : Value) (params : CallParams)
  : Result ProxyResponse ProxyError :=
  let? route := ok_or (registry_get (px_registry proxy) route_id) (UnknownRoute route_id) in
  let id := json_get plain_request b#"id" in
  let? signed := proxy_sign_request proxy route plain_request params id in
  let? response := map_err ProxyTransport (px_transport proxy (sg_request signed)) in
  match id with
  | None => verify_notification_ack route signed response params
  | Some request_id =>
      let? verified := verify_reply route signed response params in
      read_outcome verified response request_id
  end.
End proxy.

(** ** What the plain client reads *)

Section plain.
Context `{Base64, Sha2, Ed25519, JsonTreeLaws, !SerdeJsonLaws}.

Lemma optional_member_lookup (m : gmap bytes Value) name value k :
  optional_member m name value !! k =
    if bytes_eqb name k then match value with Some v => Some (JString v) | None => m !! k end else m !! k.
Proof.
  unfold optional_member. destruct (bytes_eqb name k) eqn:E; str_prop; subst.
  - destruct value; [by rewrite lookup_insert_eq|done].
  - destruct value; [by rewrite lookup_insert_ne|done].
Qed.

Lemma contract_members_str code execution name :
  (contract_members code execution !! name) ≫= as_str =
    if bytes_eqb b#"wire_code" name then code
    else assoc name (omap (λ nv, pair nv.1 <$> nv.2)
           [(b#"execution_status", ec_execution_status execution); (b#"retry_safety", ec_retry_safety execution);
            (b#"continuation_status", ec_continuation_status execution);
            (b#"retention_status", ec_retention_status execution)]).
Proof.
  unfold contract_members. cbn [foldl fst snd]. rewrite !optional_member_lookup, lookup_empty.
  destruct execution as [[] [] [] []], code; cbn [ec_execution_status ec_retry_safety ec_continuation_status
    ec_retention_status omap list_omap fmap option_fmap option_map fst snd assoc];
  repeat match goal with |- context [bytes_eqb ?a name] =>
    destruct (bytes_eqb a name) eqn:?; str_prop; subst; try done end;
    cbn [mbind option_bind]; by rewrite ?as_str_JString.
Qed.

(** The contract a plain error carries is the one the verified rejection stated, no more and no less. *)
Lemma plain_error_receipt id code execution body :
  from_slice body = Some (plain_error_from_rejection id code execution) → rejection_receipt body = (code, execution).
Proof.
  intros Hb. unfold rejection_receipt. rewrite Hb. unfold plain_error_from_rejection, pointer. cbn [foldl mbind option_bind].
  rewrite json_get_Object, !lookup_insert_ne, lookup_singleton_eq by done. cbn [mbind option_bind].
  pose proof (contract_members_str code execution) as Hm.
  set (m := contract_members code execution) in *.
  assert ((m !! b#"wire_code" ≫= as_str,
    {| ec_execution_status := m !! b#"execution_status" ≫= as_str; ec_retry_safety := m !! b#"retry_safety" ≫= as_str;
       ec_continuation_status := m !! b#"continuation_status" ≫= as_str;
       ec_retention_status := m !! b#"retention_status" ≫= as_str |}) = (code, execution)) as Hall.
  { rewrite !Hm. destruct execution as [[] [] [] []]; reflexivity. }
  case_bool_decide as He.
  - rewrite json_get_Object, lookup_insert_ne, lookup_singleton_ne by done. cbn [mbind option_bind].
    apply dom_empty_inv_L in He. rewrite He in Hall. exact Hall.
  - rewrite json_get_Object, lookup_insert_eq. cbn [mbind option_bind].
    rewrite json_get_Object, lookup_singleton_eq. rewrite !json_get_Object. exact Hall.
Qed.
End plain.

(** ** What a returned answer rests on *)

Section answers.
Context `{Base64, Sha2, Ed25519, JsonTreeLaws, !SerdeJsonLaws, F64Carrier}.
Context `{!Serde HttpRequestEvidenceBlock, !Serde HttpResponseEvidenceBlock}.
Context `{!Serde DelegationHeader, !Serde DelegationClaims}.

(** The route's own trust authorizes the signer of the response. *)
Definition route_authorizes (route : Route) (now : Z) (response : HttpResponse) (v : VerifiedDelegatedResponse) : Prop :=
  ∃ root, match rt_verification route with
  | DelegatedRequired policy resolve_actor revocation =>
      authorized_by resolve_actor revocation (expectations_of policy) now (resp_body response)
        (accepted_signer (vdresp_verified v)) (delegation_issuer_kid (vdresp_verified v)) root
  | DelegatedAnchored policy anchors =>
      authorized_by (λ kid slot, resolve_issuer (snapshot_load anchors) kid slot now) (is_revoked (snapshot_load anchors))
        (expectations_of policy) now (resp_body response)
        (accepted_signer (vdresp_verified v)) (delegation_issuer_kid (vdresp_verified v)) root
  end.

(** The verifier policy of the route. *)
Definition route_policy (route : Route) : VerifierPolicy :=
  match rt_verification route with
  | DelegatedRequired policy _ _ => policy_verifier_policy policy
  | DelegatedAnchored policy _ => policy_verifier_policy policy
  end.

Lemma expectation_for_request route signed :
  re_request (expectation_for route signed) = sg_request signed ∧
  re_expected_issuer_kid (expectation_for route signed) = rt_expected_server_keyid route.
Proof. unfold expectation_for. by destruct (rt_expected_server_keyid route). Qed.

Lemma verify_reply_Ok route signed response params v :
  verify_reply route signed response params = Ok v →
  route_authorizes route (cp_now_unix params) response v ∧
  (∀ keyid, rt_expected_server_keyid route = Some keyid → delegation_issuer_kid (vdresp_verified v) = keyid) ∧
  about_request (route_policy route) (cp_now_unix params) response (sg_request signed) (vdresp_verified v) ∧
  vdresp_outcome v = outcome_of response.
Proof.
  unfold verify_reply, route_authorizes, route_policy. destruct (expectation_for_request route signed) as [<- <-].
  intros Hv%map_err_Ok. by destruct (rt_verification route); apply verify_delegated_response_Ok in Hv.
Qed.

(** A plain answer: the caller's id, and one member of the verified body, evidence taken out. *)
Definition plain_answer (plain : Value) (id : Value) (body : bytes) (name : bytes) : Prop :=
  ∃ v top member, from_slice body = Some v ∧ as_object v = Some top ∧ without_evidence top !! name = Some member ∧
    plain = Object (<[b#"jsonrpc" := JString b#"2.0"]> (<[b#"id" := id]> {[ name := member ]})).

Lemma plain_response_Ok body id plain :
  plain_response_from_verified body id = Ok plain →
  (plain_answer plain id body b#"result" ∧ json_get plain b#"error" = None) ∨
  (plain_answer plain id body b#"error" ∧ is_some (json_get plain b#"error") = true).
Proof.
  unfold plain_response_from_verified, plain_answer. destruct (from_slice body) as [v|]; [|done]. cbn [ok_or].
  destruct (as_object v) as [top|] eqn:Et; [|done]. cbn [fmap option_fmap option_map ok_or].
  destruct (is_some _); [done|].
  destruct (without_evidence top !! b#"result") as [r|] eqn:Er, (without_evidence top !! b#"error") as [e|] eqn:Ee;
    try done; intros [= <-]; [left|right]; (split; [by eauto 10|]); rewrite json_get_Object, !lookup_insert_ne by done.
  - by rewrite lookup_singleton_ne.
  - by rewrite lookup_singleton_eq.
Qed.

(** How each kind of answer comes about. *)
Definition answers_as (id : Value) (response : HttpResponse) (v : VerifiedDelegatedResponse) (r : ProxyResponse) : Prop :=
  match pr_kind r with
  | KindSuccess | KindInputRequired _ =>
      success_status response = true ∧ plain_answer (pr_plain_response r) id (resp_body response) b#"result"
  | CallFailed _ =>
      success_status response = true ∧ plain_answer (pr_plain_response r) id (resp_body response) b#"error"
  | VerifiedRejection code bound execution =>
      success_status response = false ∧ rejection_receipt (resp_body response) = (code, execution) ∧
      bound = is_bound (vdresp_verified v) ∧ json_get (pr_plain_response r) b#"id" = Some id ∧
      ∀ text, from_slice text = Some (pr_plain_response r) → rejection_receipt text = (code, execution)
  | AcceptedNotification => False
  end.

Lemma read_outcome_Ok v response id r :
  vdresp_outcome v = outcome_of response → read_outcome v response id = Ok r → answers_as id response v r.
Proof.
  intros Ho. unfold read_outcome, answers_as. rewrite Ho. unfold outcome_of.
  destruct (success_status response) eqn:Es.
  - destruct (plain_response_from_verified _ _) as [plain|] eqn:Hp; [|done].
    apply plain_response_Ok in Hp as [[Hp He]|[Hp He]].
    + rewrite He. destruct (map_err _ _) as [[]|]; [| |done]; by intros [= <-].
    + destruct (json_get plain b#"error"); [|done]. by intros [= <-].
  - intros [= <-]. simpl. split_and!; [done|by destruct (rejection_receipt _)|done| |].
    + unfold plain_error_from_rejection. by rewrite json_get_Object, lookup_insert_ne, lookup_insert_eq.
    + intros text Ht. by apply plain_error_receipt in Ht.
Qed.
End answers.

(** ** Properties *)

(** C21: a plain client behind the proxy is never given an unverified answer. Whatever the transport returns, if a
    call on a route comes back with an answer, the proxy signed that call for that route, the transport was handed
    exactly the signed request, and the answer to it is signed by a key that the route's own trust authorizes, from
    the issuer the route pins if it pins one, about this very request; that signature covers a content digest
    which is the one of the body the answer is read from, and its window admits the instant of the call. The plain answer carries the caller's own id
    and the one result or error of the verified body, or, for a refusal, an error from which the refusal's wire
    code and execution contract are read back unchanged. *)
Theorem proxied_answer_authentic `{Base64, Sha2, Ed25519, JsonTreeLaws, !SerdeJsonLaws, F64Carrier,
    !Serde HttpRequestEvidenceBlock, !Serde HttpResponseEvidenceBlock, !Serde DelegationHeader, !Serde DelegationClaims}
    proxy route_id plain params id r :
  json_get plain b#"id" = Some id → handle proxy route_id plain params = Ok r →
  ∃ route signed response v,
    registry_get (px_registry proxy) route_id = Some route ∧
    proxy_sign_request proxy route plain params (Some id) = Ok signed ∧
    px_transport proxy (sg_request signed) = Ok response ∧
    route_authorizes route (cp_now_unix params) response v ∧
    (∀ keyid, rt_expected_server_keyid route = Some keyid → delegation_issuer_kid (vdresp_verified v) = keyid) ∧
    about_request (route_policy route) (cp_now_unix params) response (sg_request signed) (vdresp_verified v) ∧
    answers_as id response v r.
Proof.
  intros Hid. unfold handle. rewrite Hid.
  destruct (registry_get _ _) as [route|] eqn:Hroute; [|done]. cbn [ok_or].
  destruct (proxy_sign_request _ _ _ _ _) as [signed|] eqn:Hsign; [|done].
  destruct (px_transport proxy (sg_request signed)) as [response|] eqn:Htrans; [|done]. cbn [map_err].
  destruct (verify_reply _ _ _ _) as [v|] eqn:Hv; [|done]. intros Hr.
  apply verify_reply_Ok in Hv as (Hauth & Hpin & Habout & Hout).
  exists route, signed, response, v. split_and!; try done. by apply read_outcome_Ok.
Qed.

(** ** Witness *)

Import Instances.

#[local] Instance wp_f64 : F64Carrier := { f64_reemit := Some }.

Definition wp_params : CallParams :=
  {| cp_nonce := b#"abcdefghijklmnopqrstuv"; cp_created := 100; cp_expires := 160; cp_now_unix := 120 |}.
Definition wp_route : Route :=
  {| rt_route_id := b#"r"; rt_target_uri := b#"https://h/mcp"; rt_audience := w_audience; rt_artifact_bindings := [opaque_digest OauthMtls b#"cert"];
     rt_extra_headers := []; rt_expected_server_keyid := Some b#"k1";
     rt_verification := DelegatedAnchored wc_policy (AnchorSnapshot_new wc_trust) |}.
Definition wp_plain : Value :=
  Object (<[b#"id" := JNumber 7]> (<[b#"method" := JString b#"tools/list"]> ∅)).

(** The signed request a proxy with any transport sends. *)
Definition wp_proxy (transport : HttpRequest → Result HttpResponse TransportError) : ClientProxy :=
  {| px_registry := register RouteRegistry_new wp_route; px_signing_key := w_key; px_key_id := b#"k1";
     px_transport := transport |}.
#[local] Instance wp_request_serde : Serde HttpRequestEvidenceBlock :=
  one_value_serde (evidence_block (proxy_inputs (wp_proxy (λ _, Err {| te_detail := [] |})) wp_route wp_params)) b#"q".
Definition wp_signed : SignedRequest :=
  match proxy_sign_request (wp_proxy (λ _, Err {| te_detail := [] |})) wp_route wp_plain wp_params (Some (JNumber 7)) with
  | Ok s => s
  | Err _ => wc_built
  end.

#[local] Instance wp_header_serde : Serde DelegationHeader := one_value_serde w_header b#"h".
#[local] Instance wp_claims_serde : Serde DelegationClaims := one_value_serde w_claims b#"c".
Definition wp_jws : bytes := Eval vm_compute in w_jws.
Definition wp_server_block : HttpResponseEvidenceBlock := response_block w_signer wp_jws (sg_evidence wp_signed).
#[local] Instance wp_block_serde : Serde HttpResponseEvidenceBlock := one_value_serde wp_server_block b#"s".

(** A server that answers the request it is sent. *)
Definition wp_reply (request : HttpRequest) : Result HttpResponse TransportError :=
  let body := default [] (to_vec (Object (<[b#"id" := JNumber 7]> (<[b#"result" := Object ∅]> ∅)))) in
  Ok (fst (sign_delegated_response_full (with_resp_body w_response body) request (sg_evidence wp_signed) w_signer
             wp_jws w_dkey b#"d1" 100 160)).

Lemma proxied_answer_authentic_witness :
  ∃ r route signed response v, handle (wp_proxy wp_reply) b#"r" wp_plain wp_params = Ok r ∧
    px_transport (wp_proxy wp_reply) (sg_request signed) = Ok response ∧
    route_authorizes route 120 response v ∧ answers_as (JNumber 7) response v r.
Proof.
  assert (is_ok (handle (wp_proxy wp_reply) b#"r" wp_plain wp_params) = true) as Hok by (vm_compute; reflexivity).
  destruct (handle (wp_proxy wp_reply) b#"r" wp_plain wp_params) as [r|] eqn:Hh; [|discriminate Hok].
  destruct (proxied_answer_authentic (wp_proxy wp_reply) b#"r" wp_plain wp_params (JNumber 7) r)
    as (route & signed & response & v & _ & _ & Ht & Ha & _ & _ & Hans); [reflexivity|exact Hh|].
  exists r, route, signed, response, v. split; [reflexivity|]. split; [exact Ht|]. split; [exact Ha|exact Hans].
Defined.
