(* ===== verification/AuthzPolicy.v ===== *)
(** * [mcp-re-policy]: authorization errors and revocation

    The closed set of authorization refusals with their wire codes, and the source that says
    whether an authorization was revoked. *)

From S2P Require Import Prelude.
From S2P Require Import RustStr.

(** ** [error.rs] *)

Inductive PolicyError : Type :=
  | AuthorizationBlockMissing
  | AuthorizationHashMismatch
  | AuthorizationProfileUnsupported
  | AuthorizationMalformed
  | AuthorizationSignatureInvalid
  | AuthorizationSignerMismatch
  | AuthorizationSubjectMismatch
  | AuthorizationAudienceMismatch
  | AuthorizationExpired
  | AuthorizationRevoked
  | AuthorizationRevocationUnavailable
  | AuthorizationScopeDenied
  | AuthorizationBindingProfileRequired.

Definition policy_wire_code (e : PolicyError) : bytes :=
  match e with
  | AuthorizationBlockMissing => b#"mcp-re.authorization_block_missing"
  | AuthorizationHashMismatch => b#"mcp-re.authorization_hash_mismatch"
  | AuthorizationProfileUnsupported => b#"mcp-re.authorization_profile_unsupported"
  | AuthorizationMalformed => b#"mcp-re.authorization_malformed"
  | AuthorizationSignatureInvalid => b#"mcp-re.authorization_signature_invalid"
  | AuthorizationSignerMismatch => b#"mcp-re.authorization_signer_mismatch"
  | AuthorizationSubjectMismatch => b#"mcp-re.authorization_subject_mismatch"
  | AuthorizationAudienceMismatch => b#"mcp-re.authorization_audience_mismatch"
  | AuthorizationExpired => b#"mcp-re.authorization_expired"
  | AuthorizationRevoked => b#"mcp-re.authorization_revoked"
  | AuthorizationRevocationUnavailable => b#"mcp-re.authorization_revocation_unavailable"
  | AuthorizationScopeDenied => b#"mcp-re.authorization_scope_denied"
  | AuthorizationBindingProfileRequired => b#"mcp-re.authorization_binding_profile_required"
  end.

#[global] Instance PolicyError_eq_dec : EqDecision PolicyError.
Proof. solve_decision. Defined.

(** No two refusals share a code. *)
#[global] Instance policy_wire_code_inj : Inj (=) (=) policy_wire_code.
Proof. intros a b Heq. destruct a, b; (reflexivity || (exfalso; vm_compute in Heq; discriminate Heq)). Qed.

(** ** [revocation.rs] *)

Inductive RevocationStatus : Type := NotRevoked | Revoked.
Record RevocationUnavailable := { ru_details : bytes }.

Class AuthorizationRevocationSource (T : Type) :=
  { revocation_status : T → bytes → Result RevocationStatus RevocationUnavailable }.

Record InMemoryRevocationSource := { ims_revoked : gset bytes }.
Definition InMemoryRevocationSource_new : InMemoryRevocationSource := {| ims_revoked := ∅ |}.
Definition authorization_revoke (s : InMemoryRevocationSource) (revocation_id : bytes) : InMemoryRevocationSource :=
  {| ims_revoked := {[revocation_id]} ∪ ims_revoked s |}.
Definition in_memory_revocation_status (s : InMemoryRevocationSource) (revocation_id : bytes)
  : Result RevocationStatus RevocationUnavailable :=
  if bool_decide (revocation_id ∈ ims_revoked s) then Ok Revoked else Ok NotRevoked.
#[global] Instance InMemoryRevocationSource_source : AuthorizationRevocationSource InMemoryRevocationSource :=
  { revocation_status := in_memory_revocation_status }.

(** After any calls of [revoke], exactly their ids are revoked, and the source never fails. *)
Lemma in_memory_revocation_exact ids id :
  revocation_status (foldl authorization_revoke InMemoryRevocationSource_new ids) id =
    Ok (if bool_decide (id ∈ ids) then Revoked else NotRevoked).
Proof.
  assert (∀ s, ims_revoked (foldl authorization_revoke s ids) = list_to_set ids ∪ ims_revoked s) as Hf.
  { induction ids as [|x ids IH]; intros s; simpl; [set_solver|]. rewrite IH. simpl. set_solver. }
  simpl. unfold in_memory_revocation_status. rewrite Hf. simpl.
  rewrite (bool_decide_ext (id ∈ (list_to_set ids ∪ ∅ : gset bytes)) (id ∈ ids)) by set_solver.
  by case_bool_decide.
Qed.
