(* ===== verification/Exchange.v ===== *)
(** * [mcp-re-proxy/src/exchange_state.rs]

    The exchange machine: where one request is in the serving pipeline, whether the backend may
    have executed it, and what a refusal may therefore tell the client about retrying. The
    operations of [ExchangeProgress] come first, then runs of them, and the theorems that a
    publication is only permitted after every stage ran in order and that the stated
    consequence only ever gets stricter. *)

From S2P Require Import Prelude.
From S2P Require Import RustStr.

(** ** The enumerations *)

Inductive ExchangeState :=
  | S_Received | S_Verified | S_TransportBound | S_AdmissionChecked | S_ContinuationPrepared
  | S_ReplayAdmitted | S_Answerable | S_ContinuationRetired | S_Forwarded | S_InnerPlaneAccepted
  | S_RetentionCommitted | S_Dispatched | S_ResponseObserved | S_ResponseValidated
  | S_ResponseClassified | S_ResponseSigned | S_ContinuationSettled | S_Retained
  | S_AcknowledgedNotification | S_CompletedTerminal | S_CompletedContinuationOpen
  | S_RefusedBeforeDispatch | S_FailedAfterDispatch.
#[global] Instance ExchangeState_eq_dec : EqDecision ExchangeState.
Proof. solve_decision. Defined.

(** The derived order is the order of declaration. *)
Definition state_index (s : ExchangeState) : Z :=
  match s with
  | S_Received => 0 | S_Verified => 1 | S_TransportBound => 2 | S_AdmissionChecked => 3
  | S_ContinuationPrepared => 4 | S_ReplayAdmitted => 5 | S_Answerable => 6
  | S_ContinuationRetired => 7 | S_Forwarded => 8 | S_InnerPlaneAccepted => 9
  | S_RetentionCommitted => 10 | S_Dispatched => 11 | S_ResponseObserved => 12
  | S_ResponseValidated => 13 | S_ResponseClassified => 14 | S_ResponseSigned => 15
  | S_ContinuationSettled => 16 | S_Retained => 17 | S_AcknowledgedNotification => 18
  | S_CompletedTerminal => 19 | S_CompletedContinuationOpen => 20
  | S_RefusedBeforeDispatch => 21 | S_FailedAfterDispatch => 22
  end.

Inductive ExchangeEvent :=
  | E_SignatureVerified | E_TransportBindingChecked | E_AdmissionCurrencyChecked
  | E_ContinuationPrepared | E_ReplayAdmitted | E_DelegatedKeySnapshotted
  | E_ContinuationRetired | E_ForwardBodyPrepared | E_InnerPlaneAccepted | E_RetentionCommitted
  | E_BackendDispatched | E_ResponseObserved | E_EnvelopeValidated | E_ResponseClassified
  | E_ResponseSigned | E_OpenLegRecorded | E_ContinuationNotRequired | E_EvidenceRetained
  | E_NotificationAcknowledged | E_TerminalResponseServed | E_OpenLegResponseServed | E_Refused.
#[global] Instance ExchangeEvent_eq_dec : EqDecision ExchangeEvent.
Proof. solve_decision. Defined.

Inductive ContinuationState := C_NotInvolved | C_Peeked | C_Consumed.
#[global] Instance ContinuationState_eq_dec : EqDecision ContinuationState.
Proof. solve_decision. Defined.

Inductive BackendState := B_NotDispatched | B_Dispatched.
#[global] Instance BackendState_eq_dec : EqDecision BackendState.
Proof. solve_decision. Defined.

Inductive ResponseOrigin := O_Undetermined | O_BackendReplied | O_DispatchIndeterminate.
#[global] Instance ResponseOrigin_eq_dec : EqDecision ResponseOrigin.
Proof. solve_decision. Defined.
Definition origin_index (o : ResponseOrigin) : Z :=
  match o with O_Undetermined => 0 | O_BackendReplied => 1 | O_DispatchIndeterminate => 2 end.

Inductive OpenLeg := L_NotApplicable | L_Required | L_Recorded.
#[global] Instance OpenLeg_eq_dec : EqDecision OpenLeg.
Proof. solve_decision. Defined.
Definition open_leg_index (l : OpenLeg) : Z :=
  match l with L_NotApplicable => 0 | L_Required => 1 | L_Recorded => 2 end.

Inductive RetrySemantics := SafeNothingExecuted | RequiresNewElicitation | NotRetrySafe.
Definition retry_index (r : RetrySemantics) : Z :=
  match r with SafeNothingExecuted => 0 | RequiresNewElicitation => 1 | NotRetrySafe => 2 end.

Inductive ServedSuccess := SS_Terminal | SS_OpenLeg.

(** ** The transition table *)

Definition establishes (e : ExchangeEvent) : option ExchangeState :=
  match e with
  | E_SignatureVerified => Some S_Verified
  | E_TransportBindingChecked => Some S_TransportBound
  | E_AdmissionCurrencyChecked => Some S_AdmissionChecked
  | E_ContinuationPrepared => Some S_ContinuationPrepared
  | E_ReplayAdmitted => Some S_ReplayAdmitted
  | E_DelegatedKeySnapshotted => Some S_Answerable
  | E_ContinuationRetired => Some S_ContinuationRetired
  | E_ForwardBodyPrepared => Some S_Forwarded
  | E_InnerPlaneAccepted => Some S_InnerPlaneAccepted
  | E_RetentionCommitted => Some S_RetentionCommitted
  | E_BackendDispatched => Some S_Dispatched
  | E_ResponseObserved => Some S_ResponseObserved
  | E_EnvelopeValidated => Some S_ResponseValidated
  | E_ResponseClassified => Some S_ResponseClassified
  | E_ResponseSigned => Some S_ResponseSigned
  | E_OpenLegRecorded | E_ContinuationNotRequired => Some S_ContinuationSettled
  | E_EvidenceRetained => Some S_Retained
  | E_NotificationAcknowledged => Some S_AcknowledgedNotification
  | E_TerminalResponseServed => Some S_CompletedTerminal
  | E_OpenLegResponseServed => Some S_CompletedContinuationOpen
  | E_Refused => None
  end.

Definition served_tail (s : ServedSuccess) : list ExchangeEvent :=
  match s with
  | SS_Terminal => [E_EvidenceRetained; E_TerminalResponseServed]
  | SS_OpenLeg => [E_EvidenceRetained; E_OpenLegResponseServed]
  end.

Definition backend_may_have_executed (s : ExchangeState) : bool :=
  match s with
  | S_Received | S_Verified | S_TransportBound | S_AdmissionChecked | S_ContinuationPrepared
  | S_ReplayAdmitted | S_Answerable | S_ContinuationRetired | S_Forwarded
  | S_InnerPlaneAccepted | S_RefusedBeforeDispatch => false
  | S_RetentionCommitted | S_Dispatched | S_ResponseObserved | S_ResponseValidated
  | S_ResponseClassified | S_ResponseSigned | S_ContinuationSettled | S_Retained
  | S_AcknowledgedNotification | S_CompletedTerminal | S_CompletedContinuationOpen
  | S_FailedAfterDispatch => true
  end.

Definition is_terminal (s : ExchangeState) : bool :=
  match s with
  | S_AcknowledgedNotification | S_CompletedTerminal | S_CompletedContinuationOpen
  | S_RefusedBeforeDispatch | S_FailedAfterDispatch => true
  | _ => false
  end.

Definition is_success_terminal (s : ExchangeState) : bool :=
  match s with
  | S_AcknowledgedNotification | S_CompletedTerminal | S_CompletedContinuationOpen => true
  | _ => false
  end.

Inductive InvalidExchangeTransition := InvalidTransition.

Definition transition (state : ExchangeState) (event : ExchangeEvent)
    : Result ExchangeState InvalidExchangeTransition :=
  if is_terminal state then Err InvalidTransition
  else if bool_decide (event = E_Refused) then
    Ok (if backend_may_have_executed state then S_FailedAfterDispatch else S_RefusedBeforeDispatch)
  else match state, event with
  | S_Received, E_SignatureVerified => Ok S_Verified
  | S_Verified, E_TransportBindingChecked => Ok S_TransportBound
  | S_TransportBound, E_AdmissionCurrencyChecked => Ok S_AdmissionChecked
  | S_AdmissionChecked, E_ContinuationPrepared => Ok S_ContinuationPrepared
  | S_ContinuationPrepared, E_ReplayAdmitted => Ok S_ReplayAdmitted
  | S_ReplayAdmitted, E_DelegatedKeySnapshotted => Ok S_Answerable
  | S_Answerable, E_ContinuationRetired => Ok S_ContinuationRetired
  | S_ContinuationRetired, E_ForwardBodyPrepared => Ok S_Forwarded
  | S_Forwarded, E_InnerPlaneAccepted => Ok S_InnerPlaneAccepted
  | S_InnerPlaneAccepted, E_RetentionCommitted => Ok S_RetentionCommitted
  | S_RetentionCommitted, E_BackendDispatched => Ok S_Dispatched
  | S_Dispatched, E_NotificationAcknowledged => Ok S_AcknowledgedNotification
  | S_Dispatched, E_ResponseObserved => Ok S_ResponseObserved
  | S_ResponseObserved, E_EnvelopeValidated => Ok S_ResponseValidated
  | S_ResponseValidated, E_ResponseClassified => Ok S_ResponseClassified
  | S_ResponseClassified, E_ResponseSigned => Ok S_ResponseSigned
  | S_ResponseSigned, E_OpenLegRecorded => Ok S_ContinuationSettled
  | S_ResponseSigned, E_ContinuationNotRequired => Ok S_ContinuationSettled
  | S_ContinuationSettled, E_EvidenceRetained => Ok S_Retained
  | S_Retained, E_TerminalResponseServed => Ok S_CompletedTerminal
  | S_Retained, E_OpenLegResponseServed => Ok S_CompletedContinuationOpen
  | _, _ => Err InvalidTransition
  end.

(** ** [Established] and [ExchangeProgress] *)

Record Established (T : Type) := mkEstablished { est_value : T; est_event : ExchangeEvent }.
Arguments mkEstablished {T} _ _.
Arguments est_value {T} _.
Arguments est_event {T} _.

Record ExchangeProgress := mkProgress {
  request : ExchangeState;
  continuation : ContinuationState;
  backend : BackendState;
  origin : ResponseOrigin;
  open_leg : OpenLeg;
  anomaly : option bytes;
}.

Definition progress_new : ExchangeProgress :=
  mkProgress S_Received C_NotInvolved B_NotDispatched O_Undetermined L_NotApplicable None.

Definition expected_backend (s : ExchangeState) : BackendState :=
  if backend_may_have_executed s then B_Dispatched else B_NotDispatched.

Definition sync_backend (p : ExchangeProgress) : ExchangeProgress :=
  mkProgress (request p) (continuation p) (expected_backend (request p)) (origin p) (open_leg p) (anomaly p).

Definition latch (p : ExchangeProgress) (what : bytes) : ExchangeProgress :=
  match anomaly p with
  | None => mkProgress (request p) (continuation p) (backend p) (origin p) (open_leg p) (Some what)
  | Some _ => p
  end.

Definition raise_to (p : ExchangeProgress) (floor : ExchangeState) : ExchangeProgress :=
  if state_index (request p) <? state_index floor then
    mkProgress floor (continuation p) (backend p) (origin p) (open_leg p) (anomaly p)
  else p.

Definition ILLEGAL_TRANSITION : bytes := b#"the serving path drove an illegal exchange transition".
Definition OPEN_LEG_UNRECORDED : bytes := b#"an open leg was served without a durable continuation record".
Definition LEG_SERVED_AS_TERMINAL : bytes := b#"a reply that opens a leg was served as a terminal completion".
Definition SYNTHESIZED_SUCCESS : bytes := b#"synthesized transport-failure bytes were served as a success".
Definition BACKEND_DISAGREES : bytes := b#"the backend projection disagrees with the exchange state".
Definition NOT_A_SUCCESS : bytes :=
  b#"a success publication was checked against a tail that reaches no success terminal".

Definition invariant_violation (p : ExchangeProgress) : option bytes :=
  if bool_decide (request p = S_CompletedContinuationOpen) && negb (bool_decide (open_leg p = L_Recorded))
  then Some OPEN_LEG_UNRECORDED
  else if bool_decide (request p = S_CompletedTerminal) && negb (bool_decide (open_leg p = L_NotApplicable))
  then Some LEG_SERVED_AS_TERMINAL
  else if is_success_terminal (request p) && bool_decide (origin p = O_DispatchIndeterminate)
  then Some SYNTHESIZED_SUCCESS
  else if negb (bool_decide (backend p = expected_backend (request p)))
  then Some BACKEND_DISAGREES
  else None.

Definition advance (p : ExchangeProgress) (event : ExchangeEvent) : ExchangeProgress :=
  let p := match transition (request p) event with
           | Err _ => latch p ILLEGAL_TRANSITION
           | Ok _ => p
           end in
  let p := match establishes event with
           | Some floor => raise_to p floor
           | None => p
           end in
  let p := sync_backend p in
  match invariant_violation p with
  | Some violation => latch p violation
  | None => p
  end.

Definition advance_all (p : ExchangeProgress) (events : list ExchangeEvent) : ExchangeProgress :=
  foldl advance p events.

Definition establish {T} (p : ExchangeProgress) (e : Established T) : T * ExchangeProgress :=
  (est_value e, advance p (est_event e)).

(** The checks run on a copy; only the latch reaches the exchange itself. *)
Definition prospective_refusal (p : ExchangeProgress) (events : list ExchangeEvent)
    : option bytes * ExchangeProgress :=
  let prospective := advance_all p events in
  if is_success_terminal (request prospective) then
    match anomaly prospective with
    | None => (None, p)
    | Some violation => (Some violation, latch p violation)
    end
  else (Some NOT_A_SUCCESS, latch p NOT_A_SUCCESS).

Definition establish_terminal {T} (p : ExchangeProgress) (e : Established T)
    : Result T bytes * ExchangeProgress :=
  match prospective_refusal p [est_event e] with
  | (Some violation, p) => (Err violation, p)
  | (None, p) => let '(v, p) := establish p e in (Ok v, p)
  end.

Definition may_publish (p : ExchangeProgress) (success : ServedSuccess)
    : Result unit bytes * ExchangeProgress :=
  match prospective_refusal p (served_tail success) with
  | (Some violation, p) => (Err violation, p)
  | (None, p) => (Ok tt, p)
  end.

Definition publish (p : ExchangeProgress) (success : ServedSuccess) : ExchangeProgress :=
  advance_all p (served_tail success).

Definition observe_continuation (p : ExchangeProgress) (observed : ContinuationState) : ExchangeProgress :=
  if bool_decide (continuation p = C_Consumed) then p
  else mkProgress (request p) observed (backend p) (origin p) (open_leg p) (anomaly p).

Definition observe_origin (p : ExchangeProgress) (observed : ResponseOrigin) : ExchangeProgress :=
  if origin_index (origin p) <? origin_index observed then
    mkProgress (request p) (continuation p) (backend p) observed (open_leg p) (anomaly p)
  else p.

Definition observe_open_leg (p : ExchangeProgress) (observed : OpenLeg) : ExchangeProgress :=
  if open_leg_index (open_leg p) <? open_leg_index observed then
    mkProgress (request p) (continuation p) (backend p) (origin p) observed (anomaly p)
  else p.

Definition progress_retry_semantics (p : ExchangeProgress) : RetrySemantics :=
  if is_some (anomaly p) then NotRetrySafe
  else if backend_may_have_executed (request p) then NotRetrySafe
  else match continuation p with
       | C_Consumed => RequiresNewElicitation
       | C_NotInvolved | C_Peeked => SafeNothingExecuted
       end.

(** ** Runs of the machine

    What the serving path may call, in any order, and the events a call really drives. *)

Inductive ExchangeOp :=
  | Op_advance (e : ExchangeEvent)
  | Op_establish_terminal (e : ExchangeEvent)
  | Op_may_publish (s : ServedSuccess)
  | Op_publish (s : ServedSuccess)
  | Op_observe_continuation (c : ContinuationState)
  | Op_observe_origin (o : ResponseOrigin)
  | Op_observe_open_leg (l : OpenLeg).

Definition op_step (p : ExchangeProgress) (op : ExchangeOp) : ExchangeProgress :=
  match op with
  | Op_advance e => (establish p (mkEstablished tt e)).2
  | Op_establish_terminal e => (establish_terminal p (mkEstablished tt e)).2
  | Op_may_publish s => (may_publish p s).2
  | Op_publish s => publish p s
  | Op_observe_continuation c => observe_continuation p c
  | Op_observe_origin o => observe_origin p o
  | Op_observe_open_leg l => observe_open_leg p l
  end.
Definition op_run (p : ExchangeProgress) (ops : list ExchangeOp) : ExchangeProgress := foldl op_step p ops.

Definition op_events (p : ExchangeProgress) (op : ExchangeOp) : list ExchangeEvent :=
  match op with
  | Op_advance e => [e]
  | Op_establish_terminal e =>
      if is_ok (establish_terminal p (mkEstablished tt e)).1 then [e] else []
  | Op_publish s => served_tail s
  | _ => []
  end.
Fixpoint driven (p : ExchangeProgress) (ops : list ExchangeOp) : list ExchangeEvent :=
  match ops with
  | [] => []
  | op :: ops => op_events p op ++ driven (op_step p op) ops
  end.

(** The table alone, along a list of events; [None] once an event is illegal. *)
Fixpoint walk (s : ExchangeState) (es : list ExchangeEvent) : option ExchangeState :=
  match es with
  | [] => Some s
  | e :: es => match transition s e with Ok s' => walk s' es | Err _ => None end
  end.

(** Events that report a stage: all but [Refused]. *)
Definition stages (es : list ExchangeEvent) : list ExchangeEvent := filter (λ e, e ≠ E_Refused) es.

(** The pipeline up to the signed response. *)
Definition pipeline : list ExchangeEvent :=
  [E_SignatureVerified; E_TransportBindingChecked; E_AdmissionCurrencyChecked;
   E_ContinuationPrepared; E_ReplayAdmitted; E_DelegatedKeySnapshotted; E_ContinuationRetired;
   E_ForwardBodyPrepared; E_InnerPlaneAccepted; E_RetentionCommitted; E_BackendDispatched;
   E_ResponseObserved; E_EnvelopeValidated; E_ResponseClassified; E_ResponseSigned].

(** The one or two ways to a state. *)
Definition settled_by : list ExchangeEvent := [E_OpenLegRecorded; E_ContinuationNotRequired].
Definition histories (s : ExchangeState) : list (list ExchangeEvent) :=
  match s with
  | S_ContinuationSettled => (λ e, pipeline ++ [e]) <$> settled_by
  | S_Retained => (λ e, pipeline ++ [e; E_EvidenceRetained]) <$> settled_by
  | S_CompletedTerminal => (λ e, pipeline ++ e :: served_tail SS_Terminal) <$> settled_by
  | S_CompletedContinuationOpen => (λ e, pipeline ++ e :: served_tail SS_OpenLeg) <$> settled_by
  | S_AcknowledgedNotification => [take 11 pipeline ++ [E_NotificationAcknowledged]]
  | S_RefusedBeforeDispatch | S_FailedAfterDispatch => []
  | _ => [take (Z.to_nat (state_index s)) pipeline]
  end.

(** ** The table *)

Ltac by_states := repeat match goal with s : ExchangeState |- _ => destruct s end.

Lemma transition_Refused s :
  transition s E_Refused =
    if is_terminal s then Err InvalidTransition
    else Ok (if backend_may_have_executed s then S_FailedAfterDispatch else S_RefusedBeforeDispatch).
Proof. by destruct s. Qed.

(** A legal stage moves to the state it establishes, which is later in the order. *)
Lemma transition_establishes s e s' :
  transition s e = Ok s' → e ≠ E_Refused → establishes e = Some s' ∧ state_index s < state_index s'.
Proof. destruct s, e; simpl; intros [= <-] ?; done. Qed.

Lemma transition_increases s e s' : transition s e = Ok s' → state_index s + 1 ≤ state_index s'.
Proof. destruct s, e; simpl; intros [= <-]; vm_compute; done. Qed.

(** What refuses no event is exactly what is not terminal. *)
Lemma transition_enabled s : is_terminal s = false ↔ ∃ e s', transition s e = Ok s'.
Proof.
  split.
  - intros Hs. exists E_Refused. rewrite transition_Refused, Hs. eauto.
  - intros (e & s' & H). unfold transition in H. by destruct (is_terminal s).
Qed.

Lemma walk_app s es1 es2 : walk s (es1 ++ es2) = walk s es1 ≫= λ s', walk s' es2.
Proof.
  revert s. induction es1 as [|e es1 IH]; intros s; [done|]. cbn [walk app].
  destruct (transition s e); [apply IH|done].
Qed.

Lemma walk_history es s :
  walk S_Received es = Some s → E_Refused ∉ es → es ∈ histories s.
Proof.
  revert s. induction es as [|e es IH] using rev_ind; intros s Hw Hr.
  { injection Hw as <-. set_solver. }
  rewrite walk_app in Hw. destruct (walk S_Received es) as [s0|] eqn:E0; [|done].
  cbn in Hw. destruct (transition s0 e) as [s1|] eqn:E1; [|done]. injection Hw as ->.
  assert (Hes : es ∈ histories s0) by (apply IH; [done|set_solver]).
  assert (e ≠ E_Refused) as Hne by set_solver. clear IH Hr E0.
  destruct s0, e; try done; injection E1 as <-; cbn in Hes;
    repeat (apply elem_of_cons in Hes as [->|Hes]; [eapply bool_decide_unpack; vm_compute; exact I|]);
    by apply not_elem_of_nil in Hes.
Qed.

Lemma walk_length s es s' : walk s es = Some s' → Z.of_nat (length es) ≤ state_index s' - state_index s.
Proof.
  revert s. induction es as [|e es IH]; intros s Hw.
  { injection Hw as ->. simpl. lia. }
  cbn in Hw. destruct (transition s e) as [s1|] eqn:E; [|done].
  apply transition_increases in E. apply IH in Hw. simpl. lia.
Qed.

(** ** One advance *)

Definition advance_target (s : ExchangeState) (e : ExchangeEvent) : ExchangeState :=
  match establishes e with
  | Some floor => if state_index s <? state_index floor then floor else s
  | None => s
  end.

Lemma latch_frame p w :
  request (latch p w) = request p ∧ continuation (latch p w) = continuation p ∧
  backend (latch p w) = backend p ∧ origin (latch p w) = origin p ∧ open_leg (latch p w) = open_leg p ∧
  anomaly (latch p w) = Some (default w (anomaly p)).
Proof. unfold latch. destruct (anomaly p) eqn:E; naive_solver. Qed.

Lemma advance_frame p e :
  request (advance p e) = advance_target (request p) e ∧
  continuation (advance p e) = continuation p ∧
  backend (advance p e) = expected_backend (request (advance p e)) ∧
  origin (advance p e) = origin p ∧ open_leg (advance p e) = open_leg p.
Proof.
  destruct p as [s c b o l a]. unfold advance, advance_target, raise_to, sync_backend, latch. cbn.
  destruct a as [w|], (transition s e), (establishes e) as [f|]; cbn;
    repeat match goal with
    | |- context [if ?b then _ else _] => destruct b
    | |- context [match invariant_violation ?q with _ => _ end] => destruct (invariant_violation q)
    end; cbn; done.
Qed.

Definition after (p : ExchangeProgress) (e : ExchangeEvent) : ExchangeProgress :=
  mkProgress (advance_target (request p) e) (continuation p) (expected_backend (advance_target (request p) e))
    (origin p) (open_leg p) (anomaly p).

(** The checks of an advance, and the first of their complaints. *)
Lemma advance_anomaly p e :
  anomaly (advance p e) =
    match anomaly p with
    | Some w => Some w
    | None => if is_ok (transition (request p) e) then invariant_violation (after p e) else Some ILLEGAL_TRANSITION
    end.
Proof.
  destruct p as [s c b o l a]. unfold advance, after, advance_target, raise_to, sync_backend, latch. cbn.
  destruct a as [w|], (transition s e), (establishes e) as [f|]; cbn;
    try destruct (state_index s <? state_index f); cbn;
    match goal with |- context [match invariant_violation ?q with _ => _ end] => destruct (invariant_violation q) eqn:? end;
    cbn; done.
Qed.

Lemma advance_clean p e :
  anomaly (advance p e) = None →
  anomaly p = None ∧ invariant_violation (advance p e) = None ∧
  ∃ s', transition (request p) e = Ok s' ∧
        request (advance p e) = if bool_decide (e = E_Refused) then request p else s'.
Proof.
  intros H. pose proof (advance_anomaly p e) as Ha. rewrite H in Ha.
  destruct (anomaly p) eqn:Ep; [done|]. destruct (transition (request p) e) as [s'|] eqn:Et; [|done]. cbn in Ha.
  destruct (advance_frame p e) as (Hr & Hc & Hb & Ho & Hl).
  assert (advance p e = after p e) as Heq.
  { destruct (advance p e) as [s c b o l a] eqn:Ead, p as [s0 c0 b0 o0 l0 a0]. unfold after. cbn in *. congruence. }
  split; [done|]. split; [by rewrite Heq|]. exists s'. split; [done|]. rewrite Hr. unfold advance_target.
  case_bool_decide as He; [by subst e|].
  destruct (transition_establishes _ _ _ Et He) as [-> Hlt]. by rewrite (proj2 (Z.ltb_lt _ _) Hlt).
Qed.

(** Along several events. *)
Lemma advance_all_clean p es :
  anomaly (advance_all p es) = None →
  anomaly p = None ∧ walk (request p) (stages es) = Some (request (advance_all p es)).
Proof.
  unfold advance_all, stages. revert p. induction es as [|e es IH]; intros p H; [done|]. cbn [foldl] in H.
  apply IH in H as [Ha Hw]. apply advance_clean in Ha as (Ha & _ & s' & Ht & Hr).
  split; [done|]. cbn [foldl]. rewrite <- Hw, filter_cons, Hr. case_bool_decide as He.
  - by rewrite decide_False by tauto.
  - rewrite decide_True by done. cbn [walk]. by rewrite Ht.
Qed.

Lemma advance_all_frame p es :
  continuation (advance_all p es) = continuation p ∧ origin (advance_all p es) = origin p ∧
  open_leg (advance_all p es) = open_leg p.
Proof.
  unfold advance_all. revert p. induction es as [|e es IH]; intros p; [done|]. cbn [foldl].
  destruct (IH (advance p e)) as (-> & -> & ->). by destruct (advance_frame p e) as (_ & ? & _ & ? & ?).
Qed.

(** ** The exchange only moves forward *)

Definition forward (p q : ExchangeProgress) : Prop :=
  (is_Some (anomaly p) → anomaly q = anomaly p) ∧
  state_index (request p) ≤ state_index (request q) ∧
  (backend_may_have_executed (request p) = true → backend_may_have_executed (request q) = true) ∧
  (continuation p = C_Consumed → continuation q = C_Consumed) ∧
  (request p ≠ S_RefusedBeforeDispatch → request q ≠ S_RefusedBeforeDispatch).

#[global] Instance forward_preorder : PreOrder forward.
Proof.
  split.
  - by repeat split; try lia.
  - intros p q r (A1 & B1 & C1 & D1 & F1) (A2 & B2 & C2 & D2 & F2). repeat split; eauto; [|lia].
    intros H. rewrite <- (A1 H). apply A2. by rewrite A1.
Qed.

Lemma forward_same p q :
  request p = request q → anomaly p = anomaly q → (continuation p = C_Consumed → continuation q = C_Consumed) →
  forward p q.
Proof. intros E1 E2 E3. unfold forward. rewrite E1, E2. repeat split; auto; lia. Qed.

Lemma forward_latch p w : forward p (latch p w).
Proof.
  destruct (latch_frame p w) as (E1 & E2 & _ & _ & _ & E3). unfold forward. rewrite E1, E2, E3.
  repeat split; auto; [|lia]. by intros [x ->].
Qed.

Lemma forward_advance p e : forward p (advance p e).
Proof.
  destruct (advance_frame p e) as (Hr & Hc & _). split; [|split; [|split; [|split]]].
  - intros [w Hw]. by rewrite advance_anomaly, Hw.
  - rewrite Hr. unfold advance_target. destruct (establishes e) as [f|]; [|lia].
    destruct (Z.ltb_spec (state_index (request p)) (state_index f)); lia.
  - rewrite Hr. unfold advance_target. by destruct (request p), e.
  - by rewrite Hc.
  - rewrite Hr. unfold advance_target. by destruct (request p), e.
Qed.

Lemma forward_advance_all p es : forward p (advance_all p es).
Proof.
  unfold advance_all. revert p. induction es as [|e es IH]; intros p; [reflexivity|].
  etrans; [apply forward_advance|apply IH].
Qed.

Lemma prospective_refusal_cases p es :
  (prospective_refusal p es = (None, p) ∧ anomaly (advance_all p es) = None ∧
     is_success_terminal (request (advance_all p es)) = true) ∨
  (∃ w, prospective_refusal p es = (Some w, latch p w) ∧
     (anomaly (advance_all p es) ≠ None ∨ is_success_terminal (request (advance_all p es)) = false)).
Proof.
  unfold prospective_refusal. destruct (is_success_terminal _); [|eauto].
  destruct (anomaly (advance_all p es)); [right|left]; naive_solver.
Qed.

Lemma establish_terminal_cases {T} p (e : Established T) :
  (establish_terminal p e = (Ok (est_value e), advance p (est_event e)) ∧
     anomaly (advance p (est_event e)) = None ∧ is_success_terminal (request (advance p (est_event e))) = true) ∨
  (∃ w, establish_terminal p e = (Err w, latch p w)).
Proof.
  unfold establish_terminal. destruct (prospective_refusal_cases p [est_event e]) as [(-> & H)|(w & -> & _)]; eauto.
Qed.

Lemma may_publish_cases p s :
  (may_publish p s = (Ok tt, p) ∧ anomaly (publish p s) = None ∧ is_success_terminal (request (publish p s)) = true) ∨
  (∃ w, may_publish p s = (Err w, latch p w) ∧
     (anomaly (publish p s) ≠ None ∨ is_success_terminal (request (publish p s)) = false)).
Proof.
  unfold may_publish, publish.
  destruct (prospective_refusal_cases p (served_tail s)) as [(-> & H)|(w & -> & H)]; eauto.
Qed.

Lemma forward_op p op : forward p (op_step p op).
Proof.
  destruct op as [e|e|s|s|c|o|l]; cbn.
  - apply forward_advance.
  - destruct (establish_terminal_cases p (mkEstablished tt e)) as [(-> & _)|(w & ->)];
      [apply forward_advance|apply forward_latch].
  - destruct (may_publish_cases p s) as [(-> & _)|(w & -> & _)]; [reflexivity|apply forward_latch].
  - apply forward_advance_all.
  - unfold observe_continuation. case_bool_decide as Hc; [reflexivity|]. by apply forward_same.
  - unfold observe_origin. destruct (_ <? _); by apply forward_same.
  - unfold observe_open_leg. destruct (_ <? _); by apply forward_same.
Qed.

Lemma forward_run p ops : forward p (op_run p ops).
Proof.
  unfold op_run. revert p. induction ops as [|op ops IH]; intros p; [reflexivity|].
  etrans; [apply forward_op|apply IH].
Qed.

Lemma forward_retry p q :
  forward p q → retry_index (progress_retry_semantics p) ≤ retry_index (progress_retry_semantics q).
Proof.
  intros (HA & _ & HC & HD & _). unfold progress_retry_semantics.
  destruct (anomaly p) as [w|] eqn:Ep.
  { rewrite (HA (mk_is_Some _ _ eq_refl)). done. }
  cbn [is_some]. destruct (is_some (anomaly q)); cbn [retry_index].
  { by destruct (backend_may_have_executed (request p)), (continuation p). }
  destruct (backend_may_have_executed (request p)); [by rewrite HC|].
  destruct (backend_may_have_executed (request q)); [by destruct (continuation p)|].
  destruct (continuation p); [| |by rewrite HD]; by destruct (continuation q).
Qed.

(** ** Whole runs *)

Lemma op_clean p op :
  anomaly (op_step p op) = None →
  anomaly p = None ∧ walk (request p) (stages (op_events p op)) = Some (request (op_step p op)).
Proof.
  destruct op as [e|e|s|s|c|o|l]; cbn [op_step op_events].
  - apply (advance_all_clean p [e]).
  - destruct (establish_terminal_cases p (mkEstablished tt e)) as [(-> & _)|(w & ->)]; cbn [fst snd is_ok].
    + apply (advance_all_clean p [e]).
    + destruct (latch_frame p w) as (_ & _ & _ & _ & _ & ->). done.
  - destruct (may_publish_cases p s) as [(-> & _)|(w & -> & _)]; cbn [snd]; [done|].
    destruct (latch_frame p w) as (_ & _ & _ & _ & _ & ->). done.
  - apply advance_all_clean.
  - unfold observe_continuation. by case_bool_decide.
  - unfold observe_origin. by destruct (_ <? _).
  - unfold observe_open_leg. by destruct (_ <? _).
Qed.

(** A run that latched nothing followed the table, stage by stage. *)
Lemma run_clean p ops :
  anomaly (op_run p ops) = None →
  anomaly p = None ∧ walk (request p) (stages (driven p ops)) = Some (request (op_run p ops)).
Proof.
  unfold op_run, stages. revert p. induction ops as [|op ops IH]; intros p H; [done|]. cbn [foldl] in H.
  apply IH in H as [Ha Hw]. apply op_clean in Ha as [Ha Hw1]. split; [done|].
  cbn [driven foldl]. rewrite filter_app, walk_app. unfold stages in Hw1. rewrite Hw1. exact Hw.
Qed.

Lemma stages_no_refused es : E_Refused ∉ stages es.
Proof. unfold stages. intros H. apply list_elem_of_filter in H. tauto. Qed.

(** The leg a kind of publication asks for. *)
Definition leg_of (s : ServedSuccess) : OpenLeg :=
  match s with SS_Terminal => L_NotApplicable | SS_OpenLeg => L_Recorded end.
Definition terminal_of (s : ServedSuccess) : ExchangeState :=
  match s with SS_Terminal => S_CompletedTerminal | SS_OpenLeg => S_CompletedContinuationOpen end.

Lemma publish_settled p s :
  anomaly p = None → request p = S_ContinuationSettled → origin p ≠ O_DispatchIndeterminate → open_leg p = leg_of s →
  request (publish p s) = terminal_of s ∧ anomaly (publish p s) = None.
Proof.
  destruct p as [r c b o l a]. cbn. intros -> -> Ho ->.
  destruct o; [| |done]; destruct s; vm_compute; done.
Qed.

Lemma published_settled p s :
  anomaly (publish p s) = None →
  anomaly p = None ∧ request p = S_ContinuationSettled ∧ origin p ≠ O_DispatchIndeterminate ∧ open_leg p = leg_of s.
Proof.
  intros H. destruct (advance_all_clean _ _ H) as [Ha Hw].
  destruct p as [r c b o l a]. cbn in Ha. subst a.
  destruct r; try (destruct s; discriminate Hw).
  destruct o, l, s; vm_compute in H; try discriminate H; done.
Qed.

(** The observations only move forward, and only the observation itself consumes. *)
Lemma op_observed p op :
  origin_index (origin p) ≤ origin_index (origin (op_step p op)) ∧
  (continuation (op_step p op) = C_Consumed ↔
   continuation p = C_Consumed ∨ op = Op_observe_continuation C_Consumed).
Proof.
  destruct op as [e|e|s|s|c|o|l]; cbn [op_step].
  - destruct (advance_frame p e) as (_ & Hc & _ & Ho & _). cbn. rewrite Hc, Ho. naive_solver lia.
  - destruct (establish_terminal_cases p (mkEstablished tt e)) as [(-> & _)|(w & ->)]; cbn.
    + destruct (advance_frame p e) as (_ & Hc & _ & Ho & _). rewrite Hc, Ho. naive_solver lia.
    + destruct (latch_frame p w) as (_ & -> & _ & -> & _). naive_solver lia.
  - destruct (may_publish_cases p s) as [(-> & _)|(w & -> & _)]; cbn [snd]; [naive_solver lia|].
    destruct (latch_frame p w) as (_ & -> & _ & -> & _). naive_solver lia.
  - unfold publish. destruct (advance_all_frame p (served_tail s)) as (-> & -> & _). naive_solver lia.
  - unfold observe_continuation. case_bool_decide; cbn; naive_solver lia.
  - unfold observe_origin. destruct (Z.ltb_spec (origin_index (origin p)) (origin_index o)); cbn; naive_solver lia.
  - unfold observe_open_leg. destruct (_ <? _); cbn; naive_solver lia.
Qed.

Lemma run_consumed p ops :
  continuation (op_run p ops) = C_Consumed ↔
  continuation p = C_Consumed ∨ Op_observe_continuation C_Consumed ∈ ops.
Proof.
  unfold op_run. revert p. induction ops as [|op ops IH]; intros p; cbn [foldl]; [set_solver|].
  rewrite IH, (proj2 (op_observed p op)), elem_of_cons. naive_solver.
Qed.

(** Synthesized bytes never reach a success terminal unlatched. *)
Lemma indeterminate_op p op :
  origin p = O_DispatchIndeterminate → is_success_terminal (request p) = false →
  anomaly (op_step p op) = None →
  origin (op_step p op) = O_DispatchIndeterminate ∧ is_success_terminal (request (op_step p op)) = false.
Proof.
  intros Ho Hs Ha. split.
  { destruct (op_observed p op) as [Hle _]. rewrite Ho in Hle. by destruct (origin (op_step p op)). }
  assert (∀ q e, origin q = O_DispatchIndeterminate → anomaly (advance q e) = None →
    is_success_terminal (request (advance q e)) = false) as Hadv.
  { intros q e Hq Hc. destruct (advance_clean q e Hc) as (_ & Hinv & _).
    destruct (is_success_terminal (request (advance q e))) eqn:E; [|done]. unfold invariant_violation in Hinv.
    destruct (advance_frame q e) as (_ & _ & _ & Ho' & _). rewrite E, Ho', Hq in Hinv. cbn in Hinv.
    destruct (_ && _); [done|]. by destruct (_ && _). }
  destruct op as [e|e|s|s|c|o|l]; cbn [op_step] in *.
  - by apply Hadv.
  - destruct (establish_terminal_cases p (mkEstablished tt e)) as [(E & _)|(w & E)]; rewrite E in *; cbn [snd] in *.
    + by apply Hadv.
    + by destruct (latch_frame p w) as (-> & _).
  - destruct (may_publish_cases p s) as [(E & _)|(w & E & _)]; rewrite E in *; cbn [snd] in *; [done|].
    by destruct (latch_frame p w) as (-> & _).
  - apply published_settled in Ha as (_ & _ & Hne & _). done.
  - unfold observe_continuation. by case_bool_decide.
  - unfold observe_origin. by destruct (_ <? _).
  - unfold observe_open_leg. by destruct (_ <? _).
Qed.

Lemma indeterminate_run p ops :
  origin p = O_DispatchIndeterminate → is_success_terminal (request p) = false →
  anomaly (op_run p ops) = None → is_success_terminal (request (op_run p ops)) = false.
Proof.
  unfold op_run. revert p. induction ops as [|op ops IH]; intros p Ho Hs Ha; [done|]. cbn [foldl] in *.
  assert (anomaly (op_step p op) = None) as Ha1.
  { destruct (forward_run (op_step p op) ops) as [H _]. unfold op_run in H.
    destruct (anomaly (op_step p op)); [|done]. rewrite (H (mk_is_Some _ _ eq_refl)) in Ha. done. }
  destruct (indeterminate_op p op Ho Hs Ha1) as [Ho1 Hs1]. by apply IH.
Qed.

(** An event past the execution threshold, legal or not, is never forgotten. *)
Lemma advance_all_reaches p es e f :
  e ∈ es → establishes e = Some f → state_index f ≤ state_index (request (advance_all p es)).
Proof.
  intros He Hf. revert p. induction es as [|e0 es IH]; intros p; [by apply not_elem_of_nil in He|].
  apply elem_of_cons in He as [<-|He]; [|by apply IH].
  transitivity (state_index (request (advance p e))); [|apply (forward_advance_all (advance p e) es)].
  destruct (advance_frame p e) as (-> & _). unfold advance_target. rewrite Hf.
  destruct (Z.ltb_spec (state_index (request p)) (state_index f)); lia.
Qed.

Lemma op_events_advanced p op : op_events p op ≠ [] → op_step p op = advance_all p (op_events p op).
Proof.
  destruct op as [e|e|s|s|c|o|l]; cbn [op_step op_events]; try done.
  destruct (establish_terminal_cases p (mkEstablished tt e)) as [(-> & _)|(w & ->)]; done.
Qed.

Lemma driven_reaches p ops e f :
  e ∈ driven p ops → establishes e = Some f → state_index f ≤ state_index (request (op_run p ops)).
Proof.
  intros He Hf. unfold op_run. revert p He. induction ops as [|op ops IH]; intros p He; cbn [driven foldl] in *.
  { by apply not_elem_of_nil in He. }
  apply elem_of_app in He as [He|He]; [|by apply IH].
  transitivity (state_index (request (op_step p op))); [|apply (forward_run (op_step p op) ops)].
  rewrite op_events_advanced by (intros E; rewrite E in He; by apply not_elem_of_nil in He).
  by eapply advance_all_reaches.
Qed.

Lemma executed_index s :
  s ≠ S_RefusedBeforeDispatch → (backend_may_have_executed s = true ↔ state_index S_RetentionCommitted ≤ state_index s).
Proof. destruct s; cbn; naive_solver lia. Qed.

Lemma driven_executed ops e f :
  e ∈ driven progress_new ops → establishes e = Some f → backend_may_have_executed f = true →
  backend_may_have_executed (request (op_run progress_new ops)) = true.
Proof.
  intros He Hf Hx. destruct (forward_run progress_new ops) as (_ & _ & _ & _ & Hn).
  apply executed_index; [by apply Hn|]. etrans; [|by eapply driven_reaches].
  apply executed_index; [|done]. by destruct e; simplify_eq/=.
Qed.

(** ** What the machine guarantees *)

(** A success may be published exactly when nothing was latched, every stage of the pipeline
    was reported once and in order and nothing else but refusals was, the reply is the backend's
    own and the leg it opens, if any, is on record; the publication then ends in its own terminal
    state with nothing latched. Otherwise nothing moves, the complaint is remembered and the
    exchange is not retry-safe. *)
Lemma publication_after_every_stage ops s :
  let p := op_run progress_new ops in
  let earned :=
    anomaly p = None ∧ (∃ e, e ∈ settled_by ∧ stages (driven progress_new ops) = pipeline ++ [e]) ∧
    open_leg p = leg_of s ∧ origin p ≠ O_DispatchIndeterminate in
  (earned → may_publish p s = (Ok tt, p) ∧ request (publish p s) = terminal_of s ∧ anomaly (publish p s) = None) ∧
  (¬ earned → ∃ w, may_publish p s = (Err w, latch p w) ∧ anomaly (latch p w) ≠ None ∧
                   progress_retry_semantics (latch p w) = NotRetrySafe).
Proof.
  intros p earned.
  assert (earned ↔ anomaly p = None ∧ request p = S_ContinuationSettled ∧
    origin p ≠ O_DispatchIndeterminate ∧ open_leg p = leg_of s) as Hex.
  { split.
    - intros (Ha & (e & He & Hst) & Hl & Ho). destruct (run_clean _ _ Ha) as [_ Hw]. repeat split; try done.
      rewrite Hst in Hw. apply elem_of_cons in He as [->|He]; [by injection Hw|].
      apply list_elem_of_singleton in He as ->. by injection Hw.
    - intros (Ha & Hr & Ho & Hl). repeat split; try done. destruct (run_clean _ _ Ha) as [_ Hw].
      fold p in Hw. rewrite Hr in Hw. apply walk_history in Hw; [|apply stages_no_refused].
      apply list_elem_of_fmap in Hw as (e & -> & He). eauto. }
  destruct (may_publish_cases p s) as [(Hm & Ha & Ht)|(w & Hm & Hbad)]; rewrite Hm; split.
  - intros (Hp & Hr & Ho & Hl)%Hex. split; [done|]. by apply publish_settled.
  - intros []. apply Hex, published_settled, Ha.
  - intros (Hp & Hr & Ho & Hl)%Hex. destruct (publish_settled p s Hp Hr Ho Hl) as [E1 E2].
    rewrite E1, E2 in Hbad. by destruct s, Hbad.
  - intros _. exists w. destruct (latch_frame p w) as (_ & _ & _ & _ & _ & E). unfold progress_retry_semantics.
    by rewrite E.
Qed.

(** What an exchange says about retrying only ever gets stricter, whatever is called; and an
    event at or past the retention commitment, in order or not, rules a retry out for good. *)
Lemma consequence_never_weakens ops ops' :
  retry_index (progress_retry_semantics (op_run progress_new ops)) ≤
    retry_index (progress_retry_semantics (op_run progress_new (ops ++ ops'))) ∧
  (∀ e f, e ∈ driven progress_new ops → establishes e = Some f → backend_may_have_executed f = true →
     progress_retry_semantics (op_run progress_new (ops ++ ops')) = NotRetrySafe).
Proof.
  assert (retry_index (progress_retry_semantics (op_run progress_new ops)) ≤
    retry_index (progress_retry_semantics (op_run progress_new (ops ++ ops')))) as Hle.
  { apply forward_retry. unfold op_run. rewrite foldl_app. apply (forward_run (op_run progress_new ops) ops'). }
  split; [done|]. intros e f He Hf Hx.
  assert (progress_retry_semantics (op_run progress_new ops) = NotRetrySafe) as E.
  { unfold progress_retry_semantics. rewrite (driven_executed _ _ _ He Hf Hx). by destruct (is_some _). }
  rewrite E in Hle. by destruct (progress_retry_semantics (op_run progress_new (ops ++ ops'))).
Qed.

(** A retry is offered as safe exactly when the exchange stayed on the pipeline, stopped
    before the retention commitment, and no continuation was ever consumed. *)
Lemma retry_safe_exact ops :
  progress_retry_semantics (op_run progress_new ops) = SafeNothingExecuted ↔
    anomaly (op_run progress_new ops) = None ∧
    (∃ n, (n ≤ 9)%nat ∧ stages (driven progress_new ops) = take n pipeline) ∧
    Op_observe_continuation C_Consumed ∉ ops.
Proof.
  set (p := op_run progress_new ops).
  assert (continuation p = C_Consumed ↔ Op_observe_continuation C_Consumed ∈ ops) as Hc.
  { unfold p. rewrite run_consumed. naive_solver. }
  transitivity (anomaly p = None ∧ backend_may_have_executed (request p) = false ∧ continuation p ≠ C_Consumed).
  { unfold progress_retry_semantics. destruct (anomaly p), (backend_may_have_executed (request p)), (continuation p);
      naive_solver. }
  rewrite Hc. split; intros (Ha & Hx & Hn); (split; [done|]); (split; [|done]);
    destruct (run_clean _ _ Ha) as [_ Hw]; fold p in Hw.
  - pose proof (walk_history _ _ Hw (stages_no_refused _)) as Hh.
    destruct (request p) eqn:Er; try done; cbn in Hh; try (by apply not_elem_of_nil in Hh);
      apply list_elem_of_singleton in Hh; eexists; (split; [|exact Hh]); vm_compute; lia.
  - destruct Hx as (n & Hle & Hst). rewrite Hst in Hw.
    do 10 (destruct n as [|n]; [by injection Hw as <-|]). lia.
Qed.

(** C28: no exchange is stuck: each unlatched run reports at most one stage per state still ahead,
    and an unfinished, unlatched exchange can be completed without a complaint exactly when its
    reply is not a synthesized one. *)
Theorem coherent_exchange_can_complete p :
  anomaly p = None → is_terminal (request p) = false →
  (∀ ops, anomaly (op_run p ops) = None →
     Z.of_nat (length (stages (driven p ops))) ≤ state_index S_FailedAfterDispatch - state_index (request p)) ∧
  (origin p ≠ O_DispatchIndeterminate ↔
   ∃ ops, anomaly (op_run p ops) = None ∧ is_success_terminal (request (op_run p ops)) = true).
Proof.
  intros Ha Ht. split.
  { intros ops Hr. destruct (run_clean _ _ Hr) as [_ Hw]. apply walk_length in Hw.
    assert (∀ s, state_index s ≤ 22) as Hmax by (intros []; vm_compute; done).
    specialize (Hmax (request (op_run p ops))). cbn. lia. }
  split.
  - intros Ho. set (s := if bool_decide (open_leg p = L_NotApplicable) then SS_Terminal else SS_OpenLeg).
    exists (Op_observe_open_leg (leg_of s) :: (Op_advance <$>
      drop (Z.to_nat (state_index (request p))) (pipeline ++ E_ContinuationNotRequired :: served_tail s))).
    destruct p as [r c b o l a]; cbn in Ha, Ht, Ho; subst a.
    destruct r; try discriminate Ht; destruct o; try done; destruct l; vm_compute; done.
  - intros (ops & Hc & Hs) Ho. rewrite (indeterminate_run p ops Ho) in Hs; [done| |done].
    by destruct (request p).
Qed.

(** A coherent exchange in the middle of the pipeline. *)
Definition answered : ExchangeProgress :=
  op_run progress_new
    ((Op_advance <$> pipeline) ++ [Op_observe_origin O_BackendReplied; Op_observe_open_leg L_Required]).

Lemma coherent_exchange_can_complete_witness :
  request answered = S_ResponseSigned ∧
  ∃ ops, anomaly (op_run answered ops) = None ∧ is_success_terminal (request (op_run answered ops)) = true.
Proof.
  split; [vm_compute; reflexivity|].
  apply (coherent_exchange_can_complete answered); vm_compute; [reflexivity|reflexivity|discriminate].
Defined.

Definition settled_ops : list ExchangeOp :=
  (Op_advance <$> pipeline ++ [E_ContinuationNotRequired]) ++ [Op_observe_origin O_BackendReplied].
