(* ===== verification/ReplayTier.v ===== *)
(** * [mcp-re-proxy/src/async_replay]: the replay tier of the serving path

    [bounds.rs], [retained_set.rs], [local_refusals.rs] and [in_memory.rs] are the in-process
    store; [l1_fast_reject.rs] puts a bounded set of known keys in front of any store;
    [retention_ledger.rs], [charge.rs] and [mod.rs] charge each request for the entry it would
    retain. Requests interleave at every [await], so the tier is also a system of tasks. *)

From stdpp Require Import sorting.
From S2P Require Import Prelude.
From S2P Require Import RustStr.
From S2P Require Import Externals.
From S2P Require Import Concrete.
From S2P Require Import CoreReplay.
From S2P Require Import CoreResolver.
From S2P Require Import Policy.

(** ** [shared_replay.rs] *)

Inductive ReplayStoreError := StoreUnavailable (details : bytes).
Definition from_ReplayStoreError (e : ReplayStoreError) : ReplayCacheError :=
  match e with StoreUnavailable d => Unavailable d end.

Definition is_stale_pre_store (retain_until_unix now_unix : Z) : bool :=
  saturating_sub retain_until_unix now_unix <=? 0.

Definition replay_preimage (signer audience nonce : bytes) : bytes :=
  fmt_nat (Z.of_nat (length signer)) ++ b#":" ++ signer ++ b#"|" ++
  fmt_nat (Z.of_nat (length audience)) ++ b#":" ++ audience ++ b#"|" ++
  fmt_nat (Z.of_nat (length nonce)) ++ b#":" ++ nonce.
Definition composite_replay_key `{Base64, Sha2} (signer audience nonce : bytes) : bytes :=
  sha256_hash_id (replay_preimage signer audience nonce).

(** ** [config_state/freshness.rs]: one skew for the verifier and for retention *)

Record FreshnessWindow := { fw_max_clock_skew_secs : Z }.
Definition FreshnessWindow_new (max_clock_skew_secs : Z) : option FreshnessWindow :=
  if (0 <=? max_clock_skew_secs) && (max_clock_skew_secs <=? MAX_CLOCK_SKEW_BOUND)
  then Some {| fw_max_clock_skew_secs := max_clock_skew_secs |} else None.
Definition verifier_skew_secs (w : FreshnessWindow) : Z := fw_max_clock_skew_secs w.
Definition replay_retain_until (w : FreshnessWindow) (expires_at_unix : Z) : Z :=
  saturating_add expires_at_unix (fw_max_clock_skew_secs w).
Definition verifier_accepts_until (w : FreshnessWindow) (expires_at_unix : Z) : Z :=
  saturating_add expires_at_unix (fw_max_clock_skew_secs w).

(** ** [bounds.rs] *)

Definition ASYNC_PRUNE_EVERY_N_INSERTS : Z := 64.
Definition ASYNC_MAX_ENTRIES : Z := 1000000.
Definition ASYNC_RESERVE_DIVISOR : Z := 5.

Definition usize_add (a b : Z) : Z := clamp_u64 (a + b).
Definition usize_sub (a b : Z) : Z := clamp_u64 (a - b).

Definition per_actor_budget (max_entries actors : Z) : Z :=
  let reserve := max_entries / ASYNC_RESERVE_DIVISOR in
  let spendable := usize_sub max_entries reserve in
  let share := spendable / Z.max actors 1 in
  Z.max share 1.

Definition under_pressure (len max_entries : Z) : bool :=
  usize_sub max_entries (max_entries / ASYNC_RESERVE_DIVISOR) <=? len.

(** [BTreeMap<i64, Vec<_>>]: [split_off(&now)] keeps the keys from [now] on; the rest is
    visited in ascending order of keys, each list in insertion order. *)
Definition split_live {A} (m : gmap Z (list A)) (now : Z) : gmap Z (list A) :=
  filter (λ kv : Z * list A, now ≤ kv.1) m.
Definition by_key {A} (x y : Z * list A) : Prop := x.1 ≤ y.1.
#[global] Instance by_key_dec {A} (x y : Z * list A) : Decision (by_key x y).
Proof. unfold by_key. apply _. Defined.
Definition dead_items {A} (m : gmap Z (list A)) (now : Z) : list A :=
  concat ((merge_sort by_key (map_to_list (filter (λ kv : Z * list A, kv.1 < now) m))).*2).
Definition push_at {A} (m : gmap Z (list A)) (k : Z) (x : A) : gmap Z (list A) :=
  <[k := default [] (m !! k) ++ [x]]> m.

(** [HashMap<Arc<str>, usize>]: one more, one less. *)
Definition charge_one (m : gmap bytes Z) (actor : bytes) : gmap bytes Z :=
  <[actor := usize_add (default 0 (m !! actor)) 1]> m.
Definition discharge (m : gmap bytes Z) (actor : bytes) : gmap bytes Z :=
  match m !! actor with
  | Some charged =>
      let charged := usize_sub charged 1 in
      if charged =? 0 then delete actor m else <[actor := charged]> m
  | None => m
  end.

(** ** [retained_set.rs] *)

Record RetainedSet := {
  rs_seen : gmap bytes bytes;
  rs_by_expiry : gmap Z (list bytes);
  rs_inserts_since_prune : Z;
  rs_per_actor : gmap bytes Z;
}.
Definition RetainedSet_default : RetainedSet :=
  {| rs_seen := ∅; rs_by_expiry := ∅; rs_inserts_since_prune := 0; rs_per_actor := ∅ |}.

Definition drop_key (st : gmap bytes bytes * gmap bytes Z) (key : bytes) : gmap bytes bytes * gmap bytes Z :=
  match st.1 !! key with
  | None => st
  | Some actor => (delete key st.1, discharge st.2 actor)
  end.

Definition prune_if_due (s : RetainedSet) (clock : Z) : RetainedSet :=
  let n := clamp_u64 (rs_inserts_since_prune s + 1) in
  if ASYNC_PRUNE_EVERY_N_INSERTS <=? n then
    let '(seen, per_actor) := foldl drop_key (rs_seen s, rs_per_actor s) (dead_items (rs_by_expiry s) clock) in
    {| rs_seen := seen; rs_by_expiry := split_live (rs_by_expiry s) clock;
       rs_inserts_since_prune := 0; rs_per_actor := per_actor |}
  else {| rs_seen := rs_seen s; rs_by_expiry := rs_by_expiry s;
          rs_inserts_since_prune := n; rs_per_actor := rs_per_actor s |}.

Definition record (s : RetainedSet) (key actor : bytes) (retain_until : Z) : RetainedSet :=
  {| rs_seen := <[key := actor]> (rs_seen s);
     rs_by_expiry := push_at (rs_by_expiry s) retain_until key;
     rs_inserts_since_prune := rs_inserts_since_prune s;
     rs_per_actor := charge_one (rs_per_actor s) actor |}.

(** ** [local_refusals.rs] and [budget_report.rs] *)

Definition STALE_DETAILS : bytes :=
  b#"replay retain_until is already past; refusing to record a nonce that would not be retained".
Definition refuse_stale_retain_until (retain_until now_unix : Z) : Result unit ReplayStoreError :=
  if is_stale_pre_store retain_until now_unix then Err (StoreUnavailable STALE_DETAILS) else Ok tt.

Definition seen_len (s : RetainedSet) : Z := Z.of_nat (size (rs_seen s)).
Definition actors_len (m : gmap bytes Z) : Z := Z.of_nat (size m).
Definition charged_to (m : gmap bytes Z) (actor : bytes) : Z := default 0 (m !! actor).

Definition budget_details (prefix level : bytes) (held budget len max_entries : Z) : bytes :=
  prefix ++ b#": actor holds " ++ fmt_int held ++ b#" of its " ++ fmt_int budget ++
  b#" retained-entry budget while the " ++ level ++ b#" is at " ++ fmt_int len ++ b#" of " ++
  fmt_int max_entries ++ b#" entries".

Definition refuse_over_fair_share (s : RetainedSet) (actor : bytes) (max_entries : Z) : Result unit ReplayStoreError :=
  if under_pressure (seen_len s) max_entries then
    let budget := per_actor_budget max_entries (actors_len (rs_per_actor s)) in
    let held := charged_to (rs_per_actor s) actor in
    if budget <=? held then
      Err (StoreUnavailable (budget_details b#"in-memory async replay store" b#"store" held budget
             (seen_len s) max_entries))
    else Ok tt
  else Ok tt.

Definition refuse_over_ceiling (s : RetainedSet) (max_entries : Z) : Result unit ReplayStoreError :=
  if max_entries <=? seen_len s then
    Err (StoreUnavailable (b#"in-memory async replay store is at its " ++ fmt_int max_entries ++ b#" entry ceiling"))
  else Ok tt.

(** [BudgetRefusalReporter::refuse]: the error; the line it may log is not part of the answer. *)
Record BudgetRefusal := { br_held : Z; br_budget : Z; br_level : Z; br_max_entries : Z }.
Definition into_unavailable (r : BudgetRefusal) (level : bytes) : ReplayStoreError :=
  StoreUnavailable (budget_details level level (br_held r) (br_budget r) (br_level r) (br_max_entries r)).

(** ** The trait *)

Record ReplayInsert := {
  ri_key : bytes;
  ri_actor : bytes;
  ri_expires_at_unix : Z;
  ri_now_unix : Z;
}.

(** [clock] is what the store's own clock shows during the call. *)
Class AsyncAtomicReplayStore (S : Type) := {
  atomic_insert_if_absent : Z → S → ReplayInsert → S * Result ReplayDecision ReplayStoreError;
  store_durability_class : S → ReplayDurabilityClass;
}.

(** What the trait promises. [retains s k r]: the store holds [k] until [r], so it will not
    call [k] fresh before then; [known s k]: it may call [k] a replay. [Fresh] is the answer for
    a key that was not held, and holds it; [Replay] only for one that an earlier insert was
    decided for; no key is given up before its time. *)
Class AsyncAtomicReplayStoreSpec (S : Type) `{AsyncAtomicReplayStore S} := {
  store_inv : S → Prop;
  retains : S → bytes → Z → Prop;
  known : S → bytes → Prop;
  atomic_insert_spec clock s i s' res :
    store_inv s → atomic_insert_if_absent clock s i = (s', res) →
    store_inv s' ∧
    (∀ k r, retains s k r → clock ≤ r → retains s' k r) ∧
    (∀ k, known s' k → known s k ∨ (k = ri_key i ∧ is_ok res = true)) ∧
    match res with
    | Ok Fresh => (∀ r, ¬ retains s (ri_key i) r) ∧ retains s' (ri_key i) (ri_expires_at_unix i)
    | Ok Replay => known s (ri_key i)
    | Err _ => True
    end;
}.

(** ** [in_memory.rs] *)

Record InMemoryAsyncAtomicReplayStore := {
  ims_set : RetainedSet;
  ims_max_entries : Z;
  ims_poisoned : bool;
}.

Definition InMemoryAsyncAtomicReplayStore_default : InMemoryAsyncAtomicReplayStore :=
  {| ims_set := RetainedSet_default; ims_max_entries := ASYNC_MAX_ENTRIES; ims_poisoned := false |}.
Definition ims_with_max_entries (s : InMemoryAsyncAtomicReplayStore) (n : Z) : InMemoryAsyncAtomicReplayStore :=
  {| ims_set := ims_set s; ims_max_entries := n; ims_poisoned := ims_poisoned s |}.
Definition ims_len (s : InMemoryAsyncAtomicReplayStore) : Z := if ims_poisoned s then 0 else seen_len (ims_set s).

Definition with_set (s : InMemoryAsyncAtomicReplayStore) (r : RetainedSet) : InMemoryAsyncAtomicReplayStore :=
  {| ims_set := r; ims_max_entries := ims_max_entries s; ims_poisoned := ims_poisoned s |}.

Definition POISONED_STORE : bytes :=
  b#"in-memory async replay store lock poisoned: poisoned lock: another task failed inside".

(** After the prune: the fair share, the ceiling, the record. *)
Definition insert_pruned (s : InMemoryAsyncAtomicReplayStore) (key actor : bytes) (retain_until : Z)
    : InMemoryAsyncAtomicReplayStore * Result ReplayDecision ReplayStoreError :=
  match refuse_over_fair_share (ims_set s) actor (ims_max_entries s) with
  | Err _ =>
      (s, Err (into_unavailable
         {| br_held := charged_to (rs_per_actor (ims_set s)) actor;
            br_budget := per_actor_budget (ims_max_entries s) (actors_len (rs_per_actor (ims_set s)));
            br_level := seen_len (ims_set s); br_max_entries := ims_max_entries s |}
         b#"in-memory async replay store"))
  | Ok _ =>
      match refuse_over_ceiling (ims_set s) (ims_max_entries s) with
      | Err e => (s, Err e)
      | Ok _ => (with_set s (record (ims_set s) key actor retain_until), Ok Fresh)
      end
  end.

Definition insert_locked (clock : Z) (s : InMemoryAsyncAtomicReplayStore) (key actor : bytes)
    (retain_until now_unix : Z) : InMemoryAsyncAtomicReplayStore * Result ReplayDecision ReplayStoreError :=
  match refuse_stale_retain_until retain_until now_unix with
  | Err e => (s, Err e)
  | Ok _ =>
      if ims_poisoned s then (s, Err (StoreUnavailable POISONED_STORE))
      else match rs_seen (ims_set s) !! key with
      | Some _ => (s, Ok Replay)
      | None => insert_pruned (with_set s (prune_if_due (ims_set s) clock)) key actor retain_until
      end
  end.

#[global] Instance InMemory_AsyncAtomicReplayStore : AsyncAtomicReplayStore InMemoryAsyncAtomicReplayStore := {
  atomic_insert_if_absent := λ clock s i,
    insert_locked clock s (ri_key i) (ri_actor i) (ri_expires_at_unix i) (ri_now_unix i);
  store_durability_class := λ _, SingleProcessReference;
}.

(** ** [l1_fast_reject.rs] *)

Record BoundedKeySet := { bk_set : gset bytes; bk_order : list bytes; bk_cap : Z }.
Definition BoundedKeySet_new (cap : Z) : BoundedKeySet :=
  {| bk_set := ∅; bk_order := []; bk_cap := Z.max cap 1 |}.

Fixpoint evict_to (set : gset bytes) (order : list bytes) (cap : Z) : gset bytes * list bytes :=
  match order with
  | [] => (set, [])
  | evicted :: order' =>
      if cap <=? Z.of_nat (length order) then evict_to (set ∖ {[evicted]}) order' cap else (set, order)
  end.

Definition bk_insert (b : BoundedKeySet) (key : bytes) : BoundedKeySet :=
  if bool_decide (key ∈ bk_set b) then b
  else let '(set, order) := evict_to (bk_set b) (bk_order b) (bk_cap b) in
       {| bk_set := {[key]} ∪ set; bk_order := order ++ [key]; bk_cap := bk_cap b |}.

Definition DEFAULT_L1_CAPACITY : Z := 65536.

(** A poisoned L1 is no L1: every key goes to the store behind it. *)
Record L1FastRejectStore (L2 : Type) := mkL1 { l1_l2 : L2; l1_set : BoundedKeySet; l1_poisoned : bool }.
Arguments mkL1 {L2} _ _ _.
Arguments l1_l2 {L2} _.
Arguments l1_set {L2} _.
Arguments l1_poisoned {L2} _.

Definition L1_with_capacity {L2} (l2 : L2) (capacity : Z) : L1FastRejectStore L2 :=
  mkL1 l2 (BoundedKeySet_new capacity) false.

Definition l1_lookup {L2} (s : L1FastRejectStore L2) (key : bytes) : option ReplayDecision :=
  if l1_poisoned s then None
  else if bool_decide (key ∈ bk_set (l1_set s)) then Some Replay else None.
Definition l1_record {L2} (s : L1FastRejectStore L2) (key : bytes) : L1FastRejectStore L2 :=
  if l1_poisoned s then s else mkL1 (l1_l2 s) (bk_insert (l1_set s) key) (l1_poisoned s).

Definition l1_insert `{AsyncAtomicReplayStore L2} (clock : Z) (s : L1FastRejectStore L2) (i : ReplayInsert)
    : L1FastRejectStore L2 * Result ReplayDecision ReplayStoreError :=
  match l1_lookup s (ri_key i) with
  | Some replay => (s, Ok replay)
  | None =>
      let '(l2, answer) := atomic_insert_if_absent clock (l1_l2 s) i in
      let s := mkL1 l2 (l1_set s) (l1_poisoned s) in
      match answer with
      | Err e => (s, Err e)
      | Ok decision => (l1_record s (ri_key i), Ok decision)
      end
  end.

#[global] Instance L1_AsyncAtomicReplayStore `{AsyncAtomicReplayStore L2} :
  AsyncAtomicReplayStore (L1FastRejectStore L2) := {
  atomic_insert_if_absent := l1_insert;
  store_durability_class := λ s, store_durability_class (l1_l2 s);
}.

(** ** [retention_ledger.rs] *)

Record Ledger := {
  lg_per_actor : gmap bytes Z;
  lg_by_expiry : gmap Z (list bytes);
  lg_committed : Z;
  lg_outstanding : Z;
  lg_inserts_since_prune : Z;
  lg_max_entries : Z;
  lg_poisoned : bool;
}.

Definition RetentionLedger_new (max_entries : Z) : Ledger :=
  {| lg_per_actor := ∅; lg_by_expiry := ∅; lg_committed := 0; lg_outstanding := 0;
     lg_inserts_since_prune := 0; lg_max_entries := Z.max max_entries 1; lg_poisoned := false |}.

Definition release_committed (st : Z * gmap bytes Z) (actor : bytes) : Z * gmap bytes Z :=
  (usize_sub st.1 1, discharge st.2 actor).

Definition ledger_prune (l : Ledger) (now_unix : Z) : Ledger :=
  let '(committed, per_actor) :=
    foldl release_committed (lg_committed l, lg_per_actor l) (dead_items (lg_by_expiry l) now_unix) in
  {| lg_per_actor := per_actor; lg_by_expiry := split_live (lg_by_expiry l) now_unix;
     lg_committed := committed; lg_outstanding := lg_outstanding l;
     lg_inserts_since_prune := lg_inserts_since_prune l; lg_max_entries := lg_max_entries l;
     lg_poisoned := lg_poisoned l |}.

Definition with_inserts (l : Ledger) (n : Z) : Ledger :=
  {| lg_per_actor := lg_per_actor l; lg_by_expiry := lg_by_expiry l; lg_committed := lg_committed l;
     lg_outstanding := lg_outstanding l; lg_inserts_since_prune := n;
     lg_max_entries := lg_max_entries l; lg_poisoned := lg_poisoned l |}.

Definition POISONED_LEDGER : bytes :=
  b#"async replay tier retention ledger lock poisoned: poisoned lock: another task failed inside".

Definition ledger_tick (l : Ledger) (now_unix : Z) : Ledger :=
  let n := clamp_u64 (lg_inserts_since_prune l + 1) in
  if ASYNC_PRUNE_EVERY_N_INSERTS <=? n then ledger_prune (with_inserts l 0) now_unix else with_inserts l n.

Definition ledger_held (l : Ledger) : Z := usize_add (lg_committed l) (lg_outstanding l).

Definition ledger_charge (l : Ledger) (actor : bytes) : Ledger :=
  {| lg_per_actor := charge_one (lg_per_actor l) actor; lg_by_expiry := lg_by_expiry l;
     lg_committed := lg_committed l; lg_outstanding := usize_add (lg_outstanding l) 1;
     lg_inserts_since_prune := lg_inserts_since_prune l; lg_max_entries := lg_max_entries l;
     lg_poisoned := lg_poisoned l |}.

Definition reserve (l : Ledger) (actor : bytes) (now_unix : Z) : Ledger * Result unit ReplayStoreError :=
  if lg_poisoned l then (l, Err (StoreUnavailable POISONED_LEDGER))
  else
    let l := ledger_tick l now_unix in
    let held := ledger_held l in
    let budget := per_actor_budget (lg_max_entries l) (actors_len (lg_per_actor l)) in
    let charged := charged_to (lg_per_actor l) actor in
    if under_pressure held (lg_max_entries l) && (budget <=? charged) then
      (l, Err (into_unavailable
         {| br_held := charged; br_budget := budget; br_level := held; br_max_entries := lg_max_entries l |}
         b#"async replay tier"))
    else if lg_max_entries l <=? held then
      (l, Err (StoreUnavailable
         (b#"async replay tier is at its " ++ fmt_int (lg_max_entries l) ++ b#" retained-entry ceiling")))
    else (ledger_charge l actor, Ok tt).

Definition ledger_commit (l : Ledger) (actor : bytes) (retain_until : Z) : Ledger :=
  if lg_poisoned l then l
  else {| lg_per_actor := lg_per_actor l; lg_by_expiry := push_at (lg_by_expiry l) retain_until actor;
          lg_committed := usize_add (lg_committed l) 1; lg_outstanding := usize_sub (lg_outstanding l) 1;
          lg_inserts_since_prune := lg_inserts_since_prune l; lg_max_entries := lg_max_entries l;
          lg_poisoned := lg_poisoned l |}.

Definition ledger_release (l : Ledger) (actor : bytes) : Ledger :=
  if lg_poisoned l then l
  else {| lg_per_actor := discharge (lg_per_actor l) actor; lg_by_expiry := lg_by_expiry l;
          lg_committed := lg_committed l; lg_outstanding := usize_sub (lg_outstanding l) 1;
          lg_inserts_since_prune := lg_inserts_since_prune l; lg_max_entries := lg_max_entries l;
          lg_poisoned := lg_poisoned l |}.

(** ** [charge.rs] *)

Inductive Settlement := Settle_Indeterminate | Settle_Retained | Settle_ProvenAbsent.

Record Charge := { ch_actor : bytes; ch_retain_until : Z; ch_settlement : Settlement }.

Definition charge_reserve (l : Ledger) (actor : bytes) (now_unix retain_until : Z)
    : Ledger * Result Charge ReplayStoreError :=
  let '(l, r) := reserve l actor now_unix in
  (l, match r with
      | Err e => Err e
      | Ok _ => Ok {| ch_actor := actor; ch_retain_until := retain_until; ch_settlement := Settle_Indeterminate |}
      end).

Definition charge_drop (l : Ledger) (c : Charge) : Ledger :=
  match ch_settlement c with
  | Settle_Retained | Settle_ProvenAbsent => l
  | Settle_Indeterminate => ledger_commit l (ch_actor c) (ch_retain_until c)
  end.

Definition settled (c : Charge) (how : Settlement) : Charge :=
  {| ch_actor := ch_actor c; ch_retain_until := ch_retain_until c; ch_settlement := how |}.

(** Both consume the charge: what is left of it is dropped at the end of the call. *)
Definition charge_commit (l : Ledger) (c : Charge) : Ledger :=
  charge_drop (ledger_commit l (ch_actor c) (ch_retain_until c)) (settled c Settle_Retained).
Definition charge_release_proven_absent (l : Ledger) (c : Charge) : Ledger :=
  charge_drop (ledger_release l (ch_actor c)) (settled c Settle_ProvenAbsent).

(** ** [mod.rs]: the tier *)

Section tier.
Context `{Base64, Sha2} {St : Type} `{AsyncAtomicReplayStore St}.

Record AsyncReplayTier := {
  rt_store : St;
  rt_freshness : FreshnessWindow;
  rt_ledger : Ledger;
}.

Definition AsyncReplayTier_new_bounded (store : St) (freshness : FreshnessWindow) (max_retained_entries : Z)
    : AsyncReplayTier :=
  {| rt_store := store; rt_freshness := freshness; rt_ledger := RetentionLedger_new max_retained_entries |}.
Definition AsyncReplayTier_new (store : St) (freshness : FreshnessWindow) : AsyncReplayTier :=
  AsyncReplayTier_new_bounded store freshness ASYNC_MAX_ENTRIES.

Definition with_ledger (t : AsyncReplayTier) (l : Ledger) : AsyncReplayTier :=
  {| rt_store := rt_store t; rt_freshness := rt_freshness t; rt_ledger := l |}.

Definition insert_of (t : AsyncReplayTier) (key : ReplayKey) (now_unix : Z) : ReplayInsert :=
  {| ri_key := composite_replay_key (rk_signer key) (rk_audience key) (rk_nonce key);
     ri_actor := rk_principal key;
     ri_expires_at_unix := replay_retain_until (rt_freshness t) (rk_expires_at_unix key);
     ri_now_unix := now_unix |}.

(** After the store has answered. *)
Definition settle (l : Ledger) (c : Charge) (outcome : Result ReplayDecision ReplayStoreError)
    : Ledger * Result ReplayDecision ReplayCacheError :=
  match outcome with
  | Ok Fresh => (charge_commit l c, Ok Fresh)
  | Ok Replay => (charge_release_proven_absent l c, Ok Replay)
  | Err e => (charge_drop l c, Err (from_ReplayStoreError e))
  end.

Definition tier_check_and_insert (clock : Z) (t : AsyncReplayTier) (key : ReplayKey) (now_unix : Z)
    : AsyncReplayTier * Result ReplayDecision ReplayCacheError :=
  let i := insert_of t key now_unix in
  match charge_reserve (rt_ledger t) (rk_principal key) now_unix (ri_expires_at_unix i) with
  | (l, Err e) => (with_ledger t l, Err (from_ReplayStoreError e))
  | (l, Ok c) =>
      let '(store, outcome) := atomic_insert_if_absent clock (rt_store t) i in
      let '(l, answer) := settle l c outcome in
      ({| rt_store := store; rt_freshness := rt_freshness t; rt_ledger := l |}, answer)
  end.
End tier.
Arguments AsyncReplayTier : clear implicits.

(** ** Buckets and counts *)

(** All items of the buckets. *)
Definition items {A} (m : gmap Z (list A)) : list A := concat (map_to_list m).*2.

Lemma items_insert {A} (m : gmap Z (list A)) k l :
  m !! k = None → items (<[k := l]> m) ≡ₚ l ++ items m.
Proof. intros Hk. unfold items. by rewrite map_to_list_insert. Qed.

Lemma items_split {A} (m : gmap Z (list A)) now :
  items m ≡ₚ dead_items m now ++ items (split_live m now).
Proof.
  assert (dead_items m now ≡ₚ items (filter (λ kv : Z * list A, kv.1 < now) m)) as ->.
  { unfold dead_items, items. by rewrite (merge_sort_Permutation _ _). }
  unfold split_live. induction m as [|k l m Hk IH] using map_ind; [done|].
  rewrite (items_insert m) by done.
  destruct (decide (k < now)) as [Hlt|Hge].
  - rewrite map_filter_insert_True by done. rewrite map_filter_insert_not by (simpl; lia).
    rewrite items_insert by (apply map_lookup_filter_None; by left). rewrite IH. solve_Permutation.
  - rewrite map_filter_insert_not by (simpl; lia). rewrite map_filter_insert_True by (simpl; lia).
    rewrite items_insert by (apply map_lookup_filter_None; by left). rewrite IH. solve_Permutation.
Qed.

Lemma items_push {A} (m : gmap Z (list A)) k x : items (push_at m k x) ≡ₚ x :: items m.
Proof.
  unfold push_at. rewrite <- insert_delete_eq. rewrite items_insert by apply lookup_delete_eq.
  destruct (m !! k) as [l|] eqn:E; simpl.
  - rewrite <- (insert_delete_id m k l) at 2 by done. rewrite items_insert by apply lookup_delete_eq.
    solve_Permutation.
  - rewrite delete_id by done. solve_Permutation.
Qed.

Lemma elem_items {A} (m : gmap Z (list A)) k l x : m !! k = Some l → x ∈ l → x ∈ items m.
Proof.
  intros Hk Hx. unfold items. apply list_elem_of_In, in_concat. exists l. split; [|by apply list_elem_of_In].
  apply list_elem_of_In. apply list_elem_of_fmap. exists (k, l). split; [done|]. by apply elem_of_map_to_list.
Qed.

Definition occ (a : bytes) (l : list bytes) : Z := Z.of_nat (length (filter (λ b, b = a) l)).

Lemma occ_cons a b l : occ a (b :: l) = (if decide (b = a) then 1 else 0) + occ a l.
Proof. unfold occ. rewrite filter_cons. destruct (decide (b = a)); simpl; lia. Qed.
#[global] Instance occ_Permutation : Proper ((=) ==> (≡ₚ) ==> (=)) occ.
Proof. intros a ? <- l l' Hl. unfold occ. by rewrite Hl. Qed.
Lemma occ_length a l : 0 ≤ occ a l ≤ Z.of_nat (length l).
Proof. unfold occ. pose proof (length_filter (λ b, b = a) l). lia. Qed.
Lemma occ_app a l l' : occ a (l ++ l') = occ a l + occ a l'.
Proof. unfold occ. rewrite filter_app, length_app. lia. Qed.

(** A map of counters that counts a list, with no counter at zero. *)
Definition counts (m : gmap bytes Z) (l : list bytes) : Prop :=
  ∀ a, m !! a = if occ a l =? 0 then None else Some (occ a l).

#[global] Instance counts_Permutation : Proper ((=) ==> (≡ₚ) ==> iff) counts.
Proof.
  intros m ? <- l l' Hl. unfold counts. split; intros H a; rewrite (H a).
  - by rewrite (occ_Permutation a a eq_refl l l' Hl).
  - by rewrite (occ_Permutation a a eq_refl l l' Hl).
Qed.

Lemma counts_empty : counts ∅ [].
Proof. intros a. done. Qed.

Lemma counts_charged m l a : counts m l → charged_to m a = occ a l.
Proof.
  intros H. unfold charged_to. rewrite H. destruct (Z.eqb_spec (occ a l) 0) as [E|E]; simpl; lia.
Qed.

Lemma counts_charge m l a :
  counts m l → Z.of_nat (length l) < u64_MAX → counts (charge_one m a) (a :: l).
Proof.
  intros H Hl b. unfold charge_one. fold (charged_to m a). rewrite (counts_charged _ _ _ H).
  pose proof (occ_length a l) as Ha. pose proof (occ_length b l) as Hb. rewrite occ_cons.
  assert (usize_add (occ a l) 1 = 1 + occ a l) as -> by (unfold usize_add; i64_lia).
  destruct (decide (a = b)) as [->|Hne].
  - rewrite lookup_insert_eq. destruct (Z.eqb_spec (1 + occ b l) 0); [lia|done].
  - rewrite lookup_insert_ne by done. rewrite H. by rewrite Z.add_0_l.
Qed.

Lemma counts_discharge m l a :
  counts m (a :: l) → Z.of_nat (length l) < u64_MAX → counts (discharge m a) l.
Proof.
  intros H Hl b. unfold discharge. pose proof (occ_length a l) as Ha. pose proof (occ_length b l) as Hb.
  pose proof (H a) as Hma. rewrite occ_cons, decide_True in Hma by done.
  destruct (Z.eqb_spec (1 + occ a l) 0); [lia|]. rewrite Hma.
  assert (usize_sub (1 + occ a l) 1 = occ a l) as -> by (unfold usize_sub; i64_lia).
  specialize (H b). rewrite occ_cons in H.
  destruct (Z.eqb_spec (occ a l) 0) as [E|E], (decide (a = b)) as [->|Hne].
  - rewrite lookup_delete_eq. by rewrite (proj2 (Z.eqb_eq _ _) E).
  - rewrite lookup_delete_ne by done. by rewrite H.
  - rewrite lookup_insert_eq. by rewrite (proj2 (Z.eqb_neq _ _) E).
  - rewrite lookup_insert_ne by done. by rewrite H.
Qed.

(** ** The in-memory store *)

Definition keys_of (m : gmap bytes bytes) : list bytes := (map_to_list m).*1.
Definition actors_of (m : gmap bytes bytes) : list bytes := (map_to_list m).*2.

Lemma length_actors_of m : length (actors_of m) = size m.
Proof. unfold actors_of. by rewrite length_fmap, length_map_to_list. Qed.

(** Each held key is in one bucket, once, and charged to its actor. *)
Definition set_inv (s : RetainedSet) : Prop :=
  keys_of (rs_seen s) ≡ₚ items (rs_by_expiry s) ∧ counts (rs_per_actor s) (actors_of (rs_seen s)) ∧
  seen_len s < u64_MAX.

Lemma elem_keys_of m k : k ∈ keys_of m ↔ is_Some (m !! k).
Proof.
  unfold keys_of. rewrite list_elem_of_fmap. split.
  - intros ([k' a] & -> & Hin). apply elem_of_map_to_list in Hin. eauto.
  - intros [a Ha]. exists (k, a). split; [done|]. by apply elem_of_map_to_list.
Qed.

Lemma drop_keys seen per_actor dead live seen' per_actor' :
  foldl drop_key (seen, per_actor) dead = (seen', per_actor') →
  keys_of seen ≡ₚ dead ++ live → counts per_actor (actors_of seen) → Z.of_nat (size seen) < u64_MAX →
  keys_of seen' ≡ₚ live ∧ counts per_actor' (actors_of seen') ∧ seen' ⊆ seen.
Proof.
  revert seen per_actor. induction dead as [|k dead IH]; intros seen per_actor Hf Hk Hc Hs; simpl in Hf.
  { injection Hf as <- <-. done. }
  assert (is_Some (seen !! k)) as [a Ha].
  { apply elem_keys_of. rewrite Hk. constructor. }
  unfold drop_key in Hf at 2. simpl in Hf. rewrite Ha in Hf.
  assert (map_to_list seen ≡ₚ (k, a) :: map_to_list (delete k seen)) as Hp by (by rewrite map_to_list_delete).
  assert (size (delete k seen) = Init.Nat.pred (size seen)) as Hsz by (apply map_size_delete_Some; by exists a).
  apply IH in Hf as (H1 & H2 & H3).
  - split; [done|]. split; [done|]. etrans; [done|]. apply delete_subseteq.
  - unfold keys_of in *. rewrite Hp in Hk. simpl in Hk. by apply Permutation_cons_inv in Hk.
  - apply counts_discharge; [|rewrite length_actors_of; lia].
    unfold actors_of in *. by rewrite Hp in Hc.
  - lia.
Qed.

Lemma prune_if_due_inv s clock :
  set_inv s →
  set_inv (prune_if_due s clock) ∧ rs_seen (prune_if_due s clock) ⊆ rs_seen s ∧
  (∀ r l, rs_by_expiry s !! r = Some l → clock ≤ r → rs_by_expiry (prune_if_due s clock) !! r = Some l).
Proof.
  intros (Hk & Hc & Hs). unfold prune_if_due.
  destruct (ASYNC_PRUNE_EVERY_N_INSERTS <=? _); [|done].
  destruct (foldl drop_key _ _) as [seen' per'] eqn:E.
  rewrite (items_split (rs_by_expiry s) clock) in Hk.
  destruct (drop_keys _ _ _ _ _ _ E Hk Hc Hs) as (H1 & H2 & H3).
  split; [|split; [done|]].
  - split; [done|]. split; [done|]. unfold seen_len in *. simpl. apply map_subseteq_size in H3. lia.
  - intros r l Hr Hcl. simpl. unfold split_live. rewrite map_lookup_filter_Some. done.
Qed.

Lemma record_inv s key actor r :
  set_inv s → rs_seen s !! key = None → seen_len s + 1 < u64_MAX → set_inv (record s key actor r).
Proof.
  intros (Hk & Hc & Hs) Hn Hl. unfold seen_len in *. split; [|split]; simpl.
  - unfold keys_of in *. rewrite map_to_list_insert by done. simpl. by rewrite items_push, Hk.
  - unfold actors_of in *. rewrite map_to_list_insert by done. simpl. apply counts_charge; [done|].
    rewrite length_fmap, length_map_to_list. lia.
  - unfold seen_len. simpl. rewrite map_size_insert_None by done. lia.
Qed.

Definition ims_inv (s : InMemoryAsyncAtomicReplayStore) : Prop :=
  set_inv (ims_set s) ∧ seen_len (ims_set s) ≤ Z.max 0 (ims_max_entries s) ∧ ims_max_entries s < u64_MAX - 1.

Definition ims_retains (s : InMemoryAsyncAtomicReplayStore) (k : bytes) (r : Z) : Prop :=
  ∃ l, rs_by_expiry (ims_set s) !! r = Some l ∧ k ∈ l.

Lemma set_inv_seen s k r l : set_inv s → rs_by_expiry s !! r = Some l → k ∈ l → is_Some (rs_seen s !! k).
Proof. intros (Hk & _) Hr Hl. apply elem_keys_of. rewrite Hk. by eapply elem_items. Qed.

Lemma set_inv_retained s k : set_inv s → is_Some (rs_seen s !! k) → ∃ r l, rs_by_expiry s !! r = Some l ∧ k ∈ l.
Proof.
  intros (Hk & _) Hs. apply elem_keys_of in Hs. rewrite Hk in Hs. unfold items in Hs.
  apply list_elem_of_In, in_concat in Hs as (l & Hl & Hin).
  apply list_elem_of_In, list_elem_of_fmap in Hl as ([r l'] & -> & Hl).
  apply elem_of_map_to_list in Hl. apply list_elem_of_In in Hin. eauto.
Qed.

Lemma push_at_lookup {A} (m : gmap Z (list A)) r x r' l :
  m !! r' = Some l → ∃ l', push_at m r x !! r' = Some l' ∧ l ⊆ l'.
Proof.
  intros Hm. unfold push_at. destruct (decide (r = r')) as [->|Hne].
  - rewrite lookup_insert_eq, Hm. simpl. eexists. split; [done|]. set_solver.
  - rewrite lookup_insert_ne by done. eauto.
Qed.

Lemma prune_store_inv clock s :
  ims_inv s →
  let s' := with_set s (prune_if_due (ims_set s) clock) in
  ims_inv s' ∧ rs_seen (ims_set s') ⊆ rs_seen (ims_set s) ∧
  (∀ k r, ims_retains s k r → clock ≤ r → ims_retains s' k r).
Proof.
  intros (Hinv & Hlen & Hmax) s'. destruct (prune_if_due_inv (ims_set s) clock Hinv) as (Hinv' & Hsub & Hkeep).
  assert (seen_len (ims_set s') ≤ seen_len (ims_set s)) as Hle.
  { unfold seen_len. apply map_subseteq_size in Hsub. simpl. lia. }
  split; [split; [done|]; simpl in *; lia|]. split; [done|].
  intros k r (l & Hl & Hin) Hc. exists l. simpl. auto.
Qed.

Lemma insert_pruned_spec s key actor r s' res :
  ims_inv s → rs_seen (ims_set s) !! key = None → insert_pruned s key actor r = (s', res) →
  ims_inv s' ∧ (∀ k r', ims_retains s k r' → ims_retains s' k r') ∧
  match res with
  | Ok Fresh => ims_retains s' key r ∧ rs_seen (ims_set s') = <[key := actor]> (rs_seen (ims_set s))
  | Ok Replay => False
  | Err _ => s' = s
  end.
Proof.
  intros (Hinv & Hlen & Hmax) Hk. unfold insert_pruned.
  destruct (refuse_over_fair_share _ _ _); [|intros [<- <-]%pair_equal_spec; done].
  unfold refuse_over_ceiling. destruct (Z.leb_spec (ims_max_entries s) (seen_len (ims_set s))) as [|Hroom];
    intros [<- <-]%pair_equal_spec; [done|].
  split; [|split].
  - split; [apply record_inv; [done..|]; lia|]. unfold seen_len in *. simpl.
    rewrite map_size_insert_None by done. lia.
  - intros k r' (l & Hl & Hin). destruct (push_at_lookup _ r key _ _ Hl) as (l' & Hl' & Hsubl).
    exists l'. simpl. split; [done|set_solver].
  - split; [|done]. unfold ims_retains. simpl. unfold push_at. rewrite lookup_insert_eq. eexists. split; [done|]. set_solver.
Qed.

(** Every branch of an insert. *)
Lemma insert_locked_spec clock s key actor r now s' res :
  ims_inv s → insert_locked clock s key actor r now = (s', res) →
  ims_inv s' ∧ (∀ k r', ims_retains s k r' → clock ≤ r' → ims_retains s' k r') ∧
  match res with
  | Ok Fresh => rs_seen (ims_set s) !! key = None ∧ ims_retains s' key r ∧ is_stale_pre_store r now = false
  | Ok Replay => is_Some (rs_seen (ims_set s) !! key)
  | Err _ => True
  end ∧
  (∀ k, is_Some (rs_seen (ims_set s') !! k) → is_Some (rs_seen (ims_set s) !! k) ∨ (k = key ∧ res = Ok Fresh)).
Proof.
  intros Hinv. unfold insert_locked, refuse_stale_retain_until.
  destruct (is_stale_pre_store r now) eqn:Est; [intros [<- <-]%pair_equal_spec; by eauto|].
  destruct (ims_poisoned s); [intros [<- <-]%pair_equal_spec; by eauto|].
  destruct (rs_seen (ims_set s) !! key) as [a|] eqn:Ek; [intros [<- <-]%pair_equal_spec; by eauto 10|].
  destruct (prune_store_inv clock s Hinv) as (Hinv' & Hsub & Hkeep). intros Hins.
  assert (rs_seen (ims_set (with_set s (prune_if_due (ims_set s) clock))) !! key = None) as Hkst.
  { apply eq_None_not_Some. intros [a E]. eapply lookup_weaken in E; [|exact Hsub]. congruence. }
  destruct (insert_pruned_spec _ _ _ _ _ _ Hinv' Hkst Hins) as (H1 & H2 & H3).
  split; [done|]. split; [auto|]. split; [by destruct res as [[]|]; naive_solver|].
  assert (∀ k, is_Some (rs_seen (prune_if_due (ims_set s) clock) !! k) → is_Some (rs_seen (ims_set s) !! k)) as Hback.
  { intros k [a E]. exists a. by eapply lookup_weaken. }
  intros k Hk. destruct res as [[]|]; [|done|subst s'; left; by apply Hback].
  destruct H3 as [_ Heq]. rewrite Heq in Hk. destruct (decide (key = k)) as [->|Hne]; [by right|].
  rewrite lookup_insert_ne in Hk by done. left. by apply Hback.
Qed.

Lemma clamped_positive lo hi r now : lo < 0 → 0 < hi → 0 < Z.max lo (Z.min (r - now) hi) → now < r.
Proof. lia. Qed.
Lemma not_stale r now : is_stale_pre_store r now = false → now < r.
Proof. intros E%Z.leb_gt. revert E. by apply clamped_positive. Qed.

#[global, program] Instance InMemory_spec : AsyncAtomicReplayStoreSpec InMemoryAsyncAtomicReplayStore := {
  store_inv := ims_inv;
  retains := ims_retains;
  known := λ s k, is_Some (rs_seen (ims_set s) !! k);
}.
Next Obligation.
  intros clock s i s' res Hinv Hins.
  destruct (insert_locked_spec _ _ _ _ _ _ _ _ Hinv Hins) as (Hinv' & Hkeep & Hres & Hknown).
  split; [done|]. split; [done|]. split.
  { intros k [?|[-> ->]]%Hknown; [by left|by right]. }
  destruct res as [[]|]; [|done|done].
  destruct Hres as (Hn & Hr & Hst). split; [|done].
  intros r (l & Hl & Hin). destruct (set_inv_seen _ _ _ _ (proj1 Hinv) Hl Hin) as [a Ha]. congruence.
Qed.

(** ** The bounded set in front *)

Lemma evict_to_subset set order cap : (evict_to set order cap).1 ⊆ set.
Proof.
  revert set. induction order as [|k order IH]; intros set; cbn; [done|].
  destruct (cap <=? _); [|done]. etrans; [apply IH|set_solver].
Qed.

Lemma bk_insert_known b key k : k ∈ bk_set (bk_insert b key) → k ∈ bk_set b ∨ k = key.
Proof.
  unfold bk_insert. case_bool_decide; [by left|].
  pose proof (evict_to_subset (bk_set b) (bk_order b) (bk_cap b)) as Hs.
  destruct (evict_to _ _ _) as [set order]. cbn in *. set_solver.
Qed.

(** Under pressure the oldest key leaves; the set never grows past its capacity. *)
Lemma evict_to_length set order cap :
  1 ≤ cap → Z.of_nat (length (evict_to set order cap).2) ≤ cap - 1 ∨
  (evict_to set order cap) = (set, order) ∧ Z.of_nat (length order) < cap.
Proof.
  intros Hc. revert set. induction order as [|k order IH]; intros set; cbn [evict_to]; [left; cbn; lia|].
  destruct (Z.leb_spec cap (Z.of_nat (length (k :: order)))) as [Hle|Hlt]; [|right; split; [done|lia]].
  destruct (IH (set ∖ {[k]})) as [?|[-> ?]]; [by left|left; cbn; lia].
Qed.

Lemma bk_bounded b key :
  1 ≤ bk_cap b → Z.of_nat (length (bk_order b)) ≤ bk_cap b →
  Z.of_nat (length (bk_order (bk_insert b key))) ≤ bk_cap (bk_insert b key).
Proof.
  intros Hc Hl. unfold bk_insert. case_bool_decide; [done|].
  destruct (evict_to_length (bk_set b) (bk_order b) (bk_cap b) Hc) as [Hb|[Heq Hlt]];
    destruct (evict_to _ _ _) as [set order]; cbn in *; simplify_eq; rewrite length_app; cbn; lia.
Qed.

(** The wrapper keeps the contract of any store behind it: it never says fresh on its own. *)
#[global, program] Instance L1_spec `{AsyncAtomicReplayStoreSpec L2} :
    AsyncAtomicReplayStoreSpec (L1FastRejectStore L2) := {
  store_inv := λ s, store_inv (l1_l2 s);
  retains := λ s, retains (l1_l2 s);
  known := λ s k, known (l1_l2 s) k ∨ k ∈ bk_set (l1_set s);
}.
Next Obligation.
  intros L2 ? ? clock s i s' res Hinv Hins. cbn in Hins. unfold l1_insert, l1_lookup in Hins.
  destruct (negb (l1_poisoned s) && bool_decide (ri_key i ∈ bk_set (l1_set s))) eqn:Ehit.
  - apply andb_true_iff in Ehit as [Hp Hin]. apply negb_true_iff in Hp. rewrite Hp, Hin in Hins.
    apply bool_decide_eq_true in Hin. injection Hins as <- <-. naive_solver.
  - assert ((if l1_poisoned s then None else if bool_decide (ri_key i ∈ bk_set (l1_set s)) then Some Replay else None) = None)
      as Hnone by (by destruct (l1_poisoned s), (bool_decide _)).
    rewrite Hnone in Hins. destruct (atomic_insert_if_absent clock (l1_l2 s) i) as [l2 answer] eqn:E2.
    destruct (atomic_insert_spec _ _ _ _ _ Hinv E2) as (Hinv' & Hkeep & Hknown & Hres).
    unfold l1_record in Hins. destruct answer as [d|e]; cbn in Hins.
    + assert (res = Ok d ∧ l1_l2 s' = l2 ∧ (∀ k, k ∈ bk_set (l1_set s') → k ∈ bk_set (l1_set s) ∨ k = ri_key i))
        as (-> & <- & Hset).
      { destruct (l1_poisoned s); injection Hins as <- <-; cbn; repeat split; auto. apply bk_insert_known. }
      split; [done|]. split; [done|]. split; [|by destruct d; [|left]]. cbn in *. naive_solver.
    + injection Hins as <- <-. cbn in *. naive_solver.
Qed.

(** ** The ledger *)

(** What the ledger says of the charges [fl] in flight and of the entries it committed. *)
Record accounts (l : Ledger) (fl : list bytes) : Prop := {
  acc_committed : lg_committed l = Z.of_nat (length (items (lg_by_expiry l)));
  acc_outstanding : lg_outstanding l = Z.of_nat (length fl);
  acc_counts : counts (lg_per_actor l) (items (lg_by_expiry l) ++ fl);
  acc_room : lg_committed l + lg_outstanding l ≤ lg_max_entries l;
  acc_share a : occ a (items (lg_by_expiry l) ++ fl) ≤
    Z.max 1 (lg_max_entries l - lg_max_entries l / ASYNC_RESERVE_DIVISOR);
  acc_max : 1 ≤ lg_max_entries l < u64_MAX;
}.

Lemma accounts_new max_entries : max_entries < u64_MAX → accounts (RetentionLedger_new max_entries) [].
Proof.
  intros Hm. assert (0 ≤ Z.max max_entries 1 / ASYNC_RESERVE_DIVISOR) by (apply Z.div_pos; [lia|done]).
  split; cbn; try done; try (unfold u64_MAX in *; lia). intros a. unfold items, occ. rewrite map_to_list_empty. cbn. lia.
Qed.

Lemma accounts_Permutation l fl fl' : fl ≡ₚ fl' → accounts l fl → accounts l fl'.
Proof.
  intros Hp [A B C D E F]. split; try done.
  - by rewrite <- Hp.
  - by rewrite <- Hp.
  - intros a. by rewrite <- Hp.
Qed.

Lemma release_all dead rest n committed per_actor committed' per_actor' :
  foldl release_committed (committed, per_actor) dead = (committed', per_actor') →
  counts per_actor (dead ++ rest) → Z.of_nat (length (dead ++ rest)) ≤ u64_MAX →
  committed = Z.of_nat (length dead) + n → 0 ≤ n → committed ≤ u64_MAX →
  counts per_actor' rest ∧ committed' = n.
Proof.
  revert committed per_actor. induction dead as [|a dead IH]; intros committed per_actor Hf Hc Hl Hn Hn0 Hb;
    cbn [length app foldl release_committed fst snd] in *.
  { injection Hf as <- <-. split; [done|lia]. }
  eapply IH in Hf; [done| | | |done|].
  - apply counts_discharge; [done|]. lia.
  - lia.
  - unfold usize_sub, clamp_u64. cbn [fst]. lia.
  - unfold usize_sub, clamp_u64. cbn [fst]. lia.
Qed.

Lemma ledger_prune_accounts l fl now : accounts l fl → accounts (ledger_prune l now) fl.
Proof.
  intros [A B C D E F]. unfold ledger_prune. destruct (foldl release_committed _ _) as [c' p'] eqn:Hf.
  pose proof (items_split (lg_by_expiry l) now) as Hsp.
  assert (length (items (lg_by_expiry l)) =
          (length (dead_items (lg_by_expiry l) now) + length (items (split_live (lg_by_expiry l) now)))%nat) as Hlen.
  { by rewrite Hsp, length_app. }
  rewrite Hsp, <- (assoc_L (++)) in C.
  eapply (release_all _ _ (Z.of_nat (length (items (split_live (lg_by_expiry l) now))))) in Hf as [H1 ->];
    [|done|rewrite !length_app; lia|lia|lia|lia].
  split; cbn; try done; [lia|].
  intros a. etrans; [|apply (E a)]. rewrite Hsp, !occ_app. pose proof (occ_length a (dead_items (lg_by_expiry l) now)). lia.
Qed.

Lemma with_inserts_accounts l fl n : accounts l fl → accounts (with_inserts l n) fl.
Proof. intros []. by split. Qed.

Lemma ledger_tick_accounts l fl now : accounts l fl → accounts (ledger_tick l now) fl.
Proof.
  intros H. unfold ledger_tick. destruct (_ <=? _);
    [apply ledger_prune_accounts|]; by apply with_inserts_accounts.
Qed.

Lemma ledger_tick_frame l now :
  lg_max_entries (ledger_tick l now) = lg_max_entries l ∧ lg_poisoned (ledger_tick l now) = lg_poisoned l.
Proof.
  unfold ledger_tick, ledger_prune. destruct (_ <=? _); [|done]. by destruct (foldl release_committed _ _).
Qed.

Lemma ledger_held_accounts l fl :
  accounts l fl → ledger_held l = Z.of_nat (length (items (lg_by_expiry l) ++ fl)) ∧ ledger_held l ≤ lg_max_entries l.
Proof.
  intros [A B C D E F]. unfold ledger_held, usize_add. rewrite length_app, Nat2Z.inj_add. rewrite <- A, <- B.
  assert (clamp_u64 (lg_committed l + lg_outstanding l) = lg_committed l + lg_outstanding l) as -> by i64_lia. lia.
Qed.

(** No one is charged past the spendable share, whatever the number of actors. *)
Lemma budget_spendable max_entries actors :
  1 ≤ max_entries < u64_MAX → 0 ≤ actors →
  1 ≤ per_actor_budget max_entries actors ≤ Z.max 1 (max_entries - max_entries / ASYNC_RESERVE_DIVISOR).
Proof.
  intros Hm Ha. unfold per_actor_budget.
  assert (0 ≤ max_entries / ASYNC_RESERVE_DIVISOR ≤ max_entries) as Hr.
  { split; [apply Z.div_pos; [lia|done]|]. apply Z.div_le_upper_bound; unfold ASYNC_RESERVE_DIVISOR; lia. }
  set (r := max_entries / ASYNC_RESERVE_DIVISOR) in *.
  assert (usize_sub max_entries r = max_entries - r) as -> by (unfold usize_sub; i64_lia).
  assert ((max_entries - r) / Z.max actors 1 ≤ max_entries - r) by (apply Z.div_le_upper_bound; nia). lia.
Qed.

Lemma reserve_accounts l fl actor now :
  accounts l fl → lg_poisoned l = false →
  match reserve l actor now with
  | (l', Ok _) => accounts l' (actor :: fl) ∧ lg_poisoned l' = false
  | (l', Err _) => accounts l' fl ∧ lg_poisoned l' = false
  end.
Proof.
  intros Hacc Hp. unfold reserve. rewrite Hp. destruct (ledger_tick_frame l now) as [Hmx Hpo].
  apply (ledger_tick_accounts _ _ now) in Hacc. remember (ledger_tick l now) as t eqn:Ht. clear Ht.
  rewrite Hp in Hpo. cbn zeta.
  destruct (under_pressure (ledger_held t) (lg_max_entries t) && _) eqn:Efair; [done|].
  destruct (Z.leb_spec (lg_max_entries t) (ledger_held t)) as [|Hroom]; [done|].
  split; [|done]. destruct (ledger_held_accounts _ _ Hacc) as [Hheld _]. destruct Hacc as [A B C D E F].
  rewrite length_app, Nat2Z.inj_add in Hheld.
  assert (items (lg_by_expiry t) ++ actor :: fl ≡ₚ actor :: items (lg_by_expiry t) ++ fl) as Hperm by solve_Permutation.
  split; cbn; try done.
  - unfold usize_add. i64_lia.
  - rewrite Hperm. apply counts_charge; [done|]. rewrite length_app. lia.
  - unfold usize_add. i64_lia.
  - intros a. rewrite Hperm, occ_cons. destruct (decide (actor = a)) as [->|Hne]; [|rewrite Z.add_0_l; apply E].
    rewrite (counts_charged _ _ a C) in Efair. unfold under_pressure in Efair.
    pose proof (budget_spendable (lg_max_entries t) (actors_len (lg_per_actor t)) F ltac:(unfold actors_len; lia)).
    pose proof (occ_length a (items (lg_by_expiry t) ++ fl)) as Hocc. rewrite length_app in Hocc.
    assert (0 ≤ lg_max_entries t / ASYNC_RESERVE_DIVISOR ≤ lg_max_entries t) as Hr.
    { split; [apply Z.div_pos; [lia|done]|]. apply Z.div_le_upper_bound; unfold ASYNC_RESERVE_DIVISOR; lia. }
    set (r := lg_max_entries t / ASYNC_RESERVE_DIVISOR) in *.
    assert (usize_sub (lg_max_entries t) r = lg_max_entries t - r) as Hsub by (unfold usize_sub; i64_lia).
    rewrite Hsub in Efair. apply andb_false_iff in Efair as [Ef|Ef]; apply Z.leb_gt in Ef; lia.
Qed.

Lemma commit_accounts l fl actor r :
  accounts l (actor :: fl) → lg_poisoned l = false → accounts (ledger_commit l actor r) fl.
Proof.
  intros [A B C D E F] Hp. unfold ledger_commit. rewrite Hp. cbn in B.
  pose proof (items_push (lg_by_expiry l) r actor) as Hi.
  assert (actor :: items (lg_by_expiry l) ++ fl ≡ₚ items (lg_by_expiry l) ++ actor :: fl) as Hperm by solve_Permutation.
  split; cbn; try done.
  - rewrite Hi. cbn. unfold usize_add. i64_lia.
  - unfold usize_sub. i64_lia.
  - rewrite Hi. cbn. by rewrite Hperm.
  - unfold usize_add, usize_sub. i64_lia.
  - intros a. rewrite Hi. cbn. by rewrite Hperm.
Qed.

Lemma release_accounts l fl actor :
  accounts l (actor :: fl) → lg_poisoned l = false → accounts (ledger_release l actor) fl.
Proof.
  intros [A B C D E F] Hp. unfold ledger_release. rewrite Hp. cbn in B.
  assert (items (lg_by_expiry l) ++ actor :: fl ≡ₚ actor :: items (lg_by_expiry l) ++ fl) as Hperm by solve_Permutation.
  split; cbn; try done.
  - unfold usize_sub. i64_lia.
  - rewrite Hperm in C. apply counts_discharge in C; [done|]. rewrite length_app. lia.
  - unfold usize_sub. i64_lia.
  - intros a. etrans; [|apply (E a)]. rewrite Hperm, occ_cons. case_decide; lia.
Qed.

(** ** Requests in flight

    Between the reservation and the settlement a request awaits the store, so other requests
    run in between; its future may also be dropped there, before or after the store has acted. *)

Section tasks.
Context `{Base64, Sha2} {St : Type} `{AsyncAtomicReplayStore St}.

Record Task := {
  tk_charge : Charge;
  tk_insert : ReplayInsert;
  tk_answer : option (Result ReplayDecision ReplayStoreError);
}.

Record TierState := { ts_tier : AsyncReplayTier St; ts_tasks : list Task }.

Inductive TierLabel :=
  | L_silent
  | L_insert (clock : Z) (i : ReplayInsert) (res : Result ReplayDecision ReplayStoreError).

Definition with_store (t : AsyncReplayTier St) (s : St) : AsyncReplayTier St :=
  {| rt_store := s; rt_freshness := rt_freshness t; rt_ledger := rt_ledger t |}.
Definition poison_ledger (l : Ledger) : Ledger :=
  {| lg_per_actor := lg_per_actor l; lg_by_expiry := lg_by_expiry l; lg_committed := lg_committed l;
     lg_outstanding := lg_outstanding l; lg_inserts_since_prune := lg_inserts_since_prune l;
     lg_max_entries := lg_max_entries l; lg_poisoned := true |}.

Inductive tier_step : TierState → TierLabel → TierState → Prop :=
  | step_refused t ts key now l e :
      charge_reserve (rt_ledger t) (rk_principal key) now (ri_expires_at_unix (insert_of t key now)) = (l, Err e) →
      tier_step {| ts_tier := t; ts_tasks := ts |} L_silent {| ts_tier := with_ledger t l; ts_tasks := ts |}
  | step_start t ts key now l c :
      charge_reserve (rt_ledger t) (rk_principal key) now (ri_expires_at_unix (insert_of t key now)) = (l, Ok c) →
      tier_step {| ts_tier := t; ts_tasks := ts |} L_silent
        {| ts_tier := with_ledger t l;
           ts_tasks := {| tk_charge := c; tk_insert := insert_of t key now; tk_answer := None |} :: ts |}
  | step_store t ts1 ts2 c i clock s res :
      atomic_insert_if_absent clock (rt_store t) i = (s, res) →
      tier_step {| ts_tier := t; ts_tasks := ts1 ++ {| tk_charge := c; tk_insert := i; tk_answer := None |} :: ts2 |}
        (L_insert clock i res)
        {| ts_tier := with_store t s;
           ts_tasks := ts1 ++ {| tk_charge := c; tk_insert := i; tk_answer := Some res |} :: ts2 |}
  | step_settle t ts1 ts2 c i res :
      tier_step {| ts_tier := t; ts_tasks := ts1 ++ {| tk_charge := c; tk_insert := i; tk_answer := Some res |} :: ts2 |}
        L_silent
        {| ts_tier := with_ledger t (settle (rt_ledger t) c res).1; ts_tasks := ts1 ++ ts2 |}
  | step_cancel t ts1 ts2 c i :
      tier_step {| ts_tier := t; ts_tasks := ts1 ++ {| tk_charge := c; tk_insert := i; tk_answer := None |} :: ts2 |}
        L_silent
        {| ts_tier := with_ledger t (charge_drop (rt_ledger t) c); ts_tasks := ts1 ++ ts2 |}
  | step_answer_lost t ts1 ts2 c i clock s res :
      atomic_insert_if_absent clock (rt_store t) i = (s, res) →
      tier_step {| ts_tier := t; ts_tasks := ts1 ++ {| tk_charge := c; tk_insert := i; tk_answer := None |} :: ts2 |}
        (L_insert clock i res)
        {| ts_tier := with_ledger (with_store t s) (charge_drop (rt_ledger t) c); ts_tasks := ts1 ++ ts2 |}
  | step_poison t ts :
      tier_step {| ts_tier := t; ts_tasks := ts |} L_silent
        {| ts_tier := with_ledger t (poison_ledger (rt_ledger t)); ts_tasks := ts |}.

Inductive tier_run : TierState → list TierLabel → TierState → Prop :=
  | run_nil x : tier_run x [] x
  | run_cons x l y ls z : tier_step x l y → tier_run y ls z → tier_run x (l :: ls) z.

(** Every charge in flight is still unsettled. *)
Definition in_flight (ts : list Task) : Prop := Forall (λ k, ch_settlement (tk_charge k) = Settle_Indeterminate) ts.
Definition flight_actors (ts : list Task) : list bytes := (λ k, ch_actor (tk_charge k)) <$> ts.

Definition tier_inv (x : TierState) : Prop :=
  in_flight (ts_tasks x) ∧
  (lg_poisoned (rt_ledger (ts_tier x)) = true ∨ accounts (rt_ledger (ts_tier x)) (flight_actors (ts_tasks x))).

Lemma charge_reserve_inv l actor now r l' res :
  charge_reserve l actor now r = (l', res) →
  ∃ r', reserve l actor now = (l', r') ∧
        match res with
        | Ok c => r' = Ok tt ∧ ch_actor c = actor ∧ ch_retain_until c = r ∧ ch_settlement c = Settle_Indeterminate
        | Err e => r' = Err e
        end.
Proof.
  unfold charge_reserve. destruct (reserve l actor now) as [l0 [[]|e]]; intros [<- <-]%pair_equal_spec; eauto 10.
Qed.

Lemma settle_ledger l c res fl :
  lg_poisoned l = true ∨ accounts l (ch_actor c :: fl) → ch_settlement c = Settle_Indeterminate →
  lg_poisoned (settle l c res).1 = true ∨ accounts (settle l c res).1 fl.
Proof.
  intros Hacc Hc. assert (charge_drop l c = ledger_commit l (ch_actor c) (ch_retain_until c)) as Hd.
  { unfold charge_drop. by rewrite Hc. }
  destruct (lg_poisoned l) eqn:Hp.
  - left. unfold settle, charge_commit, charge_release_proven_absent, charge_drop, ledger_commit, ledger_release.
    rewrite Hc, Hp. by destruct res as [[]|]; cbn.
  - right. destruct Hacc as [|Hacc]; [congruence|].
    destruct res as [[]|e]; cbn [settle fst].
    + by apply commit_accounts.
    + by apply release_accounts.
    + rewrite Hd. by apply commit_accounts.
Qed.

Lemma reserve_poisoned l actor now l' r :
  reserve l actor now = (l', r) → lg_poisoned l = true → lg_poisoned l' = true.
Proof. unfold reserve. intros Hr Hp. rewrite Hp in Hr. by injection Hr as <- <-. Qed.

Lemma flight_actors_middle ts1 k ts2 :
  flight_actors (ts1 ++ k :: ts2) ≡ₚ ch_actor (tk_charge k) :: flight_actors (ts1 ++ ts2).
Proof. unfold flight_actors. rewrite !fmap_app. cbn. solve_Permutation. Qed.

Lemma in_flight_middle ts1 k ts2 :
  in_flight (ts1 ++ k :: ts2) ↔ ch_settlement (tk_charge k) = Settle_Indeterminate ∧ in_flight (ts1 ++ ts2).
Proof. unfold in_flight. rewrite !Forall_app, Forall_cons. tauto. Qed.

Lemma tier_step_inv x l y : tier_step x l y → tier_inv x → tier_inv y.
Proof.
  intros Hs [Hf Ha]. destruct Hs as [t ts key now l e Hr|t ts key now l c Hr|t ts1 ts2 c i clock s res _
    |t ts1 ts2 c i res|t ts1 ts2 c i|t ts1 ts2 c i clock s res _|t ts]; cbn in *.
  - apply charge_reserve_inv in Hr as (r' & Hr & ->). split; [done|]. cbn.
    destruct (lg_poisoned (rt_ledger t)) eqn:Hp; [left; by eapply reserve_poisoned|].
    destruct Ha as [|Ha]; [done|]. right.
    pose proof (reserve_accounts _ _ (rk_principal key) now Ha Hp) as Hres. rewrite Hr in Hres. apply Hres.
  - apply charge_reserve_inv in Hr as (r' & Hr & -> & Hac & _ & Hse). split; [by constructor|]. cbn.
    destruct (lg_poisoned (rt_ledger t)) eqn:Hp; [left; by eapply reserve_poisoned|].
    destruct Ha as [|Ha]; [done|]. right. rewrite Hac.
    pose proof (reserve_accounts _ _ (rk_principal key) now Ha Hp) as Hres. rewrite Hr in Hres. apply Hres.
  - rewrite in_flight_middle in Hf. split; cbn; [by rewrite in_flight_middle|].
    destruct Ha as [|Ha]; [by left|right]. eapply accounts_Permutation; [|exact Ha]. by rewrite !flight_actors_middle.
  - rewrite in_flight_middle in Hf. split; cbn; [tauto|]. apply settle_ledger; [|tauto].
    destruct Ha as [|Ha]; [by left|right]. eapply accounts_Permutation; [|exact Ha]. by rewrite flight_actors_middle.
  - rewrite in_flight_middle in Hf. split; cbn; [tauto|].
    change (charge_drop (rt_ledger t) c) with (settle (rt_ledger t) c (Err (StoreUnavailable []))).1.
    apply settle_ledger; [|tauto].
    destruct Ha as [|Ha]; [by left|right]. eapply accounts_Permutation; [|exact Ha]. by rewrite flight_actors_middle.
  - rewrite in_flight_middle in Hf. split; cbn; [tauto|].
    change (charge_drop (rt_ledger t) c) with (settle (rt_ledger t) c (Err (StoreUnavailable []))).1.
    apply settle_ledger; [|tauto].
    destruct Ha as [|Ha]; [by left|right]. eapply accounts_Permutation; [|exact Ha]. by rewrite flight_actors_middle.
  - split; [done|]. by left.
Qed.

Lemma tier_run_inv x ls y : tier_run x ls y → tier_inv x → tier_inv y.
Proof. induction 1; eauto using tier_step_inv. Qed.

(** One call of the tier, run to its end, is a run of the system. *)
Lemma check_and_insert_run clock t key now t' answer ts :
  tier_check_and_insert clock t key now = (t', answer) →
  ∃ ls, tier_run {| ts_tier := t; ts_tasks := ts |} ls {| ts_tier := t'; ts_tasks := ts |} ∧
        (∀ d, answer = Ok d → L_insert clock (insert_of t key now) (Ok d) ∈ ls).
Proof.
  unfold tier_check_and_insert.
  destruct (charge_reserve _ _ _ _) as [l [c|e]] eqn:Hr.
  - destruct (atomic_insert_if_absent clock (rt_store t) (insert_of t key now)) as [s out] eqn:Hs.
    destruct (settle l c out) as [l' a] eqn:Hse. intros [<- <-]%pair_equal_spec.
    exists [L_silent; L_insert clock (insert_of t key now) out; L_silent]. split.
    + eapply run_cons; [by apply step_start|]. eapply run_cons; [by apply (step_store _ [] ts)|].
      eapply run_cons; [apply (step_settle _ [] ts)|]. cbn. rewrite Hse. cbn. constructor.
    + intros d ->. destruct out as [[]|]; cbn in Hse; injection Hse as _ Hd; simplify_eq; set_solver.
  - intros [<- <-]%pair_equal_spec. exists [L_silent]. split; [|done].
    eapply run_cons; [by eapply step_refused|constructor].
Qed.
End tasks.
Arguments TierState : clear implicits.

Section guarantees.
Context `{Base64, Sha2} {St : Type} `{AsyncAtomicReplayStoreSpec St}.

Lemma tier_step_store (x : TierState St) l y :
  tier_step x l y → store_inv (rt_store (ts_tier x)) →
  store_inv (rt_store (ts_tier y)) ∧
  (∀ k r, retains (rt_store (ts_tier x)) k r →
     (match l with L_insert clock _ _ => clock ≤ r | L_silent => True end) →
     retains (rt_store (ts_tier y)) k r) ∧
  match l with
  | L_insert _ i (Ok Fresh) =>
      (∀ r, ¬ retains (rt_store (ts_tier x)) (ri_key i) r) ∧
      retains (rt_store (ts_tier y)) (ri_key i) (ri_expires_at_unix i)
  | _ => True
  end.
Proof.
  intros Hs Hinv. destruct Hs as [| |t ts1 ts2 c i clock s res Hi| | |t ts1 ts2 c i clock s res Hi|]; cbn in *;
    try (split; [done|]; split; [|done]; by auto).
  - destruct (atomic_insert_spec _ _ _ _ _ Hinv Hi) as (S1 & S2 & _ & S3). split; [done|]. split; [by auto|].
    by destruct res as [[]|].
  - destruct (atomic_insert_spec _ _ _ _ _ Hinv Hi) as (S1 & S2 & _ & S3). split; [done|]. split; [by auto|].
    by destruct res as [[]|].
Qed.

Lemma held_not_fresh (x : TierState St) ls y k r :
  tier_run x ls y → store_inv (rt_store (ts_tier x)) → retains (rt_store (ts_tier x)) k r →
  (∀ clock i res, L_insert clock i res ∈ ls → clock ≤ r) →
  ∀ clock i, L_insert clock i (Ok Fresh) ∈ ls → ri_key i ≠ k.
Proof.
  induction 1 as [|x l y ls z Hs Hr IH]; intros Hinv Hret Hcl clock i Hin; [by apply not_elem_of_nil in Hin|].
  destruct (tier_step_store _ _ _ Hs Hinv) as (S1 & S2 & S3).
  apply elem_of_cons in Hin as [<-|Hin].
  - destruct S3 as [S3 _]. intros <-. by apply (S3 r).
  - eapply IH; [done| | |done].
    + apply S2; [done|]. destruct l as [|c0 i0 r0]; [done|]. eapply Hcl. constructor.
    + intros c0 i0 r0 Hin0. eapply Hcl. by right.
Qed.

(** Over any interleaving of requests, cancellations and lost answers, a key the store
    called fresh is not called fresh again as long as the store's clock has not passed the
    key's retain-until: one admission per nonce while its request can still be accepted. *)
Lemma tier_admits_once (x : TierState St) ls1 clock1 i1 ls2 clock2 i2 ls3 y :
  store_inv (rt_store (ts_tier x)) →
  tier_run x (ls1 ++ L_insert clock1 i1 (Ok Fresh) :: ls2 ++ L_insert clock2 i2 (Ok Fresh) :: ls3) y →
  (∀ clock i res, L_insert clock i res ∈ ls2 → clock ≤ ri_expires_at_unix i1) →
  clock2 ≤ ri_expires_at_unix i1 →
  ri_key i1 ≠ ri_key i2.
Proof.
  intros Hinv Hrun Hcl Hc2. revert x Hinv Hrun. induction ls1 as [|l ls1 IH]; intros x Hinv Hrun; cbn in Hrun.
  - inversion Hrun as [|x' l' x1 ls' z Hs Hr]; subst.
    destruct (tier_step_store _ _ _ Hs Hinv) as (S1 & _ & _ & S3).
    assert (∀ ls a b, tier_run a ls b → ∀ p q, ls = p ++ q → ∃ m, tier_run a p m) as Hpre.
    { clear. induction 1 as [a|a l b ls c Hs Hr IH]; intros p q Heq.
      - destruct p; [|done]. eexists. constructor.
      - destruct p as [|l0 p]; [eexists; constructor|]. injection Heq as -> ->.
        destruct (IH p q eq_refl) as [m Hm]. exists m. by eapply run_cons. }
    destruct (Hpre _ _ _ Hr (ls2 ++ [L_insert clock2 i2 (Ok Fresh)]) ls3) as [m Hm].
    { by rewrite <- (assoc_L (++)). }
    intros Heq. eapply (held_not_fresh _ _ _ _ _ Hm S1 S3); [|by apply elem_of_app; right; left|by symmetry].
    intros c0 i0 r0 [Hin|Hin]%elem_of_app; [by eapply Hcl|]. apply list_elem_of_singleton in Hin. by simplify_eq.
  - inversion Hrun as [|x' l' x1 ls' z Hs Hr]; subst.
    apply (IH x1); [|done]. by apply (tier_step_store _ _ _ Hs Hinv).
Qed.
End guarantees.

(** ** Keys and accounts *)

(** Equal store keys come from one triple, or from a collision of the two framings. *)
Lemma composite_replay_key_binds `{Base64Laws, Sha2} s a n s' a' n' :
  composite_replay_key s a n = composite_replay_key s' a' n' →
  (s = s' ∧ a = a' ∧ n = n') ∨ collides (replay_preimage s a n) (replay_preimage s' a' n').
Proof.
  unfold composite_replay_key, sha256_hash_id. intros Heq%app_inv_head%url_encode_inj.
  destruct (decide (replay_preimage s a n = replay_preimage s' a' n')) as [Hp|]; [left|by right].
  unfold replay_preimage in Hp.
  apply len_prefix_inj in Hp as [-> Hp]. apply app_inv_head in Hp.
  apply len_prefix_inj in Hp as [-> Hp]. apply app_inv_head in Hp.
  split; [done|]. split; [done|]. eapply (len_prefix_inj _ _ [] []). by rewrite !app_nil_r.
Qed.

(** The verifier's last acceptance instant is not past the retention of the nonce. *)
Lemma retained_while_acceptable w expires : verifier_accepts_until w expires ≤ replay_retain_until w expires.
Proof. done. Qed.

(** C29: over any interleaving of requests, cancellations and lost answers, unless a holder of its
    lock panicked, the ledger charges each actor for exactly its requests in flight and its
    retained entries, stays within its ceiling, leaves a fifth of it out of any one actor's
    reach, and is empty again once nothing is in flight and everything has expired. *)
Theorem ledger_accounts_exactly `{Base64, Sha2} {St} `{AsyncAtomicReplayStore St}
    (store : St) freshness max_retained_entries ls (x : TierState St) :
  max_retained_entries < u64_MAX →
  tier_run {| ts_tier := AsyncReplayTier_new_bounded store freshness max_retained_entries; ts_tasks := [] |} ls x →
  let l := rt_ledger (ts_tier x) in
  lg_poisoned l = true ∨
  ((∀ a, charged_to (lg_per_actor l) a = occ a (flight_actors (ts_tasks x)) + occ a (items (lg_by_expiry l)) ∧
         charged_to (lg_per_actor l) a ≤ Z.max 1 (lg_max_entries l - lg_max_entries l / ASYNC_RESERVE_DIVISOR)) ∧
   Z.of_nat (length (ts_tasks x)) + Z.of_nat (length (items (lg_by_expiry l))) ≤ lg_max_entries l ∧
   (ts_tasks x = [] → ∀ now, (∀ r k, lg_by_expiry l !! r = Some k → r < now) →
      lg_per_actor (ledger_prune l now) = ∅ ∧ ledger_held (ledger_prune l now) = 0)).
Proof.
  intros Hmax Hrun l. apply tier_run_inv in Hrun as [_ [Hp|Hacc]]; [by left| |].
  2:{ split; [by constructor|]. right. by apply accounts_new. }
  right. fold l in Hacc. split; [|split].
  - intros a. rewrite (counts_charged _ _ a (acc_counts _ _ Hacc)). split; [rewrite occ_app; lia|]. apply Hacc.
  - pose proof (acc_room _ _ Hacc) as Hr. rewrite (acc_committed _ _ Hacc), (acc_outstanding _ _ Hacc) in Hr.
    unfold flight_actors in Hr. rewrite length_fmap in Hr. lia.
  - intros Ht now Hall. apply (ledger_prune_accounts _ _ now) in Hacc as Hacc'.
    assert (lg_by_expiry (ledger_prune l now) = ∅) as He.
    { unfold ledger_prune. destruct (foldl release_committed _ _). cbn. unfold split_live. apply map_eq.
      intros r. rewrite lookup_empty. apply map_lookup_filter_None. right. intros k Hk%Hall. cbn. lia. }
    destruct (ledger_held_accounts _ _ Hacc') as [Hheld _]. pose proof (acc_counts _ _ Hacc') as Hc.
    rewrite He, Ht in Hheld, Hc. unfold items in Hheld, Hc. rewrite map_to_list_empty in Hheld, Hc. cbn in Hheld, Hc.
    split; [|done]. apply map_empty. intros a. by rewrite Hc.
Qed.

(** ** Witnesses *)

Import Instances.

Definition w_insert (key : bytes) : ReplayInsert :=
  {| ri_key := key; ri_actor := b#"p"; ri_expires_at_unix := 130; ri_now_unix := 50 |}.
Definition w_task (key : bytes) : Task :=
  {| tk_charge := {| ch_actor := b#"p"; ch_retain_until := 130; ch_settlement := Settle_Indeterminate |};
     tk_insert := w_insert key; tk_answer := None |}.
Definition w_tier : AsyncReplayTier InMemoryAsyncAtomicReplayStore :=
  AsyncReplayTier_new_bounded InMemoryAsyncAtomicReplayStore_default {| fw_max_clock_skew_secs := 30 |} 10.
Definition w_tasks : TierState InMemoryAsyncAtomicReplayStore :=
  {| ts_tier := w_tier; ts_tasks := [w_task b#"k1"; w_task b#"k2"] |}.

Lemma default_store_inv : store_inv InMemoryAsyncAtomicReplayStore_default.
Proof. split; [|split; by vm_compute]. split; [by vm_compute|]. split; [apply counts_empty|by vm_compute]. Qed.

Definition w_replay_key : ReplayKey :=
  {| rk_signer := b#"s"; rk_principal := b#"p"; rk_audience := b#"a"; rk_nonce := b#"n"; rk_expires_at_unix := 100 |}.

Lemma ledger_accounts_exactly_witness :
  ∃ x : TierState InMemoryAsyncAtomicReplayStore,
  length (ts_tasks x) = 1%nat ∧
  (lg_poisoned (rt_ledger (ts_tier x)) = true ∨
   charged_to (lg_per_actor (rt_ledger (ts_tier x))) b#"p" =
     occ b#"p" (flight_actors (ts_tasks x)) + occ b#"p" (items (lg_by_expiry (rt_ledger (ts_tier x))))).
Proof.
  eexists. split; [|].
  2:{ edestruct (ledger_accounts_exactly InMemoryAsyncAtomicReplayStore_default {| fw_max_clock_skew_secs := 30 |} 10)
        as [Hp|[Hc _]]; [done| |by left|right; apply Hc].
      eapply run_cons; [|constructor]. eapply (step_start _ [] w_replay_key 50). vm_compute. reflexivity. }
  reflexivity.
Defined.

(** Staleness is judged by the instant the verifier used and pruning by the store's clock, so the
    bound on the clock in the theorem above is needed: a request that waited past its own
    retain-until between the two is called fresh a second time. *)
Definition fill (n : nat) (s : InMemoryAsyncAtomicReplayStore) : InMemoryAsyncAtomicReplayStore :=
  foldl (λ s j, (insert_locked 131 s (b#"x" ++ fmt_nat (Z.of_nat j)) b#"q" 500 120).1) s (seq 0 n).

Lemma delayed_insert_readmits :
  let s1 := insert_locked 60 InMemoryAsyncAtomicReplayStore_default b#"k1" b#"p" 130 60 in
  let s2 := insert_locked 131 (fill 63 s1.1) b#"k1" b#"p" 130 129 in
  s1.2 = Ok Fresh ∧ s2.2 = Ok Fresh.
Proof. vm_compute. split; reflexivity. Qed.
