(* ===== verification/Authorize.v ===== *)
(** * [mcp-re-proxy/src/authorization], [transport], [communication_assurance/request_peer_binding]

    May this verified actor do this verified action: the action read from the signed body, the
    decision a request carries and binds, the relation between the decision and the request,
    and the posture the serving path goes on with. The channel binding that comes before it is
    here too; the channel peer is any type with an identity. *)

From S2P Require Import Prelude.
From S2P Require Import RustStr.
From S2P Require Import Externals.
From S2P Require Import Concrete.
From S2P Require Import CoreError.
From S2P Require Import CoreResolver.
From S2P Require Import HttpMessage.
From S2P Require Import Policy.
From S2P Require Import Blocks.
From S2P Require Import Floor.
From S2P Require Import Sign.
From S2P Require Import Full.
From S2P Require Import Delegation.
From S2P Require Import Admission.
From S2P Require Import Records.
From S2P Require Import AuthzPolicy.

(** ** The channel binding *)

Class ChannelPeer (P : Type) := { peer_identity : P → bytes }.

Record VerifiedRequestSubject := { vs_subject : bytes }.
Record RequestPeerBindingFacts (P : Type) := mkBinding { rp_peer : P; rp_subject : VerifiedRequestSubject }.
Arguments mkBinding {P} _ _.
Arguments rp_peer {P} _.
Arguments rp_subject {P} _.
Inductive RequestPeerBindingRefusal := DifferentPrincipals (peer request : bytes).

Section binding.
Context `{Ed25519, ChannelPeer P}.

Definition verified_request_subject (actor : ResolvedActor) : VerifiedRequestSubject :=
  {| vs_subject := ai_subject (ra_identity actor) |}.

Definition bind_request_to_peer (peer : P) (subject : VerifiedRequestSubject)
    : Result (RequestPeerBindingFacts P) RequestPeerBindingRefusal :=
  if negb (bytes_eqb (peer_identity peer) (vs_subject subject))
  then Err (DifferentPrincipals (peer_identity peer) (vs_subject subject))
  else Ok (mkBinding peer subject).

(** [ExactMatchBinding] is the one policy; a request with no authenticated peer is refused. *)
Definition exact_match_bind (peer : P) (subject : VerifiedRequestSubject)
    : Result (RequestPeerBindingFacts P) McpReError :=
  map_err (λ _, TransportBindingFailed) (bind_request_to_peer peer subject).
Definition transport_bind (peer : option P) (subject : VerifiedRequestSubject)
    : Result (RequestPeerBindingFacts P) McpReError :=
  let? peer := ok_or peer TransportBindingFailed in
  exact_match_bind peer subject.

Lemma transport_bind_Ok peer subject b :
  transport_bind peer subject = Ok b ↔
  ∃ p, peer = Some p ∧ peer_identity p = vs_subject subject ∧ b = mkBinding p subject.
Proof.
  unfold transport_bind, exact_match_bind, bind_request_to_peer. destruct peer as [p|]; simpl; [|naive_solver].
  destruct (bytes_eqb (peer_identity p) (vs_subject subject)) eqn:E; simpl.
  - apply bytes_eqb_true in E. naive_solver.
  - split; [done|]. intros (p' & [= <-] & Heq & _). rewrite Heq, bytes_eqb_refl in E. done.
Qed.
End binding.

(** ** [verified_action.rs], [verified_actor.rs] *)

Inductive AuthorizationTarget := TargetNotApplicable | TargetNamed (t : bytes) | TargetAbsent.
Record VerifiedAuthorizationAction := { va_operation : bytes; va_target : AuthorizationTarget }.
Inductive AuthorizationActionRefusal := BodyIsNotTheSignedBody | BodyIsNotJson | NoOperation.
Record VerifiedAuthorizationActor := { va_identity : ActorIdentity }.

Definition action_refusal_error (e : AuthorizationActionRefusal) : McpReError :=
  match e with
  | BodyIsNotTheSignedBody => DigestMismatch
  | BodyIsNotJson | NoOperation => MalformedEnvelope
  end.

Section authorization.
Context `{Base64, Sha2, Ed25519, SerdeJson, ChannelPeer P}.
Context `{!Serde PdpDecisionHeader, !Serde PdpDecisionClaims}.

Definition interpret_authorization_actor (actor : ResolvedActor) : VerifiedAuthorizationActor :=
  {| va_identity := ra_identity actor |}.

Definition target_of (operation : bytes) (body : Value) : AuthorizationTarget :=
  match mcp_name_source operation with
  | None => TargetNotApplicable
  | Some source =>
      match json_get body b#"params" ≫= extract source with
      | Some named => TargetNamed named
      | None => TargetAbsent
      end
  end.

Definition interpret_authorization_action (verified : VerifiedMcpRequest) (body : bytes)
    : Result VerifiedAuthorizationAction AuthorizationActionRefusal :=
  if negb (covers_body (vr_floor verified) body) then Err BodyIsNotTheSignedBody
  else
    let? body := ok_or (from_slice body) BodyIsNotJson in
    let? operation := ok_or (json_get body b#"method" ≫= as_str) NoOperation in
    Ok {| va_operation := operation; va_target := target_of operation body |}.

(** ** [decision_evidence.rs], [pdp/evidence.rs] *)

Record DecisionEvidenceIdentity := { dei_alg : bytes; dei_value : bytes }.
Definition from_verified_binding (alg value : bytes) : DecisionEvidenceIdentity :=
  {| dei_alg := alg; dei_value := value |}.
Record BoundDecisionEvidence := { bde_document : bytes; bde_identity : DecisionEvidenceIdentity }.
Inductive DecisionEvidenceRefusal := NoSinglePairing | EvidenceDigestMismatch | NotTheEvidenceForm.

Definition is_decision_binding (b : ArtifactBinding) : bool :=
  bool_decide (artifact_type b = PdpDecision) && bool_decide (binding_type b = OpaqueDigest).

Definition bound_decision_evidence (verified : VerifiedMcpRequest)
    : Result (option BoundDecisionEvidence) DecisionEvidenceRefusal :=
  let block := vr_request_block verified in
  match rb_authorization_decision block with
  | None => Ok None
  | Some document =>
      match List.filter is_decision_binding (rb_artifact_bindings block) with
      | [binding] =>
          match verify_pdp_decision_binding binding document with
          | Ok _ => Ok (Some {| bde_document := document;
                                bde_identity := from_verified_binding (ab_digest_alg binding) (ab_digest_value binding) |})
          | Err PdpDigestMismatch => Err EvidenceDigestMismatch
          | Err (Blocks.NotTheEvidenceForm | Blocks.PdpMalformed) => Err NotTheEvidenceForm
          end
      | _ => Err NoSinglePairing
      end
  end.

(** ** [request.rs], [grant.rs], [evaluator.rs], [posture.rs], [dispatch.rs] *)

Record AuthorizationRequest := {
  ar_actor : VerifiedAuthorizationActor;
  ar_action : VerifiedAuthorizationAction;
  ar_binding : option (RequestPeerBindingFacts P);
  ar_evidence : RequestEvidence;
  ar_verified : VerifiedMcpRequest;
}.

Definition authorization_request (verified : VerifiedMcpRequest) (body : bytes)
    (binding : option (RequestPeerBindingFacts P)) : Result AuthorizationRequest AuthorizationActionRefusal :=
  let? action := interpret_authorization_action verified body in
  Ok {| ar_actor := interpret_authorization_actor (fr_resolved_actor (vr_floor verified));
        ar_action := action; ar_binding := binding; ar_evidence := fr_evidence (vr_floor verified);
        ar_verified := verified |}.

Definition decision_evidence (r : AuthorizationRequest)
    : Result (option BoundDecisionEvidence) DecisionEvidenceRefusal := bound_decision_evidence (ar_verified r).

Record GrantAttribution := { ga_authority : bytes; ga_version : bytes; ga_authority_decision_id : bytes }.
Record AuthorizedDecision := { ad_grant : GrantAttribution; ad_evidence : DecisionEvidenceIdentity }.

(** [dyn AuthorizationEvaluator]. *)
Definition AuthorizationEvaluator : Type := AuthorizationRequest → Result AuthorizedDecision PolicyError.

Record AuthorizedRequestFacts := { af_request : AuthorizationRequest; af_decision : AuthorizedDecision }.
Inductive AuthorizationPosture := NoPolicyConfigured | Authorized (facts : AuthorizedRequestFacts).

Record AuthorizedRequestBody := { arb_body : bytes }.
Definition release (p : AuthorizationPosture) (body : bytes) : AuthorizedRequestBody := {| arb_body := body |}.

(** ** [audit.rs] *)

Record AuthorizationAttribution := {
  aa_authority : bytes;
  aa_version : bytes;
  aa_authority_decision_id : bytes;
  aa_decision_evidence : DecisionEvidenceIdentity;
  aa_action : VerifiedAuthorizationAction;
  aa_attributable_to : RequestEvidence;
}.
Inductive AuthorizationRefusalFacet := BeforePolicy | ByPolicy (e : PolicyError).
Inductive AuthorizationFacet :=
  | AuthzNotConfigured
  | AuthzAuthorized (a : AuthorizationAttribution)
  | AuthzRefused (r : AuthorizationRefusalFacet).

Definition audit_attribution (f : AuthorizedRequestFacts) : AuthorizationAttribution :=
  {| aa_authority := ga_authority (ad_grant (af_decision f));
     aa_version := ga_version (ad_grant (af_decision f));
     aa_authority_decision_id := ga_authority_decision_id (ad_grant (af_decision f));
     aa_decision_evidence := ad_evidence (af_decision f);
     aa_action := ar_action (af_request f);
     aa_attributable_to := ar_evidence (af_request f) |}.
Definition posture_facet (p : AuthorizationPosture) : AuthorizationFacet :=
  match p with NoPolicyConfigured => AuthzNotConfigured | Authorized f => AuthzAuthorized (audit_attribution f) end.

(** ** [decide.rs], [serving.rs] *)

Inductive AuthorizationRefusal :=
  | ActionNotVerifiable (a : AuthorizationActionRefusal)
  | PolicyRefused (e : PolicyError).

Definition authorization_wire_code (r : AuthorizationRefusal) : bytes :=
  match r with
  | ActionNotVerifiable a => wire_code (action_refusal_error a)
  | PolicyRefused e => policy_wire_code e
  end.
Definition authorization_core_verdict (r : AuthorizationRefusal) : option McpReError :=
  match r with ActionNotVerifiable a => Some (action_refusal_error a) | PolicyRefused _ => None end.
Definition refusal_facet (r : AuthorizationRefusal) : AuthorizationFacet :=
  match r with
  | ActionNotVerifiable _ => AuthzRefused BeforePolicy
  | PolicyRefused e => AuthzRefused (ByPolicy e)
  end.

Definition authorize (evaluator : option AuthorizationEvaluator) (verified : VerifiedMcpRequest) (body : bytes)
    (binding : option (RequestPeerBindingFacts P)) : Result AuthorizationPosture AuthorizationRefusal :=
  let? request := map_err ActionNotVerifiable (authorization_request verified body binding) in
  match evaluator with
  | None => Ok NoPolicyConfigured
  | Some evaluate =>
      match evaluate request with
      | Ok decision => Ok (Authorized {| af_request := request; af_decision := decision |})
      | Err e => Err (PolicyRefused e)
      end
  end.

(** ** [pdp/authority.rs], [pdp/policy.rs], [pdp/refusal.rs], [pdp/relation.rs] *)

Record EnrolledAuthority := { ea_name : bytes; ea_key : VerificationKey }.
Record PdpDecisionPolicy := {
  pp_resolve_authority : bytes → option EnrolledAuthority;
  pp_accepted_scope : DecisionScope;
  pp_freshness : PdpDecisionFreshness;
}.
Record PdpDecisionEvaluator := {
  pe_policy : PdpDecisionPolicy;
  pe_audiences : list bytes;
  pe_profile : bytes;
  pe_now : Z;
}.

Inductive PdpRelationRefusal :=
  | NoDecisionPresented
  | EvidenceNotBound (r : DecisionEvidenceRefusal)
  | NotAuthenticated (r : PdpDecisionRefusal)
  | ScopeNotAccepted (decided accepted : DecisionScope)
  | DifferentActor
  | DifferentAction
  | ExplicitDeny.

Definition relation_wire_code (r : PdpRelationRefusal) : PolicyError :=
  match r with
  | NoDecisionPresented => AuthorizationBlockMissing
  | EvidenceNotBound EvidenceDigestMismatch => AuthorizationHashMismatch
  | EvidenceNotBound _ => AuthorizationMalformed
  | NotAuthenticated (PdpMalformed _) => AuthorizationMalformed
  | NotAuthenticated PdpAudienceMismatch => AuthorizationAudienceMismatch
  | NotAuthenticated (PdpExpired | PdpStale | PdpIssuedInTheFuture) => AuthorizationExpired
  | NotAuthenticated (PdpIssuerUntrusted | PdpSignatureInvalid | PdpProfileMismatch) => AuthorizationSignatureInvalid
  | ScopeNotAccepted _ _ => AuthorizationProfileUnsupported
  | DifferentActor => AuthorizationSignerMismatch
  | DifferentAction | ExplicitDeny => AuthorizationScopeDenied
  end.

Definition actor_matches (claims : PdpDecisionClaims) (request : AuthorizationRequest) : bool :=
  let decided := pc_mcp_re_decided_actor claims in
  let actor := va_identity (ar_actor request) in
  if negb (bytes_eqb (decided_trust_domain decided) (ai_trust_domain actor)) ||
     negb (bytes_eqb (decided_subject decided) (ai_subject actor)) then false
  else match decided_keyid decided with
       | None => true
       | Some keyid => bytes_eqb keyid (ai_keyid actor)
       end.

Definition action_matches (claims : PdpDecisionClaims) (request : AuthorizationRequest) : bool :=
  if negb (bytes_eqb (pc_mcp_re_decided_operation claims) (va_operation (ar_action request))) then false
  else match pc_mcp_re_decided_target claims, va_target (ar_action request) with
       | None, TargetNotApplicable => true
       | Some decided, TargetNamed asked => bytes_eqb decided asked
       | _, _ => false
       end.

Definition scope_eqb (a b : DecisionScope) : bool :=
  match a, b with ScopePrincipal, ScopePrincipal | ScopeCredential, ScopeCredential => true | _, _ => false end.

Definition pdp_decide (ev : PdpDecisionEvaluator) (request : AuthorizationRequest)
    : Result AuthorizedDecision PdpRelationRefusal :=
  let? presented := map_err EvidenceNotBound (decision_evidence request) in
  let? evidence := ok_or presented NoDecisionPresented in
  let? claims := map_err NotAuthenticated
    (verify_authorization_decision (bde_document evidence) (pe_profile ev) (pe_audiences ev)
       (pp_freshness (pe_policy ev)) (pe_now ev)
       (λ kid, ea_key <$> pp_resolve_authority (pe_policy ev) kid)) in
  let? authority := ok_or (pp_resolve_authority (pe_policy ev) (pc_issuer_kid claims))
                          (NotAuthenticated PdpIssuerUntrusted) in
  let decided_scope := decided_scope (pc_mcp_re_decided_actor claims) in
  if negb (scope_eqb decided_scope (pp_accepted_scope (pe_policy ev)))
  then Err (ScopeNotAccepted decided_scope (pp_accepted_scope (pe_policy ev)))
  else if negb (actor_matches claims request) then Err DifferentActor
  else if negb (action_matches claims request) then Err DifferentAction
  else match pc_mcp_re_decision claims with
       | Permit => Ok {| ad_grant := {| ga_authority := ea_name authority; ga_version := pc_mcp_re_policy_version claims;
                                        ga_authority_decision_id := pc_jti claims |};
                         ad_evidence := bde_identity evidence |}
       | Deny => Err ExplicitDeny
       end.

Definition pdp_evaluate (ev : PdpDecisionEvaluator) : AuthorizationEvaluator :=
  λ request, map_err relation_wire_code (pdp_decide ev request).
End authorization.

(** ** What a grant means *)

Section grants.
Context `{Base64, Sha2, Ed25519, SerdeJson, ChannelPeer P}.
Context `{!Serde PdpDecisionHeader, !Serde PdpDecisionClaims}.

(** The claims are about this actor, at the scope the policy accepts. *)
Definition decided_about_actor (claims : PdpDecisionClaims) (scope : DecisionScope) (who : ActorIdentity) : Prop :=
  match pc_mcp_re_decided_actor claims, scope with
  | DecidedPrincipal d s, ScopePrincipal => d = ai_trust_domain who ∧ s = ai_subject who
  | DecidedCredential d s k, ScopeCredential => d = ai_trust_domain who ∧ s = ai_subject who ∧ k = ai_keyid who
  | _, _ => False
  end.

(** The claims are about this action: the same operation, and the same target where it has one. *)
Definition decided_about_action (claims : PdpDecisionClaims) (action : VerifiedAuthorizationAction) : Prop :=
  pc_mcp_re_decided_operation claims = va_operation action ∧
  va_target action = match pc_mcp_re_decided_target claims with
                     | Some t => TargetNamed t
                     | None => TargetNotApplicable
                     end.

(** The one decision binding of a block, over a document. *)
Definition binds_document (block : HttpRequestEvidenceBlock) (document : bytes) (b : ArtifactBinding) : Prop :=
  rb_authorization_decision block = Some document ∧
  List.filter is_decision_binding (rb_artifact_bindings block) = [b] ∧
  artifact_validate b = Ok tt ∧ ab_digest_value b = b64url_encode (sha256 document).

Lemma decision_binding_verifies b document u :
  is_decision_binding b = true →
  verify_pdp_decision_binding b document = Ok u ↔
    artifact_validate b = Ok tt ∧ ab_digest_value b = b64url_encode (sha256 document).
Proof.
  unfold is_decision_binding, verify_pdp_decision_binding. intros [-> ->]%andb_true_iff. cbn [negb orb].
  destruct u. destruct (artifact_validate b) as [[]|]; cbn [map_err]; [|naive_solver].
  destruct (bytes_eqb _ (ab_digest_value b)) eqn:E; cbn [negb].
  - apply bytes_eqb_true in E. naive_solver.
  - split; [done|]. intros [_ Heq]. rewrite Heq, bytes_eqb_refl in E. done.
Qed.

Lemma filter_single (f : ArtifactBinding → bool) l b : List.filter f l = [b] → f b = true.
Proof. intros E. apply (filter_In f b l). rewrite E. by left. Qed.

Lemma bound_decision_evidence_Some verified e :
  bound_decision_evidence verified = Ok (Some e) ↔
  ∃ document b, binds_document (vr_request_block verified) document b ∧
    e = {| bde_document := document;
           bde_identity := from_verified_binding (ab_digest_alg b) (ab_digest_value b) |}.
Proof.
  unfold bound_decision_evidence, binds_document.
  destruct (rb_authorization_decision _) as [document|]; [|naive_solver].
  destruct (List.filter is_decision_binding _) as [|b [|b' r]] eqn:Ef; [naive_solver| |naive_solver].
  pose proof (filter_single _ _ _ Ef) as Hb.
  destruct (verify_pdp_decision_binding b document) as [u|r] eqn:Ev.
  - apply decision_binding_verifies in Ev as [Hv Hd]; [|done]. split; [naive_solver|].
    intros (d & b' & (Hd' & Hb' & _) & ->). by simplify_eq.
  - split; [by destruct r|]. intros (d & b' & ([= <-] & [= <-] & Hv & Hd) & _).
    assert (verify_pdp_decision_binding b document = Ok tt) as Hok by (by apply decision_binding_verifies).
    congruence.
Qed.

Lemma actor_matches_exact claims (request : AuthorizationRequest (P := P)) scope :
  scope_eqb (decided_scope (pc_mcp_re_decided_actor claims)) scope && actor_matches claims request = true ↔
  decided_about_actor claims scope (va_identity (ar_actor request)).
Proof.
  unfold actor_matches, decided_about_actor.
  destruct (pc_mcp_re_decided_actor claims) as [d s|d s k], scope; cbn; try done;
    destruct (bytes_eqb d _) eqn:E1, (bytes_eqb s _) eqn:E2; cbn;
    rewrite ?bytes_eqb_true in *; try (split; [done|naive_solver]);
    try (split; [done|]; intros Hx; destruct_and?; subst; by rewrite ?bytes_eqb_refl in *).
Qed.

Lemma action_matches_exact claims (request : AuthorizationRequest (P := P)) :
  action_matches claims request = true ↔ decided_about_action claims (ar_action request).
Proof.
  unfold action_matches, decided_about_action.
  destruct (bytes_eqb (pc_mcp_re_decided_operation claims) _) eqn:E; cbn.
  - apply bytes_eqb_true in E. destruct (pc_mcp_re_decided_target claims) as [t|], (va_target (ar_action request)) as [|t'|];
      rewrite ?bytes_eqb_true; naive_solver.
  - split; [done|]. intros [Heq _]. by rewrite Heq, bytes_eqb_refl in E.
Qed.

(** C33: the authorization stage grants a request exactly when the body is the signed one and names
    an operation, the evidence block carries one decision document under one valid digest
    binding, the document is a decision of an enrolled authority that verifies here and now, and
    it permits this actor, at the accepted scope, this operation on this target. The grant names
    the authority, policy version and decision it rests on. *)
Theorem authorization_granted_exact (ev : PdpDecisionEvaluator) verified body
    (binding : option (RequestPeerBindingFacts P)) facts :
  authorize (Some (pdp_evaluate ev)) verified body binding = Ok (Authorized facts) ↔
  ∃ action document b claims authority,
    interpret_authorization_action verified body = Ok action ∧
    binds_document (vr_request_block verified) document b ∧
    verify_authorization_decision document (pe_profile ev) (pe_audiences ev) (pp_freshness (pe_policy ev)) (pe_now ev)
      (λ kid, ea_key <$> pp_resolve_authority (pe_policy ev) kid) = Ok claims ∧
    pp_resolve_authority (pe_policy ev) (pc_issuer_kid claims) = Some authority ∧
    decided_about_actor claims (pp_accepted_scope (pe_policy ev)) (ra_identity (fr_resolved_actor (vr_floor verified))) ∧
    decided_about_action claims action ∧
    pc_mcp_re_decision claims = Permit ∧
    facts =
      {| af_request := {| ar_actor := interpret_authorization_actor (fr_resolved_actor (vr_floor verified));
                          ar_action := action; ar_binding := binding; ar_evidence := fr_evidence (vr_floor verified);
                          ar_verified := verified |};
         af_decision := {| ad_grant := {| ga_authority := ea_name authority;
                                          ga_version := pc_mcp_re_policy_version claims;
                                          ga_authority_decision_id := pc_jti claims |};
                           ad_evidence := from_verified_binding (ab_digest_alg b) (ab_digest_value b) |} |}.
Proof.
  unfold authorize, authorization_request, pdp_evaluate.
  destruct (interpret_authorization_action verified body) as [action|] eqn:Ea; cbn [map_err]; [|naive_solver].
  set (request := {| ar_actor := _ |}). unfold pdp_decide, decision_evidence. cbn [ar_verified request].
  destruct (bound_decision_evidence verified) as [[e|]|] eqn:Eb; cbn [map_err ok_or].
  2,3: split; [done|]; intros (? & d & b & ? & ? & _ & Hb & _);
    assert (bound_decision_evidence verified = Ok (Some {| bde_document := d;
      bde_identity := from_verified_binding (ab_digest_alg b) (ab_digest_value b) |})) as Hx
      by (apply bound_decision_evidence_Some; eauto); congruence.
  apply bound_decision_evidence_Some in Eb as (document & b & Hb & ->). cbn [bde_document bde_identity].
  destruct (verify_authorization_decision document _ _ _ _ _) as [claims|] eqn:Ev; cbn [map_err].
  2:{ split; [done|]. intros (? & d & b' & ? & ? & _ & Hb' & Hv & _). destruct Hb as [Hb _], Hb' as [Hb' _].
      rewrite Hb in Hb'. injection Hb' as ->. congruence. }
  destruct (pp_resolve_authority (pe_policy ev) (pc_issuer_kid claims)) as [authority|] eqn:Er; cbn [ok_or].
  2:{ split; [done|]. intros (? & d & b' & ? & ? & _ & Hb' & Hv & Hr & _). destruct Hb as [Hb _], Hb' as [Hb' _].
      rewrite Hb in Hb'. injection Hb' as ->. rewrite Ev in Hv. injection Hv as ->. congruence. }
  pose proof (actor_matches_exact claims request (pp_accepted_scope (pe_policy ev))) as Hactor.
  pose proof (action_matches_exact claims request) as Haction. cbn [ar_actor ar_action request] in Hactor, Haction.
  transitivity (decided_about_actor claims (pp_accepted_scope (pe_policy ev)) (ra_identity (fr_resolved_actor (vr_floor verified))) ∧
    decided_about_action claims action ∧ pc_mcp_re_decision claims = Permit ∧
    facts = {| af_request := request;
               af_decision := {| ad_grant := {| ga_authority := ea_name authority;
                                                ga_version := pc_mcp_re_policy_version claims;
                                                ga_authority_decision_id := pc_jti claims |};
                                 ad_evidence := from_verified_binding (ab_digest_alg b) (ab_digest_value b) |} |}).
  - rewrite <- Hactor, <- Haction. destruct (scope_eqb _ _), (actor_matches claims request), (action_matches claims request),
      (pc_mcp_re_decision claims); cbn; naive_solver.
  - split.
    + intros (H1' & H2' & H3' & ->). exists action, document, b, claims, authority. done.
    + intros (action' & d & b' & claims' & auth' & [= <-] & Hb' & Hv & Hr & H1' & H2' & H3' & ->).
      destruct Hb as (Hb & Hf & _), Hb' as (Hb' & Hf' & _). rewrite Hb in Hb'. injection Hb' as ->.
      rewrite Hf in Hf'. injection Hf' as ->. rewrite Ev in Hv. injection Hv as ->. rewrite Er in Hr. by injection Hr as ->.
Qed.
End grants.
