(* ===== verification/SigningPlane.v ===== *)
(** * [mcp-re-proxy]: the delegated signing plane

    [delegated_server_signer/] holds the key the serving path reads and the rotor that publishes
    what the custody issued; [http_profile_serve/signing_window.rs] fixes key and window for one
    exchange, [async_inner/completion_bound.rs] what a backend promises about its duration. The
    rotor and any number of readers share the snapshot. *)

From S2P Require Import Prelude.
From S2P Require Import RustStr.
From S2P Require Import Externals.
From S2P Require Import Concrete.
From S2P Require Import CoreError.
From S2P Require Import CoreResolver.
From S2P Require Import HttpMessage.
From S2P Require Import Policy.
From S2P Require Import Blocks.
From S2P Require Import Body.
From S2P Require Import Floor.
From S2P Require Import Sign.
From S2P Require Import Full.
From S2P Require Import Delegation.
From S2P Require Import Custody.

(** ** [delegated_server_signer/retry_schedule.rs], in milliseconds *)

Definition ROTATION_BACKOFF_BASE_MS : Z := 250.
Definition ROTATION_BACKOFF_MAX_MS : Z := 30000.
Definition ROTATION_BACKOFF_MIN_MS : Z := 50.

Definition backoff_cap_ms (consecutive_failures : Z) (seconds_to_expiry : option Z) : Z :=
  let shift := Z.min (Z.max 0 (consecutive_failures - 1)) 20 in
  let raw_ms := clamp_u64 (ROTATION_BACKOFF_BASE_MS * Z.shiftl 1 shift) in
  let cap_ms := Z.min raw_ms ROTATION_BACKOFF_MAX_MS in
  let cap_ms := match seconds_to_expiry with
                | Some ttl => if 0 <? ttl then Z.min cap_ms (clamp_u64 (ttl * 1000)) else cap_ms
                | None => cap_ms
                end in
  Z.max cap_ms ROTATION_BACKOFF_MIN_MS.

Definition rotation_backoff (consecutive_failures : Z) (seconds_to_expiry : option Z) (jitter : Z) : Z :=
  let half := backoff_cap_ms consecutive_failures seconds_to_expiry / 2 in
  let span := clamp_u64 (half + 1) in
  clamp_u64 (half + jitter mod span).

(** ** The published snapshot *)

Section plane.
Context `{Base64, Sha2, Ed25519, SerdeJson}.
Context `{!Serde DelegationHeader, !Serde DelegationClaims}.

Record DelegatedRotationMetrics := {
  rotations_ok : Z;
  rotation_failures : Z;
  consecutive_failures : Z;
  last_success_unix : Z;
}.
Definition metrics_default : DelegatedRotationMetrics :=
  {| rotations_ok := 0; rotation_failures := 0; consecutive_failures := 0; last_success_unix := 0 |}.

(** Atomic counters wrap around. *)
Definition fetch_add_u64 (n : Z) : Z := (n + 1) mod 18446744073709551616.
Definition record_success (m : DelegatedRotationMetrics) (now : Z) : DelegatedRotationMetrics :=
  {| rotations_ok := fetch_add_u64 (rotations_ok m); rotation_failures := rotation_failures m;
     consecutive_failures := 0; last_success_unix := now |}.
Definition record_failure (m : DelegatedRotationMetrics) : DelegatedRotationMetrics * Z :=
  ({| rotations_ok := rotations_ok m; rotation_failures := fetch_add_u64 (rotation_failures m);
      consecutive_failures := fetch_add_u64 (consecutive_failures m); last_success_unix := last_success_unix m |},
   Z.min (clamp_u64 (consecutive_failures m + 1)) 4294967295).

Inductive Snapshot := Snap_Empty | Snap_Active (a : ActiveDelegatedKey) | Snap_Terminal.

Definition signer_publish (s : Snapshot) (active : ActiveDelegatedKey) : Snapshot :=
  match s with Snap_Terminal => Snap_Terminal | _ => Snap_Active active end.
Definition signer_retire (s : Snapshot) : Snapshot :=
  match s with Snap_Terminal => Snap_Terminal | _ => Snap_Empty end.
Definition retire_permanently (s : Snapshot) : Snapshot := Snap_Terminal.

Definition signer_current (s : Snapshot) (now : Z) : option ActiveDelegatedKey :=
  match s with
  | Snap_Active a => if (ak_nbf a <=? now) && (now <? ak_exp a) then Some a else None
  | _ => None
  end.
Definition seconds_to_expiry (s : Snapshot) (now : Z) : option Z :=
  match s with Snap_Active a => Some (saturating_sub (ak_exp a) now) | _ => None end.

(** ** [signing_window.rs], [completion_bound.rs] *)

Record SigningWindow := { sw_key : ActiveDelegatedKey; sw_created : Z; sw_expires : Z }.

Definition window_over (key : ActiveDelegatedKey) (now ttl_secs : Z) : option SigningWindow :=
  let expires := Z.min (saturating_add now ttl_secs) (ak_exp key) in
  if now <? expires then Some {| sw_key := key; sw_created := now; sw_expires := expires |} else None.
Definition window_open (signer : Snapshot) (now ttl_secs : Z) : option SigningWindow :=
  signer_current signer now ≫= λ key, window_over key now ttl_secs.
Definition admissible_at (w : SigningWindow) (instant : Z) : bool :=
  window_admits (sw_created w) (sw_expires w) instant 0.

(** A [Duration] is whole seconds and nanoseconds below a second. *)
Record Duration := { dur_secs : Z; dur_nanos : Z }.
Inductive DispatchCompletionBound := Within (d : Duration) | BoundUnstated.
Definition whole_seconds (d : Duration) : Z :=
  let secs := if in_i64 (dur_secs d) then dur_secs d else i64_MAX in
  if 0 <? dur_nanos d then saturating_add secs 1 else secs.
Definition latest_completion (b : DispatchCompletionBound) (started : Z) : option Z :=
  match b with Within d => Some (saturating_add started (whole_seconds d)) | BoundUnstated => None end.
Definition window_covers (w : SigningWindow) (b : DispatchCompletionBound) : bool :=
  match latest_completion b (sw_created w) with Some latest => admissible_at w latest | None => false end.

(** ** The rotor *)

Context {I F : Type} (issue : DelegationHeader → DelegationClaims → I → I * option bytes)
  (factory : F → F * SigningKey).

Record DelegatedRotor := { ro_custody : DelegatedSigningCustody (I := I) (F := F); ro_signer : Snapshot }.

Definition rotate (r : DelegatedRotor) (now : Z) : DelegatedRotor * Result unit CustodyError :=
  match ensure_active issue factory (ro_custody r) now with
  | (c, Ok _) =>
      match active_snapshot c with
      | Some snapshot => ({| ro_custody := c; ro_signer := signer_publish (ro_signer r) snapshot |}, Ok tt)
      | None => ({| ro_custody := c; ro_signer := signer_retire (ro_signer r) |}, Err FailClosedIssuance)
      end
  | (c, Err e) => ({| ro_custody := c; ro_signer := signer_retire (ro_signer r) |}, Err e)
  end.

Definition set_trust_epoch_before_first_issue (r : DelegatedRotor) (epoch : bytes) : DelegatedRotor :=
  {| ro_custody := set_trust_epoch (ro_custody r) epoch; ro_signer := ro_signer r |}.

Inductive TrustEpochAdvance := Advanced | Declined.
Definition advance_trust_epoch (r : DelegatedRotor) (epoch : bytes) (now : Z)
    : DelegatedRotor * Result TrustEpochAdvance CustodyError :=
  match reissue issue factory (set_trust_epoch (ro_custody r) epoch) now with
  | (c, Ok (Some successor)) =>
      ({| ro_custody := c; ro_signer := signer_publish (ro_signer r) successor |}, Ok Advanced)
  | (c, Ok None) => ({| ro_custody := c; ro_signer := ro_signer r |}, Ok Declined)
  | (c, Err e) => ({| ro_custody := c; ro_signer := signer_retire (ro_signer r) |}, Err e)
  end.

Definition rotor_new (cfg : CustodyConfig) (i : I) (f : F) : DelegatedRotor :=
  {| ro_custody := custody_new cfg i f; ro_signer := Snap_Empty |}.

(** What may happen to the plane. *)
Inductive rotor_step : DelegatedRotor → DelegatedRotor → Prop :=
  | rotor_rotate r now r' res : rotate r now = (r', res) → rotor_step r r'
  | rotor_set_epoch r epoch : rotor_step r (set_trust_epoch_before_first_issue r epoch)
  | rotor_advance r epoch now r' res : advance_trust_epoch r epoch now = (r', res) → rotor_step r r'
  | rotor_stop r : rotor_step r {| ro_custody := ro_custody r; ro_signer := retire_permanently (ro_signer r) |}.
End plane.

(** ** Bounds *)

Lemma backoff_cap_bounds n expiry :
  ROTATION_BACKOFF_MIN_MS ≤ backoff_cap_ms n expiry ≤ ROTATION_BACKOFF_MAX_MS ∧
  (∀ ttl, expiry = Some ttl → 0 < ttl → backoff_cap_ms n expiry ≤ ttl * 1000).
Proof.
  unfold backoff_cap_ms. set (raw := clamp_u64 (ROTATION_BACKOFF_BASE_MS * _)). cbn zeta.
  unfold ROTATION_BACKOFF_MAX_MS, ROTATION_BACKOFF_MIN_MS.
  destruct expiry as [ttl|]; [destruct (Z.ltb_spec 0 ttl)|].
  - assert (0 ≤ clamp_u64 (ttl * 1000) ≤ ttl * 1000) by (unfold clamp_u64, u64_MAX; lia).
    split; [lia|]. intros t [= <-] _. lia.
  - split; [lia|]. intros t [= <-]. lia.
  - split; [lia|done].
Qed.

(** Between half the shortest pause and the ceiling, and not past the end of a live key. *)
Lemma rotation_backoff_bounds n expiry jitter :
  0 ≤ jitter →
  ROTATION_BACKOFF_MIN_MS / 2 ≤ rotation_backoff n expiry jitter ≤ ROTATION_BACKOFF_MAX_MS ∧
  (∀ ttl, expiry = Some ttl → 0 < ttl → rotation_backoff n expiry jitter ≤ ttl * 1000).
Proof.
  intros Hj. unfold rotation_backoff. destruct (backoff_cap_bounds n expiry) as [Hm Ht].
  set (m := backoff_cap_ms n expiry) in *. unfold ROTATION_BACKOFF_MIN_MS, ROTATION_BACKOFF_MAX_MS in *.
  pose proof (Z.div_mod m 2 ltac:(done)). pose proof (Z.mod_pos_bound m 2 ltac:(done)).
  assert (25 ≤ m / 2 ≤ 15000) as Hh by (split; [apply Z.div_le_lower_bound|apply Z.div_le_upper_bound]; lia).
  assert (clamp_u64 (m / 2 + 1) = m / 2 + 1) as -> by (unfold clamp_u64, u64_MAX; lia).
  pose proof (Z.mod_pos_bound jitter (m / 2 + 1) ltac:(lia)).
  assert (clamp_u64 (m / 2 + jitter mod (m / 2 + 1)) = m / 2 + jitter mod (m / 2 + 1)) as ->
    by (unfold clamp_u64, u64_MAX; lia).
  change (50 / 2) with 25. split; [lia|]. intros ttl He Hp. specialize (Ht ttl He Hp). lia.
Qed.

Lemma window_over_Some `{Ed25519} key now ttl w :
  window_over key now ttl = Some w ↔
  now < Z.min (saturating_add now ttl) (ak_exp key) ∧
  w = {| sw_key := key; sw_created := now; sw_expires := Z.min (saturating_add now ttl) (ak_exp key) |}.
Proof.
  unfold window_over. destruct (Z.ltb_spec now (Z.min (saturating_add now ttl) (ak_exp key))) as [Hl|Hl].
  - split; [by intros [= <-]|by intros [_ ->]].
  - split; [done|lia].
Qed.

Lemma window_open_Some `{Ed25519} s now ttl w :
  window_open s now ttl = Some w ↔
  ∃ key, s = Snap_Active key ∧ ak_nbf key ≤ now < ak_exp key ∧ window_over key now ttl = Some w.
Proof.
  unfold window_open, signer_current. destruct s as [|key|]; cbn [mbind option_bind]; [naive_solver| |naive_solver].
  destruct (Z.leb_spec (ak_nbf key) now), (Z.ltb_spec now (ak_exp key)); cbn [andb]; naive_solver lia.
Qed.

Lemma clamp_bounds lo hi a b : lo ≤ a ≤ hi → 0 ≤ b →
  Z.max lo (Z.min (a - b) hi) ≤ a ≤ Z.max lo (Z.min (a + b) hi).
Proof. lia. Qed.
Lemma saturating_around a b : is_i64 a → 0 ≤ b → saturating_sub a b ≤ a ≤ saturating_add a b.
Proof. apply clamp_bounds. Qed.

(** A window that covers a completion bound is open for the whole of it, to any verifier. *)
Lemma covers_whole_dispatch `{Ed25519} w b latest t skew :
  window_covers w b = true → latest_completion b (sw_created w) = Some latest →
  is_i64 (sw_created w) → is_i64 (sw_expires w) → 0 ≤ skew → sw_created w ≤ t ≤ latest →
  window_admits (sw_created w) (sw_expires w) t skew = true.
Proof.
  unfold window_covers, admissible_at, window_admits. intros Hc Hl Hcr Hex Hsk Ht. rewrite Hl in Hc. bool_prop.
  assert (saturating_add (sw_expires w) 0 = sw_expires w) as Hs
    by (unfold saturating_add; rewrite Z.add_0_r; by apply clamp_i64_id).
  destruct (saturating_around (sw_created w) skew Hcr Hsk) as [Hlo _].
  destruct (saturating_around (sw_expires w) skew Hex Hsk) as [_ Hhi].
  rewrite !andb_true_iff, Z.leb_le, !Z.ltb_lt. lia.
Qed.

(** ** Reachable planes *)

Section reachable.
Context `{Base64Laws, Sha2, Ed25519, SerdeJson, F64Carrier}.
Context `{!Serde DelegationHeader, !Serde DelegationClaims, !Serde HttpResponseEvidenceBlock}.
Context {I F : Type} (issue : DelegationHeader → DelegationClaims → I → I * option bytes)
  (factory : F → F * SigningKey) (cfg : CustodyConfig) (i : I) (f : F).

Definition plane_inv (r : DelegatedRotor) : Prop :=
  rtc (custody_step issue factory) (custody_new cfg i f) (ro_custody r) ∧
  ∀ a, ro_signer r = Snap_Active a → ∃ n, key_attested issue cfg n a.

Lemma publish_attested s a b :
  (∀ c, s = Snap_Active c → ∃ n, key_attested issue cfg n c) → (∃ n, key_attested issue cfg n a) →
  signer_publish s a = Snap_Active b → ∃ n, key_attested issue cfg n b.
Proof. intros Hs Ha. destruct s; cbn; intros [= <-]; done. Qed.

Lemma retire_not_active s a : signer_retire s ≠ Snap_Active a.
Proof. by destruct s. Qed.

Lemma active_attested c a :
  rtc (custody_step issue factory) (custody_new cfg i f) c → cs_active c = Some a →
  ∃ n, key_attested issue cfg n a.
Proof. intros Hr Ha. destruct (reachable_attested _ _ _ _ _ _ _ Hr Ha) as (n & _ & Hk). eauto. Qed.

Lemma reissue_successor c now c' a :
  reissue issue factory c now = (c', Ok (Some a)) → cs_active c' = Some a.
Proof.
  unfold reissue. destruct (issue_now issue factory c now) as [c1 [[]|]]; [|done].
  destruct (cs_active c1) as [b|] eqn:Hb, (cs_active c) as [p|]; cbn; try done.
  - destruct (negb _); [|done]. intros [= <- <-]. done.
  - intros [= <- <-]. done.
Qed.

Lemma plane_inv_step r r' : plane_inv r → rotor_step issue factory r r' → plane_inv r'.
Proof.
  intros [Hr Ha] Hs. destruct Hs as [r now r' res Hs|r epoch|r epoch now r' res Hs|r].
  - unfold rotate in Hs. destruct (ensure_active issue factory (ro_custody r) now) as [c e] eqn:He.
    assert (rtc (custody_step issue factory) (custody_new cfg i f) c) as Hc
      by (eapply rtc_r; [exact Hr|by eapply step_ensure_active]).
    destruct e as [u|e]; [destruct (active_snapshot c) as [a|] eqn:Hact|];
      apply pair_equal_spec in Hs as [<- _]; (split; [done|]); intros b Hb; cbn in Hb.
    + eapply publish_attested; [exact Ha| |exact Hb]. by eapply active_attested.
    + by apply retire_not_active in Hb.
    + by apply retire_not_active in Hb.
  - split; [|done]. eapply rtc_r; [exact Hr|]. constructor.
  - unfold advance_trust_epoch in Hs.
    destruct (reissue issue factory _ now) as [c e] eqn:He.
    assert (rtc (custody_step issue factory) (custody_new cfg i f) c) as Hc.
    { eapply rtc_r; [eapply rtc_r; [exact Hr|constructor]|by eapply step_reissue]. }
    destruct e as [[a|]|e]; apply pair_equal_spec in Hs as [<- _]; (split; [done|]); intros b Hb; cbn in Hb.
    + eapply publish_attested; [exact Ha| |exact Hb]. eapply active_attested; [done|]. by eapply reissue_successor.
    + by apply Ha.
    + by apply retire_not_active in Hb.
  - split; [done|]. by intros a.
Qed.

Lemma plane_reachable r : rtc (rotor_step issue factory) (rotor_new cfg i f) r → plane_inv r.
Proof.
  intros Hr. assert (∀ r0, plane_inv r0 → rtc (rotor_step issue factory) r0 r → plane_inv r) as Hgen.
  { intros r0 H0' Hr'. induction Hr'; [done|]. eauto using plane_inv_step. }
  eapply Hgen; [|done]. split; [done|]. by intros a.
Qed.

Lemma terminal_stays r r' :
  rtc (rotor_step issue factory) r r' → ro_signer r = Snap_Terminal → ro_signer r' = Snap_Terminal.
Proof.
  induction 1 as [|r r1 r' Hs _ IH]; intros Ht; [done|]. apply IH.
  destruct Hs as [r now r2 res Hs|r epoch|r epoch now r2 res Hs|r]; [|done| |done].
  - unfold rotate in Hs. destruct (ensure_active issue factory (ro_custody r) now) as [c [u|e]];
      [destruct (active_snapshot c)|]; apply pair_equal_spec in Hs as [<- _]; cbn; by rewrite Ht.
  - unfold advance_trust_epoch in Hs. destruct (reissue issue factory _ now) as [c [[a|]|e]];
      apply pair_equal_spec in Hs as [<- _]; cbn; by rewrite Ht.
Qed.
End reachable.

(** C37: whatever the rotor, the epoch changes and the shutdown did before, the key a request is
    answered with is one the root attested for this custody, live at the request's instant, and
    the response's window lies inside the key's and within the configured lifetime; after the
    permanent retirement no window opens again. *)
Theorem signing_window_attested `{Base64Laws, Sha2, Ed25519, SerdeJson, F64Carrier,
    !Serde DelegationHeader, !Serde DelegationClaims, !Serde HttpResponseEvidenceBlock}
    {I F} (issue : DelegationHeader → DelegationClaims → I → I * option bytes)
    (factory : F → F * SigningKey) cfg i f r now ttl :
  rtc (rotor_step issue factory) (rotor_new cfg i f) r →
  (∀ w, window_open (ro_signer r) now ttl = Some w →
     (∃ n, key_attested issue cfg n (sw_key w)) ∧ ak_nbf (sw_key w) ≤ now < ak_exp (sw_key w) ∧
     sw_created w = now ∧ now < sw_expires w ≤ ak_exp (sw_key w) ∧ sw_expires w ≤ saturating_add now ttl) ∧
  (∀ r', rtc (rotor_step issue factory)
           {| ro_custody := ro_custody r; ro_signer := retire_permanently (ro_signer r) |} r' →
     ∀ later, window_open (ro_signer r') later ttl = None).
Proof.
  intros Hr. split.
  - intros w (key & Hs & Hlive & (Hlt & ->)%window_over_Some)%window_open_Some. cbn.
    destruct (plane_reachable _ _ _ _ _ _ Hr) as [_ Ha]. split; [by apply Ha|]. lia.
  - intros r' Hr' later. apply terminal_stays in Hr'; [|done]. by rewrite Hr'.
Qed.

(** ** Witness *)

Import Instances.
#[local] Instance ws_header_serde : Serde DelegationHeader := one_value_serde w_header b#"h".
#[local] Instance ws_claims_serde : Serde DelegationClaims := two_value_serde wc_first wc_second b#"c" b#"d".
#[local] Instance ws_block_serde : Serde HttpResponseEvidenceBlock := one_value_serde wc_block b#"s".
#[local] Instance ws_f64 : F64Carrier := { f64_reemit := Some }.

Definition ws_rotated : DelegatedRotor := (rotate (root_issuer w_key) wc_factory (rotor_new wc_cfg tt tt) 100).1.
Definition ws_window : SigningWindow := {| sw_key := wc_key; sw_created := 110; sw_expires := 140 |}.

Lemma signing_window_attested_witness :
  ∃ n, key_attested (root_issuer w_key) wc_cfg n (sw_key ws_window).
Proof.
  refine (proj1 (proj1 (signing_window_attested (root_issuer w_key) wc_factory wc_cfg tt tt ws_rotated 110 30 _)
    ws_window _)).
  - apply rtc_once, (rotor_rotate _ _ _ 100 _ (Ok tt)). vm_compute. reflexivity.
  - vm_compute. reflexivity.
Defined.
