(* ===== verification/Serve.v ===== *)
(** * [mcp-re-proxy/src/http_profile_serve]: the serving path

    One request through the proxy: verification, channel binding, admission, authorization,
    the continuation it answers, the replay tier, the signing key, the forwarded body, evidence
    retention, the dispatch to the backend, the reply and its publication. Each [await] and
    each read of shared state is a call whose answer the environment chooses, so an execution of
    [handle] is one path of a tree of calls, and what is proved of every path holds whatever
    else runs at the same time. [refusal/], [http_profile_dispatch.rs], [continuation_store/],
    [admission_enforcer/] and [audit_record/] are here as far as the path uses them. *)

From S2P Require Import Prelude.
From S2P Require Import RustStr.
From S2P Require Import Externals.
From S2P Require Import Json.
From S2P Require Import CoreError.
From S2P Require Import CoreReplay.
From S2P Require Import CoreResolver.
From S2P Require Import HttpMessage.
From S2P Require Import SigBase.
From S2P Require Import Policy.
From S2P Require Import Blocks.
From S2P Require Import Body.
From S2P Require Import Floor.
From S2P Require Import Sign.
From S2P Require Import Full.
From S2P Require Import Context.
From S2P Require Import Envelope.
From S2P Require Import Dispatch.
From S2P Require Import Delegation.
From S2P Require Import Rejection.
From S2P Require Import Bodyless.
From S2P Require Import Custody.
From S2P Require Import Admission.
From S2P Require Import Records.
From S2P Require Import AuthzPolicy.
From S2P Require Import Exchange.
From S2P Require Import ReplayTier.
From S2P Require Import Authorize.
From S2P Require Import SigningPlane.

(** ** [replay_tier.rs], [http_profile_dispatch.rs] *)

Inductive ReplayDurabilityTier :=
  | AsyncReplicatedBounded
  | QuorumAcknowledged (quorum timeout_ms : Z)
  | Linearizable
  | SingleStoreFailClosed.

Definition meets_strict_production_minimum (t : ReplayDurabilityTier) : bool :=
  match t with QuorumAcknowledged _ _ | Linearizable => true | _ => false end.

Record ProxyDispatchConfig := { pdc_fleet_strict : bool; pdc_tier : option ReplayDurabilityTier }.

Inductive ProxyDispatchError :=
  | SubMinimumReplayTier (t : ReplayDurabilityTier)
  | NoDeclaredReplayTier
  | ProxyDispatch (e : DispatchError).

Definition proxy_dispatch_error (e : ProxyDispatchError) : McpReError :=
  match e with
  | SubMinimumReplayTier _ | NoDeclaredReplayTier => ReplayCacheUnavailable
  | ProxyDispatch e => dispatch_core_error e
  end.

Definition deployment_tier_admits (c : ProxyDispatchConfig) : Result unit ProxyDispatchError :=
  if negb (pdc_fleet_strict c) then Ok tt
  else match pdc_tier c with
       | Some t => if meets_strict_production_minimum t then Ok tt else Err (SubMinimumReplayTier t)
       | None => Err NoDeclaredReplayTier
       end.

(** ** [continuation_store/] *)

Record RetainedBases := { previous_request_base : bytes; input_required_response_base : bytes }.
Inductive ContinuationStoreError := ContinuationUnavailable (details : bytes).
Inductive Creation := Stored | Collision.

Definition CONTINUATION_KEY_PREFIX : bytes := b#"mcp-re:cont:".
Definition CONTINUATION_KEY_DOMAIN : bytes := b#"mcp-re/continuation-key/v1".
Definition continuation_preimage (audience_id actor_id request_state : bytes) : bytes :=
  CONTINUATION_KEY_DOMAIN ++ be64 (N.of_nat (length audience_id)) ++ audience_id ++
  be64 (N.of_nat (length actor_id)) ++ actor_id ++ request_state.
Definition continuation_key `{Base64, Sha2} (audience_id actor_id request_state : bytes) : bytes :=
  CONTINUATION_KEY_PREFIX ++ b64url_encode (sha256 (continuation_preimage audience_id actor_id request_state)).

(** [in_memory.rs]: the clock reading of a call is an argument. *)
Record InMemoryContinuationStore := { cont_entries : gmap bytes (RetainedBases * Z); cont_poisoned : bool }.
Definition InMemoryContinuationStore_new : InMemoryContinuationStore :=
  {| cont_entries := ∅; cont_poisoned := false |}.
Definition CONTINUATION_POISONED : bytes := b#"in-process continuation map is poisoned".
Definition with_entries (s : InMemoryContinuationStore) (m : gmap bytes (RetainedBases * Z)) : InMemoryContinuationStore :=
  {| cont_entries := m; cont_poisoned := cont_poisoned s |}.

Definition insert_if_absent (s : InMemoryContinuationStore) (now : Z) (key : bytes) (bases : RetainedBases) (ttl_secs : Z)
    : InMemoryContinuationStore * Result Creation ContinuationStoreError :=
  if cont_poisoned s then (s, Err (ContinuationUnavailable CONTINUATION_POISONED))
  else
    let entries := filter (λ kv : bytes * (RetainedBases * Z), now < kv.2.2) (cont_entries s) in
    match entries !! key with
    | Some _ => (with_entries s entries, Ok Collision)
    | None => (with_entries s (<[key := (bases, saturating_add now ttl_secs)]> entries), Ok Stored)
    end.
Definition cont_peek (s : InMemoryContinuationStore) (now : Z) (key : bytes)
    : Result (option RetainedBases) ContinuationStoreError :=
  if cont_poisoned s then Err (ContinuationUnavailable CONTINUATION_POISONED)
  else Ok (match cont_entries s !! key with
           | Some (bases, expires_at) => if now <? expires_at then Some bases else None
           | None => None
           end).
Definition cont_consume (s : InMemoryContinuationStore) (now : Z) (key : bytes)
    : InMemoryContinuationStore * Result bool ContinuationStoreError :=
  if cont_poisoned s then (s, Err (ContinuationUnavailable CONTINUATION_POISONED))
  else (with_entries s (delete key (cont_entries s)),
        Ok (match cont_entries s !! key with Some (_, expires_at) => now <? expires_at | None => false end)).

(** ** [admission_enforcer/]: instants are nanoseconds of a monotonic clock *)

Inductive AdmissionEnforcement := AdmissionOptional | AdmissionRequired.
Inductive AdmissionFacet := AF_NotReached | AF_NotConfigured | AF_LiveConfirmed | AF_Degraded | AF_Refused.

Definition record_read (last : option Z) (at_ : Z) : option Z :=
  match last with
  | None => Some at_
  | Some previous => if previous <? at_ then Some at_ else last
  end.
Definition window_of (policy : AdmissionPolicy) : Z :=
  (if 0 <=? ap_degraded_propagation_bound policy then ap_degraded_propagation_bound policy else 0) * 1000000000.
Definition exhausted (last : option Z) (policy : AdmissionPolicy) (now : Z) : bool :=
  if negb (ap_allow_degraded_mode policy) then true
  else match last with
       | None => true
       | Some last => window_of policy <? Z.max 0 (now - last)
       end.

(** ** [async_inner/outcome.rs], [transparency/mod.rs] *)

Inductive DispatchedOutcome := Replied (body : bytes) | Indeterminate (why : bytes) | InvalidUpstream (clause : bytes).
Inductive NotAdmitted := NotAdmittedBecause (why : bytes).
Inductive RetentionError :=
  | RE_Store (io : bytes) | RE_Malformed (what : bytes) | RE_AlreadyCompleted
  | RE_Unresolved (io : bytes) | RE_StoreRetired (io : bytes).

(** ** [refusal/] *)

Inductive CoreVerdict := V_Taxonomy (e : McpReError) | V_Carrier (e : HttpProfileError) | V_Dispatch (e : ProxyDispatchError).
Inductive RefusalCause := RC_Core (v : CoreVerdict) | RC_Authorization (r : AuthorizationRefusal).
Inductive RefusalPosture := Preflight | BeforeAdmission | AfterAdmission.
#[global] Instance RefusalPosture_eq_dec : EqDecision RefusalPosture.
Proof. solve_decision. Defined.

Definition verdict_error (v : CoreVerdict) : McpReError :=
  match v with V_Taxonomy e => e | V_Carrier e => core_error e | V_Dispatch e => proxy_dispatch_error e end.
Definition cause_wire_code (c : RefusalCause) : bytes :=
  match c with RC_Core v => wire_code (verdict_error v) | RC_Authorization r => authorization_wire_code r end.
Definition cause_core_verdict (c : RefusalCause) : option McpReError :=
  match c with RC_Core v => Some (verdict_error v) | RC_Authorization r => authorization_core_verdict r end.
Definition cause_authorization_facet (c : RefusalCause) (reached : option AuthorizationFacet) : AuthorizationFacet :=
  match c with
  | RC_Core _ => default (AuthzRefused BeforePolicy) reached
  | RC_Authorization r => refusal_facet r
  end.

Record Refusal := {
  rf_cause : RefusalCause;
  rf_status : Z;
  rf_posture : RefusalPosture;
  rf_execution_refinement : option ExecutionDisposition;
}.
Definition refusal_of (p : RefusalPosture) (c : RefusalCause) (status : Z) : Refusal :=
  {| rf_cause := c; rf_status := status; rf_posture := p; rf_execution_refinement := None |}.
Definition preflight := refusal_of Preflight.
Definition before_admission := refusal_of BeforeAdmission.
Definition after_admission := refusal_of AfterAdmission.
Definition refining (r : Refusal) (execution : ExecutionDisposition) : Refusal :=
  {| rf_cause := rf_cause r; rf_status := rf_status r; rf_posture := rf_posture r;
     rf_execution_refinement := Some execution |}.
Definition taxonomy (e : McpReError) : RefusalCause := RC_Core (V_Taxonomy e).
Definition carrier (e : HttpProfileError) : RefusalCause := RC_Core (V_Carrier e).

(** ** [audit_record/] *)

Inductive AuditSubject :=
  | Subject_Request (event : AuditEvent) (authorization : AuthorizationFacet) (admission : AdmissionFacet)
  | Subject_Response (event : AuditEvent).
Record AuditRecord := {
  rec_subject : AuditSubject;
  rec_actor_id : option bytes;
  rec_status : Z;
  rec_at_unix : Z;
}.
Definition subject_request_accepted (a : AuthorizationFacet) (d : AdmissionFacet) : AuditSubject :=
  Subject_Request request_accepted a d.
Definition subject_request_rejected (verdict : option McpReError) (a : AuthorizationFacet) (d : AdmissionFacet) : AuditSubject :=
  Subject_Request (match verdict with Some e => request_rejected e | None => request_rejected_elsewhere end) a d.
Definition subject_response_signed : AuditSubject := Subject_Response response_signed.
Definition subject_response_rejected (verdict : option McpReError) : AuditSubject :=
  Subject_Response (match verdict with Some e => response_rejected e | None => response_rejected_elsewhere end).
