(* ===== verification/ServePath.v ===== *)
(** * [mcp-re-proxy/src/http_profile_serve/]: one request, from receipt to answer

    The handler of the serving path as a program over calls: every [await] and every read or
    write of state that other requests share is a call, and the environment chooses what each
    call answers. A run is a path through that tree with the events it met, so a theorem about
    all runs holds whatever the stores, the backend and the other requests do. [ExchangeProgress]
    belongs to one request and is passed along. Operator warnings ([eprintln!]) and stage timers
    are left out: nothing reads them back.

    An answer is the response the client receives. The source returns nothing else; beside a
    rejection the model keeps the cause and the disposition the handler built it from, for the
    statements to compare with the body that is served. *)

From S2P Require Import Prelude.
From S2P Require Import RustStr.
From S2P Require Import Externals.
From S2P Require Import Json.
From S2P Require Import CoreError.
From S2P Require Import CoreReplay.
From S2P Require Import CoreResolver.
From S2P Require Import HttpMessage.
From S2P Require Import SigBase.
From S2P Require Import Policy.
From S2P Require Import Blocks.
From S2P Require Import Body.
From S2P Require Import Floor.
From S2P Require Import Sign.
From S2P Require Import Full.
From S2P Require Import Context.
From S2P Require Import Envelope.
From S2P Require Import Dispatch.
From S2P Require Import Delegation.
From S2P Require Import Rejection.
From S2P Require Import Bodyless.
From S2P Require Import Custody.
From S2P Require Import Admission.
From S2P Require Import Records.
From S2P Require Import AuthzPolicy.
From S2P Require Import Exchange.
From S2P Require Import ReplayTier.
From S2P Require Import Authorize.
From S2P Require Import SigningPlane.
From S2P Require Import Serve.

(** ** Calls *)

(** The handles of [transparency/], as far as the path holds them. *)
Record ReservedBeforeDispatch := { rbd_digest : bytes }.
Record DispatchCommitted := { dcm_digest : bytes }.
Inductive AdmissionSourceError := AdmissionSourceUnavailable (details : bytes).

Inductive Call :=
  | Instant_now
  | Admission_current (admission_id : bytes) (now : Z)
  | Window_record_read (at_ : Z)
  | Window_last_read
  | Continuation_peek (key : bytes)
  | Continuation_consume (key : bytes)
  | Continuation_create (key : bytes) (bases : RetainedBases) (ttl_secs : Z)
  | Replay_check_and_insert (key : ReplayKey) (now_unix : Z)
  | Signer_load
  | Audit_record (r : AuditRecord)
  | Inner_prepare (body : bytes)
  | Inner_dispatch (body : bytes)
  | Evidence_reserve (request : HttpRequest)
  | Evidence_commit (reservation : ReservedBeforeDispatch)
  | Evidence_complete (crossing : DispatchCommitted) (response : HttpResponse).

Section calls.
Context `{Ed25519}.

Definition answer (c : Call) : Type :=
  match c with
  | Instant_now => Z
  | Admission_current _ _ => Result (option CurrentAdmissionState) AdmissionSourceError
  | Window_record_read _ => unit
  | Window_last_read => option Z
  | Continuation_peek _ => Result (option RetainedBases) ContinuationStoreError
  | Continuation_consume _ => Result bool ContinuationStoreError
  | Continuation_create _ _ _ => Result Creation ContinuationStoreError
  | Replay_check_and_insert _ _ => Result ReplayDecision ReplayCacheError
  | Signer_load => Snapshot
  | Audit_record _ => unit
  | Inner_prepare _ => Result DispatchCompletionBound NotAdmitted
  | Inner_dispatch _ => DispatchedOutcome
  | Evidence_reserve _ => Result ReservedBeforeDispatch RetentionError
  | Evidence_commit _ => Result DispatchCommitted RetentionError
  | Evidence_complete _ _ => Result unit RetentionError
  end.

(** A call with its answer. *)
Inductive Event :=
  | Ev_instant (at_ : Z)
  | Ev_admission (admission_id : bytes) (now : Z) (a : Result (option CurrentAdmissionState) AdmissionSourceError)
  | Ev_record_read (at_ : Z)
  | Ev_last_read (a : option Z)
  | Ev_peek (key : bytes) (a : Result (option RetainedBases) ContinuationStoreError)
  | Ev_consume (key : bytes) (a : Result bool ContinuationStoreError)
  | Ev_create (key : bytes) (bases : RetainedBases) (ttl_secs : Z) (a : Result Creation ContinuationStoreError)
  | Ev_replay (key : ReplayKey) (now_unix : Z) (a : Result ReplayDecision ReplayCacheError)
  | Ev_signer (a : Snapshot)
  | Ev_audit (r : AuditRecord)
  | Ev_prepare (body : bytes) (a : Result DispatchCompletionBound NotAdmitted)
  | Ev_dispatch (body : bytes) (a : DispatchedOutcome)
  | Ev_reserve (request : HttpRequest) (a : Result ReservedBeforeDispatch RetentionError)
  | Ev_commit (reservation : ReservedBeforeDispatch) (a : Result DispatchCommitted RetentionError)
  | Ev_complete (crossing : DispatchCommitted) (response : HttpResponse) (a : Result unit RetentionError).

Definition event_of (c : Call) : answer c → Event :=
  match c with
  | Instant_now => Ev_instant
  | Admission_current i n => Ev_admission i n
  | Window_record_read z => λ _, Ev_record_read z
  | Window_last_read => Ev_last_read
  | Continuation_peek k => Ev_peek k
  | Continuation_consume k => Ev_consume k
  | Continuation_create k b t => Ev_create k b t
  | Replay_check_and_insert k n => Ev_replay k n
  | Signer_load => Ev_signer
  | Audit_record r => λ _, Ev_audit r
  | Inner_prepare b => Ev_prepare b
  | Inner_dispatch b => Ev_dispatch b
  | Evidence_reserve r => Ev_reserve r
  | Evidence_commit r => Ev_commit r
  | Evidence_complete c r => Ev_complete c r
  end.

Inductive Prog (R : Type) :=
  | Ret (r : R)
  | Do (c : Call) (k : answer c → Prog R).
Arguments Ret {R} r.
Arguments Do {R} c k.

#[global] Instance prog_ret : MRet Prog := @Ret.
#[global] Instance prog_bind : MBind Prog := λ _ _,
  fix bind f m := match m with Ret x => f x | Do c k => Do c (λ a, bind f (k a)) end.
Definition call (c : Call) : Prog (answer c) := Do c Ret.

(** The runs of a program, and the one run under an environment. *)
Fixpoint runs {R} (m : Prog R) (t : list Event) (r : R) : Prop :=
  match m with
  | Ret x => t = [] ∧ r = x
  | Do c k => ∃ a t', t = event_of c a :: t' ∧ runs (k a) t' r
  end.

Fixpoint exec {R} (env : list Event → ∀ c, answer c) (past : list Event) (m : Prog R) : list Event * R :=
  match m with
  | Ret r => ([], r)
  | Do c k =>
      let a := env past c in
      let '(t, r) := exec env (past ++ [event_of c a]) (k a) in (event_of c a :: t, r)
  end.

Lemma exec_runs {R} env past (m : Prog R) : runs m (exec env past m).1 (exec env past m).2.
Proof.
  revert past. induction m as [r|c k IH]; intros past; cbn [exec runs]; [done|].
  specialize (IH (env past c) (past ++ [event_of c (env past c)])).
  destruct (exec _ _ _) as [t r]. eauto.
Qed.

Lemma exec_runs_pair {A B} env (m : Prog (A * B)) :
  runs m (exec env [] m).1 ((exec env [] m).2.1, (exec env [] m).2.2).
Proof. rewrite <- surjective_pairing. apply exec_runs. Qed.

Lemma runs_bind {A B} (m : Prog A) (f : A → Prog B) t r :
  runs (m ≫= f) t r ↔ ∃ t1 x t2, t = t1 ++ t2 ∧ runs m t1 x ∧ runs (f x) t2 r.
Proof.
  revert t. induction m as [x|c k IH]; intros t.
  - split; [intros H'; by exists [], x, t|]. by intros (t1 & y & t2 & -> & [-> ->] & ?).
  - split.
    + intros (a & t' & -> & (t1 & x & t2 & -> & ? & ?)%IH). exists (event_of c a :: t1), x, t2.
      split; [done|]. split; [|done]. by exists a, t1.
    + intros (? & x & t2 & -> & (a & t1 & -> & ?) & ?). exists a, (t1 ++ t2).
      split; [done|]. apply IH. by exists t1, x, t2.
Qed.

Lemma runs_call c t a : runs (call c) t a ↔ t = [event_of c a].
Proof. split; [by intros (a' & t' & -> & -> & ->)|]. intros ->. by exists a, []. Qed.
End calls.
Arguments Ret {_ R} r.
Arguments Do {_ R} c k.

(** ** The proxy and one exchange *)

Inductive TransportBinding := ExactMatch.
Record ContinuationPlane := { cp_store : bool; cp_ttl_secs : Z }.
Definition DEFAULT_CONTINUATION_TTL_SECS : Z := 300.
Definition plane_disabled : ContinuationPlane := {| cp_store := false; cp_ttl_secs := DEFAULT_CONTINUATION_TTL_SECS |}.
Definition plane_wired (ttl_secs : Z) : ContinuationPlane := {| cp_store := true; cp_ttl_secs := ttl_secs |}.

Inductive PreDispatchRetention := PR_NotConfigured | PR_Reserved (reservation : ReservedBeforeDispatch).
Inductive RetentionDisposition := RD_NotConfigured | RD_Committed (crossing : DispatchCommitted).
Inductive RetentionOutcome := RO_NotConfigured | RO_Retained | RO_Failed.
Definition is_accounted_for (o : RetentionOutcome) : bool :=
  match o with RO_Retained | RO_NotConfigured => true | RO_Failed => false end.

Inductive Retirement := NotInvolved | Retired | AlreadyAnswered | RetirementIndeterminate.
Inductive ReplyClass := ReplyTerminal | ReplyOpen (state : bytes).
Record AuthorityVerdicts := { av_authorization : option AuthorizationFacet; av_admission : option AdmissionFacet }.
Definition AuthorityVerdicts_default : AuthorityVerdicts := {| av_authorization := None; av_admission := None |}.

Inductive Answer :=
  | Served (response : HttpResponse)
  | Rejected (cause : RefusalCause) (execution : ExecutionDisposition) (response : HttpResponse).
Definition answer_response (a : Answer) : HttpResponse :=
  match a with Served r | Rejected _ _ r => r end.

Section path.
Context `{Base64, Sha2, Ed25519, JsonTree, F64Carrier, ChannelPeer P}.
Context `{!Serde HttpRequestEvidenceBlock, !Serde HttpResponseEvidenceBlock, !Serde VerifiedContext}.
Context `{!Serde AdmissionHeader, !Serde AdmissionClaims}.

Record AdmissionEnforcer := {
  en_policy : AdmissionPolicy;
  en_enforcement : AdmissionEnforcement;
  en_resolve_authority : bytes → option VerificationKey;
}.

(** [requests], [responses], the class of the replay tier, and the optional planes. The stores,
    the backend and the signer are behind the calls. *)
Record HttpProfileProxy := {
  px_resolve_actor : actor_resolver;
  px_expected_audience : AudienceTuple;
  px_policy : VerifierPolicy;
  px_sig_ttl_secs : Z;
  px_durability_class : ReplayDurabilityClass;
  px_dispatch_cfg : ProxyDispatchConfig;
  px_transport_binding : option TransportBinding;
  px_authorization : option (AuthorizationEvaluator (P := P));
  px_continuations : ContinuationPlane;
  px_verified_context_policy : VerifiedContextPolicy;
  px_audit : bool;
  px_admission : option AdmissionEnforcer;
  px_retention : bool;
}.

Record Exchange := {
  ex_http_req : HttpRequest;
  ex_verified : VerifiedMcpRequest;
  ex_actor_id : bytes;
  ex_now : Z;
  ex_key : option ActiveDelegatedKey;
  ex_verdicts : AuthorityVerdicts;
}.
Definition ex_with_verdicts (ex : Exchange) (v : AuthorityVerdicts) : Exchange :=
  {| ex_http_req := ex_http_req ex; ex_verified := ex_verified ex; ex_actor_id := ex_actor_id ex;
     ex_now := ex_now ex; ex_key := ex_key ex; ex_verdicts := v |}.
Definition ex_with_key (ex : Exchange) (key : ActiveDelegatedKey) : Exchange :=
  {| ex_http_req := ex_http_req ex; ex_verified := ex_verified ex; ex_actor_id := ex_actor_id ex;
     ex_now := ex_now ex; ex_key := Some key; ex_verdicts := ex_verdicts ex |}.

Definition audience_id_of (px : HttpProfileProxy) : bytes := audience_id (px_expected_audience px).

(** ** [receipt/] *)

Definition record_to (px : HttpProfileProxy) (subject : AuditSubject) (actor_id : option bytes) (status now : Z)
    : Prog unit :=
  if px_audit px
  then call (Audit_record {| rec_subject := subject; rec_actor_id := actor_id; rec_status := status;
                             rec_at_unix := now |})
  else Ret tt.

Definition signing_window (px : HttpProfileProxy) (now : Z) : Prog (option SigningWindow) :=
  snapshot ← call Signer_load; Ret (window_open snapshot now (px_sig_ttl_secs px)).

Definition unsigned_error (status : Z) (wire_code : bytes) (execution : ExecutionDisposition) : HttpResponse :=
  {| resp_status := status; resp_headers := [(b#"content-type", b#"application/json")];
     resp_body := default [] (to_vec (Object (<[b#"jsonrpc" := JString b#"2.0"]> (
       <[b#"error" := Object (<[b#"code" := JNumber MCP_RE_JSON_RPC_ERROR_CODE]> (
           <[b#"message" := JString wire_code]> (
           {[ b#"data" := Object {[ b#"mcp_re_error" := Object (rejection_error
                (with_execution (RejectionReason_new wire_code []) execution)) ]} ]})))]> (
       {[ b#"id" := value_of JNull ]}))))) |}.

Definition proxy_rejection_reason (wire_code : bytes) (execution : ExecutionDisposition) : RejectionReason :=
  with_execution (RejectionReason_new wire_code (b#"mcp-re http-profile proxy rejected: " ++ wire_code)) execution.

Definition rejection_under (w : SigningWindow) (request : HttpRequest) (wire_code : bytes) (status : Z)
    (bound : option RequestEvidence) (execution : ExecutionDisposition) : Result HttpResponse HttpProfileError :=
  let a := sw_key w in
  let reason := proxy_rejection_reason wire_code execution in
  match bound with
  | Some ev =>
      build_delegated_rejection request ev reason status (ak_server_signer a) (ak_credential a) (ak_key a)
        (ak_delegated_kid a) (sw_created w) (sw_expires w)
  | None =>
      build_delegated_rejection_preflight (Some request) reason status (ak_server_signer a) (ak_credential a)
        (ak_key a) (ak_delegated_kid a) (sw_created w) (sw_expires w)
  end.

Definition signed_rejection (px : HttpProfileProxy) (request : HttpRequest) (wire_code : bytes) (status now : Z)
    (bound : option RequestEvidence) (execution : ExecutionDisposition) (snapshot : option ActiveDelegatedKey)
    : Prog HttpResponse :=
  window ← match snapshot with
           | Some a => Ret (window_over a now (px_sig_ttl_secs px))
           | None => signing_window px now
           end;
  Ret (match window with
       | Some w => match rejection_under w request wire_code status bound execution with
                   | Ok resp => resp
                   | Err _ => unsigned_error status wire_code execution
                   end
       | None => unsigned_error status wire_code execution
       end).

Definition rejection (px : HttpProfileProxy) (request : HttpRequest) (cause : RefusalCause) (status now : Z)
    (bound : option RequestEvidence) (actor_id : option bytes) (execution : ExecutionDisposition)
    (snapshot : option ActiveDelegatedKey) (authorization : option AuthorizationFacet)
    (admission : option AdmissionFacet) : Prog Answer :=
  _ ← record_to px
        (subject_request_rejected (cause_core_verdict cause) (cause_authorization_facet cause authorization)
           (default AF_NotReached admission)) actor_id status now;
  resp ← signed_rejection px request (cause_wire_code cause) status now bound execution snapshot;
  Ret (Rejected cause execution resp).

Definition response_rejection (px : HttpProfileProxy) (request : HttpRequest) (cause : RefusalCause) (status now : Z)
    (bound : option RequestEvidence) (actor_id : option bytes) (execution : ExecutionDisposition)
    (snapshot : option ActiveDelegatedKey) : Prog Answer :=
  _ ← record_to px (subject_response_rejected (cause_core_verdict cause)) actor_id status now;
  resp ← signed_rejection px request (cause_wire_code cause) status now bound execution snapshot;
  Ret (Rejected cause execution resp).

Definition receipt_refuse (px : HttpProfileProxy) (ex : Exchange) (refusal : Refusal)
    (execution : ExecutionDisposition) : Prog Answer :=
  let '(bound, actor) :=
    match rf_posture refusal with
    | Preflight => (None, None)
    | _ => (Some (fr_evidence (vr_floor (ex_verified ex))), Some (ex_actor_id ex))
    end in
  if bool_decide (rf_posture refusal = AfterAdmission)
  then response_rejection px (ex_http_req ex) (rf_cause refusal) (rf_status refusal) (ex_now ex) bound actor
         execution (ex_key ex)
  else rejection px (ex_http_req ex) (rf_cause refusal) (rf_status refusal) (ex_now ex) bound actor execution
         (ex_key ex) (av_authorization (ex_verdicts ex)) (av_admission (ex_verdicts ex)).

(** The response is rewritten in place; a failed signing leaves it half signed. *)
Definition sign_reply (ex : Exchange) (response : HttpResponse) (window : SigningWindow)
    : HttpResponse * Result (Established bytes) Refusal :=
  let a := sw_key window in
  let '(response, signed) :=
    sign_delegated_response_full response (ex_http_req ex) (fr_evidence (vr_floor (ex_verified ex)))
      (ak_server_signer a) (ak_credential a) (ak_key a) (ak_delegated_kid a) (sw_created window) (sw_expires window) in
  (response,
   match signed with
   | Ok base => Ok (mkEstablished base E_ResponseSigned)
   | Err e => Err (after_admission (carrier e) 500)
   end).

(** ** [mod.rs]: refusals *)

Definition disposition (p : ExchangeProgress) (refined : option ExecutionDisposition) : ExecutionDisposition :=
  match progress_retry_semantics p, refined with
  | SafeNothingExecuted, Some refined => refined
  | SafeNothingExecuted, None => NothingExecuted
  | RequiresNewElicitation, _ => ApprovalSpentNothingExecuted
  | NotRetrySafe, _ => PossiblyExecuted
  end.

Definition refuse (px : HttpProfileProxy) (ex : Exchange) (refusal : Refusal) (p : ExchangeProgress) : Prog Answer :=
  receipt_refuse px ex refusal (disposition p (rf_execution_refinement refusal)).

(** A stage threads the progress of its exchange and may end it with an answer. *)
Definition Stage (T : Type) : Type := ExchangeProgress → Prog (Result T Answer * ExchangeProgress).

Definition refuse_with {T} (px : HttpProfileProxy) (ex : Exchange) (refusal : Refusal) : Stage T :=
  λ p, a ← refuse px ex refusal p; Ret (Err a, p).
Definition establish_or_refuse {T} (px : HttpProfileProxy) (ex : Exchange)
    (established : Result (Established T) Refusal) : Stage T := λ p,
  match established with
  | Ok e => let '(v, p) := establish p e in Ret (Ok v, p)
  | Err refusal => refuse_with px ex refusal p
  end.
#[global] Instance stage_ret : MRet Stage := λ _ x p, Ret (Ok x, p).
#[global] Instance stage_bind : MBind Stage := λ _ _ f m p,
  '(r, p) ← (m p : Prog _); match r with Ok x => f x p | Err a => Ret (Err a, p) end.
Definition lift {T} (m : Prog T) : Stage T := λ p, x ← m; Ret (Ok x, p).
Definition on_progress (f : ExchangeProgress → ExchangeProgress) : Stage unit := λ p, Ret (Ok tt, f p).

(** ** [request_admission.rs], [pre_admission/] *)

Definition verify (px : HttpProfileProxy) (http_req : HttpRequest) (now : Z)
    : Result (Established VerifiedMcpRequest) Refusal :=
  match verify_request {| v_policy := px_policy px; v_resolve_actor := px_resolve_actor px |} http_req
          (px_expected_audience px) (λ _, None) now with
  | Ok v => Ok (mkEstablished v E_SignatureVerified)
  | Err e => Err (preflight (carrier e) 403)
  end.

Definition verify_stage (px : HttpProfileProxy) (http_req : HttpRequest) (now : Z) : Stage VerifiedMcpRequest := λ p,
  match verify px http_req now with
  | Ok verified => let '(v, p) := establish p verified in Ret (Ok v, p)
  | Err refusal =>
      a ← rejection px http_req (rf_cause refusal) (rf_status refusal) now None None (disposition p None) None None None;
      Ret (Err a, p)
  end.

Definition validate_envelope (http_req : HttpRequest) : Result OutstandingId Refusal :=
  map_err (λ e, before_admission (carrier e) 400) (validate_request_envelope (req_body http_req)).

Definition transport_binding_stage (px : HttpProfileProxy) (ex : Exchange) (peer : option P)
    : Result (Established (option (RequestPeerBindingFacts P))) Refusal :=
  match px_transport_binding px with
  | None => Ok (mkEstablished None E_TransportBindingChecked)
  | Some ExactMatch =>
      match transport_bind peer (verified_request_subject (fr_resolved_actor (vr_floor (ex_verified ex)))) with
      | Ok bound => Ok (mkEstablished (Some bound) E_TransportBindingChecked)
      | Err _ => Err (before_admission (taxonomy TransportBindingFailed) 403)
      end
  end.

(** [admission_enforcer/mod.rs]. *)
Definition decide_over (en : AdmissionEnforcer) (binding : AdmissionBinding) (assertion actor_id audience_id : bytes)
    (now elapsed_at : Z) (authoritative : option CurrentAdmissionState) : Prog (Result AdmissionFacet HttpProfileError) :=
  match check_admission binding assertion actor_id (cas_state <$> authoritative) PROFILE_TAG [audience_id]
          (en_policy en) now (en_resolve_authority en) with
  | Err e => Ret (Err e)
  | Ok (Live _) => Ret (Ok AF_LiveConfirmed)
  | Ok (DegradedCandidate _) =>
      last ← call Window_last_read;
      Ret (if exhausted last (en_policy en) elapsed_at then Err HPE.AdmissionStateUnavailable else Ok AF_Degraded)
  end.

Definition enforcer_decide (en : AdmissionEnforcer) (verified : VerifiedMcpRequest) (actor_id audience_id : bytes)
    (now : Z) : Prog (Result AdmissionFacet HttpProfileError) :=
  let block := vr_request_block verified in
  match rb_admission block, rb_admission_assertion block with
  | Some binding, Some assertion =>
      elapsed_at ← call Instant_now;
      current ← call (Admission_current (adb_admission_id binding) now);
      match current with
      | Ok (Some state) =>
          _ ← call (Window_record_read elapsed_at);
          decide_over en binding assertion actor_id audience_id now elapsed_at (Some state)
      | Ok None =>
          _ ← call (Window_record_read elapsed_at);
          Ret (Err HPE.AdmissionNotCurrent)
      | Err _ => decide_over en binding assertion actor_id audience_id now elapsed_at None
      end
  | _, _ =>
      Ret (match en_enforcement en with
           | AdmissionRequired => Err HPE.AdmissionStateUnavailable
           | AdmissionOptional => Ok AF_NotConfigured
           end)
  end.

Record AdmissionDecidedOver := { ado_binding : option (RequestPeerBindingFacts P) }.

Definition admission_stage (px : HttpProfileProxy) (ex : Exchange) (bound : option (RequestPeerBindingFacts P))
    : Prog (Result (Established AdmissionDecidedOver * AdmissionFacet) Refusal) :=
  let admitted := mkEstablished {| ado_binding := bound |} E_AdmissionCurrencyChecked in
  match px_admission px with
  | None => Ret (Ok (admitted, AF_NotConfigured))
  | Some en =>
      decided ← enforcer_decide en (ex_verified ex) (ex_actor_id ex) (audience_id_of px) (ex_now ex);
      Ret (match decided with
           | Ok facet => Ok (admitted, facet)
           | Err e => Err (before_admission (carrier e) 403)
           end)
  end.

Definition authorization_stage (px : HttpProfileProxy) (ex : Exchange) (decided_over : AdmissionDecidedOver)
    : Result AuthorizationPosture Refusal :=
  map_err (λ r, before_admission (RC_Authorization r) 403)
    (authorize (px_authorization px) (ex_verified ex) (req_body (ex_http_req ex)) (ado_binding decided_over)).

Record AdmittedRequest := { adm_outstanding : OutstandingId; adm_authorized : AuthorizationPosture (P := P) }.

(** [admit_request] in two steps, the second once the channel binding holds. [ex] comes back with
    the verdicts this stage recorded in it. *)
Definition admit_bound (px : HttpProfileProxy) (ex : Exchange) (outstanding : OutstandingId)
    (bound : option (RequestPeerBindingFacts P)) : Stage (AdmittedRequest * Exchange) :=
  admission ← lift (admission_stage px ex bound);
  match admission with
  | Err refusal => refuse_with px ex refusal
  | Ok (established, facet) =>
      decided_over ← establish_or_refuse px ex (Ok established);
      let ex := ex_with_verdicts ex {| av_authorization := av_authorization (ex_verdicts ex);
                                       av_admission := Some facet |} in
      match authorization_stage px ex decided_over with
      | Err refusal => refuse_with px ex refusal
      | Ok authorized =>
          mret ({| adm_outstanding := outstanding; adm_authorized := authorized |},
                ex_with_verdicts ex {| av_authorization := Some (posture_facet authorized);
                                       av_admission := Some facet |})
      end
  end.

Definition admit_request (px : HttpProfileProxy) (ex : Exchange) (peer : option P)
    : Stage (AdmittedRequest * Exchange) :=
  match validate_envelope (ex_http_req ex) with
  | Err refusal => refuse_with px ex refusal
  | Ok outstanding =>
      bound ← establish_or_refuse px ex (transport_binding_stage px ex peer);
      admit_bound px ex outstanding bound
  end.

Definition record_request_accepted (px : HttpProfileProxy) (admitted : AdmittedRequest)
    (admission : option AdmissionFacet) (actor_id : bytes) (now : Z) : Prog unit :=
  record_to px (subject_request_accepted (posture_facet (adm_authorized admitted)) (default AF_NotReached admission))
    (Some actor_id) 200 now.

(** ** [continuation/answer_leg.rs], [continuation/retirement.rs], [continuation/open_leg.rs] *)

Definition extract_request_state (body : bytes) : option bytes :=
  from_slice body ≫= λ v, json_get v b#"params" ≫= λ ps, json_get ps b#"requestState" ≫= as_str.

Record ContinuationPrep := {
  prep_answer_state : option bytes;
  prep_answer_key : option bytes;
  prep_retained : option RetainedBases;
}.
Definition prep_binding (prep : ContinuationPrep) : option RetainedContinuation :=
  match prep_retained prep, prep_answer_state prep with
  | Some bases, Some state =>
      Some (from_correlation (previous_request_base bases) (input_required_response_base bases) state)
  | _, _ => None
  end.
Definition was_peeked (prep : ContinuationPrep) : bool := is_some (prep_retained prep).

Definition peeked_or_refusal (peeked : Result (option RetainedBases) ContinuationStoreError)
    : Result (option RetainedBases) Refusal :=
  map_err (λ _, before_admission (taxonomy ReplayCacheUnavailable) 503) peeked.
Definition capability_absent : Refusal := before_admission (taxonomy ReplayCacheUnavailable) 503.

Definition prepare_continuation (px : HttpProfileProxy) (ex : Exchange)
    : Prog (Result (Established ContinuationPrep) Refusal) :=
  let answer_state := if is_some (rb_continuation (vr_request_block (ex_verified ex)))
                      then extract_request_state (req_body (ex_http_req ex)) else None in
  let answer_key := continuation_key (audience_id_of px) (ex_actor_id ex) <$> answer_state in
  retained ← match cp_store (px_continuations px), answer_key with
             | true, Some key => peeked ← call (Continuation_peek key); Ret (peeked_or_refusal peeked)
             | false, Some _ => Ret (Err capability_absent)
             | _, None => Ret (Ok None)
             end;
  Ret (match retained with
       | Err refusal => Err refusal
       | Ok retained => Ok (mkEstablished {| prep_answer_state := answer_state; prep_answer_key := answer_key;
                                             prep_retained := retained |} E_ContinuationPrepared)
       end).

Definition retire (px : HttpProfileProxy) (answer_key : option bytes) : Prog Retirement :=
  match cp_store (px_continuations px), answer_key with
  | true, Some key =>
      consumed ← call (Continuation_consume key);
      Ret (match consumed with
           | Ok true => Retired
           | Ok false => AlreadyAnswered
           | Err _ => RetirementIndeterminate
           end)
  | _, _ => Ret NotInvolved
  end.

Definition RECORD_ATTEMPTS : nat := 3.

Fixpoint create_attempts (n : nat) (key : bytes) (bases : RetainedBases) (ttl_secs : Z)
    : Prog (Result (Established unit) Refusal) :=
  match n with
  | O => Ret (Err (after_admission (taxonomy ReplayCacheUnavailable) 503))
  | S n =>
      created ← call (Continuation_create key bases ttl_secs);
      match created with
      | Ok Stored => Ret (Ok (mkEstablished tt E_OpenLegRecorded))
      | Ok Collision => Ret (Err (after_admission (taxonomy ContinuationConflict) 409))
      | Err _ => create_attempts n key bases ttl_secs
      end
  end.

Definition record_open_leg (px : HttpProfileProxy) (ex : Exchange) (state response_base : bytes)
    : Prog (Result (Established unit) Refusal) :=
  if negb (cp_store (px_continuations px))
  then Ret (Err (after_admission (taxonomy ReplayCacheUnavailable) 503))
  else
    create_attempts RECORD_ATTEMPTS (continuation_key (audience_id_of px) (ex_actor_id ex) state)
      {| previous_request_base := fr_request_signature_base (vr_floor (ex_verified ex));
         input_required_response_base := response_base |}
      (cp_ttl_secs (px_continuations px)).

(** ** [http_profile_dispatch.rs], [answering_commitment.rs] *)

Definition dispatch_request_with_async_tier (px : HttpProfileProxy) (verified : VerifiedMcpRequest)
    (continuation_ctx : option RetainedContinuation) (now_unix : Z) : Prog (Result DispatchOutcome ProxyDispatchError) :=
  let config := px_dispatch_cfg px in
  match (let? _ := deployment_tier_admits config in
         let? admitted := map_err ProxyDispatch
           (admit_replay_tier {| fleet_strict := pdc_fleet_strict config |} (px_durability_class px)) in
         map_err ProxyDispatch (prepare admitted verified continuation_ctx)) with
  | Err e => Ret (Err e)
  | Ok prepared =>
      decision ← call (Replay_check_and_insert
        (to_core_replay_key (pd_replay_key prepared) (fr_expires (vr_floor verified))) now_unix);
      Ret (match decision with
           | Err _ => Err (ProxyDispatch DE.ReplayCacheUnavailable)
           | Ok Fresh => Ok (into_admitted_outcome prepared)
           | Ok Replay => Err (ProxyDispatch DE.ReplayDetected)
           end)
  end.

Definition replay_admission_stage (px : HttpProfileProxy) (ex : Exchange) (continuation : option RetainedContinuation)
    : Prog (Result (Established unit) Refusal) :=
  admitted ← dispatch_request_with_async_tier px (ex_verified ex) continuation (ex_now ex);
  Ret (match admitted with
       | Ok _ => Ok (mkEstablished tt E_ReplayAdmitted)
       | Err e => Err (before_admission (RC_Core (V_Dispatch e)) 409)
       end).

Definition answerable_stage (px : HttpProfileProxy) (ex : Exchange) : Prog (Result (Established SigningWindow) Refusal) :=
  window ← signing_window px (ex_now ex);
  Ret (match window with
       | Some w => Ok (mkEstablished w E_DelegatedKeySnapshotted)
       | None => Err (before_admission (taxonomy DelegatedSigningUnavailable) 503)
       end).

Definition observe_retirement (px : HttpProfileProxy) (ex : Exchange) (retirement : Retirement) : Stage unit :=
  match retirement with
  | NotInvolved => mret tt
  | Retired => on_progress (λ p, observe_continuation p C_Consumed)
  | AlreadyAnswered => refuse_with px ex (before_admission (taxonomy ContinuationBindingFailed) 409)
  | RetirementIndeterminate =>
      _ ← on_progress (λ p, observe_continuation p C_Consumed);
      refuse_with px ex (before_admission (taxonomy ReplayCacheUnavailable) 503)
  end.

(** [commit_to_answering] in two steps: the replay admission, and the key and the continuation.
    [ex] comes back with the key of the window. *)
Definition admit_replay (px : HttpProfileProxy) (ex : Exchange) : Stage ContinuationPrep :=
  prepared ← lift (prepare_continuation px ex);
  prep ← establish_or_refuse px ex prepared;
  _ ← (if was_peeked prep then on_progress (λ p, observe_continuation p C_Peeked) else mret tt);
  admitted ← lift (replay_admission_stage px ex (prep_binding prep));
  _ ← establish_or_refuse px ex admitted;
  mret prep.

Definition hold_answer (px : HttpProfileProxy) (ex : Exchange) (prep : ContinuationPrep)
    : Stage (SigningWindow * Exchange) :=
  answerable ← lift (answerable_stage px ex);
  window ← establish_or_refuse px ex answerable;
  let ex := ex_with_key ex (sw_key window) in
  retirement ← lift (retire px (prep_answer_key prep));
  _ ← observe_retirement px ex retirement;
  _ ← on_progress (λ p, advance p E_ContinuationRetired);
  mret (window, ex).

Definition commit_to_answering (px : HttpProfileProxy) (ex : Exchange) : Stage (SigningWindow * Exchange) :=
  prep ← admit_replay px ex;
  hold_answer px ex prep.

(** ** [body_boundary.rs], [inner_plane.rs], [retention/mod.rs], [dispatch_commitment.rs] *)

Record ForwardedBody := { fwd_body : bytes; fwd_seeded : SeededMetaPositions }.

Definition forwarded_prepare (body : bytes) (verified : VerifiedMcpRequest) (policy : VerifiedContextPolicy) (now : Z)
    : Result ForwardedBody HttpProfileError :=
  if negb (covers_body (vr_floor verified) body)
  then Err (HPE.MalformedEvidence b#"forwarded body is not the verified request body")
  else
    let? stripped := strip_proxy_owned_meta body in
    let? body := match trusted_inner_channel policy with
                 | None => Ok (stripped_body stripped)
                 | Some channel => insert_verified_context stripped (from_verified verified now) channel
                 end in
    Ok {| fwd_body := body; fwd_seeded := seeded stripped |}.

Definition forward_body_stage (px : HttpProfileProxy) (ex : Exchange) : Result (Established bytes) Refusal :=
  match forwarded_prepare (req_body (ex_http_req ex)) (ex_verified ex) (px_verified_context_policy px) (ex_now ex) with
  | Ok forwarded => Ok (mkEstablished (fwd_body forwarded) E_ForwardBodyPrepared)
  | Err e => Err (after_admission (carrier e) 500)
  end.

(** What [prepare] hands back is the body it will send and the bound it states. *)
Record PreparedInnerDispatch := { pid_body : bytes; pid_completion_bound : DispatchCompletionBound }.

Definition inner_prepare (forwarded : AuthorizedRequestBody) : Prog (Result (Established PreparedInnerDispatch) Refusal) :=
  prepared ← call (Inner_prepare (arb_body forwarded));
  Ret (match prepared with
       | Ok bound => Ok (mkEstablished {| pid_body := arb_body forwarded; pid_completion_bound := bound |}
                                       E_InnerPlaneAccepted)
       | Err _ => Err (after_admission (taxonomy InnerPlaneUnavailable) 503)
       end).

Definition observe_reply (outcome : DispatchedOutcome) (p : ExchangeProgress)
    : Result (Established bytes) Refusal * ExchangeProgress :=
  match outcome with
  | Replied body => (Ok (mkEstablished body E_ResponseObserved), observe_origin p O_BackendReplied)
  | Indeterminate _ => (Err (after_admission (taxonomy InnerDispatchIndeterminate) 504),
                        observe_origin p O_DispatchIndeterminate)
  | InvalidUpstream clause => (Err (after_admission (carrier (HPE.UpstreamResponseInvalid clause)) 502), p)
  end.

Definition observe_acknowledgement (outcome : DispatchedOutcome) (p : ExchangeProgress)
    : Result (Established unit) Refusal * ExchangeProgress :=
  match outcome with
  | Replied _ | InvalidUpstream _ => (Ok (mkEstablished tt E_NotificationAcknowledged), observe_origin p O_BackendReplied)
  | Indeterminate _ => (Err (after_admission (taxonomy InnerDispatchIndeterminate) 504),
                        observe_origin p O_DispatchIndeterminate)
  end.

Definition pre_dispatch_refusal (e : RetentionError) : Refusal :=
  let unavailable := after_admission (taxonomy EvidenceRetentionUnavailable) in
  match e with
  | RE_Unresolved _ => refining (unavailable 500) NothingExecutedRetentionUnresolved
  | RE_StoreRetired _ => unavailable 500
  | RE_Store _ => unavailable 503
  | RE_Malformed _ | RE_AlreadyCompleted => unavailable 500
  end.

Definition retention_reserve (px : HttpProfileProxy) (request : HttpRequest)
    : Prog (Result PreDispatchRetention Refusal) :=
  if negb (px_retention px) then Ret (Ok PR_NotConfigured)
  else reserved ← call (Evidence_reserve request);
       Ret (match reserved with
            | Ok reservation => Ok (PR_Reserved reservation)
            | Err e => Err (pre_dispatch_refusal e)
            end).

Definition retention_commit (accepted : PreDispatchRetention) : Prog (Result (Established RetentionDisposition) Refusal) :=
  match accepted with
  | PR_NotConfigured => Ret (Ok (mkEstablished RD_NotConfigured E_RetentionCommitted))
  | PR_Reserved reservation =>
      committed ← call (Evidence_commit reservation);
      Ret (match committed with
           | Ok crossing => Ok (mkEstablished (RD_Committed crossing) E_RetentionCommitted)
           | Err e => Err (pre_dispatch_refusal e)
           end)
  end.

Definition retention_complete (owed : RetentionDisposition) (response : HttpResponse) : Prog RetentionOutcome :=
  match owed with
  | RD_NotConfigured => Ret RO_NotConfigured
  | RD_Committed crossing =>
      completed ← call (Evidence_complete crossing response);
      Ret (match completed with Ok _ => RO_Retained | Err _ => RO_Failed end)
  end.

(** The last two steps of [commit_to_dispatch]. *)
Definition commit_retention (px : HttpProfileProxy) (ex : Exchange) : Stage RetentionDisposition :=
  accepted ← lift (retention_reserve px (ex_http_req ex));
  match accepted with
  | Err refusal => refuse_with px ex refusal
  | Ok accepted =>
      committed ← lift (retention_commit accepted);
      establish_or_refuse px ex committed
  end.

Definition commit_to_dispatch (px : HttpProfileProxy) (ex : Exchange) (authorized : AuthorizationPosture (P := P))
    (window : SigningWindow) : Stage (PreparedInnerDispatch * RetentionDisposition) :=
  forwarded ← establish_or_refuse px ex (forward_body_stage px ex);
  prepared ← lift (inner_prepare (release authorized forwarded));
  prepared ← establish_or_refuse px ex prepared;
  if negb (window_covers window (pid_completion_bound prepared))
  then refuse_with px ex (after_admission (taxonomy DelegatedSigningUnavailable) 503)
  else
    retention ← commit_retention px ex;
    mret (prepared, retention).

(** ** [reply.rs] *)

Record ValidatedReply := { vrp_parsed : Value }.
Definition invalid_reply (clause : bytes) : Refusal :=
  after_admission (carrier (HPE.UpstreamResponseInvalid clause)) 502.

Definition validated_reply (response : HttpResponse) (outstanding : OutstandingId) : Result ValidatedReply Refusal :=
  let? parsed := map_err (λ e, match e with
                               | HPE.UpstreamResponseInvalid clause => invalid_reply clause
                               | _ => invalid_reply b#"response body"
                               end) (parse_response_body (resp_body response)) in
  match validate_response_envelope (tree_of parsed) outstanding with
  | Ok _ => Ok {| vrp_parsed := parsed |}
  | Err (HPE.UpstreamResponseInvalid clause) => Err (invalid_reply clause)
  | Err e => Err (after_admission (carrier e) 502)
  end.

Definition classify (r : ValidatedReply) : Result ReplyClass Refusal :=
  let result := tree_get (tree_of (vrp_parsed r)) b#"result" in
  match classify_result_type result with
  | Complete => Ok ReplyTerminal
  | Unrecognized => Err (after_admission (carrier HPE.UnrecognizedResultType) 502)
  | InputRequired =>
      match input_required_state_of result with
      | Ok (Some state) => Ok (ReplyOpen state)
      | _ => Err (after_admission (carrier (HPE.UpstreamResponseInvalid b#"input_required requestState")) 502)
      end
  end.

(** ** [reply_assembly/] *)

Definition refuse_retained {T} (px : HttpProfileProxy) (ex : Exchange) (refusal : Refusal)
    (retention_owed : RetentionDisposition) : Stage T := λ p,
  rejection ← refuse px ex refusal p;
  _ ← retention_complete retention_owed (answer_response rejection);
  Ret (Err rejection, p).

Definition retain_accepted (px : HttpProfileProxy) (request : HttpRequest) (response : HttpResponse) (now : Z)
    (bound : option RequestEvidence) (actor_id : bytes) (retention_owed : RetentionDisposition)
    (execution : ExecutionDisposition) (snapshot : option ActiveDelegatedKey) : Prog (option Answer) :=
  outcome ← retention_complete retention_owed response;
  if is_accounted_for outcome then Ret None
  else
    let refusal := after_admission (taxonomy EvidenceRetentionIndeterminate) 500 in
    rejection ← response_rejection px request (rf_cause refusal) (rf_status refusal) now bound (Some actor_id)
                  execution snapshot;
    Ret (Some rejection).

Definition success_of (c : ReplyClass) : ServedSuccess :=
  match c with ReplyTerminal => SS_Terminal | ReplyOpen _ => SS_OpenLeg end.

Record SignedReply := { sr_response : HttpResponse; sr_class : ReplyClass }.

Definition serve_retained (px : HttpProfileProxy) (ex : Exchange) (reply : SignedReply)
    (retention : RetentionDisposition) : Stage Answer := λ p,
  let success := success_of (sr_class reply) in
  match may_publish p success with
  | (Err _, p) => refuse_retained px ex (after_admission (taxonomy ExchangeInvariantViolation) 500) retention p
  | (Ok _, p) =>
      retained ← retain_accepted px (ex_http_req ex) (sr_response reply) (ex_now ex)
                   (Some (fr_evidence (vr_floor (ex_verified ex)))) (ex_actor_id ex) retention
                   (disposition p None) (ex_key ex);
      match retained with
      | Some rejection => Ret (Err rejection, p)
      | None =>
          _ ← record_to px subject_response_signed (Some (ex_actor_id ex)) (resp_status (sr_response reply)) (ex_now ex);
          Ret (Ok (Served (sr_response reply)), publish p success)
      end
  end.

Definition record_continuation_leg (px : HttpProfileProxy) (ex : Exchange) (class : ReplyClass) (response_base : bytes)
    : Stage unit :=
  match class with
  | ReplyTerminal => on_progress (λ p, advance p E_ContinuationNotRequired)
  | ReplyOpen state =>
      recorded ← lift (record_open_leg px ex state response_base);
      match recorded with
      | Err refusal => refuse_with px ex refusal
      | Ok recorded =>
          _ ← on_progress (λ p, observe_open_leg p L_Recorded);
          establish_or_refuse px ex (Ok recorded)
      end
  end.

Definition read_reply (response : HttpResponse) (outstanding : OutstandingId) (p : ExchangeProgress)
    : Result ReplyClass Refusal * ExchangeProgress :=
  match validated_reply response outstanding with
  | Err refusal => (Err refusal, p)
  | Ok validated =>
      let '(validated, p) := establish p (mkEstablished validated E_EnvelopeValidated) in
      match classify validated with
      | Err refusal => (Err refusal, p)
      | Ok class =>
          let '(class, p) := establish p (mkEstablished class E_ResponseClassified) in
          (Ok class, observe_open_leg p (match class with ReplyTerminal => L_NotApplicable | ReplyOpen _ => L_Required end))
      end
  end.

Definition json_response (body : bytes) : HttpResponse :=
  {| resp_status := 200; resp_headers := [(b#"content-type", b#"application/json")]; resp_body := body |}.

(** An observation that may refuse: a refusal discharges the retention it owes. *)
Definition observing {T} (px : HttpProfileProxy) (ex : Exchange) (retention : RetentionDisposition)
    (observe : ExchangeProgress → Result T Refusal * ExchangeProgress) : Stage T := λ p,
  match observe p with
  | (Ok x, p) => Ret (Ok x, p)
  | (Err refusal, p) => refuse_retained px ex refusal retention p
  end.

Definition assemble_reply (px : HttpProfileProxy) (ex : Exchange) (outcome : DispatchedOutcome)
    (outstanding : OutstandingId) (window : SigningWindow) (retention : RetentionDisposition) : Stage SignedReply :=
  observed ← observing px ex retention (observe_reply outcome);
  inner_bytes ← establish_or_refuse px ex (Ok observed);
  class ← observing px ex retention (read_reply (json_response inner_bytes) outstanding);
  let '(response, signed) := sign_reply ex (json_response inner_bytes) window in
  response_base ← establish_or_refuse px ex signed;
  _ ← record_continuation_leg px ex class response_base;
  mret {| sr_response := response; sr_class := class |}.

Definition answer_notification (px : HttpProfileProxy) (ex : Exchange) (window : SigningWindow)
    (retention : RetentionDisposition) (execution : ExecutionDisposition) : Prog Answer :=
  let a := sw_key window in
  let bound := Some (fr_evidence (vr_floor (ex_verified ex))) in
  match sign_delegated_accepted_202 (ex_http_req ex) (ak_credential a) (ak_key a) (ak_delegated_kid a)
          (sw_created window) (sw_expires window) with
  | Ok ack =>
      retained ← retain_accepted px (ex_http_req ex) ack (ex_now ex) bound (ex_actor_id ex) retention execution
                   (Some (sw_key window));
      match retained with
      | Some rejection => Ret rejection
      | None =>
          _ ← record_to px subject_response_signed (Some (ex_actor_id ex)) 202 (ex_now ex);
          Ret (Served ack)
      end
  | Err e => response_rejection px (ex_http_req ex) (carrier e) 500 (ex_now ex) bound (Some (ex_actor_id ex))
               execution (Some (sw_key window))
  end.

Definition answer_notification_terminal (px : HttpProfileProxy) (ex : Exchange) (outcome : DispatchedOutcome)
    (window : SigningWindow) (retention : RetentionDisposition) : Stage Answer :=
  acknowledged ← observing px ex retention (observe_acknowledgement outcome);
  (λ p, match establish_terminal p acknowledged with
        | (Err _, p) => refuse_retained px ex (after_admission (taxonomy ExchangeInvariantViolation) 500) retention p
        | (Ok _, p) => a ← answer_notification px ex window retention (disposition p None); Ret (Ok a, p)
        end) : Stage Answer.

(** ** [request_stages.rs], [mod.rs]: the handler *)

Definition dispatch_prepared (prepared : PreparedInnerDispatch) : Prog DispatchedOutcome :=
  call (Inner_dispatch (pid_body prepared)).

Definition reply_to (px : HttpProfileProxy) (ex : Exchange) (admitted : AdmittedRequest) (outcome : DispatchedOutcome)
    (window : SigningWindow) (owed : RetentionDisposition) : Stage Answer :=
  match adm_outstanding admitted with
  | Notification => answer_notification_terminal px ex outcome window owed
  | outstanding =>
      reply ← assemble_reply px ex outcome outstanding window owed;
      serve_retained px ex reply owed
  end.

Definition serve_admitted (px : HttpProfileProxy) (ex : Exchange) (admitted : AdmittedRequest) (window : SigningWindow)
    : Stage Answer :=
  _ ← lift (record_request_accepted px admitted (av_admission (ex_verdicts ex)) (ex_actor_id ex) (ex_now ex));
  '(prepared, owed) ← commit_to_dispatch px ex (adm_authorized admitted) window;
  _ ← on_progress (λ p, advance p E_BackendDispatched);
  outcome ← lift (dispatch_prepared prepared);
  reply_to px ex admitted outcome window owed.

Definition handle_stages (px : HttpProfileProxy) (http_req : HttpRequest) (peer : option P) (now : Z) : Stage Answer :=
  verified ← verify_stage px http_req now;
  let ex := {| ex_http_req := http_req; ex_verified := verified;
               ex_actor_id := actor_id (ra_identity (fr_resolved_actor (vr_floor verified)));
               ex_now := now; ex_key := None; ex_verdicts := AuthorityVerdicts_default |} in
  '(admitted, ex) ← admit_request px ex peer;
  '(window, ex) ← commit_to_answering px ex;
  serve_admitted px ex admitted window.

(** The answer with the progress the exchange ended in. *)
Definition HttpProfileProxy_handle (px : HttpProfileProxy) (http_req : HttpRequest) (peer : option P) (now : Z)
    : Prog (Answer * ExchangeProgress) :=
  '(r, p) ← handle_stages px http_req peer now progress_new;
  Ret (match r with Ok a | Err a => a end, p).
End path.
