(* ===== verification/ServeProps.v ===== *)
(** * What the serving path guarantees

    Every run of [HttpProfileProxy_handle], whatever its environment answers: what must have happened before the
    backend is reached, what a refusal states about execution, what has happened before a
    success is served, and what the audit log holds. *)

From S2P Require Import Prelude.
From S2P Require Import RustStr.
From S2P Require Import Externals.
From S2P Require Import Json.
From S2P Require Import Concrete.
From S2P Require Import CoreError.
From S2P Require Import CoreReplay.
From S2P Require Import CoreResolver.
From S2P Require Import HttpMessage.
From S2P Require Import SigBase.
From S2P Require Import Policy.
From S2P Require Import Blocks.
From S2P Require Import Body.
From S2P Require Import Floor.
From S2P Require Import Sign.
From S2P Require Import Full.
From S2P Require Import Context.
From S2P Require Import Envelope.
From S2P Require Import Dispatch.
From S2P Require Import Delegation.
From S2P Require Import Rejection.
From S2P Require Import Bodyless.
From S2P Require Import Custody.
From S2P Require Import Admission.
From S2P Require Import Records.
From S2P Require Import AuthzPolicy.
From S2P Require Import ClientCore.
From S2P Require Import Exchange.
From S2P Require Import ReplayTier.
From S2P Require Import Authorize.
From S2P Require Import SigningPlane.
From S2P Require Import Serve.
From S2P Require Import ServePath.

(** ** What a run did *)

Section summaries.
Context `{Ed25519}.

Definition is_dispatch (e : Event) : bool := match e with Ev_dispatch _ _ => true | _ => false end.
(** A consume that was answered [false] left the approval with whoever took it; any other may
    have spent it. *)
Definition spends (e : Event) : bool :=
  match e with Ev_consume _ (Ok true) | Ev_consume _ (Err _) => true | _ => false end.
Definition leaves_unresolved (e : Event) : bool :=
  match e with Ev_reserve _ (Err (RE_Unresolved _)) | Ev_commit _ (Err (RE_Unresolved _)) => true | _ => false end.
Definition audit_of (e : Event) : option AuditSubject :=
  match e with Ev_audit r => Some (rec_subject r) | _ => None end.

Definition dispatched (t : list Event) : bool := existsb is_dispatch t.
Definition spent (t : list Event) : bool := existsb spends t.
Definition unresolved (t : list Event) : bool := existsb leaves_unresolved t.
Definition audits (t : list Event) : list AuditSubject := omap audit_of t.

(** A rejection writes to the audit log and may read the signer; it does nothing else. *)
Definition is_receipt (e : Event) : bool := match e with Ev_audit _ | Ev_signer _ => true | _ => false end.
Definition receipt_only (t : list Event) : Prop := Forall (λ e, is_receipt e = true) t.

Lemma dispatched_app t1 t2 : dispatched (t1 ++ t2) = dispatched t1 || dispatched t2.
Proof. apply existsb_app. Qed.
Lemma spent_app t1 t2 : spent (t1 ++ t2) = spent t1 || spent t2.
Proof. apply existsb_app. Qed.
Lemma unresolved_app t1 t2 : unresolved (t1 ++ t2) = unresolved t1 || unresolved t2.
Proof. apply existsb_app. Qed.
Lemma audits_app t1 t2 : audits (t1 ++ t2) = audits t1 ++ audits t2.
Proof. apply omap_app. Qed.

Lemma receipt_only_silent t : receipt_only t → dispatched t = false ∧ spent t = false ∧ unresolved t = false.
Proof. induction 1 as [|[] t He Ht (IH1 & IH2 & IH3)]; try done. Qed.

Lemma dispatched_split t : dispatched t = true → ∃ t1 body out t2, t = t1 ++ Ev_dispatch body out :: t2.
Proof.
  unfold dispatched. intros (e & (t1 & t2 & ->)%in_split & He)%existsb_exists.
  destruct e; try done. eauto.
Qed.
Lemma dispatched_unique t1 b o t2 t1' b' o' t2' :
  t1 ++ Ev_dispatch b o :: t2 = t1' ++ Ev_dispatch b' o' :: t2' →
  dispatched t1 = false → dispatched t2 = false →
  t1' = t1 ∧ b' = b ∧ o' = o ∧ t2' = t2.
Proof.
  revert t1'. induction t1 as [|e t1 IH]; intros [|e' t1'] Heq Hd1 Hd2; cbn in Heq.
  - by injection Heq as <- <- <-.
  - injection Heq as <- ->. rewrite dispatched_app in Hd2. by apply orb_false_iff in Hd2 as [_ ?].
  - injection Heq as -> _. done.
  - injection Heq as <- Heq. apply orb_false_iff in Hd1 as [_ Hd1].
    by destruct (IH t1' Heq Hd1 Hd2) as (-> & -> & -> & ->).
Qed.
End summaries.

(** ** Stages *)

Section stages.
Context `{Ed25519}.

Lemma stage_ret_runs {T} (x : T) p t r : runs (mret (M := Stage) x p) t r ↔ t = [] ∧ r = (Ok x, p).
Proof. done. Qed.
Lemma lift_runs {T} (m : Prog T) p t r :
  runs (lift m p) t r ↔ ∃ x, runs m t x ∧ r = (Ok x, p).
Proof.
  unfold lift. rewrite runs_bind. split.
  - intros (t1 & x & t2 & -> & Hm & -> & ->). exists x. by rewrite app_nil_r.
  - intros (x & Hm & ->). exists t, x, []. by rewrite app_nil_r.
Qed.
Lemma on_progress_runs f p t r : runs (on_progress f p) t r ↔ t = [] ∧ r = (Ok tt, f p).
Proof. done. Qed.

(** A stage after a stage: the first ended the exchange, or both ran. *)
Lemma stage_bind_runs {A B} (m : Stage A) (f : A → Stage B) p t r p' :
  runs ((m ≫= f) p) t (r, p') →
  (∃ a, r = Err a ∧ runs (m p) t (Err a, p')) ∨
  (∃ t1 x p1 t2, t = t1 ++ t2 ∧ runs (m p) t1 (Ok x, p1) ∧ runs (f x p1) t2 (r, p')).
Proof.
  intros (t1 & [[x|a] p1] & t2 & -> & Hm & Hf)%runs_bind.
  - right. eauto 10.
  - left. destruct Hf as [-> [= -> ->]]. exists a. by rewrite app_nil_r.
Qed.
Lemma lift_bind_runs {A B} (m : Prog A) (f : A → Stage B) p t r :
  runs ((lift m ≫= f) p) t r → ∃ t1 x t2, t = t1 ++ t2 ∧ runs m t1 x ∧ runs (f x p) t2 r.
Proof.
  intros (t1 & y & t2 & -> & (x & Hm & ->)%lift_runs & Hf)%runs_bind. eauto 10.
Qed.
Lemma on_progress_bind_runs {B} g (f : unit → Stage B) p t r :
  runs ((on_progress g ≫= f) p) t r → runs (f tt (g p)) t r.
Proof. by intros (t1 & y & t2 & -> & [-> ->] & Hf)%runs_bind. Qed.
End stages.

(** ** Rejections *)

Section receipts.
Context `{Base64, Sha2, Ed25519, JsonTree, F64Carrier, ChannelPeer P}.
Context `{!Serde HttpRequestEvidenceBlock, !Serde HttpResponseEvidenceBlock, !Serde VerifiedContext}.
Context `{!Serde AdmissionHeader, !Serde AdmissionClaims}.
Implicit Types (px : HttpProfileProxy (P := P)) (ex : Exchange) (t : list Event).

(** What the sink receives, if there is one. *)
Definition audited px (subject : AuditSubject) : list AuditSubject := if px_audit px then [subject] else [].

Lemma record_to_runs px subject actor status now t u :
  runs (record_to px subject actor status now) t u →
  t = if px_audit px then [Ev_audit {| rec_subject := subject; rec_actor_id := actor; rec_status := status;
                                       rec_at_unix := now |}] else [].
Proof. unfold record_to. destruct (px_audit px); [by intros Hr%runs_call|by intros [-> _]]. Qed.

Lemma record_to_receipt px subject actor status now t u :
  runs (record_to px subject actor status now) t u → receipt_only t ∧ audits t = audited px subject.
Proof.
  intros ->%record_to_runs. unfold audited. destruct (px_audit px); split; try done; repeat constructor.
Qed.

Lemma signed_rejection_runs px req wire status now bound execution snapshot t resp :
  runs (signed_rejection px req wire status now bound execution snapshot) t resp → receipt_only t ∧ audits t = [].
Proof.
  unfold signed_rejection. intros (t1 & w & t2 & -> & Hw & -> & _)%runs_bind. rewrite app_nil_r.
  destruct snapshot as [a|]; [by destruct Hw as [-> _]; split; [constructor|]|].
  apply runs_bind in Hw as (t3 & s & t4 & -> & ->%(runs_call Signer_load) & -> & _). cbn. split; [by repeat constructor|done].
Qed.

Lemma rejection_runs px req cause status now bound actor execution snapshot az ad t a :
  runs (rejection px req cause status now bound actor execution snapshot az ad) t a →
  ∃ resp, a = Rejected cause execution resp ∧ receipt_only t ∧
    audits t = audited px (subject_request_rejected (cause_core_verdict cause) (cause_authorization_facet cause az)
                             (default AF_NotReached ad)).
Proof.
  unfold rejection. intros (t1 & [] & t2 & -> & [Hr1 Ha1]%record_to_receipt & Hs)%runs_bind.
  apply runs_bind in Hs as (t3 & resp & t4 & -> & [Hr3 Ha3]%signed_rejection_runs & -> & ->).
  exists resp. rewrite app_nil_r, audits_app, Ha1, Ha3, app_nil_r. split; [done|]. split; [|done]. by apply Forall_app.
Qed.

Lemma response_rejection_runs px req cause status now bound actor execution snapshot t a :
  runs (response_rejection px req cause status now bound actor execution snapshot) t a →
  ∃ resp, a = Rejected cause execution resp ∧ receipt_only t ∧
    audits t = audited px (subject_response_rejected (cause_core_verdict cause)).
Proof.
  unfold response_rejection. intros (t1 & [] & t2 & -> & [Hr1 Ha1]%record_to_receipt & Hs)%runs_bind.
  apply runs_bind in Hs as (t3 & resp & t4 & -> & [Hr3 Ha3]%signed_rejection_runs & -> & ->).
  exists resp. rewrite app_nil_r, audits_app, Ha1, Ha3, app_nil_r. split; [done|]. split; [|done]. by apply Forall_app.
Qed.

(** The log entry of a rejection: about the request before it was accepted, about the response
    after that. *)
Definition rejection_subject (accepted : bool) (cause : RefusalCause) (subject : AuditSubject) : Prop :=
  if accepted then subject = subject_response_rejected (cause_core_verdict cause)
  else ∃ az ad, subject = subject_request_rejected (cause_core_verdict cause) az ad.

(** The exchange ended in a rejection without reaching the backend. *)
Definition turned_away px (accepted : bool) t (a : Answer) (p : ExchangeProgress) : Prop :=
  dispatched t = false ∧
  ∃ cause resp subject,
    a = Rejected cause (disposition p (if unresolved t then Some NothingExecutedRetentionUnresolved else None)) resp ∧
    cause ≠ taxonomy ExchangeInvariantViolation ∧
    audits t = audited px subject ∧ rejection_subject accepted cause subject.

Definition accepted_posture (r : Refusal) : bool := bool_decide (rf_posture r = AfterAdmission).

Lemma refuse_runs px ex refusal p t a :
  runs (refuse px ex refusal p) t a →
  ∃ resp subject, a = Rejected (rf_cause refusal) (disposition p (rf_execution_refinement refusal)) resp ∧
    receipt_only t ∧ audits t = audited px subject ∧
    rejection_subject (accepted_posture refusal) (rf_cause refusal) subject.
Proof.
  unfold refuse, receipt_refuse, accepted_posture. intros Hr.
  destruct (rf_posture refusal); cbn in Hr;
    first [apply rejection_runs in Hr as (resp & -> & Ho & ->) | apply response_rejection_runs in Hr as (resp & -> & Ho & ->)];
    eexists resp, _; (split; [done|]); (split; [done|]); (split; [done|]);
    first [reflexivity | eexists _, _; reflexivity].
Qed.

Lemma refuse_with_runs {T} px ex refusal p t (r : Result T Answer) p' :
  runs (refuse_with px ex refusal p) t (r, p') →
  ∃ resp subject, r = Err (Rejected (rf_cause refusal) (disposition p (rf_execution_refinement refusal)) resp) ∧ p' = p ∧
    receipt_only t ∧ audits t = audited px subject ∧
    rejection_subject (accepted_posture refusal) (rf_cause refusal) subject.
Proof.
  unfold refuse_with. intros (t1 & a & t2 & -> & (resp & subject & -> & ?)%refuse_runs & -> & [= -> ->])%runs_bind.
  rewrite app_nil_r. exists resp, subject. naive_solver.
Qed.

(** A refusal that refines nothing, after a stretch that touched neither backend nor log. *)
Definition silent t : Prop := dispatched t = false ∧ unresolved t = false ∧ audits t = [].

Lemma silent_app t1 t2 : silent t1 → silent t2 → silent (t1 ++ t2).
Proof.
  intros (H11 & H12 & H13) (H21 & H22 & H23). unfold silent.
  by rewrite dispatched_app, unresolved_app, audits_app, H11, H12, H13, H21, H22, H23.
Qed.
Lemma silent_nil : silent [].
Proof. done. Qed.
Lemma turned_away_app px accepted t1 t2 a p :
  silent t1 → turned_away px accepted t2 a p → turned_away px accepted (t1 ++ t2) a p.
Proof.
  intros (H11 & H12 & H13) [Hd Ht]. unfold turned_away.
  by rewrite dispatched_app, unresolved_app, audits_app, H11, H12, H13, Hd.
Qed.
Lemma refuse_with_turned_away {T} px ex refusal p t (r : Result T Answer) p' :
  runs (refuse_with px ex refusal p) t (r, p') →
  rf_execution_refinement refusal = None → rf_cause refusal ≠ taxonomy ExchangeInvariantViolation →
  ∃ a, r = Err a ∧ p' = p ∧ spent t = false ∧ turned_away px (accepted_posture refusal) t a p.
Proof.
  intros (resp & subject & -> & -> & Ho & Ha & Hs)%refuse_with_runs Hn Hc.
  destruct (receipt_only_silent _ Ho) as (Hd & Hsp & Hu).
  eexists. split; [done|]. split; [done|]. split; [done|]. split; [done|].
  exists (rf_cause refusal), resp, subject. by rewrite Hu, Hn.
Qed.
Lemma establish_or_refuse_runs {T} px ex (e : Result (Established T) Refusal) p t r p' :
  runs (establish_or_refuse px ex e p) t (r, p') →
  (∀ refusal, e = Err refusal → rf_execution_refinement refusal = None ∧
     rf_cause refusal ≠ taxonomy ExchangeInvariantViolation) →
  (∃ est, e = Ok est ∧ t = [] ∧ r = Ok (est_value est) ∧ p' = advance p (est_event est)) ∨
  (∃ refusal a, e = Err refusal ∧ r = Err a ∧ p' = p ∧ spent t = false ∧
     turned_away px (accepted_posture refusal) t a p).
Proof.
  unfold establish_or_refuse. intros Hr Hn. destruct e as [est|refusal].
  - left. destruct Hr as [-> [= -> ->]]. eauto.
  - right. destruct (Hn refusal eq_refl) as [? ?].
    apply refuse_with_turned_away in Hr as (a & -> & -> & ? & ?); [|done..]. exists refusal, a. done.
Qed.

Lemma established_bind_runs {A B} px ex (est : Established A) (f : A → Stage B) p t r :
  runs ((establish_or_refuse px ex (Ok est) ≫= f) p) t r → runs (f (est_value est) (advance p (est_event est))) t r.
Proof. by intros (t1 & y & t2 & -> & [-> ->] & Hf)%runs_bind. Qed.
Lemma refused_bind_runs {A B} px ex refusal (f : A → Stage B) p t r p' :
  runs ((establish_or_refuse px ex (Err refusal) ≫= f) p) t (r, p') →
  rf_execution_refinement refusal = None → rf_cause refusal ≠ taxonomy ExchangeInvariantViolation →
  ∃ a, r = Err a ∧ p' = p ∧ spent t = false ∧ turned_away px (accepted_posture refusal) t a p.
Proof.
  intros [(a & -> & Hr)|(t1 & x & p1 & t2 & _ & Hr & _)]%stage_bind_runs Hn Hc;
    apply refuse_with_turned_away in Hr as (a' & [= <-] & Hr); eauto.
Qed.
End receipts.

(** ** Before the backend *)

Section gates.
Context `{Base64, Sha2, Ed25519, JsonTree, F64Carrier, ChannelPeer P}.
Context `{!Serde HttpRequestEvidenceBlock, !Serde HttpResponseEvidenceBlock, !Serde VerifiedContext}.
Context `{!Serde AdmissionHeader, !Serde AdmissionClaims}.
Implicit Types (px : HttpProfileProxy (P := P)) (ex : Exchange) (t : list Event) (v : VerifiedMcpRequest).

(** The progress of an exchange that has reached [s] and not the backend. *)
Definition reached (s : ExchangeState) (c : ContinuationState) : ExchangeProgress :=
  mkProgress s c (expected_backend s) O_Undetermined L_NotApplicable None.

Definition signer_of v : ResolvedActor := fr_resolved_actor (vr_floor v).
Definition actor_id_of v : bytes := actor_id (ra_identity (signer_of v)).

(** The channel the request arrived on belongs to the actor that signed it. *)
Definition channel_bound px v (peer : option P) (bound : option (RequestPeerBindingFacts P)) : Prop :=
  match px_transport_binding px with
  | None => bound = None
  | Some ExactMatch =>
      ∃ q, peer = Some q ∧ peer_identity q = ai_subject (ra_identity (signer_of v)) ∧
        bound = Some (mkBinding q (verified_request_subject (signer_of v)))
  end.

(** The actor is admitted: confirmed by the authority's current state, or by an assertion inside
    the degraded window when the authority could not be asked. *)
Definition in_standing px v (now : Z) t (facet : AdmissionFacet) : Prop :=
  match px_admission px with
  | None => facet = AF_NotConfigured
  | Some en =>
      match rb_admission (vr_request_block v), rb_admission_assertion (vr_request_block v) with
      | Some binding, Some assertion =>
          let checked state := check_admission binding assertion (actor_id_of v) state PROFILE_TAG
                                 [audience_id_of px] (en_policy en) now (en_resolve_authority en) in
          (∃ state admitted, Ev_admission (adb_admission_id binding) now (Ok (Some state)) ∈ t ∧
             checked (Some (cas_state state)) = Ok (Live admitted) ∧ facet = AF_LiveConfirmed) ∨
          (∃ e at_ last candidate, Ev_admission (adb_admission_id binding) now (Err e) ∈ t ∧
             Ev_instant at_ ∈ t ∧ Ev_last_read last ∈ t ∧ checked None = Ok (DegradedCandidate candidate) ∧
             exhausted last (en_policy en) at_ = false ∧ facet = AF_Degraded)
      | _, _ => en_enforcement en = AdmissionOptional ∧ facet = AF_NotConfigured
      end
  end.

Lemma in_standing_mono px v now t t' facet :
  in_standing px v now t facet → in_standing px v now (t ++ t') facet.
Proof.
  unfold in_standing. destruct (px_admission px) as [en|]; [|done].
  destruct (rb_admission (vr_request_block v)) as [b|], (rb_admission_assertion (vr_request_block v)) as [s|]; try done.
  intros [(st & ad & ? & ? & ?)|(e & a & l & cd & ? & ? & ? & ?)]; [left|right].
  - exists st, ad. set_solver.
  - exists e, a, l, cd. set_solver.
Qed.

(** An authority that was read answers with a live verdict, one that was not with a candidate. *)
Lemma check_admission_Live b a who s prof aud pol now res x :
  check_admission b a who (Some s) prof aud pol now res = Ok x → ∃ admitted, x = Live admitted.
Proof.
  unfold check_admission. destruct (verify_admission_assertion _ _ _ _ _ _) as [claims|]; [|done].
  repeat match goal with |- (if ?c then _ else _) = _ → _ => destruct c; [done|] end. intros [= <-]. eauto.
Qed.
Lemma check_admission_Degraded b a who prof aud pol now res x :
  check_admission b a who None prof aud pol now res = Ok x → ∃ candidate, x = DegradedCandidate candidate.
Proof.
  unfold check_admission. destruct (verify_admission_assertion _ _ _ _ _ _) as [claims|]; [|done].
  repeat match goal with |- (if ?c then _ else _) = _ → _ => destruct c; [done|] end. intros [= <-]. eauto.
Qed.

Lemma decide_over_runs en binding assertion who aud now at_ authoritative t facet :
  runs (decide_over en binding assertion who aud now at_ authoritative) t (Ok facet) →
  let checked := check_admission binding assertion who (cas_state <$> authoritative) PROFILE_TAG [aud] (en_policy en) now
                   (en_resolve_authority en) in
  (∃ admitted, checked = Ok (Live admitted) ∧ t = [] ∧ facet = AF_LiveConfirmed) ∨
  (∃ last candidate, checked = Ok (DegradedCandidate candidate) ∧ t = [Ev_last_read last] ∧
     exhausted last (en_policy en) at_ = false ∧ facet = AF_Degraded).
Proof.
  unfold decide_over. cbn zeta. destruct (check_admission _ _ _ _ _ _ _ _ _) as [[ad|cd]|e].
  - intros [-> [= ->]]. eauto.
  - intros (t1 & last & t2 & -> & ->%(runs_call Window_last_read) & -> & Hf)%runs_bind.
    destruct (exhausted last (en_policy en) at_) eqn:E; [done|]. injection Hf as ->. right. by exists last, cd.
  - by intros [_ ?].
Qed.
Lemma decide_over_silent en binding assertion who aud now at_ authoritative t r :
  runs (decide_over en binding assertion who aud now at_ authoritative) t r → silent t ∧ spent t = false.
Proof.
  unfold decide_over. destruct (check_admission _ _ _ _ _ _ _ _ _) as [[ad|cd]|e]; [by intros [-> _]| |by intros [-> _]].
  by intros (t1 & last & t2 & -> & ->%(runs_call Window_last_read) & -> & _)%runs_bind.
Qed.

Lemma enforcer_decide_silent en v who aud now t r :
  runs (enforcer_decide en v who aud now) t r → silent t ∧ spent t = false.
Proof.
  unfold enforcer_decide.
  destruct (rb_admission (vr_request_block v)) as [b|], (rb_admission_assertion (vr_request_block v)) as [s|];
    try by intros [-> _].
  intros (t1 & at_ & t2 & -> & ->%(runs_call Instant_now) & Hr)%runs_bind.
  apply runs_bind in Hr as (t3 & cur & t4 & -> & ->%(runs_call (Admission_current _ _)) & Hr).
  destruct cur as [[st|]|e].
  - apply runs_bind in Hr as (t5 & [] & t6 & -> & ->%(runs_call (Window_record_read _)) & Hr).
    by apply decide_over_silent in Hr as [(? & ? & ?) ?].
  - by apply runs_bind in Hr as (t5 & [] & t6 & -> & ->%(runs_call (Window_record_read _)) & -> & _).
  - by apply decide_over_silent in Hr as [(? & ? & ?) ?].
Qed.

Lemma enforcer_decide_standing px en v now t facet :
  px_admission px = Some en →
  runs (enforcer_decide en v (actor_id_of v) (audience_id_of px) now) t (Ok facet) → in_standing px v now t facet.
Proof.
  unfold enforcer_decide, in_standing. intros ->.
  destruct (rb_admission (vr_request_block v)) as [b|], (rb_admission_assertion (vr_request_block v)) as [s|];
    try (intros [_ ?]; by destruct (en_enforcement en); simplify_eq).
  intros (t1 & at_ & t2 & -> & ->%(runs_call Instant_now) & Hr)%runs_bind.
  apply runs_bind in Hr as (t3 & cur & t4 & -> & ->%(runs_call (Admission_current _ _)) & Hr).
  destruct cur as [[st|]|e].
  - apply runs_bind in Hr as (t5 & [] & t6 & -> & ->%(runs_call (Window_record_read _)) & Hr).
    left. exists st. apply decide_over_runs in Hr as [(ad & Hc & -> & ->)|(last & cd & Hc & _)].
    + exists ad. set_solver.
    + by apply check_admission_Live in Hc as [? ?].
  - by apply runs_bind in Hr as (t5 & [] & t6 & -> & ->%(runs_call (Window_record_read _)) & _ & ?).
  - right. apply decide_over_runs in Hr as [(ad & Hc & _)|(last & cd & Hc & -> & Hx & ->)].
    + by apply check_admission_Degraded in Hc as [? ?].
    + exists e, at_, last, cd. set_solver.
Qed.

Lemma admission_stage_runs px ex v bound t r :
  ex_verified ex = v → ex_actor_id ex = actor_id_of v →
  runs (admission_stage px ex bound) t r →
  silent t ∧ spent t = false ∧
  match r with
  | Ok (est, facet) => est = mkEstablished {| ado_binding := bound |} E_AdmissionCurrencyChecked ∧
                       in_standing px v (ex_now ex) t facet
  | Err refusal => ∃ e, refusal = before_admission (carrier e) 403
  end.
Proof.
  unfold admission_stage. intros Hv Ha. destruct (px_admission px) as [en|] eqn:Een.
  - intros (t1 & d & t2 & -> & Hd & -> & ->)%runs_bind. rewrite app_nil_r.
    destruct (enforcer_decide_silent _ _ _ _ _ _ _ Hd) as [Hsi Hsp]. split; [done|]. split; [done|].
    destruct d as [facet|e]; [|by exists e]. split; [done|]. rewrite Hv, Ha in Hd. by eapply enforcer_decide_standing.
  - intros [-> ->]. split; [done|]. split; [done|]. split; [done|]. unfold in_standing. by rewrite Een.
Qed.

(** The exchange was refused at a stage before the backend. *)
Definition refused_before px (accepted : bool) t (a : Answer) (p : ExchangeProgress) (c : ContinuationState) : Prop :=
  turned_away px accepted t a p ∧ ∃ s, p = reached s c ∧ backend_may_have_executed s = false.

Lemma refused_before_app px accepted t1 t2 a p c :
  silent t1 → refused_before px accepted t2 a p c → refused_before px accepted (t1 ++ t2) a p c.
Proof. intros Hs [Ht Hp]. split; [by apply turned_away_app|done]. Qed.

(** What [admit_request] has checked when it lets a request on. *)
Record gated px (http_req : HttpRequest) v (peer : option P) (now : Z) t (facet : AdmissionFacet)
    (admitted : AdmittedRequest (P := P)) : Prop := {
  gated_envelope : validate_request_envelope (req_body http_req) = Ok (adm_outstanding admitted);
  gated_standing : in_standing px v now t facet;
  gated_authorized : ∃ bound, channel_bound px v peer bound ∧
    authorize (px_authorization px) v (req_body http_req) bound = Ok (adm_authorized admitted);
}.

Lemma transport_binding_stage_runs px ex peer :
  match transport_binding_stage px ex peer with
  | Ok est => est_event est = E_TransportBindingChecked ∧ channel_bound px (ex_verified ex) peer (est_value est)
  | Err refusal => refusal = before_admission (taxonomy TransportBindingFailed) 403
  end.
Proof.
  unfold transport_binding_stage, channel_bound. destruct (px_transport_binding px) as [[]|]; [|done].
  destruct (transport_bind _ _) as [b|e] eqn:E; [|done]. split; [done|].
  apply transport_bind_Ok in E as (q & -> & Hq & ->). by exists q.
Qed.

Lemma admit_bound_runs px ex outstanding bound peer t r p' :
  ex_actor_id ex = actor_id_of (ex_verified ex) →
  validate_request_envelope (req_body (ex_http_req ex)) = Ok outstanding →
  channel_bound px (ex_verified ex) peer bound →
  runs (admit_bound px ex outstanding bound (reached S_TransportBound C_NotInvolved)) t (r, p') →
  spent t = false ∧
  match r with
  | Ok (admitted, ex') =>
      silent t ∧ p' = reached S_AdmissionChecked C_NotInvolved ∧
      ∃ facet, gated px (ex_http_req ex) (ex_verified ex) peer (ex_now ex) t facet admitted ∧
        ex' = ex_with_verdicts ex {| av_authorization := Some (posture_facet (adm_authorized admitted));
                                     av_admission := Some facet |}
  | Err a => refused_before px false t a p' C_NotInvolved
  end.
Proof.
  intros Ha Hen Hbound. unfold admit_bound.
  intros [(a & _ & (x & _ & ?)%lift_runs)|(t3 & ad & p3 & t4 & -> & (x & Had & [= -> ->])%lift_runs & Hr)]%stage_bind_runs;
    [done|].
  apply (admission_stage_runs _ _ _ _ _ _ eq_refl Ha) in Had as (Hsi & Hsp & Had). destruct x as [[est' facet]|rf].
  - destruct Had as [-> Hst].
    apply stage_bind_runs in Hr as [(a & _ & [_ ?])|(t5 & dec & p5 & t6 & -> & [-> [= -> ->]] & Hr)]; [done|].
    cbn [est_value est_event app] in Hr.
    change (advance (reached S_TransportBound C_NotInvolved) E_AdmissionCurrencyChecked)
      with (reached S_AdmissionChecked C_NotInvolved) in Hr.
    unfold authorization_stage in Hr. cbn [ado_binding ex_verified ex_http_req ex_with_verdicts] in Hr.
    destruct (authorize _ _ _ _) as [posture|az] eqn:Eaz; cbn [map_err] in Hr.
    + destruct Hr as [-> [= -> ->]]. rewrite app_nil_r. split; [done|]. split; [done|]. split; [done|].
      exists facet. split; [|done]. split; [done|done|]. eauto.
    + apply refuse_with_turned_away in Hr as (a & -> & -> & Hsp' & Ht); [|done..].
      rewrite spent_app, Hsp. split; [done|]. apply refused_before_app; [done|]. split; [done|]. by exists S_AdmissionChecked.
  - destruct Had as [e ->]. apply refuse_with_turned_away in Hr as (a & -> & -> & Hsp' & Ht); [|done..].
    rewrite spent_app, Hsp. split; [done|]. apply refused_before_app; [done|]. split; [done|]. by exists S_TransportBound.
Qed.

Lemma admit_request_runs px ex peer t r p' :
  ex_actor_id ex = actor_id_of (ex_verified ex) →
  runs (admit_request px ex peer (reached S_Verified C_NotInvolved)) t (r, p') →
  spent t = false ∧
  match r with
  | Ok (admitted, ex') =>
      silent t ∧ p' = reached S_AdmissionChecked C_NotInvolved ∧
      ∃ facet, gated px (ex_http_req ex) (ex_verified ex) peer (ex_now ex) t facet admitted ∧
        ex' = ex_with_verdicts ex {| av_authorization := Some (posture_facet (adm_authorized admitted));
                                     av_admission := Some facet |}
  | Err a => refused_before px false t a p' C_NotInvolved
  end.
Proof.
  intros Ha. unfold admit_request, validate_envelope.
  destruct (validate_request_envelope (req_body (ex_http_req ex))) as [outstanding|e] eqn:Een; cbn [map_err].
  2: { intros (a & -> & -> & Hsp & Ht)%refuse_with_turned_away; [|done..]. split; [done|]. split; [done|]. by exists S_Verified. }
  pose proof (transport_binding_stage_runs px ex peer) as Hbs.
  intros [(a & -> & Hb)|(t1 & bound & p1 & t2 & -> & Hb & Hr)]%stage_bind_runs;
    (apply establish_or_refuse_runs in Hb as [(est & Hbe & -> & [= ->] & ->)|(rf & a' & Hbe & [= <-] & -> & Hsp & Ht)];
      [|..|intros rf Hrf; rewrite Hrf in Hbs; by subst rf]).
  - rewrite Hbe in Hbs. subst rf. split; [done|]. split; [done|]. by exists S_Verified.
  - rewrite Hbe in Hbs. destruct Hbs as [He Hbound]. rewrite He in Hr. by apply (admit_bound_runs _ _ _ _ peer) in Hr.
Qed.

(** *** The continuation and the replay tier *)

Definition answer_key_of px v (state : bytes) : bytes := continuation_key (audience_id_of px) (actor_id_of v) state.

(** What the answer leg read of the store. *)
Record prepared_leg px ex t (prep : ContinuationPrep) : Prop := {
  leg_state : prep_answer_state prep =
    if is_some (rb_continuation (vr_request_block (ex_verified ex)))
    then extract_request_state (req_body (ex_http_req ex)) else None;
  leg_key : prep_answer_key prep = answer_key_of px (ex_verified ex) <$> prep_answer_state prep;
  leg_peeked bases : prep_retained prep = Some bases →
    cp_store (px_continuations px) = true ∧
    ∃ key, prep_answer_key prep = Some key ∧ Ev_peek key (Ok (Some bases)) ∈ t;
}.

Lemma prepare_continuation_runs px ex t r :
  ex_actor_id ex = actor_id_of (ex_verified ex) →
  runs (prepare_continuation px ex) t r →
  silent t ∧ spent t = false ∧
  match r with
  | Ok est => est_event est = E_ContinuationPrepared ∧ prepared_leg px ex t (est_value est)
  | Err refusal => refusal = capability_absent
  end.
Proof.
  intros Ha. unfold prepare_continuation. rewrite Ha.
  set (state := if is_some _ then _ else _).
  intros (t1 & ret & t2 & -> & Hr & -> & ->)%runs_bind. rewrite app_nil_r.
  change (continuation_key (audience_id_of px) (actor_id_of (ex_verified ex)))
    with (answer_key_of px (ex_verified ex)) in *.
  destruct state as [st|] eqn:Est; cbn [fmap option_fmap option_map] in *; destruct (cp_store (px_continuations px)) eqn:Ecp.
  - apply runs_bind in Hr as (t3 & pk & t4 & -> & ->%(runs_call (Continuation_peek _)) & -> & ->). cbn [app event_of].
    split; [done|]. split; [done|]. destruct pk as [bases|e]; [|done]. split; [done|].
    split; cbn [prep_answer_state prep_answer_key prep_retained est_value]; [by subst state|done|].
    intros bs ->. split; [done|]. eexists. split; [done|]. set_solver.
  - destruct Hr as [-> ->]. done.
  - destruct Hr as [-> ->]. split; [done|]. split; [done|]. split; [done|].
    split; cbn [prep_answer_state prep_answer_key prep_retained est_value]; [by subst state|done|done].
  - destruct Hr as [-> ->]. split; [done|]. split; [done|]. split; [done|].
    split; cbn [prep_answer_state prep_answer_key prep_retained est_value]; [by subst state|done|done].
Qed.

(** The replay tier admitted the request, under the continuation [ctx]. *)
Record replay_admitted px v (ctx : option RetainedContinuation) (now : Z) t : Prop := {
  ra_deployment : deployment_tier_admits (px_dispatch_cfg px) = Ok tt;
  ra_class : is_ok (admit_replay_tier {| fleet_strict := pdc_fleet_strict (px_dispatch_cfg px) |} (px_durability_class px)) = true;
  ra_prepared : ∃ checked, prepare_http_dispatch v ctx = Ok (replay_key_of v, checked);
  ra_fresh : Ev_replay (to_core_replay_key (replay_key_of v) (fr_expires (vr_floor v))) now (Ok Fresh) ∈ t;
}.

Lemma prepare_http_dispatch_key v ctx key checked :
  prepare_http_dispatch v ctx = Ok (key, checked) → key = replay_key_of v.
Proof.
  unfold prepare_http_dispatch. destruct (rb_continuation _) as [c|], ctx as [ctx|]; [|done..|by intros [= <- _]].
  destruct (map_err _ _); [by intros [= <- _]|done].
Qed.

Lemma replay_admission_stage_runs px ex ctx t r :
  runs (replay_admission_stage px ex ctx) t r →
  silent t ∧ spent t = false ∧
  match r with
  | Ok est => est_event est = E_ReplayAdmitted ∧ replay_admitted px (ex_verified ex) ctx (ex_now ex) t
  | Err refusal => ∃ e, refusal = before_admission (RC_Core (V_Dispatch e)) 409
  end.
Proof.
  unfold replay_admission_stage, dispatch_request_with_async_tier.
  intros (t1 & d & t2 & -> & Hd & -> & ->)%runs_bind. rewrite app_nil_r.
  destruct (deployment_tier_admits _) as [[]|e] eqn:Edt; [|by destruct Hd as [-> ->]; split_and!; [..|eexists]].
  destruct (admit_replay_tier _ _) as [adm|e] eqn:Ert; cbn [map_err] in Hd; [|by destruct Hd as [-> ->]; split_and!; [..|eexists]].
  unfold prepare in Hd. destruct (prepare_http_dispatch (ex_verified ex) ctx) as [[key chk]|e] eqn:Eph; cbn [map_err] in Hd;
    [|by destruct Hd as [-> ->]; split_and!; [..|eexists]].
  apply prepare_http_dispatch_key in Eph as Hk. subst key.
  apply runs_bind in Hd as (t3 & dec & t4 & -> & ->%(runs_call (Replay_check_and_insert _ _)) & -> & ->).
  cbn [app event_of from_admitted pd_replay_key]. split; [done|]. split; [done|].
  destruct dec as [[]|e]; [|eauto..]. split; [done|]. split; [done|by rewrite Ert|eauto|set_solver].
Qed.

Lemma prepared_leg_mono px ex t t' prep : prepared_leg px ex t prep → prepared_leg px ex (t ++ t') prep.
Proof.
  intros [Hs Hk Hp]. split; [done..|]. intros bases Hb. destruct (Hp bases Hb) as (? & key & ? & ?).
  split; [done|]. exists key. set_solver.
Qed.
Lemma replay_admitted_mono px v ctx now t t' : replay_admitted px v ctx now t → replay_admitted px v ctx now (t' ++ t).
Proof. intros [? ? ? ?]. split; [done..|set_solver]. Qed.

(** Nothing is spent yet: the leg was at most looked at. *)
Definition looked_at (prep : ContinuationPrep) : ContinuationState := if was_peeked prep then C_Peeked else C_NotInvolved.

Lemma look_runs prep s t r p' :
  runs ((if was_peeked prep then on_progress (λ p, observe_continuation p C_Peeked) else mret tt)
          (reached s C_NotInvolved)) t (r, p') →
  t = [] ∧ r = Ok tt ∧ p' = reached s (looked_at prep).
Proof. unfold looked_at. by destruct (was_peeked prep); intros [-> [= -> ->]]. Qed.

Lemma looked_at_not_consumed prep : looked_at prep ≠ C_Consumed.
Proof. unfold looked_at. by destruct (was_peeked prep). Qed.

Lemma admit_replay_runs px ex t r p' :
  ex_actor_id ex = actor_id_of (ex_verified ex) →
  runs (admit_replay px ex (reached S_AdmissionChecked C_NotInvolved)) t (r, p') →
  spent t = false ∧
  match r with
  | Ok prep => silent t ∧ p' = reached S_ReplayAdmitted (looked_at prep) ∧ prepared_leg px ex t prep ∧
               replay_admitted px (ex_verified ex) (prep_binding prep) (ex_now ex) t
  | Err a => ∃ c, c ≠ C_Consumed ∧ refused_before px false t a p' c
  end.
Proof.
  intros Ha. unfold admit_replay.
  intros [(a & _ & (x & _ & ?)%lift_runs)|(t1 & ? & ? & t2 & -> & (x & Hp & [= -> ->])%lift_runs & Hr)]%stage_bind_runs; [done|].
  apply (prepare_continuation_runs _ _ _ _ Ha) in Hp as (Hsi & Hsp & Hp). rewrite spent_app, Hsp.
  apply stage_bind_runs in Hr as [(a & -> & He)|(t3 & prep & p3 & t4 & -> & He & Hr)];
    (apply establish_or_refuse_runs in He as [(est & -> & -> & [= ->] & ->)|(rf & a' & -> & [= <-] & -> & Hsp' & Ht)];
     [|..|intros rf ->; by subst rf]).
  - subst rf. split; [done|]. exists C_NotInvolved. split; [done|]. apply refused_before_app; [done|].
    split; [done|]. by exists S_AdmissionChecked.
  - destruct Hp as [Hev Hleg]. rewrite Hev in Hr. cbn [app]. set (prep := est_value est) in *.
    apply stage_bind_runs in Hr as [(a & _ & (_ & ? & _)%look_runs)|(t5 & [] & p5 & t6 & -> & (-> & _ & ->)%look_runs & Hr)];
      [done|]. cbn [app].
    apply stage_bind_runs in Hr as [(a & _ & (x & _ & ?)%lift_runs)|(t7 & ? & ? & t8 & -> & (x & Hra & [= -> ->])%lift_runs & Hr)];
      [done|].
    apply replay_admission_stage_runs in Hra as (Hsi2 & Hsp2 & Hra). rewrite spent_app, Hsp2.
    apply stage_bind_runs in Hr as [(a & -> & He)|(t9 & [] & p9 & t10 & -> & He & Hr)];
      (apply establish_or_refuse_runs in He as [(est' & -> & -> & [= Hu] & ->)|(rf & a' & -> & [= <-] & -> & Hsp' & Ht)];
       [|..|intros rf ->; by destruct Hra as [e ->]]).
    + destruct Hra as [e ->]. split; [done|]. exists (looked_at prep). split; [apply looked_at_not_consumed|].
      apply refused_before_app, refused_before_app; [done..|]. split; [done|]. by exists S_ContinuationPrepared.
    + destruct Hra as [Hev' Hra]. rewrite Hev' in Hr. destruct Hr as [-> [= -> ->]]. cbn [app]. rewrite app_nil_r.
      split; [done|]. split; [by apply silent_app|]. split; [done|].
      split; [by apply prepared_leg_mono|by apply replay_admitted_mono].
Qed.

(** *** The signing window and the retirement *)

Lemma answerable_stage_runs px ex t r :
  runs (answerable_stage px ex) t r →
  ∃ snap, t = [Ev_signer snap] ∧
  match r with
  | Ok est => est_event est = E_DelegatedKeySnapshotted ∧
              window_open snap (ex_now ex) (px_sig_ttl_secs px) = Some (est_value est)
  | Err refusal => refusal = before_admission (taxonomy DelegatedSigningUnavailable) 503
  end.
Proof.
  unfold answerable_stage, signing_window. intros (t1 & w & t2 & -> & Hw & -> & ->)%runs_bind. rewrite app_nil_r.
  apply runs_bind in Hw as (t3 & snap & t4 & -> & ->%(runs_call Signer_load) & -> & ->).
  exists snap. split; [done|]. by destruct (window_open _ _ _).
Qed.

Lemma retire_runs px key t ret :
  runs (retire px key) t ret →
  match ret with
  | NotInvolved => t = [] ∧ (cp_store (px_continuations px) = true → key = None)
  | Retired => ∃ k, key = Some k ∧ t = [Ev_consume k (Ok true)]
  | AlreadyAnswered => ∃ k, key = Some k ∧ t = [Ev_consume k (Ok false)]
  | RetirementIndeterminate => ∃ k e, key = Some k ∧ t = [Ev_consume k (Err e)]
  end.
Proof.
  unfold retire. destruct (cp_store _), key as [k|]; try (by intros [-> ->]).
  intros (t1 & res & t2 & -> & ->%(runs_call (Continuation_consume _)) & -> & ->)%runs_bind.
  destruct res as [[]|e]; eauto.
Qed.

(** The continuation a request answers is retired, if it answers one. *)
Definition leg_retired px (key : option bytes) t : Prop :=
  cp_store (px_continuations px) = true → ∀ k, key = Some k → Ev_consume k (Ok true) ∈ t.

Lemma observe_retirement_runs px ex key ret t1 t2 c r p' :
  runs (retire px key) t1 ret →
  runs (observe_retirement px ex ret (reached S_Answerable c)) t2 (r, p') → c ≠ C_Consumed →
  ∃ c', spent (t1 ++ t2) = bool_decide (c' = C_Consumed) ∧
  match r with
  | Ok _ => t2 = [] ∧ silent t1 ∧ p' = reached S_Answerable c' ∧ leg_retired px key t1
  | Err a => refused_before px false (t1 ++ t2) a p' c'
  end.
Proof.
  assert (∀ c0, c0 ≠ C_Consumed → observe_continuation (reached S_Answerable c0) C_Consumed = reached S_Answerable C_Consumed)
    as Hobs by (by intros []).
  intros Hret%retire_runs Hr Hc. rewrite spent_app. destruct ret; cbn [observe_retirement] in Hr.
  - destruct Hret as [-> Hk], Hr as [-> [= -> ->]]. exists c. rewrite bool_decide_false by done.
    split; [done|]. split_and!; try done. intros Hs k Hk'. by rewrite (Hk Hs) in Hk'.
  - destruct Hret as (k & -> & ->), Hr as [-> [= -> ->]]. exists C_Consumed. rewrite Hobs by done.
    split; [done|]. split_and!; try done. intros Hs k' [= <-]. set_solver.
  - destruct Hret as (k & -> & ->). apply refuse_with_turned_away in Hr as (a & -> & -> & Hsp & Ht); [|done..].
    exists c. rewrite bool_decide_false by done. split; [done|]. apply refused_before_app; [done|]. split; [done|]. by eexists.
  - destruct Hret as (k & e & -> & ->).
    apply stage_bind_runs in Hr as [(a & _ & _ & ?)|(t3 & [] & p3 & t4 & -> & [-> [= ->]] & Hr)]; [done|].
    rewrite Hobs in Hr by done. apply refuse_with_turned_away in Hr as (a & -> & -> & Hsp & Ht); [|done..].
    exists C_Consumed. split; [done|]. apply refused_before_app; [done|]. split; [done|]. by exists S_Answerable.
Qed.

Lemma hold_answer_runs px ex prep c t r p' :
  c ≠ C_Consumed →
  runs (hold_answer px ex prep (reached S_ReplayAdmitted c)) t (r, p') →
  ∃ c', spent t = bool_decide (c' = C_Consumed) ∧
  match r with
  | Ok (w, ex') =>
      silent t ∧ p' = reached S_ContinuationRetired c' ∧ ex' = ex_with_key ex (sw_key w) ∧
      leg_retired px (prep_answer_key prep) t ∧
      ∃ snap, Ev_signer snap ∈ t ∧ window_open snap (ex_now ex) (px_sig_ttl_secs px) = Some w
  | Err a => refused_before px false t a p' c'
  end.
Proof.
  intros Hc. unfold hold_answer.
  intros [(a & _ & (x & _ & ?)%lift_runs)|(t1 & ? & ? & t2 & -> & (x & Hp & [= -> ->])%lift_runs & Hr)]%stage_bind_runs; [done|].
  apply answerable_stage_runs in Hp as (snap & -> & Hp).
  apply stage_bind_runs in Hr as [(a & -> & He)|(t3 & w & p3 & t4 & -> & He & Hr)];
    (apply establish_or_refuse_runs in He as [(est & -> & -> & [= ->] & ->)|(rf & a' & -> & [= <-] & -> & Hsp' & Ht)];
     [|..|intros rf ->; by subst rf]).
  - subst rf. exists c. rewrite bool_decide_false by done. split; [done|].
    apply (refused_before_app _ _ [_]); [done|]. split; [done|]. by eexists.
  - destruct Hp as [Hev Hw]. rewrite Hev in Hr. cbn [app].
    change (advance (reached S_ReplayAdmitted c) E_DelegatedKeySnapshotted) with (reached S_Answerable c) in Hr.
    apply stage_bind_runs in Hr as [(a & _ & (x & _ & ?)%lift_runs)|(t5 & ? & ? & t6 & -> & (ret & Hret & [= -> ->])%lift_runs & Hr)];
      [done|].
    apply stage_bind_runs in Hr as [(a & -> & Ho)|(t7 & [] & p7 & t8 & -> & Ho & Hr)];
      apply (observe_retirement_runs _ _ _ _ _ _ _ _ _ Hret) in Ho as (c' & Hsp & Ho); [|done| |done].
    + exists c'. split; [done|]. by apply (refused_before_app _ _ [_]).
    + destruct Ho as (-> & Hsi & -> & Hrd).
      apply stage_bind_runs in Hr as [(a & _ & _ & ?)|(t9 & [] & p9 & t10 & -> & [-> [= ->]] & -> & [= -> ->])]; [done|].
      cbn [app] in *. rewrite app_nil_r in *. exists c'. split; [done|].
      split; [by apply (silent_app [_])|]. split; [done|]. split; [done|]. split; [intros ???; set_solver|].
      exists snap. split; [set_solver|done].
Qed.

(** The continuation the request answers, if it answers one: found in the store, bound by the
    signed request, and taken out by this exchange. *)
Definition answers_leg px v (body : bytes) t : Prop :=
  ∀ c, rb_continuation (vr_request_block v) = Some c →
  ∃ state bases, extract_request_state body = Some state ∧
    Ev_peek (answer_key_of px v state) (Ok (Some bases)) ∈ t ∧
    continuation_verify c (previous_request_base bases) (input_required_response_base bases) state = Ok tt ∧
    Ev_consume (answer_key_of px v state) (Ok true) ∈ t.

Lemma leg_answered px ex prep t1 t2 :
  prepared_leg px ex t1 prep → leg_retired px (prep_answer_key prep) t2 →
  (∃ checked, prepare_http_dispatch (ex_verified ex) (prep_binding prep) = Ok (replay_key_of (ex_verified ex), checked)) →
  answers_leg px (ex_verified ex) (req_body (ex_http_req ex)) (t1 ++ t2).
Proof.
  intros [Hst Hk Hp] Hrd [chk Hph] c Hc. unfold prepare_http_dispatch in Hph. rewrite Hc in *. cbn in Hst.
  unfold prep_binding in Hph. destruct (prep_retained prep) as [bases|] eqn:Er; [|done].
  destruct (prep_answer_state prep) as [state|] eqn:Es; [|done]. cbn [fmap option_fmap option_map] in Hk.
  destruct (Hp bases eq_refl) as (Hcp & key & Hkey & Hpeek). rewrite Hk in Hkey. injection Hkey as <-.
  exists state, bases. split; [done|]. split; [set_solver|]. split; [|specialize (Hrd Hcp _ Hk); set_solver].
  cbn [from_correlation rc_previous_request_base rc_input_required_response_base rc_request_state] in Hph.
  by destruct (continuation_verify c _ _ _) as [[]|].
Qed.

Lemma commit_to_answering_runs px ex t r p' :
  ex_actor_id ex = actor_id_of (ex_verified ex) →
  runs (commit_to_answering px ex (reached S_AdmissionChecked C_NotInvolved)) t (r, p') →
  ∃ c', spent t = bool_decide (c' = C_Consumed) ∧
  match r with
  | Ok (w, ex') =>
      silent t ∧ p' = reached S_ContinuationRetired c' ∧ ex' = ex_with_key ex (sw_key w) ∧
      answers_leg px (ex_verified ex) (req_body (ex_http_req ex)) t ∧
      (∃ ctx, replay_admitted px (ex_verified ex) ctx (ex_now ex) t) ∧
      ∃ snap, Ev_signer snap ∈ t ∧ window_open snap (ex_now ex) (px_sig_ttl_secs px) = Some w
  | Err a => refused_before px false t a p' c'
  end.
Proof.
  intros Ha [(a & -> & Hr)|(t1 & prep & p1 & t2 & -> & Hr & Hh)]%stage_bind_runs;
    apply (admit_replay_runs _ _ _ _ _ Ha) in Hr as [Hsp Hr].
  - destruct Hr as (c & Hc & Hr). exists c. rewrite bool_decide_false by done. done.
  - destruct Hr as (Hsi & -> & Hleg & Hra). rewrite spent_app, Hsp.
    apply hold_answer_runs in Hh as (c' & Hsp' & Hh); [|apply looked_at_not_consumed].
    exists c'. split; [done|]. destruct r as [[w ex']|a].
    + destruct Hh as (Hsi' & -> & -> & Hrd & snap & Hs & Hw). split; [by apply silent_app|]. split; [done|].
      split; [done|]. destruct Hra as [Hd Hcl Hph Hf]. split; [by eapply leg_answered|].
      split; [|exists snap; split; [set_solver|done]]. eexists. split; [done..|exact Hph|set_solver].
    + by apply refused_before_app.
Qed.

(** *** The body, the backend's acceptance and the evidence store *)

Lemma pre_dispatch_turned_away {T} px ex e p t0 t (r : Result T Answer) p' :
  dispatched t0 = false → audits t0 = [] →
  unresolved t0 = (match e with RE_Unresolved _ => true | _ => false end) →
  runs (refuse_with px ex (pre_dispatch_refusal e) p) t (r, p') →
  ∃ a, r = Err a ∧ p' = p ∧ spent t = false ∧ turned_away px true (t0 ++ t) a p.
Proof.
  intros Hd0 Ha0 Hu0 (resp & subject & -> & -> & Ho & Ha & Hs)%refuse_with_runs.
  destruct (receipt_only_silent _ Ho) as (Hd & Hsp & Hu).
  eexists. split; [done|]. split; [done|]. split; [done|]. split; [by rewrite dispatched_app, Hd0|].
  rewrite unresolved_app, audits_app, Hu0, Hu, Ha0, orb_false_r.
  exists (rf_cause (pre_dispatch_refusal e)), resp, subject. by destruct e.
Qed.

(** The exchange is in the evidence store, which will not lose it. *)
Definition retention_committed px (http_req : HttpRequest) (owed : RetentionDisposition) t : Prop :=
  if px_retention px
  then ∃ reservation crossing, Ev_reserve http_req (Ok reservation) ∈ t ∧ Ev_commit reservation (Ok crossing) ∈ t ∧
         owed = RD_Committed crossing
  else owed = RD_NotConfigured.

Lemma commit_retention_runs px ex c t r p' :
  runs (commit_retention px ex (reached S_InnerPlaneAccepted c)) t (r, p') →
  spent t = false ∧
  match r with
  | Ok owed => silent t ∧ p' = reached S_RetentionCommitted c ∧ retention_committed px (ex_http_req ex) owed t
  | Err a => refused_before px true t a p' c
  end.
Proof.
  unfold commit_retention, retention_committed, retention_reserve.
  intros [(a & _ & (x & _ & ?)%lift_runs)|(t1 & ? & ? & t2 & -> & (x & Hp & [= -> ->])%lift_runs & Hr)]%stage_bind_runs; [done|].
  destruct (px_retention px); cbn [negb] in Hp.
  - apply runs_bind in Hp as (t3 & res & t4 & -> & ->%(runs_call (Evidence_reserve _)) & -> & ->). rewrite app_nil_r.
    cbn [event_of]. destruct res as [reservation|e]; cycle 1.
    { apply (pre_dispatch_turned_away _ _ _ _ [Ev_reserve (ex_http_req ex) (Err e)]) in Hr as (a & -> & -> & Hsp & Ht);
        [|done|done|by destruct e].
      split; [done|]. split; [done|]. by exists S_InnerPlaneAccepted. }
    apply stage_bind_runs in Hr as [(a & _ & (x & _ & ?)%lift_runs)|(t3 & ? & ? & t4 & -> & (x & Hp & [= -> ->])%lift_runs & Hr)];
      [done|]. cbn [retention_commit] in Hp.
    apply runs_bind in Hp as (t5 & com & t6 & -> & ->%(runs_call (Evidence_commit _)) & -> & ->). rewrite app_nil_r.
    cbn [event_of]. destruct com as [crossing|e].
    + destruct Hr as [-> [= -> ->]]. split; [done|]. split; [done|]. split; [done|]. exists reservation, crossing. set_solver.
    + apply (pre_dispatch_turned_away _ _ _ _ [Ev_reserve (ex_http_req ex) (Ok reservation); Ev_commit reservation (Err e)])
        in Hr as (a & -> & -> & Hsp & Ht); [|done|done|by destruct e].
      split; [done|]. split; [done|]. by exists S_InnerPlaneAccepted.
  - destruct Hp as [-> ->].
    apply stage_bind_runs in Hr as [(a & _ & (x & _ & ?)%lift_runs)|(t3 & ? & ? & t4 & -> & (x & Hp & [= -> ->])%lift_runs & Hr)];
      [done|]. destruct Hp as [-> ->]. by destruct Hr as [-> [= -> ->]].
Qed.

(** What [commit_to_dispatch] has secured when the backend may be reached. *)
Record secured px (http_req : HttpRequest) v (now : Z) (w : SigningWindow) (prepared : PreparedInnerDispatch)
    (owed : RetentionDisposition) t : Prop := {
  sec_forwarded : ∃ fwd, forwarded_prepare (req_body http_req) v (px_verified_context_policy px) now = Ok fwd ∧
                    pid_body prepared = fwd_body fwd;
  sec_prepared : Ev_prepare (pid_body prepared) (Ok (pid_completion_bound prepared)) ∈ t;
  sec_covered : window_covers w (pid_completion_bound prepared) = true;
  sec_retention : retention_committed px http_req owed t;
}.

Lemma retention_committed_mono px req owed t t' : retention_committed px req owed t → retention_committed px req owed (t' ++ t).
Proof. unfold retention_committed. destruct (px_retention px); [|done]. intros (r & c & ? & ? & ?). exists r, c. set_solver. Qed.

Lemma commit_to_dispatch_runs px ex authorized w c t r p' :
  runs (commit_to_dispatch px ex authorized w (reached S_ContinuationRetired c)) t (r, p') →
  spent t = false ∧
  match r with
  | Ok (prepared, owed) => silent t ∧ p' = reached S_RetentionCommitted c ∧ secured px (ex_http_req ex) (ex_verified ex) (ex_now ex) w prepared owed t
  | Err a => refused_before px true t a p' c
  end.
Proof.
  unfold commit_to_dispatch, forward_body_stage. destruct (forwarded_prepare _ _ _ _) as [fwd|e] eqn:Efw; cycle 1.
  { intros (a & -> & -> & Hsp & Ht)%refused_bind_runs; [|done..]. split; [done|]. split; [done|]. by exists S_ContinuationRetired. }
  intros (t1 & x & t2 & -> & Hp & Hr)%established_bind_runs%lift_bind_runs. cbn [est_value est_event] in *.
  unfold inner_prepare in Hp. apply runs_bind in Hp as (t5 & res & t6 & -> & ->%(runs_call (Inner_prepare _)) & -> & ->).
  cbn [release arb_body event_of app] in *. destruct res as [bound|e]; cycle 1.
  { apply refused_bind_runs in Hr as (a & -> & -> & Hsp & Ht); [|done..]. split; [done|].
    apply (refused_before_app _ _ [_]); [done|]. split; [done|]. by exists S_Forwarded. }
  apply established_bind_runs in Hr. cbn [est_value est_event pid_completion_bound] in Hr.
  destruct (window_covers w bound) eqn:Ec; cbn [negb] in Hr; cycle 1.
  { apply refuse_with_turned_away in Hr as (a' & -> & -> & Hsp & Ht); [|done..]. split; [done|].
    apply (refused_before_app _ _ [_]); [done|]. split; [done|]. by exists S_InnerPlaneAccepted. }
  apply stage_bind_runs in Hr as [(a & -> & [Hsp Hr]%commit_retention_runs)|(t5 & owed & ? & t6 & -> & [Hsp Hr]%commit_retention_runs & Hf)].
  - split; [done|]. by apply (refused_before_app _ _ [_]).
  - destruct Hf as [-> [= -> ->]]. rewrite app_nil_r. destruct Hr as (Hsi & -> & Hret).
    split; [done|]. split; [by apply (silent_app [_])|]. split; [done|].
    split; cbn [pid_body pid_completion_bound]; [by exists fwd|by left|done|by apply (retention_committed_mono _ _ _ _ [_])].
Qed.
End gates.

(** ** After the backend *)

Section replies.
Context `{Base64, Sha2, Ed25519, JsonTree, F64Carrier, ChannelPeer P}.
Context `{!Serde HttpRequestEvidenceBlock, !Serde HttpResponseEvidenceBlock, !Serde VerifiedContext}.
Context `{!Serde AdmissionHeader, !Serde AdmissionClaims}.
Implicit Types (px : HttpProfileProxy (P := P)) (ex : Exchange) (t : list Event) (v : VerifiedMcpRequest).

(** The progress of an exchange whose request reached the backend. *)
Definition past_dispatch (p : ExchangeProgress) : Prop :=
  anomaly p = None ∧ backend_may_have_executed (request p) = true.

Lemma past_dispatch_disposition p refined : past_dispatch p → disposition p refined = PossiblyExecuted.
Proof. intros [Ha Hb]. unfold disposition, progress_retry_semantics. by rewrite Ha, Hb. Qed.

(** A rejection of the response. *)
Definition failed_after px t (a : Answer) (p : ExchangeProgress) : Prop :=
  dispatched t = false ∧ past_dispatch p ∧
  ∃ cause resp, a = Rejected cause PossiblyExecuted resp ∧ cause ≠ taxonomy ExchangeInvariantViolation ∧
    audits t = audited px (subject_response_rejected (cause_core_verdict cause)).

Lemma failed_after_app px t1 t2 a p : silent t1 → failed_after px t2 a p → failed_after px (t1 ++ t2) a p.
Proof.
  intros (Hd & _ & Ha) [Hd2 Hf]. unfold failed_after. by rewrite dispatched_app, audits_app, Hd, Ha, Hd2.
Qed.

Lemma response_rejection_failed px req cause status now bound actor p snapshot t a :
  runs (response_rejection px req cause status now bound actor (disposition p None) snapshot) t a →
  past_dispatch p → cause ≠ taxonomy ExchangeInvariantViolation → failed_after px t a p.
Proof.
  intros (resp & -> & Ho & Ha)%response_rejection_runs Hp Hc. rewrite (past_dispatch_disposition _ _ Hp).
  destruct (receipt_only_silent _ Ho) as (Hd & _). split; [done|]. split; [done|]. by exists cause, resp.
Qed.
Lemma refuse_failed px ex refusal p t a :
  runs (refuse px ex refusal p) t a → past_dispatch p → accepted_posture refusal = true →
  rf_cause refusal ≠ taxonomy ExchangeInvariantViolation → failed_after px t a p.
Proof.
  intros (resp & subject & -> & Ho & Ha & Hs)%refuse_runs Hp Hpo Hc. rewrite (past_dispatch_disposition _ _ Hp).
  destruct (receipt_only_silent _ Ho) as (Hd & _). rewrite Hpo in Hs. cbn in Hs. subst subject.
  split; [done|]. split; [done|]. by exists (rf_cause refusal), resp.
Qed.
Lemma refuse_with_failed {T} px ex refusal p t (r : Result T Answer) p' :
  runs (refuse_with px ex refusal p) t (r, p') → past_dispatch p → accepted_posture refusal = true →
  rf_cause refusal ≠ taxonomy ExchangeInvariantViolation → ∃ a, r = Err a ∧ p' = p ∧ failed_after px t a p.
Proof.
  intros (t1 & a & t2 & -> & Hr & -> & [= -> ->])%runs_bind Hp Hpo Hc. rewrite app_nil_r.
  exists a. split; [done|]. split; [done|]. by eapply refuse_failed.
Qed.

(** Completing the evidence touches neither the backend nor the log. *)
Lemma retention_complete_runs owed resp t o :
  runs (retention_complete owed resp) t o →
  silent t ∧
  match o with
  | RO_NotConfigured => owed = RD_NotConfigured
  | RO_Retained => ∃ crossing, owed = RD_Committed crossing ∧ Ev_complete crossing resp (Ok tt) ∈ t
  | RO_Failed => ∃ crossing e, owed = RD_Committed crossing ∧ Ev_complete crossing resp (Err e) ∈ t
  end.
Proof.
  destruct owed as [|crossing]; cbn [retention_complete]; [by intros [-> ->]|].
  intros (t1 & res & t2 & -> & ->%(runs_call (Evidence_complete _ _)) & -> & ->)%runs_bind.
  split; [done|]. destruct res as [[]|e]; cbn; [exists crossing|exists crossing, e]; set_solver.
Qed.

Lemma refuse_retained_failed {T} px ex refusal owed p t (r : Result T Answer) p' :
  runs (refuse_retained px ex refusal owed p) t (r, p') → past_dispatch p → accepted_posture refusal = true →
  rf_cause refusal ≠ taxonomy ExchangeInvariantViolation → ∃ a, r = Err a ∧ p' = p ∧ failed_after px t a p.
Proof.
  intros (t1 & a & t2 & -> & Hr & Hc)%runs_bind Hp Hpo Hne.
  apply runs_bind in Hc as (t3 & o & t4 & -> & [(Hd & _ & Ha) _]%retention_complete_runs & -> & [= -> ->]).
  apply refuse_failed in Hr as (Hd1 & Hp1 & cause & resp & -> & Hc1 & Ha1); [|done..].
  eexists. split; [done|]. split; [done|]. split; [by rewrite app_nil_r, dispatched_app, Hd1, Hd|]. split; [done|].
  exists cause, resp. by rewrite app_nil_r, audits_app, Ha1, Ha, app_nil_r.
Qed.

(** The response is in the evidence store, if there is one. *)
Definition retained (owed : RetentionDisposition) (resp : HttpResponse) t : Prop :=
  match owed with RD_NotConfigured => True | RD_Committed crossing => Ev_complete crossing resp (Ok tt) ∈ t end.

Lemma retain_accepted_runs px req resp now bound who owed p snapshot t ra :
  runs (retain_accepted px req resp now bound who owed (disposition p None) snapshot) t ra → past_dispatch p →
  match ra with
  | None => silent t ∧ retained owed resp t
  | Some a => failed_after px t a p
  end.
Proof.
  unfold retain_accepted. intros (t1 & o & t2 & -> & [Hsi Ho]%retention_complete_runs & Hr)%runs_bind Hp.
  destruct o; cbn [is_accounted_for] in Hr.
  - destruct Hr as [-> ->]. subst owed. by rewrite app_nil_r.
  - destruct Hr as [-> ->]. destruct Ho as (crossing & -> & Hin). by rewrite app_nil_r.
  - apply runs_bind in Hr as (t3 & a & t4 & -> & Hr & -> & ->). rewrite app_nil_r.
    apply response_rejection_failed in Hr; [|done..]. by apply failed_after_app.
Qed.

Definition past (s : ExchangeState) (c : ContinuationState) (o : ResponseOrigin) (l : OpenLeg) : ExchangeProgress :=
  mkProgress s c B_Dispatched o l None.

(** *** The reply *)

Lemma create_attempts_runs n key bases ttl t r :
  runs (create_attempts n key bases ttl) t r →
  silent t ∧
  match r with
  | Ok est => est = mkEstablished tt E_OpenLegRecorded ∧ Ev_create key bases ttl (Ok Stored) ∈ t
  | Err refusal => accepted_posture refusal = true ∧ rf_cause refusal ≠ taxonomy ExchangeInvariantViolation
  end.
Proof.
  revert t. induction n as [|n IH]; intros t; [by intros [-> ->]|]. cbn [create_attempts].
  intros (t1 & res & t2 & -> & ->%(runs_call (Continuation_create _ _ _)) & Hr)%runs_bind. cbn [app event_of].
  destruct res as [[]|e]; [destruct Hr as [-> ->]..|].
  - split; [done|]. split; [done|]. by left.
  - done.
  - apply IH in Hr as [Hsi Hr]. split; [by apply (silent_app [_])|]. destruct r; [|done]. split; [apply Hr|]. right. apply Hr.
Qed.

(** The leg an answer opens is in the store before the answer is sent. *)
Definition leg_recorded px v (class : ReplyClass) (response_base : bytes) t : Prop :=
  match class with
  | ReplyTerminal => True
  | ReplyOpen state =>
      Ev_create (answer_key_of px v state)
        {| previous_request_base := fr_request_signature_base (vr_floor v);
           input_required_response_base := response_base |}
        (cp_ttl_secs (px_continuations px)) (Ok Stored) ∈ t
  end.

Lemma record_open_leg_runs px ex state base t r :
  ex_actor_id ex = actor_id_of (ex_verified ex) →
  runs (record_open_leg px ex state base) t r →
  silent t ∧
  match r with
  | Ok est => est = mkEstablished tt E_OpenLegRecorded ∧ leg_recorded px (ex_verified ex) (ReplyOpen state) base t
  | Err refusal => accepted_posture refusal = true ∧ rf_cause refusal ≠ taxonomy ExchangeInvariantViolation
  end.
Proof.
  unfold record_open_leg, leg_recorded, answer_key_of. intros ->. destruct (cp_store _); cbn [negb].
  - apply create_attempts_runs.
  - by intros [-> ->].
Qed.

Definition leg_required (class : ReplyClass) : OpenLeg :=
  match class with ReplyTerminal => L_NotApplicable | ReplyOpen _ => L_Required end.
Definition leg_settled (class : ReplyClass) : OpenLeg :=
  match class with ReplyTerminal => L_NotApplicable | ReplyOpen _ => L_Recorded end.

Lemma record_continuation_leg_runs px ex class base c t r p' :
  ex_actor_id ex = actor_id_of (ex_verified ex) →
  runs (record_continuation_leg px ex class base (past S_ResponseSigned c O_BackendReplied (leg_required class))) t (r, p') →
  match r with
  | Ok _ => silent t ∧ p' = past S_ContinuationSettled c O_BackendReplied (leg_settled class) ∧ leg_recorded px (ex_verified ex) class base t
  | Err a => failed_after px t a p'
  end.
Proof.
  intros Ha. destruct class as [|state]; cbn [record_continuation_leg]; [by intros [-> [= -> ->]]|].
  intros (t1 & x & t2 & -> & [Hsi Hx]%(record_open_leg_runs _ _ _ _ _ _ Ha) & Hr)%lift_bind_runs.
  destruct x as [est|rf].
  - destruct Hx as [-> Hrec]. apply on_progress_bind_runs in Hr. destruct Hr as [-> [= -> ->]].
    rewrite app_nil_r. split; [done|]. split; [done|]. done.
  - apply refuse_with_failed in Hr as (a & -> & -> & Hf); [|done|apply Hx..]. by apply failed_after_app.
Qed.

(** The answer is the backend's reply to this request, well formed, and signed for it. *)
Record answers_request px (http_req : HttpRequest) v (outstanding : OutstandingId) (w : SigningWindow)
    (outcome : DispatchedOutcome) (reply : SignedReply) t : Prop := {
  ans_replied : ∃ body validated response_base, outcome = Replied body ∧
    validated_reply (json_response body) outstanding = Ok validated ∧ classify validated = Ok (sr_class reply) ∧
    sign_delegated_response_full (json_response body) http_req (fr_evidence (vr_floor v))
      (ak_server_signer (sw_key w)) (ak_credential (sw_key w)) (ak_key (sw_key w)) (ak_delegated_kid (sw_key w))
      (sw_created w) (sw_expires w) = (sr_response reply, Ok response_base) ∧
    leg_recorded px v (sr_class reply) response_base t;
}.

Lemma validated_reply_refusal resp outstanding rf :
  validated_reply resp outstanding = Err rf →
  accepted_posture rf = true ∧ rf_cause rf ≠ taxonomy ExchangeInvariantViolation.
Proof.
  unfold validated_reply. destruct (parse_response_body (resp_body resp)) as [v|e]; cbn [map_err].
  - destruct (validate_response_envelope _ _) as [?|[]]; by intros [= <-].
  - destruct e; by intros [= <-].
Qed.
Lemma classify_refusal reply rf :
  classify reply = Err rf → accepted_posture rf = true ∧ rf_cause rf ≠ taxonomy ExchangeInvariantViolation.
Proof.
  unfold classify. destruct (classify_result_type _); [done| |by intros [= <-]].
  destruct (input_required_state_of _) as [[]|]; by intros [= <-].
Qed.

Lemma read_reply_runs px ex owed body outstanding c t r p' :
  runs (observing px ex owed (read_reply (json_response body) outstanding)
          (past S_ResponseObserved c O_BackendReplied L_NotApplicable)) t (r, p') →
  match r with
  | Ok class => t = [] ∧ p' = past S_ResponseClassified c O_BackendReplied (leg_required class) ∧
      ∃ validated, validated_reply (json_response body) outstanding = Ok validated ∧ classify validated = Ok class
  | Err a => failed_after px t a p'
  end.
Proof.
  unfold observing, read_reply. destruct (validated_reply _ _) as [vr|rf] eqn:Ev.
  - cbn [establish est_value est_event]. destruct (classify vr) as [class|rf] eqn:Ec.
    + intros [-> [= -> ->]]. split; [done|]. split; [by destruct class|]. eauto.
    + apply classify_refusal in Ec as [Hpo Hc]. intros (a & -> & -> & Hf)%refuse_retained_failed; done.
  - apply validated_reply_refusal in Ev as [Hpo Hc]. intros (a & -> & -> & Hf)%refuse_retained_failed; done.
Qed.

Lemma assemble_reply_runs px ex outcome outstanding w owed c t r p' :
  ex_actor_id ex = actor_id_of (ex_verified ex) →
  runs (assemble_reply px ex outcome outstanding w owed (reached S_Dispatched c)) t (r, p') →
  match r with
  | Ok reply => silent t ∧ p' = past S_ContinuationSettled c O_BackendReplied (leg_settled (sr_class reply)) ∧
                answers_request px (ex_http_req ex) (ex_verified ex) outstanding w outcome reply t
  | Err a => failed_after px t a p'
  end.
Proof.
  intros Ha [(a & -> & Hr)|(t1 & est & p1 & t2 & -> & Hr & Hk)]%stage_bind_runs; unfold observing in Hr.
  { destruct outcome as [body|why|clause]; cbn [observe_reply] in Hr; [by destruct Hr|..];
      apply refuse_retained_failed in Hr as (a' & [= <-] & -> & Hf); done. }
  destruct outcome as [body|why|clause]; cbn [observe_reply] in Hr;
    [|apply refuse_retained_failed in Hr as (a' & ? & _); done..].
  destruct Hr as [-> [= -> ->]]. apply established_bind_runs in Hk. cbn [est_value est_event app] in *.
  apply stage_bind_runs in Hk as [(a & -> & Hr)|(t3 & class & p3 & t4 & -> & Hr & Hk)];
    apply read_reply_runs in Hr; [done|]. destruct Hr as (-> & -> & vr & Hvr & Hcl). cbn [app].
  unfold sign_reply in Hk. destruct (sign_delegated_response_full _ _ _ _ _ _ _ _ _) as [resp [base|e]] eqn:Es; cycle 1.
  { apply stage_bind_runs in Hk as [(a & -> & Hr)|(? & ? & ? & ? & _ & Hr & _)];
      apply refuse_with_failed in Hr as (a' & [= <-] & -> & Hf); done. }
  apply established_bind_runs in Hk. cbn [est_value est_event] in Hk.
  apply stage_bind_runs in Hk as [(a & -> & Hr)|(t5 & [] & p5 & t6 & -> & Hr & Hk)];
    apply (record_continuation_leg_runs _ _ _ _ _ _ _ _ Ha) in Hr; [done|].
  destruct Hr as (Hsi & -> & Hleg), Hk as [-> [= -> ->]]. rewrite app_nil_r. split; [done|]. split; [done|].
  split. exists body, vr, base. done.
Qed.

(** *** Publication *)

Definition completed (class : ReplyClass) : ExchangeState :=
  match class with ReplyTerminal => S_CompletedTerminal | ReplyOpen _ => S_CompletedContinuationOpen end.

Lemma serve_retained_runs px ex reply owed c t r p' :
  runs (serve_retained px ex reply owed (past S_ContinuationSettled c O_BackendReplied (leg_settled (sr_class reply)))) t (r, p') →
  match r with
  | Ok a => a = Served (sr_response reply) ∧ dispatched t = false ∧ audits t = audited px subject_response_signed ∧
            retained owed (sr_response reply) t ∧
            p' = past (completed (sr_class reply)) c O_BackendReplied (leg_settled (sr_class reply))
  | Err a => failed_after px t a p'
  end.
Proof.
  unfold serve_retained. set (p := past _ c _ _).
  assert (may_publish p (success_of (sr_class reply)) = (Ok tt, p)) as -> by (by subst p; destruct (sr_class reply)).
  intros (t1 & ra & t2 & -> & Hra & Hr)%runs_bind. apply retain_accepted_runs in Hra; [|done].
  destruct ra as [a|]; [by destruct Hr as [-> [= -> ->]]; rewrite app_nil_r|].
  destruct Hra as [(Hd & _ & Ha) Hret].
  apply runs_bind in Hr as (t3 & [] & t4 & -> & [Ho Ha3]%record_to_receipt & -> & [= -> ->]). rewrite app_nil_r.
  destruct (receipt_only_silent _ Ho) as (Hd3 & _). split; [done|]. split; [by rewrite dispatched_app, Hd|].
  split; [by rewrite audits_app, Ha|]. split; [|by subst p; destruct (sr_class reply)].
  destruct owed; [done|]. cbn in *. set_solver.
Qed.

Lemma failed_not_served px t a p (Q : HttpResponse → Prop) :
  failed_after px t a p → match a with Served resp => Q resp | Rejected _ _ _ => failed_after px t a p end.
Proof. intros Hf. destruct a; [|done]. by destruct Hf as (_ & _ & ? & ? & ? & _). Qed.

Lemma answer_notification_runs px ex w owed p t a :
  runs (answer_notification px ex w owed (disposition p None)) t a → past_dispatch p →
  match a with
  | Served resp => dispatched t = false ∧ audits t = audited px subject_response_signed ∧ retained owed resp t ∧
      sign_delegated_accepted_202 (ex_http_req ex) (ak_credential (sw_key w)) (ak_key (sw_key w))
        (ak_delegated_kid (sw_key w)) (sw_created w) (sw_expires w) = Ok resp
  | Rejected _ _ _ => failed_after px t a p
  end.
Proof.
  unfold answer_notification. destruct (sign_delegated_accepted_202 _ _ _ _ _ _) as [ack|e]; intros Hr Hp; cycle 1.
  { apply response_rejection_failed in Hr; [|done..]. by apply failed_not_served. }
  apply runs_bind in Hr as (t1 & ra & t2 & -> & Hra & Hr). apply retain_accepted_runs in Hra; [|done].
  destruct ra as [a'|].
  { destruct Hr as [-> ->]. rewrite app_nil_r. by apply failed_not_served. }
  destruct Hra as [(Hd & _ & Ha) Hret].
  apply runs_bind in Hr as (t3 & [] & t4 & -> & [Ho Ha3]%record_to_receipt & -> & ->). rewrite app_nil_r.
  destruct (receipt_only_silent _ Ho) as (Hd3 & _). split; [by rewrite dispatched_app, Hd|].
  split; [by rewrite audits_app, Ha|]. split; [|done]. destruct owed; [done|]. cbn in *. set_solver.
Qed.

(** What the client was sent, by the kind of the request. *)
Definition publishes px (http_req : HttpRequest) v (admitted : AdmittedRequest (P := P)) (w : SigningWindow)
    (outcome : DispatchedOutcome) (resp : HttpResponse) t (p : ExchangeProgress) : Prop :=
  match adm_outstanding admitted with
  | Notification =>
      (∀ why, outcome ≠ Indeterminate why) ∧ request p = S_AcknowledgedNotification ∧
      sign_delegated_accepted_202 http_req (ak_credential (sw_key w)) (ak_key (sw_key w))
        (ak_delegated_kid (sw_key w)) (sw_created w) (sw_expires w) = Ok resp
  | outstanding =>
      ∃ reply, sr_response reply = resp ∧ request p = completed (sr_class reply) ∧
        answers_request px http_req v outstanding w outcome reply t
  end.

Definition replied px (http_req : HttpRequest) v (admitted : AdmittedRequest (P := P)) (w : SigningWindow)
    (owed : RetentionDisposition) (outcome : DispatchedOutcome) t (a : Answer) (p : ExchangeProgress) : Prop :=
  match a with
  | Served resp => dispatched t = false ∧ audits t = audited px subject_response_signed ∧ retained owed resp t ∧
                   anomaly p = None ∧ publishes px http_req v admitted w outcome resp t p
  | Rejected _ _ _ => failed_after px t a p
  end.
Lemma failed_replied px http_req v admitted w owed outcome t a p :
  failed_after px t a p → replied px http_req v admitted w owed outcome t a p.
Proof. apply failed_not_served. Qed.

Definition answer_of (r : Result Answer Answer) : Answer := match r with Ok a | Err a => a end.

Lemma answer_notification_terminal_runs px ex admitted outcome w owed c t r p' :
  adm_outstanding admitted = Notification →
  runs (answer_notification_terminal px ex outcome w owed (reached S_Dispatched c)) t (r, p') →
  replied px (ex_http_req ex) (ex_verified ex) admitted w owed outcome t (answer_of r) p'.
Proof.
  intros Hn [(a & -> & Hr)|(t1 & est & p1 & t2 & -> & Hr & Hk)]%stage_bind_runs; unfold observing in Hr.
  { apply failed_replied. destruct outcome as [body|why|clause]; cbn [observe_acknowledgement] in Hr; [by destruct Hr|..|by destruct Hr].
    apply refuse_retained_failed in Hr as (a' & [= <-] & -> & Hf); done. }
  assert (t1 = [] ∧ p1 = past S_Dispatched c O_BackendReplied L_NotApplicable ∧ est = mkEstablished tt E_NotificationAcknowledged ∧
          ∀ why, outcome ≠ Indeterminate why) as (-> & -> & -> & Hout).
  { destruct outcome as [body|why|clause]; cbn [observe_acknowledgement] in Hr; [by destruct Hr as [-> [= -> ->]]|..|by destruct Hr as [-> [= -> ->]]].
    apply refuse_retained_failed in Hr as (a' & ? & _); done. }
  cbn [app]. set (p := past _ _ _ _) in Hk.
  assert (establish_terminal p (mkEstablished tt E_NotificationAcknowledged) =
          (Ok tt, past S_AcknowledgedNotification c O_BackendReplied L_NotApplicable)) as Heq by done.
  rewrite Heq in Hk. apply runs_bind in Hk as (t3 & a & t4 & -> & Hr' & -> & [= -> ->]). rewrite app_nil_r.
  apply answer_notification_runs in Hr'; [|done]. cbn [answer_of]. destruct a as [resp|]; [|done].
  destruct Hr' as (Hd & Ha & Hret & Hsig). split; [done|]. split; [done|]. split; [done|]. split; [done|].
  unfold publishes. rewrite Hn. done.
Qed.

Lemma reply_to_runs px ex admitted outcome w owed c t r p' :
  ex_actor_id ex = actor_id_of (ex_verified ex) →
  runs (reply_to px ex admitted outcome w owed (reached S_Dispatched c)) t (r, p') →
  replied px (ex_http_req ex) (ex_verified ex) admitted w owed outcome t (answer_of r) p'.
Proof.
  intros Ha. unfold reply_to. destruct (adm_outstanding admitted) as [id|] eqn:Eo;
    [|by apply answer_notification_terminal_runs].
  intros [(a & -> & Hr)|(t1 & reply & p1 & t2 & -> & Hr & Hk)]%stage_bind_runs;
    apply (assemble_reply_runs _ _ _ _ _ _ _ _ _ _ Ha) in Hr; [by apply failed_replied|].
  destruct Hr as (Hsi & -> & Hans). apply serve_retained_runs in Hk. destruct r as [a|a]; cbn [answer_of].
  - destruct Hk as (-> & Hd & Hau & Hret & ->), Hsi as (Hd1 & _ & Ha1).
    split; [by rewrite dispatched_app, Hd1|]. split; [by rewrite audits_app, Ha1|].
    split; [destruct owed; [done|]; cbn in *; set_solver|]. split; [done|].
    unfold publishes. rewrite Eo. exists reply. split; [done|]. split; [done|].
    destruct Hans as [(body & vr & base & ? & ? & ? & ? & Hleg)]. split. exists body, vr, base.
    split; [done|]. split; [done|]. split; [done|]. split; [done|].
    destruct (sr_class reply); [done|]. cbn in *. set_solver.
  - by apply failed_replied, failed_after_app.
Qed.
End replies.

(** ** What a rejection says

    A client reads the receipt out of the body it was served. Whatever ends an exchange in a rejection, the body
    states the wire code of the cause and what the disposition claims, signed or not. *)

Section statements.
Context `{Base64, Sha2, Ed25519, JsonTreeLaws, !SerdeJsonLaws, F64Carrier, ChannelPeer P}.
Context `{!Serde HttpRequestEvidenceBlock, !Serde HttpResponseEvidenceBlock, !Serde VerifiedContext}.
Context `{!Serde AdmissionHeader, !Serde AdmissionClaims}.
Implicit Types (px : HttpProfileProxy (P := P)) (ex : Exchange) (t : list Event).

(** [serde_json::to_vec] of a [Value] has no case that fails. *)
Hypothesis prints : ∀ v : Value, is_Some (to_vec v).

(** The contract a wire code and a disposition make, as the client reads it. *)
Definition contract_of (wire : bytes) (execution : ExecutionDisposition) : ExecutionContract :=
  stated_contract {| rr_wire_code := wire; rr_message := []; rr_execution := execution |}.
Definition states (resp : HttpResponse) (wire : bytes) (execution : ExecutionDisposition) : Prop :=
  rejection_receipt (resp_body resp) = (Some wire, contract_of wire execution).
Definition truthful (a : Answer) : Prop :=
  match a with Served _ => True | Rejected cause execution resp => states resp (cause_wire_code cause) execution end.

(** A rejection body with an evidence block added is read as the rejection it is. *)
Lemma rejection_with_block_states {T} `{!Serde T} id reason key (block : T) body resp :
  insert_meta_block (rejection_body id reason) key block = Ok body → resp_body resp = body →
  states resp (rr_wire_code reason) (rr_execution reason).
Proof.
  intros Hi Hb. unfold states. rewrite Hb. destruct (rejection_body_members id reason) as (obj & Hobj & _).
  destruct (insert_meta_block_members _ _ _ _ _ Hobj Hi) as (obj' & Hobj' & Hsame).
  rewrite (rejection_receipt_of _ obj' id reason); [done|done|]. intros obj0 Ho. rewrite Hobj in Ho. injection Ho as Ho.
  apply (f_equal as_object) in Ho. rewrite !as_object_Object in Ho. injection Ho as <-. by apply Hsame.
Qed.

Lemma unsigned_error_states status wire execution : states (unsigned_error status wire execution) wire execution.
Proof.
  unfold states, unsigned_error. cbn [resp_body]. match goal with |- context [to_vec ?v] => destruct (prints v) as [b Hb] end.
  rewrite Hb. cbn [default id]. apply from_slice_to_vec in Hb.
  apply (rejection_receipt_reads _ _ (with_execution (RejectionReason_new wire []) execution) Hb).
  rewrite lookup_insert_ne, lookup_insert_eq by done. cbn [mbind option_bind].
  rewrite json_get_Object, !lookup_insert_ne, lookup_singleton_eq by done. cbn [mbind option_bind].
  by rewrite json_get_Object, lookup_singleton_eq.
Qed.

Lemma signed_unbound_body s key kid created expires s' res :
  sign_response_unbound s key kid created expires = (s', res) → resp_body s' = resp_body s.
Proof. unfold sign_response_unbound. intros Hs. repeat case_match; by simplify_eq/=. Qed.

Lemma rejection_under_states w request wire status bound execution resp :
  rejection_under w request wire status bound execution = Ok resp → states resp wire execution.
Proof.
  unfold rejection_under. destruct bound as [ev|].
  - unfold build_delegated_rejection, sign_delegated_response_full. destruct (insert_meta_block _ _ _) as [body|] eqn:Hi; [|done].
    destruct (sign_response_with_signer _ _ _ _ _ _) as [s' [base|]] eqn:Hs; [|done]. intros [= <-].
    apply signed_response_body in Hs. exact (rejection_with_block_states _ _ _ _ _ _ Hi Hs).
  - unfold build_delegated_rejection_preflight, sign_delegated_response_unbound.
    destruct (insert_meta_block _ _ _) as [body|] eqn:Hi; [|done].
    destruct (sign_response_unbound _ _ _ _ _) as [s' [base|]] eqn:Hs; [|done]. intros [= <-].
    apply signed_unbound_body in Hs. exact (rejection_with_block_states _ _ _ _ _ _ Hi Hs).
Qed.

Lemma signed_rejection_states px req wire status now bound execution snapshot t resp :
  runs (signed_rejection px req wire status now bound execution snapshot) t resp → states resp wire execution.
Proof.
  unfold signed_rejection. intros (t1 & w & t2 & -> & _ & -> & ->)%runs_bind. destruct w as [w|]; [|apply unsigned_error_states].
  destruct (rejection_under _ _ _ _ _ _) as [resp|] eqn:Er; [by eapply rejection_under_states|apply unsigned_error_states].
Qed.

Lemma rejection_truthful px req cause status now bound actor execution snapshot az ad t a :
  runs (rejection px req cause status now bound actor execution snapshot az ad) t a → truthful a.
Proof.
  unfold rejection. intros (t1 & [] & t2 & -> & _ & Hs)%runs_bind.
  apply runs_bind in Hs as (t3 & resp & t4 & -> & Hs%signed_rejection_states & -> & ->). exact Hs.
Qed.
Lemma response_rejection_truthful px req cause status now bound actor execution snapshot t a :
  runs (response_rejection px req cause status now bound actor execution snapshot) t a → truthful a.
Proof.
  unfold response_rejection. intros (t1 & [] & t2 & -> & _ & Hs)%runs_bind.
  apply runs_bind in Hs as (t3 & resp & t4 & -> & Hs%signed_rejection_states & -> & ->). exact Hs.
Qed.
Lemma refuse_truthful px ex refusal p t a : runs (refuse px ex refusal p) t a → truthful a.
Proof.
  unfold refuse, receipt_refuse. destruct (rf_posture refusal); cbn;
    first [apply rejection_truthful|apply response_rejection_truthful].
Qed.

(** A stage that ends the exchange only with truthful answers, and hands on only what [ok] holds of. *)
Definition stage_truthful {T} (ok : T → Prop) (m : Stage T) : Prop :=
  ∀ p t r p', runs (m p) t (r, p') → match r with Ok x => ok x | Err a => truthful a end.
Definition anything {T} (_ : T) : Prop := True.

Lemma truthful_bind {A B} ok (m : Stage A) (f : A → Stage B) :
  stage_truthful anything m → (∀ x, stage_truthful ok (f x)) → stage_truthful ok (m ≫= f).
Proof.
  intros Hm Hf p t r p' [(a & -> & Hr)|(t1 & x & p1 & t2 & -> & _ & Hr)]%stage_bind_runs; [exact (Hm _ _ _ _ Hr)|].
  exact (Hf _ _ _ _ _ Hr).
Qed.
Lemma truthful_ret {T} (x : T) : stage_truthful anything (mret x).
Proof. intros p t r p' [_ [= -> ->]]. exact I. Qed.
Lemma truthful_lift {T} (m : Prog T) : stage_truthful anything (lift m).
Proof. intros p t r p' (x & _ & [= -> ->])%lift_runs. exact I. Qed.
Lemma truthful_on_progress f : stage_truthful anything (on_progress f).
Proof. intros p t r p' [_ [= -> ->]]%on_progress_runs. exact I. Qed.
Lemma truthful_refuse_with {T} ok px ex refusal : stage_truthful (T := T) ok (refuse_with px ex refusal).
Proof. intros p t r p' (t1 & a & t2 & -> & Ha%refuse_truthful & -> & [= -> ->])%runs_bind. exact Ha. Qed.
Lemma truthful_establish {T} px ex (e : Result (Established T) Refusal) : stage_truthful anything (establish_or_refuse px ex e).
Proof.
  intros p t r p'. unfold establish_or_refuse. destruct e as [est|refusal]; [|apply truthful_refuse_with].
  intros [_ [= -> ->]]. exact I.
Qed.
Lemma truthful_refuse_retained {T} ok px ex refusal owed : stage_truthful (T := T) ok (refuse_retained px ex refusal owed).
Proof.
  intros p t r p' (t1 & a & t2 & -> & Ha%refuse_truthful & Hk)%runs_bind.
  apply runs_bind in Hk as (t3 & o & t4 & -> & _ & -> & [= -> ->]). exact Ha.
Qed.
Lemma truthful_observing {T} px ex owed (observe : ExchangeProgress → Result T Refusal * ExchangeProgress) :
  stage_truthful anything (observing px ex owed observe).
Proof.
  intros p t r p'. unfold observing. destruct (observe p) as [[x|refusal] q]; [|apply truthful_refuse_retained].
  intros [_ [= -> ->]]. exact I.
Qed.
Create HintDb truthful.
#[local] Hint Resolve truthful_ret truthful_lift truthful_on_progress truthful_refuse_with truthful_establish
  truthful_refuse_retained truthful_observing : truthful.

(** The stages, each by its own shape. *)
Ltac truthful_stage :=
  repeat (intros; first [solve [auto with truthful] | apply truthful_bind
    | match goal with |- context [match ?x with _ => _ end] => destruct x end]).

Lemma verify_stage_truthful px req now : stage_truthful anything (verify_stage px req now).
Proof.
  intros p t r p'. unfold verify_stage. destruct (verify px req now) as [v|refusal]; [by intros [_ [= -> ->]]|].
  intros (t1 & a & t2 & -> & Ha%rejection_truthful & -> & [= -> ->])%runs_bind. exact Ha.
Qed.
Lemma admit_request_truthful px ex peer : stage_truthful anything (admit_request px ex peer).
Proof. unfold admit_request, admit_bound. truthful_stage. Qed.
Lemma commit_to_answering_truthful px ex : stage_truthful anything (commit_to_answering px ex).
Proof. unfold commit_to_answering, admit_replay, hold_answer, observe_retirement. truthful_stage. Qed.
Lemma commit_to_dispatch_truthful px ex authorized w : stage_truthful anything (commit_to_dispatch px ex authorized w).
Proof. unfold commit_to_dispatch, commit_retention. truthful_stage. Qed.
Lemma assemble_reply_truthful px ex outcome outstanding w owed :
  stage_truthful anything (assemble_reply px ex outcome outstanding w owed).
Proof. unfold assemble_reply, record_continuation_leg. truthful_stage. Qed.

Lemma retain_accepted_truthful px req resp now bound actor owed execution snapshot t a :
  runs (retain_accepted px req resp now bound actor owed execution snapshot) t (Some a) → truthful a.
Proof.
  unfold retain_accepted. intros (t1 & o & t2 & -> & _ & Hk)%runs_bind. destruct (is_accounted_for o); [by destruct Hk|].
  apply runs_bind in Hk as (t3 & r & t4 & -> & Hr%response_rejection_truthful & _ & [= ->]). exact Hr.
Qed.
Lemma serve_retained_truthful px ex reply owed : stage_truthful truthful (serve_retained px ex reply owed).
Proof.
  intros p t r p'. unfold serve_retained. destruct (may_publish _ _) as [[[]|e] q]; [|apply truthful_refuse_retained].
  intros (t1 & [a|] & t2 & -> & Ha & Hk)%runs_bind.
  - destruct Hk as [_ [= -> ->]]. by eapply retain_accepted_truthful.
  - apply runs_bind in Hk as (t3 & [] & t4 & -> & _ & _ & [= -> ->]). exact I.
Qed.
Lemma answer_notification_truthful px ex w owed execution t a :
  runs (answer_notification px ex w owed execution) t a → truthful a.
Proof.
  unfold answer_notification. destruct (sign_delegated_accepted_202 _ _ _ _ _ _) as [ack|e]; [|apply response_rejection_truthful].
  intros (t1 & [r|] & t2 & -> & Ha & Hk)%runs_bind.
  - destruct Hk as [_ ->]. by eapply retain_accepted_truthful.
  - apply runs_bind in Hk as (t3 & [] & t4 & -> & _ & _ & ->). exact I.
Qed.
Lemma answer_notification_terminal_truthful px ex outcome w owed :
  stage_truthful truthful (answer_notification_terminal px ex outcome w owed).
Proof.
  unfold answer_notification_terminal. apply truthful_bind; [apply truthful_observing|]. intros ack p t r p'.
  destruct (establish_terminal p ack) as [[[]|e] q]; [|apply truthful_refuse_retained].
  intros (t1 & a & t2 & -> & Ha%answer_notification_truthful & _ & [= -> ->])%runs_bind. exact Ha.
Qed.

(** Whatever the handler answers with a rejection, the body it serves says so. *)
Lemma handle_truthful px req peer now t a p : runs (HttpProfileProxy_handle px req peer now) t (a, p) → truthful a.
Proof.
  unfold HttpProfileProxy_handle. intros (t1 & [r p1] & t2 & -> & Hr & _ & [= -> ->])%runs_bind.
  enough (stage_truthful truthful (handle_stages px req peer now)) as Ht by (specialize (Ht _ _ _ _ Hr); by destruct r).
  unfold handle_stages, serve_admitted, reply_to.
  apply truthful_bind; [apply verify_stage_truthful|intros v].
  apply truthful_bind; [apply admit_request_truthful|intros [admitted ex]].
  apply truthful_bind; [apply commit_to_answering_truthful|intros [w ex']].
  apply truthful_bind; [apply truthful_lift|intros _].
  apply truthful_bind; [apply commit_to_dispatch_truthful|intros [prepared owed]].
  apply truthful_bind; [apply truthful_on_progress|intros _].
  apply truthful_bind; [apply truthful_lift|intros outcome].
  destruct (adm_outstanding admitted); [|apply answer_notification_terminal_truthful].
  apply truthful_bind; [apply assemble_reply_truthful|]. intros reply. apply serve_retained_truthful.
Qed.
End statements.

(** ** The whole exchange *)

Section exchange.
Context `{Base64, Sha2, Ed25519, JsonTree, F64Carrier, ChannelPeer P}.
Context `{!Serde HttpRequestEvidenceBlock, !Serde HttpResponseEvidenceBlock, !Serde VerifiedContext}.
Context `{!Serde AdmissionHeader, !Serde AdmissionClaims}.
Implicit Types (px : HttpProfileProxy (P := P)) (t : list Event) (v : VerifiedMcpRequest).

Definition verified_as px (http_req : HttpRequest) (now : Z) v : Prop :=
  verify_request {| v_policy := px_policy px; v_resolve_actor := px_resolve_actor px |} http_req
    (px_expected_audience px) (λ _, None) now = Ok v.

(** Every gate in front of the backend, and the events of [t] that show it was passed. *)
Record cleared px (http_req : HttpRequest) (peer : option P) (now : Z) v (admitted : AdmittedRequest (P := P))
    (w : SigningWindow) (prepared : PreparedInnerDispatch) (owed : RetentionDisposition) t : Prop := {
  cleared_verified : verified_as px http_req now v;
  cleared_gated : ∃ facet, gated px http_req v peer now t facet admitted;
  cleared_leg : answers_leg px v (req_body http_req) t;
  cleared_replay : ∃ ctx, replay_admitted px v ctx now t;
  cleared_key : ∃ snap, Ev_signer snap ∈ t ∧ window_open snap now (px_sig_ttl_secs px) = Some w;
  cleared_secured : secured px http_req v now w prepared owed t;
}.

Lemma gated_sub px req v peer now t t' facet admitted :
  gated px req v peer now t facet admitted → t ⊆ t' → gated px req v peer now t' facet admitted.
Proof.
  intros [He Hs Ha] Ht. split; [done| |done]. unfold in_standing in *. destruct (px_admission px); [|done].
  destruct (rb_admission (vr_request_block v)), (rb_admission_assertion (vr_request_block v)); try done. naive_solver.
Qed.
Lemma answers_leg_sub px v body t t' : answers_leg px v body t → t ⊆ t' → answers_leg px v body t'.
Proof. intros Hl Ht c Hc. destruct (Hl c Hc) as (st & bs & ? & ? & ? & ?). exists st, bs. naive_solver. Qed.
Lemma replay_admitted_sub px v ctx now t t' : replay_admitted px v ctx now t → t ⊆ t' → replay_admitted px v ctx now t'.
Proof. intros [? ? ? ?] Ht. split; auto. Qed.
Lemma secured_sub px req v now w prepared owed t t' :
  secured px req v now w prepared owed t → t ⊆ t' → secured px req v now w prepared owed t'.
Proof.
  intros [Hf Hp Hc Hr] Ht. split; [done|auto|done|]. unfold retention_committed in *. destruct (px_retention px); [|done].
  naive_solver.
Qed.

(** How an exchange ends. *)
Inductive handled px (http_req : HttpRequest) (peer : option P) (now : Z) : list Event → Answer → ExchangeProgress → Prop :=
  | handled_unaccepted t a s c :
      turned_away px false t a (reached s c) → backend_may_have_executed s = false →
      spent t = bool_decide (c = C_Consumed) → handled px http_req peer now t a (reached s c)
  | handled_accepted t1 t2 a s c az ad :
      dispatched t1 = false → unresolved t1 = false → audits t1 = audited px (subject_request_accepted az ad) →
      turned_away px true t2 a (reached s c) → backend_may_have_executed s = false →
      spent (t1 ++ t2) = bool_decide (c = C_Consumed) → handled px http_req peer now (t1 ++ t2) a (reached s c)
  | handled_dispatched v admitted w prepared owed outcome t1 t2 a p az ad :
      cleared px http_req peer now v admitted w prepared owed t1 →
      dispatched t1 = false → audits t1 = audited px (subject_request_accepted az ad) →
      replied px http_req v admitted w owed outcome t2 a p →
      handled px http_req peer now (t1 ++ Ev_dispatch (pid_body prepared) outcome :: t2) a p.

Lemma verify_stage_runs px http_req now t r p' :
  runs (verify_stage px http_req now progress_new) t (r, p') →
  match r with
  | Ok v => t = [] ∧ p' = reached S_Verified C_NotInvolved ∧ verified_as px http_req now v
  | Err a => p' = reached S_Received C_NotInvolved ∧ spent t = false ∧ turned_away px false t a p'
  end.
Proof.
  unfold verify_stage, verify, verified_as. destruct (verify_request _ _ _ _ _) as [v|e].
  - by intros [-> [= -> ->]].
  - intros (t1 & a & t2 & -> & (resp & -> & Ho & Ha)%rejection_runs & -> & [= -> ->])%runs_bind. rewrite app_nil_r.
    destruct (receipt_only_silent _ Ho) as (Hd & Hsp & Hu). split; [done|]. split; [done|]. split; [done|].
    eexists _, resp, _. rewrite Hu. split; [done|]. split; [done|]. split; [done|]. cbn. eauto.
Qed.

Lemma serve_admitted_runs px http_req peer now ex v admitted w c t0 t r p' :
  ex_http_req ex = http_req → ex_verified ex = v → ex_now ex = now → ex_actor_id ex = actor_id_of v →
  verified_as px http_req now v →
  (∃ facet, gated px http_req v peer now t0 facet admitted) → answers_leg px v (req_body http_req) t0 →
  (∃ ctx, replay_admitted px v ctx now t0) →
  (∃ snap, Ev_signer snap ∈ t0 ∧ window_open snap now (px_sig_ttl_secs px) = Some w) →
  silent t0 → spent t0 = bool_decide (c = C_Consumed) →
  runs (serve_admitted px ex admitted w (reached S_ContinuationRetired c)) t (r, p') →
  handled px http_req peer now (t0 ++ t) (answer_of r) p'.
Proof.
  intros <- <- <- Ha Hv [facet Hg] Hl [ctx Hra] [snap [Hs Hw]] (Hd0 & Hu0 & Ha0) Hsp0.
  intros (t1 & [] & t2 & -> & [Ho Ha1]%record_to_receipt & Hr)%lift_bind_runs.
  destruct (receipt_only_silent _ Ho) as (Hd1 & Hsp1 & Hu1). rewrite app_assoc.
  assert (dispatched (t0 ++ t1) = false) as Hd01 by (by rewrite dispatched_app, Hd0).
  assert (audits (t0 ++ t1) = audits t1) as Ha01 by (by rewrite audits_app, Ha0).
  apply stage_bind_runs in Hr as [(a & -> & [Hsp2 Hr]%commit_to_dispatch_runs)|(t3 & x & p3 & t4 & -> & [Hsp2 Hr]%commit_to_dispatch_runs & Hk)].
  - destruct Hr as [Ht (s & -> & Hb)]. eapply handled_accepted; [done| |by rewrite Ha01|done|done|].
    + by rewrite unresolved_app, Hu0.
    + by rewrite !spent_app, Hsp0, Hsp1, Hsp2, !orb_false_r.
  - destruct x as [prepared owed]. destruct Hr as (Hsi3 & -> & Hsec).
    apply on_progress_bind_runs, lift_bind_runs in Hk as (t5 & outcome & t6 & -> & Hdisp & Hrep).
    apply (runs_call (Inner_dispatch _)) in Hdisp as ->. cbn [event_of].
    change (advance (reached S_RetentionCommitted c) E_BackendDispatched) with (reached S_Dispatched c) in Hrep.
    apply (reply_to_runs _ _ _ _ _ _ _ _ _ _ Ha) in Hrep. rewrite app_assoc. destruct Hsi3 as (Hd3 & _ & Ha3).
    eapply handled_dispatched; [split; [done|..]| | |done].
    + exists facet. eapply gated_sub; [done|set_solver].
    + eapply answers_leg_sub; [done|set_solver].
    + exists ctx. eapply replay_admitted_sub; [done|set_solver].
    + exists snap. split; [set_solver|done].
    + eapply secured_sub; [done|set_solver].
    + by rewrite dispatched_app, Hd01.
    + by rewrite audits_app, Ha01, Ha3, app_nil_r.
Qed.

(** Every run of the handler is one of the three. *)
Lemma handle_runs px http_req peer now t a p :
  runs (HttpProfileProxy_handle px http_req peer now) t (a, p) → handled px http_req peer now t a p.
Proof.
  unfold HttpProfileProxy_handle. intros (t1 & [r p1] & t2 & -> & Hr & -> & [= -> ->])%runs_bind. rewrite app_nil_r.
  change (match r with Ok a | Err a => a end) with (answer_of r). unfold handle_stages in Hr.
  apply stage_bind_runs in Hr as [(a & -> & Hr%verify_stage_runs)|(tv & v & pv & t2 & -> & Hr%verify_stage_runs & Hk)].
  { destruct Hr as (-> & Hsp & Ht). by apply handled_unaccepted. }
  destruct Hr as (-> & -> & Hv). cbn [app]. set (ex := {| ex_http_req := http_req |}) in Hk.
  apply stage_bind_runs in Hk as [(a & -> & [Hsp Hr]%admit_request_runs)|(t3 & x & pa & t4 & -> & [Hsp Hr]%admit_request_runs & Hk)];
    [|done| |done].
  { destruct Hr as [Ht (s & -> & Hb)]. by apply handled_unaccepted. }
  destruct x as [admitted ex1]. destruct Hr as (Hsi & -> & facet & Hg & ->).
  apply stage_bind_runs in Hk as [(a & -> & (c & Hsp2 & Hr)%commit_to_answering_runs)|(t5 & x & pc & t6 & -> & (c & Hsp2 & Hr)%commit_to_answering_runs & Hk)];
    [|done| |done].
  { apply (refused_before_app _ _ _ _ _ _ _ Hsi) in Hr as [Ht (s & -> & Hb)].
    apply handled_unaccepted; [done|done|]. by rewrite spent_app, Hsp, Hsp2. }
  destruct x as [w ex2]. destruct Hr as (Hsi2 & -> & -> & Hl & [ctx Hra] & snap & Hs & Hw).
  rewrite app_assoc. eapply serve_admitted_runs in Hk; [exact Hk|done|done|done|done|done|..].
  - exists facet. eapply gated_sub; [done|set_solver].
  - eapply answers_leg_sub; [done|set_solver].
  - exists ctx. eapply replay_admitted_sub; [done|set_solver].
  - exists snap. split; [set_solver|done].
  - by apply silent_app.
  - by rewrite spent_app, Hsp, Hsp2.
Qed.

(** ** The guarantees *)

Lemma turned_away_disposition px accepted t a s c cause execution resp :
  turned_away px accepted t a (reached s c) → backend_may_have_executed s = false → a = Rejected cause execution resp →
  execution = if bool_decide (c = C_Consumed) then ApprovalSpentNothingExecuted
              else if unresolved t then NothingExecutedRetentionUnresolved else NothingExecuted.
Proof.
  intros (_ & cause' & resp' & subject & -> & _) Hb [= <- <- <-].
  unfold disposition, progress_retry_semantics. cbn [anomaly request continuation reached is_some]. rewrite Hb.
  by destruct c, (unresolved t).
Qed.

(** What a rejection owes the client, read off the run. *)
Definition disposition_owed t : ExecutionDisposition :=
  if dispatched t then PossiblyExecuted
  else if spent t then ApprovalSpentNothingExecuted
  else if unresolved t then NothingExecutedRetentionUnresolved
  else NothingExecuted.

Lemma handled_disposition px http_req peer now t cause execution resp p :
  runs (HttpProfileProxy_handle px http_req peer now) t (Rejected cause execution resp, p) → execution = disposition_owed t.
Proof.
  intros Hr%handle_runs. unfold disposition_owed. remember (Rejected cause execution resp) as a eqn:Ea.
  destruct Hr as [t a s c Ht Hb Hsp|t1 t2 a s c az ad Hd1 Hu1 _ Ht Hb Hsp|v admitted w prepared owed outcome t1 t2 a p az ad _ Hd1 _ Hrep].
  - rewrite (turned_away_disposition _ _ _ _ _ _ _ _ _ Ht Hb Ea), Hsp. destruct Ht as [-> _]. done.
  - rewrite (turned_away_disposition _ _ _ _ _ _ _ _ _ Ht Hb Ea), Hsp, dispatched_app, unresolved_app, Hd1, Hu1.
    destruct Ht as [-> _]. done.
  - subst a. destruct Hrep as (_ & _ & ? & ? & [= <- <- <-] & _).
    rewrite dispatched_app. cbn [dispatched existsb is_dispatch orb]. by rewrite orb_true_r.
Qed.

(** C4: a request reaches the backend at most once per exchange, and only after its signature
    verified, its channel, standing and authorization held, the continuation it answers was
    found, matched and taken, the replay tier called it fresh, a live key could sign for as long
    as the backend may take, the backend accepted the stripped body, and the evidence store
    committed to the exchange. *)
Theorem dispatch_requires_every_gate px http_req peer now t a p :
  runs (HttpProfileProxy_handle px http_req peer now) t (a, p) → dispatched t = true →
  ∃ t1 t2 outcome v admitted w prepared owed az ad,
    t = t1 ++ Ev_dispatch (pid_body prepared) outcome :: t2 ∧ dispatched t1 = false ∧ dispatched t2 = false ∧
    cleared px http_req peer now v admitted w prepared owed t1 ∧
    audits t1 = audited px (subject_request_accepted az ad).
Proof.
  intros Hr%handle_runs Hd. destruct Hr as [t a s c [Hn _] _ _|t1 t2 a s c az ad Hd1 _ _ [Hd2 _] _ _|
    v admitted w prepared owed outcome t1 t2 a p az ad Hcl Hd1 Ha1 Hrep].
  - by rewrite Hn in Hd.
  - by rewrite dispatched_app, Hd1, Hd2 in Hd.
  - exists t1, t2, outcome, v, admitted, w, prepared, owed, az, ad. split_and!; try done.
    destruct a; [apply Hrep|]. by destruct Hrep.
Qed.

(** C7: a success is only served for a request that passed every gate: it is the backend's own
    well-formed reply signed with the key held since before the dispatch (or the signed
    acknowledgement of a notification the backend took), it is in the evidence store, and a leg
    it opens is in the continuation store. *)
Theorem served_success_accounted px http_req peer now t resp p :
  runs (HttpProfileProxy_handle px http_req peer now) t (Served resp, p) →
  ∃ t1 t2 outcome v admitted w prepared owed,
    t = t1 ++ Ev_dispatch (pid_body prepared) outcome :: t2 ∧
    cleared px http_req peer now v admitted w prepared owed t1 ∧
    publishes px http_req v admitted w outcome resp t2 p ∧ retained owed resp t2.
Proof.
  intros Hr%handle_runs. remember (Served resp) as a eqn:Ea.
  destruct Hr as [t a s c Ht _ _|t1 t2 a s c az ad _ _ _ Ht _ _|v admitted w prepared owed outcome t1 t2 a p az ad Hcl Hd1 _ Hrep].
  - subst a. by destruct Ht as (_ & ? & ? & ? & ? & _).
  - subst a. by destruct Ht as (_ & ? & ? & ? & ? & _).
  - subst a. destruct Hrep as (_ & _ & Hret & _ & Hp). exists t1, t2, outcome, v, admitted, w, prepared, owed. done.
Qed.

(** With a sink, the log holds one refusal of the request, or its acceptance and what became
    of the response; the refusals carry the verdict the client was given, and an acceptance is
    there before the backend is reached. *)
Lemma audit_trail_exact px http_req peer now t a p :
  runs (HttpProfileProxy_handle px http_req peer now) t (a, p) → px_audit px = true →
  match a with
  | Served _ => ∃ az ad, audits t = [subject_request_accepted az ad; subject_response_signed]
  | Rejected cause _ _ => ∃ az ad,
      (audits t = [subject_request_rejected (cause_core_verdict cause) az ad] ∧ dispatched t = false) ∨
      audits t = [subject_request_accepted az ad; subject_response_rejected (cause_core_verdict cause)]
  end.
Proof.
  intros Hr%handle_runs Hau. assert (∀ s, audited px s = [s]) as Hs by (intros s; unfold audited; by rewrite Hau).
  destruct Hr as [t a s c Ht _ _|t1 t2 a s c az ad _ _ Ha1 Ht _ _|v admitted w prepared owed outcome t1 t2 a p az ad _ _ Ha1 Hrep].
  - destruct Ht as (Hd & cause & resp & subject & -> & _ & Ha & az & ad & ->). exists az, ad. left. by rewrite Ha, Hs.
  - destruct Ht as (Hd & cause & resp & subject & -> & _ & Ha & ->). exists az, ad. right.
    by rewrite audits_app, Ha1, Ha, !Hs.
  - rewrite audits_app. cbn [audits omap list_omap audit_of]. destruct a as [resp|].
    + destruct Hrep as (_ & Ha2 & _). exists az, ad. by rewrite Ha1, Hs; cbn; f_equal; rewrite <- Hs, <- Ha2.
    + destruct Hrep as (_ & _ & cause' & ? & [= -> -> ->] & _ & Ha2). exists az, ad. right.
      by rewrite Ha1, Hs; cbn; f_equal; rewrite <- Hs, <- Ha2.
Qed.

(** C27: the handler and the exchange machine stay in step on every path: no transition is
    illegal, the machine's own alarm is never what the client sees, and the machine's view of the
    backend is what really happened. *)
Theorem exchange_machine_in_step px http_req peer now t a p :
  runs (HttpProfileProxy_handle px http_req peer now) t (a, p) →
  anomaly p = None ∧ backend_may_have_executed (request p) = dispatched t ∧
  (∀ execution resp, a ≠ Rejected (taxonomy ExchangeInvariantViolation) execution resp) ∧
  (∀ resp, a = Served resp → is_success_terminal (request p) = true).
Proof.
  intros Hr%handle_runs.
  destruct Hr as [t a s c (Hd & cause & r & ? & -> & Hc & _) Hb _|
    t1 t2 a s c az ad Hd1 _ _ (Hd2 & cause & r & ? & -> & Hc & _) Hb _|
    v admitted w prepared owed outcome t1 t2 a p az ad _ _ _ Hrep].
  - rewrite Hd. split_and!; [done|done| |done]. intros e r' [= -> _ _]. done.
  - rewrite dispatched_app, Hd1, Hd2. split_and!; [done|done| |done]. intros e r' [= -> _ _]. done.
  - rewrite dispatched_app. cbn [dispatched existsb is_dispatch orb]. rewrite orb_true_r. destruct a as [resp|].
    + destruct Hrep as (_ & _ & _ & Han & Hp). unfold publishes in Hp.
      assert (is_success_terminal (request p) = true) as Hst.
      { destruct (adm_outstanding admitted); [destruct Hp as ([? []] & _ & -> & _); done|by destruct Hp as (_ & -> & _)]. }
      split_and!; [done| |done|done]. by destruct (request p).
    + destruct Hrep as (_ & [Han Hb] & cause' & r & [= -> -> ->] & Hc & _). split_and!; [done|done| |done].
      intros e r' [= -> _ _]. done.
Qed.
End exchange.

(** C10: what a rejection tells the client became of its request is what happened, exactly. The body that is served,
    signed or not, is read by the client as the wire code of the cause with the execution contract of a disposition,
    and that disposition is: possibly executed if and only if the backend was reached; otherwise that the approval is
    spent, that the evidence store was left in doubt, or that nothing happened. When the backend was reached the
    receipt says that the request may have been executed. Printing a JSON value is taken not to fail. *)
Theorem refusal_disposition_exact `{Base64, Sha2, Ed25519, JsonTreeLaws, !SerdeJsonLaws, F64Carrier, ChannelPeer P,
    !Serde HttpRequestEvidenceBlock, !Serde HttpResponseEvidenceBlock, !Serde VerifiedContext,
    !Serde AdmissionHeader, !Serde AdmissionClaims} px http_req peer now t cause execution resp p :
  (∀ v : Value, is_Some (to_vec v)) →
  runs (HttpProfileProxy_handle (P := P) px http_req peer now) t (Rejected cause execution resp, p) →
  execution = disposition_owed t ∧
  rejection_receipt (resp_body resp) = (Some (cause_wire_code cause), contract_of (cause_wire_code cause) (disposition_owed t)) ∧
  (dispatched t = true → ec_execution_status (snd (rejection_receipt (resp_body resp))) = Some b#"possibly_executed").
Proof.
  intros Hprints Hr. pose proof (handle_truthful Hprints _ _ _ _ _ _ _ Hr) as Hs. cbn [truthful] in Hs.
  rewrite (handled_disposition _ _ _ _ _ _ _ _ _ Hr) in *. unfold states in Hs. rewrite Hs. split_and!; [done|done|].
  intros Hd. unfold disposition_owed. rewrite Hd. cbn [snd]. unfold contract_of, stated_contract, retry_semantics.
  cbn [rr_wire_code rr_execution]. by destruct (bytes_eqb (cause_wire_code cause) _).
Qed.

(** ** Witnesses: a request the client builds, served *)

Import Instances.

#[local] Instance wv_f64 : F64Carrier := { f64_reemit := Some }.
#[local] Instance wv_peer : ChannelPeer unit := { peer_identity _ := b#"s" }.
#[local] Instance wv_request_serde : Serde HttpRequestEvidenceBlock := one_value_serde (evidence_block wc_inputs) b#"q".
#[local] Instance wv_response_serde : Serde HttpResponseEvidenceBlock :=
  one_value_serde (response_block wc_signer wc_jws (sg_evidence wc_built)) b#"s".
#[local] Instance wv_context_serde : Serde VerifiedContext := serde_through (λ _, None) (λ _, None).
#[local] Instance wv_header_serde : Serde AdmissionHeader := serde_through (λ _, None) (λ _, None).
#[local] Instance wv_claims_serde : Serde AdmissionClaims := serde_through (λ _, None) (λ _, None).

Definition wv_proxy : HttpProfileProxy (P := unit) :=
  {| px_resolve_actor := w_resolver; px_expected_audience := w_audience; px_policy := VerifierPolicy_default;
     px_sig_ttl_secs := 30; px_durability_class := Durable;
     px_dispatch_cfg := {| pdc_fleet_strict := true; pdc_tier := Some Linearizable |};
     px_transport_binding := Some ExactMatch; px_authorization := None; px_continuations := plane_wired 300;
     px_verified_context_policy := Disabled; px_audit := true; px_admission := None; px_retention := true |}.
Definition wv_reply : bytes := default [] (to_vec (Object (<[b#"jsonrpc" := JString b#"2.0"]> (
  <[b#"id" := JString b#"1"]> ({[ b#"result" := Object ∅ ]}))))).

(** Every store answers well; [completed] is what the evidence store says of the response. *)
Definition wv_env (completed : Result unit RetentionError) (past : list Event) (c : Call) : answer c :=
  match c with
  | Instant_now => 0
  | Admission_current _ _ => Ok None
  | Window_record_read _ => tt
  | Window_last_read => None
  | Continuation_peek _ => Ok None
  | Continuation_consume _ => Ok true
  | Continuation_create _ _ _ => Ok Stored
  | Replay_check_and_insert _ _ => Ok Fresh
  | Signer_load => Snap_Active wc_key
  | Audit_record _ => tt
  | Inner_prepare _ => Ok (Within {| dur_secs := 5; dur_nanos := 0 |})
  | Inner_dispatch _ => Replied wv_reply
  | Evidence_reserve _ => Ok {| rbd_digest := b#"d" |}
  | Evidence_commit _ => Ok {| dcm_digest := b#"d" |}
  | Evidence_complete _ _ => completed
  end.
Definition wv_run (completed : Result unit RetentionError) : list Event * (Answer * ExchangeProgress) :=
  exec (wv_env completed) [] (HttpProfileProxy_handle wv_proxy (sg_request wc_built) (Some tt) 120).

Lemma wv_runs completed :
  runs (HttpProfileProxy_handle wv_proxy (sg_request wc_built) (Some tt) 120) (wv_run completed).1
    ((wv_run completed).2.1, (wv_run completed).2.2).
Proof. exact (exec_runs_pair (wv_env completed) (HttpProfileProxy_handle wv_proxy (sg_request wc_built) (Some tt) 120)). Qed.

Lemma dispatch_requires_every_gate_witness :
  ∃ t1 t2 key, (wv_run (Ok tt)).1 = t1 ++ t2 ∧ Ev_replay key 120 (Ok Fresh) ∈ t1 ∧ dispatched t1 = false ∧
    dispatched t2 = true.
Proof.
  edestruct (dispatch_requires_every_gate wv_proxy _ (Some tt) 120 _ _ _ (wv_runs (Ok tt)))
    as (t1 & t2 & outcome & v & admitted & w & prepared & owed & az & ad & Ht & Hd1 & _ & Hcl & _).
  { vm_compute. reflexivity. }
  destruct (cleared_replay _ _ _ _ _ _ _ _ _ _ Hcl) as [ctx Hra].
  exists t1, (Ev_dispatch (pid_body prepared) outcome :: t2),
    (to_core_replay_key (replay_key_of v) (fr_expires (vr_floor v))).
  split; [exact Ht|]. split; [exact (ra_fresh _ _ _ _ _ Hra)|]. split; [exact Hd1|reflexivity].
Defined.

Lemma refusal_disposition_exact_witness :
  match (wv_run (Err RE_AlreadyCompleted)).2.1 with
  | Rejected cause execution resp =>
      execution = disposition_owed (wv_run (Err RE_AlreadyCompleted)).1 ∧
      rejection_receipt (resp_body resp) =
        (Some (cause_wire_code cause), contract_of (cause_wire_code cause) (disposition_owed (wv_run (Err RE_AlreadyCompleted)).1)) ∧
      (dispatched (wv_run (Err RE_AlreadyCompleted)).1 = true →
       ec_execution_status (snd (rejection_receipt (resp_body resp))) = Some b#"possibly_executed")
  | Served _ => False
  end.
Proof.
  pose proof (wv_runs (Err RE_AlreadyCompleted)) as Hr.
  destruct (wv_run (Err RE_AlreadyCompleted)).2.1 as [resp|cause execution resp] eqn:E.
  - apply (f_equal (λ a, match a with Served _ => true | _ => false end)) in E. vm_compute in E. discriminate E.
  - refine (refusal_disposition_exact _ _ _ _ _ _ _ _ _ _ Hr). intros v. eexists. reflexivity.
Defined.

Lemma served_success_accounted_witness :
  match (wv_run (Ok tt)).2.1 with
  | Served resp => ∃ crossing, Ev_complete crossing resp (Ok tt) ∈ (wv_run (Ok tt)).1
  | Rejected _ _ _ => False
  end.
Proof.
  pose proof (wv_runs (Ok tt)) as Hr.
  destruct (wv_run (Ok tt)).2.1 as [resp|cause execution resp] eqn:E.
  - destruct (served_success_accounted _ _ _ _ _ _ _ Hr) as (t1 & t2 & outcome & v & admitted & w & prepared & owed & Ht & Hcl & _ & Hret).
    destruct (cleared_secured _ _ _ _ _ _ _ _ _ _ Hcl) as [_ _ _ (res & crossing & _ & _ & ->)].
    exists crossing. rewrite Ht. apply elem_of_app. right. right. exact Hret.
  - apply (f_equal (λ a, match a with Served _ => true | _ => false end)) in E. vm_compute in E. discriminate E.
Defined.

Lemma exchange_machine_in_step_witness :
  anomaly (wv_run (Ok tt)).2.2 = None ∧
  backend_may_have_executed (request (wv_run (Ok tt)).2.2) = dispatched (wv_run (Ok tt)).1.
Proof.
  destruct (exchange_machine_in_step _ _ _ _ _ _ _ (wv_runs (Ok tt))) as (Ha & Hb & _). split; [exact Ha|exact Hb].
Defined.
