(* ===== verification/Fleet.v ===== *)
(** * Many exchanges over one replay tier and one continuation store

    The handlers of [ServePath] run concurrently: a step lets one of them make its next call. The
    calls on the replay tier ([ReplayTier]) and on the in-process continuation store ([Serve]) are
    answered by those components, each in one step: the tier's awaits between reserving, inserting
    and settling are the steps of [ReplayTier]'s own relation, and what decides between two handlers
    is the store's insert, which is one step there too. Every other call may be answered in any way. A handler may be
    abandoned at a call, whose effect on the stores remains (a client that went away, a lost
    answer). The theorems are what the serving path and the two stores only give together. *)

From S2P Require Import Prelude.
From S2P Require Import RustStr.
From S2P Require Import Externals.
From S2P Require Import Json.
From S2P Require Import Concrete.
From S2P Require Import CoreError.
From S2P Require Import CoreReplay.
From S2P Require Import CoreResolver.
From S2P Require Import HttpMessage.
From S2P Require Import SigBase.
From S2P Require Import Policy.
From S2P Require Import Blocks.
From S2P Require Import Body.
From S2P Require Import Floor.
From S2P Require Import Sign.
From S2P Require Import Full.
From S2P Require Import Context.
From S2P Require Import Envelope.
From S2P Require Import Dispatch.
From S2P Require Import Delegation.
From S2P Require Import Custody.
From S2P Require Import Admission.
From S2P Require Import Records.
From S2P Require Import ClientCore.
From S2P Require Import Exchange.
From S2P Require Import ReplayTier.
From S2P Require Import Authorize.
From S2P Require Import SigningPlane.
From S2P Require Import Serve.
From S2P Require Import ServePath.
From S2P Require Import ServeProps.

Section fleet.
Context `{Base64, Sha2, Ed25519, JsonTree, F64Carrier, ChannelPeer P}.
Context `{!Serde HttpRequestEvidenceBlock, !Serde HttpResponseEvidenceBlock, !Serde VerifiedContext}.
Context `{!Serde AdmissionHeader, !Serde AdmissionClaims}.
Context {St : Type} `{AsyncAtomicReplayStoreSpec St}.

(** ** The system *)

Record Arrival := { ar_proxy : HttpProfileProxy (P := P); ar_http_req : HttpRequest; ar_peer : option P; ar_now : Z }.
Definition handler (x : Arrival) : Prog (Answer * ExchangeProgress) :=
  HttpProfileProxy_handle (ar_proxy x) (ar_http_req x) (ar_peer x) (ar_now x).

Record Shared := { sh_tier : AsyncReplayTier St; sh_legs : InMemoryContinuationStore }.
Record Running := { rn_arrival : Arrival; rn_rest : option (Prog (Answer * ExchangeProgress)) }.
Record Fleet := { fl_shared : Shared; fl_running : list Running }.

(** What the shared stores answer to a call at an instant of their clock. *)
Definition stores_answer (clock : Z) (s : Shared) (c : Call) : answer c → Shared → Prop :=
  match c with
  | Replay_check_and_insert key now => λ a s',
      tier_check_and_insert clock (sh_tier s) key now = (sh_tier s', a) ∧ sh_legs s' = sh_legs s
  | Continuation_peek key => λ a s', cont_peek (sh_legs s) clock key = a ∧ s' = s
  | Continuation_consume key => λ a s',
      cont_consume (sh_legs s) clock key = (sh_legs s', a) ∧ sh_tier s' = sh_tier s
  | Continuation_create key bases ttl => λ a s',
      insert_if_absent (sh_legs s) clock key bases ttl = (sh_legs s', a) ∧ sh_tier s' = sh_tier s
  | _ => λ _ s', s' = s
  end.

Inductive Label :=
  | Arrived (x : Arrival)
  | Called (n : nat) (clock : Z) (e : Event)
  | Abandoned (n : nat) (clock : Z) (e : Event).

Inductive fleet_step : Fleet → Label → Fleet → Prop :=
  | fleet_arrival s rs x :
      fleet_step {| fl_shared := s; fl_running := rs |} (Arrived x)
        {| fl_shared := s; fl_running := rs ++ [{| rn_arrival := x; rn_rest := Some (handler x) |}] |}
  | fleet_call s rs n x c k clock a s' :
      rs !! n = Some {| rn_arrival := x; rn_rest := Some (Do c k) |} → stores_answer clock s c a s' →
      fleet_step {| fl_shared := s; fl_running := rs |} (Called n clock (event_of c a))
        {| fl_shared := s'; fl_running := <[n := {| rn_arrival := x; rn_rest := Some (k a) |}]> rs |}
  | fleet_abandon s rs n x c k clock a s' :
      rs !! n = Some {| rn_arrival := x; rn_rest := Some (Do c k) |} → stores_answer clock s c a s' →
      fleet_step {| fl_shared := s; fl_running := rs |} (Abandoned n clock (event_of c a))
        {| fl_shared := s'; fl_running := <[n := {| rn_arrival := x; rn_rest := None |}]> rs |}.

Inductive fleet_run : Fleet → list Label → Fleet → Prop :=
  | fleet_nil f : fleet_run f [] f
  | fleet_snoc f ls g l h : fleet_run f ls g → fleet_step g l h → fleet_run f (ls ++ [l]) h.

Definition fleet_new (s : Shared) : Fleet := {| fl_shared := s; fl_running := [] |}.

(** What exchange [n] saw. *)
Definition seen_by (n : nat) (l : Label) : option Event :=
  match l with Called m _ e => if bool_decide (m = n) then Some e else None | _ => None end.
Definition log (n : nat) (ls : list Label) : list Event := omap (seen_by n) ls.
Definition label_clock (l : Label) : option Z :=
  match l with Arrived _ => None | Called _ clock _ | Abandoned _ clock _ => Some clock end.

(** ** Every log is the beginning of a run *)

Lemma answer_inhabited c : inhabited (answer c).
Proof.
  destruct c; cbn; constructor; first [exact 0 | exact tt | exact None | exact Snap_Empty | exact (Ok None)
    | exact (Err (AdmissionSourceUnavailable [])) | exact (Ok true) | exact (Ok Stored) | exact (Ok Fresh)
    | exact (Ok BoundUnstated) | exact (Indeterminate []) | exact (Err RE_AlreadyCompleted)].
Qed.

Lemma prog_completes {R} (m : Prog R) : ∃ t r, runs m t r.
Proof.
  induction m as [r|c k IH]; [by exists [], r|]. destruct (answer_inhabited c) as [a].
  destruct (IH a) as (t & r & Hr). exists (event_of c a :: t), r. by exists a, t.
Qed.

Lemma log_snoc n ls l : log n (ls ++ [l]) = log n ls ++ match seen_by n l with Some e => [e] | None => [] end.
Proof. unfold log. by rewrite omap_app. Qed.

Definition on_track (ls : list Label) (n : nat) (r : Running) : Prop :=
  ∃ m, (rn_rest r = Some m ∨ rn_rest r = None) ∧
    ∀ t o, runs m t o → runs (handler (rn_arrival r)) (log n ls ++ t) o.

Lemma log_unstarted s ls f n : fleet_run (fleet_new s) ls f → (length (fl_running f) ≤ n)%nat → log n ls = [].
Proof.
  intros Hr. remember (fleet_new s) as f0 eqn:E. revert n. induction Hr as [|f ls g l h Hr IH Hs]; intros n Hn; [done|].
  specialize (IH E). rewrite log_snoc. destruct Hs as [s' rs x|s' rs m x c k clock a s'' Hl Ha|s' rs m x c k clock a s'' Hl Ha]; cbn in *.
  - rewrite length_app in Hn. cbn in Hn. by rewrite IH by lia.
  - rewrite length_insert in Hn. apply lookup_lt_Some in Hl. rewrite bool_decide_false by lia. by rewrite IH by lia.
  - rewrite length_insert in Hn. by rewrite IH by lia.
Qed.

Lemma fleet_on_track s ls f : fleet_run (fleet_new s) ls f → ∀ n r, fl_running f !! n = Some r → on_track ls n r.
Proof.
  intros Hr. remember (fleet_new s) as f0 eqn:E. induction Hr as [|f ls g l h Hr IH Hs]; intros n r Hn; [by subst f|].
  subst f. unfold on_track. rewrite log_snoc. specialize (IH eq_refl).
  destruct Hs as [s' rs x|s' rs m x c k clock a s'' Hl Ha|s' rs m x c k clock a s'' Hl Ha]; cbn in *.
  - rewrite app_nil_r. apply lookup_app_Some in Hn as [Hn|[Hlen Hn]]; [by apply IH|].
    apply list_lookup_singleton_Some in Hn as [Hlen' <-]. exists (handler x). split; [by left|].
    intros t o Ho. cbn. by rewrite (log_unstarted _ _ _ _ Hr) by (cbn; lia).
  - apply list_lookup_insert_Some in Hn as [(-> & <- & _)|[Hne Hn]].
    + rewrite bool_decide_true by done. destruct (IH _ _ Hl) as (m & Hm & Htr). exists (k a). split; [by left|].
      intros t o Ho. rewrite <- (assoc_L (++)). cbn. apply Htr. destruct Hm as [[= <-]|?]; [|done]. by exists a, t.
    + rewrite bool_decide_false by done. rewrite app_nil_r. by apply IH.
  - rewrite app_nil_r. apply list_lookup_insert_Some in Hn as [(-> & <- & _)|[Hne Hn]]; [|by apply IH].
    destruct (IH _ _ Hl) as (m & Hm & Htr). exists m. split; [by right|done].
Qed.

(** What an exchange saw before it reached the backend. *)
Lemma dispatched_cleared s ls f n r :
  fleet_run (fleet_new s) ls f → fl_running f !! n = Some r → dispatched (log n ls) = true →
  let x := rn_arrival r in
  ∃ v admitted w prepared owed,
    cleared (ar_proxy x) (ar_http_req x) (ar_peer x) (ar_now x) v admitted w prepared owed (log n ls).
Proof.
  intros Hr Hn Hd. cbn. destruct (fleet_on_track _ _ _ Hr n r Hn) as (m & _ & Htr).
  destruct (prog_completes m) as (t & [a p] & Hm). apply Htr in Hm. unfold handler in Hm. apply handle_runs in Hm.
  remember (log n ls ++ t) as tr eqn:Et. destruct (dispatched_split _ Hd) as (l1 & b & o & l2 & Hl).
  destruct Hm as [t0 a s0 c [Hn0 _] _ _|t1 t2 a s0 c az ad Hd1 _ _ [Hd2 _] _ _|
    v admitted w prepared owed outcome t1 t2 a p az ad Hcl Hd1 _ Hrep].
  - rewrite Et, dispatched_app, Hd in Hn0. done.
  - assert (dispatched (t1 ++ t2) = false) as Hn0 by (by rewrite dispatched_app, Hd1, Hd2).
    rewrite Et, dispatched_app, Hd in Hn0. done.
  - rewrite Hl, <- (assoc_L (++)) in Et. cbn in Et.
    apply dispatched_unique in Et as (<- & _); [|done|destruct a; [apply Hrep|by destruct Hrep]].
    exists v, admitted, w, prepared, owed. destruct Hcl as [Hv [facet Hg] Hleg [ctx Hra] [snap [Hs Hw]] Hsec].
    rewrite Hl. split; [done|..].
    + exists facet. eapply gated_sub; [done|set_solver].
    + eapply answers_leg_sub; [done|set_solver].
    + exists ctx. eapply replay_admitted_sub; [done|set_solver].
    + exists snap. split; [set_solver|done].
    + eapply secured_sub; [done|set_solver].
Qed.

(** ** The replay tier *)

Definition label_event (l : Label) : option Event :=
  match l with Arrived _ => None | Called _ _ e | Abandoned _ _ e => Some e end.
Definition tier_of (f : Fleet) : AsyncReplayTier St := sh_tier (fl_shared f).
Definition fleet_retains (f : Fleet) (k : bytes) (r : Z) : Prop := retains (rt_store (tier_of f)) k r.
Definition store_key (key : ReplayKey) : bytes := composite_replay_key (rk_signer key) (rk_audience key) (rk_nonce key).

Lemma tier_call_spec clock (t : AsyncReplayTier St) key now t' ans :
  store_inv (rt_store t) → tier_check_and_insert clock t key now = (t', ans) →
  store_inv (rt_store t') ∧ rt_freshness t' = rt_freshness t ∧
  (∀ k r, retains (rt_store t) k r → clock ≤ r → retains (rt_store t') k r) ∧
  (ans = Ok Fresh → (∀ r, ¬ retains (rt_store t) (store_key key) r) ∧
     retains (rt_store t') (store_key key) (replay_retain_until (rt_freshness t) (rk_expires_at_unix key))).
Proof.
  intros Hinv. unfold tier_check_and_insert. destruct (charge_reserve _ _ _ _) as [l [c|e]].
  - destruct (atomic_insert_if_absent clock (rt_store t) (insert_of t key now)) as [s out] eqn:Hs.
    destruct (settle l c out) as [l' a] eqn:Hse. intros [<- <-]%pair_equal_spec. cbn.
    destruct (atomic_insert_spec _ _ _ _ _ Hinv Hs) as (S1 & S2 & _ & S3). split; [done|]. split; [done|]. split; [done|].
    intros ->. destruct out as [[]|]; cbn in Hse; simplify_eq. exact S3.
  - intros [<- <-]%pair_equal_spec. done.
Qed.

Lemma fleet_step_tier f l g :
  fleet_step f l g → store_inv (rt_store (tier_of f)) →
  store_inv (rt_store (tier_of g)) ∧ rt_freshness (tier_of g) = rt_freshness (tier_of f) ∧
  (∀ k r, fleet_retains f k r → (∀ clock, label_clock l = Some clock → clock ≤ r) → fleet_retains g k r) ∧
  (∀ key now, label_event l = Some (Ev_replay key now (Ok Fresh)) →
     (∀ r, ¬ fleet_retains f (store_key key) r) ∧
     fleet_retains g (store_key key) (replay_retain_until (rt_freshness (tier_of f)) (rk_expires_at_unix key))).
Proof.
  assert (∀ clock s c (a : answer c) s', stores_answer clock s c a s' → store_inv (rt_store (sh_tier s)) →
    store_inv (rt_store (sh_tier s')) ∧ rt_freshness (sh_tier s') = rt_freshness (sh_tier s) ∧
    (∀ k r, retains (rt_store (sh_tier s)) k r → clock ≤ r → retains (rt_store (sh_tier s')) k r) ∧
    (∀ key now, event_of c a = Ev_replay key now (Ok Fresh) → (∀ r, ¬ retains (rt_store (sh_tier s)) (store_key key) r) ∧
       retains (rt_store (sh_tier s')) (store_key key) (replay_retain_until (rt_freshness (sh_tier s)) (rk_expires_at_unix key)))) as Hans.
  { intros clock s c a s' Ha Hinv. destruct c; cbn in Ha; try (subst s'; split_and!; try done; fail).
    - destruct Ha as [_ ->]. done.
    - destruct Ha as [_ ->]. done.
    - destruct Ha as [_ ->]. done.
    - destruct Ha as [Ha _]. apply tier_call_spec in Ha as (? & ? & ? & Hf); [|done]. split_and!; try done.
      cbn. intros key' now' [= <- <- ->]. by apply Hf. }
  unfold fleet_retains, tier_of. intros Hs Hinv. destruct Hs as [s rs x|s rs n x c k clock a s' Hl Ha|s rs n x c k clock a s' Hl Ha]; cbn in *.
  - split_and!; done.
  - destruct (Hans _ _ _ _ _ Ha Hinv) as (? & ? & Hk & Hf). split_and!; [done|done|naive_solver|]. intros key now [= He]. by apply (Hf key now).
  - destruct (Hans _ _ _ _ _ Ha Hinv) as (? & ? & Hk & Hf). split_and!; [done|done|naive_solver|]. intros key now [= He]. by apply (Hf key now).
Qed.

Lemma fleet_run_tier f ls g :
  fleet_run f ls g → store_inv (rt_store (tier_of f)) →
  store_inv (rt_store (tier_of g)) ∧ rt_freshness (tier_of g) = rt_freshness (tier_of f) ∧
  (∀ k r, fleet_retains f k r → (∀ l clock, l ∈ ls → label_clock l = Some clock → clock ≤ r) → fleet_retains g k r).
Proof.
  induction 1 as [f|f ls g l h Hr IH Hs]; intros Hinv; [done|]. destruct (IH Hinv) as (Hi & Hf & Hk).
  destruct (fleet_step_tier _ _ _ Hs Hi) as (Hi' & Hf' & Hk' & _). split; [done|]. split; [congruence|].
  intros k r Hret Hc. apply Hk'; [apply Hk; [done|]|]; [intros l' clock Hin; apply Hc; set_solver|].
  intros clock. apply Hc. set_solver.
Qed.

Lemma fleet_run_app f ls1 ls2 h : fleet_run f (ls1 ++ ls2) h → ∃ g, fleet_run f ls1 g ∧ fleet_run g ls2 h.
Proof.
  revert h. induction ls2 as [|l ls2 IH] using rev_ind; intros h Hr.
  - rewrite app_nil_r in Hr. exists h. split; [done|constructor].
  - rewrite (assoc_L (++)) in Hr. remember ((ls1 ++ ls2) ++ [l]) as L eqn:E. destruct Hr as [f|f ls' g l' h Hr Hs].
    + by destruct (ls1 ++ ls2).
    + apply app_inj_tail in E as [-> ->]. destruct (IH _ Hr) as (g0 & ? & ?). exists g0. split; [done|by econstructor].
Qed.
Lemma fleet_run_nil f g : fleet_run f [] g → g = f.
Proof. remember [] as L eqn:E. destruct 1 as [|f ls]; [done|by destruct ls]. Qed.
Lemma fleet_run_cons f l ls h : fleet_run f (l :: ls) h → ∃ g, fleet_step f l g ∧ fleet_run g ls h.
Proof.
  intros (g & Hl & Hr)%(fleet_run_app _ [l]). exists g. split; [|done]. clear Hr.
  remember [l] as L eqn:E. destruct Hl as [|f ls' g l' h' Hl Hs]; [done|].
  destruct ls' as [|? [|]]; [|done..]. injection E as ->. by apply fleet_run_nil in Hl as ->.
Qed.

Lemma fresh_once f a x b y c g k1 now1 k2 now2 :
  store_inv (rt_store (tier_of f)) → fleet_run f (a ++ x :: b ++ y :: c) g →
  label_event x = Some (Ev_replay k1 now1 (Ok Fresh)) → label_event y = Some (Ev_replay k2 now2 (Ok Fresh)) →
  (∀ l clock, l ∈ a ++ x :: b ++ y :: c → label_clock l = Some clock →
     clock ≤ replay_retain_until (rt_freshness (tier_of f)) (rk_expires_at_unix k1)) →
  store_key k1 ≠ store_key k2.
Proof.
  intros Hinv (f1 & Ha & Hr)%fleet_run_app Hx Hy Hc. destruct (fleet_run_tier _ _ _ Ha Hinv) as (Hi1 & Hf1 & _).
  apply fleet_run_cons in Hr as (f2 & Hsx & Hr). destruct (fleet_step_tier _ _ _ Hsx Hi1) as (Hi2 & Hf2 & _ & Hfx).
  destruct (Hfx _ _ Hx) as [_ Hret]. rewrite Hf1 in Hret.
  apply fleet_run_app in Hr as (f3 & Hb & Hr). destruct (fleet_run_tier _ _ _ Hb Hi2) as (Hi3 & _ & Hk).
  apply fleet_run_cons in Hr as (f4 & Hsy & _). destruct (fleet_step_tier _ _ _ Hsy Hi3) as (_ & _ & _ & Hfy).
  destruct (Hfy _ _ Hy) as [Hno _]. intros Heq. rewrite <- Heq in Hno. eapply Hno, Hk; [exact Hret|].
  intros l clock Hin. apply Hc. set_solver.
Qed.

Lemma log_called n ls e : e ∈ log n ls → ∃ clock, Called n clock e ∈ ls.
Proof.
  unfold log. intros (l & Hl & He)%list_elem_of_omap. destruct l as [|m clock e'|]; try done. cbn in He.
  case_bool_decide; [|done]. simplify_eq. eauto.
Qed.
Lemma elem_of_ordered {A} (x y : A) l :
  x ∈ l → y ∈ l → x ≠ y → ∃ a b c, l = a ++ x :: b ++ y :: c ∨ l = a ++ y :: b ++ x :: c.
Proof.
  intros (l1 & l2 & ->)%list_elem_of_split [Hy|[->|Hy]%elem_of_cons]%elem_of_app Hne; [|done|].
  - apply list_elem_of_split in Hy as (a & b & ->). exists a, b, l2. right. by rewrite <- (assoc_L (++)).
  - apply list_elem_of_split in Hy as (b & c & ->). exists l1, b, c. by left.
Qed.

(** ** The continuation store *)

Definition holds (key : bytes) (legs : InMemoryContinuationStore) : nat :=
  if is_some (cont_entries legs !! key) then 1 else 0.
Definition taken (key : bytes) (e : Event) : nat :=
  match e with Ev_consume k (Ok true) => if bool_decide (k = key) then 1 else 0 | _ => 0 end.
Definition opened (key : bytes) (e : Event) : nat :=
  match e with Ev_create k _ _ (Ok Stored) => if bool_decide (k = key) then 1 else 0 | _ => 0 end.

(** A leg leaves the store once for each time it entered it. *)
Lemma cont_consume_holds key legs now k legs' a :
  cont_consume legs now k = (legs', a) → (holds key legs' + taken key (Ev_consume k a) ≤ holds key legs)%nat.
Proof.
  unfold cont_consume, holds, taken. destruct (cont_poisoned legs); intros [<- <-]%pair_equal_spec; [lia|]. cbn.
  destruct (decide (k = key)) as [->|Hne].
  - rewrite lookup_delete_eq, bool_decide_true by done. destruct (cont_entries legs !! key) as [[? exp]|]; cbn; [|lia].
    destruct (now <? exp); cbn; lia.
  - rewrite lookup_delete_ne, bool_decide_false by done.
    destruct (match cont_entries legs !! k with Some _ => _ | None => _ end); lia.
Qed.
Lemma insert_if_absent_holds key legs now k bases ttl legs' a :
  insert_if_absent legs now k bases ttl = (legs', a) →
  (holds key legs' ≤ holds key legs + opened key (Ev_create k bases ttl a))%nat.
Proof.
  unfold insert_if_absent, holds, opened. destruct (cont_poisoned legs); [intros [<- <-]%pair_equal_spec; lia|].
  set (live := filter _ (cont_entries legs)).
  assert (is_some (live !! key) = true → is_some (cont_entries legs !! key) = true) as Hlive.
  { destruct (live !! key) as [v|] eqn:E; [|done]. apply map_lookup_filter_Some in E as [-> _]. done. }
  destruct (live !! k) as [v|] eqn:E; intros [<- <-]%pair_equal_spec; cbn.
  - destruct (is_some (live !! key)), (is_some (cont_entries legs !! key)); lia.
  - destruct (decide (k = key)) as [->|Hne].
    + rewrite lookup_insert_eq, bool_decide_true by done. cbn. lia.
    + rewrite lookup_insert_ne, bool_decide_false by done.
      destruct (is_some (live !! key)), (is_some (cont_entries legs !! key)); lia.
Qed.

Lemma answered_holds key clock s c a s' :
  stores_answer clock s c a s' →
  (holds key (sh_legs s') + taken key (event_of c a) ≤ holds key (sh_legs s) + opened key (event_of c a))%nat.
Proof.
  intros Ha. destruct c as [| | | |k|k|k bases ttl| | | | | | | |]; cbn in Ha; try (subst s'; cbn; lia).
  - destruct Ha as [_ ->]. cbn. lia.
  - destruct Ha as [Ha%(cont_consume_holds key) _]. cbn in *. lia.
  - destruct Ha as [Ha%(insert_if_absent_holds key) _]. cbn in *. lia.
  - destruct Ha as [_ ->]. cbn. lia.
Qed.

Definition on_event (g : Event → nat) (l : Label) : nat := match label_event l with Some e => g e | None => 0 end.
Definition total (g : Event → nat) (ls : list Label) : nat := sum_list_with (on_event g) ls.

Lemma fleet_run_legs key f ls g :
  fleet_run f ls g →
  (holds key (sh_legs (fl_shared g)) + total (taken key) ls ≤ holds key (sh_legs (fl_shared f)) + total (opened key) ls)%nat.
Proof.
  induction 1 as [f|f ls g l h Hr IH Hs]; [done|]. unfold total in *. rewrite !sum_list_with_app. cbn.
  destruct Hs as [s rs x|s rs n x c k clock a s' Hl Ha|s rs n x c k clock a s' Hl Ha]; cbn in *;
    [lia|pose proof (answered_holds key _ _ _ _ _ Ha); lia..].
Qed.

(** Distinct exchanges that each took the leg took it that many times. *)
Definition taker (key : bytes) (l : Label) : option nat :=
  match l with Called n _ (Ev_consume k (Ok true)) => if bool_decide (k = key) then Some n else None | _ => None end.
Lemma takers_total key ls : (length (omap (taker key) ls) ≤ total (taken key) ls)%nat.
Proof.
  induction ls as [|l ls IH]; [done|]. unfold total in *. cbn.
  assert (taker key l ≠ None → on_event (taken key) l = 1%nat) as Hl.
  { destruct l as [|n cl []|]; try done. cbn. destruct a as [[]|]; [|done..]. by case_bool_decide. }
  destruct (taker key l); cbn; [rewrite Hl by done|]; lia.
Qed.
Lemma total_taken key ls ns :
  NoDup ns → (∀ n, n ∈ ns → ∃ clock, Called n clock (Ev_consume key (Ok true)) ∈ ls) →
  (length ns ≤ total (taken key) ls)%nat.
Proof.
  intros Hnd Hin. etrans; [|apply takers_total]. apply submseteq_length, NoDup_submseteq; [done|].
  intros n Hn. destruct (Hin n Hn) as [clock Hc]. apply list_elem_of_omap. exists (Called n clock (Ev_consume key (Ok true))).
  split; [done|]. cbn. by rewrite bool_decide_true.
Qed.

(** ** The guarantees *)

(** C5: however many handlers run at once, and whichever of them are abandoned, two exchanges
    that both reach the backend are for different nonces (profile, label, actor, audience and
    nonce), as long as the replay store's clock has not passed the retention of either. *)
Theorem fleet_dispatches_once s ls f m n rm rn vm vn :
  store_inv (rt_store (sh_tier s)) → fleet_run (fleet_new s) ls f → m ≠ n →
  fl_running f !! m = Some rm → dispatched (log m ls) = true →
  verified_as (ar_proxy (rn_arrival rm)) (ar_http_req (rn_arrival rm)) (ar_now (rn_arrival rm)) vm →
  fl_running f !! n = Some rn → dispatched (log n ls) = true →
  verified_as (ar_proxy (rn_arrival rn)) (ar_http_req (rn_arrival rn)) (ar_now (rn_arrival rn)) vn →
  (∀ l clock v, l ∈ ls → label_clock l = Some clock → v ∈ [vm; vn] →
     clock ≤ replay_retain_until (rt_freshness (sh_tier s)) (fr_expires (vr_floor v))) →
  replay_key_of vm ≠ replay_key_of vn.
Proof.
  intros Hinv Hr Hne Hm Hdm Hvm Hn Hdn Hvn Hc Heq.
  assert (∀ i r v, fl_running f !! i = Some r → dispatched (log i ls) = true →
    verified_as (ar_proxy (rn_arrival r)) (ar_http_req (rn_arrival r)) (ar_now (rn_arrival r)) v →
    ∃ clock now, Called i clock (Ev_replay (to_core_replay_key (replay_key_of v) (fr_expires (vr_floor v))) now (Ok Fresh)) ∈ ls) as Hcalled.
  { intros i r v Hi Hd Hv. destruct (dispatched_cleared _ _ _ _ _ Hr Hi Hd) as (v' & ? & ? & ? & ? & Hcl).
    destruct Hcl as [Hv' _ _ [ctx Hra] _ _]. unfold verified_as in *. rewrite Hv in Hv'. injection Hv' as <-.
    destruct (log_called _ _ _ (ra_fresh _ _ _ _ _ Hra)) as [clock Hin]. eauto. }
  destruct (Hcalled _ _ _ Hm Hdm Hvm) as (c1 & n1 & Hx). destruct (Hcalled _ _ _ Hn Hdn Hvn) as (c2 & n2 & Hy).
  edestruct (elem_of_ordered _ _ ls Hx Hy) as (a & b & c & [-> | ->]); [by intros [= ? _ _ _]| |];
    (eapply (fresh_once (fleet_new s)); [exact Hinv|exact Hr|reflexivity|reflexivity| |]);
    [intros l clock Hin Hcl; apply (Hc l clock); [done|done|set_solver]
    |unfold store_key; cbn [to_core_replay_key rk_signer rk_audience rk_nonce]; by rewrite Heq
    |intros l clock Hin Hcl; apply (Hc l clock); [done|done|set_solver]
    |unfold store_key; cbn [to_core_replay_key rk_signer rk_audience rk_nonce]; by rewrite Heq].
Qed.

(** C6: the exchanges that reach the backend with an answer to one open leg are no more than the
    times that leg was opened: an approval is spent once, whatever runs concurrently. *)
Theorem fleet_answers_once s ls f key ns :
  fleet_run (fleet_new s) ls f → NoDup ns →
  (∀ n, n ∈ ns → ∃ r v c state, fl_running f !! n = Some r ∧ dispatched (log n ls) = true ∧
     verified_as (ar_proxy (rn_arrival r)) (ar_http_req (rn_arrival r)) (ar_now (rn_arrival r)) v ∧
     rb_continuation (vr_request_block v) = Some c ∧
     extract_request_state (req_body (ar_http_req (rn_arrival r))) = Some state ∧
     answer_key_of (ar_proxy (rn_arrival r)) v state = key) →
  (length ns ≤ holds key (sh_legs s) + total (opened key) ls)%nat.
Proof.
  intros Hr Hnd Hns. pose proof (fleet_run_legs key _ _ _ Hr) as Hle. cbn in Hle.
  enough (length ns ≤ total (taken key) ls)%nat by lia. apply total_taken; [done|].
  intros n Hn. destruct (Hns n Hn) as (r & v & c & state & Hi & Hd & Hv & Hc & Hst & <-).
  destruct (dispatched_cleared _ _ _ _ _ Hr Hi Hd) as (v' & ? & ? & ? & ? & Hcl).
  destruct Hcl as [Hv' _ Hleg _ _ _]. unfold verified_as in *. rewrite Hv in Hv'. injection Hv' as <-.
  destruct (Hleg c Hc) as (state' & bases & Hst' & _ & _ & Hcons). rewrite Hst in Hst'. injection Hst' as <-.
  by apply log_called.
Qed.

(** ** One handler driven to its end *)

Definition answer_at (clock : Z) (env : ∀ c, answer c) (s : Shared) (c : Call) : answer c * Shared :=
  match c with
  | Replay_check_and_insert key now =>
      let '(t, a) := tier_check_and_insert clock (sh_tier s) key now in (a, {| sh_tier := t; sh_legs := sh_legs s |})
  | Continuation_peek key => (cont_peek (sh_legs s) clock key, s)
  | Continuation_consume key =>
      let '(l, a) := cont_consume (sh_legs s) clock key in (a, {| sh_tier := sh_tier s; sh_legs := l |})
  | Continuation_create key bases ttl =>
      let '(l, a) := insert_if_absent (sh_legs s) clock key bases ttl in (a, {| sh_tier := sh_tier s; sh_legs := l |})
  | c => (env c, s)
  end.

Lemma answer_at_answered clock env s c : stores_answer clock s c (answer_at clock env s c).1 (answer_at clock env s c).2.
Proof.
  destruct c; cbn; try done; [destruct (cont_consume _ _ _)|destruct (insert_if_absent _ _ _ _ _)|destruct (tier_check_and_insert _ _ _ _)];
    done.
Qed.

Fixpoint drive {R} (clock : Z) (env : ∀ c, answer c) (s : Shared) (m : Prog R) : list Event * Shared * R :=
  match m with
  | Ret r => ([], s, r)
  | Do c k =>
      let '(a, s) := answer_at clock env s c in
      let '(t, s, r) := drive clock env s (k a) in (event_of c a :: t, s, r)
  end.

Lemma drive_run f ls clock env n x m s rs :
  fleet_run f ls {| fl_shared := s; fl_running := rs |} → rs !! n = Some {| rn_arrival := x; rn_rest := Some m |} →
  fleet_run f (ls ++ (Called n clock <$> (drive clock env s m).1.1))
    {| fl_shared := (drive clock env s m).1.2;
       fl_running := <[n := {| rn_arrival := x; rn_rest := Some (Ret (drive clock env s m).2) |}]> rs |}.
Proof.
  revert ls s rs. induction m as [r|c k IH]; intros ls s rs Hr Hn; cbn [drive].
  - cbn. rewrite app_nil_r, list_insert_id by done. done.
  - pose proof (answer_at_answered clock env s c) as Ha. destruct (answer_at clock env s c) as [a s'] eqn:Ea. cbn in Ha.
    specialize (IH a (ls ++ [Called n clock (event_of c a)]) s' (<[n := {| rn_arrival := x; rn_rest := Some (k a) |}]> rs)).
    destruct (drive clock env s' (k a)) as [[t s''] r]. cbn in *. rewrite list_insert_insert_eq, <- (assoc_L (++)) in IH.
    apply IH; [|by apply list_lookup_insert_eq; eapply lookup_lt_Some]. econstructor; [done|]. by apply fleet_call.
Qed.

Lemma arrive_run f ls s rs x :
  fleet_run f ls {| fl_shared := s; fl_running := rs |} →
  fleet_run f (ls ++ [Arrived x]) {| fl_shared := s; fl_running := rs ++ [{| rn_arrival := x; rn_rest := Some (handler x) |}] |}.
Proof. intros Hr. econstructor; [done|constructor]. Qed.

(** The instants of two handlers driven one after the other. *)
Lemma two_clocks x0 x1 m n c0 c1 t0 t1 l clock :
  l ∈ (([Arrived x0] ++ [Arrived x1]) ++ (Called m c0 <$> t0)) ++ (Called n c1 <$> t1) →
  label_clock l = Some clock → clock ≤ Z.max c0 c1.
Proof.
  rewrite !elem_of_app, !list_elem_of_singleton, !list_elem_of_fmap.
  intros [[[-> | ->]|(e & -> & _)]|(e & -> & _)]; cbn; intros [= <-]; lia.
Qed.
End fleet.

(** ** Witnesses *)

Import Instances.

(** A digest that keeps the end of its input, so that the two nonces below do not collide. *)
#[local] Instance wf_sha : Sha2 := { sha256 b := take 32 (reverse b ++ replicate 32 "0"%char) }.

(** A second request for the same tool with its own nonce, and one that answers an open leg. *)
Definition wf_inputs (nonce : bytes) : RequestSigningInputs :=
  with_authorization_decision
    (with_headers (RequestSigningInputs_new b#"k1" w_audience [dpop_binding wc_credential] nonce 100 160)
       [(b#"Authorization", authorization_header_value wc_credential)]) b#"decision".
Definition wf_answering : RequestSigningInputs :=
  with_continuation (wf_inputs b#"nopqrstuvwxyzabcdefghij") (continuation_build b#"req" b#"resp" b#"st").

#[local] Instance wf_f64 : F64Carrier := { f64_reemit := Some }.
#[local] Instance wf_peer : ChannelPeer unit := { peer_identity _ := b#"s" }.
#[local] Instance wf_request_serde : Serde HttpRequestEvidenceBlock :=
  two_value_serde (evidence_block (wf_inputs [])) (evidence_block wf_answering) b#"q" b#"r".
#[local] Instance wf_response_serde : Serde HttpResponseEvidenceBlock := serde_through (λ _, None) (λ _, None).
#[local] Instance wf_context_serde : Serde VerifiedContext := serde_through (λ _, None) (λ _, None).
#[local] Instance wf_header_serde : Serde AdmissionHeader := serde_through (λ _, None) (λ _, None).
#[local] Instance wf_claims_serde : Serde AdmissionClaims := serde_through (λ _, None) (λ _, None).

Definition wf_arrival (inputs : RequestSigningInputs) (params : gmap bytes Value) : Arrival (P := unit) :=
  {| ar_proxy := wv_proxy;
     ar_http_req := match build_signed_request (JString b#"1") b#"tools/call" params b#"https://h/mcp" inputs w_key with
                    | Ok sr => sg_request sr
                    | Err _ => w_request
                    end;
     ar_peer := Some tt; ar_now := 120 |}.
Definition wf_x0 : Arrival (P := unit) := wf_arrival (wf_inputs b#"abcdefghijklmnopqrstuv") ∅.
Definition wf_x1 : Arrival (P := unit) := wf_arrival (wf_inputs b#"bcdefghijklmnopqrstuvw") ∅.
Definition wf_x2 : Arrival (P := unit) := wf_arrival wf_answering {[ b#"requestState" := JString b#"st" ]}.

Definition wf_verified (x : Arrival (P := unit)) : VerifiedMcpRequest :=
  match verify_request {| v_policy := px_policy (ar_proxy x); v_resolve_actor := px_resolve_actor (ar_proxy x) |}
          (ar_http_req x) (px_expected_audience (ar_proxy x)) (λ _, None) (ar_now x) with
  | Ok v => v
  | Err _ => w_verified
  end.
Definition wf_key : bytes := answer_key_of wv_proxy (wf_verified wf_x2) b#"st".

(** The tier is new; the store holds the leg until 200. *)
Definition wf_shared : Shared (St := InMemoryAsyncAtomicReplayStore) :=
  {| sh_tier := AsyncReplayTier_new_bounded InMemoryAsyncAtomicReplayStore_default {| fw_max_clock_skew_secs := 30 |} 100000;
     sh_legs := {| cont_entries := {[ wf_key := ({| previous_request_base := b#"req";
                                                     input_required_response_base := b#"resp" |}, 200) ]};
                   cont_poisoned := false |} |}.
Definition wf_first := drive 121 (wv_env (Ok tt) []) wf_shared (handler wf_x0).
Definition wf_second := drive 122 (wv_env (Ok tt) []) wf_first.1.2 (handler wf_x1).
Definition wf_labels : list (Label (P := unit)) :=
  (([Arrived wf_x0] ++ [Arrived wf_x1]) ++ (Called 0 121 <$> wf_first.1.1)) ++ (Called 1 122 <$> wf_second.1.1).
Definition wf_final : Fleet (P := unit) (St := InMemoryAsyncAtomicReplayStore) :=
  {| fl_shared := wf_second.1.2;
     fl_running := [{| rn_arrival := wf_x0; rn_rest := Some (Ret wf_first.2) |};
                    {| rn_arrival := wf_x1; rn_rest := Some (Ret wf_second.2) |}] |}.

Lemma wf_run : fleet_run (fleet_new wf_shared) wf_labels wf_final.
Proof.
  pose proof (arrive_run _ _ _ _ wf_x1 (arrive_run _ _ _ _ wf_x0 (fleet_nil (fleet_new wf_shared)))) as Hr.
  pose proof (drive_run _ _ 121 (wv_env (Ok tt) []) 0 wf_x0 (handler wf_x0) _ _ Hr eq_refl) as Hr1.
  exact (drive_run _ _ 122 (wv_env (Ok tt) []) 1 wf_x1 (handler wf_x1) _ _ Hr1 eq_refl).
Qed.

Lemma fleet_dispatches_once_witness : replay_key_of (wf_verified wf_x0) ≠ replay_key_of (wf_verified wf_x1).
Proof.
  eapply (fleet_dispatches_once wf_shared wf_labels wf_final 0 1 _ _ (wf_verified wf_x0) (wf_verified wf_x1));
    [apply default_store_inv|exact wf_run|discriminate|reflexivity|vm_compute; reflexivity|vm_compute; reflexivity
    |reflexivity|vm_compute; reflexivity|vm_compute; reflexivity|].
  intros l clock v Hl Hc Hv. etrans; [exact (two_clocks wf_x0 wf_x1 0 1 121 122 wf_first.1.1 wf_second.1.1 l clock Hl Hc)|].
  apply elem_of_cons in Hv as [->|Hv]; [vm_compute; discriminate|].
  apply list_elem_of_singleton in Hv as ->. vm_compute. discriminate.
Defined.

Definition wf_answer := drive 121 (wv_env (Ok tt) []) wf_shared (handler wf_x2).
Definition wf_answer_labels : list (Label (P := unit)) := [Arrived wf_x2] ++ (Called 0 121 <$> wf_answer.1.1).

Lemma fleet_answers_once_witness :
  (1 ≤ holds wf_key (sh_legs wf_shared) + total (opened wf_key) wf_answer_labels)%nat.
Proof.
  eapply (fleet_answers_once wf_shared wf_answer_labels _ wf_key [0%nat]).
  - exact (drive_run _ _ 121 (wv_env (Ok tt) []) 0 wf_x2 (handler wf_x2) _ _
      (arrive_run _ _ _ _ wf_x2 (fleet_nil (fleet_new wf_shared))) eq_refl).
  - apply NoDup_singleton.
  - intros n Hn. apply list_elem_of_singleton in Hn as ->.
    eexists _, (wf_verified wf_x2), (continuation_build b#"req" b#"resp" b#"st"), b#"st".
    split; [reflexivity|]. split; [vm_compute; reflexivity|]. split; [vm_compute; reflexivity|].
    split; [vm_compute; reflexivity|]. split; [vm_compute; reflexivity|reflexivity].
Defined.
