(* ===== verification/Retention.v ===== *)
(** * [mcp-re-proxy/src/transparency], [retained_evidence]: the evidence store and its writer

    An exchange leaves a trace on disk in three steps: a reserved marker, its rename to a pending
    marker before the backend is reached, and a record of the exchange after which the marker is
    cleared. Requests queue jobs; one thread takes them in batches, acts on the directory, takes
    one directory sync for the batch, withdraws what must be withdrawn when the sync fails, and
    acknowledges. Here are the records, the jobs and the writer, as a program over the calls it
    makes on the directory; [RetentionCrash] has the directory and what a crash leaves,
    [RetentionQueue] the queue and its permits. *)

From S2P Require Import Prelude.
From S2P Require Import RustStr.
From S2P Require Import Externals.
From S2P Require Import Json.
From S2P Require Import CoreResolver.
From S2P Require Import HttpMessage.
From S2P Require Import SigBase.
From S2P Require Import Policy.
From S2P Require Import Blocks.
From S2P Require Import Body.
From S2P Require Import Floor.
From S2P Require Import Sign.
From S2P Require Import Full.
From S2P Require Import Delegation.
From S2P Require Import Chain.
From S2P Require Import Cose.
From S2P Require Import Scitt.
From S2P Require Import Serve.

(** ** [covered_set.rs] *)

(** The members between the commas outside quotes; a backslash only escapes inside quotes. *)
Fixpoint members_go (quoted escaped : bool) (cur s : bytes) : list bytes :=
  match s with
  | [] => [cur]
  | c :: s' =>
      if escaped then members_go quoted false (cur ++ [c]) s'
      else if ascii_eqb c "\" && quoted then members_go quoted true (cur ++ [c]) s'
      else if ascii_eqb c "034" then members_go (negb quoted) false (cur ++ [c]) s'
      else if ascii_eqb c "," && negb quoted then cur :: members_go quoted false [] s'
      else members_go quoted false (cur ++ [c]) s'
  end.
Definition dictionary_members (value : bytes) : list bytes := members_go false false [] value.

Fixpoint component_list_in (members : list bytes) (label : bytes) : option bytes :=
  match members with
  | [] => None
  | member :: rest =>
      match split_once_char "=" member with
      | Some (name, tail) =>
          if bytes_eqb (trim name) label
          then '(_, tail) ← split_once_char "(" tail; '(components, _) ← split_once_char ")" tail; Some components
          else component_list_in rest label
      | None => component_list_in rest label
      end
  end.
Definition component_list_for (value label : bytes) : option bytes := component_list_in (dictionary_members value) label.

(** [str::split_whitespace]: the words between runs of white space. *)
Definition flush (word : bytes) : list bytes := match word with [] => [] | _ => [word] end.
Fixpoint split_ws (word s : bytes) : list bytes :=
  match s with
  | [] => flush word
  | c :: s1 =>
      if ws1 c then flush word ++ split_ws [] s1
      else match s1 with
           | d :: s2 =>
               if ws2 c d then flush word ++ split_ws [] s2
               else match s2 with
                    | e :: s3 => if ws3 c d e then flush word ++ split_ws [] s3 else split_ws (word ++ [c]) s1
                    | [] => split_ws (word ++ [c]) s1
                    end
           | [] => split_ws (word ++ [c]) s1
           end
  end.
Definition split_whitespace (s : bytes) : list bytes := split_ws [] s.

Definition component_name (item : bytes) : option bytes :=
  rest ← strip_prefix ["034"%char] item; '(name, _) ← split_once_char "034" rest; Some name.
Definition component_names (components : bytes) : list bytes := omap component_name (split_whitespace components).

Definition covered_names (headers : Headers) (label : bytes) : list bytes :=
  concat (map (λ '(name, value),
    if negb (eq_ignore_ascii_case name b#"signature-input") then []
    else match component_list_for value label with
         | None => []
         | Some components => map to_ascii_lowercase (List.filter (λ c, negb (starts_with b#"@" c)) (component_names components))
         end) headers).
Definition covered_headers (headers : Headers) (label : bytes) : Headers :=
  let covered := covered_names headers label in
  List.filter (λ '(name, _),
    let lower := to_ascii_lowercase name in
    bytes_eqb lower b#"signature" || bytes_eqb lower b#"signature-input" || existsb (bytes_eqb lower) covered) headers.

(** ** [retained_record.rs] *)

Definition RETAINED_HOP_SCHEMA : bytes := b#"mcp-re-retained-hop/v1".
Record RetainedRequest := { rq_method : bytes; rq_target_uri : bytes; rq_headers : Headers; rq_body_b64 : bytes }.
Record RetainedResponse := { rs_status : Z; rs_headers : Headers; rs_body_b64 : bytes }.
Record RetainedHopRecord := { rh_schema : bytes; rh_request : RetainedRequest; rh_response : RetainedResponse }.

Section records.
Context `{Base64}.

Definition retained_request (request : HttpRequest) : RetainedRequest :=
  {| rq_method := req_method request; rq_target_uri := req_target_uri request;
     rq_headers := covered_headers (req_headers request) REQUEST_LABEL; rq_body_b64 := b64url_encode (req_body request) |}.
Definition record_over (request : RetainedRequest) (response : HttpResponse) : RetainedHopRecord :=
  {| rh_schema := RETAINED_HOP_SCHEMA; rh_request := request;
     rh_response := {| rs_status := resp_status response;
                       rs_headers := covered_headers (resp_headers response) RESPONSE_LABEL;
                       rs_body_b64 := b64url_encode (resp_body response) |} |}.
Definition record_of (request : HttpRequest) (response : HttpResponse) : RetainedHopRecord :=
  record_over (retained_request request) response.

Definition into_hop (self : RetainedHopRecord) : Result RetainedHop RetentionError :=
  if negb (bytes_eqb (rh_schema self) RETAINED_HOP_SCHEMA) then Err (RE_Malformed b#"unknown retained-hop schema")
  else
    let? req_body := map_err (λ _, RE_Malformed b#"request body encoding") (b64url_decode (rq_body_b64 (rh_request self))) in
    let? resp_body := map_err (λ _, RE_Malformed b#"response body encoding") (b64url_decode (rs_body_b64 (rh_response self))) in
    Ok {| hop_request := {| req_method := rq_method (rh_request self); req_target_uri := rq_target_uri (rh_request self);
                            req_headers := rq_headers (rh_request self); req_body := req_body |};
          hop_response := {| resp_status := rs_status (rh_response self); resp_headers := rs_headers (rh_response self);
                             resp_body := resp_body |} |}.
End records.

(** ** [durable_job.rs], [reservation_marker.rs], [durability_bounds.rs]

    A [Sender] of an acknowledgement is named by the exchange and the call that awaits it, a
    permit by its exchange. The directory's [PathBuf]s are names in it. *)

Inductive Awaited := AwaitReserve | AwaitCommit | AwaitComplete | AwaitRetain.
Record AckSender := { ack_exchange : nat; ack_call : Awaited }.

Inductive JobKind :=
  | PublishOrWithdraw (path content : bytes)
  | CommitMarker (reserved committed : bytes)
  | Publish (path content : bytes) (clear_marker : option bytes)
  | Rescind (marker : bytes).
Definition is_pre_dispatch (kind : JobKind) : bool :=
  match kind with PublishOrWithdraw _ _ | CommitMarker _ _ => true | _ => false end.

(** An [io::Error], as far as the code tells one from another. *)
Inductive IoKind := IoNotFound | IoWouldBlock | IoBrokenPipe | IoInvalidInput | IoInvalidData | IoOther.
Record IoError := { io_kind : IoKind; io_text : bytes }.

Inductive JobFault := NotPublished (e : IoError) | Unwithdrawn (e : IoError).

(** [cleanup] jobs hold no permit, and nobody listens to their acknowledgement. *)
Record WriteJob := { wj_kind : JobKind; wj_ack : option AckSender; wj_slot : option nat }.
Definition accounted (kind : JobKind) (ack : AckSender) (slot : nat) : WriteJob :=
  {| wj_kind := kind; wj_ack := Some ack; wj_slot := Some slot |}.
Definition cleanup (kind : JobKind) : WriteJob := {| wj_kind := kind; wj_ack := None; wj_slot := None |}.

Definition MAX_RESERVATIONS : nat := 1024.
Definition MAX_WRITE_BATCH : nat := 64.
(** [usize::saturating_mul] does not saturate below the half of [usize::MAX]. *)
Definition write_queue_capacity (max_reservations : nat) : nat := max_reservations * 2.

Definition RESERVED_EXTENSION : bytes := b#"reserved".
Definition PENDING_EXTENSION : bytes := b#"pending".

Record ReservationMarker := { rm_request_digest : bytes }.
Definition marker_to_bytes `{Serde ReservationMarker} (m : ReservationMarker) : Result bytes RetentionError :=
  ok_or (to_vec_of m) (RE_Malformed b#"reservation marker does not serialize").

(** ** [retained_evidence/archive.rs], [durability.rs]: names *)

Definition object_path (digest : bytes) : Result bytes IoError :=
  if negb (bytes_eqb digest []) && (length digest <=? 64)%nat && forallb b64url_char digest
  then Ok digest
  else Err {| io_kind := IoInvalidInput; io_text := b#"evidence digest is not a base64url token" |}.
Definition archive_object_path (digest : bytes) : Result bytes RetentionError :=
  map_err (λ _, RE_Malformed b#"evidence digest is not a token") (object_path digest).
Definition marker_path (digest stage : bytes) : Result bytes RetentionError :=
  let? name := archive_object_path digest in Ok (name ++ b#"." ++ stage).

Definition marker_digest `{Base64} (name suffix : bytes) : option bytes :=
  match strip_suffix suffix name with
  | None => None
  | Some token => match EvidenceDigest_from_token token with Ok digest => Some digest | Err _ => None end
  end.

(** ** The writer's calls

    Each but [UniqueSuffix] and the last two can fail. [DropSlot] and [SendAck] are the end of a
    job's permit and its acknowledgement. *)

Inductive FsCall :=
  | UniqueSuffix
  | OpenPrivate (path : bytes)
  | WriteAll (path content : bytes)
  | SyncAll (path : bytes)
  | RenameFile (from to : bytes)
  | RemoveFile (path : bytes)
  | SyncRoot
  | DropSlot (slot : option nat)
  | SendAck (ack : option AckSender) (outcome : Result unit JobFault).

Definition fs_answer (c : FsCall) : Type :=
  match c with UniqueSuffix => bytes | DropSlot _ | SendAck _ _ => unit | _ => Result unit IoError end.

Inductive FsProg (R : Type) :=
  | FsRet (r : R)
  | FsDo (c : FsCall) (k : fs_answer c → FsProg R).
Arguments FsRet {R} r.
Arguments FsDo {R} c k.

#[global] Instance fsprog_ret : MRet FsProg := @FsRet.
#[global] Instance fsprog_bind : MBind FsProg := λ _ _,
  fix bind f m := match m with FsRet x => f x | FsDo c k => FsDo c (λ a, bind f (k a)) end.
Definition fs (c : FsCall) : FsProg (fs_answer c) := FsDo c FsRet.

(** The [?] of a closure that returns [io::Result], and [iter().map(..).collect()]. *)
Definition fs_try {A} (m : FsProg (Result unit IoError)) (k : FsProg (Result A IoError)) : FsProg (Result A IoError) :=
  r ← m; match r with Ok _ => k | Err e => FsRet (Err e) end.
Fixpoint fs_map {A B} (f : A → FsProg B) (l : list A) : FsProg (list B) :=
  match l with [] => FsRet [] | x :: l' => y ← f x; ys ← fs_map f l'; FsRet (y :: ys) end.

(** ** [retained_evidence/store.rs] *)

Definition stage_at (path content : bytes) : FsProg (Result unit IoError) :=
  suffix ← fs UniqueSuffix;
  let tmp := path ++ b#".tmp." ++ suffix in
  staged ← fs_try (fs (OpenPrivate tmp)) (fs_try (fs (WriteAll tmp content)) (fs_try (fs (SyncAll tmp)) (fs (RenameFile tmp path))));
  match staged with
  | Ok _ => FsRet staged
  | Err _ => _ ← fs (RemoveFile tmp); FsRet staged
  end.

(** [stage] and the trait's [put]. *)
Definition store_stage `{Base64, Sha2} (evidence : bytes) : FsProg (Result bytes IoError) :=
  let digest := EvidenceDigest_of evidence in
  match object_path digest with
  | Err e => FsRet (Err e)
  | Ok path => fs_try (stage_at path evidence) (FsRet (Ok digest))
  end.
Definition store_put `{Base64, Sha2} (evidence : bytes) : FsProg (Result bytes IoError) :=
  staged ← store_stage evidence;
  match staged with
  | Err e => FsRet (Err e)
  | Ok digest => fs_try (fs SyncRoot) (FsRet (Ok digest))
  end.

(** ** [durable_writer.rs] *)

Definition act (kind : JobKind) : FsProg (Result bool IoError) :=
  match kind with
  | PublishOrWithdraw path content | Publish path content _ =>
      r ← stage_at path content; FsRet (match r with Ok _ => Ok true | Err e => Err e end)
  | CommitMarker reserved committed =>
      r ← fs (RenameFile reserved committed); FsRet (match r with Ok _ => Ok true | Err e => Err e end)
  | Rescind marker =>
      removed ← fs (RemoveFile marker);
      FsRet (match removed with
             | Ok _ => Ok false
             | Err e => match io_kind e with IoNotFound => Ok false | _ => Err e end
             end)
  end.

Definition withdraw (kind : JobKind) : FsProg (option (Result unit IoError)) :=
  match kind with
  | PublishOrWithdraw path _ => r ← fs (RemoveFile path); FsRet (Some r)
  | CommitMarker reserved committed => r ← fs (RenameFile committed reserved); FsRet (Some r)
  | Publish _ _ _ | Rescind _ => FsRet None
  end.

Definition clear_marker_of (kind : JobKind) : FsProg unit :=
  match kind with
  | Publish _ _ (Some marker) => _ ← fs (RemoveFile marker); FsRet tt
  | _ => FsRet tt
  end.

Definition resolve (kind : JobKind) (acted : Result bool IoError) (barrier : Result unit IoError)
    (withdrawn : option (Result unit IoError)) (withdrawal_barrier : Result unit IoError)
    : FsProg (Result unit JobFault) :=
  match acted with
  | Err e => FsRet (Err (NotPublished e))
  | Ok changed =>
      match barrier with
      | Err e =>
          FsRet (Err (if negb changed then NotPublished e
                      else match withdrawn, withdrawal_barrier with
                           | Some (Ok _), Ok _ => NotPublished e
                           | Some _, _ => Unwithdrawn e
                           | None, _ => NotPublished e
                           end))
      | Ok _ => _ ← clear_marker_of kind; FsRet (Ok tt)
      end
  end.

Definition is_changed (acted : Result bool IoError) : bool := match acted with Ok true => true | _ => false end.

Definition withdraw_acted (barrier : Result unit IoError) (ja : WriteJob * Result bool IoError)
    : FsProg (option (Result unit IoError)) :=
  match barrier, ja.2 with
  | Err _, Ok true => withdraw (wj_kind ja.1)
  | _, _ => FsRet None
  end.

Fixpoint settle_batch (barrier withdrawal_barrier : Result unit IoError)
    (batch : list (WriteJob * Result bool IoError * option (Result unit IoError))) : FsProg unit :=
  match batch with
  | [] => FsRet tt
  | (job, acted, withdrawn) :: rest =>
      outcome ← resolve (wj_kind job) acted barrier withdrawn withdrawal_barrier;
      _ ← fs (DropSlot (wj_slot job));
      _ ← fs (SendAck (wj_ack job) outcome);
      settle_batch barrier withdrawal_barrier rest
  end.

Definition run_batch (batch : list WriteJob) : FsProg unit :=
  acted ← fs_map (λ job, act (wj_kind job)) batch;
  barrier ← if existsb is_changed acted then fs SyncRoot else FsRet (Ok tt);
  withdrawn ← fs_map (withdraw_acted barrier) (zip batch acted);
  withdrawal_barrier ← if existsb is_some withdrawn then fs SyncRoot else FsRet (Ok tt);
  settle_batch barrier withdrawal_barrier (zip (zip batch acted) withdrawn).

(** [write_loop], over the batches it drains. *)
Fixpoint write_loop (batches : list (list WriteJob)) : FsProg unit :=
  match batches with
  | [] => FsRet tt
  | batch :: rest => _ ← run_batch batch; write_loop rest
  end.

(** ** [durability.rs]: what a caller is told, and the markers found *)

Definition writer_lost (pre_dispatch : bool) : RetentionError :=
  let lost := b#"retention writer stopped before acknowledging the write" in
  if pre_dispatch then RE_Unresolved lost else RE_Store lost.

Inductive TrySendError := SendFull | SendDisconnected.
Definition send_refused (e : TrySendError) : RetentionError :=
  match e with
  | SendFull => RE_Store b#"retention queue is full"
  | SendDisconnected => RE_StoreRetired b#"the retained-evidence writer has stopped; no further write will be accepted by this replica"
  end.

(** The end of [submit]: nothing acknowledged when the sender is gone. *)
Definition submit_answer (kind : JobKind) (sent : Result unit TrySendError) (acked : option (Result unit JobFault)) : Result unit RetentionError :=
  let? _ := map_err send_refused sent in
  match acked with
  | Some (Ok _) => Ok tt
  | Some (Err (NotPublished e)) => Err (RE_Store (io_text e))
  | Some (Err (Unwithdrawn e)) => Err (RE_Unresolved (io_text e))
  | None => Err (writer_lost (is_pre_dispatch kind))
  end.

(** [Vec::sort] of strings. *)
Fixpoint insert_sorted (x : bytes) (l : list bytes) : list bytes :=
  match l with [] => [x] | y :: l' => if bytes_ltb y x then y :: insert_sorted x l' else x :: l end.
Definition sort_strings (l : list bytes) : list bytes := foldr insert_sorted [] l.

(** [markers_at] over the names [read_dir] gives, those that are no UTF-8 left out. *)
Definition markers_at `{Base64} (stage : bytes) (names : list bytes) : list bytes :=
  sort_strings (omap (λ name, marker_digest name (b#"." ++ stage)) names).
Definition pending_reservations `{Base64} (names : list bytes) : list bytes := markers_at PENDING_EXTENSION names.
Definition stale_reservations `{Base64} (names : list bytes) : list bytes := markers_at RESERVED_EXTENSION names.

(** ** Reading *)

Section archive.
Context `{Base64, Sha2, SerdeJson, !Serde RetainedHopRecord, !Serde RetainedRequest}.

(** [FsRetainedArchive::get] of what the directory answers: the content, or why there is none. *)
Definition archive_get (digest : bytes) (read : bytes → Result bytes IoError) : Result (option bytes) IoError :=
  let? path := object_path digest in
  match read path with
  | Ok content =>
      if negb (bytes_eqb (EvidenceDigest_of content) digest)
      then Err {| io_kind := IoInvalidData; io_text := b#"retained evidence does not hash to the digest it is stored under" |}
      else Ok (Some content)
  | Err e => match io_kind e with IoNotFound => Ok None | _ => Err e end
  end.

Definition archive_load (digest : bytes) (read : bytes → Result bytes IoError) : Result (option RetainedHop) RetentionError :=
  let? content := map_err (λ e, RE_Store (io_text e)) (archive_get digest read) in
  match content with
  | None => Ok None
  | Some content =>
      let? record := ok_or (from_slice_as content) (RE_Malformed b#"retained hop does not parse") in
      let? hop := into_hop record in Ok (Some hop)
  end.

Fixpoint load_chain (digests : list bytes) (read : bytes → Result bytes IoError) : Result (list RetainedHop) RetentionError :=
  match digests with
  | [] => Ok []
  | digest :: rest =>
      let? hop := archive_load digest read in
      let? hop := ok_or hop (RE_Malformed b#"retained chain is missing a hop") in
      let? hops := load_chain rest read in
      Ok (hop :: hops)
  end.

(** The jobs of the three awaited calls, and of [retain]. *)
Definition request_digest (request : RetainedRequest) : Result bytes RetentionError :=
  let? content := ok_or (to_vec_of request) (RE_Malformed b#"retained request does not serialize") in
  Ok (EvidenceDigest_of content).
Definition reserve_job `{!Serde ReservationMarker} (digest : bytes) : Result JobKind RetentionError :=
  let? marker := marker_path digest RESERVED_EXTENSION in
  let? content := marker_to_bytes {| rm_request_digest := digest |} in
  Ok (PublishOrWithdraw marker content).
Definition commit_job (digest : bytes) : Result JobKind RetentionError :=
  let? reserved := marker_path digest RESERVED_EXTENSION in
  let? committed := marker_path digest PENDING_EXTENSION in
  Ok (CommitMarker reserved committed).
Definition complete_job (digest : bytes) (request : RetainedRequest) (response : HttpResponse)
    : Result (JobKind * bytes) RetentionError :=
  let? content := ok_or (to_vec_of (record_over request response)) (RE_Malformed b#"retained hop does not serialize") in
  let stored := EvidenceDigest_of content in
  let? path := archive_object_path stored in
  let? pending := marker_path digest PENDING_EXTENSION in
  Ok (Publish path content (Some pending), stored).
Definition retain_job (request : HttpRequest) (response : HttpResponse) : Result (JobKind * bytes) RetentionError :=
  let? content := ok_or (to_vec_of (record_of request response)) (RE_Malformed b#"retained hop does not serialize") in
  let stored := EvidenceDigest_of content in
  let? path := archive_object_path stored in
  Ok (Publish path content None, stored).
End archive.

(** ** [attestation.rs] *)

Inductive AttestError := AE_Retention (e : RetentionError) | AE_Statement (e : HttpProfileError).

Section attestation.
Context `{Base64, Sha2, Ed25519, JsonTree, Coset, P256, !CborSerde EvidenceCommitment}.
Context `{!Serde HttpRequestEvidenceBlock, !Serde HttpResponseEvidenceBlock, !Serde DelegationHeader, !Serde DelegationClaims}.
Context `{!Serde RetainedHopRecord}.

Record Attestation := { at_statement : SignedStatement; at_reconstruction : ChainReconstruction; at_correspondence : RetainedCorrespondence }.

Definition attest_chain (read : bytes → Result bytes IoError) (hops : list bytes) (verifier : Verifier) (expect : DelegationExpectations)
    (audit : ChainAudit) (is_revoked : bytes → bool) (now : Z) (issuer_kid : bytes)
    (bindings_commitment verified_context_commitment : option bytes) (sign : bytes → Result bytes HttpProfileError)
    : Result Attestation AttestError :=
  let? retained := map_err AE_Retention (load_chain hops read) in
  let reconstruction := reconstruct_chain retained verifier expect audit is_revoked now in
  let commitment := from_reconstruction reconstruction bindings_commitment verified_context_commitment in
  let? statement := map_err AE_Statement (issue_signed_statement issuer_kid commitment now sign) in
  let? correspondence := map_err AE_Statement
    (verify_retained_evidence (ss_commitment statement) reconstruction bindings_commitment verified_context_commitment) in
  Ok {| at_statement := statement; at_reconstruction := reconstruction; at_correspondence := correspondence |}.
End attestation.
