(* ===== verification/RetentionCrash.v ===== *)
(** * What a crash leaves of an exchange's evidence

    The directory of the evidence store, as it is seen and as stable storage has it, with every
    call able to fail, entries reaching storage in any order before a directory sync, and files
    whose content was not synced coming back with any content. The writer of [Retention] runs over
    any batches of jobs; a crash may come between any two of its calls. *)

From S2P Require Import Prelude.
From S2P Require Import RustStr.
From S2P Require Import Externals.
From S2P Require Import CoreResolver.
From S2P Require Import HttpMessage.
From S2P Require Import Chain.
From S2P Require Import Scitt.
From S2P Require Import Serve.
From S2P Require Import Retention.
From S2P Require Import Concrete.

(** ** The directory *)

Record File := { fl_content : bytes; fl_synced : bool }.
Record Disk := { dk_live : gmap bytes File; dk_stored : gmap bytes File }.
Definition with_live (d : Disk) (live : gmap bytes File) : Disk := {| dk_live := live; dk_stored := dk_stored d |}.

(** One call: its answer and what it does. A failed [write_all] may have written anything; a
    removal says [NotFound] only of a name that is not there. *)
Definition fs_step (d : Disk) (c : FsCall) : fs_answer c → Disk → Prop :=
  match c with
  | UniqueSuffix => λ _ d', d' = d
  | OpenPrivate path => λ a d',
      match a with
      | Ok _ => dk_live d !! path = None ∧ d' = with_live d (<[path := {| fl_content := []; fl_synced := false |}]> (dk_live d))
      | Err _ => d' = d
      end
  | WriteAll path content => λ a d',
      match a with
      | Ok _ => d' = with_live d (alter (λ _, {| fl_content := content; fl_synced := false |}) path (dk_live d))
      | Err _ => ∃ some, d' = with_live d (alter (λ _, {| fl_content := some; fl_synced := false |}) path (dk_live d))
      end
  | SyncAll path => λ a d',
      match a with
      | Ok _ => d' = with_live d (alter (λ f, {| fl_content := fl_content f; fl_synced := true |}) path (dk_live d))
      | Err _ => d' = d
      end
  | RenameFile from to => λ a d',
      match a with
      | Ok _ => ∃ f, dk_live d !! from = Some f ∧ d' = with_live d (<[to := f]> (delete from (dk_live d)))
      | Err _ => d' = d
      end
  | RemoveFile path => λ a d',
      match a with
      | Ok _ => is_Some (dk_live d !! path) ∧ d' = with_live d (delete path (dk_live d))
      | Err e => d' = d ∧ (io_kind e = IoNotFound → dk_live d !! path = None)
      end
  | SyncRoot => λ a d',
      match a with Ok _ => d' = {| dk_live := dk_live d; dk_stored := dk_live d |} | Err _ => d' = d end
  | DropSlot _ | SendAck _ _ => λ _ d', d' = d
  end.

(** The kernel writes some entries back. *)
Definition writeback (d d' : Disk) : Prop :=
  dk_live d' = dk_live d ∧ ∀ n, dk_stored d' !! n = dk_live d !! n ∨ dk_stored d' !! n = dk_stored d !! n.

(** The directory after a crash: what was stored, with the content of files that were synced. *)
Definition crash (d d' : Disk) : Prop :=
  dk_stored d' = dk_live d' ∧
  ∀ n, match dk_stored d !! n with
       | None => dk_live d' !! n = None
       | Some f => ∃ g, dk_live d' !! n = Some g ∧ fl_synced g = true ∧ (fl_synced f = true → fl_content g = fl_content f)
       end.

(** [std::fs::read] of a name. *)
Definition read_file (d : Disk) (path : bytes) : Result bytes IoError :=
  match dk_live d !! path with
  | Some f => Ok (fl_content f)
  | None => Err {| io_kind := IoNotFound; io_text := b#"No such file or directory" |}
  end.

(** ** Runs of the writer *)

Definition Ack : Type := option AckSender * Result unit JobFault.
Definition ack_of (c : FsCall) : list Ack := match c with SendAck ack outcome => [(ack, outcome)] | _ => [] end.

(** [fs_runs d m acks d' m']: from [d], the program [m] can get to [m'] with [d'], having
    acknowledged [acks]. *)
Inductive fs_runs {R} : Disk → FsProg R → list Ack → Disk → FsProg R → Prop :=
  | run_here d m : fs_runs d m [] d m
  | run_writeback d d1 m t d' m' : writeback d d1 → fs_runs d1 m t d' m' → fs_runs d m t d' m'
  | run_call d c k a d1 t d' m' :
      fs_step d c a d1 → fs_runs d1 (k a) t d' m' → fs_runs d (FsDo c k) (ack_of c ++ t) d' m'.

(** ** Reasoning about programs

    [safe I m Q A d]: from [d], after the acknowledgements [A], every run of [m] keeps [I] and ends
    in [Q], also while entries are written back. *)

Fixpoint safe {R} (I : list Ack → Disk → Prop) (m : FsProg R) (Q : R → list Ack → Disk → Prop)
    (A : list Ack) (d : Disk) : Prop :=
  ∀ d0, writeback d d0 →
    I A d0 ∧
    match m with
    | FsRet r => Q r A d0
    | FsDo c k => ∀ a d', fs_step d0 c a d' → safe I (k a) Q (A ++ ack_of c) d'
    end.

Lemma writeback_refl d : writeback d d.
Proof. split; [done|]. intros n. by right. Qed.
Lemma writeback_trans d1 d2 d3 : writeback d1 d2 → writeback d2 d3 → writeback d1 d3.
Proof. intros [E1 H1] [E2 H2]. split; [congruence|]. intros n. destruct (H2 n) as [->| ->]; [left; by rewrite E1|apply H1]. Qed.

Lemma safe_writeback {R} I (m : FsProg R) Q A d d' : writeback d d' → safe I m Q A d → safe I m Q A d'.
Proof. destruct m; cbn; intros Hw Hs d0 H0; apply Hs; by eapply writeback_trans. Qed.

Lemma safe_runs {R} I (m m' : FsProg R) Q A d t d' : fs_runs d m t d' m' → safe I m Q A d → I (A ++ t) d'.
Proof.
  intros Hr. revert A. induction Hr as [d m|d d1 m t d' m' Hw _ IH|d c k a d1 t d' m' Hs _ IH]; intros A Hsafe.
  - rewrite app_nil_r. destruct m; by destruct (Hsafe d (writeback_refl d)).
  - apply IH. by eapply safe_writeback.
  - rewrite app_assoc. apply IH. destruct (Hsafe d (writeback_refl d)) as [_ Hk]. by apply Hk.
Qed.

Lemma safe_bind {R S} I (m : FsProg R) (k : R → FsProg S) Q A d :
  safe I m (λ r A d, safe I (k r) Q A d) A d → safe I (m ≫= k) Q A d.
Proof.
  revert A d. induction m as [r|c f IH]; intros A d Hs.
  - change (safe I (k r) Q A d). by destruct (Hs d (writeback_refl d)).
  - intros d0 Hw. destruct (Hs d0 Hw) as [HI Hk]. split; [done|]. intros a d' Ha. apply IH. by apply Hk.
Qed.

Lemma safe_mono {R} (I J : list Ack → Disk → Prop) (m : FsProg R) (Q Q' : R → list Ack → Disk → Prop) A d :
  (∀ A d, I A d → J A d) → (∀ r A d, I A d → Q r A d → Q' r A d) → safe I m Q A d → safe J m Q' A d.
Proof.
  intros HI HQ. revert A d. induction m as [r|c f IH]; intros A d Hs d0 Hw; destruct (Hs d0 Hw) as [Hi Hk]; (split; [by apply HI|]).
  - by apply HQ.
  - intros a d' Ha. apply IH. by apply Hk.
Qed.

Lemma safe_post {R} I (m : FsProg R) (Q Q' : R → list Ack → Disk → Prop) A d :
  (∀ r A d, I A d → Q r A d → Q' r A d) → safe I m Q A d → safe I m Q' A d.
Proof. intros HQ. by apply safe_mono. Qed.

Lemma safe_conj {R} (I J : list Ack → Disk → Prop) (m : FsProg R) Q Q' A d :
  safe I m Q A d → safe J m Q' A d → safe (λ A d, I A d ∧ J A d) m (λ r A d, Q r A d ∧ Q' r A d) A d.
Proof.
  revert A d. induction m as [r|c f IH]; intros A d Hs Ht d0 Hw; destruct (Hs d0 Hw) as [Hi Hk], (Ht d0 Hw) as [Hj Hl].
  - done.
  - split; [done|]. intros a d' Ha. apply IH; [by apply Hk|by apply Hl].
Qed.

(** A condition on the directory that writing back keeps. *)
Definition closed (P : Disk → Prop) : Prop := ∀ d d', P d → writeback d d' → P d'.

Lemma safe_ret {R} I (r : R) (Q : R → list Ack → Disk → Prop) A (P : Disk → Prop) d :
  closed P → P d → (∀ d, P d → I A d) → (∀ d, P d → Q r A d) → safe I (FsRet r) Q A d.
Proof. intros Hc HP HI HQ d0 Hw. pose proof (Hc _ _ HP Hw). auto. Qed.

Lemma safe_call {R} I c (k : fs_answer c → FsProg R) Q A (P : Disk → Prop) d :
  closed P → P d → (∀ d, P d → I A d) →
  (∀ d0 a d', P d0 → fs_step d0 c a d' → safe I (k a) Q (A ++ ack_of c) d') → safe I (FsDo c k) Q A d.
Proof. intros Hc HP HI Hk d0 Hw. pose proof (Hc _ _ HP Hw). split; [auto|]. intros a d' Ha. by eapply Hk. Qed.

Lemma safe_bind_ret {R S} I (m : FsProg R) (g : R → S) Q A d :
  safe I m (λ r A d, Q (g r) A d) A d → safe I (m ≫= λ r, FsRet (g r)) Q A d.
Proof.
  revert A d. induction m as [r|c f IH]; intros A d Hs; [done|].
  intros d0 Hw. destruct (Hs d0 Hw) as [HI Hk]. split; [done|]. intros a d' Ha. apply IH. by apply Hk.
Qed.

Lemma safe_map_cons {X Y} I (f : X → FsProg Y) x l Q A d :
  safe I (f x) (λ y A d, safe I (fs_map f l) (λ ys A d, Q (y :: ys) A d) A d) A d → safe I (fs_map f (x :: l)) Q A d.
Proof.
  intros Hs. cbn [fs_map]. apply safe_bind. eapply safe_post; [|exact Hs].
  intros y A' d' _ Hy. by apply safe_bind_ret.
Qed.

(** ** Names *)

Definition name_token (n : bytes) : Prop := forallb b64url_char n = true.

Lemma token_dot a x : name_token (a ++ "."%char :: x) → False.
Proof. unfold name_token. rewrite forallb_app. cbn. by rewrite andb_false_r. Qed.
Lemma token_split a b x y : name_token a → name_token b → a ++ "."%char :: x = b ++ "."%char :: y → a = b ∧ x = y.
Proof.
  revert b. induction a as [|c a IH]; intros [|c' b] Ha Hb; cbn; intros E.
  - by simplify_eq.
  - injection E as <- _. done.
  - injection E as -> _. done.
  - injection E as -> E. unfold name_token in *. cbn in Ha, Hb. apply andb_prop in Ha as [_ Ha], Hb as [_ Hb].
    by destruct (IH b Ha Hb E) as [-> ->].
Qed.

Lemma object_path_token digest n : archive_object_path digest = Ok n → n = digest ∧ name_token n.
Proof.
  unfold archive_object_path, object_path. destruct (negb _ && _ && _) eqn:E; [|done]. intros [= <-].
  by apply andb_prop in E as [_ E].
Qed.
Lemma marker_path_shape digest stage n : marker_path digest stage = Ok n → name_token digest ∧ n = digest ++ "."%char :: stage.
Proof.
  unfold marker_path. destruct (archive_object_path digest) as [o|] eqn:E; [|done]. cbn. intros [= <-].
  by apply object_path_token in E as [-> ?].
Qed.

(** ** What the calls of other jobs leave alone *)

Section exchange.
Context `{Base64, Sha2, SerdeJson, !Serde RetainedHopRecord, !Serde RetainedRequest, !Serde ReservationMarker}.

(** The jobs the store queues: of the awaited calls, and the rescission of a dropped guard. *)
Inductive queued : JobKind → Prop :=
  | queued_reserve digest k : reserve_job digest = Ok k → queued k
  | queued_commit digest k : commit_job digest = Ok k → queued k
  | queued_complete digest request response k stored : complete_job digest request response = Ok (k, stored) → queued k
  | queued_retain request response k stored : retain_job request response = Ok (k, stored) → queued k
  | queued_rescind digest marker : marker_path digest RESERVED_EXTENSION = Ok marker → queued (Rescind marker).

(** Every object is synced and hashes to its name. *)
Definition objects_sound (d : Disk) : Prop :=
  ∀ n f, name_token n → dk_live d !! n = Some f ∨ dk_stored d !! n = Some f → fl_synced f = true ∧ EvidenceDigest_of (fl_content f) = n.
Definition held (n : bytes) (d : Disk) : Prop := is_Some (dk_live d !! n) ∧ is_Some (dk_stored d !! n).
Definition absent (n : bytes) (d : Disk) : Prop := dk_live d !! n = None ∧ dk_stored d !! n = None.

Lemma closed_and P Q : closed P → closed Q → closed (λ d, P d ∧ Q d).
Proof. intros HP HQ d d' [? ?] Hw. split; eauto. Qed.
Lemma closed_live (P : gmap bytes File → Prop) : closed (λ d, P (dk_live d)).
Proof. intros d d' HP [-> _]. done. Qed.
Lemma closed_objects : closed objects_sound.
Proof. intros d d' Hs [E Hw] n f Ht [Hf|Hf]; apply (Hs n f Ht); [left; congruence|]. destruct (Hw n); [left|right]; congruence. Qed.
Lemma closed_held n : closed (held n).
Proof. intros d d' [Hl Hs] [E Hw]. split; [by rewrite E|]. by destruct (Hw n) as [->| ->]. Qed.
Lemma closed_absent n : closed (absent n).
Proof. intros d d' [Hl Hs] [E Hw]. split; [by rewrite E|]. by destruct (Hw n) as [->| ->]. Qed.
Lemma closed_true : closed (λ _, True).
Proof. done. Qed.
Lemma closed_or P Q : closed P → closed Q → closed (λ d, P d ∨ Q d).
Proof. intros HP HQ d d' [?|?] Hw; [left|right]; eauto. Qed.

Definition queued_shape (k : JobKind) : Prop :=
  match k with
  | PublishOrWithdraw marker _ | Rescind marker => ∃ dg, name_token dg ∧ marker = dg ++ "."%char :: RESERVED_EXTENSION
  | CommitMarker reserved committed =>
      ∃ dg, commit_job dg = Ok k ∧ name_token dg ∧ reserved = dg ++ "."%char :: RESERVED_EXTENSION ∧ committed = dg ++ "."%char :: PENDING_EXTENSION
  | Publish path content clear =>
      name_token path ∧ EvidenceDigest_of content = path ∧
      ∀ marker, clear = Some marker → ∃ dg, name_token dg ∧ marker = dg ++ "."%char :: PENDING_EXTENSION
  end.

Lemma commit_job_shape dg k : commit_job dg = Ok k →
  name_token dg ∧ k = CommitMarker (dg ++ "."%char :: RESERVED_EXTENSION) (dg ++ "."%char :: PENDING_EXTENSION).
Proof.
  unfold commit_job. intros E. destruct (marker_path dg RESERVED_EXTENSION) eqn:E1; [|done].
  destruct (marker_path dg PENDING_EXTENSION) eqn:E2; [|done]. injection E as <-.
  by apply marker_path_shape in E1 as [? ->], E2 as [? ->].
Qed.

Lemma queued_has_shape k : queued k → queued_shape k.
Proof.
  intros [dg k' E|dg k' E|dg rq rs k' st E|rq rs k' st E|dg m E].
  - unfold reserve_job in E. destruct (marker_path dg _) eqn:E1; [|done].
    destruct (marker_to_bytes _); [|done]. injection E as <-. apply marker_path_shape in E1 as [? ->]. by exists dg.
  - destruct (commit_job_shape _ _ E) as [Ht ->]. by exists dg.
  - unfold complete_job in E. destruct (ok_or _ _) as [content|]; [|done].
    destruct (archive_object_path _) as [path|] eqn:E1; [|done].
    destruct (marker_path dg _) eqn:E2; [|done]. injection E as <- <-.
    apply object_path_token in E1 as [-> ?]. apply marker_path_shape in E2 as [? ->].
    split; [done|]. split; [done|]. intros m [= <-]. by exists dg.
  - unfold retain_job in E. destruct (ok_or _ _) as [content|]; [|done].
    destruct (archive_object_path _) as [path|] eqn:E1; [|done]. injection E as <- <-.
    apply object_path_token in E1 as [-> ?]. by split.
  - apply marker_path_shape in E as [? ->]. by exists dg.
Qed.

(** *** One exchange: its pending marker and the awaiting commit *)

Context (digest pending : bytes) (sender : AckSender) (kinds : list JobKind).
Hypothesis pending_is : marker_path digest PENDING_EXTENSION = Ok pending.

Lemma pending_shape : name_token digest ∧ pending = digest ++ "."%char :: PENDING_EXTENSION.
Proof. exact (marker_path_shape _ _ _ pending_is). Qed.
Lemma pending_ne dg c rest : name_token dg → c ≠ "p"%char → dg ++ "."%char :: c :: rest ≠ pending.
Proof.
  destruct pending_shape as [Ht ->]. intros Hd Hne E. apply token_split in E as [_ E]; [|done..].
  by injection E as -> _.
Qed.
Lemma pending_no_token : ¬ name_token pending.
Proof. destruct pending_shape as [_ ->]. intros []%token_dot. Qed.

(** Calls that neither name the pending marker, nor touch an object but by publishing it, nor
    answer the awaited commit. *)
Definition calm (c : FsCall) : Prop :=
  match c with
  | OpenPrivate n | WriteAll n _ | SyncAll n | RemoveFile n => n ≠ pending ∧ ¬ name_token n
  | RenameFile from to => from ≠ pending ∧ to ≠ pending ∧ ¬ name_token from
  | SendAck ack _ => ack ≠ Some sender
  | UniqueSuffix | SyncRoot | DropSlot _ => True
  end.
Definition stable (J : Disk → Prop) : Prop :=
  closed J ∧ ∀ c d a d', calm c → J d → fs_step d c a d' → J d'.

Lemma stable_and J K : stable J → stable K → stable (λ d, J d ∧ K d).
Proof. intros [? HJ] [? HK]. split; [by apply closed_and|]. intros c d a d' ? [? ?] ?. split; eauto. Qed.
Lemma stable_or J K : stable J → stable K → stable (λ d, J d ∨ K d).
Proof. intros [? HJ] [? HK]. split; [by apply closed_or|]. intros c d a d' ? [?|?] ?; [left|right]; eauto. Qed.
Lemma stable_pure (P : Prop) : stable (λ _, P).
Proof. split; [by intros d d'|by intros c d a d']. Qed.
Lemma stable_ex {X} (J : X → Disk → Prop) : (∀ x, stable (J x)) → stable (λ d, ∃ x, J x d).
Proof.
  intros Hs. split.
  - intros d d' [x Hx] Hw. exists x. exact (proj1 (Hs x) _ _ Hx Hw).
  - intros c d a d' Hc [x Hx] Ha. exists x. exact (proj2 (Hs x) _ _ _ _ Hc Hx Ha).
Qed.
Lemma stable_impl (P : Prop) J : stable J → stable (λ d, P → J d).
Proof. intros [Hc HJ]. split; [intros d d' ? ? ?|intros c d a d' ? ? ? ?]; eauto. Qed.

(** What a calm call does to one name of the directory as seen, and as stored. *)
Definition watched (n : bytes) : Prop := n = pending ∨ name_token n.
Lemma calm_step n c d a d' : watched n → calm c → fs_step d c a d' →
  (dk_live d' !! n = dk_live d !! n ∨ (name_token n ∧ is_Some (dk_live d' !! n))) ∧
  (dk_stored d' = dk_stored d ∨ (dk_live d' = dk_live d ∧ dk_stored d' = dk_live d)).
Proof.
  intros Hn Hc Hs. assert (∀ x, x ≠ pending ∧ ¬ name_token x → n ≠ x) as Hne by (intros x [? ?] ->; destruct Hn; done).
  destruct c as [|x|x content|x|from to|x| |slot|ack o]; cbn in Hc, a, Hs.
  - subst d'. auto.
  - destruct a; [destruct Hs as [_ ->]|subst d'; auto]. cbn. rewrite lookup_insert_ne; [auto|]. apply not_eq_sym, Hne, Hc.
  - destruct a; [|destruct Hs as [? Hs]]; subst d'; cbn; (rewrite lookup_alter_ne; [auto|]); apply not_eq_sym, Hne, Hc.
  - destruct a; subst d'; [|auto]. cbn. rewrite lookup_alter_ne; [auto|]. apply not_eq_sym, Hne, Hc.
  - destruct Hc as (Hf & Ht & Hnt). destruct a; [destruct Hs as (f & _ & ->)|subst d'; auto]. cbn. split; [|auto].
    destruct (decide (n = to)) as [->|Hto].
    + right. rewrite lookup_insert_eq. split; [|done]. by destruct Hn.
    + left. rewrite lookup_insert_ne, lookup_delete_ne; [done|..]; [|done]. apply not_eq_sym, Hne. done.
  - destruct a; [destruct Hs as [_ ->]|destruct Hs as [-> _]; auto]. cbn. rewrite lookup_delete_ne; [auto|]. apply not_eq_sym, Hne, Hc.
  - destruct a; subst d'; cbn; auto.
  - subst d'. auto.
  - subst d'. auto.
Qed.

Lemma stable_live n : watched n → stable (λ d, is_Some (dk_live d !! n)).
Proof.
  intros Hn. split; [exact (closed_live (λ m, is_Some (m !! n)))|]. intros c d a d' Hc HJ Ha.
  destruct (calm_step n _ _ _ _ Hn Hc Ha) as [[->|[_ ?]] _]; done.
Qed.
Lemma stable_held n : watched n → stable (held n).
Proof.
  intros Hn. split; [apply closed_held|]. intros c d a d' Hc [Hl Hs] Ha.
  assert (is_Some (dk_live d' !! n)) as Hl' by exact (proj2 (stable_live n Hn) _ _ _ _ Hc Hl Ha). split; [done|].
  destruct (calm_step n _ _ _ _ Hn Hc Ha) as [_ [->|[E ->]]]; [done|by rewrite <-E].
Qed.
Lemma stable_not_live : stable (λ d, dk_live d !! pending = None).
Proof.
  split; [exact (closed_live (λ m, m !! pending = None))|]. intros c d a d' Hc HJ Ha.
  destruct (calm_step pending _ _ _ _ (or_introl eq_refl) Hc Ha) as [[->|[[]%pending_no_token _]] _]; done.
Qed.
Lemma stable_absent : stable (absent pending).
Proof.
  split; [apply closed_absent|]. intros c d a d' Hc [Hl Hs] Ha.
  assert (dk_live d' !! pending = None) as Hl' by exact (proj2 stable_not_live _ _ _ _ Hc Hl Ha). split; [done|].
  destruct (calm_step pending _ _ _ _ (or_introl eq_refl) Hc Ha) as [_ [->|[E ->]]]; [done|by rewrite <-E].
Qed.

(** What the awaited commit was told. *)
Definition said (told : option (Result unit JobFault)) (A : list Ack) : Prop := ∀ o, (Some sender, o) ∈ A ↔ told = Some o.

Lemma said_calm told A c : calm c → said told A → said told (A ++ ack_of c).
Proof.
  intros Hc Hs o. rewrite elem_of_app, (Hs o). split; [|auto]. intros [?|Hin]; [done|].
  destruct c; cbn in Hin; try by apply elem_of_nil in Hin. apply list_elem_of_singleton in Hin. by injection Hin as <- <-.
Qed.
Lemma said_now A o : said None A → said (Some o) (A ++ [(Some sender, o)]).
Proof.
  intros Hs o'. rewrite elem_of_app, (Hs o'), list_elem_of_singleton. split; [intros [?|[= ->]]; done|intros [= ->]; auto].
Qed.

Fixpoint calls {R} (P : FsCall → Prop) (m : FsProg R) : Prop :=
  match m with FsRet _ => True | FsDo c k => P c ∧ ∀ a, calls P (k a) end.
Lemma calls_bind {R S} P (m : FsProg R) (k : R → FsProg S) : calls P m → (∀ r, calls P (k r)) → calls P (m ≫= k).
Proof. intros Hm Hk. induction m as [r|c f IH]; [apply Hk|]. destruct Hm as [Hc Hf]. split; [done|]. intros a. by apply IH. Qed.

Lemma safe_calls {R} J told (m : FsProg R) A d : stable J → calls calm m → said told A → J d →
  safe (λ A d, said told A ∧ J d) m (λ _ A d, said told A ∧ J d) A d.
Proof.
  intros [Hcl HJ]. revert A d. induction m as [r|c f IH]; intros A d Hc Hs Hd.
  - apply (safe_ret _ _ _ _ J); auto.
  - destruct Hc as [Hc Hf]. apply (safe_call _ _ _ _ _ J); [done..|auto|].
    intros d0 a d' Hd0 Ha. apply IH; [done|by apply said_calm|by eapply HJ].
Qed.

(** ** Acting *)

Definition other (job : WriteJob) : Prop :=
  queued (wj_kind job) ∧ commit_job digest ≠ Ok (wj_kind job) ∧ wj_ack job ≠ Some sender ∧ wj_kind job ∈ kinds.

Lemma stage_at_calm path content : path ≠ pending →
  (∀ suffix, path ++ b#".tmp." ++ suffix ≠ pending ∧ ¬ name_token (path ++ b#".tmp." ++ suffix)) → calls calm (stage_at path content).
Proof.
  intros Hp Ht. apply calls_bind; [by split|]. intros suffix. destruct (Ht suffix) as [? ?]. unfold fs_try, fs.
  apply calls_bind; [|intros [|]; [exact I|split; [done|intros ?; exact I]]].
  repeat (apply calls_bind; [split; [done|intros ?; exact I]|intros [|]; [|exact I]]). split; [done|]. intros ?; exact I.
Qed.

Lemma reserved_names dg : name_token dg →
  dg ++ "."%char :: RESERVED_EXTENSION ≠ pending ∧ ¬ name_token (dg ++ "."%char :: RESERVED_EXTENSION).
Proof. intros Ht. split; [by apply pending_ne|]. intros []%token_dot. Qed.
Lemma tmp_names path suffix : name_token path → path ++ b#".tmp." ++ suffix ≠ pending ∧ ¬ name_token (path ++ b#".tmp." ++ suffix).
Proof. intros Ht. split; [by apply pending_ne|]. intros []%token_dot. Qed.
Lemma reserved_tmp_names dg suffix : name_token dg →
  (dg ++ "."%char :: RESERVED_EXTENSION) ++ b#".tmp." ++ suffix ≠ pending ∧
  ¬ name_token ((dg ++ "."%char :: RESERVED_EXTENSION) ++ b#".tmp." ++ suffix).
Proof. intros Ht. rewrite <-app_assoc. split; [by apply pending_ne|]. intros []%token_dot. Qed.

Lemma other_committed reserved committed job : other job → wj_kind job = CommitMarker reserved committed →
  reserved ≠ pending ∧ committed ≠ pending ∧ ¬ name_token reserved ∧ ¬ name_token committed.
Proof.
  intros (Hq & Hne & _) E. apply queued_has_shape in Hq. rewrite E in Hq, Hne. destruct Hq as (dg & Hc & Ht & -> & ->).
  split; [by apply pending_ne|]. split; [|split; intros []%token_dot].
  destruct pending_shape as [Hd ->]. intros Ep. apply token_split in Ep as [-> _]; done.
Qed.

Lemma act_calm job : other job → calls calm (act (wj_kind job)).
Proof.
  intros Ho. pose proof (queued_has_shape _ (proj1 Ho)) as Hq.
  destruct (wj_kind job) as [path content|reserved committed|path content clear|marker] eqn:Ek; cbn in Hq.
  - destruct Hq as (dg & Ht & ->). apply calls_bind; [|done].
    apply stage_at_calm; [by apply reserved_names|]. intros suffix. by apply reserved_tmp_names.
  - destruct (other_committed _ _ _ Ho Ek) as (? & ? & ? & ?). by split_and!.
  - destruct Hq as (Ht & _). apply calls_bind; [|done].
    apply stage_at_calm; [|intros suffix; by apply tmp_names]. intros ->. by apply pending_no_token.
  - destruct Hq as (dg & Ht & ->). split; [by apply reserved_names|]. done.
Qed.

Lemma withdraw_calm job : other job → calls calm (withdraw (wj_kind job)).
Proof.
  intros Ho. pose proof (queued_has_shape _ (proj1 Ho)) as Hq.
  destruct (wj_kind job) as [path content|reserved committed|path content clear|marker] eqn:Ek; cbn in Hq; [| |done..].
  - destruct Hq as (dg & Ht & ->). split; [by apply reserved_names|done].
  - destruct (other_committed _ _ _ Ho Ek) as (? & ? & ? & ?). by split_and!.
Qed.

(** Calls that name no object keep the objects sound. *)
Definition plain (c : FsCall) : Prop :=
  match c with
  | OpenPrivate n | WriteAll n _ | SyncAll n | RemoveFile n => ¬ name_token n
  | RenameFile from to => ¬ name_token from ∧ ¬ name_token to
  | _ => True
  end.

Lemma objects_with_live d m : objects_sound d → (∀ n, name_token n → m !! n = dk_live d !! n) → objects_sound (with_live d m).
Proof. intros Hs Hm n f Ht Hf. apply (Hs n f Ht). cbn in Hf. by rewrite Hm in Hf. Qed.

Lemma plain_objects c d a d' : plain c → objects_sound d → fs_step d c a d' → objects_sound d'.
Proof.
  intros Hc Hs Ha. assert (∀ x n, ¬ name_token x → name_token n → x ≠ n) as Hne by congruence.
  destruct c as [|x|x content|x|from to|x| |slot|ack o]; cbn in Hc, a, Ha; try (by subst d').
  - destruct a; [destruct Ha as [_ ->]|by subst]. apply objects_with_live; [done|]. intros n Hn. apply lookup_insert_ne; auto.
  - destruct a; [subst d'|destruct Ha as [? ->]]; (apply objects_with_live; [done|]); intros n Hn; apply lookup_alter_ne; auto.
  - destruct a; [subst d'|by subst]. apply objects_with_live; [done|]. intros n Hn. apply lookup_alter_ne; auto.
  - destruct Hc as [? ?]. destruct a; [destruct Ha as (f & _ & ->)|by subst]. apply objects_with_live; [done|]. intros n Hn.
    rewrite lookup_insert_ne, lookup_delete_ne; auto.
  - destruct a; [destruct Ha as [_ ->]|by destruct Ha as [-> _]]. apply objects_with_live; [done|]. intros n Hn. apply lookup_delete_ne; auto.
  - destruct a; subst d'; [|done]. intros n f Ht Hf. apply (Hs n f Ht). cbn in Hf. left. by destruct Hf.
Qed.
Lemma safe_plain {R} (m : FsProg R) A d : calls plain m → objects_sound d →
  safe (λ _ d, objects_sound d) m (λ _ _ d, objects_sound d) A d.
Proof.
  revert A d. induction m as [r|c f IH]; intros A d Hc Hs.
  - apply (safe_ret _ _ _ _ objects_sound); auto using closed_objects.
  - destruct Hc as [Hc Hf]. apply (safe_call _ _ _ _ _ objects_sound); [apply closed_objects|done|done|].
    intros d0 a d' Hd0 Ha. apply IH; [done|]. by eapply plain_objects.
Qed.

(** A file staged under a name no object has, its content synced before it is renamed to one. *)
Lemma staged_rename tmp path content d f a d' : ¬ name_token tmp → (name_token path → EvidenceDigest_of content = path) → objects_sound d →
  dk_live d !! tmp = Some f → fl_content f = content → fl_synced f = true → fs_step d (RenameFile tmp path) a d' →
  objects_sound d' ∧ (a = Ok tt → is_Some (dk_live d' !! path)).
Proof.
  intros Ht Hh Hs Hf Hc Hy Ha. cbn in a, Ha. destruct a as [[]|e]; [|by subst].
  destruct Ha as (f' & Hf' & ->). assert (f' = f) as -> by congruence. cbn. rewrite lookup_insert_eq. split; [|done].
  intros n g Hn Hg. cbn in Hg. destruct (decide (n = path)) as [->|Hne].
  - rewrite lookup_insert_eq in Hg. destruct Hg as [[= <-]|Hg]; [split; [done|]; rewrite Hc; auto|apply (Hs _ _ Hn); auto].
  - rewrite lookup_insert_ne, lookup_delete_ne in Hg by congruence. by apply (Hs _ _ Hn).
Qed.

Definition staging (tmp path content : bytes) : FsProg (Result unit IoError) :=
  fs_try (fs (OpenPrivate tmp)) (fs_try (fs (WriteAll tmp content)) (fs_try (fs (SyncAll tmp)) (fs (RenameFile tmp path)))).

Definition staged_post (path : bytes) (r : Result unit IoError) (_ : list Ack) (d : Disk) : Prop :=
  objects_sound d ∧ (r = Ok tt → is_Some (dk_live d !! path)).
Lemma staged_failed path e A d : objects_sound d → safe (λ _ d, objects_sound d) (FsRet (Err e)) (staged_post path) A d.
Proof. intros Hd. apply (safe_ret _ _ _ _ objects_sound); auto using closed_objects. by split. Qed.

Lemma staging_objects tmp path content A d : ¬ name_token tmp → (name_token path → EvidenceDigest_of content = path) → objects_sound d →
  safe (λ _ d, objects_sound d) (staging tmp path content) (staged_post path) A d.
Proof.
  intros Ht Hh Hs.
  assert (∀ f, closed (λ d, objects_sound d ∧ dk_live d !! tmp = Some f)) as Hcl.
  { intros f. apply closed_and; [apply closed_objects|]. exact (closed_live (λ m, m !! tmp = Some f)). }
  apply (safe_call _ (OpenPrivate tmp) _ _ _ objects_sound); [apply closed_objects|done|done|].
  intros d0 a d1 Hd0 Ha. pose proof (plain_objects (OpenPrivate tmp) _ _ _ Ht Hd0 Ha) as Hd1.
  destruct a as [u|e]; [|by apply staged_failed]. destruct Ha as [_ ->]. cbn [fs_answer] in u.
  apply (safe_call _ (WriteAll tmp content) _ _ _ (λ d, objects_sound d ∧ dk_live d !! tmp = Some {| fl_content := []; fl_synced := false |}));
    [done|split; [done|by apply lookup_insert_eq]|by intros ? []|].
  clear Hd1. intros d1 a d2 [Hd1 Hf] Ha. pose proof (plain_objects (WriteAll tmp content) _ _ _ Ht Hd1 Ha) as Hd2.
  destruct a as [v|e]; [|by apply staged_failed]. cbn in Ha. subst d2.
  apply (safe_call _ (SyncAll tmp) _ _ _ (λ d, objects_sound d ∧ dk_live d !! tmp = Some {| fl_content := content; fl_synced := false |}));
    [done|split; [done|cbn; by rewrite lookup_alter_eq, Hf]|by intros ? []|].
  clear d1 Hd1 Hf Hd2. intros d1 a d2 [Hd1 Hf] Ha. pose proof (plain_objects (SyncAll tmp) _ _ _ Ht Hd1 Ha) as Hd2.
  destruct a as [w|e]; [|by apply staged_failed]. cbn in Ha. subst d2.
  apply (safe_call _ (RenameFile tmp path) _ _ _ (λ d, objects_sound d ∧ dk_live d !! tmp = Some {| fl_content := content; fl_synced := true |}));
    [done|split; [done|cbn; by rewrite lookup_alter_eq, Hf]|by intros ? []|].
  clear d1 Hd1 Hf Hd2. intros d1 a d2 [Hd1 Hf] Ha.
  destruct (staged_rename _ _ _ _ _ _ _ Ht Hh Hd1 Hf eq_refl eq_refl Ha) as [Hd2 Hl].
  destruct a as [[]|e]; [|by apply staged_failed].
  apply (safe_ret _ _ _ _ (λ d, objects_sound d ∧ is_Some (dk_live d !! path))); [|by auto|by intros ? []|by intros ? []].
  apply closed_and; [apply closed_objects|]. exact (closed_live (λ m, is_Some (m !! path))).
Qed.

Lemma stage_at_objects path content A d : (name_token path → EvidenceDigest_of content = path) →
  (∀ suffix, ¬ name_token (path ++ b#".tmp." ++ suffix)) → objects_sound d →
  safe (λ _ d, objects_sound d) (stage_at path content) (staged_post path) A d.
Proof.
  intros Hh Htmp Hs. apply safe_bind.
  apply (safe_call _ UniqueSuffix _ _ _ objects_sound); [apply closed_objects|done|done|]. intros d0 suffix d' Hd0 ->.
  apply (safe_ret _ _ _ _ objects_sound); [apply closed_objects|done|done|]. clear d d0 Hs Hd0. intros d Hs.
  apply safe_bind. eapply safe_post; [|apply (staging_objects _ path content); [apply (Htmp suffix)|done|done]].
  intros r A' d' Hd' [_ Hr]. destruct r as [[]|e].
  - apply (safe_ret _ _ _ _ (λ d, objects_sound d ∧ is_Some (dk_live d !! path))); [|by auto|by intros ? []|by intros ? []].
    apply closed_and; [apply closed_objects|]. exact (closed_live (λ m, is_Some (m !! path))).
  - apply safe_bind. eapply safe_post; [|apply (safe_plain (fs (RemoveFile _))); [split; [apply (Htmp suffix)|done]|done]].
    intros r A'' d'' Hd'' _. by apply staged_failed.
Qed.

Definition inv (told : option (Result unit JobFault)) (J : Disk → Prop) (A : list Ack) (d : Disk) : Prop :=
  said told A ∧ objects_sound d ∧ J d.
Definition live (n : bytes) (d : Disk) : Prop := is_Some (dk_live d !! n).
Definition lives (names : list bytes) (d : Disk) : Prop := ∀ n, n ∈ names → live n d.
Definition helds (names : list bytes) (d : Disk) : Prop := ∀ n, n ∈ names → held n d.

Lemma inv_closed told J A d d' : closed J → inv told J A d → writeback d d' → inv told J A d'.
Proof. intros HJ (? & ? & ?) Hw. split_and!; [done|by eapply closed_objects|by eapply HJ]. Qed.
Lemma inv_mono told (J K : Disk → Prop) A d : (∀ d, J d → K d) → inv told J A d → inv told K A d.
Proof. intros HJ (? & ? & ?). split_and!; auto. Qed.
Lemma safe_inv_ret {R} told J (r : R) (Q : R → list Ack → Disk → Prop) A d : closed J → inv told J A d →
  (∀ d, inv told J A d → Q r A d) → safe (inv told J) (FsRet r) Q A d.
Proof. intros HJ Hi HQ d0 Hw. assert (inv told J A d0) by (by eapply inv_closed). split; auto. Qed.

Lemma stable_lives names : Forall name_token names → stable (lives names).
Proof.
  rewrite Forall_forall. intros Ht. split.
  - intros d d' Hl [E _] n Hn. unfold live. rewrite E. by apply Hl.
  - intros c d a d' Hc Hl Ha n Hn. exact (proj2 (stable_live n (or_intror (Ht n Hn))) _ _ _ _ Hc (Hl n Hn) Ha).
Qed.
Lemma stable_helds names : Forall name_token names → stable (helds names).
Proof.
  rewrite Forall_forall. intros Ht. split.
  - intros d d' Hl Hw n Hn. eapply closed_held; [by apply Hl|done].
  - intros c d a d' Hc Hl Ha n Hn. exact (proj2 (stable_held n (or_intror (Ht n Hn))) _ _ _ _ Hc (Hl n Hn) Ha).
Qed.

(** The objects a job published. *)
Definition paths (job : WriteJob) (acted : Result bool IoError) : list bytes :=
  match wj_kind job, acted with Publish path _ _, Ok true => [path] | _, _ => [] end.
Definition published_objects (batch : list WriteJob) (acted : list (Result bool IoError)) : list bytes := concat (zip_with paths batch acted).

Lemma paths_token job y : other job → Forall name_token (paths job y).
Proof.
  intros (Hq & _). apply queued_has_shape in Hq. unfold paths. destruct (wj_kind job); [constructor..| |constructor].
  destruct y as [[]|]; [|constructor..]. constructor; [apply Hq|constructor].
Qed.
Lemma published_token batch ys : Forall other batch → Forall name_token (published_objects batch ys).
Proof.
  intros Hb. revert ys. induction Hb as [|job batch Ho Hb IH]; intros [|y ys]; [constructor..|].
  apply Forall_app. split; [by apply paths_token|apply IH].
Qed.
Lemma lives_app l l' d : lives (l ++ l') d ↔ lives l d ∧ lives l' d.
Proof. unfold lives. setoid_rewrite elem_of_app. naive_solver. Qed.

(** A publication that succeeded changed the directory. *)
Definition proper (job : WriteJob) (acted : Result bool IoError) : Prop :=
  match wj_kind job with Publish _ _ _ => acted ≠ Ok false | _ => True end.

Lemma act_objects kind A d : queued kind → objects_sound d →
  safe (λ _ d, objects_sound d) (act kind)
    (λ r _ d, objects_sound d ∧ match kind with Publish path _ _ => r ≠ Ok false ∧ (r = Ok true → live path d) | _ => True end) A d.
Proof.
  intros Hq Hs. apply queued_has_shape in Hq. destruct kind as [path content|reserved committed|path content clear|marker].
  - destruct Hq as (dg & Ht & ->). apply safe_bind_ret. eapply safe_post; [|apply stage_at_objects; [..|done]]; [by intros ? ? ? ? []| |].
    + intros []%token_dot.
    + intros suffix. by apply reserved_tmp_names.
  - destruct Hq as (dg & _ & Ht & -> & ->).
    eapply safe_post; [|apply safe_plain; [|done]]; [done|]. apply calls_bind; [|done]. split; [split; intros []%token_dot|done].
  - destruct Hq as (Ht & Hh & _). apply safe_bind_ret. eapply safe_post; [|apply stage_at_objects; [..|done]]; [|done|].
    + intros [[]|e] A' d' _ [Hd' Hl]; (split; [done|]); (split; [done|]); [intros _; by apply Hl|done].
    + intros suffix. by apply tmp_names.
  - destruct Hq as (dg & Ht & ->). eapply safe_post; [|apply safe_plain; [|done]]; [done|].
    apply calls_bind; [|done]. split; [intros []%token_dot|done].
Qed.

Lemma act_other job J told A d : other job → stable J → inv told J A d →
  safe (inv told J) (act (wj_kind job)) (λ y A d, proper job y ∧ inv told (λ d, J d ∧ lives (paths job y) d) A d) A d.
Proof.
  intros Ho HJ (Hs & Hd & Hj).
  pose proof (safe_conj _ _ _ _ _ _ _ (safe_calls _ told _ A d HJ (act_calm _ Ho) Hs Hj) (act_objects _ A d (proj1 Ho) Hd)) as Hsafe.
  eapply safe_mono; [| |exact Hsafe].
  - intros A' d' [[? ?] ?]. by split_and!.
  - intros y A' d' _ [[? ?] [? Hl]]. split; [unfold proper; destruct (wj_kind job); [done..|apply Hl|done]|].
    split_and!; [done..|]. intros n Hn. unfold paths in Hn.
    destruct (wj_kind job); [by apply elem_of_nil in Hn..| |by apply elem_of_nil in Hn].
    destruct y as [[]|]; [|by apply elem_of_nil in Hn..]. apply list_elem_of_singleton in Hn as ->. by apply Hl.
Qed.

Lemma act_others batch J told A d : Forall other batch → stable J → inv told J A d →
  safe (inv told J) (fs_map (λ job, act (wj_kind job)) batch)
    (λ ys A d, Forall2 proper batch ys ∧ inv told (λ d, J d ∧ lives (published_objects batch ys) d) A d) A d.
Proof.
  intros Hb. revert J A d. induction Hb as [|job batch Ho Hb IH]; intros J A d HJ Hi.
  - apply safe_inv_ret; [apply HJ|done|]. intros d0 Hd0. split; [constructor|]. eapply inv_mono; [|done].
    intros d' Hd'. split; [done|]. intros n Hn. by apply elem_of_nil in Hn.
  - apply safe_map_cons. eapply safe_post; [|by apply act_other]. intros y A' d' _ [Hy Hi'].
    eapply safe_mono; [| |apply IH; [|exact Hi']].
    + intros A'' d''. apply inv_mono. by intros ? [].
    + intros ys A'' d'' _ (Hys & Hi''). split; [by constructor|]. eapply inv_mono; [|exact Hi'']. cbn.
      intros d3 [[? ?] ?]. split; [done|]. by apply lives_app.
    + by apply stable_and, stable_lives, paths_token.
Qed.

(** ** The commit acts *)

Definition reserved_marker : bytes := digest ++ "."%char :: RESERVED_EXTENSION.
Lemma commit_kind k : commit_job digest = Ok k → k = CommitMarker reserved_marker pending.
Proof. intros [_ ->]%commit_job_shape. by destruct pending_shape as [_ ->]. Qed.

Lemma plain_live c n d a d' : plain c → name_token n → fs_step d c a d' → dk_live d' !! n = dk_live d !! n.
Proof.
  intros Hc Ht Ha. assert (∀ x, ¬ name_token x → x ≠ n) as Hne by congruence.
  destruct c as [|x|x content|x|from to|x| |slot|ack o]; cbn in Hc, a, Ha; try (by subst d').
  - destruct a; [destruct Ha as [_ ->]|by subst]. apply lookup_insert_ne; auto.
  - destruct a; [subst d'|destruct Ha as [? ->]]; apply lookup_alter_ne; auto.
  - destruct a; [subst d'|by subst]. apply lookup_alter_ne; auto.
  - destruct Hc as [? ?]. destruct a; [destruct Ha as (f & _ & ->)|by subst]. cbn. rewrite lookup_insert_ne, lookup_delete_ne; auto.
  - destruct a; [destruct Ha as [_ ->]|by destruct Ha as [-> _]]. apply lookup_delete_ne; auto.
  - by destruct a; subst d'.
Qed.
Lemma plain_lives c names d a d' : plain c → Forall name_token names → fs_step d c a d' → lives names d → lives names d'.
Proof. rewrite Forall_forall. intros Hc Ht Ha Hl n Hn. unfold live. rewrite (plain_live _ _ _ _ _ Hc (Ht n Hn) Ha). by apply Hl. Qed.

Definition commit_acted (y : Result bool IoError) (d : Disk) : Prop :=
  match y with Ok changed => changed = true ∧ live pending d | Err _ => absent pending d end.
Lemma stable_commit_acted y : stable (commit_acted y).
Proof.
  destruct y as [changed|e]; [|apply stable_absent]. apply stable_and; [apply stable_pure|]. apply stable_live. by left.
Qed.
Lemma marker_names : ¬ name_token reserved_marker ∧ ¬ name_token pending ∧ reserved_marker ≠ pending.
Proof.
  destruct pending_shape as [Ht _]. split; [intros []%token_dot|]. split; [exact pending_no_token|]. by apply pending_ne.
Qed.

Lemma act_commit k names A d : commit_job digest = Ok k → Forall name_token names → inv None (λ d, absent pending d ∧ lives names d) A d →
  safe (inv None (λ _, True)) (act k) (λ y A d, inv None (λ d, commit_acted y d ∧ lives names d) A d) A d.
Proof.
  intros ->%commit_kind Hn Hi. destruct marker_names as (Hr & Hp & Hrp).
  assert (stable (λ d, absent pending d ∧ lives names d)) as [Hcl _] by (by apply stable_and, stable_lives; [apply stable_absent|]).
  apply safe_bind_ret. intros d0 Hw. apply (inv_closed _ _ _ _ _ Hcl Hi) in Hw as (Hs & Ho & Ha & Hl). split; [done|].
  intros a d' Ht. assert (plain (RenameFile reserved_marker pending)) as Hpl by done.
  pose proof (plain_objects _ _ _ _ Hpl Ho Ht) as Ho'. pose proof (plain_lives _ _ _ _ _ Hpl Hn Ht Hl) as Hl'.
  cbn in a, Ht. destruct a as [[]|e].
  - assert (live pending d') as Hlv. { destruct Ht as (f & _ & ->). unfold live. cbn. by rewrite lookup_insert_eq. }
    intros d1 Hw'. assert (stable (λ d, commit_acted (Ok true) d ∧ lives names d)) as [Hcl' _].
    { apply stable_and; [apply stable_commit_acted|by apply stable_lives]. }
    assert (inv None (λ d, commit_acted (Ok true) d ∧ lives names d) A d1) as Hi'.
    { eapply inv_closed; [done| |exact Hw']. by split_and!. }
    rewrite app_nil_r. split; [|exact Hi']. eapply inv_mono; [|exact Hi']. done.
  - subst d'. intros d1 Hw'. rewrite app_nil_r.
    assert (inv None (λ d, absent pending d ∧ lives names d) A d1) as Hi' by (eapply inv_closed; [done| |exact Hw']; by split_and!).
    split; [|exact Hi']. eapply inv_mono; [|exact Hi']. done.
Qed.

Lemma inv_any told J A d : inv told J A d → inv told (λ _, True) A d.
Proof. by apply inv_mono. Qed.

Lemma act_batch b1 cj b2 names A d : Forall other b1 → Forall other b2 → commit_job digest = Ok (wj_kind cj) → Forall name_token names →
  inv None (λ d, absent pending d ∧ lives names d) A d →
  safe (inv None (λ _, True)) (fs_map (λ job, act (wj_kind job)) (b1 ++ cj :: b2))
    (λ ys A d, ∃ ys1 y ys2, ys = ys1 ++ y :: ys2 ∧ Forall2 proper b1 ys1 ∧ Forall2 proper b2 ys2 ∧
       inv None (λ d, commit_acted y d ∧ lives (names ++ published_objects b1 ys1 ++ published_objects b2 ys2) d) A d) A d.
Proof.
  intros Hb1 Hb2 Hc. revert names A d. induction Hb1 as [|job b1 Ho Hb1 IH]; intros names A d Hn Hi.
  - cbn [app]. apply safe_map_cons. eapply safe_post; [|by apply (act_commit _ names)]. intros y A' d' _ Hi'.
    eapply safe_mono; [| |apply (act_others b2); [done| |exact Hi']]; [intros ? ?; apply inv_any| |].
    + intros ys A'' d'' _ [Hys Hi'']. exists [], y, ys. split; [done|]. split; [constructor|]. split; [done|].
      eapply inv_mono; [|exact Hi'']. intros d3 [[? ?] ?]. split; [done|]. by apply lives_app.
    + apply stable_and; [apply stable_commit_acted|by apply stable_lives].
  - cbn [app]. apply safe_map_cons. eapply safe_mono; [| |apply act_other; [done| |exact Hi]]; [intros ? ?; apply inv_any| |].
    + intros y A' d' _ [Hy Hi']. eapply safe_post; [|apply (IH (names ++ paths job y))].
      * intros ys A'' d'' _ (ys1 & yc & ys2 & -> & Hys1 & Hys2 & Hi''). exists (y :: ys1), yc, ys2.
        split; [done|]. split; [by constructor|]. split; [done|]. cbn. by rewrite <-!app_assoc in *.
      * apply Forall_app. split; [done|by apply paths_token].
      * eapply inv_mono; [|exact Hi']. intros d1 [[? ?] ?]. split; [done|]. by apply lives_app.
    + apply stable_and; [apply stable_absent|by apply stable_lives].
Qed.

(** ** The barriers *)

Definition synced (d : Disk) : Prop := dk_stored d = dk_live d.
Lemma closed_synced : closed synced.
Proof. intros d d' Hs [E Hw]. unfold synced in *. apply map_eq. intros n. rewrite E. destruct (Hw n) as [->| ->]; congruence. Qed.
Lemma synced_held n d : synced d → live n d → held n d.
Proof. intros E Hl. split; [done|]. by rewrite E. Qed.

Definition barrier_of (needed : bool) : FsProg (Result unit IoError) := if needed then fs SyncRoot else FsRet (Ok tt).
Lemma barrier_safe needed told J A d : stable J → inv told J A d →
  safe (inv told J) (barrier_of needed)
    (λ r A d, inv told (λ d, J d ∧ (needed = true → is_ok r = true → synced d)) A d) A d.
Proof.
  intros HJ Hi. destruct needed.
  - apply (safe_call _ SyncRoot _ _ _ (inv told J A)); [intros ? ? ? ?; eapply inv_closed; [apply HJ|done..]|done|done|].
    intros d0 a d1 (Hs & Ho & Hj) Ha. pose proof (proj2 HJ SyncRoot _ _ _ I Hj Ha) as Hj1.
    pose proof (plain_objects SyncRoot _ _ _ I Ho Ha) as Ho1. cbn [ack_of]. rewrite app_nil_r.
    intros d2 Hw. assert (inv told (λ d, J d ∧ (true = true → is_ok a = true → synced d)) A d2) as Hi2.
    { eapply inv_closed; [|split_and!|exact Hw]; [|done..|].
      - apply closed_and; [apply HJ|]. intros x x' Hx Hw' E1 E2. eapply closed_synced; [by apply Hx|done].
      - intros _ E. cbn in a, Ha. destruct a; [|done]. by subst d1. }
    split; [|exact Hi2]. eapply inv_mono; [|exact Hi2]. by intros ? [].
  - apply safe_inv_ret; [apply HJ|done|]. intros d0. apply inv_mono. by intros.
Qed.

Lemma safe_quiet {R} (m : FsProg R) told J A d : stable J → calls calm m → calls plain m → inv told J A d →
  safe (inv told J) m (λ _ A d, inv told J A d) A d.
Proof.
  intros HJ Hc Hp (Hs & Ho & Hj).
  pose proof (safe_conj _ _ _ _ _ _ _ (safe_calls _ told _ A d HJ Hc Hs Hj) (safe_plain _ A d Hp Ho)) as Hsafe.
  eapply safe_mono; [| |exact Hsafe]; [intros ? ? [[? ?] ?]|intros ? ? ? _ [[? ?] ?]]; by split_and!.
Qed.

(** ** Withdrawing *)

Lemma withdraw_plain kind : queued kind → calls plain (withdraw kind).
Proof.
  intros Hq%queued_has_shape. destruct kind as [path content|reserved committed|path content clear|marker]; cbn in Hq; [| |done..].
  - destruct Hq as (dg & Ht & ->). split; [intros []%token_dot|done].
  - destruct Hq as (dg & _ & Ht & -> & ->). split; [split; intros []%token_dot|done].
Qed.

Lemma withdraw_acted_quiet barrier job y : other job →
  calls calm (withdraw_acted barrier (job, y)) ∧ calls plain (withdraw_acted barrier (job, y)).
Proof.
  intros Ho. unfold withdraw_acted. cbn [fst snd]. destruct barrier; [done|]. destruct y as [[]|]; [|done..].
  split; [by apply withdraw_calm|apply withdraw_plain, Ho].
Qed.

Lemma withdraw_others batch ys barrier told J A d : Forall other batch → Forall2 proper batch ys → stable J → inv told J A d →
  safe (inv told J) (fs_map (withdraw_acted barrier) (zip batch ys))
    (λ ws A d, length ws = length batch ∧ inv told J A d) A d.
Proof.
  intros Hb Hys HJ. revert A d. induction Hys as [|job y batch ys Hy Hys IH]; intros A d Hi.
  - apply safe_inv_ret; [apply HJ|done|]. done.
  - apply Forall_cons in Hb as [Ho Hb]. cbn [zip]. apply safe_map_cons.
    eapply safe_post; [|apply safe_quiet; [done|..|exact Hi]].
    + intros w A' d' _ Hi'. eapply safe_post; [|by apply IH]. intros ws A'' d'' _ [Hlen ?]. split; [cbn; by f_equal|done].
    + by apply withdraw_acted_quiet.
    + by apply withdraw_acted_quiet.
Qed.

(** What is known of the pending marker after the barrier, and after the withdrawals. *)
Definition commit_synced (barrier : Result unit IoError) (y : Result bool IoError) (d : Disk) : Prop :=
  match y with
  | Err _ => absent pending d
  | Ok changed => changed = true ∧ match barrier with Ok _ => held pending d | Err _ => True end
  end.
Definition commit_withdrawn (barrier : Result unit IoError) (y : Result bool IoError) (w : option (Result unit IoError)) (d : Disk) : Prop :=
  commit_synced barrier y d ∧
  match barrier, y with
  | Err _, Ok _ => match w with Some (Ok _) => dk_live d !! pending = None | Some (Err _) => True | None => False end
  | _, _ => True
  end.
Lemma stable_commit_synced barrier y : stable (commit_synced barrier y).
Proof.
  destruct y as [changed|e]; [|apply stable_absent]. apply stable_and; [apply stable_pure|].
  destruct barrier; [apply stable_held; by left|apply stable_pure].
Qed.
Lemma stable_commit_withdrawn barrier y w : stable (commit_withdrawn barrier y w).
Proof.
  apply stable_and; [apply stable_commit_synced|]. destruct barrier, y; try apply stable_pure.
  destruct w as [[]|]; [apply stable_not_live|apply stable_pure..].
Qed.

Definition objects_held (barrier : Result unit IoError) (names : list bytes) (d : Disk) : Prop := is_ok barrier = true → helds names d.
Lemma stable_objects_held barrier names : Forall name_token names → stable (objects_held barrier names).
Proof. intros Hn. by apply stable_impl, stable_helds. Qed.

Lemma withdraw_commit job barrier y names A d : commit_job digest = Ok (wj_kind job) → Forall name_token names →
  inv None (λ d, commit_synced barrier y d ∧ objects_held barrier names d) A d →
  safe (inv None (λ _, True)) (withdraw_acted barrier (job, y))
    (λ w A d, inv None (λ d, commit_withdrawn barrier y w d ∧ objects_held barrier names d) A d) A d.
Proof.
  intros Hk%commit_kind Hn Hi.
  assert (stable (λ d, commit_synced barrier y d ∧ objects_held barrier names d)) as [Hcl _].
  { apply stable_and; [apply stable_commit_synced|by apply stable_objects_held]. }
  unfold withdraw_acted. cbn [snd fst]. destruct barrier as [u|e]; [|destruct y as [changed|e']].
  - intros d0 Hw. apply (inv_closed _ _ _ _ _ Hcl Hi) in Hw as Hi0. split; [by eapply inv_any|].
    eapply inv_mono; [|exact Hi0]. intros d1 [? ?]. done.
  - assert (changed = true) as -> by (destruct Hi as (_ & _ & [[? _] _]); done). rewrite Hk. cbn [withdraw].
    apply safe_bind_ret. intros d0 Hw. apply (inv_closed _ _ _ _ _ Hcl Hi) in Hw as (Hs & Ho & _). split; [done|].
    intros a d1 Ha. destruct marker_names as (Hr & Hp & Hrp).
    pose proof (plain_objects (RenameFile pending reserved_marker) _ _ _ (conj Hp Hr) Ho Ha) as Ho1.
    assert (match a with Ok _ => dk_live d1 !! pending = None | Err _ => True end) as Hl.
    { cbn in a, Ha. destruct a; [|done]. destruct Ha as (f & _ & ->). cbn. rewrite lookup_insert_ne by done. apply lookup_delete_eq. }
    cbn [ack_of]. rewrite app_nil_r. intros d2 Hw2. pose proof (closed_objects _ _ Ho1 Hw2) as Ho2. split; [done|].
    split; [done|]. split; [done|]. split; [|done]. split; [done|]. cbn in a |- *. destruct a; [|done]. by destruct Hw2 as [-> _].
  - intros d0 Hw. apply (inv_closed _ _ _ _ _ Hcl Hi) in Hw as Hi0. split; [by eapply inv_any|].
    eapply inv_mono; [|exact Hi0]. intros d1 [? ?]. done.
Qed.

Lemma withdraw_batch b1 cj b2 ys1 y ys2 barrier names A d : Forall other b1 → Forall other b2 →
  Forall2 proper b1 ys1 → Forall2 proper b2 ys2 → commit_job digest = Ok (wj_kind cj) → Forall name_token names →
  inv None (λ d, commit_synced barrier y d ∧ objects_held barrier names d) A d →
  safe (inv None (λ _, True)) (fs_map (withdraw_acted barrier) (zip (b1 ++ cj :: b2) (ys1 ++ y :: ys2)))
    (λ ws A d, ∃ ws1 w ws2, ws = ws1 ++ w :: ws2 ∧ length ws1 = length b1 ∧ length ws2 = length b2 ∧
       inv None (λ d, commit_withdrawn barrier y w d ∧ objects_held barrier names d) A d) A d.
Proof.
  intros Hb1 Hb2 Hys1 Hys2 Hc Hn. revert A d. induction Hys1 as [|job z b1 ys1 Hz Hys1 IH]; intros A d Hi.
  - cbn [app zip]. apply safe_map_cons. eapply safe_post; [|by eapply withdraw_commit]. intros w A' d' _ Hi'.
    eapply safe_mono; [| |apply (withdraw_others b2 ys2); [done..| |exact Hi']]; [intros ? ?; apply inv_any| |].
    + intros ws A'' d'' _ [Hlen Hi'']. by exists [], w, ws.
    + apply stable_and; [apply stable_commit_withdrawn|by apply stable_objects_held].
  - apply Forall_cons in Hb1 as [Ho Hb1]. cbn [app zip]. apply safe_map_cons.
    eapply safe_mono; [| |apply safe_quiet; [..|exact Hi]]; [intros ? ?; apply inv_any|..].
    + intros w A' d' _ Hi'. eapply safe_post; [|by apply IH]. intros ws A'' d'' _ (ws1 & wc & ws2 & -> & Hl1 & Hl2 & Hi'').
      exists (w :: ws1), wc, ws2. split; [done|]. split; [cbn; by f_equal|]. done.
    + apply stable_and; [apply stable_commit_synced|by apply stable_objects_held].
    + by apply withdraw_acted_quiet.
    + by apply withdraw_acted_quiet.
Qed.

(** ** Settling *)

(** The exchange left a trace: its pending marker, or a record that completes it. *)
Definition traced (d : Disk) : Prop :=
  held pending d ∨ ∃ path, (name_token path ∧ ∃ content, Publish path content (Some pending) ∈ kinds) ∧ held path d.
Definition good (told : option (Result unit JobFault)) (d : Disk) : Prop :=
  match told with
  | Some (Ok _) => traced d
  | Some (Err (NotPublished _)) => absent pending d
  | Some (Err (Unwithdrawn _)) | None => True
  end.
Lemma stable_traced : stable traced.
Proof.
  apply stable_or; [apply stable_held; by left|]. apply stable_ex. intros path.
  split; [intros d d' [Hp Hh] Hw; split; [done|by eapply closed_held]|].
  intros c d a d' Hc [[Ht Hp] Hh] Ha. split; [done|]. exact (proj2 (stable_held path (or_intror Ht)) _ _ _ _ Hc Hh Ha).
Qed.
Lemma stable_good told : stable (good told).
Proof. destruct told as [[u|[e|e]]|]; [apply stable_traced|apply stable_absent|apply stable_pure..]. Qed.

Lemma plain_helds c names d a d' : plain c → Forall name_token names → fs_step d c a d' → helds names d → helds names d'.
Proof.
  rewrite Forall_forall. intros Hc Ht Ha Hh n Hn. destruct (Hh n Hn) as [Hl Hs].
  assert (live n d') as Hl' by (unfold live; by rewrite (plain_live _ _ _ _ _ Hc (Ht n Hn) Ha)). split; [done|].
  destruct c as [|x|x content|x|from to|x| |slot|ack o]; cbn in a, Ha; try (by subst d').
  - destruct a; [by destruct Ha as [_ ->]|by subst].
  - destruct a; [by subst|by destruct Ha as [? ->]].
  - by destruct a; subst d'.
  - destruct a; [by destruct Ha as (f & _ & ->)|by subst].
  - destruct a; [by destruct Ha as [_ ->]|by destruct Ha as [-> _]].
  - destruct a; subst d'; done.
Qed.

(** Clearing the pending marker is safe once the completing record is held. *)
Lemma clear_good told path content d a d' : name_token path → Publish path content (Some pending) ∈ kinds → held path d →
  fs_step d (RemoveFile pending) a d' → good told d → good told d'.
Proof.
  intros Ht Hk Hh Ha Hg. destruct told as [[u|[e|e]]|]; [| |done..].
  - right. exists path. split; [eauto|].
    apply (plain_helds (RemoveFile pending) [path] d a d'); [exact pending_no_token|by constructor|done| |by left].
    by intros n ->%list_elem_of_singleton.
  - cbn in a, Ha. destruct a; [destruct Ha as [[f Hf] _]; destruct Hg; congruence|by destruct Ha as [-> _]].
Qed.

Definition settled_state (barrier : Result unit IoError) (names : list bytes) (verdict : option (Result unit JobFault)) (d : Disk) : Prop :=
  good verdict d ∧ objects_held barrier names d.
Lemma stable_settled barrier names verdict : Forall name_token names → stable (settled_state barrier names verdict).
Proof. intros Hn. apply stable_and; [apply stable_good|by apply stable_objects_held]. Qed.

Definition covered (barrier : Result unit IoError) (names : list bytes) (job : WriteJob) (y : Result bool IoError) : Prop :=
  other job ∧ proper job y ∧ ∀ n, n ∈ paths job y → n ∈ names.

Lemma clear_settled barrier names told verdict marker path content A d : Forall name_token names → name_token path → is_ok barrier = true →
  path ∈ names → Publish path content (Some marker) ∈ kinds → (∃ dg, name_token dg ∧ marker = dg ++ "."%char :: PENDING_EXTENSION) →
  inv told (settled_state barrier names verdict) A d →
  safe (inv told (settled_state barrier names verdict)) (clear_marker_of (Publish path content (Some marker)))
    (λ _ A d, inv told (settled_state barrier names verdict) A d) A d.
Proof.
  intros Hn Ht Hb Hin Hk (dg & Hdg & Hm) Hi. pose proof (stable_settled barrier names verdict Hn) as HJ.
  assert (plain (RemoveFile marker)) as Hpl by (subst marker; intros []%token_dot).
  destruct (decide (marker = pending)) as [->|Hne].
  - apply safe_bind_ret. intros d0 Hw. apply (inv_closed _ _ _ _ _ (proj1 HJ) Hi) in Hw as Hi0. split; [done|].
    intros a d1 Ha. destruct Hi0 as (Hs & Ho & Hg & Hh). cbn [ack_of]. rewrite app_nil_r.
    assert (inv told (settled_state barrier names verdict) A d1) as Hi1.
    { split; [done|]. split; [by eapply plain_objects|].
      split; [exact (clear_good verdict path content _ _ _ Ht Hk (Hh Hb path Hin) Ha Hg)|]. intros _. exact (plain_helds _ _ _ _ _ Hpl Hn Ha (Hh Hb)). }
    intros d2 Hw2. apply (inv_closed _ _ _ _ _ (proj1 HJ) Hi1) in Hw2. done.
  - apply safe_quiet; [done| | |done]; (apply calls_bind; [split; [|done]|done]); [|done]. by split.
Qed.

Lemma resolve_other job y w barrier wb names told verdict A d : covered barrier names job y → Forall name_token names →
  inv told (settled_state barrier names verdict) A d →
  safe (inv told (settled_state barrier names verdict)) (resolve (wj_kind job) y barrier w wb)
    (λ _ A d, inv told (settled_state barrier names verdict) A d) A d.
Proof.
  intros (Ho & Hy & Hp) Hn Hi. pose proof (stable_settled barrier names verdict Hn) as [Hcl _].
  assert (∀ o : Result unit JobFault, safe (inv told (settled_state barrier names verdict)) (FsRet o) (λ _ A d, inv told (settled_state barrier names verdict) A d) A d) as Hret.
  { intros o. by apply safe_inv_ret. }
  destruct y as [changed|e]; [|apply Hret]. destruct barrier as [u|e]; [|apply Hret]. cbn [resolve]. apply safe_bind_ret.
  pose proof (queued_has_shape _ (proj1 Ho)) as Hq. destruct Ho as (_ & _ & _ & Hk). unfold proper, paths in Hy, Hp.
  destruct (wj_kind job) as [| |path content [marker|]|]; try (by apply safe_inv_ret).
  destruct changed; [|done]. destruct Hq as (Ht & _ & Hm).
  apply clear_settled; [done..|apply Hp, list_elem_of_singleton; done|done|by apply Hm|done].
Qed.

Definition settle_entry : Type := WriteJob * Result bool IoError * option (Result unit IoError).
Definition covered3 (barrier : Result unit IoError) (names : list bytes) (t : settle_entry) : Prop := covered barrier names t.1.1 t.1.2.

(** One settled job, up to the rest of its batch. *)
Lemma settle_step job y w barrier wb names told verdict rest (I : list Ack → Disk → Prop) Q A d :
  covered barrier names job y → Forall name_token names → inv told (settled_state barrier names verdict) A d →
  (∀ A d, inv told (settled_state barrier names verdict) A d → I A d) →
  (∀ A d, inv told (settled_state barrier names verdict) A d → safe I (settle_batch barrier wb rest) Q A d) →
  safe I (settle_batch barrier wb ((job, y, w) :: rest)) Q A d.
Proof.
  intros Hc Hn Hi HI Hrest. pose proof (stable_settled barrier names verdict Hn) as HJ. cbn [settle_batch].
  apply safe_bind. eapply safe_mono; [exact HI| |by apply resolve_other]. intros o A1 d1 _ Hi1. cbn beta in Hi1.
  apply safe_bind. eapply safe_mono; [exact HI| |apply (safe_quiet (fs (DropSlot _)) told); [done..|exact Hi1]]. intros r A2 d2 _ Hi2. cbn beta in Hi2.
  apply safe_bind. eapply safe_mono; [exact HI| |apply (safe_quiet (fs (SendAck _ _)) told); [done| |done|exact Hi2]].
  - intros r' A3 d3 _ Hi3. by apply Hrest.
  - split; [apply Hc|done].
Qed.

Lemma settle_others barrier wb names told verdict l A d : Forall (covered3 barrier names) l → Forall name_token names →
  inv told (settled_state barrier names verdict) A d →
  safe (inv told (settled_state barrier names verdict)) (settle_batch barrier wb l) (λ _ A d, inv told (settled_state barrier names verdict) A d) A d.
Proof.
  intros Hl Hn. revert A d. induction Hl as [|[[job y] w] l Hc Hl IH]; intros A d Hi.
  - apply safe_inv_ret; [by apply stable_settled|done|done].
  - by eapply settle_step.
Qed.

(** What holds in every state the writer reaches. *)
Definition answers_sound (A : list Ack) (d : Disk) : Prop := objects_sound d ∧ ∃ told, said told A ∧ good told d.
Lemma settled_sound told verdict barrier names A d : told = None ∨ told = verdict →
  inv told (settled_state barrier names verdict) A d → answers_sound A d.
Proof. intros Ht (Hs & Ho & Hg & _). split; [done|]. exists told. split; [done|]. by destruct Ht as [->| ->]. Qed.
Lemma unanswered_sound J A d : inv None J A d → answers_sound A d.
Proof. intros (? & ? & _). split; [done|]. by exists None. Qed.
Lemma inv_sound told J A d : (∀ d, J d → good told d) → inv told J A d → answers_sound A d.
Proof. intros HJ (? & ? & ?). split; [done|]. exists told. auto. Qed.

Definition commit_outcome (y : Result bool IoError) (barrier : Result unit IoError) (w : option (Result unit IoError))
    (wb : Result unit IoError) : Result unit JobFault :=
  match y, barrier with
  | Err e, _ => Err (NotPublished e)
  | Ok _, Ok _ => Ok tt
  | Ok true, Err e => match w, wb with Some (Ok _), Ok _ => Err (NotPublished e) | Some _, _ => Err (Unwithdrawn e) | None, _ => Err (NotPublished e) end
  | Ok false, Err e => Err (NotPublished e)
  end.
Lemma resolve_commit reserved committed y barrier w wb :
  resolve (CommitMarker reserved committed) y barrier w wb = FsRet (commit_outcome y barrier w wb).
Proof. destruct y as [[]|], barrier as [[]|]; try done; by destruct w as [[[]|]|], wb. Qed.

Lemma settle_batch_commit barrier wb names cj y w l1 l2 A d : wj_ack cj = Some sender → commit_job digest = Ok (wj_kind cj) →
  Forall (covered3 barrier names) l1 → Forall (covered3 barrier names) l2 → Forall name_token names →
  let oc := commit_outcome y barrier w wb in
  inv None (settled_state barrier names (Some oc)) A d →
  safe answers_sound (settle_batch barrier wb (l1 ++ (cj, y, w) :: l2)) (λ _ A d, inv (Some oc) (settled_state barrier names (Some oc)) A d) A d.
Proof.
  intros Hack Hk%commit_kind Hl1 Hl2 Hn oc. revert A d. induction Hl1 as [|[[job z] v] l1 Hc Hl1 IH]; intros A d Hi.
  - pose proof (stable_settled barrier names (Some oc) Hn) as HJ. cbn [app settle_batch]. rewrite Hk, resolve_commit. fold oc.
    apply safe_bind. eapply (safe_mono (inv None (settled_state barrier names (Some oc)))); [intros ? ?; apply unanswered_sound| |apply (safe_inv_ret None _ oc (λ o A d, o = oc ∧ inv None (settled_state barrier names (Some oc)) A d)); [apply HJ|exact Hi|done]].
    intros o A1 d1 _ [-> Hi1]. apply safe_bind.
    eapply (safe_mono (inv None (settled_state barrier names (Some oc)))); [intros ? ?; apply unanswered_sound| |apply (safe_quiet (fs (DropSlot _)) None); [done..|exact Hi1]].
    intros r A2 d2 _ Hi2. cbn beta in Hi2. apply safe_bind. rewrite Hack.
    intros d3 Hw. apply (inv_closed _ _ _ _ _ (proj1 HJ) Hi2) in Hw as Hi3. split; [by eapply unanswered_sound|].
    intros a d4 ->. cbn [ack_of]. destruct Hi3 as (Hs3 & Ho3 & Hj3).
    assert (inv (Some oc) (settled_state barrier names (Some oc)) (A2 ++ [(Some sender, oc)]) d3) as Hi4 by (split; [by apply said_now|done]).
    apply (safe_ret _ _ _ _ (inv (Some oc) (settled_state barrier names (Some oc)) (A2 ++ [(Some sender, oc)]))); [|exact Hi4|..].
    + intros x x' Hx Hx'. by eapply inv_closed; [apply HJ|..].
    + intros x Hx. eapply settled_sound; [by right|exact Hx].
    + intros x Hx. eapply safe_mono; [| |by apply settle_others]; [|done]. intros ? ?. apply settled_sound. by right.
  - cbn [app]. eapply settle_step; [done|done|exact Hi|intros ? ?; apply unanswered_sound|]. intros A' d' Hi'. by apply IH.
Qed.

(** ** A batch *)

Lemma published_changed batch ys : published_objects batch ys ≠ [] → existsb is_changed ys = true.
Proof.
  revert ys. induction batch as [|j batch IH]; intros [|z ys]; try done. unfold published_objects. cbn. intros Hp.
  destruct (is_changed z) eqn:E; [done|]. apply (IH ys). intros Hnil. apply Hp. fold (published_objects batch ys). rewrite Hnil, app_nil_r.
  unfold paths. destruct (wj_kind j); [done..| |done]. by destruct z as [[]|].
Qed.
Lemma covered_batch barrier names batch ys ws : Forall other batch → Forall2 proper batch ys → length ws = length batch →
  (∀ n, n ∈ published_objects batch ys → n ∈ names) → Forall (covered3 barrier names) (zip (zip batch ys) ws).
Proof.
  intros Hb Hys. revert ws names. induction Hys as [|job y batch ys Hy Hys IH]; intros [|w ws] names Hlen Hsub; try done.
  apply Forall_cons in Hb as [Ho Hb]. constructor.
  - split_and!; [done|done|]. intros n Hn. apply Hsub. unfold published_objects. cbn. apply elem_of_app. by left.
  - apply IH; [done|by injection Hlen|]. intros n Hn. apply Hsub. unfold published_objects. cbn. apply elem_of_app. by right.
Qed.

Lemma run_others batch told verdict A d : told = None ∨ told = verdict → Forall other batch → inv told (good verdict) A d →
  safe answers_sound (run_batch batch) (λ _ A d, inv told (good verdict) A d) A d.
Proof.
  intros Htv Hb Hi. unfold run_batch. pose proof (stable_good verdict) as Hg.
  assert (∀ J, (∀ d, J d → good verdict d) → ∀ A d, inv told J A d → answers_sound A d) as HI.
  { intros J HJ A' d'. apply inv_sound. by destruct Htv as [->| ->]. }
  apply safe_bind. eapply safe_mono; [by apply HI| |by apply (act_others batch (good verdict))]. intros ys A1 d1 _ [Hys Hi1].
  set (names := published_objects batch ys) in *. assert (Forall name_token names) as Hn by (by apply published_token).
  assert (stable (λ d, good verdict d ∧ lives names d)) as HJ1 by (by apply stable_and, stable_lives).
  apply safe_bind. eapply safe_mono; [| |by apply (barrier_safe _ told (λ d, good verdict d ∧ lives names d))]; [apply HI; by intros ? []|].
  intros barrier A2 d2 _ Hi2. cbn beta in Hi2.
  assert (inv told (settled_state barrier names verdict) A2 d2) as Hi2'.
  { eapply inv_mono; [|exact Hi2]. intros x [[? Hl] Hsync]. split; [done|]. intros Hbar n Hin. apply synced_held; [|by apply Hl].
    apply Hsync; [|done]. apply (published_changed batch). intros E. fold names in E. rewrite E in Hin. by apply elem_of_nil in Hin. }
  pose proof (stable_settled barrier names verdict Hn) as HJ2.
  assert (∀ A d, inv told (settled_state barrier names verdict) A d → answers_sound A d) as HI2 by (intros ? ?; by apply settled_sound).
  apply safe_bind. eapply safe_mono; [exact HI2| |by apply (withdraw_others batch ys)]. intros ws A3 d3 _ [Hlen Hi3].
  apply safe_bind. eapply safe_mono; [exact HI2| |by apply (barrier_safe _ told)]. intros wb A4 d4 _ Hi4. cbn beta in Hi4.
  eapply safe_mono; [exact HI2| |apply settle_others; [by apply covered_batch|done|]].
  - intros u A5 d5 _ Hi5. eapply inv_mono; [|exact Hi5]. by intros ? [].
  - eapply inv_mono; [|exact Hi4]. by intros ? [].
Qed.

Lemma synced_commit ys1 y ys2 barrier names d : commit_acted y d ∧ lives names d →
  (existsb is_changed (ys1 ++ y :: ys2) = true → is_ok barrier = true → synced d) →
  (names ≠ [] → existsb is_changed (ys1 ++ y :: ys2) = true) →
  commit_synced barrier y d ∧ objects_held barrier names d.
Proof.
  intros [Hy Hl] Hsync Hne. split.
  - destruct y as [changed|e]; [|done]. destruct Hy as [-> Hp]. split; [done|]. destruct barrier; [|done].
    apply synced_held; [|done]. apply Hsync; [|done]. rewrite existsb_app. cbn. by rewrite orb_true_r.
  - intros Hb n Hin. apply synced_held; [|by apply Hl]. apply Hsync; [|done]. apply Hne. intros ->. by apply elem_of_nil in Hin.
Qed.

Lemma withdrawn_verdict barrier y w wb ws1 ws2 d : commit_withdrawn barrier y w d →
  (existsb is_some (ws1 ++ w :: ws2) = true → is_ok wb = true → synced d) → good (Some (commit_outcome y barrier w wb)) d.
Proof.
  intros [Hs Hw] Hsync. destruct y as [changed|e]; [|done]. destruct Hs as [-> Hs]. destruct barrier as [u|e]; [by left|].
  destruct w as [[[]|]|]; [|done..]. destruct wb; [|done]. cbn. split; [done|]. rewrite Hsync; [done| |done].
  rewrite existsb_app. cbn. by rewrite orb_true_r.
Qed.

Lemma run_commit b1 cj b2 A d : wj_ack cj = Some sender → commit_job digest = Ok (wj_kind cj) → Forall other b1 → Forall other b2 →
  inv None (absent pending) A d →
  safe answers_sound (run_batch (b1 ++ cj :: b2)) (λ _ A d, ∃ oc, inv (Some oc) (good (Some oc)) A d) A d.
Proof.
  intros Hack Hk Hb1 Hb2 Hi. unfold run_batch.
  assert (∀ J A d, inv None J A d → answers_sound A d) as HI by (intros ? ? ?; apply unanswered_sound).
  apply safe_bind. eapply safe_mono; [apply HI| |apply (act_batch b1 cj b2 []); [done..| |]]; [|constructor|].
  2: { eapply inv_mono; [|exact Hi]. intros x ?. split; [done|]. intros n Hn. by apply elem_of_nil in Hn. }
  intros ys A1 d1 _ (ys1 & y & ys2 & -> & Hys1 & Hys2 & Hi1). cbn [app] in Hi1.
  set (names := published_objects b1 ys1 ++ published_objects b2 ys2) in *.
  assert (Forall name_token names) as Hn by (apply Forall_app; split; by apply published_token).
  assert (stable (λ d, commit_acted y d ∧ lives names d)) as HJ1 by (by apply stable_and, stable_lives; [apply stable_commit_acted|]).
  apply safe_bind. eapply safe_mono; [| |by apply (barrier_safe _ None (λ d, commit_acted y d ∧ lives names d))]; [apply HI|].
  intros barrier A2 d2 _ Hi2. cbn beta in Hi2.
  assert (inv None (λ d, commit_synced barrier y d ∧ objects_held barrier names d) A2 d2) as Hi2'.
  { eapply inv_mono; [|exact Hi2]. intros x [Hx Hsync]. eapply synced_commit; [done|exact Hsync|]. intros Hne.
    rewrite existsb_app. cbn [existsb]. destruct (published_objects b1 ys1) eqn:E1.
    - rewrite (published_changed b2 ys2), !orb_true_r; [done|]. intros E2. apply Hne. unfold names. by rewrite E2.
    - rewrite (published_changed b1 ys1); [done|]. by rewrite E1. }
  apply safe_bind. eapply safe_mono; [apply HI| |by apply (withdraw_batch b1 cj b2 ys1 y ys2 barrier names)].
  intros ws A3 d3 _ (ws1 & w & ws2 & -> & Hl1 & Hl2 & Hi3).
  assert (stable (λ d, commit_withdrawn barrier y w d ∧ objects_held barrier names d)) as HJ3.
  { apply stable_and; [apply stable_commit_withdrawn|by apply stable_objects_held]. }
  apply safe_bind. eapply safe_mono; [| |by apply (barrier_safe _ None (λ d, commit_withdrawn barrier y w d ∧ objects_held barrier names d))]; [apply HI|].
  intros wb A4 d4 _ Hi4. cbn beta in Hi4.
  assert (length ys1 = length b1) as Hy1 by (symmetry; by eapply Forall2_length).
  rewrite !(zip_with_app pair) by (rewrite ?length_zip_with; lia). cbn [zip_with zip].
  eapply safe_post; [|apply (settle_batch_commit barrier wb names); [done|done|..|done|]].
  - intros u A5 d5 _ Hi5. exists (commit_outcome y barrier w wb). eapply inv_mono; [|exact Hi5]. by intros ? [].
  - apply covered_batch; [done..|]. intros n Hin. apply elem_of_app. by left.
  - apply covered_batch; [done..|]. intros n Hin. apply elem_of_app. by right.
  - eapply inv_mono; [|exact Hi4]. intros x [[Hw Hh] Hsync]. split; [by eapply withdrawn_verdict|done].
Qed.

(** ** The loop *)

Lemma loop_others batches told A d : Forall other (concat batches) → inv told (good told) A d →
  safe answers_sound (write_loop batches) (λ _ _ _, True) A d.
Proof.
  revert A d. induction batches as [|batch batches IH]; intros A d Hb Hi; cbn [write_loop concat] in *.
  - intros d0 Hw. split; [|done]. eapply inv_sound; [done|]. eapply inv_closed; [apply stable_good|exact Hi|done].
  - apply Forall_app in Hb as [Hb Hbs]. apply safe_bind. eapply safe_post; [|apply (run_others batch told told); [by right|done|done]].
    intros u A' d' _ Hi'. by apply IH.
Qed.

Definition refused : Result unit JobFault := Err (NotPublished {| io_kind := IoOther; io_text := [] |}).
Lemma loop_commit batches before cj after A d : concat batches = before ++ cj :: after → wj_ack cj = Some sender →
  commit_job digest = Ok (wj_kind cj) → Forall other before → Forall other after → inv None (absent pending) A d →
  safe answers_sound (write_loop batches) (λ _ _ _, True) A d.
Proof.
  intros Hcat Hack Hk. revert before A d Hcat. induction batches as [|batch batches IH]; intros before A d Hcat Hb Ha Hi; cbn [write_loop concat] in *.
  { by destruct before. }
  assert (∀ before', concat batches = before' ++ cj :: after → Forall other before' → Forall other batch →
    safe answers_sound (_ ← run_batch batch; write_loop batches) (λ _ _ _, True) A d) as Hlater.
  { intros before' Hc Hb' Hbatch. apply safe_bind.
    eapply safe_post; [|apply (run_others batch None (Some refused)); [by left|done|exact Hi]].
    intros u A' d' _ Hi'. by apply (IH before'). }
  apply app_eq_inv in Hcat as [(k & -> & Hk')|(k & -> & Hk')].
  - destruct k as [|c k]; cbn in Hk'.
    + rewrite app_nil_r in *. by apply (Hlater []).
    + injection Hk' as <- ->. apply Forall_app in Ha as [Hak Ha]. apply safe_bind.
      eapply safe_post; [|by apply run_commit]. intros u A' d' _ [oc Hi']. by eapply loop_others.
  - apply Forall_app in Hb as [Hb Hbk]. by apply (Hlater k).
Qed.
End exchange.

Section theorems.
Context `{Base64, Sha2, SerdeJson, !Serde RetainedHopRecord, !Serde RetainedRequest, !Serde ReservationMarker}.

Lemma crash_absent n d d' : absent n d → crash d d' → ∃ e, read_file d' n = Err e ∧ io_kind e = IoNotFound.
Proof. intros [_ Hn] [_ Hc]. specialize (Hc n). rewrite Hn in Hc. unfold read_file. rewrite Hc. eauto. Qed.
Lemma crash_held n d d' : held n d → crash d d' → ∃ content, read_file d' n = Ok content.
Proof. intros [_ [f Hn]] [_ Hc]. specialize (Hc n). rewrite Hn in Hc. destruct Hc as (g & Hg & _). unfold read_file. rewrite Hg. eauto. Qed.

Lemma queued_object path content clear : queued (Publish path content clear) →
  object_path path = Ok path ∧ name_token path ∧ EvidenceDigest_of content = path.
Proof.
  intros Hq. pose proof (queued_has_shape _ Hq) as (Ht & Hh & _). split; [|done].
  assert (archive_object_path (EvidenceDigest_of content) = Ok path) as E.
  { inversion Hq as [dg k E|dg k E|dg rq rs k st E|rq rs k st E|]; subst.
    - unfold reserve_job in E. destruct (marker_path _ _); [|done]. by destruct (marker_to_bytes _).
    - by apply commit_job_shape in E as [_ ?].
    - unfold complete_job in E. destruct (ok_or _ _); [|done]. match type of E with context [archive_object_path ?x] => destruct (archive_object_path x) eqn:Ep; [|done] end.
      destruct (marker_path _ _); [|done]. injection E as E1 E2 E3 E4. subst. exact Ep.
    - unfold retain_job in E. destruct (ok_or _ _); [|done]. match type of E with context [archive_object_path ?x] => destruct (archive_object_path x) eqn:Ep; [|done] end.
      injection E as E1 E2 E3 E4. subst. exact Ep. }
  rewrite Hh in E. unfold archive_object_path in E. destruct (object_path path); [|done]. cbn in E. by injection E as ->.
Qed.

Lemma crash_object path content clear d d' : queued (Publish path content clear) → objects_sound d → held path d → crash d d' →
  ∃ record, archive_get path (read_file d') = Ok (Some record) ∧ EvidenceDigest_of record = EvidenceDigest_of content.
Proof.
  intros (Ho & Ht & Hh)%queued_object Hs [_ [f Hf]] [_ Hc]. specialize (Hc path). rewrite Hf in Hc. destruct Hc as (g & Hg & _ & Hy).
  destruct (Hs path f Ht (or_intror Hf)) as [Hsy Hp]. exists (fl_content g). unfold archive_get, read_file. rewrite Ho, Hg, Hy by done.
  rewrite Hp, bytes_eqb_refl. cbn. by rewrite Hh.
Qed.

(** C8: A commit's answer holds after a crash at any point of the writer's run: an exchange told
    that it may be dispatched left its pending marker, or a record that completes it, and one told
    that the commit was not published left no pending marker. *)
Theorem commit_answer_survives_crash digest pending sender commit before after batches d acks d' m' d'' outcome :
  marker_path digest PENDING_EXTENSION = Ok pending → commit_job digest = Ok (wj_kind commit) → wj_ack commit = Some sender →
  concat batches = before ++ commit :: after →
  Forall (λ job, queued (wj_kind job) ∧ wj_kind job ≠ wj_kind commit ∧ wj_ack job ≠ Some sender) (before ++ after) →
  objects_sound d → absent pending d →
  fs_runs d (write_loop batches) acks d' m' → crash d' d'' → (Some sender, outcome) ∈ acks →
  match outcome with
  | Ok _ =>
      (∃ content, read_file d'' pending = Ok content) ∨
      (∃ path content record, Publish path content (Some pending) ∈ map wj_kind (before ++ after) ∧
         archive_get path (read_file d'') = Ok (Some record) ∧ EvidenceDigest_of record = EvidenceDigest_of content)
  | Err (NotPublished _) => ∃ e, read_file d'' pending = Err e ∧ io_kind e = IoNotFound
  | Err (Unwithdrawn _) => True
  end.
Proof.
  intros Hp Hc Hack Hcat Hothers Hs Ha Hrun Hcrash Hin. set (kinds := map wj_kind (before ++ after)).
  assert (Forall (other digest sender kinds) (before ++ after)) as Ho.
  { rewrite Forall_forall in Hothers |- *. intros job Hj. destruct (Hothers job Hj) as (? & ? & ?).
    split_and!; [done|congruence|done|]. by apply list_elem_of_fmap_2. }
  apply Forall_app in Ho as [Hob Hoa].
  assert (answers_sound pending sender kinds acks d') as [Hs' (told & Htold & Hgood)].
  { eapply (safe_runs _ _ _ (λ _ _ _, True) [] _ _ _ Hrun). eapply loop_commit; [done..|].
    split; [|done]. intros o. split; [intros Hnil; by apply elem_of_nil in Hnil|done]. }
  apply Htold in Hin as ->. destruct outcome as [u|[e|e]]; [|by eapply crash_absent|done].
  destruct Hgood as [Hheld|(path & [Ht (content & Hk)] & Hheld)]; [left; by eapply crash_held|right].
  assert (queued (Publish path content (Some pending))) as Hq.
  { apply list_elem_of_fmap in Hk as (job & -> & Hj). rewrite Forall_forall in Hothers. by apply Hothers. }
  destruct (crash_object _ _ _ _ _ Hq Hs' Hheld Hcrash) as (record & Hr & Hd). by exists path, content, record.
Qed.
End theorems.

(** ** A run where no call fails *)

Module CrashWitness.
Import Instances.

Definition fs_do (d : Disk) (c : FsCall) : fs_answer c * Disk :=
  match c with
  | UniqueSuffix => (b#"1", d)
  | OpenPrivate path =>
      match dk_live d !! path with
      | None => (Ok tt, with_live d (<[path := {| fl_content := []; fl_synced := false |}]> (dk_live d)))
      | Some _ => (Err {| io_kind := IoOther; io_text := [] |}, d)
      end
  | WriteAll path content => (Ok tt, with_live d (alter (λ _, {| fl_content := content; fl_synced := false |}) path (dk_live d)))
  | SyncAll path => (Ok tt, with_live d (alter (λ f, {| fl_content := fl_content f; fl_synced := true |}) path (dk_live d)))
  | RenameFile from to =>
      match dk_live d !! from with
      | Some f => (Ok tt, with_live d (<[to := f]> (delete from (dk_live d))))
      | None => (Err {| io_kind := IoNotFound; io_text := [] |}, d)
      end
  | RemoveFile path =>
      match dk_live d !! path with
      | Some _ => (Ok tt, with_live d (delete path (dk_live d)))
      | None => (Err {| io_kind := IoNotFound; io_text := [] |}, d)
      end
  | SyncRoot => (Ok tt, {| dk_live := dk_live d; dk_stored := dk_live d |})
  | DropSlot _ | SendAck _ _ => (tt, d)
  end.
Lemma fs_do_step d c : fs_step d c (fs_do d c).1 (fs_do d c).2.
Proof.
  destruct c as [|x|x content|x|from to|x| |slot|ack o]; cbn; try done.
  - by destruct (dk_live d !! x) eqn:E.
  - destruct (dk_live d !! from) eqn:E; cbn; [|done]. eauto.
  - destruct (dk_live d !! x) eqn:E; cbn; [|done]. split; [by eexists|done].
Qed.

Fixpoint fs_play {R} (d : Disk) (m : FsProg R) : list Ack * Disk * option R :=
  match m with
  | FsRet r => ([], d, Some r)
  | FsDo c k => let '(acks, d', r) := fs_play (fs_do d c).2 (k (fs_do d c).1) in (ack_of c ++ acks, d', r)
  end.
Lemma fs_play_runs {R} d (m : FsProg R) : ∃ m', fs_runs d m (fs_play d m).1.1 (fs_play d m).1.2 m'.
Proof.
  revert d. induction m as [r|c k IH]; intros d; [exists (FsRet r); constructor|].
  destruct (IH (fs_do d c).1 (fs_do d c).2) as [m' Hr]. exists m'. cbn [fs_play].
  destruct (fs_play (fs_do d c).2 (k (fs_do d c).1)) as [[acks d'] r]. eapply run_call; [apply fs_do_step|exact Hr].
Qed.

#[export] Instance w_marker_serde : Serde ReservationMarker := serde_through
  (λ v, (λ d, {| rm_request_digest := d |}) <$> (json_get v b#"request_digest" ≫= as_str))
  (λ m, Some (Object {[ b#"request_digest" := JString (rm_request_digest m) ]})).
#[export] Instance w_hop_serde : Serde RetainedHopRecord := serde_through (λ _, None) (λ _, None).
#[export] Instance w_retained_serde : Serde RetainedRequest := serde_through (λ _, None) (λ _, None).

Definition w_digest : bytes := b#"AAAA".
Definition w_reserve : WriteJob :=
  accounted (match reserve_job w_digest with Ok k => k | Err _ => Rescind [] end) {| ack_exchange := 0; ack_call := AwaitReserve |} 0.
Definition w_commit : WriteJob :=
  accounted (match commit_job w_digest with Ok k => k | Err _ => Rescind [] end) {| ack_exchange := 0; ack_call := AwaitCommit |} 0.
Definition w_disk : Disk := {| dk_live := ∅; dk_stored := ∅ |}.
Definition w_disk_after : Disk := (fs_play w_disk (write_loop [[w_reserve]; [w_commit]])).1.2.
End CrashWitness.
Import CrashWitness.
Import Instances.

Lemma w_disk_sound : objects_sound w_disk.
Proof. intros n f _ [Hf|Hf]; cbn in Hf; by rewrite lookup_empty in Hf. Qed.
Lemma w_after_crash : crash w_disk_after w_disk_after.
Proof.
  assert (dk_stored w_disk_after = dk_live w_disk_after) as E by (vm_compute; reflexivity). split; [done|]. intros n. rewrite E.
  destruct (dk_live w_disk_after !! n) as [f|] eqn:Ef; [|done]. exists f. split; [done|]. split; [|done].
  assert (map_Forall (λ _ f, fl_synced f = true) (dk_live w_disk_after)) as Hall.
  { apply (bool_decide_unpack _). vm_compute. exact I. }
  by apply (Hall n).
Qed.

Lemma commit_answer_survives_crash_witness :
  (∃ content, read_file w_disk_after (w_digest ++ b#".pending") = Ok content) ∨
  (∃ path content record, Publish path content (Some (w_digest ++ b#".pending")) ∈ map wj_kind ([w_reserve] ++ []) ∧
     archive_get path (read_file w_disk_after) = Ok (Some record) ∧ EvidenceDigest_of record = EvidenceDigest_of content).
Proof.
  destruct (fs_play_runs w_disk (write_loop [[w_reserve]; [w_commit]])) as [m' Hr].
  refine (commit_answer_survives_crash w_digest _ {| ack_exchange := 0; ack_call := AwaitCommit |} w_commit [w_reserve] []
           [[w_reserve]; [w_commit]] w_disk _ w_disk_after m' w_disk_after (Ok tt) _ _ _ _ _ _ _ Hr w_after_crash _).
  - vm_compute. reflexivity.
  - vm_compute. reflexivity.
  - reflexivity.
  - reflexivity.
  - constructor; [|constructor]. split; [|split; [vm_compute; discriminate|discriminate]].
    apply (queued_reserve w_digest). vm_compute. reflexivity.
  - exact w_disk_sound.
  - split; vm_compute; reflexivity.
  - assert ((fs_play w_disk (write_loop [[w_reserve]; [w_commit]])).1.1 =
      [(wj_ack w_reserve, Ok tt); (wj_ack w_commit, Ok tt)]) as -> by (vm_compute; reflexivity).
    right. left.
Defined.
