(* ===== verification/RetentionQueue.v ===== *)
(** * The evidence store's queue: how many jobs a ceiling of permits can have waiting

    [EvidenceRetention] admits an exchange with a permit of a semaphore and sends its jobs over a
    bounded channel with [try_send]. A permit is shared by the guard of a reservation, the
    commitment that follows it and each accounted job, and free when the last of them is gone; a
    dropped guard sends a rescission that holds none. Here is that system with the writer's draining
    and acknowledging and with requests dropped at their awaits, in any order. *)

From S2P Require Import Prelude.
From S2P Require Import Retention.

(** ** The state *)

(** What the channel counts of a [WriteJob]: the exchange, and whether it is [accounted]. *)
Inductive QueuedJob := QAwaited (call : Awaited) (i : nat) | QRescind (i : nat).
Definition slot_of (j : QueuedJob) : option nat := match j with QAwaited _ i => Some i | QRescind _ => None end.
Definition rescinds (j : QueuedJob) : option nat := match j with QRescind i => Some i | QAwaited _ _ => None end.
Definition reserves (j : QueuedJob) : option nat :=
  match j with QAwaited AwaitReserve i | QAwaited AwaitRetain i => Some i | _ => None end.

#[global] Instance awaited_eq_dec : EqDecision Awaited.
Proof. solve_decision. Defined.
#[global] Instance queuedjob_eq_dec : EqDecision QueuedJob.
Proof. solve_decision. Defined.

(** A request: suspended in a call, or holding the guard or the commitment between calls. [ack] is
    what the writer has sent it. [completed] is the [completion] flag, taken. *)
Inductive RequestTask :=
  | Awaiting (call : Awaited) (ack : option bool)
  | HoldsGuard
  | HoldsCommitted (completed : bool).

Record Store := { s_tasks : gmap nat RequestTask; s_queue : list QueuedJob; s_hand : list QueuedJob; s_collecting : bool; s_next : nat }.
Definition opened_store : Store := {| s_tasks := ∅; s_queue := []; s_hand := []; s_collecting := false; s_next := 0 |}.

Definition with_tasks (st : Store) (tasks : gmap nat RequestTask) : Store :=
  {| s_tasks := tasks; s_queue := s_queue st; s_hand := s_hand st; s_collecting := s_collecting st; s_next := s_next st |}.
Definition with_queue (st : Store) (queue : list QueuedJob) : Store :=
  {| s_tasks := s_tasks st; s_queue := queue; s_hand := s_hand st; s_collecting := s_collecting st; s_next := s_next st |}.

Definition accounted_slots (l : list QueuedJob) : list nat := omap slot_of l.
(** The exchanges whose permit is taken. *)
Definition held_permits (st : Store) : gset nat :=
  dom (s_tasks st) ∪ list_to_set (accounted_slots (s_queue st)) ∪ list_to_set (accounted_slots (s_hand st)).

(** ** The operations *)

Definition try_send (capacity : nat) (j : QueuedJob) (st : Store) : Store * bool :=
  if (length (s_queue st) <? capacity)%nat then (with_queue st (s_queue st ++ [j]), true) else (st, false).

(** [Drop for ReservedBeforeDispatch]: the answer of [try_send] is ignored. *)
Definition drop_guard (capacity i : nat) (st : Store) : Store :=
  with_tasks (fst (try_send capacity (QRescind i) st)) (delete i (s_tasks st)).

Inductive SendAnswer := Sent | QueueFull | NotCalled.

Section operations.
Context (max_reservations capacity : nat).

(** [reserve]: the permit, the guard, [submit]. *)
Definition q_reserve (st : Store) : Store * SendAnswer :=
  if (max_reservations <=? size (held_permits st))%nat then (st, QueueFull)
  else
    let i := s_next st in
    let st := {| s_tasks := <[i := Awaiting AwaitReserve None]> (s_tasks st); s_queue := s_queue st; s_hand := s_hand st; s_collecting := s_collecting st; s_next := S i |} in
    match try_send capacity (QAwaited AwaitReserve i) st with
    | (st, true) => (st, Sent)
    | (st, false) => (drop_guard capacity i st, QueueFull)
    end.

(** [commit_to_dispatch]: it has the guard by value. *)
Definition q_commit (i : nat) (st : Store) : Store * SendAnswer :=
  match s_tasks st !! i with
  | Some HoldsGuard =>
      match try_send capacity (QAwaited AwaitCommit i) st with
      | (st, true) => (with_tasks st (<[i := Awaiting AwaitCommit None]> (s_tasks st)), Sent)
      | (st, false) => (drop_guard capacity i st, QueueFull)
      end
  | _ => (st, NotCalled)
  end.

(** [complete], past [take_completion]. *)
Definition q_complete (i : nat) (st : Store) : Store * SendAnswer :=
  match s_tasks st !! i with
  | Some (HoldsCommitted false) =>
      match try_send capacity (QAwaited AwaitComplete i) st with
      | (st, true) => (with_tasks st (<[i := Awaiting AwaitComplete None]> (s_tasks st)), Sent)
      | (st, false) => (with_tasks st (<[i := HoldsCommitted true]> (s_tasks st)), QueueFull)
      end
  | _ => (st, NotCalled)
  end.

(** [retain]: only its job holds the permit. *)
Definition q_retain (st : Store) : Store * SendAnswer :=
  if (max_reservations <=? size (held_permits st))%nat then (st, QueueFull)
  else
    let i := s_next st in
    let st := {| s_tasks := s_tasks st; s_queue := s_queue st; s_hand := s_hand st; s_collecting := s_collecting st; s_next := S i |} in
    match try_send capacity (QAwaited AwaitRetain i) st with
    | (st, true) => (st, Sent)
    | (st, false) => (st, QueueFull)
    end.

(** [write_loop]: [recv] of the first job of a batch, and each [try_recv] of the next ones. *)
Definition q_recv (st : Store) : Store :=
  match s_hand st, s_queue st with
  | [], j :: queue => {| s_tasks := s_tasks st; s_queue := queue; s_hand := [j]; s_collecting := true; s_next := s_next st |}
  | _, _ => st
  end.
Definition q_try_recv (st : Store) : Store :=
  if negb (s_collecting st) then st
  else
    let started := {| s_tasks := s_tasks st; s_queue := s_queue st; s_hand := s_hand st; s_collecting := false; s_next := s_next st |} in
    if (length (s_hand st) <? MAX_WRITE_BATCH)%nat
    then match s_queue st with
         | j :: queue => {| s_tasks := s_tasks st; s_queue := queue; s_hand := s_hand st ++ [j]; s_collecting := true; s_next := s_next st |}
         | [] => started
         end
    else started.

(** The last loop of [run_batch], for one job: its permit is dropped, its acknowledgement sent. *)
Definition q_settle (ok : bool) (st : Store) : Store :=
  match s_collecting st, s_hand st with
  | true, _ | _, [] => st
  | false, j :: hand =>
      let tasks :=
        match j with
        | QAwaited call i =>
            match s_tasks st !! i with Some (Awaiting call' None) => if decide (call' = call) then <[i := Awaiting call (Some ok)]> (s_tasks st) else s_tasks st | _ => s_tasks st end
        | QRescind _ => s_tasks st
        end in
      {| s_tasks := tasks; s_queue := s_queue st; s_hand := hand; s_collecting := false; s_next := s_next st |}
  end.

(** A request goes on after its acknowledgement; a commit's guard is dropped as the call returns. *)
Definition q_wake (i : nat) (st : Store) : Store :=
  match s_tasks st !! i with
  | Some (Awaiting AwaitReserve (Some true)) => with_tasks st (<[i := HoldsGuard]> (s_tasks st))
  | Some (Awaiting AwaitReserve (Some false)) | Some (Awaiting AwaitCommit (Some false)) => drop_guard capacity i st
  | Some (Awaiting AwaitCommit (Some true)) =>
      with_tasks (fst (try_send capacity (QRescind i) st)) (<[i := HoldsCommitted false]> (s_tasks st))
  | Some (Awaiting AwaitComplete (Some _)) => with_tasks st (<[i := HoldsCommitted true]> (s_tasks st))
  | _ => st
  end.

(** The request's future is dropped, or the value it holds. *)
Definition q_abandon (i : nat) (st : Store) : Store :=
  match s_tasks st !! i with
  | Some HoldsGuard | Some (Awaiting AwaitReserve _) | Some (Awaiting AwaitCommit _) => drop_guard capacity i st
  | Some (HoldsCommitted _) | Some (Awaiting AwaitComplete _) => with_tasks st (delete i (s_tasks st))
  | _ => st
  end.

Inductive QEvent :=
  | EReserve | ECommit (i : nat) | EComplete (i : nat) | ERetain
  | ERecv | ETryRecv | ESettle (ok : bool) | EWake (i : nat) | EAbandon (i : nat).
Definition q_step (e : QEvent) (st : Store) : Store :=
  match e with
  | EReserve => fst (q_reserve st)
  | ECommit i => fst (q_commit i st)
  | EComplete i => fst (q_complete i st)
  | ERetain => fst (q_retain st)
  | ERecv => q_recv st
  | ETryRecv => q_try_recv st
  | ESettle ok => q_settle ok st
  | EWake i => q_wake i st
  | EAbandon i => q_abandon i st
  end.
Definition q_run (events : list QEvent) : Store := foldl (λ st e, q_step e st) opened_store events.
End operations.

(** ** The census

    A permit that is free again may have left a rescission in the channel, but its next holder's
    first job is behind it, and is not settled before it: in every suffix of the channel, the
    rescissions of exchanges that hold no permit, and the permits whose first job is not in the
    suffix, are no more than the ceiling. *)

Definition rescinded (q : list QueuedJob) : gset nat := list_to_set (omap rescinds q).
Definition reserving (q : list QueuedJob) : gset nat := list_to_set (omap reserves q).
Definition crowd (k : nat) (held : gset nat) (q : list QueuedJob) : Prop :=
  ∀ q1 q2, q = q1 ++ q2 → (size (rescinded q2 ∖ held) + size (held ∖ reserving q2) ≤ k)%nat.

Lemma rescinded_app q q' : rescinded (q ++ q') = rescinded q ∪ rescinded q'.
Proof. unfold rescinded. by rewrite omap_app, list_to_set_app_L. Qed.
Lemma reserving_app q q' : reserving (q ++ q') = reserving q ∪ reserving q'.
Proof. unfold reserving. by rewrite omap_app, list_to_set_app_L. Qed.

Lemma snoc_split {A} (l : list A) x l1 l2 : l ++ [x] = l1 ++ l2 → l2 = [] ∨ ∃ l2', l2 = l2' ++ [x] ∧ l = l1 ++ l2'.
Proof.
  destruct l2 as [|y l2 _] using rev_ind; [by left|]. intros E. rewrite app_assoc in E. apply app_inj_tail in E as [-> ->].
  right. by exists l2.
Qed.

(** The moves of the permits and the channel. *)
Lemma crowd_acquire k held q i call : crowd k held q → (size held < k)%nat → reserves (QAwaited call i) = Some i →
  crowd k ({[i]} ∪ held) (q ++ [QAwaited call i]).
Proof.
  intros Hc Hk Hr q1 q2 [->|(q2' & -> & ->)]%snoc_split.
  - assert (size ({[i]} ∪ held : gset nat) ≤ size ({[i]} : gset nat) + size held)%nat by (rewrite size_union_alt; assert (size (held ∖ {[i]} : gset nat) ≤ size held)%nat by (apply subseteq_size; set_solver); lia).
    rewrite size_singleton in *. replace (rescinded [] ∖ ({[i]} ∪ held)) with (∅ : gset nat) by set_solver.
    assert (size (({[i]} ∪ held) ∖ reserving []) ≤ size ({[i]} ∪ held : gset nat))%nat by (apply subseteq_size; set_solver).
    rewrite size_empty. lia.
  - specialize (Hc q1 q2' eq_refl). rewrite rescinded_app, reserving_app.
    assert (reserving [QAwaited call i] = {[i]}) as E by (unfold reserving; cbn [omap list_omap]; rewrite Hr; cbn; set_solver).
    rewrite E. assert (rescinded [QAwaited call i] = ∅) as -> by done.
    assert (size ((rescinded q2' ∪ ∅) ∖ ({[i]} ∪ held)) ≤ size (rescinded q2' ∖ held))%nat by (apply subseteq_size; set_solver).
    assert (size (({[i]} ∪ held) ∖ (reserving q2' ∪ {[i]})) ≤ size (held ∖ reserving q2'))%nat by (apply subseteq_size; set_solver).
    lia.
Qed.

Lemma crowd_nil k held : (size held ≤ k)%nat → (size (rescinded (@nil QueuedJob) ∖ held) + size (held ∖ reserving []) ≤ k)%nat.
Proof.
  intros Hk. replace (rescinded [] ∖ held) with (∅ : gset nat) by set_solver. rewrite size_empty.
  assert (size (held ∖ reserving []) ≤ size held)%nat by (apply subseteq_size; set_solver). lia.
Qed.

Lemma crowd_send k held q j : crowd k held q → (size held ≤ k)%nat → reserves j = None → (∀ i, rescinds j = Some i → i ∈ held) →
  crowd k held (q ++ [j]).
Proof.
  intros Hc Hk Hr Hi q1 q2 [->|(q2' & -> & ->)]%snoc_split; [by apply crowd_nil|].
  specialize (Hc q1 q2' eq_refl). rewrite rescinded_app, reserving_app.
  assert (reserving [j] = ∅) as -> by (unfold reserving; cbn [omap list_omap]; by rewrite Hr).
  assert (rescinded [j] ⊆ held) as Hs.
  { unfold rescinded. cbn [omap list_omap]. destruct (rescinds j) as [i|]; [|set_solver]. specialize (Hi i eq_refl). set_solver. }
  replace ((rescinded q2' ∪ rescinded [j]) ∖ held) with (rescinded q2' ∖ held) by set_solver.
  by replace (held ∖ (reserving q2' ∪ ∅)) with (held ∖ reserving q2') by set_solver.
Qed.

Lemma crowd_suffix k held q q' : crowd k held (q ++ q') → crowd k held q'.
Proof. intros Hc q1 q2 ->. apply (Hc (q ++ q1)). by rewrite app_assoc. Qed.

(** Counting for one permit returned. *)
Lemma returned_size (held a b : gset nat) i k : (size (a ∖ held) + size (held ∖ b) ≤ k)%nat → i ∈ held → i ∉ b →
  (size (({[i]} ∪ a) ∖ (held ∖ {[i]})) + size ((held ∖ {[i]}) ∖ b) ≤ k)%nat.
Proof.
  intros Hk Hi Hb. assert (size (({[i]} ∪ a) ∖ (held ∖ {[i]})) ≤ S (size (a ∖ held)))%nat as H1.
  { transitivity (size ({[i]} ∪ (a ∖ held))); [apply subseteq_size; intros x; destruct (decide (x = i)); set_solver|].
    rewrite size_union_alt, size_singleton. assert (size (a ∖ held ∖ {[i]}) ≤ size (a ∖ held))%nat by (apply subseteq_size; set_solver). lia. }
  assert (size (held ∖ b) = S (size ((held ∖ {[i]}) ∖ b))) as H2.
  { replace (held ∖ b) with ({[i]} ∪ ((held ∖ {[i]}) ∖ b)).
    - rewrite size_union by set_solver. by rewrite size_singleton.
    - apply set_eq. intros x. destruct (decide (x = i)); set_solver. }
  lia.
Qed.

Lemma crowd_return k held q i sent : crowd k held q → (size held ≤ k)%nat → i ∈ held → i ∉ reserving q →
  crowd k (held ∖ {[i]}) (q ++ if sent : bool then [QRescind i] else []).
Proof.
  intros Hc Hk Hi Hr. assert (size (held ∖ {[i]}) ≤ k)%nat.
  { transitivity (size held); [apply subseteq_size; set_solver|done]. }
  assert (∀ q1 q2, q = q1 ++ q2 → (size (({[i]} ∪ rescinded q2) ∖ (held ∖ {[i]})) + size ((held ∖ {[i]}) ∖ reserving q2) ≤ k)%nat) as Hall.
  { intros q1 q2 ->. apply returned_size; [by apply (Hc q1)|done|]. rewrite reserving_app in Hr. set_solver. }
  destruct sent; intros q1 q2 E.
  - apply snoc_split in E as [->|(q2' & -> & ->)]; [by apply crowd_nil|]. rewrite rescinded_app, reserving_app.
    specialize (Hall q1 q2' eq_refl). assert (reserving [QRescind i] = ∅) as -> by done.
    assert (rescinded [QRescind i] = {[i]}) as -> by (unfold rescinded; cbn; set_solver).
    rewrite (union_comm_L (rescinded q2')), union_empty_r_L. done.
  - rewrite app_nil_r in E. specialize (Hall q1 q2 E).
    assert (size (rescinded q2 ∖ (held ∖ {[i]})) ≤ size (({[i]} ∪ rescinded q2) ∖ (held ∖ {[i]})))%nat by (apply subseteq_size; set_solver). lia.
Qed.

(** ** The invariant *)

Definition guarded (t : RequestTask) : bool :=
  match t with HoldsGuard | Awaiting AwaitReserve _ | Awaiting AwaitCommit _ => true | _ => false end.
Definition awaiting_writer (t : RequestTask) : bool := match t with Awaiting _ None => true | _ => false end.
Definition job_slots (st : Store) : list nat := accounted_slots (s_queue st) ++ accounted_slots (s_hand st).

Record census (k : nat) (st : Store) : Prop := {
  c_fresh : ∀ i, i ∈ held_permits st ∪ rescinded (s_queue st) → (i < s_next st)%nat;
  c_slots : NoDup (job_slots st);
  c_idle : ∀ i t, s_tasks st !! i = Some t → awaiting_writer t = false → i ∉ job_slots st;
  c_rescinds : NoDup (omap rescinds (s_queue st));
  c_guard : ∀ i t, s_tasks st !! i = Some t → guarded t = true → i ∉ rescinded (s_queue st);
  c_held : (size (held_permits st) ≤ k)%nat;
  c_crowd : crowd k (held_permits st) (s_queue st);
}.

Lemma held_slots st i : i ∈ held_permits st ↔ is_Some (s_tasks st !! i) ∨ i ∈ job_slots st.
Proof. unfold held_permits, job_slots. rewrite !elem_of_union, !elem_of_list_to_set, elem_of_app, elem_of_dom. tauto. Qed.
Lemma reserving_slots q i : i ∈ reserving q → i ∈ accounted_slots q.
Proof.
  unfold reserving, accounted_slots. rewrite elem_of_list_to_set, !list_elem_of_omap. intros (j & Hj & E). exists j. split; [done|].
  destruct j as [[]|]; cbn in *; congruence.
Qed.

Lemma slots_app q q' : accounted_slots (q ++ q') = accounted_slots q ++ accounted_slots q'.
Proof. apply omap_app. Qed.
Lemma slots_snoc q j : accounted_slots (q ++ [j]) = accounted_slots q ++ match slot_of j with Some i => [i] | None => [] end.
Proof. unfold accounted_slots. rewrite omap_app. cbn. by destruct (slot_of j). Qed.

(** A request ends; a guard it drops may send its rescission. *)
Definition rescission (sent : bool) (i : nat) : list QueuedJob := if sent then [QRescind i] else [].
Lemma rescission_slots sent i : accounted_slots (rescission sent i) = [].
Proof. by destruct sent. Qed.
Lemma rescission_rescinded sent i q j : j ∈ rescinded (q ++ rescission sent i) → j = i ∨ j ∈ rescinded q.
Proof. rewrite rescinded_app. destruct sent; unfold rescinded; cbn; set_solver. Qed.
Lemma rescission_nodup sent i q : NoDup (omap rescinds q) → (sent = true → i ∉ rescinded q) → NoDup (omap rescinds (q ++ rescission sent i)).
Proof.
  intros Hq Hi. rewrite omap_app. destruct sent; [|by rewrite app_nil_r]. cbn. apply NoDup_app. split; [done|].
  split; [|apply NoDup_singleton]. intros j Hj ->%list_elem_of_singleton. apply Hi; [done|]. unfold rescinded. by apply elem_of_list_to_set.
Qed.

Definition leave (i : nat) (sent : bool) (st : Store) : Store :=
  {| s_tasks := delete i (s_tasks st); s_queue := s_queue st ++ rescission sent i; s_hand := s_hand st; s_collecting := s_collecting st; s_next := s_next st |}.

Lemma census_leave k i t st sent : census k st → s_tasks st !! i = Some t → (sent = true → guarded t = true) → census k (leave i sent st).
Proof.
  intros Hc Ht Hg. set (st' := leave i sent st).
  assert (s_tasks st' = delete i (s_tasks st)) as Htasks by done. assert (s_queue st' = s_queue st ++ rescission sent i) as Hqueue by done.
  assert (s_hand st' = s_hand st) as Hhand by done. assert (s_next st' = s_next st) as Hnext by done. clearbody st'.
  assert (job_slots st' = job_slots st) as Hjs by (unfold job_slots; by rewrite Hqueue, Hhand, slots_app, rescission_slots, app_nil_r).
  assert (held_permits st' ⊆ held_permits st) as Hsub.
  { intros j. rewrite !held_slots, Hjs, Htasks, lookup_delete_is_Some. tauto. }
  assert (sent = true → i ∉ rescinded (s_queue st)) as Hnew by (intros Hs; apply (c_guard _ _ Hc _ _ Ht); auto).
  split.
  - intros j Hj. rewrite Hnext. apply (c_fresh _ _ Hc). rewrite Hqueue in Hj.
    apply elem_of_union in Hj as [Hj|[->|Hj]%rescission_rescinded]; [set_solver| |set_solver]. apply elem_of_union_l, held_slots. eauto.
  - rewrite Hjs. apply Hc.
  - intros j t'. rewrite Htasks, lookup_delete_Some, Hjs. intros [_ Hj]. by apply (c_idle _ _ Hc).
  - rewrite Hqueue. apply rescission_nodup; [apply Hc|done].
  - intros j t'. rewrite Htasks, Hqueue, lookup_delete_Some. intros [Hne Hj] Hg' [->|Hin]%rescission_rescinded; [done|].
    by apply (c_guard _ _ Hc j t').
  - transitivity (size (held_permits st)); [by apply subseteq_size|apply Hc].
  - rewrite Hqueue. destruct (decide (i ∈ job_slots st)) as [Hin|Hout].
    + assert (held_permits st' = held_permits st) as ->.
      { apply set_eq. intros j. rewrite !held_slots, Hjs, Htasks, lookup_delete_is_Some.
        destruct (decide (j = i)) as [->|]; [tauto|]. split; [tauto|]. intros [?|?]; auto. }
      destruct sent; cbn [rescission]; [|rewrite app_nil_r; apply Hc].
      apply crowd_send; [apply Hc..|done|]. intros j [= <-]. apply held_slots. by right.
    + assert (held_permits st' = held_permits st ∖ {[i]}) as ->.
      { apply set_eq. intros j. rewrite elem_of_difference, !held_slots, Hjs, elem_of_singleton, Htasks, lookup_delete_is_Some.
        destruct (decide (j = i)) as [->|]; [tauto|]. split; [tauto|]. intros [[?|?] _]; auto. }
      apply crowd_return; [apply Hc..| |].
      * apply held_slots. eauto.
      * intros Hr%reserving_slots. apply Hout. unfold job_slots. apply elem_of_app. by left.
Qed.

(** A request goes on, and may send the rescission of its guard. *)
Definition go_on (i : nat) (t' : RequestTask) (sent : bool) (st : Store) : Store :=
  {| s_tasks := <[i := t']> (s_tasks st); s_queue := s_queue st ++ rescission sent i; s_hand := s_hand st; s_collecting := s_collecting st; s_next := s_next st |}.

Lemma census_go_on k i t t' st sent : census k st → s_tasks st !! i = Some t →
  (guarded t' = true → guarded t = true ∧ sent = false) → (sent = true → guarded t = true) → i ∉ job_slots st → census k (go_on i t' sent st).
Proof.
  intros Hc Ht Hg Hsent Hi. set (st' := go_on i t' sent st).
  assert (s_tasks st' = <[i := t']> (s_tasks st)) as Htasks by done. assert (s_queue st' = s_queue st ++ rescission sent i) as Hqueue by done.
  assert (s_hand st' = s_hand st) as Hhand by done. assert (s_next st' = s_next st) as Hnext by done. clearbody st'.
  assert (job_slots st' = job_slots st) as Hjs by (unfold job_slots; by rewrite Hqueue, Hhand, slots_app, rescission_slots, app_nil_r).
  assert (held_permits st' = held_permits st) as Hh.
  { apply set_eq. intros j. rewrite !held_slots, Hjs, Htasks, lookup_insert_is_Some. destruct (decide (i = j)) as [<-|]; [|tauto].
    split; [intros _; left; eauto|auto]. }
  assert (sent = true → i ∉ rescinded (s_queue st)) as Hnew by (intros Hs; apply (c_guard _ _ Hc _ _ Ht); auto).
  split; rewrite ?Hh, ?Hjs; try apply Hc.
  - intros j Hj. rewrite Hnext. apply (c_fresh _ _ Hc). rewrite Hqueue in Hj.
    apply elem_of_union in Hj as [Hj|[->|Hj]%rescission_rescinded]; [set_solver| |set_solver]. apply elem_of_union_l, held_slots. eauto.
  - intros j t2. rewrite Htasks, lookup_insert_Some. intros [[<- <-]|[_ Hj]]; [done|by apply (c_idle _ _ Hc)].
  - rewrite Hqueue. apply rescission_nodup; [apply Hc|done].
  - intros j t2. rewrite Htasks, Hqueue, lookup_insert_Some. intros [[<- <-]|[Hne Hj]] Hg'.
    + destruct (Hg Hg') as [? ->]. cbn. rewrite app_nil_r. by apply (c_guard _ _ Hc i t).
    + intros [->|Hin]%rescission_rescinded; [done|]. by apply (c_guard _ _ Hc j t2).
  - rewrite Hqueue. destruct sent; cbn [rescission]; [|rewrite app_nil_r; apply Hc].
    apply crowd_send; [apply Hc..|done|]. intros j [= <-]. apply held_slots. left. eauto.
Qed.

(** A request sends its next awaited job. *)
Definition send_job (i : nat) (call : Awaited) (st : Store) : Store :=
  {| s_tasks := <[i := Awaiting call None]> (s_tasks st); s_queue := s_queue st ++ [QAwaited call i]; s_hand := s_hand st; s_collecting := s_collecting st; s_next := s_next st |}.

Lemma census_send k i t call st : census k st → s_tasks st !! i = Some t → awaiting_writer t = false → reserves (QAwaited call i) = None →
  (guarded (Awaiting call None) = true → guarded t = true) → census k (send_job i call st).
Proof.
  intros Hc Ht Hidle Hr Hg. pose proof (c_idle _ _ Hc _ _ Ht Hidle) as Hi. set (st' := send_job i call st).
  assert (s_tasks st' = <[i := Awaiting call None]> (s_tasks st)) as Htasks by done.
  assert (s_queue st' = s_queue st ++ [QAwaited call i]) as Hqueue by done.
  assert (s_hand st' = s_hand st) as Hhand by done. assert (s_next st' = s_next st) as Hnext by done. clearbody st'.
  assert (job_slots st' ≡ₚ i :: job_slots st) as Hjs.
  { unfold job_slots. rewrite Hqueue, Hhand, slots_snoc. cbn. rewrite <-app_assoc. cbn. symmetry. apply Permutation_middle. }
  assert (held_permits st' = held_permits st) as Hh.
  { apply set_eq. intros j. rewrite !held_slots, Hjs, Htasks, lookup_insert_is_Some, elem_of_cons.
    destruct (decide (i = j)) as [<-|]; [split; [intros _; left; eauto|auto]|]. split; [intros [[?|[]]|[?|?]]; subst; tauto|tauto]. }
  assert (rescinded (s_queue st') = rescinded (s_queue st)) as Hre by (rewrite Hqueue, rescinded_app; unfold rescinded; cbn; set_solver).
  split; rewrite ?Hh, ?Hre; try apply Hc.
  - rewrite Hnext. apply Hc.
  - rewrite Hjs. constructor; [done|apply Hc].
  - intros j t2. rewrite Htasks, lookup_insert_Some, Hjs. intros [[<- <-]|[Hne Hj]]; [done|]. intros Hf.
    apply not_elem_of_cons. split; [done|]. by apply (c_idle _ _ Hc j t2).
  - rewrite Hqueue, omap_app. cbn. rewrite app_nil_r. apply Hc.
  - intros j t2. rewrite Htasks, lookup_insert_Some. intros [[<- <-]|[Hne Hj]] Hg'; [by apply (c_guard _ _ Hc i t); auto|by apply (c_guard _ _ Hc j t2)].
  - rewrite Hqueue. apply crowd_send; [apply Hc..|done|done].
Qed.

(** A permit is taken for a new exchange, which a request may go on with. *)
Definition admit_job (call : Awaited) (tasked : bool) (st : Store) : Store :=
  {| s_tasks := if tasked then <[s_next st := Awaiting call None]> (s_tasks st) else s_tasks st;
     s_queue := s_queue st ++ [QAwaited call (s_next st)]; s_hand := s_hand st; s_collecting := s_collecting st; s_next := S (s_next st) |}.

Lemma census_admit k call tasked st : census k st → (size (held_permits st) < k)%nat → reserves (QAwaited call (s_next st)) = Some (s_next st) →
  census k (admit_job call tasked st).
Proof.
  intros Hc Hk Hr. set (i := s_next st) in *.
  assert (i ∉ held_permits st ∪ rescinded (s_queue st)) as Hnew by (intros Hi; apply (c_fresh _ _ Hc) in Hi; unfold i in Hi; lia).
  rewrite not_elem_of_union, held_slots in Hnew. destruct Hnew as [Hnh Hnr].
  set (st' := admit_job call tasked st).
  assert (s_tasks st' = if tasked then <[i := Awaiting call None]> (s_tasks st) else s_tasks st) as Htasks by done.
  assert (s_queue st' = s_queue st ++ [QAwaited call i]) as Hqueue by done.
  assert (s_hand st' = s_hand st) as Hhand by done. assert (s_next st' = S i) as Hnext by done. clearbody st'.
  assert (job_slots st' ≡ₚ i :: job_slots st) as Hjs.
  { unfold job_slots. rewrite Hqueue, Hhand, slots_snoc. cbn. rewrite <-app_assoc. cbn. symmetry. apply Permutation_middle. }
  assert (∀ j t, s_tasks st' !! j = Some t → (j = i ∧ t = Awaiting call None) ∨ (j ≠ i ∧ s_tasks st !! j = Some t)) as Hl.
  { intros j t. rewrite Htasks. destruct (decide (j = i)) as [->|Hne].
    - destruct tasked; [rewrite lookup_insert_eq; intros [= <-]; auto|]. intros E. destruct Hnh. left. eauto.
    - destruct tasked; [rewrite lookup_insert_ne by done|]; auto. }
  assert (held_permits st' = {[i]} ∪ held_permits st) as Hh.
  { apply set_eq. intros j. rewrite elem_of_union, elem_of_singleton, !held_slots, Hjs, elem_of_cons, Htasks.
    destruct tasked; [|tauto]. rewrite lookup_insert_is_Some. split; [intros [[?|[]]|[]]; subst; tauto|].
    destruct (decide (i = j)); intros [?|[]]; subst; tauto. }
  assert (rescinded (s_queue st') = rescinded (s_queue st)) as Hre by (rewrite Hqueue, rescinded_app; unfold rescinded; cbn; set_solver).
  split; rewrite ?Hh, ?Hre.
  - intros j Hj. rewrite Hnext. assert (j = i ∨ (j < i)%nat) as [->|]; [|lia|lia].
    rewrite <-union_assoc_L, elem_of_union, elem_of_singleton in Hj. destruct Hj as [|Hj]; [auto|]. apply (c_fresh _ _ Hc) in Hj. auto.
  - rewrite Hjs. constructor; [tauto|apply Hc].
  - intros j t [[-> ->]|[Hne Hj]]%Hl Hf; [done|]. rewrite Hjs. apply not_elem_of_cons. split; [done|]. by apply (c_idle _ _ Hc j t).
  - rewrite Hqueue, omap_app. cbn. rewrite app_nil_r. apply Hc.
  - intros j t [[-> ->]|[Hne Hj]]%Hl Hg; [done|]. by apply (c_guard _ _ Hc j t).
  - transitivity (size ({[i]} : gset nat) + size (held_permits st))%nat; [|rewrite size_singleton; lia].
    rewrite size_union_alt. apply Nat.add_le_mono_l, subseteq_size. set_solver.
  - rewrite Hqueue. apply crowd_acquire; [apply Hc|done|done].
Qed.

(** The writer takes the first job of the channel. *)
Lemma census_take k st st' j queue : census k st → s_queue st = j :: queue → s_queue st' = queue → s_hand st' = s_hand st ++ [j] →
  s_tasks st' = s_tasks st → s_next st' = s_next st → census k st'.
Proof.
  intros Hc Eq Hqueue Hhand Htasks Hnext. change (j :: queue) with ([j] ++ queue) in Eq.
  assert (job_slots st' ≡ₚ job_slots st) as Hjs.
  { unfold job_slots. rewrite Eq, Hqueue, Hhand, !slots_app, !app_assoc. rewrite Permutation_app_comm. by rewrite app_assoc. }
  assert (held_permits st' = held_permits st) as Hh by (apply set_eq; intros i; by rewrite !held_slots, Hjs, Htasks).
  assert (∀ i, i ∈ rescinded (s_queue st') → i ∈ rescinded (s_queue st)) as Hre by (intros i; rewrite Eq, Hqueue, rescinded_app; set_solver).
  split; rewrite ?Hh.
  - intros i Hi. rewrite Hnext. apply (c_fresh _ _ Hc). set_solver.
  - rewrite Hjs. apply Hc.
  - intros i t. rewrite Htasks, Hjs. apply Hc.
  - pose proof (c_rescinds _ _ Hc) as Hr. rewrite Eq, omap_app in Hr. rewrite Hqueue. by apply NoDup_app in Hr as (_ & _ & ?).
  - intros i t. rewrite Htasks. intros Hi Hg Hin%Hre. by eapply (c_guard _ _ Hc).
  - apply Hc.
  - pose proof (c_crowd _ _ Hc) as Hr. rewrite Eq in Hr. rewrite Hqueue. by eapply crowd_suffix.
Qed.
Lemma census_recv k st : census k st → census k (q_recv st).
Proof.
  intros Hc. unfold q_recv. destruct (s_hand st) eqn:Eh; [|done]. destruct (s_queue st) eqn:Eq; [done|].
  eapply census_take; [exact Hc|exact Eq|done| |done|done]. by rewrite Eh.
Qed.
Lemma census_try_recv k st : census k st → census k (q_try_recv st).
Proof.
  intros Hc. unfold q_try_recv. destruct (s_collecting st); [|done]. cbn [negb].
  assert (census k {| s_tasks := s_tasks st; s_queue := s_queue st; s_hand := s_hand st; s_collecting := false; s_next := s_next st |}) as Hs by (split; apply Hc).
  destruct (_ <? _)%nat; [|done]. destruct (s_queue st) eqn:Eq; [done|]. by eapply census_take.
Qed.

Lemma census_settle k ok st : census k st → census k (q_settle ok st).
Proof.
  intros Hc. unfold q_settle. destruct (s_collecting st); [done|]. destruct (s_hand st) as [|j hand] eqn:Eh; [done|]. set (st' := Build_Store _ _ _ _ _).
  assert (s_queue st' = s_queue st) as Hqueue by done. assert (s_hand st' = hand) as Hhand by done. assert (s_next st' = s_next st) as Hnext by done.
  assert (∀ i, is_Some (s_tasks st' !! i) ↔ is_Some (s_tasks st !! i)) as Hdom.
  { intros i. cbn. destruct j as [call i'|]; [|done]. destruct (s_tasks st !! i') as [[call' []| |]|] eqn:E; try done.
    destruct (decide _); [|done]. rewrite lookup_insert_is_Some. destruct (decide (i' = i)) as [<-|]; [|tauto]. rewrite E. split; eauto. }
  assert (∀ i t, s_tasks st' !! i = Some t → ∃ t0, s_tasks st !! i = Some t0 ∧ guarded t = guarded t0 ∧
    (t = t0 ∨ slot_of j = Some i)) as Hl.
  { intros i t. cbn. destruct j as [call i'|]; [|by eauto 6]. destruct (s_tasks st !! i') as [[call' []| |]|] eqn:E; try by eauto 6.
    destruct (decide _) as [->|]; [|by eauto 6]. rewrite lookup_insert_Some. intros [[<- <-]|[Hne Hi]]; [|by eauto 6].
    rewrite E. exists (Awaiting call None). split; [done|]. split; [by destruct call|]. by right. }
  clearbody st'.
  assert (job_slots st ≡ₚ match slot_of j with Some i => [i] | None => [] end ++ job_slots st') as Hjs.
  { unfold job_slots. rewrite Hqueue, Hhand, Eh. change (accounted_slots (j :: hand)) with (accounted_slots ([j] ++ hand)). rewrite slots_app.
    rewrite !app_assoc. f_equiv. rewrite Permutation_app_comm. f_equiv. unfold accounted_slots. cbn. by destruct (slot_of j). }
  pose proof (c_slots _ _ Hc) as Hnd. rewrite Hjs in Hnd.
  assert (∀ i, i ∈ job_slots st' → i ∈ job_slots st) as Hsub by (intros i Hi; rewrite Hjs; apply elem_of_app; by right).
  assert (∀ i, slot_of j = Some i → i ∉ job_slots st') as Hout by (intros i E; rewrite E in Hnd; by apply NoDup_cons in Hnd as [? _]).
  assert (held_permits st' ⊆ held_permits st) as Hheld by (intros i; rewrite !held_slots, Hdom; intros []; auto).
  split; rewrite ?Hqueue.
  - intros i Hi. rewrite Hnext. apply (c_fresh _ _ Hc). set_solver.
  - by apply NoDup_app in Hnd as (_ & _ & ?).
  - intros i t (t0 & Ht0 & _ & [->|Hs])%Hl Hf; [|by apply Hout]. intros Hi%Hsub. by eapply (c_idle _ _ Hc).
  - apply Hc.
  - intros i t (t0 & Ht0 & -> & _)%Hl. by apply (c_guard _ _ Hc).
  - transitivity (size (held_permits st)); [by apply subseteq_size|apply Hc].
  - destruct (slot_of j) as [i|] eqn:Ej.
    + destruct (decide (is_Some (s_tasks st !! i))) as [Ht|Ht].
      * assert (held_permits st' = held_permits st) as ->; [|apply Hc].
        apply set_eq. intros i'. rewrite !held_slots, Hdom, Hjs. cbn. rewrite elem_of_cons. split; [tauto|]. intros [|[->|]]; auto.
      * assert (held_permits st' = held_permits st ∖ {[i]}) as ->.
        { apply set_eq. intros i'. rewrite elem_of_difference, elem_of_singleton, !held_slots, Hdom, Hjs. cbn. rewrite elem_of_cons.
          destruct (decide (i' = i)) as [->|]; [|tauto]. split; [intros [?|?]; [done|by destruct (Hout i)]|tauto]. }
        rewrite <-(app_nil_r (s_queue st)). apply (crowd_return k _ _ i false); [apply Hc..| |].
        -- apply held_slots. right. rewrite Hjs. by left.
        -- intros Hr%reserving_slots. apply (Hout i eq_refl). unfold job_slots. rewrite Hqueue. apply elem_of_app. by left.
    + assert (held_permits st' = held_permits st) as ->; [|apply Hc].
      apply set_eq. intros i'. by rewrite !held_slots, Hdom, Hjs.
Qed.

Lemma census_drop_guard k capacity i t st : census k st → s_tasks st !! i = Some t → guarded t = true → census k (drop_guard capacity i st).
Proof.
  intros Hc Ht Hg. unfold drop_guard, try_send. destruct (_ <? _)%nat; [by apply (census_leave k i t st true)|].
  pose proof (census_leave k i t st false Hc Ht) as Hl. unfold leave in Hl. cbn in Hl. rewrite app_nil_r in Hl. by apply Hl.
Qed.

Lemma census_next k st : census k st → census k {| s_tasks := s_tasks st; s_queue := s_queue st; s_hand := s_hand st; s_collecting := s_collecting st; s_next := S (s_next st) |}.
Proof. intros Hc. split; try apply Hc. intros i Hi. cbn. apply (c_fresh _ _ Hc) in Hi. lia. Qed.

Lemma census_step k capacity e st : census k st → census k (q_step k capacity e st).
Proof.
  intros Hc. destruct e as [|i|i| | | |ok|i|i]; cbn [q_step].
  - unfold q_reserve. destruct (k <=? _)%nat eqn:Ek; [done|]. apply Nat.leb_gt in Ek.
    unfold try_send. cbn [s_queue]. destruct (_ <? _)%nat eqn:Eq.
    + exact (census_admit k AwaitReserve true st Hc Ek eq_refl).
    + unfold drop_guard, try_send. cbn [s_queue s_tasks fst]. rewrite Eq. cbn [fst]. rewrite delete_insert_id; [exact (census_next k st Hc)|].
      apply eq_None_not_Some. intros Hs. assert (s_next st < s_next st)%nat; [|lia]. apply (c_fresh _ _ Hc), elem_of_union_l, held_slots. by left.
  - unfold q_commit. destruct (s_tasks st !! i) as [[| |]|] eqn:Ei; try done. unfold try_send at 1. destruct (_ <? _)%nat.
    + exact (census_send k i HoldsGuard AwaitCommit st Hc Ei eq_refl eq_refl (λ _, eq_refl)).
    + by eapply census_drop_guard.
  - unfold q_complete. destruct (s_tasks st !! i) as [[| |[]]|] eqn:Ei; try done. unfold try_send. destruct (_ <? _)%nat.
    + by apply (census_send k i (HoldsCommitted false) AwaitComplete st).
    + pose proof (census_go_on k i _ (HoldsCommitted true) st false Hc Ei) as Hg. unfold go_on in Hg. cbn in Hg. rewrite app_nil_r in Hg.
      apply Hg; [done|done|]. by apply (c_idle _ _ Hc _ _ Ei).
  - unfold q_retain. destruct (k <=? _)%nat eqn:Ek; [done|]. apply Nat.leb_gt in Ek. unfold try_send. cbn [s_queue].
    destruct (_ <? _)%nat; [exact (census_admit k AwaitRetain false st Hc Ek eq_refl)|by apply census_next].
  - by apply census_recv.
  - by apply census_try_recv.
  - by apply census_settle.
  - unfold q_wake. destruct (s_tasks st !! i) as [[call [ok|]| |]|] eqn:Ei; try done; [|by destruct call].
    pose proof (c_idle _ _ Hc _ _ Ei eq_refl) as Hi.
    assert (∀ t', guarded t' = false ∨ guarded (Awaiting call (Some ok)) = true → census k (with_tasks st (<[i := t']> (s_tasks st)))) as Hgo.
    { intros t' Ht'. pose proof (census_go_on k i _ t' st false Hc Ei) as Hg. unfold go_on in Hg. cbn [rescission] in Hg. rewrite app_nil_r in Hg.
      apply Hg; [intros E; by destruct Ht' as [Hf|?]; [rewrite Hf in E|]|done|done]. }
    destruct call, ok; try done; try (by eapply census_drop_guard); try (apply Hgo; by auto).
    unfold try_send. destruct (_ <? _)%nat; [by apply (census_go_on k i _ (HoldsCommitted false) st true Hc Ei)|apply Hgo; by auto].
  - unfold q_abandon. destruct (s_tasks st !! i) as [[[] ack| |c]|] eqn:Ei; try done; try (by eapply census_drop_guard);
      (pose proof (census_leave k i _ st false Hc Ei) as Hl; unfold leave in Hl; cbn in Hl; rewrite app_nil_r in Hl; by apply Hl).
Qed.

Lemma census_opened k : census k opened_store.
Proof.
  assert (held_permits opened_store = ∅) as Hh by (apply set_eq; intros i; rewrite held_slots; cbn; rewrite lookup_empty, elem_of_nil; set_solver by eauto using is_Some_None).
  split; rewrite ?Hh.
  - intros i Hi. set_solver.
  - constructor.
  - intros i t Hi. cbn in Hi. by rewrite lookup_empty in Hi.
  - constructor.
  - intros i t Hi. cbn in Hi. by rewrite lookup_empty in Hi.
  - rewrite size_empty. lia.
  - intros q1 q2 E. symmetry in E. apply app_eq_nil in E as [-> ->]. apply crowd_nil. rewrite size_empty. lia.
Qed.
Lemma census_run k capacity events : census k (q_run k capacity events).
Proof.
  unfold q_run. generalize (census_opened k). generalize opened_store. induction events as [|e events IH]; intros st Hst; [done|].
  cbn. by apply IH, census_step.
Qed.

Lemma queue_length q : length q = (length (accounted_slots q) + length (omap rescinds q))%nat.
Proof. induction q as [|[] q IH]; [done|..]; unfold accounted_slots in *; cbn; lia. Qed.

Lemma census_length k st (spare : gset nat) : census k st → spare ⊆ held_permits st → spare ## list_to_set (accounted_slots (s_queue st)) →
  (length (s_queue st) + size spare ≤ 3 * k)%nat.
Proof.
  intros Hc Hsub Hdisj. rewrite queue_length.
  pose proof (c_crowd _ _ Hc [] (s_queue st) eq_refl) as Hcr. pose proof (c_held _ _ Hc) as Hk.
  assert (size (rescinded (s_queue st)) = length (omap rescinds (s_queue st))) as <- by (apply size_list_to_set, Hc).
  assert (NoDup (accounted_slots (s_queue st))) as Hnd by (pose proof (c_slots _ _ Hc) as Hs; unfold job_slots in Hs; by apply NoDup_app in Hs as (? & _ & _)).
  assert (size (list_to_set (accounted_slots (s_queue st)) ∪ spare : gset nat) ≤ size (held_permits st))%nat as Hs.
  { apply subseteq_size. intros i [Hi|Hi]%elem_of_union; [|by apply Hsub]. apply held_slots. right. unfold job_slots. apply elem_of_app. left. set_solver. }
  rewrite size_union in Hs by set_solver. rewrite size_list_to_set in Hs by done.
  assert (size (rescinded (s_queue st)) ≤ size (rescinded (s_queue st) ∖ held_permits st) + size (held_permits st))%nat.
  { transitivity (size ((rescinded (s_queue st) ∖ held_permits st) ∪ held_permits st)).
    - apply subseteq_size. intros i Hi. destruct (decide (i ∈ held_permits st)); set_solver.
    - rewrite size_union by set_solver. done. }
  lia.
Qed.

(** With three places of the channel per permit, the channel never has more jobs than that,
    and neither a commit nor a completion is refused for want of a place. *)
Lemma three_jobs_per_permit max_reservations capacity events i :
  (3 * max_reservations ≤ capacity)%nat →
  let st := q_run max_reservations capacity events in
  (length (s_queue st) ≤ 3 * max_reservations)%nat ∧
  snd (q_commit capacity i st) ≠ QueueFull ∧ snd (q_complete capacity i st) ≠ QueueFull.
Proof.
  intros Hcap st. pose proof (census_run max_reservations capacity events : census max_reservations st) as Hc.
  assert (∀ t, s_tasks st !! i = Some t → awaiting_writer t = false → (length (s_queue st) <? capacity)%nat = true) as Hroom.
  { intros t Ht Hf. apply Nat.ltb_lt. pose proof (census_length _ _ {[i]} Hc) as Hl. rewrite size_singleton in Hl.
    pose proof (c_idle _ _ Hc _ _ Ht Hf) as Hi. unfold job_slots in Hi. rewrite not_elem_of_app in Hi.
    enough (length (s_queue st) + 1 ≤ 3 * max_reservations)%nat by lia. apply Hl.
    - intros j ->%elem_of_singleton. apply held_slots. left. eauto.
    - set_solver. }
  split; [|split].
  - pose proof (census_length _ _ ∅ Hc) as Hl. rewrite size_empty in Hl. enough (length (s_queue st) + 0 ≤ 3 * max_reservations)%nat by lia.
    apply Hl; set_solver.
  - unfold q_commit, try_send. destruct (s_tasks st !! i) as [[| |]|] eqn:Ei; try done. by rewrite (Hroom _ eq_refl).
  - unfold q_complete, try_send. destruct (s_tasks st !! i) as [[| |[]]|] eqn:Ei; try done. by rewrite (Hroom _ eq_refl).
Qed.

(** ** Two places per permit

    All but one of the reservations are dropped while the writer has the commit of the last in hand,
    as many requests reserve anew, one of those is dropped too, and the commit is acknowledged. *)

Definition shortage (k : nat) : list QEvent :=
  concat (map (λ i, [EReserve; ERecv; ETryRecv; ESettle true; EWake i]) (seq 0 k)) ++
  [ECommit 0; ERecv; ETryRecv] ++ map EAbandon (seq 1 (k - 1)) ++ replicate (k - 1) EReserve ++
  [EAbandon k; ESettle true; EWake 0].

Section shortage.
Context (k : nat).
Local Notation capacity := (write_queue_capacity k).
Definition store_after (events : list QEvent) (st : Store) : Store := foldl (λ st e, q_step k capacity e st) st events.
Lemma after_app e1 e2 st : store_after (e1 ++ e2) st = store_after e2 (store_after e1 st).
Proof. apply foldl_app. Qed.

Definition at_state (st : Store) (tasks : nat → option RequestTask) (queue hand : list QueuedJob) (next : nat) : Prop :=
  (∀ i, s_tasks st !! i = tasks i) ∧ s_queue st = queue ∧ s_hand st = hand ∧ s_next st = next ∧ s_collecting st = false.

Lemma held_at st tasks queue hand next (bound : gset nat) : at_state st tasks queue hand next →
  (∀ i, is_Some (tasks i) → i ∈ bound) → (∀ i, i ∈ accounted_slots queue → i ∈ bound) → (∀ i, i ∈ accounted_slots hand → i ∈ bound) →
  (size (held_permits st) ≤ size bound)%nat.
Proof.
  intros (Ht & <- & <- & _) H1 H2 H3. apply subseteq_size. intros i. rewrite held_slots. unfold job_slots. rewrite elem_of_app, Ht. naive_solver.
Qed.

Definition upd (f : nat → option RequestTask) (i : nat) (t : option RequestTask) (j : nat) : option RequestTask := if decide (j = i) then t else f j.

Lemma at_reserve st tasks queue hand next : at_state st tasks queue hand next → (size (held_permits st) < k)%nat → (length queue < capacity)%nat →
  at_state (q_step k capacity EReserve st) (upd tasks next (Some (Awaiting AwaitReserve None))) (queue ++ [QAwaited AwaitReserve next]) hand (S next).
Proof.
  intros (Ht & Hq & Hh & Hn & Hcol) Hk Hl. cbn [q_step]. unfold q_reserve, try_send. cbn [s_queue]. rewrite Hq, Hn.
  apply Nat.leb_gt in Hk. apply Nat.ltb_lt in Hl. rewrite Hk, Hl. split; [cbn|split; [cbn; by rewrite ?Hq|by split_and!]].
  intros i. unfold upd. destruct (decide (i = next)) as [->|]; [apply lookup_insert_eq|]. rewrite lookup_insert_ne by done. apply Ht.
Qed.
Lemma at_abandon_guard st tasks queue hand next i t : at_state st tasks queue hand next → tasks i = Some t → guarded t = true →
  (length queue < capacity)%nat → at_state (q_step k capacity (EAbandon i) st) (upd tasks i None) (queue ++ [QRescind i]) hand next.
Proof.
  intros (Ht & Hq & Hh & Hn & Hcol) Hi Hg Hl. cbn [q_step]. unfold q_abandon. rewrite Ht, Hi.
  assert (at_state (drop_guard capacity i st) (upd tasks i None) (queue ++ [QRescind i]) hand next) as Hd.
  { unfold drop_guard, try_send. rewrite Hq. apply Nat.ltb_lt in Hl. rewrite Hl. split; [cbn|split; [cbn; by rewrite ?Hq|by split_and!]].
    intros j. unfold upd. destruct (decide (j = i)) as [->|]; [apply lookup_delete_eq|]. rewrite lookup_delete_ne by done. apply Ht. }
  destruct t as [[] ack| |c]; done.
Qed.

Definition guards (n : nat) (i : nat) : option RequestTask := if decide (i < n)%nat then Some HoldsGuard else None.

Lemma shortage_reserved n : (n ≤ k)%nat → (1 ≤ k)%nat →
  at_state (store_after (concat (map (λ i, [EReserve; ERecv; ETryRecv; ESettle true; EWake i]) (seq 0 n))) opened_store) (guards n) [] [] n.
Proof.
  intros Hn Hk. induction n as [|n IH].
  - split_and!; [|done..]. intros i. cbn. unfold guards. by rewrite decide_False by lia.
  - specialize (IH ltac:(lia)). rewrite seq_S, map_app, concat_app, after_app. cbn [map concat app plus]. set (st := store_after _ opened_store) in *. clearbody st.
    pose proof (at_reserve _ _ _ _ _ IH) as (Ht & Hq & Hh & Hx & Hcol).
    { pose proof (held_at _ _ _ _ _ (set_seq 0 n) IH) as Hs. rewrite size_set_seq in Hs. enough (size (held_permits st) ≤ n)%nat by lia.
      apply Hs; [|set_solver..]. intros i. unfold guards. destruct (decide _); [|by intros []]. rewrite elem_of_set_seq. lia. }
    { cbn. unfold write_queue_capacity. lia. }
    cbn [app] in Hq. unfold store_after. cbn [foldl]. set (st1 := q_step k capacity EReserve st) in *. clearbody st1.
    cbn [q_step]. unfold q_recv. rewrite Hh, Hq. unfold q_try_recv. cbn [s_collecting negb s_hand length s_queue].
    rewrite (eq_refl : (1 <? MAX_WRITE_BATCH)%nat = true). unfold q_settle. cbn [s_collecting s_hand s_tasks s_queue s_next].
    rewrite Ht. unfold upd at 1. rewrite decide_True by done. rewrite (decide_True _ _ (eq_refl AwaitReserve)).
    unfold q_wake. cbn [s_tasks]. rewrite lookup_insert_eq. split_and!; try done.
    intros i. cbn. destruct (decide (i = n)) as [->|Hne].
    + rewrite lookup_insert_eq. unfold guards. by rewrite decide_True by lia.
    + rewrite !lookup_insert_ne, Ht by done. unfold upd. rewrite decide_False by done. unfold guards. do 2 destruct (decide _); (done || lia).
Qed.

(** The tasks while the commit is in hand: the guards of [m+1 .. k-1], and [n] new requests. *)
Definition committing (m n : nat) (i : nat) : option RequestTask :=
  if decide (i = 0%nat) then Some (Awaiting AwaitCommit None)
  else if decide (m < i < k)%nat then Some HoldsGuard
  else if decide (k ≤ i < k + n)%nat then Some (Awaiting AwaitReserve None) else None.

Lemma at_ext st f g queue hand next : at_state st f queue hand next → (∀ i, f i = g i) → at_state st g queue hand next.
Proof. intros (Ht & ?) E. split; [|done]. intros i. by rewrite Ht. Qed.

Lemma shortage_committing st : (1 ≤ k)%nat → at_state st (guards k) [] [] k →
  at_state (store_after [ECommit 0; ERecv; ETryRecv] st) (committing 0 0) [] [QAwaited AwaitCommit 0%nat] k.
Proof.
  intros Hk (Ht & Hq & Hh & Hn & Hcol). unfold store_after. cbn [foldl q_step]. unfold q_commit, try_send. rewrite Ht, Hq.
  unfold guards at 1. rewrite decide_True by lia. cbn [length].
  assert ((0 <? capacity)%nat = true) as -> by (apply Nat.ltb_lt; unfold write_queue_capacity; lia).
  unfold q_recv. cbn [fst s_queue s_hand with_queue with_tasks app]. rewrite Hh. unfold q_try_recv. cbn [s_collecting negb s_hand length s_queue].
  rewrite (eq_refl : (1 <? MAX_WRITE_BATCH)%nat = true). split; [|by split_and!]. intros i. cbn. unfold committing. destruct (decide (i = 0%nat)) as [->|Hne].
  - apply lookup_insert_eq.
  - rewrite lookup_insert_ne, Ht by done. unfold guards. do 3 (destruct (decide _); try (done || lia)).
Qed.

Lemma shortage_dropped st m : (m < k)%nat → at_state st (committing 0 0) [] [QAwaited AwaitCommit 0%nat] k →
  at_state (store_after (map EAbandon (seq 1 m)) st) (committing m 0) (map QRescind (seq 1 m)) [QAwaited AwaitCommit 0%nat] k.
Proof.
  intros Hm Hst. induction m as [|m IH]; [done|]. specialize (IH ltac:(lia)). rewrite seq_S, !map_app, after_app. cbn [map plus].
  eapply at_ext; [eapply (at_abandon_guard _ _ _ _ _ (S m) HoldsGuard); [exact IH|..]|].
  - unfold committing. rewrite decide_False by lia. by rewrite decide_True by lia.
  - done.
  - rewrite length_map, length_seq. unfold write_queue_capacity. lia.
  - intros i. unfold upd, committing. do 5 (destruct (decide _); try (done || lia)).
Qed.

Lemma shortage_renewed st n : (n < k)%nat → at_state st (committing (k - 1) 0) (map QRescind (seq 1 (k - 1))) [QAwaited AwaitCommit 0%nat] k →
  at_state (store_after (replicate n EReserve) st) (committing (k - 1) n)
    (map QRescind (seq 1 (k - 1)) ++ map (QAwaited AwaitReserve) (seq k n)) [QAwaited AwaitCommit 0%nat] (k + n).
Proof.
  intros Hn Hst. induction n as [|n IH]; [by rewrite app_nil_r, Nat.add_0_r|]. specialize (IH ltac:(lia)).
  rewrite replicate_S_end, seq_S, map_app, after_app, app_assoc, Nat.add_succ_r. cbn [map].
  eapply at_ext; [eapply at_reserve; [exact IH|..]|].
  - assert (size ({[0%nat]} ∪ set_seq k n : gset nat) = S n) as Hsize.
    { rewrite size_union by (intros i; rewrite elem_of_singleton, elem_of_set_seq; lia). by rewrite size_singleton, size_set_seq. }
    enough (size (held_permits (store_after (replicate n EReserve) st)) ≤ S n)%nat by lia. rewrite <-Hsize.
    eapply held_at; [exact IH|..]; intros i; rewrite elem_of_union, elem_of_singleton, elem_of_set_seq.
    + unfold committing. do 3 (destruct (decide _); [by lia|]). by intros [].
    + unfold accounted_slots. rewrite omap_app, elem_of_app, !list_elem_of_omap. intros [(j & Hj & E)|(j & Hj & E)].
      * apply list_elem_of_fmap in Hj as (x & -> & _). done.
      * apply list_elem_of_fmap in Hj as (x & -> & Hx). injection E as ->. apply elem_of_seq in Hx. lia.
    + cbn. rewrite list_elem_of_singleton. auto.
  - rewrite length_app, !length_map, !length_seq. unfold write_queue_capacity. lia.
  - intros i. unfold upd, committing. do 5 (destruct (decide _); try (done || lia)).
Qed.

Lemma shortage_full : (2 ≤ k)%nat →
  let st := q_run k capacity (shortage k) in s_tasks st !! 0%nat = Some (HoldsCommitted false) ∧ length (s_queue st) = capacity.
Proof.
  intros Hk. change (q_run k capacity (shortage k)) with (store_after (shortage k) opened_store). unfold shortage. rewrite !after_app.
  pose proof (shortage_renewed _ (k - 1) ltac:(lia) (shortage_dropped _ (k - 1) ltac:(lia)
    (shortage_committing _ ltac:(lia) (shortage_reserved k ltac:(lia) ltac:(lia))))) as Hst.
  set (st := store_after (replicate _ _) _) in *. clearbody st. change (store_after [EAbandon k; ESettle true; EWake 0] st) with (q_wake capacity 0 (q_settle true (q_step k capacity (EAbandon k) st))).
  pose proof (at_abandon_guard _ _ _ _ _ k (Awaiting AwaitReserve None) Hst) as (Ht & Hq & Hh & _ & Hcol).
  { unfold committing. rewrite decide_False by lia. rewrite decide_False by lia. by rewrite decide_True by lia. }
  { done. }
  { rewrite length_app, !length_map, !length_seq. unfold write_queue_capacity. lia. }
  set (st1 := q_step k capacity (EAbandon k) st) in *. clearbody st1. unfold q_settle. rewrite Hcol, Hh, Ht. cbn [s_tasks].
  unfold upd, committing. rewrite decide_False by lia. rewrite decide_True by done. rewrite (decide_True _ _ (eq_refl AwaitCommit)).
  unfold q_wake. cbn [s_tasks]. rewrite lookup_insert_eq. unfold try_send. cbn [s_queue].
  assert (length (s_queue st1) = (capacity - 1)%nat) as Hl.
  { rewrite Hq, !length_app, !length_map, !length_seq. unfold write_queue_capacity. cbn. lia. }
  assert ((length (s_queue st1) <? capacity)%nat = true) as -> by (apply Nat.ltb_lt; rewrite Hl; unfold write_queue_capacity; lia).
  split; cbn; [apply lookup_insert_eq|]. rewrite length_app, Hl. unfold write_queue_capacity. cbn. lia.
Qed.
End shortage.

(** C30: Two places per permit, the capacity the store opens its channel with, are too few from two
    permits on: after [shortage] the completion of a committed exchange is refused, the channel being full. *)
Theorem completion_refused_for_capacity max_reservations : (2 ≤ max_reservations)%nat →
  let capacity := write_queue_capacity max_reservations in
  let st := q_run max_reservations capacity (shortage max_reservations) in
  s_tasks st !! 0%nat = Some (HoldsCommitted false) ∧ snd (q_complete capacity 0%nat st) = QueueFull.
Proof.
  intros Hk capacity st. destruct (shortage_full max_reservations Hk) as [Ht Hl]. split; [done|].
  unfold q_complete, try_send. fold capacity in Ht, Hl. fold st in Ht, Hl. rewrite Ht, Hl. by rewrite Nat.ltb_irrefl.
Qed.

Lemma completion_refused_for_capacity_witness :
  (2 ≤ MAX_RESERVATIONS)%nat ∧
  snd (q_complete (write_queue_capacity MAX_RESERVATIONS) 0%nat
         (q_run MAX_RESERVATIONS (write_queue_capacity MAX_RESERVATIONS) (shortage MAX_RESERVATIONS))) = QueueFull.
Proof.
  assert (2 ≤ MAX_RESERVATIONS)%nat as Hk by (unfold MAX_RESERVATIONS; lia). split; [exact Hk|].
  exact (proj2 (completion_refused_for_capacity MAX_RESERVATIONS Hk)).
Defined.
