(* ===== verification/CoveredSet.v ===== *)
(** * What a retained message keeps is what its signature covers

    [covered_set.rs] reads the covered headers out of [Signature-Input] with a reader of its own.
    Here it is compared with the reader of the verifier ([SigInput]): of an accepted message whose
    label is spelled without a blank before its [=], it keeps the headers of the covered components,
    [Signature] and [Signature-Input], and no other, and the signature base is the same; a decoy
    member with the blank replaces the covered set. *)

From S2P Require Import Prelude.
From S2P Require Import RustStr.
From S2P Require Import Externals.
From S2P Require Import CoreError.
From S2P Require Import CoreResolver.
From S2P Require Import HttpMessage.
From S2P Require Import SigBase.
From S2P Require Import SigInput.
From S2P Require Import SigCanonical.
From S2P Require Import Chain.
From S2P Require Import Serve.
From S2P Require Import Retention.
From S2P Require Import Concrete.

(** ** The members *)

Lemma members_go_split q e cur s :
  members_go q e cur s = match split_quoted "," q e s with p :: ps => (cur ++ p) :: ps | [] => [cur] end.
Proof.
  revert q e cur. induction s as [|c s IH]; intros q e cur; cbn [members_go split_quoted]; [by rewrite app_nil_r|].
  assert (∀ q' e', members_go q' e' (cur ++ [c]) s =
    match cons_piece c (split_quoted "," q' e' s) with p :: ps => (cur ++ p) :: ps | [] => [cur] end) as Hgo.
  { intros q' e'. rewrite IH. destruct (split_quoted "," q' e' s) as [|p ps] eqn:E; [by apply split_quoted_nonempty in E|].
    cbn. by rewrite <-app_assoc. }
  change "034"%char with DQUOTE. change "\"%char with BACKSLASH.
  destruct e; [apply Hgo|]. destruct (ascii_eqb c BACKSLASH && q); [apply Hgo|]. destruct (ascii_eqb c DQUOTE); [apply Hgo|].
  destruct (ascii_eqb c "," && negb q); [|apply Hgo]. rewrite app_nil_r, IH.
  destruct (split_quoted "," q false s) eqn:E; [by apply split_quoted_nonempty in E|done].
Qed.
Lemma dictionary_members_split value : dictionary_members value = split_quoted "," false false value.
Proof.
  unfold dictionary_members. rewrite members_go_split. destruct (split_quoted _ _ _ _) eqn:E; [by apply split_quoted_nonempty in E|done].
Qed.

Section label.
Context (label : bytes).
Hypothesis label_chars : Forall (λ c, is_vchar c = true ∧ c ≠ "="%char) label.
Hypothesis label_ne : label ≠ [].

Definition claims (p : bytes) : bool :=
  match split_once_char "=" p with Some (name, _) => bytes_eqb (trim name) label | None => false end.
(** No blank between the label and its [=]. *)
Definition spelled (p : bytes) : Prop := ∀ name tail, split_once_char "=" p = Some (name, tail) → trim name = label → trim_end name = name.
Definition labelled (m : bytes) : Prop := ∃ v, m = label ++ b#"=" ++ v.

Lemma label_trimmed : trimmed label.
Proof. apply trimmed_vchar. eapply Forall_impl; [exact label_chars|]. by intros c [? _]. Qed.
Lemma label_no_eq : "="%char ∉ label.
Proof. intros Hin. rewrite Forall_forall in label_chars. by apply label_chars in Hin as [_ ?]. Qed.

Lemma member_value_go_Some members found v : member_value_go members label found = Ok (Some v) →
  match found with
  | Some v' => v' = v ∧ Forall (λ m, ¬ labelled m) members
  | None => ∃ pre post, members = pre ++ (label ++ b#"=" ++ v) :: post ∧ trim v = v ∧ Forall (λ m, ¬ labelled m) pre ∧ Forall (λ m, ¬ labelled m) post
  end.
Proof.
  revert found. induction members as [|m members IH]; intros found Hgo; cbn [member_value_go] in Hgo.
  { injection Hgo as ->. by split. }
  destruct m as [|c m]; [done|]. set (m0 := c :: m) in *. clearbody m0. clear c m.
  assert (∀ r, strip_prefix label m0 = Some r → strip_prefix b#"=" r = None → ¬ labelled m0) as Hno1.
  { intros r Hr Hn [v' ->]. rewrite strip_prefix_app in Hr. assert (r = b#"=" ++ v') as -> by congruence. by rewrite strip_prefix_app in Hn. }
  assert (strip_prefix label m0 = None → ¬ labelled m0) as Hno2 by (intros Hn [v' ->]; by rewrite strip_prefix_app in Hn).
  destruct (strip_prefix label m0) as [r|] eqn:Er; [destruct (strip_prefix b#"=" r) as [v'|] eqn:Ev|].
  - apply strip_prefix_Some in Er as ->. apply strip_prefix_Some in Ev as ->. destruct found; [done|].
    destruct (bytes_eqb (trim v') v') eqn:Et; [|done]. cbn in Hgo. apply IH in Hgo as [-> Hall].
    apply bytes_eqb_true in Et. by exists [], members.
  - specialize (Hno1 _ eq_refl Ev). apply IH in Hgo. destruct found as [v'|].
    + destruct Hgo as [-> Hall]. split; [done|]. by constructor.
    + destruct Hgo as (pre & post & -> & Ht & Hpre & Hpost). exists (m0 :: pre), post. split; [done|]. split; [done|]. split; [by constructor|done].
  - specialize (Hno2 eq_refl). apply IH in Hgo. destruct found as [v'|].
    + destruct Hgo as [-> Hall]. split; [done|]. by constructor.
    + destruct Hgo as (pre & post & -> & Ht & Hpre & Hpost). exists (m0 :: pre), post. split; [done|]. split; [done|]. split; [by constructor|done].
Qed.

Lemma eq_not_blank r : blank r → "="%char ∉ r.
Proof. intros Hb. by apply blank_no. Qed.

(** A member that claims the label is, trimmed, a member of the label. *)
Lemma claims_labelled p : claims p = true → spelled p → labelled (trim p).
Proof.
  unfold claims, spelled. destruct (split_once_char "=" p) as [[name tail]|] eqn:Es; [|done].
  intros Ht%bytes_eqb_true Hsp. specialize (Hsp _ _ eq_refl Ht). apply split_once_char_Some in Es as [-> Hno].
  destruct (trim_decompose name) as (l & r & Hl & Hr & En). rewrite Ht in En.
  assert (name = l ++ label) as ->.
  { rewrite <-Hsp, En, app_assoc, trim_end_blank by done.
    destruct (exists_last label_ne) as (x & c & Ex). rewrite Ex, app_assoc. apply trim_end_id.
    assert (c ∈ label) as Hc by (rewrite Ex; apply elem_of_app; right; by left). rewrite Forall_forall in label_chars. by apply label_chars. }
  clear En Ht Hsp r Hr Hno. set (X := label ++ "="%char :: tail).
  assert (trim ((l ++ label) ++ "="%char :: tail) = trim X) as ->.
  { rewrite <-app_assoc. fold X. rewrite <-(app_nil_r X) at 1. by apply trim_wrap, blank_nil. }
  destruct (trim_decompose X) as (l' & r' & Hl' & Hr' & EX).
  assert (l' = []) as ->.
  { destruct l' as [|x l']; [done|]. exfalso. destruct label as [|c lab] eqn:El; [done|]. unfold X in EX. cbn in EX. injection EX as <- _.
    rewrite Forall_forall in label_chars. destruct (label_chars c) as [Hv _]; [by left|].
    pose proof (blank_no c (c :: l') ltac:(unfold is_vchar in Hv; bool_prop; lia) (vchar_not_ws1 c Hv) Hl') as Hn. apply Hn. by left. }
  revert EX. generalize (trim X). intros T EX. cbn [app] in EX. unfold X in EX. change ("="%char :: tail) with (b#"=" ++ tail) in EX. rewrite app_assoc in EX.
  apply app_eq_inv in EX as [(w & E1 & E2)|(w & E1 & E2)].
  - destruct w as [|x w _] using rev_ind; [rewrite app_nil_r in E1; exists []; rewrite app_nil_r; symmetry; exact E1|].
    rewrite app_assoc in E1. apply app_inj_tail in E1 as [_ <-]. destruct (eq_not_blank r' Hr'). rewrite E2, <-app_assoc. apply elem_of_app. right. by left.
  - exists w. by rewrite E1, <-app_assoc.
Qed.

Lemma labelled_claims p v : trim p = label ++ b#"=" ++ v →
  ∃ l r, blank l ∧ blank r ∧ split_once_char "=" p = Some (l ++ label, v ++ r) ∧ trim (l ++ label) = label.
Proof.
  intros Ht. destruct (trim_decompose p) as (l & r & Hl & Hr & ->). rewrite Ht in *. exists l, r. split; [done|]. split; [done|]. split.
  - replace (l ++ (label ++ b#"=" ++ v) ++ r) with ((l ++ label) ++ "="%char :: v ++ r) by (by rewrite <-!app_assoc).
    apply split_once_char_app. rewrite elem_of_app. intros [Hin|Hin]; [by apply eq_not_blank in Hin|by apply label_no_eq].
  - rewrite <-(app_nil_r label) at 1. rewrite trim_wrap by (done || apply blank_nil). apply trim_id, label_trimmed.
Qed.

(** The list the retention reader takes is the one of the verifier's member. *)
Lemma component_list_in_member pieces v pre post :
  map trim pieces = pre ++ (label ++ b#"=" ++ v) :: post → Forall (λ m, ¬ labelled m) pre → Forall spelled pieces →
  ∃ r, blank r ∧ component_list_in pieces label = ('(_, tail) ← split_once_char "(" (v ++ r); '(components, _) ← split_once_char ")" tail; Some components).
Proof.
  revert pre. induction pieces as [|p pieces IH]; intros pre Hmap Hpre Hsp; [by destruct pre|].
  apply Forall_cons in Hsp as [Hp Hsp]. destruct pre as [|m pre].
  - injection Hmap as Ht _. destruct (labelled_claims _ _ Ht) as (l & r & Hl & Hr & Hs & Htr). exists r. split; [done|].
    cbn [component_list_in]. by rewrite Hs, Htr, bytes_eqb_refl.
  - injection Hmap as Hm Hmap. apply Forall_cons in Hpre as [Hnl Hpre]. destruct (IH _ Hmap Hpre Hsp) as (r & Hr & E). exists r. split; [done|].
    assert (claims p = false) as Hc.
    { apply not_true_is_false. intros Hc. apply Hnl. rewrite <-Hm. by apply claims_labelled. }
    unfold claims in Hc. cbn [component_list_in]. destruct (split_once_char "=" p) as [[name tail]|]; [|done]. by rewrite Hc.
Qed.

Lemma parsed_list v psi : trim v = v → parse_signature_input v = Ok psi →
  Forall known_component (psi_components psi) ∧ ∃ tail, v = b#"(" ++ component_list (psi_components psi) ++ b#")" ++ tail.
Proof.
  intros Ht Hp. unfold parse_signature_input in Hp. rewrite Ht in Hp. inv_ok. bool_prop.
  apply find_byte_Some in E0 as (a & c & b & -> & -> & <-%ascii_eqb_true & _).
  apply starts_with_true in E as [r Hr]. destruct a as [|x a]; [done|]. injection Hr as -> _.
  change (take (length ("("%char :: a)) (("("%char :: a) ++ ")"%char :: b)) with
    ("("%char :: take (length a) (a ++ ")"%char :: b)) in E1.
  rewrite take_app_length in E1. simpl in E1. apply parse_covered_components_Ok in E1 as (Hlist & Hk & _).
  split; [done|]. exists b. cbn [psi_components]. by rewrite Hlist.
Qed.

Lemma component_list_for_member value v psi : Forall spelled (dictionary_members value) → member_value value label = Ok v →
  parse_signature_input v = Ok psi → component_list_for value label = Some (component_list (psi_components psi)).
Proof.
  intros Hsp Hm Hp. unfold member_value in Hm. inv_ok. subst.
  apply member_value_go_Some in E as (pre & post & Hmap & Ht & Hpre & _).
  unfold split_dictionary in Hmap. rewrite <-dictionary_members_split in Hmap.
  destruct (component_list_in_member _ _ _ _ Hmap Hpre Hsp) as (r & Hr & E). unfold component_list_for. rewrite E.
  destruct (parsed_list v psi Ht Hp) as [Hk (tail & ->)].
  change ((b#"(" ++ component_list (psi_components psi) ++ b#")" ++ tail) ++ r) with ([] ++ "("%char :: (component_list (psi_components psi) ++ b#")" ++ tail) ++ r).
  rewrite split_once_char_app by set_solver. cbn [mbind option_bind].
  replace ((component_list (psi_components psi) ++ b#")" ++ tail) ++ r) with (component_list (psi_components psi) ++ ")"%char :: (tail ++ r)) by (by rewrite <-app_assoc).
  by rewrite split_once_char_app by (by apply component_list_no_paren).
Qed.
End label.

(** ** The components *)

Lemma split_ws_vchar w c s : is_vchar c = true → split_ws w (c :: s) = split_ws (w ++ [c]) s.
Proof.
  intros Hc. cbn [split_ws]. rewrite (vchar_not_ws1 c Hc). destruct s as [|d [|e s]]; [done|..]; rewrite (vchar_not_ws2_l c d Hc); [done|].
  by rewrite (vchar_not_ws3_l c d e Hc).
Qed.
Lemma split_ws_word w x s : Forall (λ c, is_vchar c = true) x → split_ws w (x ++ s) = split_ws (w ++ x) s.
Proof.
  intros Hx. revert w. induction Hx as [|c x Hc Hx IH]; intros w; [by rewrite app_nil_r|].
  cbn [app]. rewrite split_ws_vchar, IH by done. by rewrite <-app_assoc.
Qed.
Lemma split_whitespace_join words : Forall (λ x, x ≠ [] ∧ Forall (λ c, is_vchar c = true) x) words →
  split_whitespace (join b#" " words) = words.
Proof.
  unfold split_whitespace. induction 1 as [|x words [Hne Hx] Hw IH]; [done|]. destruct words as [|y words].
  - cbn [join]. rewrite <-(app_nil_r x) at 1. rewrite split_ws_word by done. cbn. by destruct x.
  - rewrite join_cons, split_ws_word by done. change (b#" " ++ join b#" " (y :: words)) with (" "%char :: join b#" " (y :: words)).
    cbn [split_ws app]. rewrite IH. by destruct x.
Qed.

Lemma component_name_identifier c : known_component c → component_name (identifier c) = Some (cc_name c).
Proof.
  intros Hk%known_name_chars. unfold component_name, identifier, quoted.
  assert (DQUOTE ∉ cc_name c) as Hn by (intros Hin; rewrite Forall_forall in Hk; by apply Hk in Hin).
  assert (∀ rest, (r ← strip_prefix ["034"%char] ([DQUOTE] ++ (cc_name c ++ [DQUOTE]) ++ rest); '(name, _) ← split_once_char "034" r; Some name) = Some (cc_name c)) as Hall.
  { intros rest. rewrite strip_prefix_app. cbn [mbind option_bind]. rewrite <-app_assoc. cbn [app].
    by rewrite (split_once_char_app DQUOTE). }
  destruct (cc_req c); [|rewrite <-(app_nil_r (cc_name c ++ [DQUOTE])); apply Hall].
  rewrite <-app_assoc. apply (Hall b#";req").
Qed.
Lemma component_names_list cs : Forall known_component cs → component_names (component_list cs) = map cc_name cs.
Proof.
  intros Hk. unfold component_names, component_list. rewrite split_whitespace_join.
  - induction Hk as [|c cs Hc Hk IH]; [done|]. cbn [map omap list_omap]. by rewrite component_name_identifier, IH.
  - apply Forall_map. eapply Forall_impl; [exact Hk|]. intros c Hc. split; [unfold identifier, quoted; by destruct (cc_req c)|].
    apply Forall_forall. intros x Hx. by apply (identifier_chars c).
Qed.

Lemma known_lower n : n ∈ KNOWN_COMPONENTS → to_ascii_lowercase n = n.
Proof.
  intros Hn. assert (forallb (λ n, bytes_eqb (to_ascii_lowercase n) n) KNOWN_COMPONENTS = true) as Hk by done.
  apply forallb_Forall in Hk. rewrite Forall_forall in Hk. by apply bytes_eqb_true, Hk.
Qed.

(** ** The headers kept *)

Definition kept_name (cs : list CoveredComponent) (n : bytes) : Prop :=
  n = b#"signature" ∨ n = b#"signature-input" ∨ (starts_with b#"@" n = false ∧ ∃ c, c ∈ cs ∧ cc_name c = n).

Lemma covered_names_filter headers label k value : filter (header_named b#"signature-input") headers = [(k, value)] →
  covered_names headers label =
    match component_list_for value label with
    | None => []
    | Some components => map to_ascii_lowercase (List.filter (λ c, negb (starts_with b#"@" c)) (component_names components))
    end.
Proof.
  set (g := λ value, match component_list_for value label with None => [] | Some components => map to_ascii_lowercase (List.filter (λ c, negb (starts_with b#"@" c)) (component_names components)) end).
  assert (covered_names headers label = concat (map (λ kv, g kv.2) (filter (header_named b#"signature-input") headers))) as E.
  { unfold covered_names. induction headers as [|[k' v'] hs IH]; [done|]. cbn [map concat]. destruct (decide (header_named b#"signature-input" (k', v'))) as [Hd|Hd].
    - rewrite filter_cons_True by done. unfold header_named in Hd. cbn [fst] in Hd. rewrite Hd. cbn [negb map concat]. by rewrite <-IH.
    - rewrite filter_cons_False by done. unfold header_named in Hd. cbn [fst] in Hd. apply not_true_is_false in Hd. rewrite Hd. cbn [negb app]. apply IH. }
  intros Hf. rewrite E, Hf. cbn. by rewrite app_nil_r.
Qed.

Definition label_spelled (label : bytes) (headers : Headers) : Prop :=
  ∀ k v, (k, v) ∈ headers → header_named b#"signature-input" (k, v) → Forall (spelled label) (dictionary_members v).
Definition label_shape (label : bytes) : Prop := Forall (λ c, is_vchar c = true ∧ c ≠ "="%char) label ∧ label ≠ [].

Definition keeps (headers : Headers) (label : bytes) (kv : bytes * bytes) : bool :=
  let lower := to_ascii_lowercase kv.1 in
  bytes_eqb lower b#"signature" || bytes_eqb lower b#"signature-input" || existsb (bytes_eqb lower) (covered_names headers label).
Lemma covered_headers_keeps headers label : covered_headers headers label = List.filter (keeps headers label) headers.
Proof. unfold covered_headers. apply List.filter_ext. by intros [k v]. Qed.

Section parsed.
Context (headers : Headers) (label what : bytes) (psi : ParsedSignatureInput).
Hypothesis shape : label_shape label.
Hypothesis accepted : parse_signature_input_for headers label what = Ok psi.
Hypothesis spelling : label_spelled label headers.

Lemma parsed_names : Forall known_component (psi_components psi) ∧
  covered_names headers label = map to_ascii_lowercase (List.filter (λ c, negb (starts_with b#"@" c)) (map cc_name (psi_components psi))).
Proof.
  unfold parse_signature_input_for in accepted. inv_ok. apply required_header_Ok in E as [k Hf]. rename v into value. rename E0 into Hm.
  assert ((k, value) ∈ filter (header_named b#"signature-input") headers) as Hin by (rewrite Hf; by left).
  apply list_elem_of_filter in Hin as [Hn Hin]. destruct shape as [Hs1 Hs2].
  rewrite (covered_names_filter _ _ _ _ Hf), (component_list_for_member label Hs1 Hs2 value _ psi (spelling _ _ Hin Hn) Hm accepted).
  assert (Forall known_component (psi_components psi)) as Hk.
  { unfold member_value in Hm. inv_ok. subst. apply member_value_go_Some in E as (pre & post & _ & Ht & _). by apply (parsed_list _ _ Ht accepted). }
  split; [done|]. by rewrite component_names_list.
Qed.

Lemma keeps_covers kv : keeps headers label kv = true ↔ kept_name (psi_components psi) (to_ascii_lowercase kv.1).
Proof.
  destruct parsed_names as [Hk Hn]. unfold keeps, kept_name. rewrite !orb_true_iff, !bytes_eqb_true, existsb_bytes_eqb, Hn.
  assert (∀ n, n ∈ map to_ascii_lowercase (List.filter (λ c, negb (starts_with b#"@" c)) (map cc_name (psi_components psi))) ↔
    starts_with b#"@" n = false ∧ ∃ c, c ∈ psi_components psi ∧ cc_name c = n) as Hiff; [|rewrite Hiff; tauto].
  rewrite Forall_forall in Hk. intros n. rewrite list_elem_of_fmap. split.
  - intros (x & -> & Hx). apply list_elem_of_In, filter_In in Hx as [Hx Hat]. apply list_elem_of_In, list_elem_of_fmap in Hx as (c & -> & Hc).
    rewrite known_lower by (by apply Hk). split; [by apply negb_true_iff|eauto].
  - intros (Hat & c & Hc & <-). exists (cc_name c). rewrite known_lower by (by apply Hk). split; [done|].
    apply list_elem_of_In, filter_In. split; [|by rewrite Hat]. apply list_elem_of_In, list_elem_of_fmap. eauto.
Qed.

Lemma kept_named n : to_ascii_lowercase n = n → kept_name (psi_components psi) n →
  filter (header_named n) (covered_headers headers label) = filter (header_named n) headers.
Proof.
  intros Hl Hc. rewrite covered_headers_keeps. pose proof keeps_covers as Hkc. revert Hkc. generalize (keeps headers label). intros keep Hkc.
  clear spelling accepted. induction headers as [|[k v] hs IH]; [done|]. cbn [List.filter].
  destruct (decide (header_named n (k, v))) as [Hd|Hd].
  - assert (keep (k, v) = true) as ->.
    { apply Hkc. cbn. unfold header_named, eq_ignore_ascii_case in Hd. apply bytes_eqb_true in Hd. cbn in Hd. by rewrite Hd, Hl. }
    rewrite !filter_cons_True by done. by rewrite IH.
  - rewrite (filter_cons_False _ (k, v) hs) by done. destruct (keep (k, v)); [rewrite filter_cons_False by done|]; apply IH.
Qed.

Lemma kept_required n : to_ascii_lowercase n = n → kept_name (psi_components psi) n →
  required_header (covered_headers headers label) n = required_header headers n.
Proof. intros Hl Hc. unfold required_header. by rewrite !single_header_filter, kept_named. Qed.
End parsed.

Section request.
Context `{Base64Laws}.

Lemma into_hop_record request response : into_hop (record_of request response) =
  Ok {| hop_request := {| req_method := req_method request; req_target_uri := req_target_uri request;
                          req_headers := covered_headers (req_headers request) REQUEST_LABEL; req_body := req_body request |};
        hop_response := {| resp_status := resp_status response;
                           resp_headers := covered_headers (resp_headers response) RESPONSE_LABEL; resp_body := resp_body response |} |}.
Proof.
  unfold into_hop, record_of, record_over, retained_request. cbn [rh_schema rh_request rh_response rq_body_b64 rs_body_b64].
  rewrite bytes_eqb_refl. cbn [negb]. unfold b64url_decode, b64url_encode. rewrite !url_decode_encode. done.
Qed.

(** C9: The record of a request the verifier's reader accepts, whose label has no blank before its
    [=], reads back as a request with the same body that has [Signature], [Signature-Input] and the
    headers of the covered components and no other, and that is read and has its signature base as
    the request itself. *)
Theorem retained_request_same_base request response what psi :
  parse_signature_input_for (req_headers request) REQUEST_LABEL what = Ok psi → label_spelled REQUEST_LABEL (req_headers request) →
  ∃ hop, into_hop (record_of request response) = Ok hop ∧
    req_body (hop_request hop) = req_body request ∧
    (∀ k v, (k, v) ∈ req_headers (hop_request hop) ↔ (k, v) ∈ req_headers request ∧ kept_name (psi_components psi) (to_ascii_lowercase k)) ∧
    parse_signature_input_for (req_headers (hop_request hop)) REQUEST_LABEL what = Ok psi ∧
    required_header (req_headers (hop_request hop)) b#"signature" = required_header (req_headers request) b#"signature" ∧
    signature_base (psi_components psi) (psi_params psi) (SourceRequest (hop_request hop)) =
      signature_base (psi_components psi) (psi_params psi) (SourceRequest request).
Proof.
  intros Hp Hsp. eexists. split; [apply into_hop_record|]. cbn [hop_request req_headers req_body].
  set (retained := Build_HttpRequest _ _ _ _). assert (label_shape REQUEST_LABEL) as Hshape by (split; [repeat constructor; done|done]).
  split; [done|]. split; [|split; [|split]].
  - intros k v. rewrite covered_headers_keeps, list_elem_of_In, filter_In, <-list_elem_of_In.
    by rewrite (keeps_covers _ _ _ _ Hshape Hp Hsp (k, v)).
  - rewrite <-Hp. unfold parse_signature_input_for.
    rewrite (kept_required _ _ _ _ Hshape Hp Hsp b#"signature-input"); [done|done|]. right. by left.
  - apply (kept_required _ _ _ _ Hshape Hp Hsp); [done|by left].
  - destruct (parsed_names _ _ _ _ Hshape Hp Hsp) as [Hk _]. unfold signature_base.
    assert (∀ cs, (∀ c, c ∈ cs → c ∈ psi_components psi) → component_lines cs (SourceRequest retained) = component_lines cs (SourceRequest request)) as Hl; [|by rewrite Hl].
    induction cs as [|c cs IH]; intros Hsub; [done|]. cbn [component_lines]. rewrite IH by set_solver.
    assert (component_value c (SourceRequest retained) = component_value c (SourceRequest request)) as ->; [|done].
    assert (resolve_component_value c (SourceRequest retained) = resolve_component_value c (SourceRequest request)) as E; [|unfold component_value; by rewrite E].
    unfold resolve_component_value. destruct (cc_req c); [done|].
    destruct (strip_prefix b#"@" (cc_name c)) as [n|] eqn:Eat; [done|]. cbn [req_headers retained].
    rewrite !covered_header_filter, (kept_named _ _ _ _ Hshape Hp Hsp); [done|..].
    + apply known_lower. rewrite Forall_forall in Hk. apply Hk. set_solver.
    + right. right. split; [unfold starts_with; by rewrite Eat|]. exists c. split; [set_solver|done].
Qed.
End request.

(** ** A decoy *)

Definition decoy (name : bytes) : bytes := REQUEST_LABEL ++ b#" =(" ++ quoted name ++ b#")".

Lemma decoy_trimmed name : trim (decoy name) = decoy name.
Proof.
  unfold decoy. apply trim_id. split; [done|]. rewrite !app_assoc. change b#")" with [")"%char]. by rewrite last_snoc.
Qed.

(** C32: Before an accepted [Signature-Input], a member with the label, a blank and a list of one name
    leaves what the verifier reads as it was, and makes that name all the retention reader takes. *)
Theorem decoy_replaces_covered_set value v name :
  member_value value REQUEST_LABEL = Ok v → Forall (λ c, sf_char c = true ∧ c ≠ ")"%char) name →
  member_value (decoy name ++ b#"," ++ value) REQUEST_LABEL = Ok v ∧
  component_list_for (decoy name ++ b#"," ++ value) REQUEST_LABEL = Some (quoted name).
Proof.
  intros Hv Hn.
  assert (scan "," false false (decoy name) = Some (false, false)) as Hscan.
  { unfold decoy. rewrite (scan_app _ _ _ false false); [|done]. rewrite (scan_app _ _ _ false false); [|done].
    rewrite (scan_app _ _ _ false false); [done|]. apply scan_quoted. eapply Forall_impl; [exact Hn|]. by intros c [? _]. }
  assert (split_quoted "," false false (decoy name ++ b#"," ++ value) = decoy name :: split_quoted "," false false value) as Hsplit.
  { rewrite (split_quoted_scan _ _ _ _ _ _ _ Hscan). cbn. by rewrite app_nil_r. }
  split.
  - unfold member_value, split_dictionary in *. rewrite Hsplit. cbn [map]. rewrite decoy_trimmed.
    replace (member_value_go (decoy name :: _) REQUEST_LABEL None)
      with (member_value_go (map trim (split_quoted "," false false value)) REQUEST_LABEL None); [done|]. done.
  - unfold component_list_for. rewrite dictionary_members_split, Hsplit. cbn [component_list_in].
    replace (decoy name) with (b#"mcp-re " ++ "="%char :: (b#"(" ++ quoted name ++ b#")")) by done.
    rewrite split_once_char_app by (intros Hin; vm_compute in Hin; set_solver).
    assert (bytes_eqb (trim b#"mcp-re ") REQUEST_LABEL = true) as -> by (vm_compute; reflexivity).
    change (b#"(" ++ quoted name ++ b#")") with ([] ++ "("%char :: (quoted name ++ b#")")).
    rewrite split_once_char_app by set_solver. cbn [mbind option_bind].
    change b#")" with [")"%char]. rewrite (split_once_char_app ")" (quoted name) []); [done|].
    unfold quoted. rewrite !elem_of_app, !list_elem_of_singleton. rewrite Forall_forall in Hn. intros [?|[Hin|?]]; [done|by apply Hn in Hin as [_ ?]|done].
Qed.

(** ** Witnesses *)

Module CoveredWitness.
(** A request as [covered_set.rs]'s tests have it. *)
Definition w_input : bytes :=
  b#"mcp-re=(" ++ quoted b#"@method" ++ b#" " ++ quoted b#"content-digest" ++ b#");created=100;keyid=" ++ quoted b#"k".
Definition w_message (input : bytes) : HttpRequest :=
  {| req_method := b#"POST"; req_target_uri := b#"https://h/mcp";
     req_headers := [(b#"Signature-Input", input); (b#"Signature", b#"mcp-re=:AA==:"); (b#"Cookie", b#"session=1");
                     (b#"Content-Digest", b#"sha-256=:AA==:")];
     req_body := b#"{}" |}.
Definition w_reply : HttpResponse := {| resp_status := 200; resp_headers := []; resp_body := [] |}.
Definition w_psi : ParsedSignatureInput :=
  match parse_signature_input_for (req_headers (w_message w_input)) REQUEST_LABEL b#"request" with
  | Ok psi => psi
  | Err _ => {| psi_components := []; psi_params := params_default |}
  end.
End CoveredWitness.
Import CoveredWitness.
Import Instances.

Lemma w_input_spelled : label_spelled REQUEST_LABEL (req_headers (w_message w_input)).
Proof.
  intros k v Hin Hn. cbn [req_headers w_message] in Hin.
  repeat (apply elem_of_cons in Hin as [[= -> ->]|Hin]; [try (exfalso; vm_compute in Hn; discriminate)|]); [|by apply elem_of_nil in Hin].
  assert (dictionary_members w_input = [w_input]) as -> by (vm_compute; reflexivity). constructor; [|constructor].
  intros name tail Hs Ht. assert (split_once_char "=" w_input = Some (b#"mcp-re", drop 7 w_input)) as E by (vm_compute; reflexivity).
  rewrite E in Hs. injection Hs as <- _. vm_compute. reflexivity.
Qed.

Lemma retained_request_same_base_witness :
  ∃ hop, into_hop (record_of (w_message w_input) w_reply) = Ok hop ∧
    signature_base (psi_components w_psi) (psi_params w_psi) (SourceRequest (hop_request hop)) =
      signature_base (psi_components w_psi) (psi_params w_psi) (SourceRequest (w_message w_input)) ∧
    signature_base (psi_components w_psi) (psi_params w_psi) (SourceRequest (w_message w_input)) ≠ Err (HPE.MissingEvidence b#"").
Proof.
  assert (parse_signature_input_for (req_headers (w_message w_input)) REQUEST_LABEL b#"request" = Ok w_psi) as Hp by (vm_compute; reflexivity).
  destruct (retained_request_same_base (w_message w_input) w_reply b#"request" w_psi Hp w_input_spelled) as (hop & Hh & _ & _ & _ & _ & Hb).
  exists hop. split; [exact Hh|]. split; [exact Hb|]. vm_compute. discriminate.
Defined.

(** With a decoy for [cookie], the cookie is kept and the covered digest is not. *)
Lemma decoy_replaces_covered_set_witness :
  member_value (decoy b#"cookie" ++ b#"," ++ w_input) REQUEST_LABEL = member_value w_input REQUEST_LABEL ∧
  map fst (covered_headers (req_headers (w_message (decoy b#"cookie" ++ b#"," ++ w_input))) REQUEST_LABEL) =
    [b#"Signature-Input"; b#"Signature"; b#"Cookie"].
Proof.
  destruct (member_value w_input REQUEST_LABEL) as [v|e] eqn:Hv; [|vm_compute in Hv; discriminate].
  destruct (decoy_replaces_covered_set w_input v b#"cookie" Hv) as [Hd _]; [repeat constructor; done|].
  split; [exact Hd|]. vm_compute. reflexivity.
Defined.
