(* ===== verification/TrustPlane.v ===== *)
(** * [mcp-re-proxy/src/trust_plane]: the trust a replica serves, and for how long

    The trust document and the store that is swapped on reload ([trust_document.rs],
    [reloading_trust.rs]), the bounded cache over it ([trust_cache.rs]), its push invalidation
    ([push_trust.rs], [invalidation_channel.rs], [trust_epoch.rs]), the latch that fails closed when
    the store is no longer maintained ([freshness.rs], [reload]), and the tiers
    ([revocation_tier.rs], [revocation_resolver.rs], [live_trust.rs], [window_policy.rs]).
    [TrustWindow] has what they promise together. *)

From S2P Require Import Prelude.
From S2P Require Import RustStr.
From S2P Require Import Externals.
From S2P Require Import AuthzPolicy.
From S2P Require Import CoreError.
From S2P Require Import CoreResolver.
From S2P Require Import Authorize.

(** ** [window_policy.rs] *)

Definition RECOMMENDED_MAX_T_SECS : Z := 300.
Definition t_exceeds_recommended_max (t_secs : Z) : bool := RECOMMENDED_MAX_T_SECS <? t_secs.
Definition strictest_applicable_t (default_t_secs : Z) (windows : list Z) : Z :=
  foldl Z.min (Z.max default_t_secs 0) (List.filter (λ t, 0 <=? t) windows).

(** ** [revocation_tier.rs] *)

Inductive RevocationTier := BoundedCache (t_secs : Z) | Live | Push (t_secs : Z).
Definition tier_wire_name (t : RevocationTier) : bytes :=
  match t with BoundedCache _ => b#"BOUNDED_CACHE" | Live => b#"LIVE" | Push _ => b#"PUSH" end.
Definition guarantee (t : RevocationTier) : bytes :=
  match t with
  | BoundedCache _ => b#"revocation enforced fleet-wide within the bounded window T; on store outage cached active state is usable only until T, then fail closed; NOT zero-window / NOT live / NOT push"
  | Live => b#"near-zero revocation window: the store is consulted on every verification with no positive-trust caching, at the cost of a per-request store round-trip and a hard availability dependency (store unavailability fails closed); NOT proven zero-window"
  | Push _ => b#"near-zero revocation window with bounded-T fallback: a pushed revocation evicts affected entries immediately, but on invalidation-channel failure entries fall back to expiry within the bounded window T; NOT zero-window (the reference channel does not prove reliable ordering/delivery)"
  end.
Definition tier_audit_line (t : RevocationTier) (backend : bytes) : bytes :=
  b#"trust-store backend=" ++ backend ++ b#" revocation-tier=" ++ tier_wire_name t ++ b#" guarantee=" ++ [DQUOTE] ++ guarantee t ++ [DQUOTE].
Definition claims_zero_window (t : RevocationTier) : bool := false.
(** [to_lowercase] is a function of the library; the tiers' names are ASCII. *)
Definition parse_window (rest original tier : bytes) : Result Z bytes :=
  match split_char ":" rest with
  | first :: parts =>
      if negb (bytes_eqb first []) then Err (tier ++ b#" requires ':<t_secs>' (got '" ++ original ++ b#"')")
      else
        let? t_secs := ok_or (t ← head parts; t ← str_parse_i64 t; if 1 <=? t then Some t else None)
                         (tier ++ b#" t_secs must be a positive integer (in '" ++ original ++ b#"')") in
        match tail parts with
        | [] => Ok t_secs
        | _ => Err (tier ++ b#" takes exactly ':<t_secs>' (got '" ++ original ++ b#"')")
        end
  | [] => Err (tier ++ b#" requires ':<t_secs>' (got '" ++ original ++ b#"')")
  end.
Definition RevocationTier_parse (to_lowercase : bytes → bytes) (value : bytes) : Result RevocationTier bytes :=
  let lower := to_lowercase (trim value) in
  if bytes_eqb lower b#"live" then Ok Live
  else match strip_prefix b#"bounded-cache" lower with
       | Some rest => let? t_secs := parse_window rest value b#"bounded-cache" in Ok (BoundedCache t_secs)
       | None =>
           match strip_prefix b#"push" lower with
           | Some rest => let? t_secs := parse_window rest value b#"push" in Ok (Push t_secs)
           | None => Err (b#"unknown revocation tier '" ++ value ++ b#"' (expected bounded-cache:<t_secs> | live | push:<t_secs>)")
           end
       end.

(** ** [trust_cache.rs] *)

Definition DEFAULT_T_SECS : Z := 60.
Definition DEFAULT_NEGATIVE_TTL_SECS : Z := 5.
Definition PRUNE_EVERY_N_WRITES : Z := 64.
Definition MAX_CACHE_ENTRIES : nat := Z.to_nat 100000.

(** A reading before the epoch, or too late for an [i64], closes every window. *)
Definition unix_seconds (since_epoch : option Z) : Z :=
  match since_epoch with
  | Some secs => if secs <=? i64_MAX then secs else i64_MAX
  | None => i64_MAX
  end.

Section cache.
Context {K : Type}.

Inductive CachedOutcome := CO_Active (key : K) | CO_Revoked | CO_NotFound | CO_Malformed.
Definition to_result (o : CachedOutcome) : Result K TrustResolverError :=
  match o with
  | CO_Active key => Ok key
  | CO_Revoked => Err Revoked
  | CO_NotFound => Err NotFound
  | CO_Malformed => Err MalformedKey
  end.

Record CacheEntry := { ce_outcome : CachedOutcome; ce_expires_at : Z; ce_invalidated : bool }.

(** The two mutexes with what they guard, and whether a panic poisoned them. *)
Record TrustCache := {
  tc_entries : gmap bytes CacheEntry; tc_poisoned : bool;
  tc_writes : Z; tc_writes_poisoned : bool;
}.
Record CacheTerms := { ct_t_secs : Z; ct_negative_ttl_secs : Z; ct_max_entries : nat }.
Definition cache_new (t_secs negative_ttl_secs : Z) : CacheTerms * TrustCache :=
  ({| ct_t_secs := Z.max t_secs 0; ct_negative_ttl_secs := Z.max negative_ttl_secs 0; ct_max_entries := MAX_CACHE_ENTRIES |},
   {| tc_entries := ∅; tc_poisoned := false; tc_writes := 0; tc_writes_poisoned := false |}).
Definition tc_with_entries (c : TrustCache) (entries : gmap bytes CacheEntry) : TrustCache :=
  {| tc_entries := entries; tc_poisoned := tc_poisoned c; tc_writes := tc_writes c; tc_writes_poisoned := tc_writes_poisoned c |}.

Definition cached (c : TrustCache) (key : bytes) (now : Z) : option (Result K TrustResolverError) :=
  if tc_poisoned c then Some (Err (TrustUnavailable b#"trust cache mutex poisoned: poisoned lock: another task failed inside"))
  else
    entry ← tc_entries c !! key;
    if ce_invalidated entry then None
    else if now <? ce_expires_at entry then Some (to_result (ce_outcome entry)) else None.

(** [HashMap::retain] of what has not expired. *)
Definition retain_live (entries : gmap bytes CacheEntry) (now : Z) : gmap bytes CacheEntry :=
  filter (λ ke, (now <? ce_expires_at ke.2) = true) entries.

(** The opportunistic sweep at the start of [store]. *)
Definition sweep (c : TrustCache) (now : Z) : TrustCache :=
  if tc_writes_poisoned c then c
  else
    let writes := Z.min (tc_writes c + 1) u64_MAX in
    if PRUNE_EVERY_N_WRITES <=? writes
    then {| tc_entries := retain_live (tc_entries c) now; tc_poisoned := tc_poisoned c; tc_writes := 0; tc_writes_poisoned := false |}
    else {| tc_entries := tc_entries c; tc_poisoned := tc_poisoned c; tc_writes := writes; tc_writes_poisoned := false |}.

Definition cache_store (terms : CacheTerms) (c : TrustCache) (key : bytes) (outcome : CachedOutcome) (now ttl : Z) : TrustCache :=
  if tc_poisoned c then c
  else
    let c := sweep c now in
    let ceiling := e ← tc_entries c !! key; if ce_invalidated e then Some (ce_expires_at e) else None in
    match checked_add now ttl with
    | None => c
    | Some expires_at =>
        let expires_at := match ceiling with Some deadline => Z.min expires_at deadline | None => expires_at end in
        if expires_at <=? now then tc_with_entries c (delete key (tc_entries c))
        else if (ct_max_entries terms <=? size (tc_entries c))%nat && negb (is_some (tc_entries c !! key)) then c
        else tc_with_entries c (<[key := {| ce_outcome := outcome; ce_expires_at := expires_at; ce_invalidated := false |}]> (tc_entries c))
    end.

Definition cache_prune (c : TrustCache) (now : Z) : TrustCache :=
  if tc_poisoned c then c else tc_with_entries c (retain_live (tc_entries c) now).

Definition invalidate (e : CacheEntry) : CacheEntry :=
  {| ce_outcome := ce_outcome e; ce_expires_at := ce_expires_at e; ce_invalidated := true |}.

Definition evict (c : TrustCache) (signer key_id : bytes) (now : Z) : TrustCache * bool :=
  let key := compose_key signer key_id in
  if tc_poisoned c then (c, false)
  else match tc_entries c !! key with
       | None => (c, false)
       | Some e =>
           if ce_expires_at e <=? now then (tc_with_entries c (delete key (tc_entries c)), false)
           else if ce_invalidated e then (c, false)
           else (tc_with_entries c (<[key := invalidate e]> (tc_entries c)), true)
       end.

(** [usize::saturating_add] over the entries of a map does not saturate. *)
Definition clear (c : TrustCache) (now : Z) : TrustCache * nat :=
  if tc_poisoned c then (c, 0%nat)
  else
    let live := retain_live (tc_entries c) now in
    (tc_with_entries c (invalidate <$> live), size (filter (λ ke, ce_invalidated ke.2 = false) live)).

(** What [resolve] does with the inner resolver's answer. *)
Definition remember (terms : CacheTerms) (c : TrustCache) (key : bytes) (now : Z) (result : Result K TrustResolverError) : TrustCache :=
  match result with
  | Ok k => cache_store terms c key (CO_Active k) now (ct_t_secs terms)
  | Err Revoked => cache_store terms c key CO_Revoked now (ct_t_secs terms)
  | Err NotFound => cache_store terms c key CO_NotFound now (ct_negative_ttl_secs terms)
  | Err MalformedKey => cache_store terms c key CO_Malformed now (ct_negative_ttl_secs terms)
  | Err (TrustUnavailable _) => c
  end.

Definition cache_resolve (terms : CacheTerms) (inner : bytes → bytes → Result K TrustResolverError) (c : TrustCache)
    (signer key_id : bytes) (now : Z) : TrustCache * Result K TrustResolverError :=
  let key := compose_key signer key_id in
  match cached c key now with
  | Some hit => (c, hit)
  | None => let result := inner signer key_id in (remember terms c key now result, result)
  end.

(** ** [invalidation_channel.rs] *)

Inductive InvalidationEvent := Evict (signer key_id : bytes) | FlushAll.

(** The two mutexes with what they guard, and whether a panic poisoned them. *)
Record InMemoryInvalidationChannel := {
  ch_pending : list InvalidationEvent; ch_poisoned : bool;
  ch_healthy : bool; ch_healthy_poisoned : bool;
}.
Definition channel_new : InMemoryInvalidationChannel :=
  {| ch_pending := []; ch_poisoned := false; ch_healthy := true; ch_healthy_poisoned := false |}.
Definition with_pushed (ch : InMemoryInvalidationChannel) (pending : list InvalidationEvent) : InMemoryInvalidationChannel :=
  {| ch_pending := pending; ch_poisoned := ch_poisoned ch; ch_healthy := ch_healthy ch; ch_healthy_poisoned := ch_healthy_poisoned ch |}.
Definition channel_push (ch : InMemoryInvalidationChannel) (e : InvalidationEvent) : InMemoryInvalidationChannel :=
  if ch_poisoned ch then ch else with_pushed ch (ch_pending ch ++ [e]).
Definition push_revocation (ch : InMemoryInvalidationChannel) (signer key_id : bytes) := channel_push ch (Evict signer key_id).
Definition push_flush_all (ch : InMemoryInvalidationChannel) := channel_push ch FlushAll.
Definition drain_pending (ch : InMemoryInvalidationChannel) : InMemoryInvalidationChannel * list InvalidationEvent :=
  if ch_poisoned ch then (ch, []) else (with_pushed ch [], ch_pending ch).
Definition set_healthy (ch : InMemoryInvalidationChannel) (healthy : bool) : InMemoryInvalidationChannel :=
  if ch_healthy_poisoned ch then ch
  else {| ch_pending := ch_pending ch; ch_poisoned := ch_poisoned ch; ch_healthy := healthy; ch_healthy_poisoned := false |}.
Definition channel_is_healthy (ch : InMemoryInvalidationChannel) : bool := if ch_healthy_poisoned ch then false else ch_healthy ch.

(** ** [push_trust.rs] *)

Definition apply_event (c : TrustCache) (e : InvalidationEvent) (now : Z) : TrustCache * nat :=
  match e with
  | Evict signer key_id => let '(c, evicted) := evict c signer key_id now in (c, if evicted : bool then 1%nat else 0%nat)
  | FlushAll => clear c now
  end.
(** Each event with the clock's reading when it is applied. *)
Definition apply_pending_invalidations (c : TrustCache) (events : list (InvalidationEvent * Z)) : TrustCache * nat :=
  foldl (λ '(c, evicted) '(e, now), let '(c, n) := apply_event c e now in (c, (evicted + n)%nat)) (c, 0%nat) events.

Definition push_resolve (terms : CacheTerms) (inner : bytes → bytes → Result K TrustResolverError) (c : TrustCache)
    (events : list (InvalidationEvent * Z)) (signer key_id : bytes) (now : Z) : TrustCache * Result K TrustResolverError :=
  cache_resolve terms inner (fst (apply_pending_invalidations c events)) signer key_id now.

(** ** [live_trust.rs] *)

Definition live_resolve (inner : bytes → bytes → Result K TrustResolverError) (signer key_id : bytes) : Result K TrustResolverError :=
  inner signer key_id.
Definition resolve_with_revocation_id `{AuthorizationRevocationSource T} (inner : bytes → bytes → Result K TrustResolverError) (revocation : option T)
    (signer key_id revocation_id : bytes) : Result K TrustResolverError :=
  let? key := inner signer key_id in
  match revocation with
  | None => Ok key
  | Some revocation =>
      match revocation_status revocation revocation_id with
      | Ok AuthzPolicy.NotRevoked => Ok key
      | Ok AuthzPolicy.Revoked => Err Revoked
      | Err unavailable => Err (TrustUnavailable (b#"revocation source unavailable: " ++ ru_details unavailable))
      end
  end.

(** ** [revocation_resolver.rs]

    What a tier answers through: its terms and cache, over the store's own [resolve]. The events are
    what the push tier's channel held; the other tiers drain none. *)

Inductive TierResolver := TR_Bounded (terms : CacheTerms) (c : TrustCache) | TR_Live | TR_Push (terms : CacheTerms) (c : TrustCache).
Definition build_revocation_resolver (tier : RevocationTier) : TierResolver :=
  match tier with
  | BoundedCache t_secs => let '(terms, c) := cache_new t_secs DEFAULT_NEGATIVE_TTL_SECS in TR_Bounded terms c
  | Live => TR_Live
  | Push t_secs => let '(terms, c) := cache_new t_secs DEFAULT_NEGATIVE_TTL_SECS in TR_Push terms c
  end.
Definition tier_resolve (inner : bytes → bytes → Result K TrustResolverError) (r : TierResolver) (events : list (InvalidationEvent * Z))
    (signer key_id : bytes) (now : Z) : TierResolver * Result K TrustResolverError :=
  match r with
  | TR_Bounded terms c => let '(c, a) := cache_resolve terms inner c signer key_id now in (TR_Bounded terms c, a)
  | TR_Live => (TR_Live, live_resolve inner signer key_id)
  | TR_Push terms c => let '(c, a) := push_resolve terms inner c events signer key_id now in (TR_Push terms c, a)
  end.
End cache.
Arguments TierResolver K : clear implicits.
Arguments CachedOutcome K : clear implicits.
Arguments CacheEntry K : clear implicits.
Arguments TrustCache K : clear implicits.

(** ** [delivered_window.rs]

    The cadence as the plan has it: seconds, positive and a [u64], or none. *)

Definition store_change_cadence (cadence_secs : option Z) : bytes :=
  match cadence_secs with
  | Some secs => fmt_int secs ++ b#"s (--trust re-read on that cadence)"
  | None => b#"NONE: --trust is read once at startup, so the window above bounds CACHING only — the store itself changes only when every replica restarts"
  end.
Definition delivered_revocation_window (tier : RevocationTier) (cadence_secs : option Z) : bytes :=
  match cadence_secs with
  | None => b#"UNBOUNDED: --trust is read once at startup, so a removed key keeps resolving until every replica restarts"
  | Some cadence =>
      let r := if cadence <=? i64_MAX then cadence else i64_MAX in
      match tier with
      | Live => b#"worst case " ++ fmt_int r ++ b#"s (the store cadence R=" ++ fmt_int r ++ b#"s; this tier caches no positive trust)"
      | BoundedCache t_secs | Push t_secs =>
          b#"worst case " ++ fmt_int (saturating_add r t_secs) ++ b#"s = R " ++ fmt_int r ++ b#"s + T " ++ fmt_int t_secs ++
          b#"s (the reload swaps the store but evicts nothing already cached, so a cached entry outlives the swap by a further T)"
      end
  end.

(** ** [trust_epoch.rs]

    Times are durations since one origin. The readings come from the reader, the locks recover
    from poisoning. *)

Record TrustEpochSource := {
  es_last_seen : option Z; es_healthy : bool; es_pending : list InvalidationEvent;
  es_last_poll : option Z; es_liveness_bound : option Z;
}.
Definition TrustEpochSource_new : TrustEpochSource :=
  {| es_last_seen := None; es_healthy := true; es_pending := []; es_last_poll := None; es_liveness_bound := None |}.
Definition TRUST_EPOCH_MISSED_POLLS_TOLERATED : Z := 3.
Definition require_polling_within (s : TrustEpochSource) (bound : Z) : TrustEpochSource :=
  {| es_last_seen := es_last_seen s; es_healthy := es_healthy s; es_pending := es_pending s; es_last_poll := es_last_poll s;
     es_liveness_bound := Some bound |}.
(** The bound the poller's body asks for before it is run. *)
Definition polling_bound (interval_secs : Z) : Z :=
  Z.min u64_MAX (Z.min u64_MAX (Z.max interval_secs 1 * TRUST_EPOCH_MISSED_POLLS_TOLERATED) + Z.max interval_secs 1).
Definition EpochReader_require_present (value : option Z) (epoch_key_debug : bytes) (epoch_key : bytes) : Result Z bytes :=
  ok_or value (b#"trust-epoch key " ++ epoch_key_debug ++ b#" does not exist. An absent key is NOT epoch 0: it is indistinguishable from a counter that was never created, was deleted, or was lost to a restore/eviction, and reading it as a baseline would leave the push kill switch inert or let a restarted replica mint under a rolled-back epoch. Seed it with SET " ++
    epoch_key ++ b#" 0 (or INCR it) before serving.").
Definition polled_recently (s : TrustEpochSource) (at_ : Z) : bool :=
  match es_liveness_bound s with
  | None => true
  | Some bound => match es_last_poll s with Some last => at_ - last <=? bound | None => false end
  end.
Definition report_poller_gone (s : TrustEpochSource) : TrustEpochSource :=
  {| es_last_seen := es_last_seen s; es_healthy := false; es_pending := es_pending s; es_last_poll := None; es_liveness_bound := es_liveness_bound s |}.
Definition poll_once (s : TrustEpochSource) (at_ : Z) (reading : option Z) : TrustEpochSource :=
  match reading with
  | None =>
      {| es_last_seen := es_last_seen s; es_healthy := false; es_pending := es_pending s; es_last_poll := Some at_; es_liveness_bound := es_liveness_bound s |}
  | Some epoch =>
      {| es_last_seen := Some epoch; es_healthy := true;
         es_pending := match es_last_seen s with
                       | Some prev => if negb (epoch =? prev) then es_pending s ++ [FlushAll] else es_pending s
                       | None => es_pending s
                       end;
         es_last_poll := Some at_; es_liveness_bound := es_liveness_bound s |}
  end.
Definition epoch_drain_pending (s : TrustEpochSource) : TrustEpochSource * list InvalidationEvent :=
  ({| es_last_seen := es_last_seen s; es_healthy := es_healthy s; es_pending := []; es_last_poll := es_last_poll s;
      es_liveness_bound := es_liveness_bound s |}, es_pending s).
Definition epoch_is_healthy (s : TrustEpochSource) (at_ : Z) : bool := polled_recently s at_ && es_healthy s.

(** ** [trust_document.rs] *)

Inductive TrustSlot := SlotRequest | SlotResponse | SlotAuthorizationIssuer.
#[global] Instance TrustSlot_eq_dec : EqDecision TrustSlot.
Proof. solve_decision. Defined.
Definition TrustSlot_try_from (name : bytes) : option TrustSlot :=
  if bytes_eqb name b#"request" then Some SlotRequest
  else if bytes_eqb name b#"response" then Some SlotResponse
  else if bytes_eqb name b#"authorization-issuer" then Some SlotAuthorizationIssuer else None.

Record RawEntry := { re_signer : bytes; re_key_id : bytes; re_public_key : bytes; re_slots : option (list TrustSlot) }.

Section document.
Context `{Base64, Ed25519}.

Record TrustEntry := { te_signer : bytes; te_key_id : bytes; te_key : VerificationKey; te_slots : option (list TrustSlot) }.
Definition te_lists (e : TrustEntry) (slot : TrustSlot) : bool :=
  match te_slots e with Some s => bool_decide (slot ∈ s) | None => false end.

Definition duplicate_entry (prior : TrustEntry) (signer key_id : bytes) : bytes :=
  if bytes_eqb (te_signer prior) signer
  then b#"trust file: duplicate entry for " ++ signer ++ b#"#" ++ key_id ++ b#" (last-write-wins key substitution refused)"
  else b#"trust file: duplicate key_id " ++ key_id ++ b#" enrolled for " ++ te_signer prior ++ b#" and " ++ signer ++
       b#": a request signer is resolved by key_id alone, so the document is ambiguous (last-write-wins signer substitution refused)".

(** The loop of [parse], over the entries serde gave. *)
Fixpoint parse_entries (raw : list RawEntry) (entries : list TrustEntry) : Result (list TrustEntry) bytes :=
  match raw with
  | [] => Ok entries
  | r :: raw =>
      match List.find (λ e, bytes_eqb (te_key_id e) (re_key_id r)) entries with
      | Some prior => Err (duplicate_entry prior (re_signer r) (re_key_id r))
      | None =>
          let? key := map_err (λ _, b#"trust entry " ++ re_signer r ++ b#"#" ++ re_key_id r ++ b#": invalid public_key")
                        (VerificationKey_from_b64url (re_public_key r)) in
          parse_entries raw (entries ++ [{| te_signer := re_signer r; te_key_id := re_key_id r; te_key := key; te_slots := re_slots r |}])
      end
  end.
Definition TrustDocument_parse (from_slice_entries : bytes → Result (list RawEntry) bytes) (content : bytes) : Result (list TrustEntry) bytes :=
  let? raw := map_err (λ e, b#"trust file: " ++ e) (from_slice_entries content) in
  parse_entries raw [].

Definition document_resolver (entries : list TrustEntry) : InMemoryTrustResolver VerificationKey :=
  foldl (λ r e, resolver_insert r (te_signer e) (te_key_id e) (te_key e)) InMemoryTrustResolver_new entries.
Definition request_signers (entries : list TrustEntry) (response_kid : bytes) : gmap bytes bytes :=
  foldl (λ m e, if negb (bytes_eqb (te_key_id e) response_kid) && (negb (is_some (te_slots e)) || te_lists e SlotRequest)
                then <[te_key_id e := te_signer e]> m else m) ∅ entries.
Definition authorization_issuers (entries : list TrustEntry) (response_kid : bytes) : gmap bytes EnrolledAuthority :=
  foldl (λ m e, if negb (bytes_eqb (te_key_id e) response_kid) && te_lists e SlotAuthorizationIssuer
                then <[te_key_id e := {| ea_name := te_signer e; ea_key := te_key e |}]> m else m) ∅ entries.
End document.

(** ** [snapshot.rs], [reloading_trust.rs], [freshness.rs], [reload] *)

Definition MAX_TRUST_DOCUMENT_BYTES : Z := 1024 * 1024.

Section plane.
Context `{Base64, Ed25519}.

(** The file's first bytes, up to one past the bound, as they were read. *)
Definition read_bounded (trust_path : bytes) (read : Result bytes bytes) : Result bytes bytes :=
  let? content := map_err (λ e, trust_path ++ b#": " ++ e) read in
  if MAX_TRUST_DOCUMENT_BYTES <? Z.of_nat (length content)
  then Err (trust_path ++ b#": trust document exceeds the " ++ fmt_int MAX_TRUST_DOCUMENT_BYTES ++
            b#"-byte read bound and was refused rather than read into memory. This read also runs on the --trust reload cadence, inside the serving process.")
  else Ok content.

Record TrustSnapshot := { sn_resolver : InMemoryTrustResolver VerificationKey; sn_signers : gmap bytes bytes }.

Definition read_trust_file (from_slice_entries : bytes → Result (list RawEntry) bytes) (trust_path response_kid : bytes) (read : Result bytes bytes)
    : Result TrustSnapshot bytes :=
  let? content := read_bounded trust_path read in
  let? document := TrustDocument_parse from_slice_entries content in
  Ok {| sn_resolver := document_resolver document; sn_signers := request_signers document response_kid |}.

Definition signer_for (s : TrustSnapshot) (key_id : bytes) : option bytes := sn_signers s !! key_id.
Definition snapshot_resolve (s : TrustSnapshot) (signer key_id : bytes) : Result VerificationKey TrustResolverError :=
  in_memory_resolve (sn_resolver s) signer key_id.

Record TrustStoreFreshness := { fr_stale : bool; fr_terminal : bool }.
Definition freshness_default : TrustStoreFreshness := {| fr_stale := false; fr_terminal := false |}.
Definition mark_stale (f : TrustStoreFreshness) : TrustStoreFreshness := {| fr_stale := true; fr_terminal := fr_terminal f |}.
Definition mark_stale_permanently (f : TrustStoreFreshness) : TrustStoreFreshness := mark_stale {| fr_stale := fr_stale f; fr_terminal := true |}.
Definition mark_fresh (f : TrustStoreFreshness) : TrustStoreFreshness :=
  if fr_terminal f then f else {| fr_stale := false; fr_terminal := fr_terminal f |}.
Definition is_stale (f : TrustStoreFreshness) : bool := fr_terminal f || fr_stale f.

(** [StaleFailsClosed::resolve], over any resolver: what it would answer, and its state. *)
Definition stale_fails_closed {A} (f : TrustStoreFreshness) (inner : A * Result VerificationKey TrustResolverError) (unchanged : A)
    : A * Result VerificationKey TrustResolverError :=
  if is_stale f
  then (unchanged, Err (TrustUnavailable b#"nothing is maintaining the trust store: either --trust has not been re-read successfully for several cadences, or the trust plane that owned the refresh is gone. A key revoked in --trust would still resolve from the frozen snapshot, so verification fails closed"))
  else inner.

(** What [materialize] puts together: the latch over the tier over the store. *)
Definition plane_resolve (f : TrustStoreFreshness) (store : TrustSnapshot) (r : TierResolver VerificationKey) (events : list (InvalidationEvent * Z))
    (signer key_id : bytes) (now : Z) : TierResolver VerificationKey * Result VerificationKey TrustResolverError :=
  stale_fails_closed f (tier_resolve (snapshot_resolve store) r events signer key_id now) r.

Definition TRUST_RELOAD_FAILURE_BUDGET : Z := 5.
Definition u32_MAX : Z := 2 ^ 32 - 1.

Record Reloading := { rl_store : TrustSnapshot; rl_freshness : TrustStoreFreshness; rl_failures : Z }.
Definition trust_reload_cycle (s : Reloading) (read : Result TrustSnapshot bytes) : Reloading :=
  match read with
  | Ok snapshot => {| rl_store := snapshot; rl_freshness := mark_fresh (rl_freshness s); rl_failures := 0 |}
  | Err _ =>
      let failures := Z.min (rl_failures s + 1) u32_MAX in
      {| rl_store := rl_store s;
         rl_freshness := if TRUST_RELOAD_FAILURE_BUDGET <=? failures then mark_stale (rl_freshness s) else rl_freshness s;
         rl_failures := failures |}
  end.
(** The loop when it is halted, its panic, and the plane's drop all retire the store. *)
Definition trust_retire (s : Reloading) : Reloading :=
  {| rl_store := rl_store s; rl_freshness := mark_stale_permanently (rl_freshness s); rl_failures := rl_failures s |}.
End plane.
