(* ===== verification/TrustWindow.v ===== *)
(** * What the trust plane promises of a revoked key

    Any number of requests resolve through one cache while the store behind it changes, the clock
    advances and invalidations arrive; every lock is held for one step. A cached answer is never
    older than the window, in every interleaving. An invalidation takes effect at once when nothing
    is being resolved, and can be lost to a resolution that is. *)

From S2P Require Import Prelude.
From S2P Require Import RustStr.
From S2P Require Import Externals.
From S2P Require Import CoreError.
From S2P Require Import CoreResolver.
From S2P Require Import TrustPlane.

Section window.
Context {K : Type}.
Local Notation Answered := (Result K TrustResolverError).
Local Notation TrustStore := (bytes → bytes → Answered).

(** ** The system

    [PushInvalidationTrustCache::resolve] of a request, lock by lock: drained, applying, the clock
    read, looked up, the inner store asked, the answer remembered. *)

Inductive Resolution :=
  | Applying (events : list InvalidationEvent)
  | Looking (now : Z)
  | Asking (now : Z)
  | Fetched (now : Z) (result : Answered).
Record Request := { rq_signer : bytes; rq_key_id : bytes; rq_at : Resolution }.

(** [sy_reads]: what the store answered, and the clock then; [sy_answers]: what requests were
    answered, with the clock's reading each used. *)
Record System := {
  sy_clock : Z; sy_store : TrustStore; sy_cache : TrustCache K; sy_pending : list InvalidationEvent;
  sy_requests : gmap nat Request;
  sy_reads : list (Z * bytes * bytes * Answered); sy_answers : list (Z * bytes * bytes * Answered);
}.

Context (terms : CacheTerms).

Definition at_request (i : nat) (r : option Request) (st : System) : System :=
  {| sy_clock := sy_clock st; sy_store := sy_store st; sy_cache := sy_cache st; sy_pending := sy_pending st;
     sy_requests := match r with Some r => <[i := r]> (sy_requests st) | None => delete i (sy_requests st) end;
     sy_reads := sy_reads st; sy_answers := sy_answers st |}.
Definition with_cache (c : TrustCache K) (st : System) : System :=
  {| sy_clock := sy_clock st; sy_store := sy_store st; sy_cache := c; sy_pending := sy_pending st;
     sy_requests := sy_requests st; sy_reads := sy_reads st; sy_answers := sy_answers st |}.
Definition with_pending (pending : list InvalidationEvent) (st : System) : System :=
  {| sy_clock := sy_clock st; sy_store := sy_store st; sy_cache := sy_cache st; sy_pending := pending;
     sy_requests := sy_requests st; sy_reads := sy_reads st; sy_answers := sy_answers st |}.
Definition with_read (signer key_id : bytes) (st : System) : System :=
  {| sy_clock := sy_clock st; sy_store := sy_store st; sy_cache := sy_cache st; sy_pending := sy_pending st;
     sy_requests := sy_requests st; sy_reads := (sy_clock st, signer, key_id, sy_store st signer key_id) :: sy_reads st; sy_answers := sy_answers st |}.
Definition with_answer (now : Z) (signer key_id : bytes) (a : Answered) (st : System) : System :=
  {| sy_clock := sy_clock st; sy_store := sy_store st; sy_cache := sy_cache st; sy_pending := sy_pending st;
     sy_requests := sy_requests st; sy_reads := sy_reads st; sy_answers := (now, signer, key_id, a) :: sy_answers st |}.

(** The clock's readings do not go back: an assumption on the [SystemTime] the cache is read with. *)
Inductive trust_event :=
  | Tick (secs : Z)
  | Publish (store : TrustStore)
  | Pushed (e : InvalidationEvent)
  | Begin (i : nat) (signer key_id : bytes)
  | Advance (i : nat).

(** One step, and nothing when the event does not fit. *)
Definition trust_step (ev : trust_event) (st : System) : System :=
  match ev with
  | Tick secs =>
      {| sy_clock := sy_clock st + Z.max 0 secs; sy_store := sy_store st; sy_cache := sy_cache st; sy_pending := sy_pending st;
         sy_requests := sy_requests st; sy_reads := sy_reads st; sy_answers := sy_answers st |}
  | Publish store =>
      {| sy_clock := sy_clock st; sy_store := store; sy_cache := sy_cache st; sy_pending := sy_pending st;
         sy_requests := sy_requests st; sy_reads := sy_reads st; sy_answers := sy_answers st |}
  | Pushed e => with_pending (sy_pending st ++ [e]) st
  | Begin i signer key_id =>
      match sy_requests st !! i with
      | Some _ => st
      | None => at_request i (Some {| rq_signer := signer; rq_key_id := key_id; rq_at := Applying (sy_pending st) |}) (with_pending [] st)
      end
  | Advance i =>
      match sy_requests st !! i with
      | None => st
      | Some r =>
          let go a := Some {| rq_signer := rq_signer r; rq_key_id := rq_key_id r; rq_at := a |} in
          let key := compose_key (rq_signer r) (rq_key_id r) in
          match rq_at r with
          | Applying (e :: events) => at_request i (go (Applying events)) (with_cache (fst (apply_event (sy_cache st) e (sy_clock st))) st)
          | Applying [] => at_request i (go (Looking (sy_clock st))) st
          | Looking now =>
              match cached (sy_cache st) key now with
              | Some hit => at_request i None (with_answer now (rq_signer r) (rq_key_id r) hit st)
              | None => at_request i (go (Asking now)) st
              end
          | Asking now => at_request i (go (Fetched now (sy_store st (rq_signer r) (rq_key_id r)))) (with_read (rq_signer r) (rq_key_id r) st)
          | Fetched now result =>
              at_request i None (with_answer now (rq_signer r) (rq_key_id r) result (with_cache (remember terms (sy_cache st) key now result) st))
          end
      end
  end.
Definition trust_run (events : list trust_event) (st : System) : System := foldl (λ st ev, trust_step ev st) st events.
Definition trust_start (clock : Z) (store : TrustStore) (c : TrustCache K) : System :=
  {| sy_clock := clock; sy_store := store; sy_cache := c; sy_pending := []; sy_requests := ∅; sy_reads := []; sy_answers := [] |}.

(** ** The invariant *)

Definition read_at_least (st : System) (signer key_id : bytes) (result : Answered) (since : Z) : Prop :=
  ∃ r, (r, signer, key_id, result) ∈ sy_reads st ∧ since ≤ r.

(** An active entry is of a read no older than the window before its expiry. *)
Definition entry_backed (st : System) (key : bytes) (e : CacheEntry K) : Prop :=
  ∀ k, ce_outcome e = CO_Active k →
  ∃ signer key_id, key = compose_key signer key_id ∧ read_at_least st signer key_id (Ok k) (ce_expires_at e - ct_t_secs terms).

Definition request_backed (st : System) (r : Request) : Prop :=
  match rq_at r with
  | Applying _ => True
  | Looking now | Asking now => now ≤ sy_clock st
  | Fetched now result => read_at_least st (rq_signer r) (rq_key_id r) result now
  end.

Record trust_inv (st : System) : Prop := {
  ti_entries : map_Forall (entry_backed st) (tc_entries (sy_cache st));
  ti_requests : map_Forall (λ _ r, request_backed st r) (sy_requests st);
  ti_reads : ∀ r signer key_id a, (r, signer, key_id, a) ∈ sy_reads st → r ≤ sy_clock st;
  ti_answers : ∀ now signer key_id k, (now, signer, key_id, Ok k) ∈ sy_answers st →
    ∃ r, (r, signer, key_id, Ok k) ∈ sy_reads st ∧ (now ≤ r ∨ now < r + ct_t_secs terms);
}.

(** ** The cache's operations keep an expiry or bring it forward *)

Definition entries_from (st : System) (old new : gmap bytes (CacheEntry K)) : Prop :=
  ∀ key e, new !! key = Some e →
    (∃ e0, old !! key = Some e0 ∧ ce_outcome e = ce_outcome e0 ∧ ce_expires_at e = ce_expires_at e0) ∨ entry_backed st key e.

Lemma entries_from_backed st old new : map_Forall (entry_backed st) old → entries_from st old new → map_Forall (entry_backed st) new.
Proof.
  intros Ho Hf key e He. destruct (Hf key e He) as [(e0 & H0 & Eo & Ee)|Hb]; [|done].
  intros k Ek. rewrite Ee. apply (Ho key e0 H0). by rewrite <-Eo.
Qed.
Lemma retain_live_lookup (m : gmap bytes (CacheEntry K)) now key e : retain_live m now !! key = Some e → m !! key = Some e.
Proof. unfold retain_live. intros He. by apply map_lookup_filter_Some in He as [? _]. Qed.

Lemma evict_entries st (c : TrustCache K) signer key_id now : entries_from st (tc_entries c) (tc_entries (fst (evict c signer key_id now))).
Proof.
  unfold evict. destruct (tc_poisoned c); [cbn; intros key e ?; left; eauto|].
  destruct (tc_entries c !! compose_key signer key_id) as [e0|] eqn:E0; [|cbn; intros key e ?; left; eauto].
  destruct (ce_expires_at e0 <=? now); [cbn; intros key e [_ ?]%lookup_delete_Some; left; eauto|].
  destruct (ce_invalidated e0); [cbn; intros key e ?; left; eauto|].
  cbn. intros key e [[<- <-]|[_ ?]]%lookup_insert_Some; left; eauto.
Qed.
Lemma clear_entries st (c : TrustCache K) now : entries_from st (tc_entries c) (tc_entries (fst (clear c now))).
Proof.
  unfold clear. destruct (tc_poisoned c); [cbn; intros key e ?; left; eauto|]. cbn.
  intros key e He. apply lookup_fmap_Some in He as (e0 & <- & He0). apply retain_live_lookup in He0. left. eauto.
Qed.
Lemma apply_event_entries st (c : TrustCache K) e now : entries_from st (tc_entries c) (tc_entries (fst (apply_event c e now))).
Proof.
  destruct e as [signer key_id|]; cbn; [|apply clear_entries].
  pose proof (evict_entries st c signer key_id now) as He. by destruct (evict c signer key_id now).
Qed.

Lemma sweep_entries (c : TrustCache K) now key e : tc_entries (sweep c now) !! key = Some e → tc_entries c !! key = Some e.
Proof.
  unfold sweep. destruct (tc_writes_poisoned c); [done|]. destruct (_ <=? _); [|done]. cbn. apply retain_live_lookup.
Qed.

Lemma cache_store_entries (c : TrustCache K) key outcome now ttl k e : tc_entries (cache_store terms c key outcome now ttl) !! k = Some e →
  tc_entries c !! k = Some e ∨ (k = key ∧ ce_outcome e = outcome ∧ ce_expires_at e ≤ now + ttl).
Proof.
  unfold cache_store. destruct (tc_poisoned c); [auto|]. set (c' := sweep c now).
  assert (∀ e, tc_entries c' !! k = Some e → tc_entries c !! k = Some e) as Hsw by (intros e'; apply sweep_entries).
  destruct (checked_add now ttl) as [ex|] eqn:Eadd; [|intros He; left; auto].
  assert (ex = now + ttl) as -> by (unfold checked_add, checked_i64 in Eadd; destruct (in_i64 _); [by injection Eadd|done]).
  set (ceiling := (_ ← tc_entries c' !! key; _) : option Z). set (expires := match ceiling with Some d => Z.min (now + ttl) d | None => now + ttl end).
  assert (expires ≤ now + ttl) as Hex by (unfold expires; destruct ceiling; lia).
  destruct (expires <=? now); [cbn; intros [_ ?]%lookup_delete_Some; left; auto|].
  destruct (_ && _); [intros; left; auto|]. cbn. intros [[<- <-]|[_ ?]]%lookup_insert_Some; [right; auto|left; auto].
Qed.

(** ** It is kept by every step *)

Definition extends (st st' : System) : Prop := (∀ x, x ∈ sy_reads st → x ∈ sy_reads st') ∧ sy_clock st ≤ sy_clock st'.
Lemma read_extends st st' signer key_id a since : extends st st' → read_at_least st signer key_id a since → read_at_least st' signer key_id a since.
Proof. intros [Hr _] (r & Hin & Hs). exists r. auto. Qed.
Lemma entry_extends st st' key e : extends st st' → entry_backed st key e → entry_backed st' key e.
Proof. intros Hx He k Hk. destruct (He k Hk) as (signer & key_id & -> & Hr). exists signer, key_id. split; [done|]. by eapply read_extends. Qed.
Lemma request_extends st st' r : extends st st' → request_backed st r → request_backed st' r.
Proof.
  intros Hx. unfold request_backed. destruct (rq_at r); [done|..]; [destruct Hx; lia..|]. by apply read_extends.
Qed.

(** A step that reads nothing new. *)
Lemma trust_inv_step st st' : trust_inv st → sy_reads st' = sy_reads st → sy_clock st ≤ sy_clock st' →
  map_Forall (entry_backed st') (tc_entries (sy_cache st')) → map_Forall (λ _ r, request_backed st' r) (sy_requests st') →
  (∀ now signer key_id k, (now, signer, key_id, Ok k) ∈ sy_answers st' →
     (now, signer, key_id, Ok k) ∈ sy_answers st ∨
     ∃ r, (r, signer, key_id, Ok k) ∈ sy_reads st ∧ (now ≤ r ∨ now < r + ct_t_secs terms)) → trust_inv st'.
Proof.
  intros Hi Er Ec He Hq Ha. split; [done|done|..]; rewrite Er.
  - intros r signer key_id a Hin. etrans; [by eapply (ti_reads _ Hi)|done].
  - intros now signer key_id k Hin. destruct (Ha _ _ _ _ Hin) as [Hin'|?]; [by apply (ti_answers _ Hi)|done].
Qed.

Lemma extends_refl_reads st st' : sy_reads st' = sy_reads st → sy_clock st ≤ sy_clock st' → extends st st'.
Proof. intros E Hc. split; [by rewrite E|done]. Qed.

Lemma requests_insert st i r : map_Forall (λ _ r, request_backed st r) (sy_requests st) → request_backed st r →
  map_Forall (λ _ r, request_backed st r) (<[i := r]> (sy_requests st)).
Proof. intros Hq Hr. by apply map_Forall_insert_2. Qed.

Lemma hit_backed st signer key_id now k : trust_inv st → cached (sy_cache st) (compose_key signer key_id) now = Some (Ok k) →
  ∃ r, (r, signer, key_id, Ok k) ∈ sy_reads st ∧ now < r + ct_t_secs terms.
Proof.
  intros Hi. unfold cached. destruct (tc_poisoned _); [done|].
  destruct (tc_entries (sy_cache st) !! compose_key signer key_id) as [e|] eqn:Ee; [|done]. cbn [mbind option_bind].
  destruct (ce_invalidated e); [done|]. destruct (now <? ce_expires_at e) eqn:En; [|done]. apply Z.ltb_lt in En. intros [= Hk].
  assert (ce_outcome e = CO_Active k) as Eo by (destruct (ce_outcome e); cbn in Hk; congruence).
  destruct (ti_entries _ Hi _ _ Ee k Eo) as (s' & k' & Ekey & (r & Hr & Hs)). apply compose_key_inj in Ekey as [<- <-].
  exists r. split; [done|lia].
Qed.

Lemma remember_backed st c key now signer key_id result : map_Forall (entry_backed st) (tc_entries c) → key = compose_key signer key_id →
  read_at_least st signer key_id result now → map_Forall (entry_backed st) (tc_entries (remember terms c key now result)).
Proof.
  intros Hc -> Hr k e He. unfold remember in He.
  assert (∀ o ttl, tc_entries (cache_store terms c (compose_key signer key_id) o now ttl) !! k = Some e →
    (∀ x, o = CO_Active x → ttl = ct_t_secs terms ∧ result = Ok x) → entry_backed st k e) as Hstore.
  { intros o ttl Hs Ho. apply cache_store_entries in Hs as [Hs|(-> & Eo & Hex)]; [by apply (Hc k e Hs)|].
    intros x Ex. destruct (Ho x) as [-> ->]; [congruence|]. exists signer, key_id. split; [done|].
    destruct Hr as (r & Hin & Hsince). exists r. split; [done|lia]. }
  destruct result as [v|[| | |d]].
  - by apply (Hstore _ _ He); intros x [= ->].
  - by apply (Hstore _ _ He).
  - by apply (Hstore _ _ He).
  - by apply (Hstore _ _ He).
  - by apply (Hc k e He).
Qed.

Lemma trust_step_inv ev st : trust_inv st → trust_inv (trust_step ev st).
Proof.
  intros Hi. assert (∀ st', extends st st' → map_Forall (entry_backed st') (tc_entries (sy_cache st))) as Hent.
  { intros st' Hx k e He. eapply entry_extends; [done|]. by apply (ti_entries _ Hi). }
  assert (∀ st', extends st st' → map_Forall (λ _ r, request_backed st' r) (sy_requests st)) as Hreq.
  { intros st' Hx k r Hr. eapply request_extends; [done|]. by apply (ti_requests _ Hi k). }
  destruct ev as [secs|store|e|i signer key_id|i]; cbn [trust_step].
  - apply (trust_inv_step st); [done|done|cbn; lia|..]; cbn; [apply Hent|apply Hreq|auto]; (split; [done|cbn; lia]).
  - apply (trust_inv_step st); [done|done|done|..]; cbn; [apply Hent|apply Hreq|auto]; (split; [done|cbn; lia]).
  - apply (trust_inv_step st); [done|done|done|..]; cbn; [apply Hent|apply Hreq|auto]; (split; [done|cbn; lia]).
  - destruct (sy_requests st !! i); [done|].
    apply (trust_inv_step st); [done|done|done|..]; cbn; [apply Hent; split; [done|cbn; lia]| |auto].
    apply map_Forall_insert_2; [done|]. apply Hreq. split; [done|cbn; lia].
  - destruct (sy_requests st !! i) as [r|] eqn:Er; [|done]. pose proof (ti_requests _ Hi _ _ Er) as Hr. cbn beta in Hr. unfold request_backed in Hr.
    destruct (rq_at r) as [[|e events]|now|now|now result].
    + apply (trust_inv_step st); [done|done|done|..]; cbn; [apply Hent; split; [done|cbn; lia]| |auto].
      apply map_Forall_insert_2; [cbn; lia|]. apply Hreq. split; [done|cbn; lia].
    + apply (trust_inv_step st); [done|done|done|..]; cbn; [| |auto].
      * eapply entries_from_backed; [|apply apply_event_entries]. apply Hent. split; [done|cbn; lia].
      * apply map_Forall_insert_2; [done|]. apply Hreq. split; [done|cbn; lia].
    + destruct (cached (sy_cache st) _ now) as [hit|] eqn:Eh.
      * apply (trust_inv_step st); [done|done|done|..]; cbn; [apply Hent; split; [done|cbn; lia]| |].
        -- apply map_Forall_delete, Hreq. split; [done|cbn; lia].
        -- intros now' s' k' x [E|Hin]%elem_of_cons; [right|by left].
           injection E as -> -> -> <-. destruct (hit_backed _ _ _ _ _ Hi Eh) as (r' & Hin & Hlt). exists r'. auto.
      * apply (trust_inv_step st); [done|done|done|..]; cbn; [apply Hent; split; [done|cbn; lia]| |auto].
        apply map_Forall_insert_2; [done|]. apply Hreq. split; [done|cbn; lia].
    + set (st' := at_request _ _ _). assert (extends st st') as Hx by (split; [intros x Hx; by right|cbn; lia]).
      split; [by apply Hent|..].
      * apply map_Forall_insert_2; [|by apply Hreq]. cbn. exists (sy_clock st). split; [by left|done].
      * intros r' s' k' a [[= -> -> -> ->]|Hin]%elem_of_cons; [cbn; lia|]. by eapply (ti_reads _ Hi).
      * intros now' s' k' x Hin. destruct (ti_answers _ Hi _ _ _ _ Hin) as (r' & Hin' & Hw). exists r'. split; [by right|done].
    + set (st' := at_request _ _ _). assert (extends st st') as Hx by (split; [done|cbn; lia]).
      apply (trust_inv_step st); [done|done|done|..]; cbn.
      * eapply remember_backed; [by apply Hent|done|]. by eapply read_extends.
      * apply map_Forall_delete. by apply Hreq.
      * intros now' s' k' x [E|Hin]%elem_of_cons; [right|by left].
        injection E as -> -> -> <-. destruct Hr as (r' & Hin & Hs). exists r'. auto.
Qed.
Lemma trust_run_inv events st : trust_inv st → trust_inv (trust_run events st).
Proof. revert st. induction events as [|ev events IH]; intros st Hi; [done|]. cbn. apply IH. by apply trust_step_inv. Qed.
Lemma trust_start_inv clock store c : tc_entries c = ∅ → trust_inv (trust_start clock store c).
Proof. intros E. split; cbn; [by rewrite E|done|..]; intros *; set_solver. Qed.

(** ** What is read once the store has stopped answering with a key *)

Definition store_quiet (signer key_id : bytes) (key : K) (store : TrustStore) : Prop := store signer key_id ≠ Ok key.
Definition event_quiet (signer key_id : bytes) (key : K) (ev : trust_event) : Prop :=
  match ev with Publish store => store_quiet signer key_id key store | _ => True end.

Lemma trust_step_quiet signer key_id key ev st : event_quiet signer key_id key ev → store_quiet signer key_id key (sy_store st) →
  store_quiet signer key_id key (sy_store (trust_step ev st)) ∧
  (∀ r, (r, signer, key_id, Ok key) ∈ sy_reads (trust_step ev st) → (r, signer, key_id, Ok key) ∈ sy_reads st).
Proof.
  intros He Hs. destruct ev as [secs|store|e|i signer' key_id'|i]; cbn [trust_step]; [done|done|done|..].
  - by destruct (sy_requests st !! i).
  - destruct (sy_requests st !! i) as [r|]; [|done].
    destruct (rq_at r) as [[|e events]|now|now|now result]; [done|done| |..|done].
    + by destruct (cached _ _ now).
    + split; [done|]. intros r' [[= _ E1 E2 E3]|Hin]%elem_of_cons; [|done]. unfold store_quiet in Hs. congruence.
Qed.
Lemma trust_run_quiet signer key_id key events st : Forall (event_quiet signer key_id key) events → store_quiet signer key_id key (sy_store st) →
  ∀ r, (r, signer, key_id, Ok key) ∈ sy_reads (trust_run events st) → (r, signer, key_id, Ok key) ∈ sy_reads st.
Proof.
  revert st. induction events as [|ev events IH]; intros st Hev Hs r; [done|]. apply Forall_cons in Hev as [He Hev].
  destruct (trust_step_quiet _ _ _ _ _ He Hs) as [Hs' Hr]. cbn. intros Hin. apply Hr. by apply IH in Hin.
Qed.

(** C11: However many requests resolve through the cache at once, whatever invalidations are pushed
    or lost, and wherever the steps interleave, as long as the clock they read does not go back and
    [T] is at least one second: once the store no longer answers with a key for a signer's key id, no
    resolution that starts [T] seconds later or after is answered with it. *)
Theorem revoked_key_window clock store c before after signer key_id key now :
  tc_entries c = ∅ → 1 ≤ ct_t_secs terms →
  let st := trust_run before (trust_start clock store c) in
  store_quiet signer key_id key (sy_store st) → Forall (event_quiet signer key_id key) after →
  (now, signer, key_id, Ok key) ∈ sy_answers (trust_run after st) → now < sy_clock st + ct_t_secs terms.
Proof.
  intros Ec Ht st Hs Hev Hin.
  assert (trust_inv st) as Hi by (by apply trust_run_inv, trust_start_inv).
  destruct (ti_answers _ (trust_run_inv after st Hi) _ _ _ _ Hin) as (r & Hr & Hw).
  apply (trust_run_quiet _ _ _ _ _ Hev Hs) in Hr. apply (ti_reads _ Hi) in Hr. lia.
Qed.
End window.

(** ** An invalidation and a resolution at once *)

Section overtaken.
Context {K : Type} (terms : CacheTerms).
Local Notation Answered := (Result K TrustResolverError).

(** Request 0 has asked the store when the key is revoked; request 1 applies the invalidation and
    is told so; then request 0 remembers what it was answered, and request 2 is served it. *)
Definition lost_run (signer key_id : bytes) (revoked : bytes → bytes → Answered) (e : InvalidationEvent) (later : Z) : list (trust_event (K:=K)) :=
  [Begin 0 signer key_id; Advance 0; Advance 0; Advance 0; Publish revoked; Pushed e;
   Begin 1 signer key_id; Advance 1; Advance 1; Advance 1; Advance 1; Advance 1; Advance 0;
   Tick later; Begin 2 signer key_id; Advance 2; Advance 2].

(** One step from a state in full. *)
Local Notation system := (Build_System (K:=K)).
Local Notation at_ s k a := {| rq_signer := s; rq_key_id := k; rq_at := a |}.

Lemma run_tick secs events clock store c pending rqs reads answers :
  trust_run terms (Tick secs :: events) (system clock store c pending rqs reads answers) =
  trust_run terms events (system (clock + Z.max 0 secs) store c pending rqs reads answers).
Proof. done. Qed.
Lemma run_publish store' events clock store c pending rqs reads answers :
  trust_run terms (Publish store' :: events) (system clock store c pending rqs reads answers) =
  trust_run terms events (system clock store' c pending rqs reads answers).
Proof. done. Qed.
Lemma run_pushed e events clock store c pending rqs reads answers :
  trust_run terms (Pushed e :: events) (system clock store c pending rqs reads answers) =
  trust_run terms events (system clock store c (pending ++ [e]) rqs reads answers).
Proof. done. Qed.
Lemma run_begin i s k events clock store c pending rqs reads answers : rqs !! i = None →
  trust_run terms (Begin i s k :: events) (system clock store c pending rqs reads answers) =
  trust_run terms events (system clock store c [] (<[i := at_ s k (Applying pending)]> rqs) reads answers).
Proof. intros E. unfold trust_run. cbn [foldl trust_step sy_requests]. by rewrite E. Qed.
Lemma run_apply i s k e es events clock store c pending rqs reads answers : rqs !! i = Some (at_ s k (Applying (e :: es))) →
  trust_run terms (Advance i :: events) (system clock store c pending rqs reads answers) =
  trust_run terms events (system clock store (fst (apply_event c e clock)) pending (<[i := at_ s k (Applying es)]> rqs) reads answers).
Proof. intros E. unfold trust_run. cbn [foldl trust_step sy_requests]. by rewrite E. Qed.
Lemma run_applied i s k events clock store c pending rqs reads answers : rqs !! i = Some (at_ s k (Applying [])) →
  trust_run terms (Advance i :: events) (system clock store c pending rqs reads answers) =
  trust_run terms events (system clock store c pending (<[i := at_ s k (Looking clock)]> rqs) reads answers).
Proof. intros E. unfold trust_run. cbn [foldl trust_step sy_requests]. by rewrite E. Qed.
Lemma run_miss i s k now events clock store c pending rqs reads answers : rqs !! i = Some (at_ s k (Looking now)) → cached c (compose_key s k) now = None →
  trust_run terms (Advance i :: events) (system clock store c pending rqs reads answers) =
  trust_run terms events (system clock store c pending (<[i := at_ s k (Asking now)]> rqs) reads answers).
Proof. intros E Em. unfold trust_run. cbn [foldl trust_step sy_requests]. rewrite E. cbn [rq_at rq_signer rq_key_id sy_cache]. by rewrite Em. Qed.
Lemma run_hit i s k now a events clock store c pending rqs reads answers : rqs !! i = Some (at_ s k (Looking now)) → cached c (compose_key s k) now = Some a →
  trust_run terms (Advance i :: events) (system clock store c pending rqs reads answers) =
  trust_run terms events (system clock store c pending (delete i rqs) reads ((now, s, k, a) :: answers)).
Proof. intros E Em. unfold trust_run. cbn [foldl trust_step sy_requests]. rewrite E. cbn [rq_at rq_signer rq_key_id sy_cache]. by rewrite Em. Qed.
Lemma run_ask i s k now events clock store c pending rqs reads answers : rqs !! i = Some (at_ s k (Asking now)) →
  trust_run terms (Advance i :: events) (system clock store c pending rqs reads answers) =
  trust_run terms events (system clock store c pending (<[i := at_ s k (Fetched now (store s k))]> rqs) ((clock, s, k, store s k) :: reads) answers).
Proof. intros E. unfold trust_run. cbn [foldl trust_step sy_requests]. by rewrite E. Qed.
Lemma run_answer i s k now a events clock store c pending rqs reads answers : rqs !! i = Some (at_ s k (Fetched now a)) →
  trust_run terms (Advance i :: events) (system clock store c pending rqs reads answers) =
  trust_run terms events (system clock store (remember terms c (compose_key s k) now a) pending (delete i rqs) reads ((now, s, k, a) :: answers)).
Proof. intros E. unfold trust_run. cbn [foldl trust_step sy_requests]. by rewrite E. Qed.

Lemma lost_run_answers c c1 c2 clock store revoked signer key_id (key : K) e later :
  (∀ now, cached c (compose_key signer key_id) now = None) → fst (apply_event c e clock) = c →
  remember terms c (compose_key signer key_id) clock (Err Revoked) = c1 → remember terms c1 (compose_key signer key_id) clock (Ok key) = c2 →
  cached c2 (compose_key signer key_id) (clock + Z.max 0 later) = Some (Ok key) →
  store signer key_id = Ok key → revoked signer key_id = Err Revoked →
  let st := trust_run terms (lost_run signer key_id revoked e later) (trust_start clock store c) in
  sy_store st = revoked ∧ sy_pending st = [] ∧
  sy_answers st = [(clock + Z.max 0 later, signer, key_id, Ok key); (clock, signer, key_id, Ok key); (clock, signer, key_id, Err Revoked)].
Proof.
  intros Hc He Hc1 Hc2 Hhit Hs Hr. unfold lost_run.
  unfold trust_start.
  rewrite run_begin by done. erewrite run_applied by by simplify_map_eq. erewrite run_miss by (done || by simplify_map_eq).
  erewrite run_ask by by simplify_map_eq. rewrite Hs, run_publish, run_pushed. cbn [app]. rewrite run_begin by by simplify_map_eq.
  erewrite run_apply by by simplify_map_eq. rewrite He. erewrite run_applied by by simplify_map_eq. erewrite run_miss by (done || by simplify_map_eq).
  erewrite run_ask by by simplify_map_eq. rewrite Hr. erewrite run_answer by by simplify_map_eq. rewrite Hc1.
  erewrite run_answer by by simplify_map_eq. rewrite Hc2, run_tick. rewrite run_begin by by simplify_map_eq.
  erewrite run_applied by by simplify_map_eq. erewrite run_hit by (done || by simplify_map_eq). done.
Qed.
End overtaken.

Section lost.
Context {K : Type} (t_secs negative_ttl_secs : Z).
Local Notation Answered := (Result K TrustResolverError).

Definition new_terms : CacheTerms := fst (cache_new (K:=K) t_secs negative_ttl_secs).
Definition new_cache : TrustCache K := snd (cache_new t_secs negative_ttl_secs).

(** A first entry, and a second one of the same key over it. *)
Definition one_entry (key : bytes) (o : CachedOutcome K) (expires_at writes : Z) : TrustCache K :=
  {| tc_entries := {[key := {| ce_outcome := o; ce_expires_at := expires_at; ce_invalidated := false |}]};
     tc_poisoned := false; tc_writes := writes; tc_writes_poisoned := false |}.

Lemma first_store key o now ttl : 1 ≤ ttl → in_i64 (now + ttl) = true →
  cache_store new_terms new_cache key o now ttl = one_entry key o (now + ttl) 1.
Proof.
  intros Ht Hi. pose proof (lookup_empty (M:=gmap bytes) (A:=CacheEntry K) key) as Hl.
  unfold cache_store, sweep, new_cache, new_terms, checked_add, checked_i64.
  cbn [cache_new fst snd tc_entries tc_poisoned tc_writes tc_writes_poisoned ct_max_entries tc_with_entries].
  change (PRUNE_EVERY_N_WRITES <=? Z.min (0 + 1) u64_MAX) with false. cbn [tc_entries].
  rewrite Hi, Hl. cbn [mbind option_bind]. rewrite (proj2 (Z.leb_gt (now + ttl) now)) by lia.
  rewrite (map_size_empty (M:=gmap bytes)), (proj2 (Nat.leb_gt MAX_CACHE_ENTRIES 0)) by (unfold MAX_CACHE_ENTRIES; lia). done.
Qed.
Lemma second_store key o o' now ttl ttl' : 1 ≤ ttl → in_i64 (now + ttl) = true →
  cache_store new_terms (one_entry key o' (now + ttl') 1) key o now ttl = one_entry key o (now + ttl) 2.
Proof.
  intros Ht Hi. pose proof (lookup_singleton_eq (M:=gmap bytes) key {| ce_outcome := o'; ce_expires_at := now + ttl'; ce_invalidated := false |}) as Hl.
  unfold cache_store, sweep, one_entry, new_terms, checked_add, checked_i64.
  cbn [cache_new fst snd tc_entries tc_poisoned tc_writes tc_writes_poisoned ct_max_entries tc_with_entries].
  change (PRUNE_EVERY_N_WRITES <=? Z.min (1 + 1) u64_MAX) with false. cbn [tc_entries].
  rewrite Hi, Hl. cbn [mbind option_bind ce_invalidated is_some negb]. rewrite (proj2 (Z.leb_gt (now + ttl) now)) by lia.
  rewrite andb_false_r. unfold tc_with_entries. cbn [tc_poisoned tc_writes tc_writes_poisoned]. f_equal. apply insert_singleton_eq.
Qed.
Lemma one_entry_cached key o expires_at writes now : now < expires_at → cached (one_entry key o expires_at writes) key now = Some (to_result o).
Proof.
  intros Hn. unfold cached, one_entry. cbn [tc_poisoned tc_entries]. rewrite (lookup_singleton_eq (M:=gmap bytes)). cbn.
  by rewrite (proj2 (Z.ltb_lt now expires_at)).
Qed.
Lemma nothing_cached key now : cached new_cache key now = None.
Proof. unfold cached, new_cache. cbn [tc_poisoned tc_entries cache_new snd]. by rewrite (lookup_empty (M:=gmap bytes)). Qed.
Lemma nothing_to_invalidate e now : fst (apply_event new_cache e now) = new_cache.
Proof.
  destruct e as [signer key_id|]; cbn [apply_event].
  - unfold evict, new_cache. cbn [tc_poisoned tc_entries cache_new snd]. by rewrite (lookup_empty (M:=gmap bytes)).
  - unfold clear, new_cache, retain_live. cbn [tc_poisoned tc_entries cache_new snd fst]. rewrite (map_filter_empty (M:=gmap bytes)).
    done.
Qed.


(** C31: An invalidation is lost to a resolution under way. With any window of a second or more, and
    whatever is pushed once the key is revoked in the store, there is a run in which a request that
    applied the invalidation is told that the key is revoked, nothing is left pending, and a request
    that starts [T - 1] seconds later is answered with the revoked key all the same. *)
Theorem invalidation_overtaken clock store revoked signer key_id (key : K) e :
  1 ≤ t_secs → in_i64 (clock + t_secs) = true → store signer key_id = Ok key → revoked signer key_id = Err Revoked →
  ∃ before after, let st := trust_run new_terms (before ++ [Publish revoked; Pushed e] ++ after) (trust_start clock store new_cache) in
  sy_store st = revoked ∧ sy_pending st = [] ∧
  sy_answers st = [(clock + (t_secs - 1), signer, key_id, Ok key); (clock, signer, key_id, Ok key); (clock, signer, key_id, Err Revoked)].
Proof.
  intros Ht Hi Hs Hr. assert (ct_t_secs new_terms = t_secs) as ET by (unfold new_terms; cbn; lia).
  exists [Begin 0 signer key_id; Advance 0; Advance 0; Advance 0],
    [Begin 1 signer key_id; Advance 1; Advance 1; Advance 1; Advance 1; Advance 1; Advance 0; Tick (t_secs - 1); Begin 2 signer key_id; Advance 2; Advance 2].
  pose proof (lost_run_answers new_terms new_cache (one_entry (compose_key signer key_id) CO_Revoked (clock + t_secs) 1)
    (one_entry (compose_key signer key_id) (CO_Active key) (clock + t_secs) 2) clock store revoked signer key_id key e (t_secs - 1)) as Hrun.
  rewrite Z.max_r in Hrun by lia. apply Hrun; [apply nothing_cached|apply nothing_to_invalidate|..|done|done].
  - cbn [remember]. rewrite ET. by apply first_store.
  - cbn [remember]. rewrite ET. by apply second_store.
  - rewrite one_entry_cached by lia. done.
Qed.
End lost.

(** ** An invalidation with nothing under way *)

Section pending.
Context {K : Type}.

(** What is left under a key can no longer answer. *)
Definition silenced (c : TrustCache K) (key : bytes) : Prop := ∀ e, tc_entries c !! key = Some e → ce_invalidated e = true.
Definition names_binding (e : InvalidationEvent) (signer key_id : bytes) : Prop := e = Evict signer key_id ∨ e = FlushAll.

Lemma apply_event_poisoned (c : TrustCache K) e now : tc_poisoned (fst (apply_event c e now)) = tc_poisoned c.
Proof.
  destruct e as [signer key_id|]; cbn [apply_event]; unfold evict, clear; destruct (tc_poisoned c) eqn:E; try done.
  destruct (tc_entries c !! _) as [e|]; [|done]. destruct (_ <=? _); [done|]. by destruct (ce_invalidated e).
Qed.
Lemma apply_event_silent (c : TrustCache K) e now key : silenced c key → silenced (fst (apply_event c e now)) key.
Proof.
  intros Hs x. destruct e as [signer key_id|]; cbn [apply_event]; unfold evict, clear.
  - destruct (tc_poisoned c); [apply Hs|]. destruct (tc_entries c !! compose_key signer key_id) as [y|] eqn:Ey; [|apply Hs].
    destruct (_ <=? _); [cbn; intros [_ ?]%lookup_delete_Some; by apply Hs|]. destruct (ce_invalidated y); [apply Hs|].
    cbn. intros [[<- <-]|[_ ?]]%lookup_insert_Some; [done|by apply Hs].
  - destruct (tc_poisoned c); [apply Hs|]. cbn. intros (y & <- & _)%lookup_fmap_Some. done.
Qed.
Lemma apply_event_silences (c : TrustCache K) e now signer key_id : tc_poisoned c = false → names_binding e signer key_id →
  silenced (fst (apply_event c e now)) (compose_key signer key_id).
Proof.
  intros Hp [-> | ->] x; cbn [apply_event]; unfold evict, clear; rewrite Hp.
  - destruct (tc_entries c !! compose_key signer key_id) as [y|] eqn:Ey; [|cbn [fst]; by rewrite Ey].
    destruct (_ <=? _); [cbn; by intros [? _]%lookup_delete_Some|]. destruct (ce_invalidated y) eqn:Ei; [cbn [fst]; rewrite Ey; congruence|].
    cbn. rewrite lookup_insert_eq. by intros [= <-].
  - cbn. intros (y & <- & _)%lookup_fmap_Some. done.
Qed.

Lemma apply_pending_cons (c : TrustCache K) e now events : 
  fst (apply_pending_invalidations c ((e, now) :: events)) = fst (apply_pending_invalidations (fst (apply_event c e now)) events).
Proof.
  unfold apply_pending_invalidations. cbn [foldl]. destruct (apply_event c e now) as [c' n]. cbn [fst].
  generalize (0 + n)%nat as a. generalize 0%nat as b. revert c'. clear. induction events as [|[e now] events IH]; intros c' b a; [done|].
  cbn [foldl]. destruct (apply_event c' e now) as [c'' m]. apply IH.
Qed.
Lemma apply_pending_poisoned events (c : TrustCache K) : tc_poisoned (fst (apply_pending_invalidations c events)) = tc_poisoned c.
Proof.
  revert c. induction events as [|[e now] events IH]; intros c; [done|]. by rewrite apply_pending_cons, IH, apply_event_poisoned.
Qed.
Lemma apply_pending_silent events (c : TrustCache K) key : silenced c key → silenced (fst (apply_pending_invalidations c events)) key.
Proof.
  revert c. induction events as [|[e now] events IH]; intros c Hs; [done|]. rewrite apply_pending_cons. by apply IH, apply_event_silent.
Qed.
Lemma apply_pending_silences events (c : TrustCache K) signer key_id e now : tc_poisoned c = false → (e, now) ∈ events → names_binding e signer key_id →
  silenced (fst (apply_pending_invalidations c events)) (compose_key signer key_id).
Proof.
  revert c. induction events as [|[e' now'] events IH]; intros c Hp Hin Hn; [by apply elem_of_nil in Hin|]. rewrite apply_pending_cons.
  apply elem_of_cons in Hin as [[= <- <-]|Hin].
  - by apply apply_pending_silent, apply_event_silences.
  - apply IH; [by rewrite apply_event_poisoned|done|done].
Qed.

(** An entry that is live at every event stays, or is left with its deadline. *)
Definition deadline (c : TrustCache K) (key : bytes) (d : Z) : Prop := ∃ e, tc_entries c !! key = Some e ∧ ce_expires_at e = d.

Lemma retain_live_kept (m : gmap bytes (CacheEntry K)) now key e : m !! key = Some e → now < ce_expires_at e → retain_live m now !! key = Some e.
Proof. intros He Hn. unfold retain_live. apply map_lookup_filter_Some. split; [done|]. by apply Z.ltb_lt. Qed.
Lemma apply_event_deadline (c : TrustCache K) e now key d : deadline c key d → now < d → deadline (fst (apply_event c e now)) key d.
Proof.
  intros (x & Hx & Ed) Hn. destruct e as [signer key_id|]; cbn [apply_event]; unfold evict, clear.
  - destruct (tc_poisoned c); [by exists x|]. destruct (tc_entries c !! compose_key signer key_id) as [y|] eqn:Ey; [|by exists x].
    destruct (decide (compose_key signer key_id = key)) as [<-|Hne].
    + assert (y = x) as -> by congruence. rewrite (proj2 (Z.leb_gt _ _)) by lia. destruct (ce_invalidated x); [by exists x|].
      exists (invalidate x). cbn. by rewrite lookup_insert_eq.
    + exists x. split; [|done]. destruct (_ <=? _); [cbn; by rewrite lookup_delete_ne|]. destruct (ce_invalidated y); [done|].
      cbn. by rewrite lookup_insert_ne.
  - destruct (tc_poisoned c); [by exists x|]. exists (invalidate x). split; [|done]. cbn [fst tc_entries tc_with_entries].
    rewrite lookup_fmap. rewrite (retain_live_kept _ _ _ _ Hx) by lia. done.
Qed.
Lemma apply_pending_deadline events (c : TrustCache K) key d : deadline c key d → Forall (λ ev, ev.2 < d) events →
  deadline (fst (apply_pending_invalidations c events)) key d.
Proof.
  revert c. induction events as [|[e now] events IH]; intros c Hd Hev; [done|]. apply Forall_cons in Hev as [Hn Hev].
  rewrite apply_pending_cons. apply IH; [|done]. by apply apply_event_deadline.
Qed.

(** What is remembered over an entry that was invalidated inherits its deadline. *)
Lemma cache_store_deadline terms (c : TrustCache K) key o now ttl d e : silenced c key → deadline c key d → now < d →
  tc_entries (cache_store terms c key o now ttl) !! key = Some e → ce_expires_at e ≤ d.
Proof.
  intros Hs (x & Hx & Ed) Hn. unfold cache_store. destruct (tc_poisoned c); [intros He; assert (e = x) by congruence; subst; lia|].
  assert (tc_entries (sweep c now) !! key = Some x) as Hx'.
  { unfold sweep. destruct (tc_writes_poisoned c); [done|]. destruct (_ <=? _); [|done]. apply retain_live_kept; [done|lia]. }
  rewrite Hx'. cbn [mbind option_bind]. rewrite (Hs x Hx). destruct (checked_add now ttl) as [ex|]; [|intros He; assert (e = x) by congruence; subst; lia].
  destruct (_ <=? now); [cbn; by intros [? _]%lookup_delete_Some|]. cbn [is_some negb]. rewrite andb_false_r. cbn [tc_entries tc_with_entries].
  rewrite lookup_insert_eq. intros [= <-]. cbn. lia.
Qed.
Lemma remember_deadline terms (c : TrustCache K) key now result d e : silenced c key → deadline c key d → now < d →
  tc_entries (remember terms c key now result) !! key = Some e → ce_expires_at e ≤ d.
Proof.
  intros Hs Hd Hn. destruct result as [v|[| | |msg]]; cbn [remember]; [by apply cache_store_deadline..|].
  destruct Hd as (x & Hx & Ed). intros He. assert (e = x) by congruence. subst. lia.
Qed.

(** C34: One resolution that runs without interruption, no other request's step between its drain of the pending
    invalidations and its lookup: an invalidation that names the binding and is pending when the resolution starts
    takes effect for it. The answer is the store's own, whatever is cached; and where the entry cached before was
    still live when each pending invalidation was applied and at the lookup, what is cached afterwards expires no
    later than that entry. A poisoned cache answers with an error instead. *)
Theorem pending_invalidation_exact terms inner (c : TrustCache K) events signer key_id now e at_ :
  (e, at_) ∈ events → names_binding e signer key_id →
  let '(c', result) := push_resolve terms inner c events signer key_id now in
  match tc_poisoned c with
  | true => ∃ details, result = Err (TrustUnavailable details)
  | false => result = inner signer key_id
  end ∧
  (tc_poisoned c = false → ∀ old new, tc_entries c !! compose_key signer key_id = Some old →
     Forall (λ ev, ev.2 < ce_expires_at old) events → now < ce_expires_at old →
     tc_entries c' !! compose_key signer key_id = Some new → ce_expires_at new ≤ ce_expires_at old).
Proof.
  intros Hin Hn. unfold push_resolve, cache_resolve. set (c1 := fst (apply_pending_invalidations c events)).
  assert (tc_poisoned c1 = tc_poisoned c) as Hp by apply apply_pending_poisoned.
  destruct (tc_poisoned c) eqn:Ep; [unfold cached; rewrite Hp; split; [eauto|done]|].
  assert (silenced c1 (compose_key signer key_id)) as Hs by (by eapply apply_pending_silences).
  assert (cached c1 (compose_key signer key_id) now = None) as ->.
  { unfold cached. rewrite Hp. destruct (tc_entries c1 !! _) as [x|] eqn:Ex; [|done]. cbn. by rewrite (Hs x Ex). }
  split; [done|]. intros _ old new Hold Hev Hlive. apply remember_deadline; [done| |done].
  apply apply_pending_deadline; [by exists old|done].
Qed.
End pending.

(** ** Witnesses *)

Definition w_terms : CacheTerms := {| ct_t_secs := 60; ct_negative_ttl_secs := 5; ct_max_entries := 8 |}.
Definition w_empty : TrustCache nat := {| tc_entries := ∅; tc_poisoned := false; tc_writes := 0; tc_writes_poisoned := false |}.
Definition w_enrolled (signer key_id : bytes) : Result nat TrustResolverError := Ok 7%nat.
Definition w_revoked (signer key_id : bytes) : Result nat TrustResolverError := Err Revoked.
Definition w_before : list (trust_event (K:=nat)) :=
  [Begin 0 b#"did:a" b#"k"; Advance 0; Advance 0; Advance 0; Advance 0; Tick 10; Publish w_revoked].
Definition w_later : list (trust_event (K:=nat)) := [Tick 40; Begin 1 b#"did:a" b#"k"; Advance 1; Advance 1].

(** A request half a minute into the window is still served the key, and no request past it is. *)
Lemma revoked_key_window_witness :
  (150, b#"did:a", b#"k", Ok 7%nat) ∈ sy_answers (trust_run w_terms w_later (trust_run w_terms w_before (trust_start 100 w_enrolled w_empty))) ∧
  150 < sy_clock (trust_run w_terms w_before (trust_start 100 w_enrolled w_empty)) + 60.
Proof.
  assert ((150, b#"did:a", b#"k", Ok 7%nat) ∈ sy_answers (trust_run w_terms w_later (trust_run w_terms w_before (trust_start 100 w_enrolled w_empty)))) as Hin.
  { replace (sy_answers _) with [(150, b#"did:a", b#"k", Ok 7%nat : Result nat TrustResolverError); (100, b#"did:a", b#"k", Ok 7%nat)] by (vm_compute; reflexivity).
    by left. }
  split; [exact Hin|].
  apply (revoked_key_window w_terms 100 w_enrolled w_empty w_before w_later b#"did:a" b#"k" 7%nat 150); [reflexivity|done| |repeat constructor|exact Hin].
  vm_compute. intros E. discriminate E.
Defined.

Lemma invalidation_overtaken_witness :
  ∃ before after, let st := trust_run (new_terms (K:=nat) 60 5) (before ++ [Publish w_revoked; Pushed FlushAll] ++ after) (trust_start 100 w_enrolled (new_cache 60 5)) in
  sy_store st = w_revoked ∧ sy_pending st = [] ∧
  sy_answers st = [(159, b#"did:a", b#"k", Ok 7%nat); (100, b#"did:a", b#"k", Ok 7%nat); (100, b#"did:a", b#"k", Err Revoked)].
Proof. apply (invalidation_overtaken 60 5 100 w_enrolled w_revoked b#"did:a" b#"k" 7%nat FlushAll); [done|reflexivity|reflexivity|reflexivity]. Defined.

Definition w_cached : TrustCache nat :=
  {| tc_entries := {[compose_key b#"did:a" b#"k" := {| ce_outcome := CO_Active 7%nat; ce_expires_at := 160; ce_invalidated := false |}]};
     tc_poisoned := false; tc_writes := 1; tc_writes_poisoned := false |}.
Lemma pending_invalidation_exact_witness :
  snd (push_resolve w_terms w_revoked w_cached [(Evict b#"did:a" b#"k", 120)] b#"did:a" b#"k" 120) = Err Revoked ∧
  snd (push_resolve w_terms w_revoked w_cached [] b#"did:a" b#"k" 120) = Ok 7%nat.
Proof.
  split; [|vm_compute; reflexivity].
  pose proof (pending_invalidation_exact w_terms w_revoked w_cached [(Evict b#"did:a" b#"k", 120)] b#"did:a" b#"k" 120 (Evict b#"did:a" b#"k") 120
    ltac:(by left) ltac:(by left)) as Hw.
  destruct (push_resolve w_terms w_revoked w_cached [(Evict b#"did:a" b#"k", 120)] b#"did:a" b#"k" 120) as [c' result]. exact (proj1 Hw).
Defined.
