(* ===== verification/TrustReload.v ===== *)
(** * What a replica's trust document says, and how long a replica stands by it

    The document enrols one key and one signer per key id, in the slots it names and no other; the
    store is the last document that was read, and answers nothing once nothing maintains it. *)

From S2P Require Import Prelude.
From S2P Require Import RustStr.
From S2P Require Import Externals.
From S2P Require Import CoreError.
From S2P Require Import CoreResolver.
From S2P Require Import Authorize.
From S2P Require Import TrustPlane.

(** ** A map filled from entries with distinct keys *)

Section filled.
Context {E A : Type} (P : E → bool) (f : E → bytes) (g : E → A).

Definition filled (es : list E) (m : gmap bytes A) : gmap bytes A := foldl (λ m e, if P e then <[f e := g e]> m else m) m es.

Lemma filled_lookup es m k v : NoDup (f <$> es) → Forall (λ e, m !! f e = None) es →
  filled es m !! k = Some v ↔ m !! k = Some v ∨ ∃ e, e ∈ es ∧ P e = true ∧ f e = k ∧ g e = v.
Proof.
  revert m. induction es as [|e es IH]; intros m Hnd Hm.
  { split; [by left|]. intros [?|(e & []%elem_of_nil & _)]. done. }
  apply NoDup_cons in Hnd as [Hni Hnd]. apply Forall_cons in Hm as [He Hm]. unfold filled. cbn [foldl]. fold (filled es (if P e then <[f e := g e]> m else m)).
  rewrite IH; [|done|].
  - split.
    + intros [Hl|(x & Hx & ?)]; [|right; exists x; split; [by right|done]].
      destruct (P e) eqn:EP; [|by left]. apply lookup_insert_Some in Hl as [[<- <-]|[_ ?]]; [|by left].
      right. exists e. split; [by left|done].
    + intros [Hl|(x & [->|Hx]%elem_of_cons & HP & <- & <-)]; [| |right; eauto]; left.
      * destruct (P e); [|done]. rewrite lookup_insert_ne; [done|]. intros E'. congruence.
      * rewrite HP. by rewrite lookup_insert_eq.
  - rewrite Forall_forall in Hm |- *. intros x Hx. destruct (P e); [|by apply Hm]. rewrite lookup_insert_ne; [by apply Hm|].
    intros E'. apply Hni. rewrite E'. by apply list_elem_of_fmap_2.
Qed.
Lemma filled_exact es k v : NoDup (f <$> es) → filled es ∅ !! k = Some v ↔ ∃ e, e ∈ es ∧ P e = true ∧ f e = k ∧ g e = v.
Proof.
  intros Hnd. rewrite filled_lookup, (lookup_empty (M:=gmap bytes)); [split; [by intros [|]|by right]|done|].
  apply Forall_true. intros e. apply lookup_empty.
Qed.
End filled.

(** ** The document *)

Section document.
Context `{Base64, Ed25519}.

Definition entry_of (r : RawEntry) (e : TrustEntry) : Prop :=
  te_signer e = re_signer r ∧ te_key_id e = re_key_id r ∧ VerificationKey_from_b64url (re_public_key r) = Ok (te_key e) ∧ te_slots e = re_slots r.
Definition request_slot (e : TrustEntry) (response_kid : bytes) : Prop :=
  te_key_id e ≠ response_kid ∧ match te_slots e with Some slots => SlotRequest ∈ slots | None => True end.
Definition issuer_slot (e : TrustEntry) (response_kid : bytes) : Prop :=
  te_key_id e ≠ response_kid ∧ match te_slots e with Some slots => SlotAuthorizationIssuer ∈ slots | None => False end.

Lemma key_ids_of raw es : Forall2 entry_of raw es → te_key_id <$> es = re_key_id <$> raw.
Proof. induction 1 as [|r e raw es (_ & E & _) _ IH]; [done|]. cbn. by rewrite E, IH. Qed.

Lemma find_key_id k es : List.find (λ e, bytes_eqb (te_key_id e) k) es = None ↔ k ∉ te_key_id <$> es.
Proof.
  induction es as [|e es IH]; cbn; [split; [intros _ []%elem_of_nil|done]|]. rewrite not_elem_of_cons.
  destruct (bytes_eqb (te_key_id e) k) eqn:E.
  - apply bytes_eqb_true in E as ->. split; [done|]. by intros [? _].
  - rewrite IH. split; [|by intros [_ ?]]. intros Hn. split; [|done]. intros ->. by rewrite bytes_eqb_refl in E.
Qed.

Lemma parse_entries_exact raw acc es : NoDup (te_key_id <$> acc) →
  parse_entries raw acc = Ok es ↔
  NoDup ((te_key_id <$> acc) ++ (re_key_id <$> raw)) ∧ ∃ new, es = acc ++ new ∧ Forall2 entry_of raw new.
Proof.
  revert acc. induction raw as [|r raw IH]; intros acc Hnd.
  { cbn. rewrite !app_nil_r. split; [intros [= <-]; split; [done|exists []; by rewrite app_nil_r]|].
    intros (_ & new & -> & Hn). inversion Hn. by rewrite app_nil_r. }
  cbn [parse_entries]. destruct (List.find _ acc) as [prior|] eqn:Ef.
  { split; [done|]. intros (Hn & _). exfalso. assert (re_key_id r ∉ te_key_id <$> acc) as Hni.
    { apply NoDup_app in Hn as (_ & Hd & _). intros Hin. apply (Hd _ Hin). cbn. by left. }
    apply find_key_id in Hni. congruence. }
  apply find_key_id in Ef. destruct (VerificationKey_from_b64url (re_public_key r)) as [key|err] eqn:Ek; cbn [map_err].
  2: { split; [done|]. intros (_ & new & _ & Hn). inversion Hn as [|? ? ? ? (_ & _ & Hk & _)]; subst. congruence. }
  set (e := {| te_signer := re_signer r; te_key_id := re_key_id r; te_key := key; te_slots := re_slots r |}).
  rewrite IH; [|rewrite fmap_app; cbn; apply NoDup_app; split; [done|]; split; [intros x Hx ->%list_elem_of_singleton; done|apply NoDup_singleton]].
  rewrite fmap_app, <-(assoc_L (++)). cbn. split; intros (Hn & new & -> & Hf); (split; [done|]).
  - exists (e :: new). rewrite <-(assoc_L (++)). split; [done|]. by constructor.
  - inversion Hf as [|? e' ? new' (E1 & E2 & E3 & E4) Hf']; subst. exists new'. rewrite <-(assoc_L (++)). split; [|done].
    destruct e' as [s k ky sl]. cbn in *. rewrite Ek in E3. injection E3 as ->. by subst.
Qed.

(** What each view of the entries answers. *)
Lemma NoDup_compose (es : list TrustEntry) : NoDup (te_key_id <$> es) → NoDup ((λ e, compose_key (te_signer e) (te_key_id e)) <$> es).
Proof.
  induction es as [|e es IH]; [done|]. cbn. rewrite !NoDup_cons. intros [Hni Hnd]. split; [|by apply IH].
  intros (e' & E & Hin)%list_elem_of_fmap. apply compose_key_inj in E as [_ E]. apply Hni. rewrite E. by apply list_elem_of_fmap_2.
Qed.
Lemma document_resolver_bindings es : 
  bindings (document_resolver es) = filled (λ _, true) (λ e, compose_key (te_signer e) (te_key_id e)) (λ e, BindingActive (te_key e)) es ∅.
Proof.
  unfold document_resolver, filled. change ∅ with (bindings (InMemoryTrustResolver_new (K:=VerificationKey))). generalize (InMemoryTrustResolver_new (K:=VerificationKey)).
  induction es as [|e es IH]; intros r; [done|]. apply IH.
Qed.
Lemma document_resolve es signer key_id key : NoDup (te_key_id <$> es) →
  in_memory_resolve (document_resolver es) signer key_id = Ok key ↔
  ∃ e, e ∈ es ∧ te_signer e = signer ∧ te_key_id e = key_id ∧ te_key e = key.
Proof.
  intros Hnd. unfold in_memory_resolve. rewrite document_resolver_bindings.
  pose proof (λ v, filled_exact (λ _, true) (λ e, compose_key (te_signer e) (te_key_id e)) (λ e, BindingActive (te_key e)) es
    (compose_key signer key_id) v (NoDup_compose es Hnd)) as Hl.
  destruct (filled _ _ _ es ∅ !! compose_key signer key_id) as [v|] eqn:Ev.
  - destruct (proj1 (Hl v) eq_refl) as (e & He & _ & [<- <-]%compose_key_inj & <-).
    split; [intros [= <-]; eauto|]. intros (e' & He' & Es & Ek & <-).
    assert (Some (BindingActive (te_key e)) = Some (BindingActive (te_key e'))) as E; [|congruence].
    apply Hl. exists e'. by rewrite Es, Ek.
  - split; [done|]. intros (e & He & <- & <- & <-). exfalso.
    assert (None = Some (BindingActive (te_key e))) as E; [|done]. apply Hl. by exists e.
Qed.
Lemma request_signers_lookup es response_kid key_id signer : NoDup (te_key_id <$> es) →
  request_signers es response_kid !! key_id = Some signer ↔
  ∃ e, e ∈ es ∧ request_slot e response_kid ∧ te_key_id e = key_id ∧ te_signer e = signer.
Proof.
  intros Hnd. unfold request_signers. fold (filled (λ e, negb (bytes_eqb (te_key_id e) response_kid) && (negb (is_some (te_slots e)) || te_lists e SlotRequest))
    te_key_id te_signer es ∅). rewrite filled_exact by done.
  assert (∀ e, negb (bytes_eqb (te_key_id e) response_kid) && (negb (is_some (te_slots e)) || te_lists e SlotRequest) = true ↔ request_slot e response_kid) as Hp.
  { intros e. unfold request_slot, te_lists. rewrite andb_true_iff, negb_true_iff, bytes_eqb_false. destruct (te_slots e); cbn; [|by split; intros [? _]].
    by rewrite bool_decide_eq_true. }
  by setoid_rewrite Hp.
Qed.
Lemma authorization_issuers_lookup es response_kid key_id a : NoDup (te_key_id <$> es) →
  authorization_issuers es response_kid !! key_id = Some a ↔
  ∃ e, e ∈ es ∧ issuer_slot e response_kid ∧ te_key_id e = key_id ∧ {| ea_name := te_signer e; ea_key := te_key e |} = a.
Proof.
  intros Hnd. unfold authorization_issuers. fold (filled (λ e, negb (bytes_eqb (te_key_id e) response_kid) && te_lists e SlotAuthorizationIssuer)
    te_key_id (λ e, {| ea_name := te_signer e; ea_key := te_key e |}) es ∅). rewrite filled_exact by done.
  assert (∀ e, negb (bytes_eqb (te_key_id e) response_kid) && te_lists e SlotAuthorizationIssuer = true ↔ issuer_slot e response_kid) as Hp.
  { intros e. unfold issuer_slot, te_lists. rewrite andb_true_iff, negb_true_iff, bytes_eqb_false. destruct (te_slots e); cbn; [by rewrite bool_decide_eq_true|].
    split; intros [? ?]; done. }
  by setoid_rewrite Hp.
Qed.

Lemma TrustDocument_parse_exact from_slice content es :
  TrustDocument_parse from_slice content = Ok es ↔
  ∃ raw, from_slice content = Ok raw ∧ NoDup (re_key_id <$> raw) ∧ Forall2 entry_of raw es.
Proof.
  unfold TrustDocument_parse. destruct (from_slice content) as [raw|e]; cbn [map_err]; [|split; [done|by intros (? & ? & _)]].
  rewrite parse_entries_exact by constructor. cbn. split.
  - intros (Hn & new & -> & Hf). by exists raw.
  - intros (raw' & [= <-] & Hn & Hf). split; [done|]. by exists es.
Qed.

(** C35: A trust document is accepted exactly when it is within the bound, every key parses and no
    key id is enrolled twice. Then a signer's key id resolves to the one key enrolled under both,
    a key id speaks for the signer it was enrolled for exactly in the request slot, and is an
    authorization issuer's exactly in that slot; the response key is in neither. *)
Theorem trust_document_exact from_slice path response_kid read snapshot :
  read_trust_file from_slice path response_kid read = Ok snapshot ↔
  ∃ content raw es, read = Ok content ∧ Z.of_nat (length content) ≤ MAX_TRUST_DOCUMENT_BYTES ∧
    from_slice content = Ok raw ∧ NoDup (re_key_id <$> raw) ∧ Forall2 entry_of raw es ∧
    snapshot = {| sn_resolver := document_resolver es; sn_signers := request_signers es response_kid |} ∧
    (∀ signer key_id key, snapshot_resolve snapshot signer key_id = Ok key ↔
       ∃ e, e ∈ es ∧ te_signer e = signer ∧ te_key_id e = key_id ∧ te_key e = key) ∧
    (∀ signer key_id, signer_for snapshot key_id = Some signer ↔
       ∃ e, e ∈ es ∧ request_slot e response_kid ∧ te_key_id e = key_id ∧ te_signer e = signer) ∧
    (∀ key_id a, authorization_issuers es response_kid !! key_id = Some a ↔
       ∃ e, e ∈ es ∧ issuer_slot e response_kid ∧ te_key_id e = key_id ∧ {| ea_name := te_signer e; ea_key := te_key e |} = a).
Proof.
  unfold read_trust_file, read_bounded. destruct read as [content|e]; cbn [map_err]; [|split; [done|by intros (? & ? & ? & ? & _)]].
  destruct (MAX_TRUST_DOCUMENT_BYTES <? Z.of_nat (length content)) eqn:El.
  { split; [done|]. apply Z.ltb_lt in El. intros (c & ? & ? & [= <-] & Hl & _). lia. }
  apply Z.ltb_ge in El. destruct (TrustDocument_parse from_slice content) as [es|e] eqn:Ep.
  - apply TrustDocument_parse_exact in Ep as (raw & Er & Hnd & Hf). assert (NoDup (te_key_id <$> es)) as Hnd' by (by rewrite (key_ids_of _ _ Hf)).
    split.
    + intros [= <-]. exists content, raw, es. repeat (split; [done|]). split; [|split]; intros *;
        [by apply document_resolve|by apply request_signers_lookup|by apply authorization_issuers_lookup].
    + intros (c & raw' & es' & [= <-] & _ & Er' & Hnd2 & Hf' & -> & _). 
      assert (TrustDocument_parse from_slice content = Ok es) as E1 by (apply TrustDocument_parse_exact; eauto).
      assert (TrustDocument_parse from_slice content = Ok es') as E2 by (apply TrustDocument_parse_exact; eauto). congruence.
  - split; [done|]. intros (c & raw & es & [= <-] & _ & Er & Hnd & Hf & _).
    assert (TrustDocument_parse from_slice content = Ok es) by (apply TrustDocument_parse_exact; eauto). congruence.
Qed.
End document.

(** ** The store over the cycles of its reload *)

Section reload.
Context `{Base64, Ed25519}.

Inductive reload_event := Cycle (read : Result TrustSnapshot bytes) | Retired.
Definition reload_step (s : Reloading) (ev : reload_event) : Reloading :=
  match ev with Cycle read => trust_reload_cycle s read | Retired => trust_retire s end.
Definition reload_run (started : TrustSnapshot) (events : list reload_event) : Reloading :=
  foldl reload_step {| rl_store := started; rl_freshness := freshness_default; rl_failures := 0 |} events.

(** The same, from the events alone. *)
Definition last_read (started : TrustSnapshot) (events : list reload_event) : TrustSnapshot :=
  foldl (λ s ev, match ev with Cycle (Ok s') => s' | _ => s end) started events.
Definition failures_in_a_row (events : list reload_event) : Z :=
  foldl (λ n ev, match ev with Cycle (Ok _) => 0 | Cycle (Err _) => n + 1 | Retired => n end) 0 events.
Definition was_retired (events : list reload_event) : bool := existsb (λ ev, match ev with Retired => true | _ => false end) events.

Lemma failures_nonneg events : 0 ≤ failures_in_a_row events.
Proof.
  unfold failures_in_a_row. assert (∀ n, 0 ≤ n → 0 ≤ foldl (λ n ev, match ev with Cycle (Ok _) => 0 | Cycle (Err _) => n + 1 | Retired => n end) n events) as Hg;
    [|by apply Hg].
  induction events as [|[[s|e]|] events IH]; intros n Hn; cbn; [done|..]; apply IH; lia.
Qed.

Lemma reload_run_state started events : let st := reload_run started events in
  rl_store st = last_read started events ∧ rl_failures st = Z.min (failures_in_a_row events) u32_MAX ∧
  fr_terminal (rl_freshness st) = was_retired events ∧
  (was_retired events = false → fr_stale (rl_freshness st) = (TRUST_RELOAD_FAILURE_BUDGET <=? failures_in_a_row events)).
Proof.
  induction events as [|ev events (Hs & Hf & Ht & Hst)] using rev_ind; [done|].
  pose proof (failures_nonneg events) as Hn. revert Hs Hf Ht Hst. unfold reload_run, last_read, failures_in_a_row, was_retired in *. rewrite !foldl_app, existsb_app.
  set (st := foldl reload_step _ events). set (n := foldl _ 0 events) in *. set (l := foldl _ started events). set (r := existsb _ events).
  intros Hs Hf Ht Hst. cbn [foldl existsb]. rewrite !orb_false_r. destruct ev as [[s|e]|]; cbn [reload_step trust_reload_cycle trust_retire rl_store rl_freshness rl_failures].
  - rewrite orb_false_r. split; [done|]. split; [done|]. unfold mark_fresh. rewrite Ht. destruct r eqn:Er; [done|]. by cbn.
  - rewrite orb_false_r, Hf. split; [done|]. split; [unfold u32_MAX; lia|].
    assert ((TRUST_RELOAD_FAILURE_BUDGET <=? Z.min (Z.min n u32_MAX + 1) u32_MAX) = (TRUST_RELOAD_FAILURE_BUDGET <=? n + 1)) as ->
      by (unfold TRUST_RELOAD_FAILURE_BUDGET, u32_MAX; lia).
    destruct (TRUST_RELOAD_FAILURE_BUDGET <=? n + 1) eqn:Eb; [done|]. split; [done|]. intros Hr. rewrite (Hst Hr).
    unfold TRUST_RELOAD_FAILURE_BUDGET in *. lia.
  - rewrite orb_true_r. split; [done|]. split; [done|]. split; [done|]. done.
Qed.

(** C36: Whatever was read on the cadence and whoever retired the plane: the store is the last
    document that was read, it is stale exactly when the plane was retired or the last five or more
    cycles failed, and no later success revives a retired one. A stale plane answers nothing, in
    every tier and whatever is cached; the live tier of a fresh one answers from that document. *)
Theorem reload_state_exact started events r pending signer key_id now :
  let st := reload_run started events in
  rl_store st = last_read started events ∧
  is_stale (rl_freshness st) = was_retired events || (TRUST_RELOAD_FAILURE_BUDGET <=? failures_in_a_row events) ∧
  if is_stale (rl_freshness st)
  then ∃ details, plane_resolve (rl_freshness st) (rl_store st) r pending signer key_id now = (r, Err (TrustUnavailable details))
  else snd (plane_resolve (rl_freshness st) (rl_store st) (build_revocation_resolver Live) pending signer key_id now) =
       snapshot_resolve (last_read started events) signer key_id.
Proof.
  cbn zeta. destruct (reload_run_state started events) as (Hs & _ & Ht & Hst). split; [done|].
  assert (is_stale (rl_freshness (reload_run started events)) = was_retired events || (TRUST_RELOAD_FAILURE_BUDGET <=? failures_in_a_row events)) as Hstale.
  { unfold is_stale. rewrite Ht. destruct (was_retired events); [done|]. cbn. by apply Hst. }
  split; [done|]. unfold plane_resolve, stale_fails_closed. destruct (is_stale _); [eauto|]. by rewrite Hs.
Qed.
End reload.
